(* ===== verification/_CoqProject ===== *)
-Q . S2P
Prelude.v
XdpMem.v
XdpParse.v
XdpRewrite.v
XdpBlock.v
XdpProgs.v
BufPool.v
XskPort.v
Dummeth.v
RcuList.v
MiscDev.v
CBase.v
CDecimal.v
CHeap.v
HeapLogic.v
CStrings.v
Vector.v
Grep.v
CcTwoPointers.v
CcSliding.v
CcArrays.v
CcMatrix.v
CcZigzag.v
CcCommon.v
CcMains.v
CcList.v
CFiles.v
TextTools.v
Hex.v
Sock.v
EchoTable.v
EchoServers.v
ThreadServer.v
LevelServers.v
PollServer.v
EchoClient.v
PlainSockets.v
Ncat.v
KernelFiles.v
KernelDevs.v
Wlan.v
Infrared.v
Httpd.v
HttpdSlots.v
Websocket.v
PacketRing.v
SymCrypt.v
AsymCrypt.v
Dtls.v
Tls.v
TlsTable.v
