(* ===== verification/Prelude.v ===== *)
(** * Verification of the C programs of the repository

    The repository is a collection of small Linux programs: XDP programs and the
    AF_XDP forwarder that uses them (src/ebpf-xdp), kernel modules (src/k...), tools
    and socket programs. This development models the parts that have state and
    algorithms of their own and proves what they do; programs that are sequences of
    system or library calls are left out.

    ** Method

    A C function is a Rocq function with the name it has in the source, in the monad
    [ST] of this file: it takes a state and returns a value and a new state, or a
    fault. Faults are the behaviours C leaves undefined or the kernel forbids: access
    outside an object, use of freed or indeterminate memory, a bad free, division by
    zero, taking a held lock, sleeping with a spin lock held; and the end of the program by
    a signal that it does not handle. A theorem that a function
    returns [Ok] therefore says that none of these happens. Integers are [Z], wrapped
    at the width of their C type where the code can wrap ([u8] ... [u64], [s32],
    [s64]); memory is a list of bytes or a finite map from addresses.

    What is not in the repository (system calls, kernel helpers, libxdp and libbpf) is an
    argument of the function that calls it: its outcome, or a function, with what the
    code relies on as hypotheses that a witness instantiates. Locks, allocation and the
    kernel's list and RCU primitives have their documented behaviour.

    [wp] is total correctness: [wp m Q s] says that [m] runs to its end from [s] and its
    result satisfies [Q]. The tactics [wp_step], [split_tests], [by_compute] and [zbool],
    the hint database [cprog] and the lemmas on words, byte strings, slices and C
    strings below are shared by all files.

    ** The parts and their files

    - src/ebpf-xdp/packet/kernel/parsing_helpers.h: [XdpMem] (packet memory, checked
      loads and stores) and [XdpParse] (every parsing helper). Theorems: no helper
      reads outside the packet; a frame with up to two VLAN tags parses to exactly what
      was written; headers with length fields are accepted exactly when they are
      complete.
    - src/ebpf-xdp/packet/kernel/rewrite_helpers.h, stats_kern.h: [XdpRewrite]. Pushing
      and popping a VLAN tag is a round trip; the swaps exchange exactly two fields; an
      action is counted exactly once.
    - src/ebpf-xdp/packet/kernel/xdp_packet_block.c: [XdpBlock]. The verdict, the packet
      and the counter on every packet, and when the checksums stay right.
    - src/ebpf-xdp/kernel: [XdpProgs]. The exact behaviour of the allow list, of the
      device redirect and of the socket redirect programs.
    - src/ebpf-xdp/xsk/af_rxtx.c (bpool_..., bcache_...): [BufPool]. The pool of packet
      buffers and its caches as arrays with bounds. The buffers in a slab are seen
      through slots; in every state reachable by the operations each buffer is in
      exactly one place, no access leaves an array, and the answer of
      [bcache_cons_check] can be relied on.
    - src/ebpf-xdp/xsk/af_rxtx.c (ports, threads, options) and main.c: [XskPort]. The fill and the transmit rings
      are arrays with the index of their producer, written and submitted as the code does it. A pass
      of the forwarding thread submits what it received, in order, but for less than a burst; accepted command
      lines; the distribution of ports; the paths of [port_init].
    - src/keth-if/kernel/core.c: [Dummeth], the driver of two network devices that are
      each other's wire. The linked lists of buffers are [chain]s in a heap; the driver
      refines an abstract wire under transmissions, polls, openings and stops. Where it does
      not keep its promises (frames longer than its buffers, an empty pool, a transmit
      timeout, which sleeps with a lock held, the regular interrupt handler, unloading) the
      theorems say exactly how.
    - src/ksync-rcu/list_rcu.c: [RcuList], the library of books under RCU. Each function
      is a state machine with one shared access a step, and any number of threads and
      callbacks interleave. With updates one after the other, readers never reach freed
      memory and each update takes effect at one step; without it, or with the late
      read of [is_borrowed_book], schedules that fault are given.
    - src/kmisc/miscdrv_rdwr.c, src/ksync-mutex/mutexlock_misc.c,
      src/ksync-spin/spinlock_misc.c and src/kmisc/rdwr_test_secret.c: [MiscDev], three
      versions of a driver and the program that uses it. The program is verified
      against the class [SecretDevice], of which the drivers are instances.

    - Programs over a heap of blocks: [CBase] (integers, loops, array access), [CDecimal]
      (decimal text), [CHeap] (blocks, pointers, [malloc] and the string functions,
      standard input and output), [HeapLogic] (a separation logic for them, in the proof
      mode of Iris, with [wpc] for runs that end well and [wpe] for runs that end in a
      given fault), [CStrings] ([strsep], [strtok], [strcat], [strstr], [fgets] and the
      splitting of strings) and [CFiles] (reading a file).
    - src/vector/string.c and int.c: [Vector]. Appending and erasing refine the operations
      on lists and own exactly the blocks of the list.
    - src/grep: [Grep], the whole program; what it prints when a line matches, and the
      fault when none does.
    - src/0xetc/0xcc: the exercises. [CcTwoPointers], [CcSliding], [CcArrays], [CcMatrix]
      and [CcZigzag] hold the solutions, which are proved against direct definitions of
      the answer; [CcCommon] the input helpers of common.c; [CcMains] and [CcList] the
      programs, from the text they read to the text they print.
    - src/wc and src/cat: [TextTools]. What both print for a file with a zero byte, and
      that they read past their buffer without one.
    - src/hex: [Hex]. The two conversions are inverse.
    - The echo servers: [Sock] (a kernel with descriptors, connections, a queue of clients,
      readiness by level and by edge), [EchoTable] (what the servers share), [EchoServers]
      (src/sock-epoll-tcp), [ThreadServer] (src/sock-thread-ctx-tcp), [LevelServers]
      (src/sock-select-tcp) and [PollServer] (src/sock-poll-tcp). Clients connect, send,
      finish and break off at any time; a reset is reported once, by a read or a send, and a
      send after that, or after the end of the stream, ends the program by SIGPIPE. The epoll
      and the select server answer what they are sent, in order, and lose no descriptor, for
      texts that fit their buffers and without the resets that kill them, which are theorems
      of their own; the theorems on the others, and on texts and ends that
      arrive together, say which clients are never answered.
    - The clients: [EchoClient] (connecting with a timeout, the conversation, the small client
      of src/sock-epoll-tcp/client.c) and [PlainSockets] (src/sock-tcp, src/sock-udp). A
      client and the select server are composed line by line, the TCP pair for a whole
      session and beyond its end, where the client goes on until a signal ends it.
    - src/ncat: [Ncat]. The client is two threads that interleave, with their lock; client and
      server show exactly the complete buffers among the bytes they receive.
    - src/kfsproc, src/kfssys and src/kfsdebug: [KernelFiles]; src/kioctl and src/kchar-dev:
      [KernelDevs]. The methods of the files, with locks, signals and the kernel's parser of
      numbers; loading as steps with which uses of the files interleave.
    - src/kwlan-if: [Wlan]. Requests and queued work in any order: every accepted scan is
      answered once.
    - src/infrared: [Infrared]. The pulses of a code can be read back to it, as long as they
      fit; what the receiver reports.
    - src/nat-server: [Httpd], the server's parser over the heap, with decoding of the target and
      the answers; [HttpdSlots], its table of child processes, in any interleaving with the
      parent, whose second look at the entry of a child is a step of its own.
    - src/websocket: [Websocket], the client with its list of received texts over the heap, and the
      handlers of the server, called in any order the library may call them in: a client is connected first and closed
      at most once.
    - src/sock-raw-mmap-packet-ip: [PacketRing]. Packets and checksum ([Packet]), setting up the
      rings ([Setup]), receiver ([Rx]) and sender ([Tx]) with the kernel acting between any two
      steps, and the two together ([Link]). The kernel takes frames to send only inside [send], and
      may refuse one. The sender keeps its order, and a refused packet blocks it for good; the
      receiver shows no packet twice; how it loses, reorders and mixes packets is proved with
      schedules.
    - src/crypt-sym: [SymCrypt]; src/crypt-asym: [AsymCrypt]. Programs over the heap and a file
      system; ciphers are parameters, with laws that a witness instantiates. Messages come back;
      what is not authenticated, and which failures are not noticed.
    - src/sock-dtls-udp: [Dtls], cookies and the loops of both sides. src/sock-tls-tcp and the client of
      src/sock-tls-ctx-tcp: [Tls], the lines shown of certificates, clients that verify before
      they write, the one conversation of client and server for lines that fit and end with [exit]. src/sock-tls-ctx-tcp/server: [TlsTable], the table of
      channels with the life of the objects in it; clients that leave in the reverse order of
      their arrival are served, one message at most 1006 bytes long for each descriptor left, and
      shorter runs in other orders end in a fault.

    ** Bounds and fuel

    Loops that the source bounds are structural ([vlan_loop] on the depth of two, the
    polling loop on its budget). [reserve_loop] of [XskPort] takes as fuel the number of
    attempts after which the ring, by hypothesis, has room. [teardown_loop] of [Dummeth]
    has the number of allocated buffers as fuel, which is proved to be enough. Twelve
    steps run each call of [list_rcu_init] of [RcuList] to its end, by computation. Loops
    over a string have the size of its block as fuel ([room]), loops over input its
    length; [twoSum], [addTwoNumbers] and [print_list] take fuel as an argument, and the
    theorems say how much is enough. [conn_loop] accepts at most as many clients as wait and one
    more; [getchars] runs to the end of its array of 80; [serve_client] of [Ncat] has one turn
    for each result of [read] and one more. The loops of [Websocket] over the list of texts take fuel,
    of which one more than the number of texts is enough; [headers] of [Httpd] runs over its
    table of 17 entries. The loops of [Dtls] and [Tls] run over the lists of results OpenSSL gives;
    where the list ends the program is waiting, or goes on.

    ** Not modelled

    Loaders, user interfaces and log output; the polling variant of the forwarding
    thread; setting up contexts and sockets where it is a sequence of calls whose results are only
    tested; programs whose control flow is a sequence of calls into the socket interface, hardware libraries or
    the kernel; demonstrations of single features of C or the operating system. *)
From stdpp Require Import base numbers list gmap strings.
Local Open Scope Z_scope.

(** ** Machine words *)

(** Unsigned wrap-around at width [w]; [u8] ... [u64] are the C types. *)
Definition wrapu (w z : Z) : Z := z mod 2 ^ w.
Definition u8 (z : Z) : Z := wrapu 8 z.
Definition u16 (z : Z) : Z := wrapu 16 z.
Definition u32 (z : Z) : Z := wrapu 32 z.
Definition u64 (z : Z) : Z := wrapu 64 z.

(** Two's complement reading of a 32-bit word: the C type [int]. *)
Definition s32 (z : Z) : Z := (z + 2 ^ 31) mod 2 ^ 32 - 2 ^ 31.

(** The C type [long] (64 bits). *)
Definition s64 (z : Z) : Z := (z + 2 ^ 63) mod 2 ^ 64 - 2 ^ 63.

(** Byte swap of a 16-bit word: [htons]/[ntohs] on a little-endian host. *)
Definition bswap16 (x : Z) : Z :=
  Z.lor (Z.shiftl (Z.land x 255) 8) (Z.land (Z.shiftr x 8) 255).

(** Little-endian value of a byte string, and the bytes of a value. *)
Fixpoint le_val (bs : list Z) : Z :=
  match bs with
  | [] => 0
  | b :: bs' => b + 256 * le_val bs'
  end.

Fixpoint le_bytes (n : nat) (z : Z) : list Z :=
  match n with
  | O => []
  | S n' => z mod 256 :: le_bytes n' (z / 256)
  end.

Definition is_byte (b : Z) : Prop := 0 <= b < 256.
#[global] Instance is_byte_dec b : Decision (is_byte b).
Proof. unfold is_byte. apply _. Defined.

Lemma wrapu_range w z : 0 <= w -> 0 <= wrapu w z < 2 ^ w.
Proof. intros. apply Z.mod_pos_bound. lia. Qed.

Lemma wrapu_small w z : 0 <= z < 2 ^ w -> wrapu w z = z.
Proof. intros. by apply Z.mod_small. Qed.

Lemma s32_small z : - 2 ^ 31 <= z < 2 ^ 31 -> s32 z = z.
Proof. intros. unfold s32. rewrite Z.mod_small; lia. Qed.

Lemma s32_range z : - 2 ^ 31 <= s32 z < 2 ^ 31.
Proof. unfold s32. pose proof (Z.mod_pos_bound (z + 2 ^ 31) (2 ^ 32)). lia. Qed.

Lemma lor_shiftl8 a b : 0 <= b < 256 -> Z.lor (Z.shiftl a 8) b = a * 256 + b.
Proof.
  intros Hb.
  assert (Z.land (Z.shiftl a 8) b = 0) as H0.
  { apply Z.bits_inj'. intros n Hn. rewrite Z.land_spec, Z.bits_0.
    destruct (decide (n < 8)).
    - rewrite Z.shiftl_spec_low by lia. done.
    - rewrite (proj1 (Z.bounded_iff_bits_nonneg 8 b ltac:(lia) ltac:(lia))) by lia.
      apply andb_false_r. }
  rewrite <- Z.add_nocarry_lor by done.
  rewrite Z.shiftl_mul_pow2 by lia. reflexivity.
Qed.

Lemma land_255 x : Z.land x 255 = x mod 256.
Proof. apply (Z.land_ones x 8). lia. Qed.

Lemma shiftr_8 x : Z.shiftr x 8 = x / 256.
Proof. apply (Z.shiftr_div_pow2 x 8). lia. Qed.

(** The arithmetic reading of the byte swap. *)
Lemma bswap16_eq x : bswap16 x = x mod 256 * 256 + (x / 256) mod 256.
Proof.
  unfold bswap16. rewrite !land_255, shiftr_8.
  apply lor_shiftl8. apply Z.mod_pos_bound. lia.
Qed.

Lemma bswap16_range x : 0 <= bswap16 x < 65536.
Proof.
  rewrite bswap16_eq.
  pose proof (Z.mod_pos_bound x 256). pose proof (Z.mod_pos_bound (x / 256) 256). lia.
Qed.

Lemma bswap16_pair a b : is_byte a -> is_byte b -> bswap16 (a + 256 * b) = b + 256 * a.
Proof.
  unfold is_byte. intros Ha Hb. rewrite bswap16_eq.
  Z.to_euclidean_division_equations. lia.
Qed.

Lemma bswap16_invol x : 0 <= x < 65536 -> bswap16 (bswap16 x) = x.
Proof.
  intros Hx. rewrite (bswap16_eq x).
  assert (0 <= x / 256 < 256) by (split; [apply Z.div_pos | apply Z.div_lt_upper_bound]; lia).
  pose proof (Z.mod_pos_bound x 256).
  rewrite (Z.mod_small (x / 256)) by lia.
  replace (x mod 256 * 256 + x / 256) with (x / 256 + 256 * (x mod 256)) by lia.
  rewrite bswap16_pair by (unfold is_byte; lia).
  pose proof (Z.div_mod x 256). lia.
Qed.

Lemma bswap16_inj x y :
  0 <= x < 65536 -> 0 <= y < 65536 -> bswap16 x = bswap16 y -> x = y.
Proof.
  intros Hx Hy Heq. rewrite <- (bswap16_invol x), <- (bswap16_invol y) by done. by rewrite Heq.
Qed.

(** Network-order bytes of a 16-bit value. *)
Definition be16 (v : Z) : list Z := [v / 256; v mod 256].

Lemma le_val_be16 v : 0 <= v < 65536 -> le_val (be16 v) = bswap16 v.
Proof.
  intros Hv. unfold be16. cbn [le_val]. rewrite bswap16_eq, (Z.mod_small (v / 256)); [lia|].
  split; [apply Z.div_pos | apply Z.div_lt_upper_bound]; lia.
Qed.

(** What a store of a byte-swapped word leaves in memory. *)
Lemma le_bytes_bswap16 v : le_bytes 2 (bswap16 v) = be16 (u16 v).
Proof.
  unfold be16, u16, wrapu. rewrite bswap16_eq. change (2 ^ 16) with 65536.
  cbn [le_bytes]. Z.to_euclidean_division_equations. repeat f_equal; lia.
Qed.

(** ** Little-endian byte strings *)

Lemma length_le_bytes n z : length (le_bytes n z) = n.
Proof. revert z. induction n; intros; simpl; auto. Qed.

Lemma le_bytes_byte n z : Forall is_byte (le_bytes n z).
Proof.
  revert z. induction n; intros; simpl; constructor; auto.
  unfold is_byte. apply Z.mod_pos_bound. lia.
Qed.

Lemma le_val_range bs : Forall is_byte bs -> 0 <= le_val bs < 256 ^ Z.of_nat (length bs).
Proof.
  unfold is_byte. induction 1 as [|b bs Hb _ IH]; [simpl; lia|].
  cbn [le_val length]. rewrite Nat2Z.inj_succ, Z.pow_succ_r by lia. nia.
Qed.

(** Reading back what was written: the value modulo the width. *)
Lemma le_val_bytes n z : le_val (le_bytes n z) = z mod 256 ^ Z.of_nat n.
Proof.
  revert z. induction n as [|n IH]; intros z.
  - simpl. by rewrite Z.mod_1_r.
  - cbn [le_val le_bytes]. rewrite IH, Nat2Z.inj_succ, Z.pow_succ_r by lia.
    by rewrite Z.rem_mul_r by lia.
Qed.

Lemma le_bytes_val bs : Forall is_byte bs -> le_bytes (length bs) (le_val bs) = bs.
Proof.
  unfold is_byte. induction 1 as [|b bs Hb _ IH]; [done|]. cbn [le_val le_bytes length].
  f_equal.
  - rewrite Z.mul_comm, Z_mod_plus_full, Z.mod_small; lia.
  - rewrite Z.mul_comm, Z.div_add, Z.div_small, Z.add_0_l by lia. apply IH.
Qed.

(** ** Splicing: overwriting a run of an array in place *)
Section splice.
Context {A : Type}.
Implicit Types (l bs : list A) (i j : nat).

Definition slice (i n : nat) (l : list A) : list A := take n (drop i l).
Definition splice (i : nat) (bs l : list A) : list A :=
  take i l ++ bs ++ drop (i + length bs) l.

Lemma length_slice i n l : (i + n <= length l)%nat -> length (slice i n l) = n.
Proof. intros. unfold slice. rewrite length_take, length_drop. lia. Qed.

Lemma length_splice i bs l :
  (i + length bs <= length l)%nat -> length (splice i bs l) = length l.
Proof. intros. unfold splice. rewrite !length_app, length_take, length_drop. lia. Qed.

Lemma lookup_slice i n l j : (j < n)%nat -> slice i n l !! j = l !! (i + j)%nat.
Proof. intros. unfold slice. by rewrite lookup_take_lt, lookup_drop by lia. Qed.

Lemma lookup_splice_new i bs l j :
  (i + length bs <= length l)%nat -> (i <= j < i + length bs)%nat ->
  splice i bs l !! j = bs !! (j - i)%nat.
Proof.
  intros. unfold splice. rewrite lookup_app_r; rewrite length_take_le by lia; [|lia].
  by rewrite lookup_app_l by lia.
Qed.

Lemma lookup_splice_old i bs l j :
  (i + length bs <= length l)%nat -> (j < i \/ i + length bs <= j)%nat ->
  splice i bs l !! j = l !! j.
Proof.
  intros Hle [Hlt|Hge]; unfold splice.
  - rewrite lookup_app_l by (rewrite length_take; lia). by apply lookup_take_lt.
  - rewrite lookup_app_r; rewrite length_take_le by lia; [|lia].
    rewrite lookup_app_r by lia. rewrite lookup_drop. f_equal. lia.
Qed.

Lemma slice_splice_same i bs l :
  (i + length bs <= length l)%nat -> slice i (length bs) (splice i bs l) = bs.
Proof.
  intros. apply list_eq. intros j. destruct (decide (j < length bs)%nat).
  - rewrite lookup_slice, lookup_splice_new by lia. f_equal. lia.
  - rewrite !lookup_ge_None_2; [done|lia|].
    rewrite length_slice; [lia|]. rewrite length_splice; lia.
Qed.

Lemma slice_splice_disjoint i bs l j n :
  (i + length bs <= length l)%nat -> (j + n <= length l)%nat ->
  (j + n <= i \/ i + length bs <= j)%nat ->
  slice j n (splice i bs l) = slice j n l.
Proof.
  intros. apply list_eq. intros k. destruct (decide (k < n)%nat).
  - rewrite !lookup_slice by lia. apply lookup_splice_old; lia.
  - rewrite !lookup_ge_None_2; [done| |]; rewrite length_slice; rewrite ?length_splice; lia.
Qed.

Lemma splice_slice_id i n l : (i + n <= length l)%nat -> splice i (slice i n l) l = l.
Proof.
  intros. unfold splice. rewrite length_slice by lia. unfold slice.
  rewrite app_assoc, take_take_drop. by rewrite take_drop.
Qed.

Lemma slice_app pre mid post :
  slice (length pre) (length mid) (pre ++ mid ++ post) = mid.
Proof. unfold slice. by rewrite drop_app_length, take_app_length. Qed.

Lemma splice_app pre old post bs :
  length bs = length old ->
  splice (length pre) bs (pre ++ old ++ post) = pre ++ bs ++ post.
Proof.
  intros Hlen. unfold splice. rewrite take_app_length.
  rewrite drop_app_ge by lia. replace (length pre + length bs - length pre)%nat with (length old) by lia.
  by rewrite drop_app_length.
Qed.

(** Overwriting one element, inside and outside a slice. *)
Lemma slice_insert_ne i n j v l :
  (j < i \/ i + n <= j)%nat -> slice i n (<[j := v]> l) = slice i n l.
Proof.
  intros Hj. apply list_eq. intros k. destruct (decide (k < n)%nat).
  - rewrite !lookup_slice by lia. apply list_lookup_insert_ne. lia.
  - unfold slice. rewrite !(lookup_ge_None_2 _ k); auto; rewrite length_take; lia.
Qed.

Lemma slice_insert_end i n v l :
  (i + n < length l)%nat -> slice i (S n) (<[(i + n)%nat := v]> l) = slice i n l ++ [v].
Proof.
  intros. unfold slice. rewrite (take_S_r _ _ v).
  - by rewrite drop_insert_ge, take_insert_ge by lia.
  - rewrite lookup_drop. apply list_lookup_insert_eq. lia.
Qed.

Lemma slice_S i n l v : l !! (i + n)%nat = Some v -> slice i (S n) l = slice i n l ++ [v].
Proof. intros H. unfold slice. apply take_S_r. by rewrite lookup_drop. Qed.

(** Cut a list at a position. *)
Lemma list_cut n l : (n <= length l)%nat -> exists l1 l2, l = l1 ++ l2 /\ length l1 = n.
Proof.
  intros. exists (take n l), (drop n l). rewrite take_drop, length_take. split; [done|lia].
Qed.

Lemma Forall_slice (P : A -> Prop) i n l : Forall P l -> Forall P (slice i n l).
Proof. intros. by apply Forall_take, Forall_drop. Qed.

Lemma Forall_splice (P : A -> Prop) i bs l :
  Forall P l -> Forall P bs -> Forall P (splice i bs l).
Proof.
  intros. unfold splice. repeat apply Forall_app_2; auto using Forall_take, Forall_drop.
Qed.
End splice.
#[global] Typeclasses Opaque slice splice.

Lemma perm_eq {A} (l l' : list A) : l = l' -> l ≡ₚ l'.
Proof. by intros ->. Qed.

Lemma list_bind_ext_in {A B} (f g : A -> list B) l :
  (forall x, x ∈ l -> f x = g x) -> l ≫= f = l ≫= g.
Proof.
  induction l as [|x l IH]; intros H; [done|]. rewrite !bind_cons, IH, H; auto; [left|].
  intros y Hy. apply H. by right.
Qed.

(** ** C strings *)

(** The characters before the first zero byte. *)
Fixpoint c_chars (s : list Z) : list Z :=
  match s with
  | [] => []
  | c :: s' => if c =? 0 then [] else c :: c_chars s'
  end.

(** The string at a place in memory: the bytes read up to the first zero byte; [None]
    when there is none before the end of the object. *)
Fixpoint c_string (mem : list Z) : option (list Z) :=
  match mem with
  | [] => None
  | c :: mem' => if c =? 0 then Some [] else cons c <$> c_string mem'
  end.

Definition no_nul (s : list Z) : Prop := Forall (fun c => c <> 0) s.

Lemma c_string_app l l' : 0 ∈ l' -> is_Some (c_string (l ++ l')).
Proof.
  intros Hin. induction l as [|c l IH]; simpl.
  - induction l' as [|c l' IH]; [by apply not_elem_of_nil in Hin|]. simpl.
    destruct (c =? 0) eqn:E; [done|]. apply fmap_is_Some, IH. apply elem_of_cons in Hin as [?|?]; [lia|done].
  - destruct (c =? 0); [done|]. by apply fmap_is_Some.
Qed.

Lemma c_string_nul s l : no_nul s -> c_string (s ++ 0 :: l) = Some s.
Proof. induction 1 as [|c s Hc _ IH]; [done|]. simpl. destruct (c =? 0) eqn:E; [lia|]. by rewrite IH. Qed.
Lemma c_chars_nul s l : no_nul s -> c_chars (s ++ 0 :: l) = s.
Proof. induction 1 as [|c s Hc _ IH]; [done|]. simpl. destruct (c =? 0) eqn:E; [lia|]. by rewrite IH. Qed.
Lemma c_string_none s : no_nul s -> c_string s = None.
Proof. induction 1 as [|c s Hc _ IH]; [done|]. simpl. destruct (c =? 0) eqn:E; [lia|]. by rewrite IH. Qed.
Lemma c_chars_none s : no_nul s -> c_chars s = s.
Proof. induction 1 as [|c s Hc _ IH]; [done|]. simpl. destruct (c =? 0) eqn:E; [lia|]. by rewrite IH. Qed.
Lemma c_chars_no_nul s : no_nul (c_chars s).
Proof. induction s as [|c s IH]; simpl; [constructor|]. destruct (c =? 0) eqn:E; constructor; [lia|done]. Qed.
Lemma length_c_chars s : (length (c_chars s) <= length s)%nat.
Proof. induction s as [|c s IH]; simpl; [done|]. destruct (c =? 0); simpl; lia. Qed.
Lemma c_string_chars mem s : c_string mem = Some s -> c_chars mem = s /\ exists l, mem = s ++ 0 :: l.
Proof.
  revert s. induction mem as [|c mem IH]; intros s; simpl; [done|]. destruct (c =? 0) eqn:E.
  - intros [= <-]. split; [done|]. exists mem. simpl. f_equal. lia.
  - destruct (c_string mem) as [s'|]; simpl; [|done]. intros [= <-]. destruct (IH s' eq_refl) as [-> [l ->]]. eauto.
Qed.

(** ** State, faults and total correctness

    C code is modelled as a function from a state to either a result with
    the next state, or a fault: an access the C program (or the kernel) does
    not survive. *)
Inductive fault :=
  | OutOfBounds      (** access outside an object or outside the packet *)
  | NullDeref        (** dereference of a null pointer *)
  | UseAfterFree     (** access to a freed block *)
  | BadFree          (** free of something that is not a live block *)
  | Uninit           (** use of an indeterminate value *)
  | DivByZero        (** integer division by zero *)
  | Overflow         (** overflow of a signed integer *)
  | Deadlock         (** taking a lock that is already held *)
  | SleepInAtomic    (** blocking while holding a spin lock *)
  | Aborted          (** a failed assertion *)
  | Killed           (** ended by a signal that is not handled *)
  | OutOfFuel.       (** a bounded model of an unbounded loop was cut off *)

Inductive res (A : Type) :=
  | Ok (a : A)
  | Err (e : fault).
Arguments Ok {A} a.
Arguments Err {A} e.

Definition ST (S A : Type) : Type := S -> res (A * S).

#[global] Instance ST_ret S : MRet (ST S) := fun A a s => Ok (a, s).
#[global] Instance ST_bind S : MBind (ST S) := fun A B f m s =>
  match m s with
  | Ok (a, s') => f a s'
  | Err e => Err e
  end.

Definition stget {S} : ST S S := fun s => Ok (s, s).
Definition stput {S} (s : S) : ST S unit := fun _ => Ok (tt, s).
Definition stfail {S A} (e : fault) : ST S A := fun _ => Err e.

(** [wp m Q s]: run from [s], [m] does not fault and ends in [Q]. *)
Definition wp {S A} (m : ST S A) (Q : A -> S -> Prop) (s : S) : Prop :=
  match m s with
  | Ok (a, s') => Q a s'
  | Err _ => False
  end.

Section wp.
Context {S : Type}.
Implicit Types (s : S).

Lemma wp_ret {A} (a : A) (Q : A -> S -> Prop) s : Q a s -> wp (mret a) Q s.
Proof. done. Qed.

Lemma wp_bind {A B} (m : ST S A) (f : A -> ST S B) Q s :
  wp m (fun a s' => wp (f a) Q s') s -> wp (mbind f m) Q s.
Proof. unfold wp, mbind, ST_bind. by destruct (m s) as [[a s']|]. Qed.

Lemma wp_mono {A} (m : ST S A) (Q Q' : A -> S -> Prop) s :
  wp m Q s -> (forall a s', Q a s' -> Q' a s') -> wp m Q' s.
Proof. unfold wp. destruct (m s) as [[a s']|]; auto. Qed.

Lemma wp_get Q s : Q s s -> wp (A:=S) stget Q s.
Proof. done. Qed.

Lemma wp_put s' Q s : Q tt s' -> wp (stput s') Q s.
Proof. done. Qed.

(** A postcondition is a statement about the actual result. *)
Lemma wp_run {A} (m : ST S A) Q s : wp m Q s -> exists a s', m s = Ok (a, s') /\ Q a s'.
Proof. unfold wp. destruct (m s) as [[a s']|]; [eauto|done]. Qed.

Lemma wp_of_run {A} (m : ST S A) (Q : A -> S -> Prop) s a s' :
  m s = Ok (a, s') -> Q a s' -> wp m Q s.
Proof. unfold wp. by intros ->. Qed.

Lemma run_of_wp {A} (m : ST S A) s a0 s0 :
  wp m (fun a s' => a = a0 /\ s' = s0) s -> m s = Ok (a0, s0).
Proof. unfold wp. destruct (m s) as [[a s']|]; [by intros [-> ->]|done]. Qed.

Lemma bind_run {A B} (m : ST S A) (f : A -> ST S B) s a s' :
  m s = Ok (a, s') -> mbind f m s = f a s'.
Proof. unfold mbind, ST_bind. by intros ->. Qed.

Lemma bind_err {A B} (m : ST S A) (f : A -> ST S B) s e :
  m s = Err e -> mbind f m s = Err e.
Proof. unfold mbind, ST_bind. by intros ->. Qed.

Lemma ret_run {A} (a : A) s : mret (M:=ST S) a s = Ok (a, s).
Proof. done. Qed.
End wp.

#[global] Opaque wp.

Create HintDb cprog.
#[export] Hint Resolve wp_ret wp_get wp_put : cprog.

(** Case analysis on every boolean test in the goal, as hypotheses for lia. *)
Ltac split_tests :=
  repeat match goal with
  | |- context [if ?b then _ else _] =>
      lazymatch b with
      | context [if _ then _ else _] => fail
      | _ => let E := fresh "E" in destruct b eqn:E
      end
  end.

(** Advance a weakest precondition through binds and returns. *)
Ltac wp_step :=
  lazymatch goal with
  | |- wp (mbind _ _) _ _ => apply wp_bind
  | |- wp (mret _) _ _ => apply wp_ret
  | |- wp stget _ _ => apply wp_get
  | |- wp (stput _) _ _ => apply wp_put
  end.

(** Equality of concatenations up to bracketing. *)
Ltac app_eq := rewrite <- ?app_assoc; cbn [app]; rewrite <- ?app_assoc; done.

(** Decide a closed proposition by evaluating its decision procedure. *)
Ltac by_compute := apply (bool_decide_unpack _); vm_compute; exact I.

(** Boolean comparisons in hypotheses as propositions, for [lia]. *)
Ltac zbool :=
  repeat match goal with
  | H : (_ <? _) = true |- _ => apply Z.ltb_lt in H
  | H : (_ <? _) = false |- _ => apply Z.ltb_ge in H
  | H : (_ <=? _) = true |- _ => apply Z.leb_le in H
  | H : (_ <=? _) = false |- _ => apply Z.leb_gt in H
  | H : (_ =? _) = true |- _ => apply Z.eqb_eq in H
  | H : (_ =? _) = false |- _ => apply Z.eqb_neq in H
  end.
