(* ===== verification/XdpMem.v ===== *)
(** * The packet as an XDP program sees it

    The context record [struct xdp_md], checked access to the packet bytes
    between [data] and [data_end], and the header layouts (offsets and sizes of
    the Linux uapi structures) that the programs under src/ebpf-xdp read. *)
From S2P Require Import Prelude.
From stdpp Require Import base numbers list.
Local Open Scope Z_scope.

(** The frame buffer (headroom included), the window [data, data_end) the
    program may touch, and the two context words the programs read. Pointers
    into the packet are offsets into [frame]. *)
Record xdp_md := mk_xdp_md {
  frame : list Z;
  data : Z;
  data_end : Z;
  ingress_ifindex : Z;
  rx_queue_index : Z;
}.

Definition X (A : Type) : Type := ST xdp_md A.

Definition xdp_wf (c : xdp_md) : Prop :=
  0 <= data c <= data_end c /\ data_end c <= Z.of_nat (length (frame c))
  /\ Forall is_byte (frame c).

#[global] Instance xdp_wf_dec c : Decision (xdp_wf c).
Proof. unfold xdp_wf. apply _. Defined.

Definition with_frame (c : xdp_md) (f : list Z) : xdp_md :=
  mk_xdp_md f (data c) (data_end c) (ingress_ifindex c) (rx_queue_index c).

(** Does [off, off+n) lie inside the window the program may touch? *)
Definition in_packet (c : xdp_md) (off n : Z) : bool :=
  (data c <=? off) && (off + n <=? data_end c).

(** Unchecked reading of the bytes at an offset: what a load returns. *)
Definition bytes_at (c : xdp_md) (off : Z) (n : nat) : list Z :=
  slice (Z.to_nat off) n (frame c).
Definition rd8 (c : xdp_md) (off : Z) : Z := le_val (bytes_at c off 1).
Definition rd16 (c : xdp_md) (off : Z) : Z := le_val (bytes_at c off 2).
Definition rd32 (c : xdp_md) (off : Z) : Z := le_val (bytes_at c off 4).

(** Unchecked overwriting of the bytes at an offset: what a store leaves. *)
Definition wr (c : xdp_md) (off : Z) (bs : list Z) : xdp_md :=
  with_frame c (splice (Z.to_nat off) bs (frame c)).

(** Checked loads and stores (the host is little endian). *)
Definition load (off : Z) (n : nat) : X (list Z) := fun c =>
  if in_packet c off (Z.of_nat n) then Ok (bytes_at c off n, c) else Err OutOfBounds.
Definition store (off : Z) (bs : list Z) : X unit := fun c =>
  if in_packet c off (Z.of_nat (length bs))
  then Ok (tt, wr c off bs)
  else Err OutOfBounds.

Definition ld8 (off : Z) : X Z := bs ← load off 1; mret (le_val bs).
Definition ld16 (off : Z) : X Z := bs ← load off 2; mret (le_val bs).
Definition ld32 (off : Z) : X Z := bs ← load off 4; mret (le_val bs).
Definition st16 (off v : Z) : X unit := store off (le_bytes 2 v).
Definition st32 (off v : Z) : X unit := store off (le_bytes 4 v).

(** [bpf_htons] and [bpf_ntohs] on the little-endian host. *)
Definition bpf_htons (x : Z) : Z := bswap16 x.
Definition bpf_ntohs (x : Z) : Z := bswap16 x.

(** Verdicts, [enum xdp_action]. *)
Definition XDP_ABORTED : Z := 0.
Definition XDP_DROP : Z := 1.
Definition XDP_PASS : Z := 2.
Definition XDP_TX : Z := 3.
Definition XDP_REDIRECT : Z := 4.

(** Protocol numbers (host order). *)
Definition ETH_P_IP : Z := 0x0800.
Definition ETH_P_IPV6 : Z := 0x86DD.
Definition ETH_P_8021Q : Z := 0x8100.
Definition ETH_P_8021AD : Z := 0x88A8.
Definition IPPROTO_ICMP : Z := 1.
Definition IPPROTO_TCP : Z := 6.
Definition IPPROTO_UDP : Z := 17.

(** Sizes of the headers and offsets of the fields that are used. *)
Definition sz_ethhdr : Z := 14.
Definition sz_vlan_hdr : Z := 4.
Definition sz_iphdr : Z := 20.
Definition sz_ipv6hdr : Z := 40.
Definition sz_icmphdr : Z := 8.
Definition sz_icmp6hdr : Z := 8.
Definition sz_icmphdr_common : Z := 4.
Definition sz_udphdr : Z := 8.
Definition sz_tcphdr : Z := 20.
Definition ETH_ALEN : nat := 6.

Definition h_dest (eth : Z) : Z := eth.
Definition h_source (eth : Z) : Z := eth + 6.
Definition h_proto (eth : Z) : Z := eth + 12.
Definition h_vlan_TCI (vlh : Z) : Z := vlh.
Definition h_vlan_encapsulated_proto (vlh : Z) : Z := vlh + 2.
Definition ip_protocol (iph : Z) : Z := iph + 9.
Definition ip_saddr (iph : Z) : Z := iph + 12.
Definition ip_daddr (iph : Z) : Z := iph + 16.
Definition ip6_nexthdr (ip6h : Z) : Z := ip6h + 6.
Definition ip6_saddr (ip6h : Z) : Z := ip6h + 8.
Definition ip6_daddr (ip6h : Z) : Z := ip6h + 24.
Definition udp_dest (udph : Z) : Z := udph + 2.
Definition udp_len (udph : Z) : Z := udph + 4.
Definition udp_check (udph : Z) : Z := udph + 6.
Definition tcp_dest (tcph : Z) : Z := tcph + 2.
Definition tcp_check (tcph : Z) : Z := tcph + 16.

(** The IPv4 header length field (low nibble of the first byte) and the TCP
    data offset (high nibble of byte 12), both in 32-bit words. *)
Definition ld_ihl (iph : Z) : X Z := b ← ld8 iph; mret (Z.land b 15).
Definition ld_doff (tcph : Z) : X Z := b ← ld8 (tcph + 12); mret (Z.shiftr b 4).
Definition rd_ihl (c : xdp_md) (iph : Z) : Z := Z.land (rd8 c iph) 15.
Definition rd_doff (c : xdp_md) (tcph : Z) : Z := Z.shiftr (rd8 c (tcph + 12)) 4.

Create HintDb xdp.

(** ** Running loads and stores *)

Lemma load_run c off n :
  in_packet c off (Z.of_nat n) = true -> load off n c = Ok (bytes_at c off n, c).
Proof. intros H. unfold load. by rewrite H. Qed.

Lemma store_run c off bs :
  in_packet c off (Z.of_nat (length bs)) = true ->
  store off bs c = Ok (tt, wr c off bs).
Proof. intros H. unfold store. by rewrite H. Qed.

Lemma wp_load off n Q c :
  data c <= off -> off + Z.of_nat n <= data_end c -> Q (bytes_at c off n) c ->
  wp (load off n) Q c.
Proof.
  intros. eapply wp_of_run; [|done]. apply load_run. unfold in_packet. lia.
Qed.

Lemma wp_ld8 off Q c :
  data c <= off -> off + 1 <= data_end c -> Q (rd8 c off) c -> wp (ld8 off) Q c.
Proof. intros. unfold ld8. wp_step. by apply wp_load. Qed.

Lemma wp_ld16 off Q c :
  data c <= off -> off + 2 <= data_end c -> Q (rd16 c off) c -> wp (ld16 off) Q c.
Proof. intros. unfold ld16. wp_step. by apply wp_load. Qed.

Lemma wp_ld32 off Q c :
  data c <= off -> off + 4 <= data_end c -> Q (rd32 c off) c -> wp (ld32 off) Q c.
Proof. intros. unfold ld32. wp_step. by apply wp_load. Qed.

Lemma wp_ld_ihl off Q c :
  data c <= off -> off + 1 <= data_end c -> Q (rd_ihl c off) c -> wp (ld_ihl off) Q c.
Proof. intros. unfold ld_ihl. wp_step. by apply wp_ld8. Qed.

Lemma wp_ld_doff off Q c :
  data c <= off + 12 -> off + 13 <= data_end c -> Q (rd_doff c off) c -> wp (ld_doff off) Q c.
Proof. intros. unfold ld_doff. wp_step. apply wp_ld8; [lia|lia|done]. Qed.

Lemma wp_store off bs Q c :
  data c <= off -> off + Z.of_nat (length bs) <= data_end c ->
  Q tt (wr c off bs) -> wp (store off bs) Q c.
Proof. intros. eapply wp_of_run; [|done]. apply store_run. unfold in_packet. lia. Qed.

Lemma wp_st16 off v Q c :
  data c <= off -> off + 2 <= data_end c -> Q tt (wr c off (le_bytes 2 v)) -> wp (st16 off v) Q c.
Proof. intros. unfold st16. by apply wp_store. Qed.

Lemma wp_st32 off v Q c :
  data c <= off -> off + 4 <= data_end c -> Q tt (wr c off (le_bytes 4 v)) -> wp (st32 off v) Q c.
Proof. intros. unfold st32. by apply wp_store. Qed.

(** ** Reading after writing *)

Lemma data_wr c off bs : data (wr c off bs) = data c.
Proof. done. Qed.
Lemma data_end_wr c off bs : data_end (wr c off bs) = data_end c.
Proof. done. Qed.

Lemma wr_wf c off bs :
  xdp_wf c -> data c <= off -> off + Z.of_nat (length bs) <= data_end c ->
  Forall is_byte bs -> xdp_wf (wr c off bs).
Proof.
  intros (Hd & He & Hb) ? ? ?. unfold xdp_wf, wr, with_frame. simpl. split_and!; [lia|lia| |].
  - rewrite length_splice; lia.
  - by apply Forall_splice.
Qed.

Lemma bytes_at_wr_same c off bs n :
  xdp_wf c -> data c <= off -> off + Z.of_nat n <= data_end c -> length bs = n ->
  bytes_at (wr c off bs) off n = bs.
Proof.
  intros (Hd & He & _) ? ? <-. unfold bytes_at, wr, with_frame. simpl.
  apply slice_splice_same. lia.
Qed.

Lemma bytes_at_wr_other c off bs off' n :
  xdp_wf c -> data c <= off -> off + Z.of_nat (length bs) <= data_end c ->
  data c <= off' -> off' + Z.of_nat n <= data_end c ->
  (off' + Z.of_nat n <= off \/ off + Z.of_nat (length bs) <= off') ->
  bytes_at (wr c off bs) off' n = bytes_at c off' n.
Proof.
  intros (Hd & He & _) ? ? ? ? ?. unfold bytes_at, wr, with_frame. simpl.
  apply slice_splice_disjoint; lia.
Qed.

Lemma rd16_wr_same c off v :
  xdp_wf c -> data c <= off -> off + 2 <= data_end c ->
  rd16 (wr c off (le_bytes 2 v)) off = u16 v.
Proof.
  intros. unfold rd16. rewrite bytes_at_wr_same by (auto; apply length_le_bytes).
  apply le_val_bytes.
Qed.

(** Reading and writing when the frame is known as a concatenation. *)
Lemma bytes_at_app c off n pre mid post :
  frame c = pre ++ mid ++ post -> Z.of_nat (length pre) = off -> length mid = n ->
  bytes_at c off n = mid.
Proof. intros Hf <- <-. unfold bytes_at. rewrite Hf, Nat2Z.id. apply slice_app. Qed.

Lemma frame_wr_app c off bs pre old post :
  frame c = pre ++ old ++ post -> Z.of_nat (length pre) = off -> length bs = length old ->
  frame (wr c off bs) = pre ++ bs ++ post.
Proof. intros Hf <- Hl. unfold wr, with_frame. simpl. rewrite Hf, Nat2Z.id. by apply splice_app. Qed.

(** The packet: the bytes of the window. *)
Definition packet (c : xdp_md) : list Z := bytes_at c (data c) (Z.to_nat (data_end c - data c)).

Section rd_ranges.
Context (c : xdp_md) (Hwf : xdp_wf c).

Lemma bytes_at_bytes off n : Forall is_byte (bytes_at c off n).
Proof. destruct Hwf as (_ & _ & H). by apply Forall_slice. Qed.

Lemma length_bytes_at off n :
  data c <= off -> off + Z.of_nat n <= data_end c -> length (bytes_at c off n) = n.
Proof. destruct Hwf as (? & ? & _). intros. unfold bytes_at. apply length_slice. lia. Qed.

Lemma bytes_at_len_le off n : (length (bytes_at c off n) <= n)%nat.
Proof. unfold bytes_at, slice. rewrite length_take. lia. Qed.

Lemma rd_range off n : 0 <= le_val (bytes_at c off n) < 256 ^ Z.of_nat n.
Proof.
  pose proof (le_val_range _ (bytes_at_bytes off n)).
  pose proof (bytes_at_len_le off n).
  assert (256 ^ Z.of_nat (length (bytes_at c off n)) <= 256 ^ Z.of_nat n)
    by (apply Z.pow_le_mono_r; lia). lia.
Qed.

Lemma rd8_range off : 0 <= rd8 c off < 256.
Proof. apply (rd_range off 1). Qed.
Lemma rd16_range off : 0 <= rd16 c off < 65536.
Proof. apply (rd_range off 2). Qed.
Lemma rd32_range off : 0 <= rd32 c off < 2 ^ 32.
Proof. apply (rd_range off 4). Qed.

(** Storing a loaded word back stores the bytes that were there. *)
Lemma le_bytes_rd16 off :
  data c <= off -> off + 2 <= data_end c -> le_bytes 2 (rd16 c off) = bytes_at c off 2.
Proof.
  intros. unfold rd16. rewrite <- (length_bytes_at off 2) at 1 by lia.
  apply le_bytes_val, bytes_at_bytes.
Qed.
Lemma le_bytes_rd32 off :
  data c <= off -> off + 4 <= data_end c -> le_bytes 4 (rd32 c off) = bytes_at c off 4.
Proof.
  intros. unfold rd32. rewrite <- (length_bytes_at off 4) at 1 by lia.
  apply le_bytes_val, bytes_at_bytes.
Qed.

Lemma rd_ihl_range off : 0 <= rd_ihl c off < 16.
Proof.
  unfold rd_ihl. change 15 with (Z.ones 4). rewrite Z.land_ones by lia.
  apply Z.mod_pos_bound. lia.
Qed.

Lemma rd_doff_range off : 0 <= rd_doff c off < 16.
Proof.
  unfold rd_doff. pose proof (rd8_range (off + 12)).
  rewrite Z.shiftr_div_pow2 by lia. split.
  - apply Z.div_pos; lia.
  - apply Z.div_lt_upper_bound; lia.
Qed.
End rd_ranges.

#[export] Hint Resolve rd8_range rd16_range rd32_range rd_ihl_range rd_doff_range wr_wf : xdp.

(** Advance a weakest precondition of packet code: binds, returns, checked
    accesses whose bounds [lia] finds in the context. *)
Ltac off_lia :=
  unfold sz_ethhdr, sz_vlan_hdr, sz_iphdr, sz_ipv6hdr, sz_icmphdr, sz_icmp6hdr,
    sz_icmphdr_common, sz_udphdr, sz_tcphdr, h_dest, h_source, h_proto, h_vlan_TCI,
    h_vlan_encapsulated_proto, ip_protocol, ip_saddr, ip_daddr, ip6_nexthdr, ip6_saddr,
    ip6_daddr, udp_dest, udp_len, udp_check, tcp_dest, tcp_check, ETH_ALEN in *;
  rewrite ?data_wr, ?data_end_wr in *; simpl length in *; lia.

Ltac xwp :=
  repeat first
    [ wp_step
    | apply wp_ld8; [off_lia | off_lia |]
    | apply wp_ld16; [off_lia | off_lia |]
    | apply wp_ld32; [off_lia | off_lia |]
    | apply wp_ld_ihl; [off_lia | off_lia |]
    | apply wp_ld_doff; [off_lia | off_lia |]
    | apply wp_st16; [off_lia | off_lia |]
    | apply wp_st32; [off_lia | off_lia |]
    | apply wp_load; [off_lia | off_lia |] ].
