(* ===== verification/XdpParse.v ===== *)
(** * Header parsing of the XDP programs

    src/ebpf-xdp/packet/kernel/parsing_helpers.h: one definition per parsing
    helper. A helper takes the cursor position and [data_end] and returns the
    C return value together with the new cursor and the header pointer it
    writes through its out parameter ([None] when it does not write it). *)
From S2P Require Import Prelude XdpMem.
From stdpp Require Import base numbers list.
Local Open Scope Z_scope.

Definition VLAN_MAX_DEPTH : nat := 2.
Definition VLAN_VID_MASK : Z := 0x0fff.

(** The result of a helper: return value, [nh->pos], the header pointer. *)
Record parsed := mk_parsed { p_ret : Z; p_pos : Z; p_hdr : option Z }.

Definition parse_fail (nh : Z) : parsed := mk_parsed (-1) nh None.

Definition proto_is_vlan (proto : Z) : bool :=
  (proto =? bpf_htons ETH_P_8021Q) || (proto =? bpf_htons ETH_P_8021AD).

(** The unrolled loop over VLAN tags; [vlans] is the caller's array of ids, or
    [None] for the null pointer. *)
Fixpoint vlan_loop (n i : nat) (vlh data_end proto : Z) (vlans : option (list Z))
    : X (Z * Z * option (list Z)) :=
  match n with
  | O => mret (vlh, proto, vlans)
  | S n' =>
      if negb (proto_is_vlan proto) then mret (vlh, proto, vlans)
      else if data_end <? vlh + sz_vlan_hdr then mret (vlh, proto, vlans)
      else
        proto' ← ld16 (h_vlan_encapsulated_proto vlh);
        vlans' ← match vlans with
                 | Some ids =>
                     tci ← ld16 (h_vlan_TCI vlh);
                     mret (Some (<[i := Z.land (bpf_ntohs tci) VLAN_VID_MASK]> ids))
                 | None => mret None
                 end;
        vlan_loop n' (S i) (vlh + sz_vlan_hdr) data_end proto' vlans'
  end.

Definition parse_ethhdr_vlan (nh data_end : Z) (vlans : option (list Z))
    : X (parsed * option (list Z)) :=
  let eth := nh in
  if data_end <? nh + sz_ethhdr then mret (parse_fail nh, vlans)
  else
    proto ← ld16 (h_proto eth);
    '(vlh, proto', vlans') ← vlan_loop VLAN_MAX_DEPTH 0 (nh + sz_ethhdr) data_end proto vlans;
    mret (mk_parsed proto' vlh (Some eth), vlans').

Definition parse_ethhdr (nh data_end : Z) : X parsed :=
  '(r, _) ← parse_ethhdr_vlan nh data_end None; mret r.

Definition parse_ip6hdr (nh data_end : Z) : X parsed :=
  let ip6h := nh in
  if data_end <? ip6h + sz_ipv6hdr then mret (parse_fail nh)
  else
    nexthdr ← ld8 (ip6_nexthdr ip6h);
    mret (mk_parsed nexthdr (ip6h + sz_ipv6hdr) (Some ip6h)).

Definition parse_iphdr (nh data_end : Z) : X parsed :=
  let iph := nh in
  if data_end <? iph + sz_iphdr then mret (parse_fail nh)
  else
    ihl ← ld_ihl iph;
    let hdrsize := ihl * 4 in
    if hdrsize <? sz_iphdr then mret (parse_fail nh)
    else if data_end <? nh + hdrsize then mret (parse_fail nh)
    else
      protocol ← ld8 (ip_protocol iph);
      mret (mk_parsed protocol (nh + hdrsize) (Some iph)).

Definition parse_icmp6hdr (nh data_end : Z) : X parsed :=
  let icmp6h := nh in
  if data_end <? icmp6h + sz_icmp6hdr then mret (parse_fail nh)
  else
    type ← ld8 icmp6h;
    mret (mk_parsed type (icmp6h + sz_icmp6hdr) (Some icmp6h)).

Definition parse_icmphdr (nh data_end : Z) : X parsed :=
  let icmph := nh in
  if data_end <? icmph + sz_icmphdr then mret (parse_fail nh)
  else
    type ← ld8 icmph;
    mret (mk_parsed type (icmph + sz_icmphdr) (Some icmph)).

Definition parse_icmphdr_common (nh data_end : Z) : X parsed :=
  let h := nh in
  if data_end <? h + sz_icmphdr_common then mret (parse_fail nh)
  else
    type ← ld8 h;
    mret (mk_parsed type (h + sz_icmphdr_common) (Some h)).

(** The payload length is computed in [size_t] and then stored in an [int]. *)
Definition parse_udphdr (nh data_end : Z) : X parsed :=
  let h := nh in
  if data_end <? h + sz_udphdr then mret (parse_fail nh)
  else
    hlen ← ld16 (udp_len h);
    let len := s32 (u64 (bpf_ntohs hlen - sz_udphdr)) in
    if len <? 0 then mret (mk_parsed (-1) (h + sz_udphdr) (Some h))
    else mret (mk_parsed len (h + sz_udphdr) (Some h)).

Definition parse_tcphdr (nh data_end : Z) : X parsed :=
  let h := nh in
  if data_end <? h + sz_tcphdr then mret (parse_fail nh)
  else
    doff ← ld_doff h;
    let len := doff * 4 in
    if len <? sz_tcphdr then mret (parse_fail nh)
    else if data_end <? nh + len then mret (parse_fail nh)
    else mret (mk_parsed len (nh + len) (Some h)).

(** ** What a caller may rely on

    A parsing helper called with the program's own [data_end] and a cursor
    inside the packet never touches a byte outside the packet, leaves the
    packet alone, and either reports -1 or hands out the header at the cursor
    and moves the cursor forward, at most to [data_end]. *)
Definition parser_post (c : xdp_md) (nh : Z) (r : parsed) (c' : xdp_md) : Prop :=
  c' = c /\
  (p_ret r = -1 \/
   0 <= p_ret r /\ p_hdr r = Some nh /\ nh < p_pos r <= data_end c).

Class Parser (h : Z -> Z -> X parsed) : Prop :=
  parser_ok : forall c nh, xdp_wf c -> data c <= nh ->
    wp (h nh (data_end c)) (parser_post c nh) c.

Ltac solve_parser :=
  let c := fresh "c" in let nh := fresh "nh" in let Hwf := fresh "Hwf" in
  intros c nh Hwf ?;
  unfold parse_ip6hdr, parse_iphdr, parse_icmp6hdr, parse_icmphdr, parse_icmphdr_common,
    parse_udphdr, parse_tcphdr, parse_fail;
  repeat (split_tests; xwp);
  unfold parser_post; simpl; split; auto;
  try (right; split_and!; auto; try off_lia;
       (apply rd8_range || apply rd16_range || idtac); auto).

#[export] Instance parse_ip6hdr_ok : Parser parse_ip6hdr.
Proof. solve_parser. Qed.
#[export] Instance parse_iphdr_ok : Parser parse_iphdr.
Proof. solve_parser. Qed.
#[export] Instance parse_icmp6hdr_ok : Parser parse_icmp6hdr.
Proof. solve_parser. Qed.
#[export] Instance parse_icmphdr_ok : Parser parse_icmphdr.
Proof. solve_parser. Qed.
#[export] Instance parse_icmphdr_common_ok : Parser parse_icmphdr_common.
Proof. solve_parser. Qed.
#[export] Instance parse_udphdr_ok : Parser parse_udphdr.
Proof. solve_parser. Qed.
#[export] Instance parse_tcphdr_ok : Parser parse_tcphdr.
Proof. solve_parser. Qed.

(** The loop stays inside the packet whatever the tags are. *)
Lemma vlan_loop_ok c n i vlh proto vlans :
  xdp_wf c -> data c <= vlh <= data_end c -> 0 <= proto < 65536 ->
  wp (vlan_loop n i vlh (data_end c) proto vlans)
     (fun '(vlh', proto', _) c' => c' = c /\ vlh <= vlh' <= data_end c /\ 0 <= proto' < 65536) c.
Proof.
  revert i vlh proto vlans. induction n as [|n IH]; intros i vlh proto vlans Hwf Hv Hp; cbn [vlan_loop].
  - xwp. auto with lia.
  - split_tests; xwp; [auto with lia..|].
    destruct vlans as [ids|]; xwp; (eapply wp_mono; [apply IH; eauto with xdp; off_lia|]);
      intros [[? ?] ?] ? (-> & ? & ?); split_and!; auto; off_lia.
Qed.

Lemma parse_ethhdr_vlan_ok c nh vlans :
  xdp_wf c -> data c <= nh ->
  wp (parse_ethhdr_vlan nh (data_end c) vlans) (fun '(r, _) c' => parser_post c nh r c') c.
Proof.
  intros Hwf Hnh. unfold parse_ethhdr_vlan, parse_fail, parser_post. split_tests; xwp; [auto|].
  eapply wp_mono; [apply vlan_loop_ok; eauto with xdp; off_lia|].
  intros [[vlh proto] ids] c' (-> & ? & ?). xwp. simpl.
  split; [done|right]. split_and!; auto; off_lia.
Qed.

#[export] Instance parse_ethhdr_ok : Parser parse_ethhdr.
Proof.
  intros c nh Hwf Hnh. unfold parse_ethhdr. xwp.
  eapply wp_mono; [by apply parse_ethhdr_vlan_ok|]. intros [r ids] c' ?. by xwp.
Qed.

(** ** A frame writer, the reference for the Ethernet parser *)

(** From the first EtherType on: each tag is its tag protocol and its TCI. *)
Fixpoint eth_tail (tags : list (Z * Z)) (proto : Z) : list Z :=
  match tags with
  | [] => be16 proto
  | (tpid, tci) :: tags' => be16 tpid ++ be16 tci ++ eth_tail tags' proto
  end.

Definition is_vlan_tpid (p : Z) : bool := (p =? ETH_P_8021Q) || (p =? ETH_P_8021AD).
Definition u16_ok (v : Z) : bool := (0 <=? v) && (v <? 65536).
Definition tag_ok (t : Z * Z) : bool := is_vlan_tpid t.1 && u16_ok t.2.

(** The header that [eth_tail] continues starts at [nh]. *)
Definition eth_at (c : xdp_md) (nh : Z) (tags : list (Z * Z)) (proto : Z) : Prop :=
  data c <= nh /\ nh + 14 + 4 * Z.of_nat (length tags) <= data_end c /\
  bytes_at c (nh + 12) (2 + 4 * length tags) = eth_tail tags proto.

Definition tag_vid (t : Z * Z) : Z := Z.land t.2 VLAN_VID_MASK.

Lemma is_vlan_tpid_u16 p : is_vlan_tpid p = true -> 0 <= p < 65536.
Proof. unfold is_vlan_tpid, ETH_P_8021Q, ETH_P_8021AD. lia. Qed.

(** The vlan test on the wire value is the vlan test on the host value. *)
Lemma proto_is_vlan_htons p : 0 <= p < 65536 -> proto_is_vlan (bpf_htons p) = is_vlan_tpid p.
Proof.
  intros Hp. unfold proto_is_vlan, is_vlan_tpid, bpf_htons.
  f_equal; apply eq_bool_prop_intro; rewrite !Is_true_true, !Z.eqb_eq;
    (split; [|by intros ->]); apply bswap16_inj; auto; unfold ETH_P_8021Q, ETH_P_8021AD; lia.
Qed.

(** Sub-slices of a known run of bytes. *)
Lemma bytes_at_sub c off (n : nat) bs (k m : nat) :
  0 <= off -> bytes_at c off n = bs -> (k + m <= n)%nat ->
  bytes_at c (off + Z.of_nat k) m = slice k m bs.
Proof.
  intros Hoff <- Hle. unfold bytes_at. apply list_eq. intros j.
  destruct (decide (j < m)%nat).
  - rewrite !lookup_slice by lia. f_equal. lia.
  - rewrite !(lookup_ge_None_2 _ j); auto; unfold slice; rewrite length_take; lia.
Qed.

Fixpoint collect (i : nat) (tags : list (Z * Z)) (ids : list Z) : list Z :=
  match tags with
  | [] => ids
  | t :: tags' => collect (S i) tags' (<[i := tag_vid t]> ids)
  end.

Lemma collect_spec tags : forall i ids, (i + length tags <= length ids)%nat ->
  collect i tags ids = take i ids ++ (tag_vid <$> tags) ++ drop (i + length tags) ids.
Proof.
  induction tags as [|t tags IH]; intros i ids Hle; simpl in *.
  - by rewrite Nat.add_0_r, take_drop.
  - rewrite IH by (rewrite length_insert; lia).
    rewrite (take_S_r _ _ (tag_vid t)) by (apply list_lookup_insert_eq; lia).
    rewrite take_insert_ge, drop_insert_lt by lia.
    rewrite <- app_assoc. simpl. do 4 f_equal. lia.
Qed.

(** Reading the first EtherType of a tail, and the tail behind a tag. *)
Section tail.
Context (c : xdp_md) (p : Z) (proto : Z) (Hp : 0 <= p).

Lemma rd16_tail_nil :
  u16_ok proto = true -> bytes_at c p 2 = eth_tail [] proto -> rd16 c p = bpf_htons proto.
Proof. intros Hpr H. unfold rd16. rewrite H. apply le_val_be16. unfold u16_ok in Hpr. lia. Qed.

Context (tpid tci : Z) (tags : list (Z * Z)).
Context (Htag : tag_ok (tpid, tci) = true).
Context (Hat : bytes_at c p (2 + 4 * S (length tags)) = eth_tail ((tpid, tci) :: tags) proto).

Lemma rd16_tail_tpid : rd16 c p = bpf_htons tpid.
Proof.
  pose proof (bytes_at_sub c p _ _ 0 2 Hp Hat ltac:(lia)) as H. rewrite Z.add_0_r in H.
  unfold rd16. rewrite H. apply le_val_be16, is_vlan_tpid_u16.
  unfold tag_ok in Htag. simpl in Htag. by apply andb_prop in Htag as [? _].
Qed.

Lemma rd16_tail_tci : rd16 c (p + 2) = bpf_htons tci.
Proof.
  pose proof (bytes_at_sub c p _ _ 2 2 Hp Hat ltac:(lia)) as H.
  change (Z.of_nat 2) with 2 in H.
  unfold rd16. rewrite H. apply le_val_be16. unfold tag_ok, u16_ok in Htag. simpl in Htag. lia.
Qed.

Lemma tail_behind_tag : bytes_at c (p + 4) (2 + 4 * length tags) = eth_tail tags proto.
Proof.
  pose proof (bytes_at_sub c p _ _ 4 (2 + 4 * length tags) Hp Hat ltac:(lia)) as H.
  change (Z.of_nat 4) with 4 in H. rewrite H. unfold slice. simpl. apply take_ge.
  clear H Hat Htag. induction tags as [|[??] ? IH]; simpl in *; lia.
Qed.
End tail.

Lemma option_fmap_id {A} (o : option A) : (fun x => x) <$> o = o.
Proof. by destruct o. Qed.

Lemma vlan_loop_decode c tags proto : forall n i vlh vlans,
  xdp_wf c -> data c <= vlh - 2 -> vlh + 4 * Z.of_nat (length tags) <= data_end c ->
  bytes_at c (vlh - 2) (2 + 4 * length tags) = eth_tail tags proto ->
  forallb tag_ok tags = true -> u16_ok proto = true ->
  (length tags <= n)%nat -> length tags = n \/ is_vlan_tpid proto = false \/
    data_end c < vlh + 4 * Z.of_nat (length tags) + 4 ->
  wp (vlan_loop n i vlh (data_end c) (rd16 c (vlh - 2)) vlans)
     (fun r c' => r = (vlh + 4 * Z.of_nat (length tags), bpf_htons proto, collect i tags <$> vlans)
                  /\ c' = c) c.
Proof.
  induction tags as [|[tpid tci] tags IH]; intros n i vlh vlans Hwf Hd He Hat Hok Hpr Hn Hlast.
  - rewrite (rd16_tail_nil c (vlh - 2) proto) by done. unfold u16_ok in Hpr.
    destruct n as [|n]; cbn [vlan_loop]; rewrite ?proto_is_vlan_htons by lia.
    + xwp. rewrite option_fmap_id, Z.add_0_r. done.
    + destruct Hlast as [?| Hlast]; [done|].
      destruct (is_vlan_tpid proto); cbn [negb].
      * destruct Hlast; [done|]. split_tests; [|simpl length in *; off_lia]. xwp.
        by rewrite option_fmap_id, Z.add_0_r.
      * xwp. by rewrite option_fmap_id, Z.add_0_r.
  - cbn [forallb length] in *. apply andb_prop in Hok as [Htag Hok].
    assert (0 <= vlh - 2) as Hp by (destruct Hwf; lia).
    pose proof (rd16_tail_tci c (vlh - 2) proto Hp tpid tci tags Htag Hat) as Htci.
    pose proof (tail_behind_tag c (vlh - 2) proto Hp tpid tci tags Hat) as Hrest.
    replace (vlh - 2 + 2) with vlh in Htci by lia.
    replace (vlh - 2 + 4) with (vlh + 4 - 2) in Hrest by lia.
    rewrite (rd16_tail_tpid c (vlh - 2) proto Hp tpid tci tags Htag Hat).
    unfold tag_ok, u16_ok in Htag. cbn [fst snd] in Htag.
    apply andb_prop in Htag as [Htpid Htci16].
    destruct n as [|n]; [lia|]. cbn [vlan_loop].
    rewrite proto_is_vlan_htons, Htpid by (by apply is_vlan_tpid_u16). cbn [negb].
    split_tests; [off_lia|]. xwp.
    replace (h_vlan_encapsulated_proto vlh) with (vlh + 4 - 2) by off_lia.
    assert (tag_vid (tpid, tci) = Z.land (bpf_ntohs (rd16 c vlh)) VLAN_VID_MASK) as Hvid.
    { rewrite Htci. unfold bpf_ntohs, bpf_htons. rewrite bswap16_invol by lia. done. }
    assert (length tags = n \/ is_vlan_tpid proto = false \/
            data_end c < vlh + 4 + 4 * Z.of_nat (length tags) + 4) as Hlast'
      by (destruct Hlast as [?|[?|?]]; [left; lia | by right; left | right; right; lia]).
    change (vlh + sz_vlan_hdr) with (vlh + 4).
    destruct vlans as [ids|]; xwp;
      (eapply wp_mono; [apply IH; try eassumption; off_lia|]);
      intros r c' [-> ->]; cbn [collect fmap option_fmap option_map]; unfold h_vlan_TCI;
      rewrite ?Hvid; split; auto; do 2 f_equal; unfold sz_vlan_hdr; lia.
Qed.

(** Every 16-bit value read from the packet is the network order of some value. *)
Lemma rd16_as_be c off :
  xdp_wf c -> data c <= off -> off + 2 <= data_end c ->
  exists p, u16_ok p = true /\ rd16 c off = bpf_htons p /\ bytes_at c off 2 = be16 p.
Proof.
  intros Hwf Hd He. exists (bswap16 (rd16 c off)).
  pose proof (rd16_range c Hwf off) as Hr. pose proof (bswap16_range (rd16 c off)).
  unfold u16_ok, bpf_htons. rewrite bswap16_invol by done. split_and!; [lia|done|].
  pose proof (le_bytes_bswap16 (bswap16 (rd16 c off))) as Hb.
  rewrite bswap16_invol in Hb by done. unfold u16 in Hb. rewrite wrapu_small in Hb by (simpl; lia).
  rewrite <- Hb. unfold rd16. rewrite <- (length_bytes_at c Hwf off 2) at 2 by lia.
  symmetry. apply le_bytes_val. by apply bytes_at_bytes.
Qed.

Lemma bytes_at_split c off n m :
  0 <= off -> bytes_at c off (n + m) = bytes_at c off n ++ bytes_at c (off + Z.of_nat n) m.
Proof.
  intros. unfold bytes_at, slice. rewrite Z2Nat.inj_add, Nat2Z.id by lia.
  rewrite <- drop_drop. by rewrite take_take_drop.
Qed.

(** What the frame at [nh] says: its tags, at most two, and the EtherType behind
    them. The tags end because there are two, because the EtherType is no tag
    protocol, or because the next tag is cut off by the end of the packet. *)
Definition l2_at (c : xdp_md) (nh : Z) (tags : list (Z * Z)) (proto : Z) : Prop :=
  eth_at c nh tags proto /\ forallb tag_ok tags = true /\ u16_ok proto = true /\
  (length tags <= VLAN_MAX_DEPTH)%nat /\
  (length tags = VLAN_MAX_DEPTH \/ is_vlan_tpid proto = false \/
   data_end c < nh + 14 + 4 * Z.of_nat (length tags) + 4).

Lemma tags_exist c : xdp_wf c -> forall n vlh,
  data c <= vlh - 2 -> vlh <= data_end c ->
  exists tags proto, bytes_at c (vlh - 2) (2 + 4 * length tags) = eth_tail tags proto /\
    forallb tag_ok tags = true /\ u16_ok proto = true /\ (length tags <= n)%nat /\
    vlh + 4 * Z.of_nat (length tags) <= data_end c /\
    (length tags = n \/ is_vlan_tpid proto = false \/
     data_end c < vlh + 4 * Z.of_nat (length tags) + 4).
Proof.
  intros Hwf n. induction n as [|n IH]; intros vlh Hd He;
    destruct (rd16_as_be c (vlh - 2)) as (p & Hp & _ & Hbe); auto; try lia.
  { exists [], p. simpl. split_and!; auto; lia. }
  destruct (is_vlan_tpid p) eqn:Hv; [destruct (decide (vlh + 4 <= data_end c))|].
  - destruct (rd16_as_be c vlh) as (tci & Htci & _ & Hbt); auto; [lia..|].
    destruct (IH (vlh + 4)) as (tags & proto & Hat & Hok & Hpr & Hn & Hle & Hend); [lia..|].
    exists ((p, tci) :: tags), proto. cbn [length forallb eth_tail].
    split_and!; [ | |done|lia|lia|destruct Hend as [?|[?|?]]; auto with lia].
    + replace (2 + 4 * S (length tags))%nat with (2 + (2 + (2 + 4 * length tags)))%nat by lia.
      assert (0 <= vlh - 2) by (destruct Hwf; lia).
      rewrite !bytes_at_split, Hbe by lia. change (Z.of_nat 2) with 2.
      replace (vlh - 2 + 2) with vlh by lia. rewrite Hbt.
      replace (vlh + 2) with (vlh + 4 - 2) by lia. by rewrite <- bytes_at_split, Hat by lia.
    + apply andb_true_intro. split; [|done]. unfold tag_ok. simpl. by rewrite Hv, Htci.
  - exists [], p. simpl. split_and!; auto with lia.
  - exists [], p. simpl. split_and!; auto with lia.
Qed.

(** Every packet that holds an Ethernet header has such a reading. *)
Lemma l2_exists c nh :
  xdp_wf c -> data c <= nh -> nh + 14 <= data_end c -> exists tags proto, l2_at c nh tags proto.
Proof.
  intros Hwf Hd He.
  destruct (tags_exist c Hwf VLAN_MAX_DEPTH (nh + 14)) as (tags & proto & Hat & H & ? & ? & ? & ?);
    [lia..|].
  exists tags, proto. unfold l2_at, eth_at. replace (nh + 14 - 2) with (nh + 12) in Hat by lia.
  split_and!; auto.
Qed.

Lemma parse_ethhdr_vlan_run c nh tags proto vlans :
  xdp_wf c -> l2_at c nh tags proto ->
  parse_ethhdr_vlan nh (data_end c) vlans c =
  Ok (mk_parsed (bpf_htons proto) (nh + 14 + 4 * Z.of_nat (length tags)) (Some nh),
      collect 0 tags <$> vlans, c).
Proof.
  intros Hwf ((Hd & He & Hat) & Hok & Hpr & Hn & Hlast).
  apply run_of_wp. unfold parse_ethhdr_vlan. split_tests; [off_lia|]. xwp.
  replace (h_proto nh) with (nh + sz_ethhdr - 2) by off_lia.
  eapply wp_mono.
  { apply (vlan_loop_decode c tags proto); auto; try off_lia.
    replace (nh + sz_ethhdr - 2) with (nh + 12) by off_lia. done. }
  intros r c' [-> ->]. by xwp.
Qed.

Lemma parse_ethhdr_run c nh tags proto :
  xdp_wf c -> l2_at c nh tags proto ->
  parse_ethhdr nh (data_end c) c =
  Ok (mk_parsed (bpf_htons proto) (nh + 14 + 4 * Z.of_nat (length tags)) (Some nh), c).
Proof.
  intros Hwf Hl2. unfold parse_ethhdr.
  by rewrite (bind_run _ _ _ _ _ (parse_ethhdr_vlan_run c nh tags proto None Hwf Hl2)).
Qed.

(** ** Exact results of the helpers the programs use *)
Section exact.
Context (c : xdp_md) (nh : Z) (Hwf : xdp_wf c) (Hnh : data c <= nh).

Ltac exact_run := apply run_of_wp; split_tests; xwp; split_tests; xwp; try off_lia; auto.

Lemma parse_ip6hdr_run :
  parse_ip6hdr nh (data_end c) c =
  Ok (if nh + 40 <=? data_end c then mk_parsed (rd8 c (nh + 6)) (nh + 40) (Some nh)
      else parse_fail nh, c).
Proof. unfold parse_ip6hdr. exact_run. Qed.

Lemma parse_iphdr_run :
  parse_iphdr nh (data_end c) c =
  Ok (if (nh + 20 <=? data_end c) && (5 <=? rd_ihl c nh) && (nh + 4 * rd_ihl c nh <=? data_end c)
      then mk_parsed (rd8 c (nh + 9)) (nh + 4 * rd_ihl c nh) (Some nh)
      else parse_fail nh, c).
Proof.
  unfold parse_iphdr. exact_run. split; [|done]. unfold ip_protocol. do 2 f_equal. lia.
Qed.

Lemma parse_tcphdr_run :
  parse_tcphdr nh (data_end c) c =
  Ok (if (nh + 20 <=? data_end c) && (5 <=? rd_doff c nh) && (nh + 4 * rd_doff c nh <=? data_end c)
      then mk_parsed (4 * rd_doff c nh) (nh + 4 * rd_doff c nh) (Some nh)
      else parse_fail nh, c).
Proof. unfold parse_tcphdr. exact_run. split; [|done]. f_equal; lia. Qed.

(** The [size_t] subtraction followed by the conversion to [int] is the
    integer subtraction, so a length field below 8 is caught. *)
Lemma udp_len_conv l : 0 <= l < 65536 -> s32 (u64 (l - 8)) = l - 8.
Proof.
  intros. unfold s32, u64, wrapu.
  destruct (decide (8 <= l)).
  - rewrite (Z.mod_small (l - 8)) by lia. rewrite Z.mod_small; lia.
  - replace ((l - 8) mod 2 ^ 64) with (l - 8 + 2 ^ 64)
      by (apply Z.mod_unique with (-1); lia).
    replace (l - 8 + 2 ^ 64 + 2 ^ 31) with (l - 8 + 2 ^ 31 + 2 ^ 32 * 2 ^ 32) by lia.
    rewrite Z_mod_plus_full, Z.mod_small; lia.
Qed.

Lemma parse_udphdr_run :
  parse_udphdr nh (data_end c) c =
  Ok (if nh + 8 <=? data_end c then
        if 8 <=? bpf_ntohs (rd16 c (nh + 4))
        then mk_parsed (bpf_ntohs (rd16 c (nh + 4)) - 8) (nh + 8) (Some nh)
        else mk_parsed (-1) (nh + 8) (Some nh)
      else parse_fail nh, c).
Proof.
  unfold parse_udphdr, sz_udphdr, udp_len.
  assert (0 <= bpf_ntohs (rd16 c (nh + 4)) < 65536) by apply bswap16_range.
  apply run_of_wp; split_tests; xwp; try off_lia; auto;
    rewrite udp_len_conv in * by done; split_tests; xwp; try off_lia; auto.
Qed.
End exact.

(** ** Properties *)

(** C8: on every frame with at most two VLAN tags the Ethernet parser returns
    the innermost EtherType in network order, points the cursor just behind the
    last tag, hands out the Ethernet header and collects the 12-bit VLAN ids in
    order, leaving the unused slots of the caller's array alone. *)
Theorem parse_ethhdr_vlan_roundtrip c nh tags proto ids :
  xdp_wf c -> eth_at c nh tags proto ->
  forallb tag_ok tags = true -> u16_ok proto = true ->
  (length tags <= VLAN_MAX_DEPTH)%nat ->
  length tags = VLAN_MAX_DEPTH \/ is_vlan_tpid proto = false ->
  length ids = VLAN_MAX_DEPTH ->
  parse_ethhdr_vlan nh (data_end c) (Some ids) c =
  Ok (mk_parsed (bpf_htons proto) (nh + 14 + 4 * Z.of_nat (length tags)) (Some nh),
      Some ((tag_vid <$> tags) ++ drop (length tags) ids), c).
Proof.
  intros Hwf Hat Hok Hpr Hn Hlast Hids.
  rewrite (parse_ethhdr_vlan_run c nh tags proto) by (unfold l2_at; tauto).
  cbn [fmap option_fmap option_map]. rewrite collect_spec by (unfold VLAN_MAX_DEPTH in *; lia). done.
Qed.

(** C29: no parsing helper reads outside the packet, whatever the packet holds;
    each leaves the packet unchanged and either returns -1 or moves the cursor
    forward to a position not beyond [data_end]. *)
Theorem parsers_stay_in_packet c nh :
  xdp_wf c -> data c <= nh ->
  Forall (fun h => wp (h nh (data_end c)) (parser_post c nh) c)
    [parse_ethhdr; parse_ip6hdr; parse_iphdr; parse_icmp6hdr; parse_icmphdr;
     parse_icmphdr_common; parse_udphdr; parse_tcphdr].
Proof. intros. repeat constructor; by apply parser_ok. Qed.

(** The variable-length headers: IPv4 and TCP are accepted exactly when the
    fixed part fits, the length field is at least 5 words and the whole header
    fits in the packet; then the cursor moves by the header length, and
    otherwise the helper returns -1 with the cursor where it was. *)
Theorem variable_headers_exact c nh :
  xdp_wf c -> data c <= nh ->
  parse_iphdr nh (data_end c) c =
    Ok (if (nh + 20 <=? data_end c) && (5 <=? rd_ihl c nh) && (nh + 4 * rd_ihl c nh <=? data_end c)
        then mk_parsed (rd8 c (nh + 9)) (nh + 4 * rd_ihl c nh) (Some nh)
        else parse_fail nh, c) /\
  parse_tcphdr nh (data_end c) c =
    Ok (if (nh + 20 <=? data_end c) && (5 <=? rd_doff c nh) && (nh + 4 * rd_doff c nh <=? data_end c)
        then mk_parsed (4 * rd_doff c nh) (nh + 4 * rd_doff c nh) (Some nh)
        else parse_fail nh, c).
Proof. intros. split; [by apply parse_iphdr_run | by apply parse_tcphdr_run]. Qed.

(** The UDP helper returns the payload length, and a length field smaller
    than the header is reported as -1 although the subtraction is unsigned. *)
Theorem parse_udphdr_exact c nh :
  xdp_wf c -> data c <= nh ->
  parse_udphdr nh (data_end c) c =
  Ok (if nh + 8 <=? data_end c then
        if 8 <=? bpf_ntohs (rd16 c (nh + 4))
        then mk_parsed (bpf_ntohs (rd16 c (nh + 4)) - 8) (nh + 8) (Some nh)
        else mk_parsed (-1) (nh + 8) (Some nh)
      else parse_fail nh, c).
Proof. intros. by apply parse_udphdr_run. Qed.

(** ** Witnesses: a frame with an outer and an inner VLAN tag. *)
Definition demo_tags : list (Z * Z) := [(0x88A8, 0x3064); (0x8100, 0x0005)].
Definition demo_qinq : xdp_md :=
  let f := [0; 0] ++ repeat 1 6 ++ repeat 2 6 ++ eth_tail demo_tags 0x0800
             ++ [0x45; 0; 0; 28; 0; 0; 0; 0; 64; 17; 0; 0; 10; 0; 0; 1; 10; 0; 0; 2]
             ++ [0; 53; 39; 15; 0; 8; 0; 0] in
  mk_xdp_md f 2 (Z.of_nat (length f)) 1 0.

Lemma parse_ethhdr_vlan_roundtrip_witness :
  parse_ethhdr_vlan 2 (data_end demo_qinq) (Some [7; 7]) demo_qinq =
  Ok (mk_parsed 8 24 (Some 2), Some [0x64; 5], demo_qinq).
Proof.
  refine (parse_ethhdr_vlan_roundtrip demo_qinq 2 demo_tags 0x0800 [7; 7] _ _ _ _ _ _ _).
  - by_compute.
  - unfold eth_at. by_compute.
  - reflexivity.
  - reflexivity.
  - by_compute.
  - by left.
  - reflexivity.
Defined.

Lemma parsers_stay_in_packet_witness :
  Forall (fun h => wp (h 2 (data_end demo_qinq)) (parser_post demo_qinq 2) demo_qinq)
    [parse_ethhdr; parse_ip6hdr; parse_iphdr; parse_icmp6hdr; parse_icmphdr;
     parse_icmphdr_common; parse_udphdr; parse_tcphdr].
Proof. apply (parsers_stay_in_packet demo_qinq 2); by_compute. Defined.

Lemma variable_headers_exact_witness :
  parse_iphdr 24 (data_end demo_qinq) demo_qinq = Ok (mk_parsed 17 44 (Some 24), demo_qinq).
Proof. apply (variable_headers_exact demo_qinq 24); by_compute. Defined.

Lemma parse_udphdr_exact_witness :
  parse_udphdr 44 (data_end demo_qinq) demo_qinq = Ok (mk_parsed 0 52 (Some 44), demo_qinq).
Proof. apply (parse_udphdr_exact demo_qinq 44); by_compute. Defined.
