(* ===== verification/XdpRewrite.v ===== *)
(** * Packet rewriting helpers of the XDP programs

    src/ebpf-xdp/packet/kernel/rewrite_helpers.h (VLAN tag push and pop, address
    swaps) and stats_kern.h (per-action counters). The kernel helper
    [bpf_xdp_adjust_head] is a parameter. *)
From S2P Require Import Prelude XdpMem XdpParse.
From stdpp Require Import base numbers list.
Local Open Scope Z_scope.

Definition with_data (c : xdp_md) (d : Z) : xdp_md :=
  mk_xdp_md (frame c) d (data_end c) (ingress_ifindex c) (rx_queue_index c).

(** What is documented of [bpf_xdp_adjust_head]: on success it returns zero and
    has moved [data] by the offset, inside the buffer; when it fails the context
    is unchanged; it succeeds when the new start lies in the buffer and leaves
    room for an Ethernet header. *)
Class AdjustHead (adjust : xdp_md -> Z -> Z * xdp_md) : Prop := {
  adjust_success : forall c d, (adjust c d).1 = 0 ->
    (adjust c d).2 = with_data c (data c + d) /\ 0 <= data c + d <= data_end c;
  adjust_failure : forall c d, (adjust c d).1 <> 0 -> (adjust c d).2 = c;
  adjust_possible : forall c d, 0 <= data c + d -> data c + d + 14 <= data_end c ->
    (adjust c d).1 = 0;
}.

Section rewrite.
Context (adjust : xdp_md -> Z -> Z * xdp_md).

Definition bpf_xdp_adjust_head (delta : Z) : X Z := fun c => Ok (adjust c delta).

Definition vlan_tag_pop (eth : Z) : X Z :=
  c ← stget;
  let dend := data_end c in
  proto ← ld16 (h_proto eth);
  if negb (proto_is_vlan proto) then mret (-1)
  else
    let vlh := eth + sz_ethhdr in
    if dend <? vlh + sz_vlan_hdr then mret (-1)
    else
      tci ← ld16 (h_vlan_TCI vlh);
      let vlid := bpf_ntohs tci in
      inner ← ld16 (h_vlan_encapsulated_proto vlh);
      eth_cpy ← load eth 14;
      rc ← bpf_xdp_adjust_head sz_vlan_hdr;
      if negb (rc =? 0) then mret (-1)
      else
        c' ← stget;
        let eth' := data c' in
        let dend' := data_end c' in
        if dend' <? eth' + sz_ethhdr then mret (-1)
        else
          store eth' eth_cpy;;
          st16 (h_proto eth') inner;;
          mret vlid.

Definition vlan_tag_push (eth : Z) (vlid : Z) : X Z :=
  eth_cpy ← load eth 14;
  rc ← bpf_xdp_adjust_head (0 - sz_vlan_hdr);
  if negb (rc =? 0) then mret (-1)
  else
    c' ← stget;
    let dend' := data_end c' in
    let eth' := data c' in
    if dend' <? eth' + sz_ethhdr then mret (-1)
    else
      store eth' eth_cpy;;
      let vlh := eth' + sz_ethhdr in
      if dend' <? vlh + sz_vlan_hdr then mret (-1)
      else
        st16 (h_vlan_TCI vlh) (bpf_htons vlid);;
        proto ← ld16 (h_proto eth');
        st16 (h_vlan_encapsulated_proto vlh) proto;;
        st16 (h_proto eth') (bpf_htons ETH_P_8021Q);;
        mret 0.
End rewrite.

Definition swap_src_dst_mac (eth : Z) : X unit :=
  h_tmp ← load (h_source eth) ETH_ALEN;
  dst ← load (h_dest eth) ETH_ALEN;
  store (h_source eth) dst;;
  store (h_dest eth) h_tmp.

Definition swap_src_dst_ipv6 (ipv6 : Z) : X unit :=
  tmp ← load (ip6_saddr ipv6) 16;
  dst ← load (ip6_daddr ipv6) 16;
  store (ip6_saddr ipv6) dst;;
  store (ip6_daddr ipv6) tmp.

Definition swap_src_dst_ipv4 (iphdr : Z) : X unit :=
  tmp ← ld32 (ip_saddr iphdr);
  daddr ← ld32 (ip_daddr iphdr);
  st32 (ip_saddr iphdr) daddr;;
  st32 (ip_daddr iphdr) tmp.

(** One record per action of the current CPU ([struct datarec]). *)
Record datarec := mk_datarec { rx_packets : Z; rx_bytes : Z }.
Definition XDP_ACTION_MAX : Z := XDP_REDIRECT + 1.

(** [xdp_stats_map] is a per-CPU array map: looking up an index inside the
    array finds its record. *)
Definition xdp_stats_record_action (stats : list datarec) (action : Z) : X (Z * list datarec) :=
  c ← stget;
  if XDP_ACTION_MAX <=? action then mret (XDP_ABORTED, stats)
  else
    match stats !! Z.to_nat action with
    | None => mret (XDP_ABORTED, stats)
    | Some rec =>
        let rec' := mk_datarec (u64 (rx_packets rec + 1))
                      (u64 (rx_bytes rec + u32 (data_end c - data c))) in
        mret (action, <[Z.to_nat action := rec']> stats)
    end.

(** ** Tag push and pop on a packet known as a concatenation *)

Lemma adjust_run adjust `{!AdjustHead adjust} c d :
  (adjust c d).1 = 0 ->
  bpf_xdp_adjust_head adjust d c = Ok (0, with_data c (data c + d)).
Proof.
  intros H. unfold bpf_xdp_adjust_head. destruct (adjust_success c d H) as [Heq _].
  destruct (adjust c d); simpl in *. by subst.
Qed.

(** The window as a concatenation, cut out of the frame. *)
Definition packet_is (c : xdp_md) (hr p post : list Z) : Prop :=
  frame c = hr ++ p ++ post /\ Z.of_nat (length hr) = data c /\
  Z.of_nat (length (hr ++ p)) = data_end c.

Lemma packet_of c hr p post : packet_is c hr p post -> packet c = p.
Proof.
  intros (Hf & Hd & He). unfold packet. apply bytes_at_app with hr post; auto.
  rewrite length_app in He. lia.
Qed.

Lemma packet_is_intro c : xdp_wf c -> exists hr post, packet_is c hr (packet c) post.
Proof.
  intros (Hd & He & _).
  destruct (list_cut (Z.to_nat (data c)) (frame c)) as (hr & l & Hf & Hhr); [lia|].
  assert (length (frame c) = length hr + length l)%nat as Hl by (by rewrite Hf, length_app).
  destruct (list_cut (Z.to_nat (data_end c - data c)) l) as (p & post & -> & Hp); [lia|].
  exists hr, post.
  assert (packet_is c hr p post) as Hpk.
  { split; [done|]. rewrite length_app. lia. }
  by rewrite (packet_of _ _ _ _ Hpk).
Qed.

Ltac len_lia := unfold be16 in *; rewrite ?length_app, ?length_le_bytes in *; simpl length in *; lia.

(** Accesses at a known place of a known frame; the frame is forgotten except
    for its new value. *)
Section known_frame.
Context (c : xdp_md) (pre mid post : list Z) (off : Z).
Context (Hf : frame c = pre ++ mid ++ post) (Hoff : off = Z.of_nat (length pre)).
Context (Hd : data c <= Z.of_nat (length pre)).
Context (He : Z.of_nat (length (pre ++ mid)) <= data_end c).

Lemma wp_load_known n Q : length mid = n -> Q mid c -> wp (load off n) Q c.
Proof.
  intros <- HQ. rewrite length_app in He. apply wp_load; [lia|lia|].
  by rewrite (bytes_at_app c off _ pre mid post).
Qed.

Lemma wp_ld16_known Q : length mid = 2%nat -> Q (le_val mid) c -> wp (ld16 off) Q c.
Proof. intros. unfold ld16. wp_step. by apply wp_load_known. Qed.

Lemma wp_store_known bs Q :
  length bs = length mid ->
  (forall c', frame c' = pre ++ bs ++ post -> data c' = data c -> data_end c' = data_end c ->
              Q tt c') ->
  wp (store off bs) Q c.
Proof.
  intros Hl HQ. rewrite length_app in He. apply wp_store; [lia|lia|].
  apply HQ; [by apply frame_wr_app with mid | done | done].
Qed.

Lemma wp_st16_known v Q :
  length mid = 2%nat ->
  (forall c', frame c' = pre ++ le_bytes 2 v ++ post -> data c' = data c ->
              data_end c' = data_end c -> Q tt c') ->
  wp (st16 off v) Q c.
Proof. intros Hm HQ. apply wp_store_known; [by rewrite length_le_bytes|done]. Qed.
End known_frame.

Ltac frame_side Hf := first [rewrite Hf; app_eq | len_lia].

Section vlan.
Context (adjust : xdp_md -> Z -> Z * xdp_md) `{!AdjustHead adjust}.

Lemma wp_adjust c d Q :
  (adjust c d).1 = 0 ->
  (forall c', frame c' = frame c -> data c' = data c + d -> data_end c' = data_end c -> Q 0 c') ->
  wp (bpf_xdp_adjust_head adjust d) Q c.
Proof. intros Hz HQ. eapply wp_of_run; [by apply adjust_run|]. by apply HQ. Qed.

(** Pushing a tag inserts protocol and TCI behind the addresses. *)
Lemma vlan_tag_push_packet c hr h4 m p2 tl post vlid :
  packet_is c (hr ++ h4) (m ++ p2 ++ tl) post ->
  length h4 = 4%nat -> length m = 12%nat -> length p2 = 2%nat -> Forall is_byte p2 ->
  (adjust c (-4)).1 = 0 ->
  wp (vlan_tag_push adjust (data c) vlid)
     (fun r c' => r = 0 /\
        packet_is c' hr (m ++ be16 ETH_P_8021Q ++ be16 (u16 vlid) ++ p2 ++ tl) post) c.
Proof.
  intros (Hf & Hd & He) Hh4 Hm Hp2 Hb2 Hadj. rewrite !length_app in Hd, He.
  destruct (list_cut 10 m) as (m10 & m2 & -> & Hm10); [lia|]. rewrite length_app in Hm.
  unfold vlan_tag_push, sz_ethhdr, sz_vlan_hdr, h_vlan_TCI, h_proto, h_vlan_encapsulated_proto.
  wp_step. apply wp_load_known with (hr ++ h4) ((m10 ++ m2) ++ p2) (tl ++ post);
    [frame_side Hf..|].
  wp_step. apply wp_adjust; [done|]. intros c1 Hf1 Hd1 He1. rewrite Hf in Hf1.
  cbn [Z.eqb negb]. do 2 wp_step. split_tests; [len_lia..|].
  wp_step. apply wp_store_known with hr (h4 ++ m10) (m2 ++ p2 ++ tl ++ post); [frame_side Hf1..|].
  intros c2 Hf2 Hd2 He2.
  wp_step. apply wp_st16_known with (hr ++ (m10 ++ m2) ++ p2) m2 (p2 ++ tl ++ post);
    [frame_side Hf2..|]. intros c3 Hf3 Hd3 He3.
  wp_step. apply wp_ld16_known with (hr ++ m10 ++ m2) p2 (le_bytes 2 (bpf_htons vlid) ++ p2 ++ tl ++ post);
    [frame_side Hf3..|].
  wp_step. apply wp_st16_known with (hr ++ (m10 ++ m2) ++ p2 ++ le_bytes 2 (bpf_htons vlid)) p2 (tl ++ post);
    [frame_side Hf3..|]. intros c4 Hf4 Hd4 He4.
  wp_step. apply wp_st16_known with (hr ++ m10 ++ m2) p2
    (le_bytes 2 (bpf_htons vlid) ++ le_bytes 2 (le_val p2) ++ tl ++ post); [frame_side Hf4..|].
  intros c5 Hf5 Hd5 He5. wp_step. split; [done|].
  rewrite <- Hp2, le_bytes_val, Hp2 in Hf5 by done. unfold bpf_htons in Hf5.
  rewrite !le_bytes_bswap16 in Hf5. unfold packet_is. split_and!; [rewrite Hf5; app_eq | len_lia | len_lia].
Qed.

(** Popping a tag removes protocol and TCI; the result is the TCI. *)
Lemma vlan_tag_pop_packet c hr m tpid tci p2 tl post :
  packet_is c hr (m ++ be16 tpid ++ be16 tci ++ p2 ++ tl) post ->
  length m = 12%nat -> length p2 = 2%nat -> Forall is_byte p2 ->
  is_vlan_tpid tpid = true -> u16_ok tci = true ->
  wp (vlan_tag_pop adjust (data c))
     (fun r c' => r = tci /\ exists m4, packet_is c' (hr ++ m4) (m ++ p2 ++ tl) post) c.
Proof.
  intros (Hf & Hd & He) Hm Hp2 Hb2 Htpid Htci. unfold be16 in Hd, He. rewrite !length_app in He.
  assert (0 <= tci < 65536) by (unfold u16_ok in Htci; lia).
  pose proof (is_vlan_tpid_u16 _ Htpid).
  destruct (list_cut 4 m) as (m4 & m8 & -> & Hm4); [lia|]. rewrite length_app in Hm.
  unfold vlan_tag_pop, sz_ethhdr, sz_vlan_hdr, h_vlan_TCI, h_proto, h_vlan_encapsulated_proto.
  do 3 wp_step. apply wp_ld16_known with (hr ++ m4 ++ m8) (be16 tpid) (be16 tci ++ p2 ++ tl ++ post);
    [frame_side Hf..|].
  rewrite le_val_be16 by done. change (bswap16 tpid) with (bpf_htons tpid).
  rewrite proto_is_vlan_htons, Htpid by done. cbn [negb].
  split_tests; [len_lia|].
  wp_step. apply wp_ld16_known with (hr ++ m4 ++ m8 ++ be16 tpid) (be16 tci) (p2 ++ tl ++ post);
    [frame_side Hf..|]. rewrite le_val_be16 by done.
  wp_step. apply wp_ld16_known with (hr ++ m4 ++ m8 ++ be16 tpid ++ be16 tci) p2 (tl ++ post);
    [frame_side Hf..|].
  wp_step. apply wp_load_known with hr ((m4 ++ m8) ++ be16 tpid) (be16 tci ++ p2 ++ tl ++ post);
    [frame_side Hf..|].
  wp_step. apply wp_adjust; [apply adjust_possible; len_lia|].
  intros c1 Hf1 Hd1 He1. rewrite Hf in Hf1. cbn [Z.eqb negb]. do 2 wp_step. split_tests; [len_lia|].
  wp_step. apply wp_store_known with (hr ++ m4) (m8 ++ be16 tpid ++ be16 tci ++ p2) (tl ++ post);
    [frame_side Hf1..|]. intros c2 Hf2 Hd2 He2.
  wp_step. apply wp_st16_known with (hr ++ m4 ++ m4 ++ m8) (be16 tpid) (tl ++ post);
    [frame_side Hf2..|]. intros c3 Hf3 Hd3 He3. wp_step.
  split; [unfold bpf_ntohs; by apply bswap16_invol|].
  exists m4. rewrite <- Hp2, le_bytes_val in Hf3 by done. unfold packet_is.
  split_and!; [rewrite Hf3; app_eq | len_lia | len_lia].
Qed.
End vlan.

(** ** Address swaps *)

(** Exchanging two disjoint runs of bytes of the same length through loads and
    stores is an involution on the frame. *)
Definition swap_runs (a b : Z) (n : nat) : X unit :=
  x ← load a n; y ← load b n; store a y;; store b x.

Lemma swap_runs_wp a b n c Q :
  xdp_wf c -> data c <= a -> a + Z.of_nat n <= data_end c ->
  data c <= b -> b + Z.of_nat n <= data_end c ->
  (a + Z.of_nat n <= b \/ b + Z.of_nat n <= a) ->
  Q tt (wr (wr c a (bytes_at c b n)) b (bytes_at c a n)) ->
  wp (swap_runs a b n) Q c.
Proof.
  intros Hwf ? ? ? ? ? HQ. unfold swap_runs.
  wp_step. apply wp_load; [done|done|]. wp_step. apply wp_load; [done|done|].
  wp_step. apply wp_store; [done|rewrite length_bytes_at; done|].
  apply wp_store; [done|rewrite length_bytes_at, data_end_wr; done|done].
Qed.

Lemma wr_id c off n :
  xdp_wf c -> data c <= off -> off + Z.of_nat n <= data_end c -> wr c off (bytes_at c off n) = c.
Proof.
  intros (? & ? & _) ? ?. unfold wr, with_frame, bytes_at. rewrite splice_slice_id by lia.
  by destruct c.
Qed.

(** [c'] is [c] with the runs at [a] and [b] exchanged and nothing else. *)
Definition swapped (c : xdp_md) (a b : Z) (n : nat) (c' : xdp_md) : Prop :=
  xdp_wf c' /\ data c' = data c /\ data_end c' = data_end c /\
  bytes_at c' a n = bytes_at c b n /\ bytes_at c' b n = bytes_at c a n /\
  (forall off m, data c <= off -> off + Z.of_nat m <= data_end c ->
     (off + Z.of_nat m <= a \/ a + Z.of_nat n <= off) ->
     (off + Z.of_nat m <= b \/ b + Z.of_nat n <= off) ->
     bytes_at c' off m = bytes_at c off m).

Lemma wr_wr_swapped a b n c :
  xdp_wf c -> data c <= a -> a + Z.of_nat n <= data_end c ->
  data c <= b -> b + Z.of_nat n <= data_end c ->
  (a + Z.of_nat n <= b \/ b + Z.of_nat n <= a) ->
  swapped c a b n (wr (wr c a (bytes_at c b n)) b (bytes_at c a n)).
Proof.
  intros Hwf Ha Ha' Hb Hb' Hdis.
  pose proof (length_bytes_at c Hwf a n Ha Ha') as La.
  pose proof (length_bytes_at c Hwf b n Hb Hb') as Lb.
  assert (xdp_wf (wr c a (bytes_at c b n))) as Hwf1.
  { apply wr_wf; auto; [lia|by apply bytes_at_bytes]. }
  assert (xdp_wf (wr (wr c a (bytes_at c b n)) b (bytes_at c a n))) as Hwf2.
  { apply wr_wf; rewrite ?data_wr, ?data_end_wr; auto; [lia|by apply bytes_at_bytes]. }
  unfold swapped. split_and!; auto.
  - rewrite bytes_at_wr_other by (rewrite ?data_wr, ?data_end_wr; auto; lia).
    by apply bytes_at_wr_same.
  - by apply bytes_at_wr_same.
  - intros off m ? ? ? ?.
    rewrite !bytes_at_wr_other by (rewrite ?data_wr, ?data_end_wr; auto; lia). done.
Qed.

(** The 32-bit version moves the same bytes. *)
Lemma swap_ipv4_wp c iphdr Q :
  xdp_wf c -> data c <= iphdr -> iphdr + 20 <= data_end c ->
  Q tt (wr (wr c (ip_saddr iphdr) (bytes_at c (ip_daddr iphdr) 4))
           (ip_daddr iphdr) (bytes_at c (ip_saddr iphdr) 4)) ->
  wp (swap_src_dst_ipv4 iphdr) Q c.
Proof.
  intros Hwf Hd He HQ.
  unfold swap_src_dst_ipv4. xwp. rewrite !le_bytes_rd32 by (auto; off_lia). done.
Qed.

(** ** Properties *)

(** C27: pushing a VLAN tag and popping it again restores the packet: the push
    inserts protocol 0x8100 and the 16-bit tag behind the two addresses, the pop
    returns that tag, and the packet bytes are the original ones. *)
Theorem vlan_push_pop_roundtrip adjust `{!AdjustHead adjust} c vlid :
  xdp_wf c -> 4 <= data c -> data c + 14 <= data_end c ->
  exists c1 c2,
    vlan_tag_push adjust (data c) vlid c = Ok (0, c1) /\
    packet c1 = take 12 (packet c) ++ be16 ETH_P_8021Q ++ be16 (u16 vlid) ++ drop 12 (packet c) /\
    vlan_tag_pop adjust (data c1) c1 = Ok (u16 vlid, c2) /\
    packet c2 = packet c.
Proof.
  intros Hwf Hd He. destruct (packet_is_intro c Hwf) as (hr0 & post & Hpk).
  pose proof Hpk as (Hf & Hd0 & He0). rewrite length_app in He0.
  destruct (list_cut (length hr0 - 4) hr0) as (hr & h4 & -> & Hhr); [lia|].
  destruct (list_cut 12 (packet c)) as (m & rest & Heq & Hm); [lia|].
  assert (length (packet c) = length m + length rest)%nat as Hl by (by rewrite Heq, length_app).
  destruct (list_cut 2 rest) as (p2 & tl & -> & Hp2); [lia|].
  assert (Forall is_byte p2) as Hb.
  { pose proof (bytes_at_bytes c Hwf (data c) (Z.to_nat (data_end c - data c))) as H.
    fold (packet c) in H. rewrite Heq, !Forall_app in H. tauto. }
  rewrite Heq in Hpk. rewrite length_app in *.
  destruct (wp_run _ _ _ (vlan_tag_push_packet adjust c hr h4 m p2 tl post vlid Hpk
    ltac:(lia) Hm Hp2 Hb (adjust_possible c (-4) ltac:(lia) ltac:(lia))))
    as (r1 & c1 & Hrun1 & -> & Hpk1).
  destruct (wp_run _ _ _ (vlan_tag_pop_packet adjust c1 hr m ETH_P_8021Q (u16 vlid) p2 tl post
    Hpk1 Hm Hp2 Hb eq_refl ltac:(unfold u16_ok; pose proof (wrapu_range 16 vlid); unfold u16; lia)))
    as (r2 & c2 & Hrun2 & -> & m4 & Hpk2).
  exists c1, c2. rewrite (packet_of _ _ _ _ Hpk1), (packet_of _ _ _ _ Hpk2), Heq.
  split_and!; auto. by rewrite <- Hm, take_app_length, drop_app_length.
Qed.

(** [vlan_tag_pop] on a tagged packet removes the four bytes of the tag and
    returns the whole 16-bit TCI, priority bits included. *)
Theorem vlan_tag_pop_returns_tci adjust `{!AdjustHead adjust} c hr m tpid tci p2 tl post :
  packet_is c hr (m ++ be16 tpid ++ be16 tci ++ p2 ++ tl) post ->
  length m = 12%nat -> length p2 = 2%nat -> Forall is_byte p2 ->
  is_vlan_tpid tpid = true -> u16_ok tci = true ->
  exists c', vlan_tag_pop adjust (data c) c = Ok (tci, c') /\ packet c' = m ++ p2 ++ tl.
Proof.
  intros Hpk ? ? ? ? ?.
  destruct (wp_run _ _ _ (vlan_tag_pop_packet adjust c hr m tpid tci p2 tl post Hpk
    ltac:(done) ltac:(done) ltac:(done) ltac:(done) ltac:(done))) as (r & c' & Hrun & -> & m4 & Hpk').
  exists c'. split; [done|]. by eapply packet_of.
Qed.

(** The three address swaps exchange exactly the source and destination
    fields of their header and touch nothing else of the packet. *)
Theorem swaps_exchange c h :
  xdp_wf c -> data c <= h ->
  (h + 14 <= data_end c ->
     wp (swap_src_dst_mac h) (fun _ => swapped c (h_source h) (h_dest h) 6) c) /\
  (h + 40 <= data_end c ->
     wp (swap_src_dst_ipv6 h) (fun _ => swapped c (ip6_saddr h) (ip6_daddr h) 16) c) /\
  (h + 20 <= data_end c ->
     wp (swap_src_dst_ipv4 h) (fun _ => swapped c (ip_saddr h) (ip_daddr h) 4) c).
Proof.
  intros Hwf Hh. split_and!; intros He.
  - change (swap_src_dst_mac h) with (swap_runs (h_source h) (h_dest h) 6).
    apply swap_runs_wp; auto; try off_lia. apply wr_wr_swapped; auto; off_lia.
  - change (swap_src_dst_ipv6 h) with (swap_runs (ip6_saddr h) (ip6_daddr h) 16).
    apply swap_runs_wp; auto; try off_lia. apply wr_wr_swapped; auto; off_lia.
  - apply swap_ipv4_wp; auto. apply wr_wr_swapped; auto; off_lia.
Qed.

(** Recording an action counts one packet and its length under that action
    and under no other; an action outside the map leaves the counters alone and
    turns into XDP_ABORTED. *)
Theorem stats_record_exact c stats action :
  length stats = 5%nat -> 0 <= action ->
  exists r stats', xdp_stats_record_action stats action c = Ok (r, stats', c) /\
    (5 <= action -> r = XDP_ABORTED /\ stats' = stats) /\
    (action < 5 -> r = action /\
       (forall j, stats' !! j =
          if decide (j = Z.to_nat action)
          then (fun s => mk_datarec (u64 (rx_packets s + 1))
                           (u64 (rx_bytes s + u32 (data_end c - data c)))) <$> stats !! j
          else stats !! j)).
Proof.
  intros Hlen Ha. unfold xdp_stats_record_action, mbind, ST_bind, mret, ST_ret, stget.
  change XDP_ACTION_MAX with 5. destruct (5 <=? action) eqn:E.
  - eexists _, _. split; [done|]. split; [done|lia].
  - destruct (lookup_lt_is_Some_2 stats (Z.to_nat action)) as [r Hr]; [lia|].
    rewrite Hr. eexists _, _. split; [done|]. split; [lia|]. intros _. split; [done|].
    intros j. case_decide as Hj.
    + subst. rewrite Hr. simpl. apply list_lookup_insert_eq. lia.
    + by apply list_lookup_insert_ne.
Qed.

(** ** The properties at concrete inputs *)

(** An implementation of the kernel helper that refuses only what must be
    refused. *)
Definition adjust_demo (c : xdp_md) (d : Z) : Z * xdp_md :=
  if (0 <=? data c + d) && (data c + d + 14 <=? data_end c)
  then (0, with_data c (data c + d)) else (-22, c).

#[export] Instance adjust_demo_ok : AdjustHead adjust_demo.
Proof.
  split; intros c d; unfold adjust_demo; destruct (_ && _) eqn:E; simpl; intros; try lia; auto.
  split; [done|lia].
Qed.

(** Four bytes of headroom, two addresses, protocol 0x0800 and a payload. *)
Definition demo_frame : xdp_md :=
  mk_xdp_md ([0; 0; 0; 0] ++ [1; 2; 3; 4; 5; 6] ++ [11; 12; 13; 14; 15; 16] ++ [8; 0]
             ++ replicate 40 7) 4 58 1 0.

Lemma vlan_push_pop_roundtrip_witness :
  exists c1 c2,
    vlan_tag_push adjust_demo (data demo_frame) 0xE064 demo_frame = Ok (0, c1) /\
    packet c1 = take 12 (packet demo_frame) ++ be16 ETH_P_8021Q ++ be16 (u16 0xE064)
                ++ drop 12 (packet demo_frame) /\
    vlan_tag_pop adjust_demo (data c1) c1 = Ok (u16 0xE064, c2) /\
    packet c2 = packet demo_frame.
Proof.
  apply (vlan_push_pop_roundtrip adjust_demo demo_frame 0xE064);
    [by_compute | by_compute | by_compute].
Defined.

Definition demo_tagged : xdp_md :=
  mk_xdp_md ([0; 0; 0; 0] ++ ([1; 2; 3; 4; 5; 6; 11; 12; 13; 14; 15; 16] ++ be16 0x88A8
             ++ be16 0xE064 ++ [8; 0] ++ replicate 6 7) ++ []) 4 28 1 0.

Lemma vlan_tag_pop_returns_tci_witness :
  exists c', vlan_tag_pop adjust_demo (data demo_tagged) demo_tagged = Ok (0xE064, c') /\
    packet c' = [1; 2; 3; 4; 5; 6; 11; 12; 13; 14; 15; 16] ++ [8; 0] ++ replicate 6 7.
Proof.
  apply (vlan_tag_pop_returns_tci adjust_demo demo_tagged [0; 0; 0; 0]
           [1; 2; 3; 4; 5; 6; 11; 12; 13; 14; 15; 16] 0x88A8 0xE064 [8; 0] (replicate 6 7) []);
    [by_compute | reflexivity | reflexivity | by_compute | reflexivity | reflexivity].
Defined.

Lemma swaps_exchange_witness :
  wp (swap_src_dst_ipv4 18) (fun _ => swapped demo_frame (ip_saddr 18) (ip_daddr 18) 4) demo_frame.
Proof.
  apply (swaps_exchange demo_frame 18); [by_compute | by_compute | by_compute].
Defined.

Definition demo_stats : list datarec := replicate 5 (mk_datarec 10 1000).

Lemma stats_record_exact_witness :
  exists r stats', xdp_stats_record_action demo_stats XDP_TX demo_frame = Ok (r, stats', demo_frame) /\
    r = XDP_TX.
Proof.
  destruct (stats_record_exact demo_frame demo_stats XDP_TX) as (r & s & Hrun & _ & H);
    [reflexivity | by_compute |].
  exists r, s. split; [exact Hrun | apply H; by_compute].
Defined.
