(* ===== verification/XdpBlock.v ===== *)
(** * The port blocking XDP program

    src/ebpf-xdp/packet/kernel/xdp_packet_block.c: parse down to the transport
    header, rewrite UDP packets, drop TCP packets to port 9999 and count them. *)
From S2P Require Import Prelude XdpMem XdpParse.
From stdpp Require Import base numbers list.
Local Open Scope Z_scope.

(** A header pointer a helper was to fill in; reading it when the helper did not
    is the use of an indeterminate pointer. *)
Definition out_param (o : option Z) : X Z :=
  match o with
  | Some p => mret p
  | None => stfail Uninit
  end.

(** [hdr->check += bpf_htons(1); if (!hdr->check) hdr->check += bpf_htons(1);] *)
Definition bump_check (off : Z) : X unit :=
  check ← ld16 off;
  st16 off (u16 (check + bpf_htons 1));;
  check' ← ld16 off;
  if check' =? 0 then st16 off (u16 (check' + bpf_htons 1)) else mret tt.

(** The test of the EtherType and the network header; [None] is the branch that
    goes straight to [out]. *)
Definition block_l3 (dend : Z) (eth : parsed) : X (option parsed) :=
  if p_ret eth =? bpf_htons ETH_P_IP then
    r ← parse_iphdr (p_pos eth) dend; mret (Some r)
  else if p_ret eth =? bpf_htons ETH_P_IPV6 then
    r ← parse_ip6hdr (p_pos eth) dend; mret (Some r)
  else mret None.

(** The transport header. [rxcnt] is what the lookup in the counter map finds:
    the counter of this CPU, or nothing. *)
Definition block_l4 (rxcnt : option Z) (dend : Z) (ip : parsed) : X (Z * option Z) :=
  if p_ret ip =? IPPROTO_UDP then
    udp ← parse_udphdr (p_pos ip) dend;
    if p_ret udp <? 0 then mret (XDP_ABORTED, rxcnt)
    else
      udphdr ← out_param (p_hdr udp);
      dest ← ld16 (udp_dest udphdr);
      st16 (udp_dest udphdr) (bpf_htons (bpf_ntohs dest - 1));;
      bump_check (udp_check udphdr);;
      mret (XDP_PASS, rxcnt)
  else if p_ret ip =? IPPROTO_TCP then
    tcp ← parse_tcphdr (p_pos ip) dend;
    if p_ret tcp <? 0 then mret (XDP_ABORTED, rxcnt)
    else
      tcphdr ← out_param (p_hdr tcp);
      dest ← ld16 (tcp_dest tcphdr);
      st16 (tcp_dest tcphdr) (bpf_ntohs dest);;
      bump_check (tcp_check tcphdr);;
      port ← ld16 (tcp_dest tcphdr);
      if port =? 9999 then
        mret (XDP_DROP, (fun value => s64 (value + 1)) <$> rxcnt)
      else
        st16 (tcp_dest tcphdr) (bpf_htons port);;
        mret (XDP_PASS, rxcnt)
  else mret (XDP_PASS, rxcnt).

Definition xdp_block_port_func (rxcnt : option Z) : X (Z * option Z) :=
  ctx ← stget;
  let dend := data_end ctx in
  eth ← parse_ethhdr (data ctx) dend;
  if p_ret eth <? 0 then mret (XDP_ABORTED, rxcnt)
  else
    l3 ← block_l3 dend eth;
    match l3 with
    | None => mret (XDP_PASS, rxcnt)
    | Some ip => block_l4 rxcnt dend ip
    end.

(** ** What the packet says *)

(** A transport header of protocol [proto] starts at [h]: the frame carries, under
    at most two VLAN tags, an IPv4 header whose length field is valid, or an IPv6
    header, and [h] is just behind it. *)
Definition l4_at (c : xdp_md) (proto h : Z) : Prop :=
  exists tags ety, l2_at c (data c) tags ety /\
    let iph := data c + 14 + 4 * Z.of_nat (length tags) in
    (ety = ETH_P_IP /\ iph + 20 <= data_end c /\ 5 <= rd_ihl c iph /\
     iph + 4 * rd_ihl c iph <= data_end c /\
     proto = rd8 c (iph + 9) /\ h = iph + 4 * rd_ihl c iph \/
     ety = ETH_P_IPV6 /\ iph + 40 <= data_end c /\ proto = rd8 c (iph + 6) /\ h = iph + 40).

(** A complete TCP header, and a UDP header with a possible length field. *)
Definition tcp_at (c : xdp_md) (h : Z) : Prop :=
  l4_at c IPPROTO_TCP h /\ h + 20 <= data_end c /\ 5 <= rd_doff c h /\
  h + 4 * rd_doff c h <= data_end c.
Definition udp_at (c : xdp_md) (h : Z) : Prop :=
  l4_at c IPPROTO_UDP h /\ h + 8 <= data_end c /\ 8 <= bpf_ntohs (rd16 c (udp_len h)).

Lemma htons_eqb a b : u16_ok a = true -> u16_ok b = true -> (bpf_htons a =? bpf_htons b) = (a =? b).
Proof.
  unfold u16_ok, bpf_htons. intros Ha Hb. destruct (Z.eqb_spec a b) as [->|Hne]; [apply Z.eqb_refl|].
  apply Z.eqb_neq. intros Heq. apply Hne, bswap16_inj; auto; lia.
Qed.

Section l3.
Context (c : xdp_md) (Hwf : xdp_wf c).

Lemma l2_unique tags ety tags' ety' :
  l2_at c (data c) tags ety -> l2_at c (data c) tags' ety' ->
  ety = ety' /\ length tags = length tags'.
Proof.
  intros Hl2 Hl2'. pose proof (parse_ethhdr_run c _ _ _ Hwf Hl2) as E.
  rewrite (parse_ethhdr_run c _ _ _ Hwf Hl2') in E. injection E as E1 E2.
  destruct Hl2 as (_ & _ & Hu & _), Hl2' as (_ & _ & Hu' & _). unfold u16_ok in *.
  apply bswap16_inj in E1; lia.
Qed.

(** A packet has at most one transport header. *)
Lemma l4_unique proto h proto' h' :
  l4_at c proto h -> l4_at c proto' h' -> proto = proto' /\ h = h'.
Proof.
  intros (tags & ety & Hl2 & H) (tags' & ety' & Hl2' & H').
  destruct (l2_unique _ _ _ _ Hl2 Hl2') as [-> Hlen]. cbn zeta in *. rewrite <- Hlen in H'.
  destruct H as [(-> & ? & ? & ? & -> & ->)|(-> & ? & -> & ->)],
    H' as [(? & ? & ? & ? & -> & ->)|(? & ? & -> & ->)]; done.
Qed.

Lemma l4_at_bounds proto h : l4_at c proto h -> data c + 34 <= h <= data_end c.
Proof.
  intros (tags & ety & Hl2 & H). cbn zeta in H. lia.
Qed.

(** The network stage finds exactly the transport headers of the packet. *)
Lemma block_l3_run tags ety :
  l2_at c (data c) tags ety ->
  exists r, block_l3 (data_end c)
    (mk_parsed (bpf_htons ety) (data c + 14 + 4 * Z.of_nat (length tags)) (Some (data c))) c
    = Ok (r, c) /\
  match r with
  | None => forall proto h, ~ l4_at c proto h
  | Some ip => (p_ret ip = -1 /\ forall proto h, ~ l4_at c proto h) \/
               (0 <= p_ret ip /\ l4_at c (p_ret ip) (p_pos ip))
  end.
Proof.
  intros Hl2. pose proof Hl2 as ((Hd & He & _) & _ & Hu & _).
  assert (forall proto h, l4_at c proto h ->
    let iph := data c + 14 + 4 * Z.of_nat (length tags) in
    ety = ETH_P_IP /\ iph + 20 <= data_end c /\ 5 <= rd_ihl c iph /\
      iph + 4 * rd_ihl c iph <= data_end c \/
    ety = ETH_P_IPV6 /\ iph + 40 <= data_end c) as Hdet.
  { intros proto h (tags' & ety' & Hl2' & H).
    destruct (l2_unique _ _ _ _ Hl2 Hl2') as [-> Hlen]. cbn zeta in *. rewrite Hlen. tauto. }
  unfold block_l3. cbn [p_ret p_pos].
  rewrite !htons_eqb by (auto; reflexivity).
  destruct (Z.eqb_spec ety ETH_P_IP) as [E|E]; [|destruct (Z.eqb_spec ety ETH_P_IPV6) as [E'|E']].
  - eexists. split.
    { rewrite (bind_run _ _ _ _ _ (parse_iphdr_run c
        (data c + 14 + 4 * Z.of_nat (length tags)) ltac:(lia))). apply ret_run. }
    simpl. destruct (_ && _ && _) eqn:Ht.
    + right. split; [by apply rd8_range|]. exists tags, ety. split; [done|]. left. simpl. split_and!; auto; lia.
    + left. split; [done|]. intros proto h H. apply Hdet in H. cbn zeta in H.
      destruct H as [H|[H _]]; [lia|]. rewrite E in H. discriminate.
  - eexists. split.
    { rewrite (bind_run _ _ _ _ _ (parse_ip6hdr_run c
        (data c + 14 + 4 * Z.of_nat (length tags)) ltac:(lia))). apply ret_run. }
    simpl. destruct (_ <=? _) eqn:Ht.
    + right. split; [by apply rd8_range|]. exists tags, ety. split; [done|]. right. simpl. split_and!; auto; lia.
    + left. split; [done|]. intros proto h H. apply Hdet in H. cbn zeta in H. lia.
  - eexists. split; [apply ret_run|]. simpl. intros proto h H. apply Hdet in H. cbn zeta in H. tauto.
Qed.
End l3.

(** ** What the program leaves in the packet *)

(** The new checksum word, as the 16-bit memory word. *)
Definition bumped (check : Z) : Z :=
  if u16 (check + 256) =? 0 then 256 else u16 (check + 256).

Definition udp_rewritten (c : xdp_md) (h : Z) : xdp_md :=
  wr (wr c (udp_dest h) (be16 (u16 (bpf_ntohs (rd16 c (udp_dest h)) - 1))))
     (udp_check h) (le_bytes 2 (bumped (rd16 c (udp_check h)))).

Definition tcp_passed (c : xdp_md) (h : Z) : xdp_md :=
  wr c (tcp_check h) (le_bytes 2 (bumped (rd16 c (tcp_check h)))).

Lemma splice_splice_same {A} i (bs bs' l : list A) :
  (i + length bs <= length l)%nat -> length bs' = length bs ->
  splice i bs' (splice i bs l) = splice i bs' l.
Proof.
  intros Hle Hlen. apply list_eq. intros j.
  assert (length (splice i bs l) = length l) by by apply length_splice.
  destruct (decide (i <= j < i + length bs')%nat).
  - rewrite !lookup_splice_new by lia. done.
  - rewrite !lookup_splice_old by lia. done.
Qed.
Lemma splice_comm {A} i j (bs bs' l : list A) :
  (i + length bs <= length l)%nat -> (j + length bs' <= length l)%nat ->
  (i + length bs <= j \/ j + length bs' <= i)%nat ->
  splice j bs' (splice i bs l) = splice i bs (splice j bs' l).
Proof.
  intros Hi Hj Hd. apply list_eq. intros k.
  assert (length (splice i bs l) = length l) by by apply length_splice.
  assert (length (splice j bs' l) = length l) by by apply length_splice.
  destruct (decide (i <= k < i + length bs)%nat); destruct (decide (j <= k < j + length bs')%nat);
    try lia.
  - rewrite lookup_splice_old, !lookup_splice_new by lia. done.
  - rewrite (lookup_splice_new j), lookup_splice_old, lookup_splice_new by lia. done.
  - rewrite !lookup_splice_old by lia. done.
Qed.

Section writes.
Context (c : xdp_md) (Hwf : xdp_wf c).

Lemma wr_wr_same off bs bs' :
  data c <= off -> off + Z.of_nat (length bs) <= data_end c -> length bs' = length bs ->
  wr (wr c off bs) off bs' = wr c off bs'.
Proof.
  intros. destruct Hwf as (? & ? & _). unfold wr, with_frame. simpl.
  rewrite splice_splice_same by (auto; lia). done.
Qed.

Lemma wr_comm off off' bs bs' :
  data c <= off -> off + Z.of_nat (length bs) <= data_end c ->
  data c <= off' -> off' + Z.of_nat (length bs') <= data_end c ->
  (off + Z.of_nat (length bs) <= off' \/ off' + Z.of_nat (length bs') <= off) ->
  wr (wr c off bs) off' bs' = wr (wr c off' bs') off bs.
Proof.
  intros. destruct Hwf as (? & ? & _). unfold wr, with_frame. simpl. f_equal. apply splice_comm; lia.
Qed.

Lemma rd16_wr_other off bs off' :
  data c <= off -> off + Z.of_nat (length bs) <= data_end c ->
  data c <= off' -> off' + 2 <= data_end c ->
  (off' + 2 <= off \/ off + Z.of_nat (length bs) <= off') ->
  rd16 (wr c off bs) off' = rd16 c off'.
Proof. intros. unfold rd16. by rewrite bytes_at_wr_other by (auto; lia). Qed.

Lemma wr_swap_back off :
  data c <= off -> off + 2 <= data_end c ->
  wr c off (le_bytes 2 (bpf_htons (bpf_ntohs (rd16 c off)))) = c.
Proof.
  intros. unfold bpf_ntohs, bpf_htons. rewrite bswap16_invol by auto with xdp.
  rewrite le_bytes_rd16 by auto. unfold wr, with_frame, bytes_at.
  destruct Hwf as (? & ? & _). rewrite splice_slice_id by lia. by destruct c.
Qed.

Lemma wp_bump_check off Q :
  data c <= off -> off + 2 <= data_end c ->
  Q tt (wr c off (le_bytes 2 (bumped (rd16 c off)))) -> wp (bump_check off) Q c.
Proof.
  intros Hd He HQ. unfold bump_check. change (bpf_htons 1) with 256. xwp.
  rewrite rd16_wr_same by auto. revert HQ. unfold bumped.
  assert (forall z, u16 (u16 z) = u16 z) as Hid by (intros; apply Z.mod_mod; lia).
  rewrite !Hid. destruct (u16 (rd16 c off + 256) =? 0) eqn:E; intros HQ; xwp; [|done].
  apply Z.eqb_eq in E. rewrite E. by rewrite wr_wr_same.
Qed.
End writes.

Definition tcp_dropped (c : xdp_md) (h : Z) : xdp_md :=
  wr (wr c (tcp_dest h) (le_bytes 2 (bpf_ntohs (rd16 c (tcp_dest h)))))
     (tcp_check h) (le_bytes 2 (bumped (rd16 c (tcp_check h)))).

Section l4.
Context (c : xdp_md) (Hwf : xdp_wf c) (rxcnt : option Z).

Lemma block_l4_udp ip h :
  p_ret ip = IPPROTO_UDP -> p_pos ip = h -> udp_at c h ->
  block_l4 rxcnt (data_end c) ip c = Ok (XDP_PASS, rxcnt, udp_rewritten c h).
Proof.
  intros Hret Hpos (Hl4 & He & Hlen). pose proof (l4_at_bounds c _ _ Hl4).
  unfold block_l4. rewrite Hret, Hpos, Z.eqb_refl.
  rewrite (bind_run _ _ _ _ _ (parse_udphdr_run c h ltac:(lia))).
  apply run_of_wp. split_tests; unfold udp_len in *; try lia; simpl in *; try lia.
  xwp. unfold bpf_htons. rewrite le_bytes_bswap16.
  apply wp_bump_check; [apply wr_wf; auto; try off_lia | off_lia | off_lia |].
  { rewrite <- le_bytes_bswap16. apply le_bytes_byte. }
  xwp. split; [done|]. unfold udp_rewritten. rewrite rd16_wr_other by (auto; off_lia). done.
Qed.

Lemma block_l4_tcp ip h :
  p_ret ip = IPPROTO_TCP -> p_pos ip = h -> tcp_at c h ->
  block_l4 rxcnt (data_end c) ip c =
  Ok (if bpf_ntohs (rd16 c (tcp_dest h)) =? 9999
      then (XDP_DROP, (fun v => s64 (v + 1)) <$> rxcnt, tcp_dropped c h)
      else (XDP_PASS, rxcnt, tcp_passed c h)).
Proof.
  intros Hret Hpos (Hl4 & He & Hdoff & He'). pose proof (l4_at_bounds c _ _ Hl4).
  unfold block_l4. rewrite Hret, Hpos. change (IPPROTO_TCP =? IPPROTO_UDP) with false.
  rewrite Z.eqb_refl, (bind_run _ _ _ _ _ (parse_tcphdr_run c h ltac:(lia))).
  assert ((h + 20 <=? data_end c) && (5 <=? rd_doff c h) &&
          (h + 4 * rd_doff c h <=? data_end c) = true) as -> by lia.
  cbn [p_ret p_hdr]. destruct (4 * rd_doff c h <? 0) eqn:E; [lia|clear E].
  set (dest := rd16 c (tcp_dest h)).
  assert (xdp_wf (wr c (tcp_dest h) (le_bytes 2 (bpf_ntohs dest)))) as Hwf'
    by (apply wr_wf; auto using le_bytes_byte; off_lia).
  assert (u16 (bpf_ntohs dest) = bpf_ntohs dest) as Hu
    by (apply wrapu_small; apply bswap16_range).
  match goal with |- _ = Ok ?x => destruct x as [r s] eqn:Hx end.
  apply run_of_wp. cbn [out_param]. xwp. fold dest.
  apply wp_bump_check; [done | off_lia | off_lia |].
  rewrite (rd16_wr_other c Hwf _ _ (tcp_check h)) by off_lia. xwp.
  rewrite rd16_wr_other by (auto; off_lia). rewrite rd16_wr_same, Hu by (auto; off_lia).
  destruct (bpf_ntohs dest =? 9999); xwp; injection Hx as <- <-; [done|].
  split; [done|]. unfold tcp_passed. rewrite wr_comm, wr_wr_same by (auto; off_lia).
  unfold dest. by rewrite wr_swap_back by (auto; off_lia).
Qed.

Definition l4_cases (run : res (Z * option Z * xdp_md)) : Prop :=
  (exists h, tcp_at c h /\ run =
     Ok (if bpf_ntohs (rd16 c (tcp_dest h)) =? 9999
         then (XDP_DROP, (fun v => s64 (v + 1)) <$> rxcnt, tcp_dropped c h)
         else (XDP_PASS, rxcnt, tcp_passed c h))) \/
  (exists h, udp_at c h /\ run = Ok (XDP_PASS, rxcnt, udp_rewritten c h)) \/
  ((forall h, ~ tcp_at c h) /\ (forall h, ~ udp_at c h) /\
   exists act, (act = XDP_PASS \/ act = XDP_ABORTED) /\ run = Ok (act, rxcnt, c)).

Lemma l4_cases_none act run :
  (forall proto h, l4_at c proto h -> proto <> IPPROTO_TCP /\ proto <> IPPROTO_UDP) ->
  act = XDP_PASS \/ act = XDP_ABORTED -> run = Ok (act, rxcnt, c) -> l4_cases run.
Proof.
  intros Hno Hact Hrun. right; right. split_and!; [| |eauto];
    intros h [H _]; apply Hno in H; tauto.
Qed.

(** A header that is cut off or malformed: the packet is left alone. *)
Lemma l4_cases_abort ip run :
  l4_at c (p_ret ip) (p_pos ip) -> ~ tcp_at c (p_pos ip) -> ~ udp_at c (p_pos ip) ->
  run = Ok (XDP_ABORTED, rxcnt, c) -> l4_cases run.
Proof.
  intros Hl4 Ht Hu Hrun. right; right. split_and!; [| |eauto]; intros h H;
    pose proof H as [H4 _]; destruct (l4_unique c Hwf _ _ _ _ Hl4 H4) as [_ Heq];
    by rewrite Heq in *.
Qed.

Lemma block_l4_cases ip :
  l4_at c (p_ret ip) (p_pos ip) -> l4_cases (block_l4 rxcnt (data_end c) ip c).
Proof.
  intros Hl4. pose proof (l4_at_bounds c _ _ Hl4).
  destruct (Z.eqb_spec (p_ret ip) IPPROTO_UDP) as [Hudp|Hudp];
    [|destruct (Z.eqb_spec (p_ret ip) IPPROTO_TCP) as [Htcp|Htcp]].
  - destruct (decide (p_pos ip + 8 <= data_end c /\
                8 <= bpf_ntohs (rd16 c (udp_len (p_pos ip))))) as [[? ?]|Hbad].
    + right; left. exists (p_pos ip). rewrite Hudp in Hl4.
      assert (udp_at c (p_pos ip)) by (unfold udp_at; auto). eauto using block_l4_udp.
    + eapply l4_cases_abort; [done|..].
      { intros [Ht _]. destruct (l4_unique c Hwf _ _ _ _ Hl4 Ht) as [Hq _]. by rewrite Hudp in Hq. }
      { intros (_ & ? & ?). tauto. }
      unfold block_l4. rewrite Hudp, Z.eqb_refl.
      rewrite (bind_run _ _ _ _ _ (parse_udphdr_run c (p_pos ip) ltac:(lia))).
      unfold udp_len in Hbad. destruct (_ <=? data_end c) eqn:E1; [destruct (8 <=? _) eqn:E2|]; [lia|done..].
  - destruct (decide (p_pos ip + 20 <= data_end c /\ 5 <= rd_doff c (p_pos ip) /\
                p_pos ip + 4 * rd_doff c (p_pos ip) <= data_end c)) as [(? & ? & ?)|Hbad].
    + left. exists (p_pos ip). rewrite Htcp in Hl4.
      assert (tcp_at c (p_pos ip)) by (unfold tcp_at; auto). eauto using block_l4_tcp.
    + eapply l4_cases_abort; [done|..].
      { intros (_ & ? & ? & ?). tauto. }
      { intros [Ht _]. destruct (l4_unique c Hwf _ _ _ _ Hl4 Ht) as [Hq _]. by rewrite Htcp in Hq. }
      unfold block_l4. rewrite Htcp. change (IPPROTO_TCP =? IPPROTO_UDP) with false.
      rewrite Z.eqb_refl, (bind_run _ _ _ _ _ (parse_tcphdr_run c (p_pos ip) ltac:(lia))).
      destruct (_ && _) eqn:E1; [lia|done].
  - apply l4_cases_none with XDP_PASS; [|by left|].
    + intros proto h H'. destruct (l4_unique c Hwf _ _ _ _ Hl4 H') as [<- _]. done.
    + unfold block_l4. destruct (Z.eqb_spec (p_ret ip) IPPROTO_UDP); [done|].
      by destruct (Z.eqb_spec (p_ret ip) IPPROTO_TCP).
Qed.
End l4.

(** The three things that can happen to a packet. *)
Lemma block_run c rxcnt : xdp_wf c -> l4_cases c rxcnt (xdp_block_port_func rxcnt c).
Proof.
  intros Hwf. unfold xdp_block_port_func. rewrite (bind_run stget _ c c c eq_refl). cbn zeta.
  destruct (decide (data c + 14 <= data_end c)) as [Hfit|Hshort].
  2:{ apply (l4_cases_none c rxcnt XDP_ABORTED); [|by right|].
      { intros p h (tags & ety & ((_ & ? & _) & _) & _). lia. }
      apply run_of_wp. xwp. eapply (wp_of_run _ _ _ (parse_fail (data c)) c); [|by xwp].
      apply run_of_wp. unfold parse_ethhdr, parse_ethhdr_vlan. split_tests; [|off_lia]. by xwp. }
  destruct (l2_exists c (data c)) as (tags & ety & Hl2); auto; [lia|].
  rewrite (bind_run _ _ _ _ _ (parse_ethhdr_run c _ _ _ Hwf Hl2)). cbn [p_ret].
  destruct (bpf_htons ety <? 0) eqn:E; [pose proof (bswap16_range ety); unfold bpf_htons in E; lia|].
  destruct (block_l3_run c Hwf tags ety Hl2) as (r & Hrun & Hr).
  rewrite (bind_run _ _ _ _ _ Hrun). destruct r as [ip|].
  - destruct Hr as [[Hneg Hno]|[_ Hl4]]; [|by apply block_l4_cases].
    apply (l4_cases_none c rxcnt XDP_PASS); [|by left|unfold block_l4; by rewrite Hneg].
    intros p h H. by apply Hno in H.
  - apply (l4_cases_none c rxcnt XDP_PASS); [|by left|done]. intros p h H. by apply Hr in H.
Qed.

(** ** The incremental checksum *)

(** Swapping bytes multiplies by 256 in ones' complement arithmetic. *)
Lemma bswap16_mod x : 0 <= x < 65536 -> exists k, bswap16 x = 256 * x - 65535 * k.
Proof.
  intros. exists (x / 256). rewrite bswap16_eq. Z.to_euclidean_division_equations. lia.
Qed.

Lemma bumped_eq k : 0 <= k < 65536 ->
  bumped k = if k <? 65280 then k + 256 else if k =? 65280 then 256 else k - 65280.
Proof.
  intros Hk. unfold bumped, u16, wrapu. change (2 ^ 16) with 65536.
  destruct (k <? 65280) eqn:E.
  - rewrite Z.mod_small by lia. destruct (k + 256 =? 0) eqn:E2; lia.
  - replace ((k + 256) mod 65536) with (k - 65280) by (apply Z.mod_unique with 1; lia).
    destruct (k - 65280 =? 0) eqn:E2, (k =? 65280) eqn:E3; lia.
Qed.

Lemma bumped_range k : 0 <= k < 65536 -> 0 <= bumped k < 65536.
Proof. intros. rewrite bumped_eq by done. split_tests; lia. Qed.

Lemma ntohs_low k : 0 <= k < 65536 -> (bpf_ntohs k mod 256 = 255 <-> 65280 <= k).
Proof.
  intros. unfold bpf_ntohs. rewrite bswap16_eq. Z.to_euclidean_division_equations. lia.
Qed.

(** The sum of the two changed words, modulo 65535, is kept exactly when the
    checksum's low byte does not overflow. *)
Lemma port_check_sum d k :
  0 <= d < 65536 -> 0 <= k < 65536 -> 1 <= bpf_ntohs d ->
  ((bswap16 (bpf_ntohs d - 1) + bumped k) mod 65535 = (d + k) mod 65535 <->
   bpf_ntohs k mod 256 <> 255).
Proof.
  intros Hd Hk H1. rewrite ntohs_low, bumped_eq by done.
  pose proof (bswap16_range d). unfold bpf_ntohs in *.
  destruct (bswap16_mod (bswap16 d)) as [q Hq]; [done|]. rewrite bswap16_invol in Hq by done.
  destruct (bswap16_mod (bswap16 d - 1)) as [q' Hq']; [lia|]. rewrite Hq'.
  rewrite Z.cong_iff_ex. split_tests; split; intros H0; try lia.
  - exists (q - q'). lia.
  - destruct H0 as [n Hn]. lia.
  - destruct H0 as [n Hn]. lia.
Qed.

(** ** Properties *)

(** C19: on every packet the program ends without an access outside the packet;
    it drops exactly the packets whose complete TCP header, found under at most
    two VLAN tags and a valid IPv4 or IPv6 header, has destination port 9999,
    and the counter goes up by one exactly then. *)
Theorem block_drops_exactly_9999 c rxcnt :
  xdp_wf c ->
  exists act cnt c', xdp_block_port_func rxcnt c = Ok (act, cnt, c') /\
    (act = XDP_DROP <-> exists h, tcp_at c h /\ bpf_ntohs (rd16 c (tcp_dest h)) = 9999) /\
    cnt = (if act =? XDP_DROP then (fun v => s64 (v + 1)) <$> rxcnt else rxcnt).
Proof.
  intros Hwf.
  assert (forall h h', tcp_at c h -> tcp_at c h' -> h = h') as Htt
    by (intros h h' [H _] [H' _]; apply (l4_unique c Hwf _ _ _ _ H H')).
  assert (forall h h', udp_at c h -> tcp_at c h' -> False) as Hut
    by (intros h h' [H _] [H' _]; by destruct (l4_unique c Hwf _ _ _ _ H H')).
  destruct (block_run c rxcnt Hwf) as [(h & Hat & ->)|[(h & Hat & ->)|(Hnt & _ & act & Hact & ->)]].
  - destruct (Z.eqb_spec (bpf_ntohs (rd16 c (tcp_dest h))) 9999) as [E|E];
      eexists _, _, _; (split; [done|]); (split; [|done]); split; eauto; [done|].
    intros (h' & Hat' & E'). by rewrite (Htt _ _ Hat Hat') in E.
  - eexists _, _, _. split; [done|]. split; [|done]. split; [done|].
    intros (h' & Hat' & _). by destruct (Hut h h').
  - eexists _, _, _. split; [done|]. split.
    + split; [by destruct Hact as [->| ->]|]. intros (h & Hat & _). by apply Hnt in Hat.
    + by destruct Hact as [->| ->].
Qed.

(** A UDP packet is passed with its destination port decremented and its
    checksum adjusted, no other byte changed; the ones' complement sum of the two
    changed words is preserved, as RFC 1071 asks, exactly when the low byte of
    the old checksum is not 0xFF (the program has no carry out of that byte). *)
Theorem block_udp_rewrite c rxcnt h :
  xdp_wf c -> udp_at c h -> 1 <= bpf_ntohs (rd16 c (udp_dest h)) ->
  xdp_block_port_func rxcnt c = Ok (XDP_PASS, rxcnt, udp_rewritten c h) /\
  bpf_ntohs (rd16 (udp_rewritten c h) (udp_dest h)) = bpf_ntohs (rd16 c (udp_dest h)) - 1 /\
  ((rd16 (udp_rewritten c h) (udp_dest h) + rd16 (udp_rewritten c h) (udp_check h)) mod 65535 =
   (rd16 c (udp_dest h) + rd16 c (udp_check h)) mod 65535 <->
   bpf_ntohs (rd16 c (udp_check h)) mod 256 <> 255).
Proof.
  intros Hwf Hat H1. pose proof Hat as (Hl4 & He & _). pose proof (l4_at_bounds c _ _ Hl4).
  split.
  { destruct (block_run c rxcnt Hwf) as [(h' & [H4 _] & _)|[(h' & Hat' & ->)|(_ & Hno & _)]].
    - by destruct (l4_unique c Hwf _ _ _ _ Hl4 H4).
    - destruct Hat' as [H4 _]. by destruct (l4_unique c Hwf _ _ _ _ Hl4 H4) as [_ ->].
    - by apply Hno in Hat. }
  pose proof (rd16_range c Hwf (udp_dest h)) as Hd. pose proof (rd16_range c Hwf (udp_check h)) as Hk.
  unfold udp_rewritten. set (d := rd16 c (udp_dest h)) in *. rewrite <- le_bytes_bswap16.
  assert (xdp_wf (wr c (udp_dest h) (le_bytes 2 (bswap16 (bpf_ntohs d - 1))))) as Hwf'
    by (apply wr_wf; auto using le_bytes_byte; off_lia).
  rewrite rd16_wr_same by (auto; off_lia).
  rewrite rd16_wr_other, rd16_wr_same by (auto; off_lia).
  unfold u16. rewrite !wrapu_small by first [apply bswap16_range | by apply bumped_range].
  split; [|by apply port_check_sum].
  unfold bpf_ntohs in *. pose proof (bswap16_range d). by rewrite bswap16_invol by lia.
Qed.

(** A TCP packet to another port is passed with its ports unchanged, yet its
    checksum word is replaced by one that is never congruent to the old one: a
    packet that arrives with a correct checksum leaves with an incorrect one. *)
Theorem block_tcp_passes_with_wrong_checksum c rxcnt h :
  xdp_wf c -> tcp_at c h -> bpf_ntohs (rd16 c (tcp_dest h)) <> 9999 ->
  xdp_block_port_func rxcnt c = Ok (XDP_PASS, rxcnt, tcp_passed c h) /\
  (forall off n, data c <= off -> off + Z.of_nat n <= data_end c ->
     off + Z.of_nat n <= tcp_check h \/ tcp_check h + 2 <= off ->
     bytes_at (tcp_passed c h) off n = bytes_at c off n) /\
  rd16 (tcp_passed c h) (tcp_check h) mod 65535 <> rd16 c (tcp_check h) mod 65535.
Proof.
  intros Hwf Hat Hne. pose proof Hat as (Hl4 & He & _). pose proof (l4_at_bounds c _ _ Hl4).
  split_and!.
  - destruct (block_run c rxcnt Hwf) as [(h' & [H4 ?] & ->)|[(h' & [H4 _] & _)|(Hno & _)]].
    + destruct (l4_unique c Hwf _ _ _ _ Hl4 H4) as [_ <-].
      by destruct (Z.eqb_spec (bpf_ntohs (rd16 c (tcp_dest h))) 9999).
    + by destruct (l4_unique c Hwf _ _ _ _ Hl4 H4).
    + by apply Hno in Hat.
  - intros. apply bytes_at_wr_other; auto; off_lia.
  - unfold tcp_passed. rewrite rd16_wr_same by (auto; off_lia).
    pose proof (rd16_range c Hwf (tcp_check h)) as Hk.
    unfold u16. rewrite wrapu_small by (by apply bumped_range). rewrite bumped_eq by done.
    rewrite Z.cong_iff_ex. intros [n Hn]. revert Hn. split_tests; lia.
Qed.

(** ** The properties at concrete packets *)

Definition demo_l2 (tags : list (Z * Z)) : list Z := repeat 1 6 ++ repeat 2 6 ++ eth_tail tags ETH_P_IP.
Definition demo_ip (proto : Z) : list Z :=
  [0x45; 0; 0; 40; 0; 0; 0; 0; 64; proto; 0; 0; 10; 0; 0; 1; 10; 0; 0; 2].
Definition demo_md (bs : list Z) : xdp_md := mk_xdp_md bs 0 (Z.of_nat (length bs)) 1 0.

Definition demo_tcp (port check : Z) : xdp_md :=
  demo_md (demo_l2 [(0x8100, 5)] ++ demo_ip 6 ++
           [4; 0] ++ be16 port ++ repeat 0 8 ++ [0x50; 2; 0; 64] ++ be16 check ++ [0; 0]).
Definition demo_udp (port check : Z) : xdp_md :=
  demo_md (demo_l2 demo_tags ++ demo_ip 17 ++ [4; 0] ++ be16 port ++ be16 8 ++ be16 check).

Lemma demo_l4 c tags proto h :
  l2_at c (data c) tags ETH_P_IP ->
  (let iph := data c + 14 + 4 * Z.of_nat (length tags) in
   iph + 20 <= data_end c /\ 5 <= rd_ihl c iph /\ iph + 4 * rd_ihl c iph <= data_end c /\
   proto = rd8 c (iph + 9) /\ h = iph + 4 * rd_ihl c iph) -> l4_at c proto h.
Proof. intros Hl2 H. exists tags, ETH_P_IP. cbn zeta in *. split; [done|]. left. tauto. Qed.

Ltac demo_hdr tags :=
  split; [apply (demo_l4 _ tags); [unfold l2_at, eth_at; by_compute | cbn zeta; by_compute] | by_compute].

Lemma demo_tcp_9999 : tcp_at (demo_tcp 9999 7) 38.
Proof. demo_hdr [(0x8100, 5)]. Qed.
Lemma demo_tcp_80 : tcp_at (demo_tcp 80 7) 38.
Proof. demo_hdr [(0x8100, 5)]. Qed.
Lemma demo_udp_53 : udp_at (demo_udp 53 0x12FF) 42.
Proof. demo_hdr demo_tags. Qed.

Lemma block_drops_exactly_9999_witness :
  exists c', xdp_block_port_func (Some 41) (demo_tcp 9999 7) = Ok (XDP_DROP, Some 42, c').
Proof.
  destruct (block_drops_exactly_9999 (demo_tcp 9999 7) (Some 41)) as (act & cnt & c' & Hrun & Hiff & Hcnt);
    [by_compute|].
  assert (act = XDP_DROP) as ->.
  { apply Hiff. exists 38. split; [exact demo_tcp_9999 | reflexivity]. }
  exists c'. rewrite Hrun, Hcnt. reflexivity.
Defined.

Lemma block_udp_rewrite_witness :
  xdp_block_port_func None (demo_udp 53 0x12FF) =
    Ok (XDP_PASS, None, udp_rewritten (demo_udp 53 0x12FF) 42) /\
  (rd16 (udp_rewritten (demo_udp 53 0x12FF) 42) 44 + rd16 (udp_rewritten (demo_udp 53 0x12FF) 42) 48)
    mod 65535 <> (rd16 (demo_udp 53 0x12FF) 44 + rd16 (demo_udp 53 0x12FF) 48) mod 65535.
Proof.
  destruct (block_udp_rewrite (demo_udp 53 0x12FF) None 42) as (Hrun & _ & Hsum);
    [by_compute | exact demo_udp_53 | by_compute |].
  split; [exact Hrun|]. intros H. apply Hsum in H. apply H. reflexivity.
Defined.

Lemma block_tcp_passes_with_wrong_checksum_witness :
  xdp_block_port_func (Some 0) (demo_tcp 80 7) = Ok (XDP_PASS, Some 0, tcp_passed (demo_tcp 80 7) 38).
Proof.
  apply (block_tcp_passes_with_wrong_checksum (demo_tcp 80 7) (Some 0) 38);
    [by_compute | exact demo_tcp_80 | by_compute].
Defined.
