(* ===== verification/XdpProgs.v ===== *)
(** * The filtering and redirecting XDP programs

    src/ebpf-xdp/kernel: xdp_map_allow.c ([allowed_addr_prog]), _xsk_def_xdp_prog.c
    ([xsk_def_prog]), xdp_redirect_dev.c ([xdp_sock2_prog]), xdp_redirect_xsk.c
    ([xdp_def_prog]) and xdp_pass.c. The kernel's map lookup, route lookup and
    redirect helpers are parameters. *)
From S2P Require Import Prelude XdpMem XdpParse XdpRewrite XdpBlock.
From stdpp Require Import base numbers list.
Local Open Scope Z_scope.

Definition xdp_pass_prog : X Z := mret XDP_PASS.

(** ** xdp_map_allow.c *)

Definition PROTO_IP : Z := 0x0800.

Record ipv4_lpm_key := mk_ipv4_lpm_key { prefixlen : Z; key_data : Z }.

(** [lookup] is the map: the 32-bit value stored under a key, if any. The program
    reads its first two bytes as the port. *)
Definition allowed_addr_prog (lookup : ipv4_lpm_key -> option Z) : X Z :=
  ctx ← stget;
  let dend := data_end ctx in
  let eth_header := data ctx in
  if dend <? eth_header + sz_ethhdr then mret XDP_DROP
  else
    hproto ← ld16 (h_proto eth_header);
    if negb (bpf_htons hproto =? PROTO_IP) then mret XDP_PASS
    else
      let ip := eth_header + sz_ethhdr in
      if dend <? eth_header + sz_ethhdr + sz_iphdr then mret XDP_DROP
      else
        match lookup (mk_ipv4_lpm_key 32 0) with
        | None => mret XDP_DROP
        | Some v =>
            let allow_port := u16 v in
            if allow_port =? 0 then mret XDP_DROP
            else
              protocol ← ld8 (ip_protocol ip);
              if protocol =? IPPROTO_UDP then
                let udp := eth_header + sz_ethhdr + sz_iphdr in
                if dend <? eth_header + sz_ethhdr + sz_iphdr + sz_udphdr then mret XDP_DROP
                else
                  dest ← ld16 (udp_dest udp);
                  if bpf_ntohs dest =? allow_port then mret XDP_PASS else mret XDP_DROP
              else mret XDP_DROP
        end.

(** ** Route lookup and redirect *)

(** The fields of [struct bpf_fib_lookup] the programs use. *)
Record bpf_fib_params := mk_fib {
  family : Z; ipv4_src : Z; ipv4_dst : Z; fib_ifindex : Z;
  smac : list Z; dmac : list Z;
}.
Definition AF_INET : Z := 2.
Definition BPF_FIB_LKUP_RET_SUCCESS : Z := 0.
Definition BPF_FIB_LKUP_RET_NO_NEIGH : Z := 7.

(** The parameter block after [memset] and the four assignments. *)
Definition fib_query (ctx : xdp_md) (src dst : Z) : bpf_fib_params :=
  mk_fib AF_INET src dst (ingress_ifindex ctx) (replicate 6 0) (replicate 6 0).

(** The two address arrays of the parameter block hold six bytes each. *)
Class FibLookup (fib : xdp_md -> bpf_fib_params -> Z * bpf_fib_params) : Prop := {
  fib_dmac : forall c p, length (dmac (fib c p).2) = 6%nat /\ Forall is_byte (dmac (fib c p).2);
  fib_smac : forall c p, length (smac (fib c p).2) = 6%nat /\ Forall is_byte (smac (fib c p).2);
}.

Section progs.
Context (bpf_fib_lookup : xdp_md -> bpf_fib_params -> Z * bpf_fib_params).
Context (bpf_redirect : Z -> Z -> Z).
(** The map of the program is fixed; key and flags remain. *)
Context (bpf_redirect_map : Z -> Z -> Z).

(** *** _xsk_def_xdp_prog.c *)
Definition xsk_def_prog (refcnt : Z) : X Z :=
  ctx ← stget;
  if refcnt =? 0 then mret XDP_PASS
  else
    let dend := data_end ctx in
    let eth_header := data ctx in
    if dend <? eth_header + sz_ethhdr then mret XDP_PASS
    else
      hproto ← ld16 (h_proto eth_header);
      if negb (bpf_htons hproto =? 0x0800) then mret XDP_PASS
      else
        let ip_header := eth_header + sz_ethhdr in
        if dend <? ip_header + sz_iphdr then mret XDP_PASS
        else
          saddr ← ld32 (ip_saddr ip_header);
          daddr ← ld32 (ip_daddr ip_header);
          let '(rc, fib) := bpf_fib_lookup ctx (fib_query ctx saddr daddr) in
          if negb (rc =? BPF_FIB_LKUP_RET_SUCCESS) && negb (rc =? BPF_FIB_LKUP_RET_NO_NEIGH)
          then mret XDP_DROP
          else if rc =? BPF_FIB_LKUP_RET_NO_NEIGH then mret XDP_PASS
          else
            store (h_dest eth_header) (dmac fib);;
            store (h_source eth_header) (smac fib);;
            mret (bpf_redirect_map (rx_queue_index ctx) XDP_PASS).

(** *** xdp_redirect_dev.c *)

(** An echo: route back to the sender, swap the addresses, redirect. *)
Definition dev_icmp (eth_header ip_header : Z) : X Z :=
  ctx ← stget;
  daddr ← ld32 (ip_daddr ip_header);
  saddr ← ld32 (ip_saddr ip_header);
  let '(rc, fib) := bpf_fib_lookup ctx (fib_query ctx daddr saddr) in
  if negb (rc =? BPF_FIB_LKUP_RET_SUCCESS) && negb (rc =? BPF_FIB_LKUP_RET_NO_NEIGH)
  then mret XDP_DROP
  else if rc =? BPF_FIB_LKUP_RET_NO_NEIGH then mret XDP_PASS
  else
    oldipdst ← ld32 (ip_daddr ip_header);
    src ← ld32 (ip_saddr ip_header);
    st32 (ip_daddr ip_header) src;;
    st32 (ip_saddr ip_header) oldipdst;;
    store (h_dest eth_header) (dmac fib);;
    store (h_source eth_header) (smac fib);;
    mret (bpf_redirect (fib_ifindex fib) 0).

Definition dev_tcp (eth_header ip_header : Z) : X Z :=
  ctx ← stget;
  let tcp_header := eth_header + sz_ethhdr + sz_iphdr in
  if data_end ctx <? tcp_header + sz_tcphdr then mret XDP_PASS
  else
    saddr ← ld32 (ip_saddr ip_header);
    daddr ← ld32 (ip_daddr ip_header);
    let '(rc, fib) := bpf_fib_lookup ctx (fib_query ctx saddr daddr) in
    if negb (rc =? BPF_FIB_LKUP_RET_SUCCESS) && negb (rc =? BPF_FIB_LKUP_RET_NO_NEIGH)
    then mret XDP_DROP
    else if rc =? BPF_FIB_LKUP_RET_NO_NEIGH then mret XDP_PASS
    else
      store (h_dest eth_header) (dmac fib);;
      store (h_source eth_header) (smac fib);;
      mret (bpf_redirect (fib_ifindex fib) 0).

Definition dev_udp (eth_header ip_header : Z) : X Z :=
  ctx ← stget;
  let udp_header := eth_header + sz_ethhdr + sz_iphdr in
  if data_end ctx <? udp_header + sz_udphdr then mret XDP_PASS
  else
    saddr ← ld32 (ip_saddr ip_header);
    daddr ← ld32 (ip_daddr ip_header);
    let '(rc, fib) := bpf_fib_lookup ctx (fib_query ctx saddr daddr) in
    if negb (rc =? BPF_FIB_LKUP_RET_SUCCESS) && negb (rc =? BPF_FIB_LKUP_RET_NO_NEIGH)
    then mret XDP_DROP
    else if rc =? BPF_FIB_LKUP_RET_NO_NEIGH then mret XDP_PASS
    else
      store (h_dest eth_header) (dmac fib);;
      store (h_source eth_header) (smac fib);;
      mret (bpf_redirect (fib_ifindex fib) 0).

Definition xdp_sock2_prog : X Z :=
  ctx ← stget;
  let dend := data_end ctx in
  let eth_header := data ctx in
  if dend <? eth_header + sz_ethhdr then mret XDP_PASS
  else
    hproto ← ld16 (h_proto eth_header);
    if negb (hproto =? 0x08) then mret XDP_PASS
    else
      let ip_header := eth_header + sz_ethhdr in
      if dend <? ip_header + sz_iphdr then mret XDP_PASS
      else
        protocol ← ld8 (ip_protocol ip_header);
        if protocol =? IPPROTO_ICMP then dev_icmp eth_header ip_header
        else if protocol =? IPPROTO_TCP then dev_tcp eth_header ip_header
        else if protocol =? IPPROTO_UDP then dev_udp eth_header ip_header
        else mret XDP_PASS.

(** *** xdp_redirect_xsk.c: a branch either returns a verdict or falls through
    to the redirect at the end. *)
Definition xsk_icmp (eth_header ip_header : Z) : X (option Z) :=
  ctx ← stget;
  daddr ← ld32 (ip_daddr ip_header);
  saddr ← ld32 (ip_saddr ip_header);
  let '(rc, fib) := bpf_fib_lookup ctx (fib_query ctx daddr saddr) in
  if negb (rc =? BPF_FIB_LKUP_RET_SUCCESS) && negb (rc =? BPF_FIB_LKUP_RET_NO_NEIGH)
  then mret (Some XDP_DROP)
  else if rc =? BPF_FIB_LKUP_RET_NO_NEIGH then mret (Some XDP_PASS)
  else
    oldipdst ← ld32 (ip_daddr ip_header);
    src ← ld32 (ip_saddr ip_header);
    st32 (ip_daddr ip_header) src;;
    st32 (ip_saddr ip_header) oldipdst;;
    store (h_dest eth_header) (dmac fib);;
    store (h_source eth_header) (smac fib);;
    mret None.

Definition xsk_tcp (eth_header ip_header : Z) : X (option Z) :=
  ctx ← stget;
  saddr ← ld32 (ip_saddr ip_header);
  daddr ← ld32 (ip_daddr ip_header);
  let '(rc, fib) := bpf_fib_lookup ctx (fib_query ctx saddr daddr) in
  if negb (rc =? BPF_FIB_LKUP_RET_SUCCESS) && negb (rc =? BPF_FIB_LKUP_RET_NO_NEIGH)
  then mret (Some XDP_DROP)
  else if rc =? BPF_FIB_LKUP_RET_NO_NEIGH then mret (Some XDP_PASS)
  else
    store (h_dest eth_header) (dmac fib);;
    store (h_source eth_header) (smac fib);;
    mret None.

Definition xsk_udp (eth_header ip_header : Z) : X (option Z) :=
  ctx ← stget;
  saddr ← ld32 (ip_saddr ip_header);
  daddr ← ld32 (ip_daddr ip_header);
  let '(rc, fib) := bpf_fib_lookup ctx (fib_query ctx saddr daddr) in
  if negb (rc =? BPF_FIB_LKUP_RET_SUCCESS) && negb (rc =? BPF_FIB_LKUP_RET_NO_NEIGH)
  then mret (Some XDP_DROP)
  else if rc =? BPF_FIB_LKUP_RET_NO_NEIGH then mret (Some XDP_PASS)
  else
    store (h_dest eth_header) (dmac fib);;
    store (h_source eth_header) (smac fib);;
    mret None.

Definition xdp_def_prog (refcnt : Z) : X Z :=
  ctx ← stget;
  if refcnt =? 0 then mret XDP_PASS
  else
    let index := s32 (rx_queue_index ctx) in
    let dend := data_end ctx in
    let eth_header := data ctx in
    if dend <? eth_header + sz_ethhdr then mret XDP_PASS
    else
      hproto ← ld16 (h_proto eth_header);
      if negb (bpf_htons hproto =? PROTO_IP) then mret XDP_PASS
      else
        let ip_header := eth_header + sz_ethhdr in
        if dend <? ip_header + sz_iphdr then mret XDP_PASS
        else
          protocol ← ld8 (ip_protocol ip_header);
          r ← (if protocol =? IPPROTO_ICMP then xsk_icmp eth_header ip_header
               else if protocol =? IPPROTO_TCP then xsk_tcp eth_header ip_header
               else if protocol =? IPPROTO_UDP then xsk_udp eth_header ip_header
               else mret None);
          match r with
          | Some verdict => mret verdict
          | None => mret (bpf_redirect_map (u64 index) XDP_PASS)
          end.
End progs.

(** ** Reference results *)

Definition set_macs (c : xdp_md) (q : bpf_fib_params) : xdp_md :=
  wr (wr c (h_dest (data c)) (dmac q)) (h_source (data c)) (smac q).

(** The two IPv4 addresses exchanged. *)
Definition addr_swapped (c : xdp_md) (ip : Z) : xdp_md :=
  wr (wr c (ip_daddr ip) (bytes_at c (ip_saddr ip) 4)) (ip_saddr ip) (bytes_at c (ip_daddr ip) 4).

(** The verdict of a route lookup: on success continue, without a neighbour entry
    leave the packet to the stack, otherwise drop it. *)
Definition routed (fib : xdp_md -> bpf_fib_params -> Z * bpf_fib_params) (c : xdp_md)
    (src dst : Z) (ok : bpf_fib_params -> Z * xdp_md) : Z * xdp_md :=
  let '(rc, q) := fib c (fib_query c src dst) in
  if rc =? BPF_FIB_LKUP_RET_SUCCESS then ok q
  else if rc =? BPF_FIB_LKUP_RET_NO_NEIGH then (XDP_PASS, c) else (XDP_DROP, c).

Definition is_ipv4 (c : xdp_md) : Prop :=
  data c + 34 <= data_end c /\ bpf_ntohs (rd16 c (h_proto (data c))) = ETH_P_IP.

(** Comparing the raw EtherType with 0x08 is comparing it with [ETH_P_IP]. *)
Lemma h_proto_ip x : 0 <= x < 65536 -> (x =? 0x08) = (bpf_ntohs x =? ETH_P_IP).
Proof.
  intros Hx. apply eq_bool_prop_intro. rewrite !Is_true_true, !Z.eqb_eq. split; [by intros ->|].
  intros H. apply bswap16_inj; auto; lia.
Qed.

Section runs.
Context (fib : xdp_md -> bpf_fib_params -> Z * bpf_fib_params) `{!FibLookup fib}.
Context (redirect : Z -> Z -> Z) (redirect_map : Z -> Z -> Z).
Context (c : xdp_md) (Hwf : xdp_wf c).

(** What every branch does behind its lookup. *)
Lemma wp_route {A} src dst (ret : Z -> A) (cont : bpf_fib_params -> X A) (ok : _ -> A * xdp_md) Q :
  (forall q, (length (dmac q) = 6%nat /\ Forall is_byte (dmac q)) ->
             (length (smac q) = 6%nat /\ Forall is_byte (smac q)) ->
     wp (cont q) (fun a s => (a, s) = ok q) c) ->
  (let '(rc, q) := fib c (fib_query c src dst) in
   let '(a, s) := if rc =? BPF_FIB_LKUP_RET_SUCCESS then ok q
                  else if rc =? BPF_FIB_LKUP_RET_NO_NEIGH then (ret XDP_PASS, c)
                  else (ret XDP_DROP, c) in Q a s) ->
  wp (let '(rc, q) := fib c (fib_query c src dst) in
      if negb (rc =? BPF_FIB_LKUP_RET_SUCCESS) && negb (rc =? BPF_FIB_LKUP_RET_NO_NEIGH)
      then mret (ret XDP_DROP)
      else if rc =? BPF_FIB_LKUP_RET_NO_NEIGH then mret (ret XDP_PASS)
      else cont q) Q c.
Proof.
  intros Hc. pose proof (fib_dmac c (fib_query c src dst)) as Hd.
  pose proof (fib_smac c (fib_query c src dst)) as Hs.
  destruct (fib c (fib_query c src dst)) as [rc q]. simpl in Hd, Hs.
  unfold BPF_FIB_LKUP_RET_SUCCESS, BPF_FIB_LKUP_RET_NO_NEIGH.
  destruct (Z.eqb_spec rc 0) as [->|]; simpl.
  - destruct (ok q) as [a0 s0] eqn:E. intros HQ.
    eapply wp_mono; [by apply Hc|]. intros a s Heq. rewrite E in Heq. by injection Heq as -> ->.
  - destruct (rc =? 7); simpl; intros HQ; by xwp.
Qed.

Lemma wp_set_macs c0 q Q :
  data c0 = data c -> data_end c0 = data_end c -> data c + 14 <= data_end c ->
  length (dmac q) = 6%nat -> length (smac q) = 6%nat -> Q tt (set_macs c0 q) ->
  wp (store (h_dest (data c)) (dmac q);; store (h_source (data c)) (smac q)) Q c0.
Proof.
  intros Hd He Hfit Hl1 Hl2 HQ. unfold set_macs in HQ. rewrite Hd in HQ.
  xwp. apply wp_store; [off_lia..|]. apply wp_store; [off_lia..|]. done.
Qed.

Lemma bind_assoc3 {A B} (m1 m2 : X A) (k : X B) Q s :
  wp (m1;; m2) (fun _ s' => wp k Q s') s -> wp (m1;; m2;; k) Q s.
Proof.
  intros H. destruct (wp_run _ _ _ H) as (a & s' & Hrun & HQ). apply wp_bind.
  revert Hrun. unfold mbind, ST_bind. destruct (m1 s) as [[a1 s1]|] eqn:E1; [|done]. intros E2.
  eapply wp_of_run; [done|]. apply wp_bind. by eapply wp_of_run.
Qed.

Definition ip0 : Z := data c + sz_ethhdr.

Lemma wp_addr_swap {A} (k : X A) Q :
  data c + 34 <= data_end c -> wp k Q (addr_swapped c ip0) ->
  wp (oldipdst ← ld32 (ip_daddr ip0); src ← ld32 (ip_saddr ip0);
      st32 (ip_daddr ip0) src;; st32 (ip_saddr ip0) oldipdst;; k) Q c.
Proof.
  intros Hfit Hk. unfold ip0 in *.
  xwp. rewrite !le_bytes_rd32 by (auto; off_lia). done.
Qed.

Lemma run_of_wp_pair {A} (m : X A) (p : A * xdp_md) :
  wp m (fun a s => (a, s) = p) c -> m c = Ok p.
Proof. intros H. destruct (wp_run _ _ _ H) as (a & s & -> & ->). done. Qed.

Ltac macs := apply bind_assoc3; apply wp_set_macs; auto; try off_lia; by wp_step.

Lemma dev_icmp_run :
  data c + 34 <= data_end c ->
  dev_icmp fib redirect (data c) ip0 c =
  Ok (routed fib c (rd32 c (ip_daddr ip0)) (rd32 c (ip_saddr ip0))
        (fun q => (redirect (fib_ifindex q) 0, set_macs (addr_swapped c ip0) q))).
Proof.
  intros Hfit. apply run_of_wp_pair. unfold dev_icmp. pose proof (eq_refl : ip0 = data c + 14). xwp.
  eapply (wp_route _ _ (fun z => z)); [|].
  - intros q [? ?] [? ?]. apply wp_addr_swap; [done|]. macs.
  - unfold routed. destruct (fib _ _) as [rc q]. by destruct (if rc =? _ then _ else _).
Qed.

Lemma dev_tcp_run :
  data c + 34 <= data_end c ->
  dev_tcp fib redirect (data c) ip0 c =
  Ok (if data c + 54 <=? data_end c then
        routed fib c (rd32 c (ip_saddr ip0)) (rd32 c (ip_daddr ip0))
          (fun q => (redirect (fib_ifindex q) 0, set_macs c q))
      else (XDP_PASS, c)).
Proof.
  intros Hfit. apply run_of_wp_pair. unfold dev_tcp. pose proof (eq_refl : ip0 = data c + 14).
  wp_step. wp_step.
  destruct (data c + 54 <=? data_end c) eqn:E; split_tests; try off_lia; [|by wp_step].
  xwp. eapply (wp_route _ _ (fun z => z)); [|].
  - intros q [? ?] [? ?]. macs.
  - unfold routed. destruct (fib _ _) as [rc q]. by destruct (if rc =? _ then _ else _).
Qed.

Lemma dev_udp_run :
  data c + 34 <= data_end c ->
  dev_udp fib redirect (data c) ip0 c =
  Ok (if data c + 42 <=? data_end c then
        routed fib c (rd32 c (ip_saddr ip0)) (rd32 c (ip_daddr ip0))
          (fun q => (redirect (fib_ifindex q) 0, set_macs c q))
      else (XDP_PASS, c)).
Proof.
  intros Hfit. apply run_of_wp_pair. unfold dev_udp. pose proof (eq_refl : ip0 = data c + 14).
  wp_step. wp_step.
  destruct (data c + 42 <=? data_end c) eqn:E; split_tests; try off_lia; [|by wp_step].
  xwp. eapply (wp_route _ _ (fun z => z)); [|].
  - intros q [? ?] [? ?]. macs.
  - unfold routed. destruct (fib _ _) as [rc q]. by destruct (if rc =? _ then _ else _).
Qed.

(** The common prefix of the redirecting programs. *)
Lemma is_ipv4_dec : Decision (is_ipv4 c).
Proof. unfold is_ipv4. apply _. Qed.

Lemma wp_dispatch {A} (test : Z -> bool) (pass : A) (k : Z -> X A) Q :
  (forall x, 0 <= x < 65536 -> test x = (bpf_ntohs x =? ETH_P_IP)) ->
  (is_ipv4 c -> wp (k (rd8 c (ip_protocol ip0))) Q c) -> (~ is_ipv4 c -> Q pass c) ->
  wp (if data_end c <? data c + sz_ethhdr then mret pass
      else
        hproto ← ld16 (h_proto (data c));
        if negb (test hproto) then mret pass
        else if data_end c <? data c + sz_ethhdr + sz_iphdr then mret pass
        else protocol ← ld8 (ip_protocol (data c + sz_ethhdr)); k protocol) Q c.
Proof.
  intros Ht Hk Hno. unfold is_ipv4, ip0 in *.
  destruct (data_end c <? data c + sz_ethhdr) eqn:E1; [wp_step; apply Hno; off_lia|].
  wp_step. apply wp_ld16; [off_lia..|]. rewrite Ht by auto with xdp.
  destruct (Z.eqb_spec (bpf_ntohs (rd16 c (h_proto (data c)))) ETH_P_IP); simpl;
    [|wp_step; apply Hno; tauto].
  destruct (data_end c <? data c + sz_ethhdr + sz_iphdr) eqn:E2; [wp_step; apply Hno; off_lia|].
  wp_step. apply wp_ld8; [off_lia..|]. apply Hk. split; [off_lia|done].
Qed.
End runs.

(** ** Properties *)

(** The allow-list filter never faults and never changes the packet; it
    passes a packet exactly when it is a complete frame that is not IPv4, or an
    IPv4/UDP packet whose destination port (behind a 20-byte IP header) is the
    nonzero port stored in the map. *)
Theorem allowed_addr_exact lookup c :
  xdp_wf c ->
  exists act, allowed_addr_prog lookup c = Ok (act, c) /\ (act = XDP_PASS \/ act = XDP_DROP) /\
    (act = XDP_PASS <->
     data c + 14 <= data_end c /\
     (bpf_ntohs (rd16 c (h_proto (data c))) <> ETH_P_IP \/
      data c + 42 <= data_end c /\ rd8 c (ip_protocol (data c + 14)) = IPPROTO_UDP /\
      exists v, lookup (mk_ipv4_lpm_key 32 0) = Some v /\ u16 v <> 0 /\
        bpf_ntohs (rd16 c (udp_dest (data c + 34))) = u16 v)).
Proof.
  intros Hwf. set (spec := data c + 14 <= data_end c /\ _).
  assert (wp (allowed_addr_prog lookup) (fun act c' =>
    c' = c /\ (act = XDP_PASS /\ spec \/ act = XDP_DROP /\ ~ spec)) c) as H.
  { unfold allowed_addr_prog, spec, PROTO_IP, bpf_htons, bpf_ntohs, XDP_PASS, XDP_DROP.
    wp_step. wp_step.
    destruct (data_end c <? data c + sz_ethhdr) eqn:E1; [wp_step; split; [done|]; off_lia|].
    wp_step. apply wp_ld16; [off_lia..|]. change 0x0800 with ETH_P_IP.
    destruct (Z.eqb_spec (bswap16 (rd16 c (h_proto (data c)))) ETH_P_IP) as [E2|E2]; simpl;
      [|wp_step; split; [done|]; left; split; [done|]; split; [off_lia|by left]].
    destruct (data_end c <? data c + sz_ethhdr + sz_iphdr) eqn:E3; [wp_step; split; [done|]; off_lia|].
    destruct (lookup _) as [v|] eqn:Hv;
      [|wp_step; split; [done|]; right; split; [done|]; intros (_ & [?|(_ & _ & v & ? & _)]); done].
    destruct (Z.eqb_spec (u16 v) 0) as [E4|E4];
      [wp_step; split; [done|]; right; split; [done|];
       intros (_ & [?|(_ & _ & v' & Hv' & ? & _)]); [done|congruence]|].
    wp_step. apply wp_ld8; [off_lia..|]. change (data c + sz_ethhdr) with (data c + 14).
    destruct (Z.eqb_spec (rd8 c (ip_protocol (data c + 14))) IPPROTO_UDP) as [E5|E5];
      [|wp_step; split; [done|]; right; split; [done|]; intros (_ & [?|(_ & ? & _)]); done].
    destruct (data_end c <? data c + 14 + sz_iphdr + sz_udphdr) eqn:E6;
      [wp_step; split; [done|]; right; split; [done|]; intros (_ & [?|(? & _)]); [done|off_lia]|].
    wp_step. apply wp_ld16; [off_lia..|].
    replace (data c + 14 + sz_iphdr) with (data c + 34) by off_lia.
    destruct (Z.eqb_spec (bswap16 (rd16 c (udp_dest (data c + 34)))) (u16 v)) as [E7|E7]; wp_step.
    - split; [done|]. left. split; [done|]. split; [off_lia|]. right. split_and!; [off_lia|done|eauto].
    - split; [done|]. right. split; [done|]. intros (_ & [?|(_ & _ & v' & Hv' & _ & ?)]); [done|congruence]. }
  destruct (wp_run _ _ _ H) as (act & c' & Hrun & -> & Hact). exists act. split; [done|].
  destruct Hact as [[-> Hs]|[-> Hs]]; (split; [tauto|]); split; intros; [done..|].
  tauto.
Qed.

Section dispatch.
Context (fib : xdp_md -> bpf_fib_params -> Z * bpf_fib_params) `{!FibLookup fib}.
Context (redirect : Z -> Z -> Z) (redirect_map : Z -> Z -> Z).
Context (c : xdp_md) (Hwf : xdp_wf c).

Lemma sock2_not_ip : ~ is_ipv4 c -> xdp_sock2_prog fib redirect c = Ok (XDP_PASS, c).
Proof.
  intros Hno. apply run_of_wp_pair. unfold xdp_sock2_prog. wp_step. wp_step.
  apply wp_dispatch; auto; [apply h_proto_ip | done].
Qed.

Lemma sock2_ip :
  is_ipv4 c ->
  let proto := rd8 c (ip_protocol (ip0 c)) in
  xdp_sock2_prog fib redirect c =
  (if proto =? IPPROTO_ICMP then dev_icmp fib redirect (data c) (ip0 c) c
   else if proto =? IPPROTO_TCP then dev_tcp fib redirect (data c) (ip0 c) c
   else if proto =? IPPROTO_UDP then dev_udp fib redirect (data c) (ip0 c) c
   else Ok (XDP_PASS, c)).
Proof.
  intros Hip proto. pose proof Hip as [? _].
  assert (exists p, (if proto =? IPPROTO_ICMP then dev_icmp fib redirect (data c) (ip0 c) c
     else if proto =? IPPROTO_TCP then dev_tcp fib redirect (data c) (ip0 c) c
     else if proto =? IPPROTO_UDP then dev_udp fib redirect (data c) (ip0 c) c
     else Ok (XDP_PASS, c)) = Ok p) as [p Hp].
  { rewrite dev_icmp_run, dev_tcp_run, dev_udp_run by auto. split_tests; eauto. }
  rewrite Hp. apply run_of_wp_pair. unfold xdp_sock2_prog. wp_step. wp_step.
  apply wp_dispatch; auto; [apply h_proto_ip | | done]. intros _. fold proto. revert Hp.
  destruct p as [r s].
  destruct (proto =? IPPROTO_ICMP); [|destruct (proto =? IPPROTO_TCP);
    [|destruct (proto =? IPPROTO_UDP)]]; intros Hp; by eapply wp_of_run.
Qed.
End dispatch.

(** C28: the device redirect program on every packet: what is not a complete IPv4
    header, and every other transport protocol, passes untouched; TCP and UDP
    packets with a complete transport header are routed from their source to their
    destination, ICMP packets from their destination back to their source. A
    failed route lookup drops the packet and a missing neighbour passes it, both
    unchanged; a successful one sets the two Ethernet addresses to those of the
    route (for ICMP also exchanges the IP addresses) and redirects to its
    interface. No access leaves the packet. *)
Theorem xdp_sock2_exact fib `{!FibLookup fib} redirect c :
  xdp_wf c ->
  let proto := rd8 c (ip_protocol (ip0 c)) in
  let saddr := rd32 c (ip_saddr (ip0 c)) in
  let daddr := rd32 c (ip_daddr (ip0 c)) in
  let forward := routed fib c saddr daddr
                   (fun q => (redirect (fib_ifindex q) 0, set_macs c q)) in
  let reflect := routed fib c daddr saddr
                   (fun q => (redirect (fib_ifindex q) 0, set_macs (addr_swapped c (ip0 c)) q)) in
  (~ is_ipv4 c -> xdp_sock2_prog fib redirect c = Ok (XDP_PASS, c)) /\
  (is_ipv4 c -> xdp_sock2_prog fib redirect c =
     Ok (if proto =? IPPROTO_ICMP then reflect
         else if (proto =? IPPROTO_TCP) && (data c + 54 <=? data_end c) then forward
         else if (proto =? IPPROTO_UDP) && (data c + 42 <=? data_end c) then forward
         else (XDP_PASS, c))).
Proof.
  intros Hwf proto saddr daddr forward reflect. split; [by apply sock2_not_ip|].
  intros Hip. rewrite sock2_ip by auto. destruct Hip as [? _]. fold proto.
  rewrite dev_icmp_run, dev_tcp_run, dev_udp_run by auto. fold saddr daddr forward reflect.
  destruct (proto =? IPPROTO_ICMP); [done|].
  destruct (Z.eqb_spec proto IPPROTO_TCP) as [E|E]; simpl.
  - rewrite E. change (IPPROTO_TCP =? IPPROTO_UDP) with false. by destruct (_ <=? _).
  - by destruct (proto =? IPPROTO_UDP), (_ <=? _).
Qed.

(** ** The IPv4 header checksum under reflection *)

(** The sum of [n] 16-bit words. *)
Fixpoint words_sum (c : xdp_md) (off : Z) (n : nat) : Z :=
  match n with
  | O => 0
  | S n' => rd16 c off + words_sum c (off + 2) n'
  end.

Lemma words_sum_app c n m : forall off,
  words_sum c off (n + m) = words_sum c off n + words_sum c (off + 2 * Z.of_nat n) m.
Proof.
  induction n as [|n IH]; intros off; cbn [words_sum Nat.add].
  - by rewrite Z.add_0_r.
  - rewrite IH, Nat2Z.inj_succ.
    replace (off + 2 + 2 * Z.of_nat n) with (off + 2 * Z.succ (Z.of_nat n)) by lia. lia.
Qed.

Lemma words_sum_wr c off bs n : xdp_wf c -> forall off',
  data c <= off -> off + Z.of_nat (length bs) <= data_end c ->
  data c <= off' -> off' + 2 * Z.of_nat n <= data_end c ->
  (off' + 2 * Z.of_nat n <= off \/ off + Z.of_nat (length bs) <= off') ->
  words_sum (wr c off bs) off' n = words_sum c off' n.
Proof.
  intros Hwf. induction n as [|n IH]; intros off' ? ? ? ? ?; cbn [words_sum]; [done|].
  rewrite rd16_wr_other, IH by (auto; lia). done.
Qed.

Lemma words_sum_bytes c c' off off' n :
  xdp_wf c -> xdp_wf c' -> 0 <= off -> 0 <= off' ->
  bytes_at c off (2 * n) = bytes_at c' off' (2 * n) -> words_sum c off n = words_sum c' off' n.
Proof.
  intros Hwf Hwf'. revert off off'. induction n as [|n IH]; intros off off' ? ? Heq; [done|].
  replace (2 * S n)%nat with (2 + 2 * n)%nat in Heq by lia. cbn [words_sum].
  pose proof (bytes_at_sub c off _ _ 0 2 ltac:(done) Heq ltac:(lia)) as H1.
  pose proof (bytes_at_sub c off _ _ 2 (2 * n) ltac:(done) Heq ltac:(lia)) as H2.
  pose proof (bytes_at_sub c' off' (2 + 2 * n) _ 0 2 ltac:(done) eq_refl ltac:(lia)) as H1'.
  pose proof (bytes_at_sub c' off' (2 + 2 * n) _ 2 (2 * n) ltac:(done) eq_refl ltac:(lia)) as H2'.
  rewrite <- H1' in H1. rewrite <- H2' in H2. rewrite !Z.add_0_r in H1.
  unfold rd16. rewrite H1. f_equal. apply IH; [lia..|]. exact H2.
Qed.

Section reflect.
Context (c : xdp_md) (Hwf : xdp_wf c) (Hfit : data c + 34 <= data_end c).

Lemma addr_swapped_wf : xdp_wf (addr_swapped c (ip0 c)).
Proof.
  pose proof (eq_refl : ip0 c = data c + 14).
  assert (forall off, length (bytes_at c off 4) <= 4)%nat as Hl by (intros; by apply bytes_at_len_le).
  pose proof (Hl (ip_saddr (ip0 c))). pose proof (Hl (ip_daddr (ip0 c))).
  unfold addr_swapped. repeat apply wr_wf; auto using bytes_at_bytes; off_lia.
Qed.

(** Exchanging the two addresses keeps the sum over any header that contains
    them. *)
Lemma addr_swapped_sum n :
  (10 <= n)%nat -> ip0 c + 2 * Z.of_nat n <= data_end c ->
  words_sum (addr_swapped c (ip0 c)) (ip0 c) n = words_sum c (ip0 c) n.
Proof.
  intros Hn Hle. set (ip := ip0 c) in *. pose proof (eq_refl : ip = data c + 14).
  pose proof (length_bytes_at c Hwf (ip_saddr ip) 4 ltac:(off_lia) ltac:(off_lia)) as Hls.
  pose proof (length_bytes_at c Hwf (ip_daddr ip) 4 ltac:(off_lia) ltac:(off_lia)) as Hld.
  set (c1 := wr c (ip_daddr ip) (bytes_at c (ip_saddr ip) 4)).
  pose proof (eq_refl : data c1 = data c). pose proof (eq_refl : data_end c1 = data_end c).
  assert (xdp_wf c1) as Hwf1 by (apply wr_wf; auto using bytes_at_bytes; off_lia).
  pose proof addr_swapped_wf as Hwf2. fold ip in Hwf2.
  assert (bytes_at (addr_swapped c ip) (ip_saddr ip) 4 = bytes_at c (ip_daddr ip) 4) as Hsw
    by (apply bytes_at_wr_same; auto; off_lia).
  assert (bytes_at (addr_swapped c ip) (ip_daddr ip) 4 = bytes_at c (ip_saddr ip) 4) as Hdw.
  { unfold addr_swapped. fold c1. rewrite bytes_at_wr_other by (auto; off_lia).
    apply bytes_at_wr_same; auto; off_lia. }
  assert (forall off k, data c <= off -> off + 2 * Z.of_nat k <= data_end c ->
    (off + 2 * Z.of_nat k <= ip + 12 \/ ip + 20 <= off) ->
    words_sum (addr_swapped c ip) off k = words_sum c off k) as Hout.
  { intros. unfold addr_swapped. fold c1. rewrite words_sum_wr by (auto; off_lia).
    apply words_sum_wr; auto; off_lia. }
  replace n with (6 + (2 + (2 + (n - 10))))%nat by lia.
  rewrite !words_sum_app. change (2 * Z.of_nat 6) with 12. change (2 * Z.of_nat 2) with 4.
  replace (ip + 12 + 4) with (ip_daddr ip) by off_lia. fold (ip_saddr ip).
  rewrite (Hout ip 6%nat), (Hout (ip_daddr ip + 4)) by off_lia.
  pose proof (proj1 Hwf).
  rewrite (words_sum_bytes _ c (ip_saddr ip) (ip_daddr ip) 2 Hwf2 Hwf ltac:(off_lia)
    ltac:(off_lia) Hsw).
  rewrite (words_sum_bytes _ c (ip_daddr ip) (ip_saddr ip) 2 Hwf2 Hwf ltac:(off_lia)
    ltac:(off_lia) Hdw).
  lia.
Qed.

Lemma set_macs_sum q n :
  length (dmac q) = 6%nat -> length (smac q) = 6%nat ->
  Forall is_byte (dmac q) -> ip0 c + 2 * Z.of_nat n <= data_end c ->
  words_sum (set_macs c q) (ip0 c) n = words_sum c (ip0 c) n.
Proof.
  intros. pose proof (eq_refl : ip0 c = data c + 14). unfold set_macs.
  rewrite words_sum_wr by (first [apply wr_wf; auto; off_lia | off_lia]).
  apply words_sum_wr; auto; off_lia.
Qed.
End reflect.

(** When an ICMP packet is reflected, the sum of the 16-bit words of its IPv4
    header, options included, is what it was: the exchange of the addresses and
    the new Ethernet addresses leave the header checksum valid. *)
Theorem icmp_reflection_keeps_checksum fib `{!FibLookup fib} redirect c act c' :
  xdp_wf c -> is_ipv4 c -> rd8 c (ip_protocol (ip0 c)) = IPPROTO_ICMP ->
  xdp_sock2_prog fib redirect c = Ok (act, c') ->
  forall n, (10 <= n)%nat -> ip0 c + 2 * Z.of_nat n <= data_end c ->
  words_sum c' (ip0 c) n = words_sum c (ip0 c) n.
Proof.
  intros Hwf Hip Hproto Hrun n Hn Hle. rewrite sock2_ip, Hproto in Hrun by auto.
  destruct Hip as [? _]. simpl in Hrun. rewrite dev_icmp_run in Hrun by auto.
  injection Hrun as Hrun. revert Hrun. unfold routed.
  set (p := fib_query c _ _). pose proof (fib_dmac c p) as [? ?]. pose proof (fib_smac c p) as [? ?].
  destruct (fib c p) as [rc q]. simpl in *.
  split_tests; intros [= <- <-]; [|done..].
  transitivity (words_sum (addr_swapped c (ip0 c)) (ip0 c) n); [|by apply addr_swapped_sum].
  apply (set_macs_sum (addr_swapped c (ip0 c))); auto. by apply addr_swapped_wf.
Qed.

(** For TCP and UDP packets the socket redirect program [xdp_def_prog] is the
    default program [xsk_def_prog]: the same verdict and the same packet, on every
    such packet received on a queue whose number fits in an [int]. *)
Theorem xsk_programs_agree fib redirect_map refcnt c :
  xdp_wf c -> 0 <= rx_queue_index c < 2 ^ 31 ->
  rd8 c (ip_protocol (ip0 c)) = IPPROTO_TCP \/ rd8 c (ip_protocol (ip0 c)) = IPPROTO_UDP ->
  xdp_def_prog fib redirect_map refcnt c = xsk_def_prog fib redirect_map refcnt c.
Proof.
  intros Hwf Hq Hproto. unfold xdp_def_prog, xsk_def_prog.
  rewrite !(bind_run stget _ c c c eq_refl).
  destruct (refcnt =? 0); [done|]. cbn zeta.
  destruct (data_end c <? data c + sz_ethhdr) eqn:E1; [done|].
  assert (forall off k, data c <= off -> off + 2 <= data_end c ->
    (ld16 off ≫= k) c = (k (rd16 c off) : X Z) c) as H16.
  { intros. apply bind_run, run_of_wp. by apply wp_ld16. }
  rewrite !H16 by off_lia. change PROTO_IP with 0x0800. destruct (negb _); [done|].
  destruct (data_end c <? data c + sz_ethhdr + sz_iphdr) eqn:E2; [done|].
  rewrite (bind_run (ld8 (ip_protocol (data c + sz_ethhdr))) _ c (rd8 c (ip_protocol (ip0 c))) c)
    by (apply run_of_wp; apply wp_ld8; unfold ip0; auto; off_lia).
  fold (ip0 c). rewrite s32_small by lia. unfold u64. rewrite wrapu_small by lia.
  assert (forall m1 m3 : X (option Z),
    (if rd8 c (ip_protocol (ip0 c)) =? IPPROTO_ICMP then m1
     else if rd8 c (ip_protocol (ip0 c)) =? IPPROTO_TCP then xsk_tcp fib (data c) (ip0 c)
     else if rd8 c (ip_protocol (ip0 c)) =? IPPROTO_UDP then xsk_udp fib (data c) (ip0 c)
     else m3) = xsk_tcp fib (data c) (ip0 c)) as -> by (intros; by destruct Hproto as [-> | ->]).
  cbv [xsk_tcp mbind ST_bind stget mret ST_ret ld32 load store]. fold (ip0 c).
  destruct (in_packet c (ip_saddr (ip0 c)) (Z.of_nat 4)); [|done].
  destruct (in_packet c (ip_daddr (ip0 c)) (Z.of_nat 4)); [|done].
  destruct (fib c (fib_query c _ _)) as [rc q]. split_tests; done.
Qed.

(** ** The properties at concrete inputs *)

(** A routing table with one route. *)
Definition demo_fib (c : xdp_md) (p : bpf_fib_params) : Z * bpf_fib_params :=
  (0, mk_fib (family p) (ipv4_src p) (ipv4_dst p) 3 [10; 11; 12; 13; 14; 15] [20; 21; 22; 23; 24; 25]).
#[export] Instance demo_fib_ok : FibLookup demo_fib.
Proof. split; intros; (split; [done|by_compute]). Qed.

Definition demo_redirect (ifindex flags : Z) : Z := XDP_REDIRECT.

Definition demo_ipv4 (proto : Z) : xdp_md :=
  demo_md (demo_l2 [] ++ demo_ip proto ++ [4; 0] ++ be16 9999 ++ be16 8 ++ be16 0 ++ repeat 0 12).

Lemma allowed_addr_exact_witness :
  allowed_addr_prog (fun _ => Some 9999) (demo_ipv4 17) = Ok (XDP_PASS, demo_ipv4 17).
Proof.
  destruct (allowed_addr_exact (fun _ => Some 9999) (demo_ipv4 17)) as (act & Hrun & _ & Hact); [by_compute|].
  rewrite Hrun. do 2 f_equal. apply Hact. split; [by_compute|]. right.
  split; [by_compute|]. split; [reflexivity|]. exists 9999. split; [reflexivity|by_compute].
Defined.

Lemma demo_is_ipv4 proto : is_ipv4 (demo_ipv4 proto).
Proof. split; [by_compute|reflexivity]. Qed.

Lemma xdp_sock2_exact_witness :
  xdp_sock2_prog demo_fib demo_redirect (demo_ipv4 6) =
  Ok (XDP_REDIRECT, set_macs (demo_ipv4 6)
        (demo_fib (demo_ipv4 6) (fib_query (demo_ipv4 6) 0x0100000a 0x0200000a)).2).
Proof. apply (xdp_sock2_exact demo_fib demo_redirect (demo_ipv4 6)); [by_compute|apply demo_is_ipv4]. Defined.

Lemma icmp_reflection_keeps_checksum_witness :
  exists act c', xdp_sock2_prog demo_fib demo_redirect (demo_ipv4 1) = Ok (act, c') /\
    words_sum c' 14 10 = words_sum (demo_ipv4 1) 14 10.
Proof.
  eexists _, _. split; [vm_compute; reflexivity|].
  refine (icmp_reflection_keeps_checksum demo_fib demo_redirect (demo_ipv4 1) XDP_REDIRECT _
            _ _ _ _ 10%nat _ _);
    [by_compute | apply demo_is_ipv4 | reflexivity | vm_compute; reflexivity | lia | by_compute].
Defined.

Lemma xsk_programs_agree_witness :
  xdp_def_prog demo_fib demo_redirect 1 (demo_ipv4 17) = xsk_def_prog demo_fib demo_redirect 1 (demo_ipv4 17).
Proof.
  apply (xsk_programs_agree demo_fib demo_redirect 1 (demo_ipv4 17)); [by_compute | by_compute |].
  right. reflexivity.
Defined.
