(* ===== verification/BufPool.v ===== *)
(** * The shared buffer pool and its per-port caches

    src/ebpf-xdp/xsk/af_rxtx.c, [bpool_*] and [bcache_*]. A pool owns an array of
    buffer addresses cut into slabs; [slabs] holds pointers to full slabs below
    [n_slabs_available] and to empty ones above. A cache owns a consumer slab and a
    producer slab and trades whole slabs with the pool under the pool's lock.

    Pointers into the arrays [buffers] and [buffers_reserved], which are adjacent
    in one allocation, are indices into their concatenation. *)
From S2P Require Import Prelude.
From stdpp Require Import base numbers list gmap.
Local Open Scope Z_scope.

Record bpool_params := mk_bpool_params {
  pp_n_buffers : Z; pp_buffer_size : Z; pp_n_users_max : Z; pp_n_buffers_per_slab : Z;
}.

Record bpool := mk_bpool {
  n_buffers_per_slab : Z;
  buffer_size : Z;
  slabs : list Z;
  slabs_reserved : list Z;
  buffers : list Z;
  n_slabs : Z;
  n_slabs_reserved : Z;
  n_buffers : Z;
  n_slabs_available : Z;
  n_slabs_reserved_available : Z;
}.

Record bcache := mk_bcache {
  slab_cons : Z; slab_prod : Z; n_buffers_cons : Z; n_buffers_prod : Z;
}.

(** Array access with the bounds of the array. *)
Definition aget (l : list Z) (i : Z) : option Z := if 0 <=? i then l !! Z.to_nat i else None.
Definition aset (l : list Z) (i v : Z) : option (list Z) :=
  if (0 <=? i) && (i <? Z.of_nat (length l)) then Some (<[Z.to_nat i := v]> l) else None.
Definition oob {S A} (o : option A) : ST S A :=
  match o with
  | Some a => mret a
  | None => stfail OutOfBounds
  end.

(** ** Creating and destroying the pool *)

(** What a pool holds of the outside world. *)
Inductive resource := Rheap | Rlock | Rmap | Rumem.
#[global] Instance resource_eq_dec : EqDecision resource.
Proof. solve_decision. Defined.

(** The outcome of each call that can fail, in the order of the calls. *)
Record bpool_env := mk_bpool_env {
  setrlimit_ok : bool; calloc_ok : bool; mutex_ok : bool; mmap_ok : bool; umem_ok : bool;
}.

(** The loops that fill the three arrays. *)
Definition fill (f : Z -> Z) (n : Z) : list Z := (fun i => f (Z.of_nat i)) <$> seq 0 (Z.to_nat n).

Definition bpool_contents (params : bpool_params) : bpool :=
  let per := pp_n_buffers_per_slab params in
  let nslabs := u32 (pp_n_buffers params + per - 1) / per in
  let nres := u32 (pp_n_users_max params * 2) in
  let nbuf := u64 (nslabs * per) in
  let nbufres := u64 (nres * per) in
  mk_bpool per (pp_buffer_size params)
    (fill (fun i => i * per) nslabs)
    (fill (fun i => nbuf + i * per) nres)
    (fill (fun i => u64 (i * pp_buffer_size params)) nbuf ++ replicate (Z.to_nat nbufres) 0)
    nslabs nres nbuf nslabs nres.

(** Acquiring and releasing, on the list of resources held. *)
Definition acquire (r : resource) : ST (list resource) unit :=
  held ← stget; stput (r :: held).
Definition release (r : resource) : ST (list resource) unit :=
  held ← stget;
  match list_find (eq r) held with
  | Some (i, _) => stput (delete i held)
  | None => stfail BadFree
  end.

Definition bpool_init (env : bpool_env) (params : bpool_params)
    : ST (list resource) (option bpool) :=
  if negb (setrlimit_ok env) then mret None
  else if pp_n_buffers_per_slab params =? 0 then stfail DivByZero
  else if negb (calloc_ok env) then mret None
  else
    acquire Rheap;;
    if negb (mutex_ok env) then release Rheap;; mret None
    else
      acquire Rlock;;
      if negb (mmap_ok env) then release Rlock;; release Rheap;; mret None
      else
        acquire Rmap;;
        if negb (umem_ok env) then
          release Rmap;; release Rlock;; release Rheap;; mret None
        else
          acquire Rumem;;
          mret (Some (bpool_contents params)).

Definition bpool_free (bp : option bpool) : ST (list resource) unit :=
  match bp with
  | None => mret tt
  | Some _ => release Rumem;; release Rmap;; release Rlock;; release Rheap
  end.

(** ** The caches *)

(** The pool and the cache an operation works on; what it does to the pool it
    does under the pool's lock. *)
Definition BC (A : Type) : Type := ST (bpool * bcache) A.

Definition bcache_slab_size : BC Z := '(bp, _) ← stget; mret (u32 (n_buffers_per_slab bp)).

Definition with_slabs (bp : bpool) (s : list Z) (avail : Z) : bpool :=
  mk_bpool (n_buffers_per_slab bp) (buffer_size bp) s (slabs_reserved bp) (buffers bp)
    (n_slabs bp) (n_slabs_reserved bp) (n_buffers bp) avail (n_slabs_reserved_available bp).
Definition with_reserved (bp : bpool) (s : list Z) (avail : Z) : bpool :=
  mk_bpool (n_buffers_per_slab bp) (buffer_size bp) (slabs bp) s (buffers bp)
    (n_slabs bp) (n_slabs_reserved bp) (n_buffers bp) (n_slabs_available bp) avail.
Definition with_buffers (bp : bpool) (b : list Z) : bpool :=
  mk_bpool (n_buffers_per_slab bp) (buffer_size bp) (slabs bp) (slabs_reserved bp) b
    (n_slabs bp) (n_slabs_reserved bp) (n_buffers bp) (n_slabs_available bp)
    (n_slabs_reserved_available bp).

(** [calloc_ok] is the outcome of allocating the cache record. *)
Definition bcache_init (calloc_ok : bool) : ST bpool (option bcache) :=
  if negb calloc_ok then mret None
  else
    bp ← stget;
    if n_slabs_reserved_available bp =? 0 then mret None
    else
      cons ← oob (aget (slabs_reserved bp) (u64 (n_slabs_reserved_available bp - 1)));
      prod ← oob (aget (slabs_reserved bp) (u64 (n_slabs_reserved_available bp - 2)));
      stput (with_reserved bp (slabs_reserved bp) (u64 (n_slabs_reserved_available bp - 2)));;
      mret (Some (mk_bcache cons prod 0 0)).

Definition bcache_free (bc : option bcache) : ST bpool unit :=
  match bc with
  | None => mret tt
  | Some bc =>
      bp ← stget;
      let n := n_slabs_reserved_available bp in
      s1 ← oob (aset (slabs_reserved bp) n (slab_prod bc));
      s2 ← oob (aset s1 (u64 (n + 1)) (slab_cons bc));
      stput (with_reserved bp s2 (u64 (n + 2)))
  end.

Definition bcache_cons_check (n : Z) : BC Z :=
  '(bp, bc) ← stget;
  if negb (n_buffers_cons bc =? 0) then
    mret (if n_buffers_cons bc <? n then u32 (n_buffers_cons bc) else n)
  else if n_slabs_available bp =? 0 then mret 0
  else
    let avail := u64 (n_slabs_available bp - 1) in
    slab_full ← oob (aget (slabs bp) avail);
    slabs' ← oob (aset (slabs bp) avail (slab_cons bc));
    stput (with_slabs bp slabs' avail,
           mk_bcache slab_full (slab_prod bc) (n_buffers_per_slab bp) (n_buffers_prod bc));;
    mret n.

Definition bcache_cons : BC Z :=
  '(bp, bc) ← stget;
  let n := u64 (n_buffers_cons bc - 1) in
  buffer ← oob (aget (buffers bp) (slab_cons bc + n));
  stput (bp, mk_bcache (slab_cons bc) (slab_prod bc) n (n_buffers_prod bc));;
  mret buffer.

Definition bcache_prod (buffer : Z) : BC unit :=
  '(bp, bc) ← stget;
  if n_buffers_prod bc <? n_buffers_per_slab bp then
    bufs ← oob (aset (buffers bp) (slab_prod bc + n_buffers_prod bc) buffer);
    stput (with_buffers bp bufs,
           mk_bcache (slab_cons bc) (slab_prod bc) (n_buffers_cons bc) (u64 (n_buffers_prod bc + 1)))
  else
    let avail := n_slabs_available bp in
    slab_empty ← oob (aget (slabs bp) avail);
    slabs' ← oob (aset (slabs bp) avail (slab_prod bc));
    bufs ← oob (aset (buffers bp) slab_empty buffer);
    stput (with_buffers (with_slabs bp slabs' (u64 (avail + 1))) bufs,
           mk_bcache (slab_cons bc) slab_empty (n_buffers_cons bc) 1).

(** ** Slots

    A slot is a slab pointer with the number of buffers that are valid in it. The
    slots of a pool and its caches determine which buffers are where; every
    operation is a rearrangement of slots, or fills or empties one of them. *)
Definition slot : Type := Z * Z.

Definition held (mem : list Z) (s : slot) : list Z := slice (Z.to_nat s.1) (Z.to_nat s.2) mem.

Definition slot_sum (ss : list slot) : Z := foldr (fun s : slot => Z.add s.2) 0 ss.

Lemma slot_sum_app ss ss' : slot_sum (ss ++ ss') = slot_sum ss + slot_sum ss'.
Proof. induction ss as [|s ss IH]; simpl; [done|]. rewrite IH. lia. Qed.
Lemma slot_sum_const k ps : slot_sum ((fun p => (p, k)) <$> ps) = Z.of_nat (length ps) * k.
Proof.
  induction ps as [|p ps IH]; [done|]. rewrite fmap_cons. cbn [slot_sum foldr length snd].
  unfold slot_sum in IH. rewrite IH. lia.
Qed.
Lemma slot_sum_nonneg k ss : Forall (fun s : slot => 0 <= s.2 <= k) ss -> 0 <= slot_sum ss.
Proof. induction 1 as [|s ss Hs _ IH]; simpl in *; lia. Qed.

Section slots.
(** Slab size, number of slabs, and all buffers there are. *)
Context (K : Z) (N : nat) (all : list Z).

Definition starts : list Z := (fun i => Z.of_nat i * K) <$> seq 0 N.

Record slots_ok (mem : list Z) (ss : list slot) (out : list Z) : Prop := {
  so_size : length mem = (N * Z.to_nat K)%nat;
  so_ptrs : ss.*1 ≡ₚ starts;
  so_fill : Forall (fun s : slot => 0 <= s.2 <= K) ss;
  so_bufs : (ss ≫= held mem) ++ out ≡ₚ all;
}.

#[global] Instance slots_ok_proper mem : Proper ((≡ₚ) ==> (≡ₚ) ==> iff) (slots_ok mem).
Proof.
  intros ss ss' Hss out out' Hout. split; intros [H1 H2 H3 H4]; split; auto.
  - by rewrite <- Hss.
  - by rewrite <- Hss.
  - by rewrite <- Hss, <- Hout.
  - by rewrite Hss.
  - by rewrite Hss.
  - by rewrite Hss, Hout.
Qed.

Context (HK : 0 < K).

Lemma in_starts p : p ∈ starts <-> exists i, (i < N)%nat /\ p = Z.of_nat i * K.
Proof.
  unfold starts. rewrite list_elem_of_fmap. split.
  - intros (i & -> & Hi). apply elem_of_seq in Hi. exists i. split; [lia|done].
  - intros (i & Hi & ->). exists i. rewrite elem_of_seq. split; [done|lia].
Qed.

Lemma starts_nodup : NoDup starts.
Proof. apply NoDup_fmap_2_strong; [|apply NoDup_seq]. intros i j _ _ H. nia. Qed.

Section ok.
Context (mem : list Z) (p n : Z) (ss : list slot) (out : list Z).
Context (Hok : slots_ok mem ((p, n) :: ss) out).

Lemma slot_bounds : 0 <= p /\ 0 <= n <= K /\ p + K <= Z.of_nat (length mem).
Proof.
  destruct Hok as [H1 H2 H3 _].
  assert (p ∈ starts) as Hp by (rewrite <- H2; simpl; left).
  apply in_starts in Hp as (i & Hi & ->). inversion H3 as [|? ? Hn]; subst. simpl in Hn.
  split; [nia|]. split; [lia|]. rewrite H1, Nat2Z.inj_mul, Z2Nat.id by lia. nia.
Qed.

(** Two different slabs do not overlap. *)
Lemma slot_disjoint s : s ∈ ss ->
  0 <= s.2 <= K /\ 0 <= s.1 /\ (s.1 + K <= p \/ p + K <= s.1).
Proof.
  intros Hs. destruct Hok as [_ H2 H3 _]. apply Forall_cons in H3 as [_ H3].
  rewrite Forall_forall in H3. split; [by apply H3|].
  pose proof starts_nodup as Hnd. rewrite <- H2 in Hnd. simpl in Hnd.
  apply NoDup_cons in Hnd as [Hnot _].
  assert (s.1 ∈ ss.*1) as Hs1 by (apply list_elem_of_fmap; eauto).
  assert (p ∈ starts) as (i & Hi & Hpi)%in_starts by (rewrite <- H2; simpl; left).
  assert (s.1 ∈ starts) as (j & Hj & Hsj)%in_starts by (rewrite <- H2; simpl; by right).
  assert (i <> j) by (intros ->; apply Hnot; by rewrite Hpi, <- Hsj).
  rewrite Hpi, Hsj. split; [nia|]. destruct (decide (i < j)%nat); nia.
Qed.

(** Forgetting what a slot holds gives its buffers away. *)
Lemma slots_drop : slots_ok mem ((p, 0) :: ss) (held mem (p, n) ++ out).
Proof.
  destruct Hok as [H1 H2 H3 H4]. split; auto.
  - apply Forall_cons in H3 as [_ H3]. apply Forall_cons. split; [simpl; lia|done].
  - rewrite bind_cons in *. rewrite <- H4. change (held mem (p, 0)) with (@nil Z). simpl.
    rewrite <- app_assoc. rewrite !(Permutation_app_comm (_ ≫= _)).
    by rewrite <- app_assoc, (Permutation_app_comm out).
Qed.

(** Taking the last buffer of a slot. *)
Lemma slots_pop : 0 < n ->
  exists b, aget mem (p + (n - 1)) = Some b /\ slots_ok mem ((p, n - 1) :: ss) (b :: out).
Proof.
  intros Hn. pose proof slot_bounds as (? & ? & ?).
  destruct (lookup_lt_is_Some_2 mem (Z.to_nat (p + (n - 1)))) as [b Hb]; [lia|].
  exists b. split; [unfold aget; destruct (0 <=? _) eqn:E; [done|lia]|].
  destruct Hok as [Hm1 Hm2 Hm3 Hm4]. split; auto.
  - apply Forall_cons in Hm3 as [_ Hm3]. apply Forall_cons. split; [simpl; lia|done].
  - rewrite <- Hm4, !bind_cons. unfold held at 1 3. cbn [fst snd].
    replace (Z.to_nat n) with (S (Z.to_nat (n - 1))) by lia.
    rewrite (slice_S _ _ _ b) by (rewrite <- Hb; f_equal; lia).
    rewrite <- !app_assoc. f_equiv. simpl. by rewrite Permutation_middle.
Qed.

(** Adding a buffer to a slot that is not full. *)
Lemma slots_push b out' : n < K -> out = b :: out' ->
  exists mem', aset mem (p + n) b = Some mem' /\ slots_ok mem' ((p, n + 1) :: ss) out'.
Proof.
  intros Hn Hout. pose proof slot_bounds as (? & ? & ?).
  exists (<[Z.to_nat (p + n) := b]> mem). split.
  { unfold aset. destruct (_ && _) eqn:E; [done|lia]. }
  pose proof slot_disjoint as Hdis. destruct Hok as [Hm1 Hm2 Hm3 Hm4]. split; auto.
  - by rewrite length_insert.
  - apply Forall_cons in Hm3 as [_ Hm3]. apply Forall_cons. split; [simpl; lia|done].
  - rewrite <- Hm4, Hout, !bind_cons. rewrite (list_bind_ext_in (held (<[_:=_]> mem)) (held mem)).
    + unfold held at 1 3. cbn [fst snd].
      replace (Z.to_nat (n + 1)) with (S (Z.to_nat n)) by lia.
      replace (Z.to_nat (p + n)) with (Z.to_nat p + Z.to_nat n)%nat by lia.
      rewrite slice_insert_end by lia. rewrite <- !app_assoc. f_equiv. simpl.
      by rewrite <- Permutation_middle.
    + intros s Hs. apply Hdis in Hs as (? & ? & ?). unfold held. apply slice_insert_ne. lia.
Qed.
End ok.

(** Every buffer is in a slot or outside. *)
Lemma slots_count mem ss out : slots_ok mem ss out ->
  slot_sum ss + Z.of_nat (length out) = Z.of_nat (length all).
Proof.
  intros Hok. pose proof Hok as [_ _ _ H4]. rewrite <- H4, length_app, Nat2Z.inj_add. f_equal.
  assert (forall s, s ∈ ss -> Z.of_nat (length (held mem s)) = s.2) as Hlen.
  { intros s Hs. apply list_elem_of_split in Hs as (l1 & l2 & ->). destruct s as [p n].
    rewrite <- Permutation_middle in Hok. apply slot_bounds in Hok as (? & ? & ?).
    unfold held. simpl. rewrite length_slice; lia. }
  clear Hok H4. induction ss as [|s ss IH]; [done|].
  rewrite bind_cons, length_app, Nat2Z.inj_add. simpl. rewrite IH, Hlen; [done|left|].
  intros s' Hs'. apply Hlen. by right.
Qed.
End slots.

(** An array access inside the bounds, as a split of the array. *)
Lemma array_split (l : list Z) (i : Z) :
  0 <= i < Z.of_nat (length l) ->
  exists l1 x l2, l = l1 ++ x :: l2 /\ Z.of_nat (length l1) = i /\
    aget l i = Some x /\ forall y, aset l i y = Some (l1 ++ y :: l2).
Proof.
  intros Hi. destruct (lookup_lt_is_Some_2 l (Z.to_nat i)) as [x Hx]; [lia|].
  destruct (list_elem_of_split_length l _ x Hx) as (l1 & l2 & -> & Hlen).
  exists l1, x, l2. split; [done|]. split; [lia|]. unfold aget, aset.
  destruct (0 <=? i) eqn:E; [|lia]. rewrite Hlen in *. split; [done|]. intros y.
  destruct (i <? _) eqn:E2; [|lia]. simpl. f_equal.
  replace (length l1) with (length l1 + 0)%nat by lia. by rewrite insert_app_r.
Qed.

(** ** The invariant of a pool, its live caches, and the buffers in use *)

Definition cache_slots (bc : bcache) : list slot :=
  [(slab_cons bc, n_buffers_cons bc); (slab_prod bc, n_buffers_prod bc)].

Definition pool_slots (bp : bpool) : list slot :=
  ((fun p => (p, n_buffers_per_slab bp)) <$> take (Z.to_nat (n_slabs_available bp)) (slabs bp)) ++
  ((fun p => (p, 0)) <$> drop (Z.to_nat (n_slabs_available bp)) (slabs bp)) ++
  ((fun p => (p, 0)) <$> take (Z.to_nat (n_slabs_reserved_available bp)) (slabs_reserved bp)).

(** The addresses of all buffers of the pool. *)
Definition all_buffers (bp : bpool) : list Z := fill (fun i => i * buffer_size bp) (n_buffers bp).

Record pool_inv (bp : bpool) (caches : list bcache) (out : list Z) : Prop := {
  pi_per : 0 < n_buffers_per_slab bp < 2 ^ 32;
  pi_nbuf : n_buffers bp = n_slabs bp * n_buffers_per_slab bp;
  pi_small : (n_slabs bp + n_slabs_reserved bp) * n_buffers_per_slab bp < 2 ^ 63;
  pi_slabs : Z.of_nat (length (slabs bp)) = n_slabs bp;
  pi_res : Z.of_nat (length (slabs_reserved bp)) = n_slabs_reserved bp;
  pi_even : Z.even (n_slabs_reserved bp) = true;
  pi_avail : 0 <= n_slabs_available bp <= n_slabs bp;
  pi_ravail : 0 <= n_slabs_reserved_available bp <= n_slabs_reserved bp;
  pi_slots : slots_ok (n_buffers_per_slab bp) (Z.to_nat (n_slabs bp + n_slabs_reserved bp))
               (all_buffers bp) (buffers bp) (pool_slots bp ++ (caches ≫= cache_slots)) out;
}.

#[export] Instance pool_inv_proper bp : Proper ((≡ₚ) ==> (≡ₚ) ==> iff) (pool_inv bp).
Proof.
  intros cs cs' Hcs out out' Hout.
  split; intros []; split; auto; [rewrite <- Hcs, <- Hout | rewrite Hcs, Hout]; done.
Qed.

(** The reserved slabs that are not available are those of the live caches. *)
Lemma reserved_count bp caches out :
  pool_inv bp caches out ->
  n_slabs_reserved_available bp = n_slabs_reserved bp - 2 * Z.of_nat (length caches).
Proof.
  intros []. destruct pi_slots0 as [_ Hp _ _]. apply Permutation_length in Hp.
  unfold starts in Hp. rewrite !length_fmap, length_seq in Hp.
  unfold pool_slots in Hp. rewrite !length_app, !length_fmap, !length_take, length_drop in Hp.
  assert (length (caches ≫= cache_slots) = 2 * length caches)%nat as Hc.
  { clear. induction caches as [|bc cs IH]; [done|]. rewrite bind_cons, length_app, IH. simpl. lia. }
  rewrite Hc in Hp. lia.
Qed.

Lemma u64_small z : 0 <= z < 2 ^ 64 -> u64 z = z.
Proof. apply wrapu_small. Qed.
Lemma u32_small z : 0 <= z < 2 ^ 32 -> u32 z = z.
Proof. apply wrapu_small. Qed.

Lemma fmap_take_app {A B} (f : A -> B) l1 l2 n : n = length l1 -> f <$> take n (l1 ++ l2) = f <$> l1.
Proof. intros ->. by rewrite take_app_length. Qed.

Section cache_ops.
Context (bp : bpool) (bc : bcache) (cs : list bcache) (out : list Z).
Context (Hinv : pool_inv bp (bc :: cs) out).

(** The slots, with those of the cache in front. *)
Lemma slots_front : slots_ok (n_buffers_per_slab bp) (Z.to_nat (n_slabs bp + n_slabs_reserved bp))
  (all_buffers bp) (buffers bp)
  ((slab_cons bc, n_buffers_cons bc) :: (slab_prod bc, n_buffers_prod bc)
     :: pool_slots bp ++ (cs ≫= cache_slots)) out.
Proof.
  destruct Hinv. revert pi_slots0. rewrite bind_cons. unfold cache_slots at 1. simpl.
  by rewrite <- !Permutation_middle.
Qed.

Lemma cache_bounds : 0 <= n_buffers_cons bc <= n_buffers_per_slab bp /\
                     0 <= n_buffers_prod bc <= n_buffers_per_slab bp.
Proof.
  destruct slots_front as [_ _ Hf _]. apply Forall_cons in Hf as [Hc Hf].
  apply Forall_cons in Hf as [Hp _]. done.
Qed.

(** Rebuild the invariant from the slots, when the sizes did not change. *)
Lemma inv_rebuild bp' bc' out' :
  n_buffers_per_slab bp' = n_buffers_per_slab bp -> buffer_size bp' = buffer_size bp ->
  n_slabs bp' = n_slabs bp -> n_slabs_reserved bp' = n_slabs_reserved bp ->
  n_buffers bp' = n_buffers bp -> length (slabs bp') = length (slabs bp) ->
  slabs_reserved bp' = slabs_reserved bp ->
  n_slabs_reserved_available bp' = n_slabs_reserved_available bp ->
  0 <= n_slabs_available bp' <= n_slabs bp ->
  slots_ok (n_buffers_per_slab bp) (Z.to_nat (n_slabs bp + n_slabs_reserved bp))
    (all_buffers bp) (buffers bp')
    ((slab_cons bc', n_buffers_cons bc') :: (slab_prod bc', n_buffers_prod bc')
       :: pool_slots bp' ++ (cs ≫= cache_slots)) out' ->
  pool_inv bp' (bc' :: cs) out'.
Proof.
  intros E1 E2 E3 E4 E5 E6 E7 E8 Hav Hs. destruct Hinv.
  split; rewrite ?E1, ?E3, ?E4, ?E5, ?E6, ?E7, ?E8; auto.
  assert (all_buffers bp' = all_buffers bp) as -> by (unfold all_buffers; by rewrite E2, E5).
  rewrite bind_cons. unfold cache_slots at 1. simpl. by rewrite <- !Permutation_middle.
Qed.
End cache_ops.

Lemma wp_oob {S A} (o : option A) a (Q : A -> S -> Prop) s : o = Some a -> Q a s -> wp (oob o) Q s.
Proof. intros ->. apply wp_ret. Qed.

Section cache_steps.
Context (bp : bpool) (bc : bcache) (cs : list bcache) (out : list Z).
Context (Hinv : pool_inv bp (bc :: cs) out).

Lemma n_slabs_u64 : 0 <= n_slabs bp < 2 ^ 63 /\ 0 <= n_slabs_reserved bp < 2 ^ 63.
Proof. destruct Hinv. nia. Qed.

(** Asking for buffers: the invariant is kept, and what is promised is there. *)
Lemma wp_cons_check n :
  0 <= n < 2 ^ 32 ->
  wp (bcache_cons_check n) (fun r '(bp', bc') =>
    pool_inv bp' (bc' :: cs) out /\
    r = (if n_buffers_cons bc =? 0 then if n_slabs_available bp =? 0 then 0 else n
         else Z.min (n_buffers_cons bc) n) /\
    n_buffers_cons bc' =
      (if n_buffers_cons bc =? 0 then
         if n_slabs_available bp =? 0 then 0 else n_buffers_per_slab bp
       else n_buffers_cons bc)) (bp, bc).
Proof.
  intros Hn. pose proof n_slabs_u64. pose proof (cache_bounds _ _ _ _ Hinv) as [Hc _].
  pose proof (slots_front _ _ _ _ Hinv) as Hs. pose proof Hinv as [].
  unfold bcache_cons_check. wp_step. wp_step. destruct (Z.eqb_spec (n_buffers_cons bc) 0) as [E|E]; simpl.
  2:{ wp_step. split; [done|]. split; [|done].
      destruct (n_buffers_cons bc <? n) eqn:E2; [rewrite u32_small by lia|]; lia. }
  destruct (Z.eqb_spec (n_slabs_available bp) 0) as [E2|E2]; [by wp_step|].
  rewrite u64_small by lia.
  destruct (array_split (slabs bp) (n_slabs_available bp - 1)) as (l1 & x & l2 & Hl & Hlen & Hget & Hset);
    [lia|].
  wp_step. eapply wp_oob; [done|]. wp_step. eapply wp_oob; [apply Hset|].
  wp_step. wp_step. wp_step. split; [|done].
  eapply (inv_rebuild bp bc); try done; simpl; [|lia|].
  { rewrite Hl, !length_app. done. }
  revert Hs. unfold pool_slots. simpl. rewrite Hl, E.
  replace (Z.to_nat (n_slabs_available bp)) with (S (length l1)) by lia.
  replace (Z.to_nat (n_slabs_available bp - 1)) with (length l1) by lia.
  rewrite !take_app_length, !drop_app_length.
  replace (l1 ++ x :: l2) with ((l1 ++ [x]) ++ l2) by (by rewrite <- app_assoc).
  replace (S (length l1)) with (length (l1 ++ [x])) by (rewrite length_app; simpl; lia).
  rewrite take_app_length, drop_app_length, fmap_app. simpl. apply slots_ok_proper; [|done].
  solve_Permutation.
Qed.

(** Taking a buffer from a consumer slab that is not empty. *)
Lemma wp_cons :
  0 < n_buffers_cons bc ->
  wp bcache_cons (fun b '(bp', bc') =>
    pool_inv bp' (bc' :: cs) (b :: out) /\ n_buffers_cons bc' = n_buffers_cons bc - 1) (bp, bc).
Proof.
  intros Hn. pose proof (cache_bounds _ _ _ _ Hinv) as [Hc _]. pose proof Hinv as [].
  destruct (slots_pop (n_buffers_per_slab bp) _ _ ltac:(lia) _ _ _ _ _ (slots_front _ _ _ _ Hinv) Hn) as (b & Hget & Hs).
  unfold bcache_cons. wp_step. wp_step. rewrite u64_small by lia.
  wp_step. eapply wp_oob; [done|]. wp_step. wp_step. wp_step. split; [|done].
  by eapply (inv_rebuild bp bc).
Qed.

(** When the producer slab is full and a buffer is in use, the pool has an empty
    slab. *)
Lemma empty_slab_exists b out' :
  n_buffers_prod bc = n_buffers_per_slab bp -> out = b :: out' ->
  n_slabs_available bp < n_slabs bp.
Proof.
  intros Hfull Hout. pose proof (slots_front _ _ _ _ Hinv) as Hs. rewrite Permutation_swap in Hs.
  pose proof Hinv as [].
  pose proof (slots_count (n_buffers_per_slab bp) _ _ ltac:(lia) _ _ _ Hs) as Hcount.
  assert (Z.of_nat (length (all_buffers bp)) = n_slabs bp * n_buffers_per_slab bp) as Hall.
  { unfold all_buffers, fill. rewrite length_fmap, length_seq, pi_nbuf0. nia. }
  destruct Hs as [_ _ Hf _]. apply Forall_cons in Hf as [_ Hf]. apply Forall_cons in Hf as [Hf1 Hf].
  apply Forall_app in Hf as [_ Hf]. apply slot_sum_nonneg in Hf.
  rewrite Hall, Hout in Hcount. simpl in Hcount, Hf1. unfold pool_slots in Hcount.
  rewrite !slot_sum_app, !slot_sum_const, length_take in Hcount. nia.
Qed.

(** Giving a buffer back. *)
Lemma wp_prod b out' :
  out = b :: out' ->
  wp (bcache_prod b) (fun _ '(bp', bc') => pool_inv bp' (bc' :: cs) out' /\
    n_buffers_cons bc' = n_buffers_cons bc) (bp, bc).
Proof.
  intros Hout. pose proof n_slabs_u64. pose proof (cache_bounds _ _ _ _ Hinv) as [_ Hc].
  pose proof (slots_front _ _ _ _ Hinv) as Hs. rewrite Permutation_swap in Hs. pose proof Hinv as [].
  unfold bcache_prod. wp_step. wp_step.
  destruct (n_buffers_prod bc <? n_buffers_per_slab bp) eqn:E.
  - destruct (slots_push (n_buffers_per_slab bp) _ _ ltac:(lia) _ _ _ _ _ Hs b out') as (mem' & Hset & Hs'); [lia|done|].
    wp_step. eapply wp_oob; [done|]. wp_step. split; [|done]. rewrite u64_small by lia.
    eapply (inv_rebuild bp bc); try done; simpl. by rewrite Permutation_swap.
  - assert (n_slabs_available bp < n_slabs bp) as Hfree by (eapply empty_slab_exists; [lia|done]).
    destruct (array_split (slabs bp) (n_slabs_available bp)) as (l1 & x & l2 & Hl & Hlen & Hget & Hset);
      [lia|].
    assert (slots_ok (n_buffers_per_slab bp) (Z.to_nat (n_slabs bp + n_slabs_reserved bp))
      (all_buffers bp) (buffers bp) ((x, 0) :: (slab_cons bc, n_buffers_cons bc) ::
        pool_slots (with_slabs bp (l1 ++ slab_prod bc :: l2) (n_slabs_available bp + 1)) ++
        (cs ≫= cache_slots)) out) as Hs2.
    { revert Hs. unfold pool_slots. simpl. rewrite Hl.
      assert (n_buffers_prod bc = n_buffers_per_slab bp) as -> by lia.
      replace (Z.to_nat (n_slabs_available bp)) with (length l1) by lia.
      rewrite take_app_length, drop_app_length.
      replace (l1 ++ slab_prod bc :: l2) with ((l1 ++ [slab_prod bc]) ++ l2) by (by rewrite <- app_assoc).
      replace (Z.to_nat (n_slabs_available bp + 1)) with (length (l1 ++ [slab_prod bc]))
        by (rewrite length_app; simpl; lia).
      rewrite take_app_length, drop_app_length, fmap_app. simpl. apply slots_ok_proper; [|done].
      solve_Permutation. }
    destruct (slots_push (n_buffers_per_slab bp) _ _ ltac:(lia) _ _ _ _ _ Hs2 b out')
      as (mem' & Hset' & Hs'); [lia|done|]. rewrite Z.add_0_r in Hset'.
    wp_step. eapply wp_oob; [done|]. wp_step. eapply wp_oob; [apply Hset|].
    wp_step. eapply wp_oob; [done|]. wp_step. split; [|done]. rewrite u64_small by lia.
    eapply (inv_rebuild bp bc); try done; simpl; [|lia|].
    { rewrite Hl, !length_app. done. }
    by rewrite Permutation_swap.
Qed.
End cache_steps.

(** Rearranging the reserved slabs. *)
Lemma inv_reserved bp cs cs' out out' res' rav' :
  pool_inv bp cs out ->
  length res' = length (slabs_reserved bp) -> 0 <= rav' <= n_slabs_reserved bp ->
  slots_ok (n_buffers_per_slab bp) (Z.to_nat (n_slabs bp + n_slabs_reserved bp)) (all_buffers bp)
    (buffers bp) (pool_slots (with_reserved bp res' rav') ++ (cs' ≫= cache_slots)) out' ->
  pool_inv (with_reserved bp res' rav') cs' out'.
Proof. intros [] Hl Hr Hs. split; simpl; auto; lia. Qed.

Section reserve.
Context (bp : bpool) (cs : list bcache) (out : list Z).

Lemma wp_bcache_init ok :
  pool_inv bp cs out ->
  wp (bcache_init ok) (fun r bp' =>
    match r with
    | None => bp' = bp /\ (ok = false \/ n_slabs_reserved bp = 2 * Z.of_nat (length cs))
    | Some bc => pool_inv bp' (bc :: cs) out /\ n_buffers_cons bc = 0 /\ n_buffers_prod bc = 0
    end) bp.
Proof.
  intros Hinv. pose proof (reserved_count _ _ _ Hinv) as Hcnt. pose proof Hinv as [].
  unfold bcache_init. destruct ok; simpl; [|wp_step; auto]. wp_step. wp_step.
  destruct (Z.eqb_spec (n_slabs_reserved_available bp) 0); [wp_step; split; [done|right; lia]|].
  apply Z.even_spec in pi_even0 as [m Hm].
  assert (n_slabs_reserved bp < 2 ^ 63) by nia. rewrite !u64_small by lia.
  destruct (array_split (slabs_reserved bp) (n_slabs_reserved_available bp - 2))
    as (l1 & x & l2 & Hl & Hlen & Hget & _); [lia|].
  destruct l2 as [|y l2]; [rewrite Hl, length_app in pi_res0; simpl in pi_res0; lia|].
  assert (aget (slabs_reserved bp) (n_slabs_reserved_available bp - 1) = Some y) as Hget2.
  { unfold aget. destruct (0 <=? _) eqn:E; [|lia]. rewrite Hl, lookup_app_r by lia.
    replace (Z.to_nat _ - length l1)%nat with 1%nat by lia. done. }
  wp_step. eapply wp_oob; [done|]. wp_step. eapply wp_oob; [done|]. wp_step. wp_step. wp_step.
  split; [|done]. eapply inv_reserved; [done|done|lia|]. revert pi_slots0.
  rewrite bind_cons. unfold pool_slots. simpl. rewrite Hl.
  replace (Z.to_nat (n_slabs_reserved_available bp - 2)) with (length l1) by lia.
  replace (Z.to_nat (n_slabs_reserved_available bp)) with (length (l1 ++ [x; y]))
    by (rewrite length_app; simpl; lia).
  rewrite take_app_length. replace (l1 ++ x :: y :: l2) with ((l1 ++ [x; y]) ++ l2) by (by rewrite <- app_assoc).
  rewrite take_app_length, !fmap_app. simpl. apply slots_ok_proper; [|done]. solve_Permutation.
Qed.

Lemma wp_bcache_free bc :
  pool_inv bp (bc :: cs) out ->
  wp (bcache_free (Some bc)) (fun _ bp' =>
    pool_inv bp' cs ((cache_slots bc ≫= held (buffers bp)) ++ out)) bp.
Proof.
  intros Hinv. pose proof (reserved_count _ _ _ Hinv) as Hcnt. simpl in Hcnt.
  pose proof (slots_front _ _ _ _ Hinv) as Hs. pose proof Hinv as [].
  assert (n_slabs_reserved bp < 2 ^ 63) by nia.
  unfold bcache_free. wp_step. wp_step. rewrite !u64_small by lia.
  destruct (array_split (slabs_reserved bp) (n_slabs_reserved_available bp))
    as (l1 & x & l2 & Hl & Hlen & _ & Hset); [lia|].
  destruct l2 as [|y l2]; [rewrite Hl, length_app in pi_res0; simpl in pi_res0; lia|].
  destruct (array_split (l1 ++ slab_prod bc :: y :: l2) (n_slabs_reserved_available bp + 1))
    as (k1 & z & k2 & Hk & Hklen & _ & Hset2).
  { rewrite length_app. simpl. rewrite Hl, length_app in pi_res0. simpl in pi_res0. lia. }
  assert (k1 = l1 ++ [slab_prod bc] /\ k2 = l2) as [-> ->].
  { change (slab_prod bc :: y :: l2) with ([slab_prod bc] ++ y :: l2) in Hk. rewrite app_assoc in Hk.
    apply app_inj_1 in Hk as [<- [= _ ->]]; [done|]. rewrite length_app. simpl. lia. }
  wp_step. eapply wp_oob; [apply Hset|]. wp_step. eapply wp_oob; [apply Hset2|]. wp_step.
  eapply inv_reserved; [done| |lia|].
  { rewrite Hl, !length_app. simpl. lia. }
  apply (slots_drop (n_buffers_per_slab bp)) in Hs; [|lia]. rewrite Permutation_swap in Hs.
  apply (slots_drop (n_buffers_per_slab bp)) in Hs; [|lia]. revert Hs.
  unfold pool_slots. simpl. rewrite Hl.
  replace (Z.to_nat (n_slabs_reserved_available bp)) with (length l1) by lia.
  replace (Z.to_nat (n_slabs_reserved_available bp + 2)) with (length ((l1 ++ [slab_prod bc]) ++ [slab_cons bc]))
    by (rewrite !length_app; simpl; lia).
  rewrite take_app_length.
  replace ((l1 ++ [slab_prod bc]) ++ slab_cons bc :: l2)
    with (((l1 ++ [slab_prod bc]) ++ [slab_cons bc]) ++ l2) by (by rewrite <- !app_assoc).
  rewrite take_app_length, !fmap_app. simpl. apply slots_ok_proper; solve_Permutation.
Qed.
End reserve.

(** ** The fresh pool *)

(** Parameters for which no size computation overflows. *)
Definition params_ok (p : bpool_params) : Prop :=
  0 < pp_n_buffers_per_slab p /\ 0 <= pp_n_buffers p /\ 0 <= pp_n_users_max p /\
  0 <= pp_buffer_size p < 2 ^ 32 /\
  pp_n_buffers p + pp_n_buffers_per_slab p < 2 ^ 32 /\ 2 * pp_n_users_max p < 2 ^ 32 /\
  2 * pp_n_users_max p * pp_n_buffers_per_slab p < 2 ^ 60.

Lemma length_fill f n : 0 <= n -> Z.of_nat (length (fill f n)) = n.
Proof. intros. unfold fill. rewrite length_fmap, length_seq. lia. Qed.

Lemma fill_app f n m : 0 <= n -> 0 <= m -> fill f (n + m) = fill f n ++ fill (fun i => f (n + i)) m.
Proof.
  intros. unfold fill. rewrite Z2Nat.inj_add, seq_app, fmap_app by lia. f_equal.
  rewrite Nat.add_0_l. rewrite <- (Nat.add_0_r (Z.to_nat n)) at 1.
  rewrite <- fmap_add_seq. rewrite <- list_fmap_compose. apply list_fmap_ext. intros _ i _. simpl. f_equal. lia.
Qed.

Lemma fill_ext f g n : (forall i, 0 <= i < n -> f i = g i) -> fill f n = fill g n.
Proof.
  intros H. unfold fill. apply list_fmap_ext. intros j i Hi. apply H.
  apply lookup_seq in Hi. lia.
Qed.

(** Consecutive full slabs hold consecutive buffers. *)
Lemma held_consecutive mem K n :
  0 < K -> 0 <= n -> n * K <= Z.of_nat (length mem) ->
  ((fun p => (p, K)) <$> fill (fun i => i * K) n) ≫= held mem = take (Z.to_nat (n * K)) mem.
Proof.
  intros HK Hn. revert n Hn. apply (natlike_ind (fun n => n * K <= _ -> _)); [done|].
  intros n Hn IH Hle. unfold Z.succ in *. rewrite fill_app by lia. rewrite fmap_app, bind_app, IH by lia.
  change (fill (fun i => (n + i) * K) 1) with [(n + 0) * K]. simpl. rewrite app_nil_r. unfold held, slice.
  simpl. replace (Z.to_nat ((n + 1) * K)) with (Z.to_nat (n * K) + Z.to_nat K)%nat by lia.
  rewrite Z.add_0_r. by rewrite take_take_drop.
Qed.

Lemma held_empty mem ps : ((fun p => (p, 0)) <$> ps) ≫= held mem = [].
Proof. induction ps as [|p ps IH]; [done|]. by rewrite fmap_cons, bind_cons, IH. Qed.

Lemma slot_ptrs (k : Z) (ps : list Z) : ((fun p => (p, k)) <$> ps).*1 = ps.
Proof. induction ps as [|p ps IH]; [done|]. by rewrite !fmap_cons, IH. Qed.

Lemma starts_fill K n : starts K (Z.to_nat n) = fill (fun i => i * K) n.
Proof. done. Qed.

Section fresh.
Context (p : bpool_params) (Hp : params_ok p).
Let K := pp_n_buffers_per_slab p.
Let ns := (pp_n_buffers p + K - 1) / K.
Let nr := 2 * pp_n_users_max p.

Lemma fresh_sizes : 0 <= ns /\ ns * K <= pp_n_buffers p + K - 1 /\ pp_n_buffers p <= ns * K.
Proof.
  unfold params_ok in Hp. fold K in Hp. unfold ns.
  pose proof (Z.div_mod (pp_n_buffers p + K - 1) K ltac:(lia)).
  pose proof (Z.mod_pos_bound (pp_n_buffers p + K - 1) K ltac:(lia)).
  split; [apply Z.div_pos; lia | lia].
Qed.

Lemma fresh_contents :
  bpool_contents p =
  mk_bpool K (pp_buffer_size p) (fill (fun i => i * K) ns) (fill (fun i => ns * K + i * K) nr)
    (fill (fun i => i * pp_buffer_size p) (ns * K) ++ replicate (Z.to_nat (nr * K)) 0)
    ns nr (ns * K) ns nr.
Proof.
  pose proof fresh_sizes. unfold params_ok in Hp. fold K nr in Hp. unfold bpool_contents. fold K.
  rewrite !u32_small by lia. fold ns. rewrite (Z.mul_comm (pp_n_users_max p)). fold nr.
  rewrite !(u64_small (_ * K)) by nia. f_equal. f_equal. apply fill_ext. intros. apply u64_small. nia.
Qed.

Lemma fresh_inv : pool_inv (bpool_contents p) [] [].
Proof.
  pose proof fresh_sizes as (? & ? & ?). rewrite fresh_contents. unfold params_ok in Hp. fold K nr in Hp.
  assert (0 <= nr) by (unfold nr; lia).
  split; simpl; try lia; [rewrite length_fill; lia.. | unfold nr; by rewrite Z.even_mul |].
  unfold pool_slots. simpl.
  rewrite !take_ge, drop_ge by (apply Nat2Z.inj_le; rewrite length_fill; lia).
  rewrite !app_nil_l, app_nil_r. split.
  - apply Nat2Z.inj. rewrite length_app, length_replicate, Nat2Z.inj_add, length_fill by lia. nia.
  - rewrite fmap_app, !slot_ptrs.
    apply perm_eq. rewrite starts_fill, fill_app by lia. f_equal. apply fill_ext. lia.
  - apply Forall_app. split; apply Forall_fmap, Forall_true; intros; simpl; lia.
  - rewrite app_nil_r, bind_app, held_consecutive; [| lia | lia |].
    2:{ rewrite length_app, Nat2Z.inj_add, length_fill; nia. }
    rewrite take_app_length'; [|apply Nat2Z.inj; rewrite length_fill; lia].
    apply perm_eq. rewrite (held_empty _ (fill _ nr)), app_nil_r. done.
Qed.
End fresh.

(** ** The pool under any sequence of operations by its clients *)

(** Operations of the clients; a cache is named by a number. *)
Inductive pop :=
  | PInit (id : nat) (calloc_ok : bool)
  | PFree (id : nat)
  | PCheck (id : nat) (n : Z)
  | PCons (id : nat)
  | PProd (id : nat) (buffer : Z).

Record world := mk_world { w_pool : bpool; w_caches : gmap nat bcache }.

(** Run a cache operation on the cache [id]. *)
Definition on_cache {A} (w : world) (id : nat) (m : BC A) : res (A * world) :=
  match w_caches w !! id with
  | None => Err NullDeref
  | Some bc =>
      match m (w_pool w, bc) with
      | Ok (a, (bp', bc')) => Ok (a, mk_world bp' (<[id := bc']> (w_caches w)))
      | Err e => Err e
      end
  end.

(** One operation: its numeric result (the promise of a check, the buffer of a
    cons, 1 for success) and the next state. *)
Definition pstep (w : world) (op : pop) : res (Z * world) :=
  match op with
  | PInit id ok =>
      match bcache_init ok (w_pool w) with
      | Ok (Some bc, bp') => Ok (1, mk_world bp' (<[id := bc]> (w_caches w)))
      | Ok (None, bp') => Ok (0, mk_world bp' (w_caches w))
      | Err e => Err e
      end
  | PFree id =>
      match bcache_free (w_caches w !! id) (w_pool w) with
      | Ok (_, bp') => Ok (1, mk_world bp' (delete id (w_caches w)))
      | Err e => Err e
      end
  | PCheck id n => on_cache w id (bcache_cons_check n)
  | PCons id => on_cache w id bcache_cons
  | PProd id b => on_cache w id (bcache_prod b;; mret 1)
  end.

(** What a client may do, given the buffers in use: name its own caches, take a
    buffer only from a consumer slab that has one, give back only a buffer that
    is in use. *)
Definition allowed (w : world) (out : list Z) (op : pop) : Prop :=
  match op with
  | PInit id _ => w_caches w !! id = None
  | PFree id => is_Some (w_caches w !! id)
  | PCheck id n => is_Some (w_caches w !! id) /\ 0 <= n < 2 ^ 32
  | PCons id => exists bc, w_caches w !! id = Some bc /\ 0 < n_buffers_cons bc
  | PProd id b => is_Some (w_caches w !! id) /\ b ∈ out
  end.

Fixpoint remove_one (b : Z) (l : list Z) : list Z :=
  match l with
  | [] => []
  | x :: l' => if x =? b then l' else x :: remove_one b l'
  end.

Lemma remove_one_perm b l : b ∈ l -> l ≡ₚ b :: remove_one b l.
Proof.
  induction l as [|x l IH]; intros Hb; [by apply elem_of_nil in Hb|]. simpl.
  destruct (Z.eqb_spec x b) as [->|Hne]; [done|].
  apply elem_of_cons in Hb as [->|Hb]; [done|]. rewrite IH at 1 by done. apply Permutation_swap.
Qed.

(** The buffers outside the pool and its caches after an operation; those still in
    a cache that is freed stay outside: [bcache_free] does not give them back. *)
Definition out_after (w : world) (op : pop) (r : Z) (out : list Z) : list Z :=
  match op with
  | PCons _ => r :: out
  | PProd _ b => remove_one b out
  | PFree id =>
      match w_caches w !! id with
      | Some bc => (cache_slots bc ≫= held (buffers (w_pool w))) ++ out
      | None => out
      end
  | _ => out
  end.

Inductive reach (p : bpool_params) : world -> list Z -> Prop :=
  | reach_init : reach p (mk_world (bpool_contents p) ∅) []
  | reach_step w out op r w' :
      reach p w out -> allowed w out op -> pstep w op = Ok (r, w') ->
      reach p w' (out_after w op r out).

Definition caches (w : world) : list bcache := (map_to_list (w_caches w)).*2.
Definition winv (w : world) (out : list Z) : Prop := pool_inv (w_pool w) (caches w) out.

Lemma caches_insert (m : gmap nat bcache) id bc : m !! id = None ->
  (map_to_list (<[id := bc]> m)).*2 ≡ₚ bc :: (map_to_list m).*2.
Proof. intros H. by rewrite map_to_list_insert. Qed.

Lemma caches_split (m : gmap nat bcache) id bc : m !! id = Some bc ->
  (map_to_list m).*2 ≡ₚ bc :: (map_to_list (delete id m)).*2.
Proof.
  intros H. rewrite <- (insert_delete_id m id bc H) at 1. apply caches_insert. apply lookup_delete_eq.
Qed.

Lemma caches_update (m : gmap nat bcache) id bc bc' : m !! id = Some bc ->
  (map_to_list (<[id := bc']> m)).*2 ≡ₚ bc' :: (map_to_list (delete id m)).*2.
Proof.
  intros H. rewrite <- insert_delete_eq. apply caches_insert. apply lookup_delete_eq.
Qed.

(** Lifting an operation on a cache to the state of all caches. *)
Lemma on_cache_ok {A} w id bc (m : BC A) (P : A -> bcache -> list Z -> Prop) :
  w_caches w !! id = Some bc ->
  wp m (fun a '(bp', bc') => exists out', pool_inv bp' (bc' :: (map_to_list (delete id (w_caches w))).*2) out'
        /\ P a bc' out') (w_pool w, bc) ->
  exists a bc' w' out', on_cache w id m = Ok (a, w') /\ w_caches w' !! id = Some bc' /\
    winv w' out' /\ P a bc' out'.
Proof.
  intros Hid Hwp. destruct (wp_run _ _ _ Hwp) as (a & [bp' bc'] & Hrun & out' & Hinv & HP).
  unfold on_cache. rewrite Hid, Hrun. eexists a, bc', _, out'. split; [done|]. simpl.
  split; [apply lookup_insert_eq|]. split; [|done]. unfold winv, caches. simpl.
  by rewrite caches_update.
Qed.

Lemma winv_cache w out id bc :
  winv w out -> w_caches w !! id = Some bc ->
  pool_inv (w_pool w) (bc :: (map_to_list (delete id (w_caches w))).*2) out.
Proof. intros Hinv Hid. unfold winv, caches in Hinv. by rewrite (caches_split _ id bc) in Hinv. Qed.

(** Every allowed operation succeeds and keeps the invariant. *)
Lemma pstep_ok w out op :
  winv w out -> allowed w out op ->
  exists r w', pstep w op = Ok (r, w') /\ winv w' (out_after w op r out) /\
    match op with
    | PCheck id n => exists bc', w_caches w' !! id = Some bc' /\
        (n <= n_buffers_per_slab (w_pool w) -> r <= n_buffers_cons bc')
    | _ => True
    end.
Proof.
  intros Hinv Hop. destruct op as [id ok|id|id n|id|id b]; simpl in Hop.
  - destruct (wp_run _ _ _ (wp_bcache_init _ _ _ ok Hinv)) as ([bc|] & bp' & Hrun & Hpost); simpl; rewrite Hrun.
    + eexists _, _. split; [done|]. split; [|done]. unfold winv, caches. simpl.
      rewrite caches_insert by done. by destruct Hpost.
    + destruct Hpost as [-> _]. eexists _, _. by split.
  - destruct Hop as [bc Hid].
    destruct (wp_run _ _ _ (wp_bcache_free _ _ _ bc (winv_cache _ _ _ _ Hinv Hid))) as (? & bp' & Hrun & Hpost).
    simpl. rewrite Hid, Hrun. eexists _, _. by split.
  - destruct Hop as [[bc Hid] Hn]. pose proof (winv_cache _ _ _ _ Hinv Hid) as Hinv'.
    edestruct (on_cache_ok w id bc (bcache_cons_check n) (fun r bc' out' => out' = out /\
      (n <= n_buffers_per_slab (w_pool w) -> r <= n_buffers_cons bc')))
      as (r & bc' & w' & out' & Hrun & Hid' & Hw & -> & Hle); [done| |].
    + eapply wp_mono; [by apply (wp_cons_check _ _ _ _ Hinv')|].
      intros r [bp' bc'] (H1 & -> & ->). exists out. split; [done|]. split; [done|].
      split_tests; lia.
    + exists r, w'. split; [done|]. split; [done|]. by exists bc'.
  - destruct Hop as (bc & Hid & Hn). pose proof (winv_cache _ _ _ _ Hinv Hid) as Hinv'.
    edestruct (on_cache_ok w id bc bcache_cons (fun b bc' out' => out' = b :: out))
      as (r & bc' & w' & out' & Hrun & _ & Hw & ->); [done| |eauto 6].
    eapply wp_mono; [by apply (wp_cons _ _ _ _ Hinv')|]. intros b [bp' bc'] [? _]. eauto.
  - destruct Hop as [[bc Hid] Hb]. pose proof (winv_cache _ _ _ _ Hinv Hid) as Hinv'.
    rewrite (remove_one_perm b out Hb) in Hinv'.
    edestruct (on_cache_ok w id bc (bcache_prod b;; mret 1) (fun _ bc' out' => out' = remove_one b out))
      as (r & bc' & w' & out' & Hrun & _ & Hw & ->); [done| |eauto 6].
    wp_step. eapply wp_mono; [by eapply (wp_prod _ _ _ _ Hinv')|].
    intros ? [bp' bc'] [? _]. wp_step. eauto.
Qed.

Lemma reach_winv p w out : params_ok p -> reach p w out -> winv w out.
Proof.
  intros Hp. induction 1 as [|w out op r w' Hr IH Hop Hrun].
  - unfold winv, caches. cbn [w_pool w_caches]. rewrite map_to_list_empty. by apply fresh_inv.
  - destruct (pstep_ok _ _ _ IH Hop) as (r' & w'' & Hrun' & Hw & _). congruence.
Qed.

(** The dimensions of the pool never change. *)
Definition dims (bp : bpool) : Z * Z * Z := (n_buffers_per_slab bp, buffer_size bp, n_buffers bp).

Lemma on_cache_dims {A} w id (m : BC A) a w' :
  (forall s, match m s with Ok (_, s') => dims s'.1 = dims s.1 | Err _ => True end) ->
  on_cache w id m = Ok (a, w') -> dims (w_pool w') = dims (w_pool w).
Proof.
  intros Hm. unfold on_cache. destruct (w_caches w !! id) as [bc|]; [|done].
  specialize (Hm (w_pool w, bc)). destruct (m _) as [[b [bp' bc']]|]; [|done].
  intros [= <- <-]. done.
Qed.

Ltac dims_solve :=
  repeat match goal with
  | |- context [aget ?l ?i] => destruct (aget l i)
  | |- context [aset ?l ?i ?v] => destruct (aset l i v)
  | |- context [if ?b then _ else _] => destruct b
  end; simpl; try done.

Lemma pstep_dims w op r w' : pstep w op = Ok (r, w') -> dims (w_pool w') = dims (w_pool w).
Proof.
  destruct op as [id ok|id|id n|id|id b]; simpl.
  - unfold bcache_init, mbind, ST_bind, stget, oob, mret, ST_ret, stput, stfail.
    dims_solve; intros [= <- <-]; done.
  - unfold bcache_free, mbind, ST_bind, stget, oob, mret, ST_ret, stput, stfail.
    destruct (w_caches w !! id); dims_solve; intros [= <- <-]; done.
  - apply on_cache_dims. intros [bp bc].
    unfold bcache_cons_check, mbind, ST_bind, stget, oob, mret, ST_ret, stput, stfail. dims_solve.
  - apply on_cache_dims. intros [bp bc].
    unfold bcache_cons, mbind, ST_bind, stget, oob, mret, ST_ret, stput, stfail. dims_solve.
  - apply on_cache_dims. intros [bp bc].
    unfold bcache_prod, mbind, ST_bind, stget, oob, mret, ST_ret, stput, stfail. dims_solve.
Qed.

Lemma reach_dims p w out : reach p w out -> dims (w_pool w) = dims (bpool_contents p).
Proof. induction 1 as [|w out op r w' Hr IH Hop Hrun]; [done|]. by rewrite (pstep_dims _ _ _ _ Hrun). Qed.

Lemma all_buffers_nodup bp : 0 < buffer_size bp -> NoDup (all_buffers bp).
Proof. intros. unfold all_buffers, fill. apply NoDup_fmap_2_strong; [|apply NoDup_seq]. intros i j _ _ H0. nia. Qed.

(** ** Properties *)

(** C21: from a fresh pool, however the clients interleave their operations on any
    number of caches, no operation leaves an array or uses a slab that is not
    there; in particular, giving back a buffer when the producer slab is full
    always finds an empty slab in the pool. *)
Theorem pool_never_faults p w out op :
  params_ok p -> reach p w out -> allowed w out op ->
  exists r w', pstep w op = Ok (r, w').
Proof.
  intros Hp Hr Hop. destruct (pstep_ok w out op (reach_winv _ _ _ Hp Hr) Hop) as (r & w' & H & _).
  eauto.
Qed.

(** C3: a buffer is never in use twice: in every reachable state the buffers
    outside the pool are distinct buffers of the pool, a buffer handed out was not
    in use, and together with those in the pool's full slabs and in the caches
    they are all the buffers there are. *)
Theorem pool_hands_out_each_buffer_once p w out :
  params_ok p -> 0 < pp_buffer_size p -> reach p w out ->
  NoDup out /\ ((pool_slots (w_pool w) ++ (caches w ≫= cache_slots)) ≫= held (buffers (w_pool w))) ++ out
               ≡ₚ all_buffers (bpool_contents p) /\
  forall id r w', allowed w out (PCons id) -> pstep w (PCons id) = Ok (r, w') ->
    r ∈ all_buffers (bpool_contents p) /\ r ∉ out.
Proof.
  intros Hp Hsz Hr. pose proof (reach_winv _ _ _ Hp Hr) as Hinv.
  pose proof (reach_dims _ _ _ Hr) as Hd. injection Hd as _ Hbs Hnb.
  assert (forall w0 out0, reach p w0 out0 -> winv w0 out0 ->
    NoDup out0 /\ ((pool_slots (w_pool w0) ++ (caches w0 ≫= cache_slots)) ≫= held (buffers (w_pool w0))) ++ out0
               ≡ₚ all_buffers (bpool_contents p)) as Hall.
  { intros w0 out0 Hr0 [? ? ? ? ? ? ? ? [_ _ _ Hb]].
    pose proof (reach_dims _ _ _ Hr0) as Hd0. injection Hd0 as _ Hbs0 Hnb0.
    assert (all_buffers (w_pool w0) = all_buffers (bpool_contents p)) as Heq
      by (unfold all_buffers; by rewrite Hbs0, Hnb0).
    rewrite Heq in Hb. split; [|done].
    pose proof (all_buffers_nodup (bpool_contents p) Hsz) as Hnd. rewrite <- Hb in Hnd.
    apply NoDup_app in Hnd. tauto. }
  destruct (Hall w out Hr Hinv) as [Hnd Hb]. split; [done|]. split; [done|].
  intros id r w' Hop Hrun. pose proof (reach_step p w out (PCons id) r w' Hr Hop Hrun) as Hr'.
  destruct (Hall _ _ Hr' (reach_winv _ _ _ Hp Hr')) as [Hnd' Hb']. simpl in Hnd', Hb'.
  apply NoDup_cons in Hnd' as [? _]. split; [|done]. rewrite <- Hb'. apply elem_of_app. right. left.
Qed.

(** What a check promises is there: when a client asks for at most a slab of
    buffers, as many buffers as the check returns can be taken from the cache, and
    a positive request gets nothing only if the consumer slab is empty and the
    pool has no full slab. *)
Theorem check_keeps_its_promise p w out id n bc r w' :
  params_ok p -> reach p w out -> w_caches w !! id = Some bc ->
  0 < n <= n_buffers_per_slab (w_pool w) -> pstep w (PCheck id n) = Ok (r, w') ->
  exists bc', w_caches w' !! id = Some bc' /\ 0 <= r <= n_buffers_cons bc' /\ r <= n /\
    (r = 0 <-> n_buffers_cons bc = 0 /\ n_slabs_available (w_pool w) = 0).
Proof.
  intros Hp Hr Hid Hn Hrun. pose proof (winv_cache _ _ _ _ (reach_winv _ _ _ Hp Hr) Hid) as Hinv.
  pose proof (pi_per _ _ _ Hinv). pose proof (cache_bounds _ _ _ _ Hinv) as [Hc _].
  pose proof (pi_avail _ _ _ Hinv).
  edestruct (on_cache_ok w id bc (bcache_cons_check n) (fun r bc' _ =>
    0 <= r <= n_buffers_cons bc' /\ r <= n /\
    (r = 0 <-> n_buffers_cons bc = 0 /\ n_slabs_available (w_pool w) = 0)))
    as (r' & bc' & w'' & out' & Hrun' & Hid' & _ & HP); [done| |].
  - eapply wp_mono; [apply (wp_cons_check _ _ _ _ Hinv); lia|].
    intros r0 [bp' bc'] (H1 & -> & ->). exists out. split; [done|]. split_tests; lia.
  - simpl in Hrun. rewrite Hrun' in Hrun. injection Hrun as -> ->. eauto.
Qed.

(** Creating the pool either fails and holds no memory, lock, mapping or UMEM
    area, or succeeds and holds one of each, all of which [bpool_free] releases;
    nothing is released twice. *)
Theorem bpool_init_free_balanced env params :
  0 < pp_n_buffers_per_slab params ->
  exists r held, bpool_init env params [] = Ok (r, held) /\
    match r with
    | None => held = []
    | Some bp => bp = bpool_contents params /\ held ≡ₚ [Rheap; Rlock; Rmap; Rumem]
    end /\
    bpool_free r held = Ok (tt, []).
Proof.
  intros Hper. unfold bpool_init. destruct (Z.eqb_spec (pp_n_buffers_per_slab params) 0); [lia|].
  destruct env as [[] [] [] [] []]; simpl; eexists _, _; (split; [reflexivity|]); (split; [|done]); try done.
  split; [done|]. solve_Permutation.
Qed.

(** ** The properties at concrete inputs *)

(** Three slabs of two buffers of 2048 bytes, one client. *)
Definition demo_params : bpool_params := mk_bpool_params 5 2048 1 2.

Lemma demo_params_ok : params_ok demo_params.
Proof. unfold params_ok. by_compute. Qed.

(** A cache [7] is created, asks for two buffers and takes one. *)
Definition next (w : world) (op : pop) : world :=
  match pstep w op with
  | Ok (_, w') => w'
  | Err _ => w
  end.
Definition demo_w0 : world := Eval vm_compute in mk_world (bpool_contents demo_params) ∅.
Definition demo_w1 : world := Eval vm_compute in next demo_w0 (PInit 7 true).
Definition demo_w2 : world := Eval vm_compute in next demo_w1 (PCheck 7 2).
Definition demo_w3 : world := Eval vm_compute in next demo_w2 (PCons 7).

Lemma demo_reach : reach demo_params demo_w3 [10240].
Proof.
  apply (reach_step demo_params demo_w2 [] (PCons 7) 10240 demo_w3);
    [|by eexists; split; [vm_compute; reflexivity|]|vm_compute; reflexivity].
  apply (reach_step demo_params demo_w1 [] (PCheck 7 2) 2 demo_w2);
    [|split; [by eexists; vm_compute; reflexivity|lia]|vm_compute; reflexivity].
  apply (reach_step demo_params demo_w0 [] (PInit 7 true) 1 demo_w1);
    [|vm_compute; reflexivity|vm_compute; reflexivity].
  apply (reach_init demo_params).
Qed.

Lemma pool_never_faults_witness : exists r w', pstep demo_w3 (PProd 7 10240) = Ok (r, w').
Proof.
  apply (pool_never_faults demo_params demo_w3 [10240] (PProd 7 10240));
    [exact demo_params_ok | exact demo_reach |].
  split; [eexists; vm_compute; reflexivity | apply list_elem_of_singleton; reflexivity].
Defined.

Lemma pool_hands_out_each_buffer_once_witness :
  pstep demo_w3 (PCons 7) = Ok (8192, next demo_w3 (PCons 7)) /\ 8192 ∉ [10240].
Proof.
  destruct (pool_hands_out_each_buffer_once demo_params demo_w3 [10240]) as (_ & _ & H);
    [exact demo_params_ok | reflexivity | exact demo_reach |].
  split; [vm_compute; reflexivity|].
  apply (H 7%nat 8192 (next demo_w3 (PCons 7))); [|vm_compute; reflexivity].
  eexists. split; [vm_compute; reflexivity | reflexivity].
Defined.

Lemma check_keeps_its_promise_witness :
  exists bc', w_caches demo_w3 !! 7%nat = Some bc' /\ 0 <= 1 <= n_buffers_cons bc'.
Proof.
  destruct (check_keeps_its_promise demo_params demo_w3 [10240] 7 2 (mk_bcache 4 6 1 0) 1 demo_w3)
    as (bc' & Hid & Hr & _);
    [exact demo_params_ok | exact demo_reach | vm_compute; reflexivity | by_compute | vm_compute; reflexivity |].
  exists bc'. split; [exact Hid | exact Hr].
Defined.

Lemma bpool_init_free_balanced_witness :
  exists r held, bpool_init (mk_bpool_env true true true true false) demo_params [] = Ok (r, held) /\
    bpool_free r held = Ok (tt, []).
Proof.
  destruct (bpool_init_free_balanced (mk_bpool_env true true true true false) demo_params)
    as (r & held & H1 & _ & H2); [reflexivity|].
  exists r, held. split; [exact H1 | exact H2].
Defined.
