(* ===== verification/XskPort.v ===== *)
(** * AF_XDP forwarding: arguments, ports and forwarding threads

    src/ebpf-xdp/xsk/af_rxtx.c, [parse_args], [port_*] and the body of
    [thread_func] / [thread_func_poll], and the distribution of ports to threads in
    src/ebpf-xdp/xsk/main.c. The rings shared with the kernel are libxdp's: those the
    program fills are arrays with the index of their producer, and what the kernel answers
    is an argument of the model, with what the documentation of
    AF_XDP says about it as hypotheses of the theorems. *)
From S2P Require Import Prelude BufPool.
From Stdlib Require Import Ascii.
From stdpp Require Import base numbers list gmap strings.
Local Open Scope Z_scope.

Definition MAX_PORTS_PER_THREAD : Z := 16.
Definition MAX_PORTS : Z := 64.
Definition MAX_THREADS : Z := 64.

(** ** parse_args *)

(** [atoi]: white space, a sign, digits. *)
Definition is_space (c : ascii) : bool :=
  let n := Z.of_N (N_of_ascii c) in (n =? 32) || ((9 <=? n) && (n <=? 13)).
Definition digit (c : ascii) : option Z :=
  let n := Z.of_N (N_of_ascii c) in if (48 <=? n) && (n <=? 57) then Some (n - 48) else None.
Fixpoint atoi_digits (acc : Z) (s : string) : Z :=
  match s with
  | EmptyString => acc
  | String c s' => match digit c with Some d => atoi_digits (10 * acc + d) s' | None => acc end
  end.
Fixpoint atoi (s : string) : Z :=
  match s with
  | EmptyString => 0
  | String c s' =>
      if is_space c then atoi s'
      else if Ascii.eqb c "-" then s32 (- atoi_digits 0 s')
      else if Ascii.eqb c "+" then s32 (atoi_digits 0 s')
      else s32 (atoi_digits 0 s)
  end.

Record args := mk_args {
  a_n_buffers : Z;                     (** bpool_params.n_buffers *)
  a_cores : list Z;                    (** thread_data[0..n_threads).cpu_core_id *)
  a_ports : list (string * Z);         (** port_params[0..n_ports): interface, queue *)
}.

(** [getopt_long] with the short options "c:i:q:": a letter of the option string
    is returned with its argument, any other letter as '?'. *)
Definition getopt (optstring : list ascii) (c : ascii) : ascii :=
  if bool_decide (c ∈ optstring) then c else "?"%char.
Definition short_options : list ascii := ["c"; "i"; "q"]%char.

(** The loop over the options of the command line, each a letter and its argument;
    [None] is the return of -1. *)
Fixpoint parse_loop (opts : list (ascii * string)) (a : args) : option args :=
  match opts with
  | [] => Some a
  | (c, optarg) :: opts' =>
      let opt := getopt short_options c in
      if Ascii.eqb opt "b" then
        parse_loop opts' (mk_args (u32 (atoi optarg)) (a_cores a) (a_ports a))
      else if Ascii.eqb opt "c" then
        if Z.of_nat (length (a_cores a)) =? MAX_THREADS then None
        else parse_loop opts' (mk_args (a_n_buffers a) (a_cores a ++ [u32 (atoi optarg)]) (a_ports a))
      else if Ascii.eqb opt "i" then
        if Z.of_nat (length (a_ports a)) =? MAX_PORTS then None
        else parse_loop opts' (mk_args (a_n_buffers a) (a_cores a) (a_ports a ++ [(optarg, 0)]))
      else if Ascii.eqb opt "q" then
        match last (a_ports a) with
        | None => None
        | Some (iface, _) =>
            parse_loop opts' (mk_args (a_n_buffers a) (a_cores a)
              (take (length (a_ports a) - 1) (a_ports a) ++ [(iface, u32 (atoi optarg))]))
        end
      else None
  end.

Definition n_ports (a : args) : Z := Z.of_nat (length (a_ports a)).
Definition n_threads (a : args) : Z := Z.of_nat (length (a_cores a)).

(** The return value and, when it is 0, the settings. *)
Definition parse_args (opts : list (ascii * string)) (a : args) : Z * option args :=
  match parse_loop opts a with
  | None => (-1, None)
  | Some a' =>
      if n_ports a' =? 0 then (-1, None)
      else if n_threads a' =? 0 then (-1, None)
      else if negb (n_ports a' mod n_threads a' =? 0) then (-1, None)
      else (0, Some a')
  end.

(** ** The distribution of ports to threads (main.c) *)

(** One thread's arrays of port numbers; writing behind their end is a fault. *)
Record thread_ports := mk_thread_ports { ports_rx : list Z; ports_tx : list Z }.

Fixpoint assign_ports (base per : Z) (js : list nat) (t : thread_ports) : res thread_ports :=
  match js with
  | [] => Ok t
  | j :: js' =>
      if MAX_PORTS_PER_THREAD <=? Z.of_nat j then Err OutOfBounds
      else assign_ports base per js'
        (mk_thread_ports (ports_rx t ++ [base + Z.of_nat j])
                         (ports_tx t ++ [base + (Z.of_nat j + 1) mod per]))
  end.

Fixpoint assign_threads (per : Z) (ths : list nat) : res (list thread_ports) :=
  match ths with
  | [] => Ok []
  | i :: ths' =>
      match assign_ports (Z.of_nat i * per) per (seq 0 (Z.to_nat per)) (mk_thread_ports [] []) with
      | Err e => Err e
      | Ok t => match assign_threads per ths' with Ok ts => Ok (t :: ts) | Err e => Err e end
      end
  end.

Definition distribute (a : args) : res (list thread_ports) :=
  assign_threads (n_ports a / n_threads a) (seq 0 (Z.to_nat (n_threads a))).

(** The index of the next port in [thread_func]. *)
Definition next_port (n_ports_rx i : Z) : Z := Z.land (i + 1) (u32 (n_ports_rx - 1)).

(** ** Ports *)

(** A ring that the program fills and the kernel empties, as libxdp documents it: the index
    at which the next entries are reserved, the entries, and what was submitted so far, in
    order; an entry that was never written is [None]. *)
Record ring (A : Type) := mk_ring { producer : Z; entries : gmap Z A; submitted : list (option A) }.
Arguments mk_ring {_}.
Arguments producer {_}.
Arguments entries {_}.
Arguments submitted {_}.
Section rings.
Context {A : Type} (size : Z).
Implicit Types (r : ring A).
Definition new_ring : ring A := mk_ring 0 ∅ [].
(** The place of an index in a ring of [size] entries. *)
Definition ring_slot (idx : Z) : Z := Z.land (u32 idx) (size - 1).
(** A store to the entry at [idx], given what it holds. *)
Definition ring_write (idx : Z) (f : option A -> A) r : ring A :=
  mk_ring (producer r) (<[ring_slot idx := f (entries r !! ring_slot idx)]> (entries r)) (submitted r).
(** [n] entries are handed to the kernel. *)
Definition ring_submit (n : Z) r : ring A :=
  mk_ring (u32 (producer r + n)) (entries r)
    (submitted r ++ ((fun i => entries r !! ring_slot (producer r + Z.of_nat i)) <$> seq 0 (Z.to_nat n))).
End rings.

(** A descriptor: buffer address and length. *)
Definition desc : Type := Z * Z.

(** The fill and the transmit ring of a port, and how often the kernel was woken up: by
    [sendto] without data for the transmit ring, and by [poll] for the fill ring. *)
Record rings := mk_rings { fq : ring Z; txq : ring desc; wakeups : nat; polls : nat }.
Definition new_rings : rings := mk_rings new_ring new_ring 0 0.

(** The pool with the caches of the ports, the packet counters of the ports and their rings.
    A port is named by a number; a missing counter is zero. *)
Record xsk := mk_xsk { x_world : world; x_rx : gmap nat Z; x_tx : gmap nat Z; x_rings : gmap nat rings }.

Definition cache_op {A} (id : nat) (m : BC A) : ST xsk A := fun x =>
  match on_cache (x_world x) id m with
  | Ok (a, w) => Ok (a, mk_xsk w (x_rx x) (x_tx x) (x_rings x))
  | Err e => Err e
  end.
Definition rings_of (x : xsk) (id : nat) : rings := default new_rings (x_rings x !! id).
Definition on_rings (id : nat) (f : rings -> rings) : ST xsk unit := fun x =>
  Ok (tt, mk_xsk (x_world x) (x_rx x) (x_tx x) (<[id := f (rings_of x id)]> (x_rings x))).
Definition on_fq (f : ring Z -> ring Z) (r : rings) : rings := mk_rings (f (fq r)) (txq r) (wakeups r) (polls r).


(** Take [n] buffers from the cache and put them on the fill ring, from index [pos] on. *)
Fixpoint take_buffers (fill_size : Z) (id : nat) (pos : Z) (n : nat) : ST xsk (list Z) :=
  match n with
  | O => mret []
  | S n' =>
      b ← cache_op id bcache_cons;
      on_rings id (on_fq (ring_write fill_size pos (fun _ => b)));;
      bs ← take_buffers fill_size id (pos + 1) n';
      mret (b :: bs)
  end.



Section ports.
Context (MAX_BURST_RX MAX_BURST_TX fill_size tx_size comp_size : Z).
Context (fuel : nat).






End ports.

(** [port_free] and [port_init]. The descriptors of the rings are set up by the
    kernel; a port that is created has its fill ring filled from its cache. *)
Definition port_free (id : nat) : ST xsk unit := fun x =>
  match pstep (x_world x) (PFree id) with
  | Ok (_, w) => Ok (tt, mk_xsk w (x_rx x) (x_tx x) (x_rings x))
  | Err e => Err e
  end.

Definition make_cache (id : nat) (ok : bool) : ST xsk bool := fun x =>
  match pstep (x_world x) (PInit id ok) with
  | Ok (r, w) => Ok (negb (r =? 0), mk_xsk w (x_rx x) (x_tx x) (x_rings x))
  | Err e => Err e
  end.

(** The buffers put on the fill ring, or [None] for the null pointer. The outcomes
    of the two allocations, of creating the socket and of updating the map are
    arguments. *)
Definition port_init (id : nat) (calloc_ok cache_ok socket_ok xskmap_ok : bool) (umem_fq_size : Z)
    : ST xsk (option (list Z)) :=
  if negb calloc_ok then mret None
  else
    made ← make_cache id cache_ok;
    if negb made then mret None
    else
      size ← cache_op id bcache_slab_size;
      if size <? umem_fq_size then port_free id;; mret None
      else
        n ← cache_op id (bcache_cons_check umem_fq_size);
        if n <? umem_fq_size then port_free id;; mret None
        else if negb socket_ok then port_free id;; mret None
        else if negb xskmap_ok then mret None
        else
          on_rings id (fun _ => new_rings);;
          fills ← take_buffers umem_fq_size id 0 (Z.to_nat umem_fq_size);
          on_rings id (on_fq (ring_submit umem_fq_size umem_fq_size));;
          mret (Some fills).

(** ** Running the operations *)

Definition same_ports (x x' : xsk) : Prop := dom (w_caches (x_world x')) = dom (w_caches (x_world x)).

Lemma wp_cache_op {A} x id bc (m : BC A) (P : A -> bcache -> list Z -> Prop) Q :
  w_caches (x_world x) !! id = Some bc ->
  wp m (fun a '(bp', bc') => exists out',
      pool_inv bp' (bc' :: (map_to_list (delete id (w_caches (x_world x)))).*2) out' /\ P a bc' out')
    (w_pool (x_world x), bc) ->
  (forall a bc' out' w', winv w' out' -> w_caches w' = <[id := bc']> (w_caches (x_world x)) ->
     P a bc' out' -> Q a (mk_xsk w' (x_rx x) (x_tx x) (x_rings x))) ->
  wp (cache_op id m) Q x.
Proof.
  intros Hid Hwp HQ. destruct (wp_run _ _ _ Hwp) as (a & [bp' bc'] & Hrun & out' & Hinv & HP).
  eapply wp_of_run.
  - unfold cache_op, on_cache. rewrite Hid, Hrun. reflexivity.
  - eapply HQ; [| reflexivity | exact HP]. unfold winv, caches. simpl. by rewrite caches_update.
Qed.

Lemma same_ports_insert x id bc bc' w :
  w_caches (x_world x) !! id = Some bc -> w_caches w = <[id := bc']> (w_caches (x_world x)) ->
  forall rx tx rg, same_ports x (mk_xsk w rx tx rg).
Proof.
  intros Hid Hw rx tx rg. unfold same_ports. simpl. rewrite Hw. apply dom_insert_lookup_L. by eexists.
Qed.

Lemma rings_of_set x id f id' w rx tx :
  rings_of (mk_xsk w rx tx (<[id := f (rings_of x id)]> (x_rings x))) id' = if decide (id = id') then f (rings_of x id) else rings_of x id'.
Proof. unfold rings_of at 1. cbn [x_rings]. by rewrite lookup_insert; case_decide. Qed.

Section filling.
Context {A : Type} (k : Z) (Hk : 0 <= k <= 32).
Implicit Types (r : ring A) (vs : list A).

(** Values stored one after the other. *)
Fixpoint ring_fill (size idx : Z) (vs : list A) (r : ring A) : ring A :=
  match vs with
  | [] => r
  | v :: vs' => ring_fill size (idx + 1) vs' (ring_write size idx (fun _ => v) r)
  end.


End filling.

(** The rings after a change of one port's. *)
Definition changed (x x' : xsk) (id : nat) (f : rings -> rings) : Prop :=
  forall id', rings_of x' id' = if decide (id = id') then f (rings_of x id) else rings_of x id'.
Lemma changed_id x x' id : x_rings x' = x_rings x -> changed x x' id (fun r => r).
Proof. intros E id'. unfold rings_of. rewrite E. case_decide; by subst. Qed.
Lemma changed_trans x x' x'' id f g : changed x x' id f -> changed x' x'' id g -> changed x x'' id (fun r => g (f r)).
Proof. intros H1 H2 id'. rewrite H2, !H1. by case_decide; rewrite ?decide_True by done. Qed.
Lemma changed_ext x x' id f g : changed x x' id f -> (forall r, f r = g r) -> changed x x' id g.
Proof. intros H E id'. rewrite H, E. done. Qed.
Lemma changed_set x id f w rx tx : changed x (mk_xsk w rx tx (<[id := f (rings_of x id)]> (x_rings x))) id f.
Proof. intros id'. apply rings_of_set. Qed.

Lemma wp_take_buffers size id n : forall pos x out bc,
  winv (x_world x) out -> w_caches (x_world x) !! id = Some bc -> Z.of_nat n <= n_buffers_cons bc ->
  wp (take_buffers size id pos n) (fun bs x' => exists out', length bs = n /\ out' ≡ₚ bs ++ out /\
     winv (x_world x') out' /\ same_ports x x' /\ x_rx x' = x_rx x /\ x_tx x' = x_tx x /\ changed x x' id (on_fq (ring_fill size pos bs))) x.
Proof.
  induction n as [|n IH]; intros pos x out bc Hinv Hid Hn; cbn [take_buffers].
  - wp_step. exists out. split_and!; auto; [done|]. eapply changed_ext; [by apply changed_id|by intros []].
  - wp_step. eapply (wp_cache_op _ _ bc _ (fun b bc' out' => out' = b :: out /\
      n_buffers_cons bc' = n_buffers_cons bc - 1)); [done| |].
    { eapply wp_mono; [apply (wp_cons _ _ _ _ (winv_cache _ _ _ _ Hinv Hid)); lia|].
      intros b [bp' bc'] [? ?]. eauto. }
    intros b bc' out' w' Hw Hcs [-> Hc']. wp_step. unfold on_rings at 1. eapply wp_of_run; [reflexivity|]. wp_step. cbn [x_world x_rx x_tx x_rings].
    set (x1 := mk_xsk w' (x_rx x) (x_tx x) _). eapply wp_mono; [apply (IH (pos + 1) x1 (b :: out) bc'); simpl; auto|].
    + rewrite Hcs. apply lookup_insert_eq.
    + lia.
    + intros bs x' (out' & Hlen & Hout & Hw' & Hsame & ? & ? & Hch). wp_step. exists out'.
      split_and!; auto; [simpl; lia| | |].
      * rewrite Hout. simpl. by rewrite <- Permutation_middle.
      * unfold same_ports in *. rewrite Hsame. by eapply (same_ports_insert x id bc bc' w').
      * eapply changed_ext; [eapply changed_trans; [|exact Hch]; apply (changed_set x id (on_fq (ring_write size pos (fun _ => b))))|done].
Qed.










Section passes.
Context (MAX_BURST_RX MAX_BURST_TX comp_size fill_bits tx_bits : Z) (fuel : nat).
Context (Hrx : 0 < MAX_BURST_RX < 2 ^ 32) (Htx : 0 < MAX_BURST_TX).
Context (Hfill : 0 <= fill_bits <= 32) (Htxq : 0 <= tx_bits <= 32).
Context (Hrx_fits : MAX_BURST_RX <= 2 ^ fill_bits) (Htx_fits : MAX_BURST_TX <= 2 ^ tx_bits).





End passes.

(** ** Creating a port *)
Section port_init.
Context (x : xsk) (out : list Z) (id : nat) (fq : Z).
Context (Hinv : winv (x_world x) out) (Hfq : 0 < fq < 2 ^ 32).

Lemma wp_make_cache ok Q :
  w_caches (x_world x) !! id = None ->
  Q false x ->
  (forall bc w', winv w' out -> w_caches w' = <[id := bc]> (w_caches (x_world x)) ->
     n_buffers_cons bc = 0 -> ok = true -> Q true (mk_xsk w' (x_rx x) (x_tx x) (x_rings x))) ->
  wp (make_cache id ok) Q x.
Proof.
  intros Hid Hf Ht.
  destruct (wp_run _ _ _ (wp_bcache_init _ _ _ ok Hinv)) as (r & bp' & Hrun & Hpost).
  eapply wp_of_run with (s' := match r with
    | Some bc => mk_xsk (mk_world bp' (<[id := bc]> (w_caches (x_world x)))) (x_rx x) (x_tx x) (x_rings x)
    | None => x end) (a := match r with Some _ => true | None => false end).
  - unfold make_cache. simpl. rewrite Hrun. destruct r as [bc|]; [done|].
    destruct Hpost as [-> _]. destruct x as [[] ? ? ?]. done.
  - destruct r as [bc|]; [|done]. destruct Hpost as (Hw & Hc & _).
    apply (Ht bc); auto; [|by destruct ok; [|unfold bcache_init in Hrun; discriminate]].
    unfold winv, caches. simpl. by rewrite caches_insert.
Qed.

Lemma wp_port_free bc x1 Q :
  winv (x_world x1) out -> w_caches (x_world x1) !! id = Some bc ->
  (forall w' lost, winv w' (lost ++ out) -> w_caches w' = delete id (w_caches (x_world x1)) ->
     Q tt (mk_xsk w' (x_rx x1) (x_tx x1) (x_rings x1))) ->
  wp (port_free id) Q x1.
Proof.
  intros Hw Hid HQ.
  destruct (wp_run _ _ _ (wp_bcache_free _ _ _ bc (winv_cache _ _ _ _ Hw Hid))) as ([] & bp' & Hrun & Hpost).
  eapply wp_of_run.
  - unfold port_free. simpl. rewrite Hid, Hrun. reflexivity.
  - eapply HQ; [|reflexivity]. apply Hpost.
Qed.

Lemma wp_slab_size bc x1 Q :
  w_caches (x_world x1) !! id = Some bc ->
  Q (u32 (n_buffers_per_slab (w_pool (x_world x1)))) x1 -> wp (cache_op id bcache_slab_size) Q x1.
Proof.
  intros Hid HQ. eapply wp_of_run; [|done]. unfold cache_op, on_cache. rewrite Hid. simpl.
  rewrite insert_id by done. by destruct x1 as [[] ? ? ?].
Qed.

(** Either the fill ring got its buffers, or the port holds no cache any more, or
    the update of the map failed and its cache is still taken. *)
Definition port_init_post (m_ok : bool) (r : option (list Z)) (x' : xsk) : Prop :=
  match r with
  | Some fills => Z.of_nat (length fills) = fq /\ m_ok = true /\
      id ∈ dom (w_caches (x_world x')) /\
      exists out', out' ≡ₚ fills ++ out /\ winv (x_world x') out'
  | None => (exists lost, winv (x_world x') (lost ++ out)) /\
      (w_caches (x_world x') !! id = None \/ m_ok = false /\ id ∈ dom (w_caches (x_world x')))
  end.

Lemma wp_init_fail m_ok bc x1 :
  winv (x_world x1) out -> w_caches (x_world x1) !! id = Some bc ->
  wp (port_free id;; mret None) (port_init_post m_ok) x1.
Proof.
  intros Hx Hb. wp_step. eapply wp_port_free; [done|done|].
  intros w' lost Hw' Hcs'. wp_step. split; [by exists lost|]. left. simpl. rewrite Hcs'. apply lookup_delete_eq.
Qed.

Lemma wp_port_init c_ok b_ok s_ok m_ok :
  w_caches (x_world x) !! id = None ->
  wp (port_init id c_ok b_ok s_ok m_ok fq) (port_init_post m_ok) x.
Proof.
  intros Hid. unfold port_init.
  assert (port_init_post m_ok None x) by (split; [by exists []|by left]).
  destruct c_ok; simpl; [|by wp_step].
  wp_step. apply wp_make_cache; [done| |]; simpl; [by wp_step|].
  intros bc w1 Hw1 Hc1 Hbc _. set (x1 := mk_xsk w1 _ _ _).
  assert (w_caches (x_world x1) !! id = Some bc) as Hid1 by (simpl; rewrite Hc1; apply lookup_insert_eq).
  pose proof (winv_cache _ _ _ _ Hw1 Hid1) as Hi1. simpl in Hi1. pose proof (pi_per _ _ _ Hi1).
  wp_step. eapply wp_slab_size; [done|]. simpl. rewrite u32_small by lia.
  destruct (n_buffers_per_slab (w_pool w1) <? fq) eqn:E; [by eapply wp_init_fail|].
  wp_step. eapply (wp_cache_op x1 id bc _ (fun r bc' out' => out' = out /\ (fq <= r -> fq <= n_buffers_cons bc')));
    [done| |].
  { eapply wp_mono; [apply (wp_cons_check _ _ _ _ Hi1); lia|].
    intros r [bp' bc'] (? & -> & ->). exists out. split; [done|]. split; [done|]. split_tests; lia. }
  intros n bc3 o3 w3 Hw3 Hc3 (-> & Hn). set (x3 := mk_xsk w3 _ _ _).
  assert (w_caches (x_world x3) !! id = Some bc3) as Hid3 by (simpl; rewrite Hc3; apply lookup_insert_eq).
  destruct (n <? fq) eqn:E3; [by eapply wp_init_fail|].
  destruct s_ok; simpl; [|by eapply wp_init_fail].
  destruct m_ok; simpl.
  - wp_step. unfold on_rings at 1. eapply wp_of_run; [reflexivity|]. wp_step.
    eapply wp_mono; [eapply (wp_take_buffers fq id _ 0 _ out bc3); auto; simpl; auto; lia|].
    intros bs x' (out' & Hlen & Hout & Hw' & Hs & _). wp_step. unfold on_rings at 1. eapply wp_of_run; [reflexivity|]. wp_step.
    split; [lia|]. split; [done|]. split; [cbn [x_world]; rewrite Hs; apply elem_of_dom; eauto|eauto].
  - wp_step. split; [by exists []|]. right. split; [done|]. apply elem_of_dom. eauto.
Qed.
End port_init.

(** ** Arguments *)

Definition args_bounded (a : args) : Prop := n_ports a <= MAX_PORTS /\ n_threads a <= MAX_THREADS.

Lemma getopt_b : getopt short_options "b"%char = "?"%char.
Proof. reflexivity. Qed.

Lemma parse_loop_bounded opts : forall a a',
  args_bounded a -> parse_loop opts a = Some a' -> args_bounded a' /\ "b"%char ∉ opts.*1.
Proof.
  unfold args_bounded, n_ports, n_threads.
  induction opts as [|[c arg] opts IH]; intros a a' Hb; cbn [parse_loop].
  { intros [= <-]. split; [done|]. apply not_elem_of_nil. }
  assert (forall a1, args_bounded a1 -> getopt short_options c <> "?"%char ->
    parse_loop opts a1 = Some a' ->
    args_bounded a' /\ "b"%char ∉ ((c, arg) :: opts).*1) as Hgo.
  { intros a1 H1 Hc Hp. apply IH in Hp as [? Hnot]; [|done]. split; [done|].
    simpl. apply not_elem_of_cons. split; [|done]. intros <-. by rewrite getopt_b in Hc. }
  unfold args_bounded, n_ports, n_threads in Hgo.
  destruct (Ascii.eqb_spec (getopt short_options c) "b") as [E|]; [apply Hgo; [done|by rewrite E]|].
  destruct (Ascii.eqb_spec (getopt short_options c) "c") as [E|].
  { destruct (Z.eqb_spec (Z.of_nat (length (a_cores a))) MAX_THREADS); [done|].
    apply Hgo; [simpl; rewrite length_app; simpl; lia|by rewrite E]. }
  destruct (Ascii.eqb_spec (getopt short_options c) "i") as [E|].
  { destruct (Z.eqb_spec (Z.of_nat (length (a_ports a))) MAX_PORTS); [done|].
    apply Hgo; [simpl; rewrite length_app; simpl; lia|by rewrite E]. }
  destruct (Ascii.eqb_spec (getopt short_options c) "q") as [E|]; [|done].
  destruct (last (a_ports a)) as [[iface q]|] eqn:Hlast; [|done].
  apply Hgo; [|by rewrite E]. simpl. rewrite length_app, length_take. simpl.
  destruct (a_ports a); [done|]. simpl in *. lia.
Qed.

(** ** Distribution *)

Lemma assign_ports_ok base per : forall n i t,
  Z.of_nat (i + n) <= MAX_PORTS_PER_THREAD ->
  assign_ports base per (seq i n) t =
  Ok (mk_thread_ports (ports_rx t ++ ((fun j => base + Z.of_nat j) <$> seq i n))
                      (ports_tx t ++ ((fun j => base + (Z.of_nat j + 1) mod per) <$> seq i n))).
Proof.
  induction n as [|n IH]; intros i t Hle; cbn [seq assign_ports].
  - simpl. rewrite !app_nil_r. by destruct t.
  - destruct (MAX_PORTS_PER_THREAD <=? Z.of_nat i) eqn:E; [lia|]. rewrite IH by lia. simpl.
    by rewrite <- !app_assoc.
Qed.

Lemma assign_ports_oob base per n : forall i t,
  MAX_PORTS_PER_THREAD < Z.of_nat (i + n) -> (0 < n)%nat ->
  assign_ports base per (seq i n) t = Err OutOfBounds.
Proof.
  induction n as [|n IH]; intros i t Hlt Hn; [lia|]. cbn [seq assign_ports].
  destruct (MAX_PORTS_PER_THREAD <=? Z.of_nat i) eqn:E; [done|].
  apply IH; lia.
Qed.

(** The transmit ports of a thread are its receive ports, rotated. *)
Lemma rotate_perm base per :
  0 < per ->
  (fun j => base + (Z.of_nat j + 1) mod per) <$> seq 0 (Z.to_nat per) ≡ₚ
  (fun j => base + Z.of_nat j) <$> seq 0 (Z.to_nat per).
Proof.
  intros Hper. destruct (Z.to_nat per) as [|k] eqn:Hk; [lia|].
  rewrite seq_S at 1. rewrite fmap_app. simpl. rewrite <- fmap_S_seq, <- list_fmap_compose.
  replace ((Z.of_nat k + 1) mod per) with 0 by (replace (Z.of_nat k + 1) with per by lia; by rewrite Z_mod_same_full).
  rewrite Permutation_app_comm. simpl. f_equiv. apply perm_eq, list_fmap_ext.
  intros i j Hj. apply lookup_seq in Hj as [? ?]. simpl. rewrite Z.mod_small by lia. lia.
Qed.

Lemma assign_threads_ok per : forall n i,
  0 < per <= MAX_PORTS_PER_THREAD ->
  exists ts, assign_threads per (seq i n) = Ok ts /\
    ts ≫= ports_rx = (fun j => Z.of_nat i * per + Z.of_nat j) <$> seq 0 (n * Z.to_nat per) /\
    ts ≫= ports_tx ≡ₚ ts ≫= ports_rx.
Proof.
  induction n as [|n IH]; intros i Hper; cbn [seq assign_threads].
  - exists []. done.
  - rewrite assign_ports_ok by lia. simpl. destruct (IH (S i) Hper) as (ts & -> & Hrx & Htx).
    eexists. split; [done|]. rewrite !bind_cons. cbn [ports_rx ports_tx]. split.
    + rewrite Hrx. change (S n * Z.to_nat per)%nat with (Z.to_nat per + n * Z.to_nat per)%nat.
      rewrite seq_app, fmap_app. f_equal. rewrite Nat.add_0_l.
      rewrite <- (Nat.add_0_r (Z.to_nat per)) at 2. rewrite <- fmap_add_seq, <- list_fmap_compose.
      apply list_fmap_ext. intros _ j _. simpl. lia.
    + by rewrite rotate_perm, Htx by lia.
Qed.

(** ** Properties *)




(** [parse_args] accepts only command lines with at least one port and one
    thread, no more of either than the tables hold, and ports that divide evenly
    among the threads; and it rejects every command line with the option [-b] that
    the usage text describes. *)
Theorem parse_args_sound opts a0 r a :
  args_bounded a0 -> parse_args opts a0 = (r, Some a) ->
  r = 0 /\ 0 < n_ports a <= MAX_PORTS /\ 0 < n_threads a <= MAX_THREADS /\
  (n_threads a | n_ports a) /\ "b"%char ∉ opts.*1.
Proof.
  intros Hb. unfold parse_args. destruct (parse_loop opts a0) as [a1|] eqn:Hl; [|done].
  destruct (parse_loop_bounded _ _ _ Hb Hl) as [[? ?] ?].
  destruct (Z.eqb_spec (n_ports a1) 0); [done|]. destruct (Z.eqb_spec (n_threads a1) 0); [done|].
  destruct (Z.eqb_spec (n_ports a1 mod n_threads a1) 0); [|done]. intros [= <- <-].
  unfold n_ports, n_threads in *. split_and!; auto; try lia. by apply Z.mod_divide.
Qed.

(** With at most 16 ports per thread the distribution gives every port to
    exactly one thread as receiver, in order, and every port is also the
    transmitter of exactly one; with more than 16 ports per thread, which
    [parse_args] accepts, it writes behind the thread's arrays. *)
Theorem distribute_exact a :
  0 < n_ports a -> 0 < n_threads a -> (n_threads a | n_ports a) ->
  (n_ports a <= MAX_PORTS_PER_THREAD * n_threads a ->
   exists ts, distribute a = Ok ts /\
     ts ≫= ports_rx = (Z.of_nat <$> seq 0 (Z.to_nat (n_ports a))) /\ ts ≫= ports_tx ≡ₚ ts ≫= ports_rx) /\
  (MAX_PORTS_PER_THREAD * n_threads a < n_ports a -> distribute a = Err OutOfBounds).
Proof.
  intros Hp Ht [k Hk]. unfold distribute. rewrite Hk, Z.div_mul by lia.
  assert (0 < k) by nia. split; intros Hle.
  - destruct (assign_threads_ok k (Z.to_nat (n_threads a)) 0) as (ts & -> & Hrx & Htx).
    { split; [done|]. nia. }
    exists ts. split; [done|]. split; [|done]. rewrite Hrx. rewrite (Z.mul_comm k), Z2Nat.inj_mul by lia.
    apply list_fmap_ext. intros. lia.
  - destruct (Z.to_nat (n_threads a)) as [|n] eqn:Hn; [lia|]. cbn [seq assign_threads].
    rewrite assign_ports_oob; [done| |lia]. nia.
Qed.

(** The index step of [thread_func] visits all ports when their number is a
    power of two; with three ports it never leaves the first. *)
Theorem next_port_round_robin :
  (forall k i, 0 <= k < 32 -> 0 <= i < 2 ^ k -> next_port (2 ^ k) i = (i + 1) mod 2 ^ k) /\
  next_port 3 0 = 0.
Proof.
  split; [|reflexivity]. intros k i Hk Hi. unfold next_port.
  assert (2 ^ k <= 2 ^ 31) by (apply Z.pow_le_mono_r; lia).
  rewrite u32_small by lia. rewrite <- Z.land_ones by lia. rewrite Z.ones_equiv. f_equal.
Qed.

(** Creating a port either puts exactly the asked number of distinct pool
    buffers on its fill ring, or returns null with the port's cache released, except
    when updating the socket map fails: then null is returned and the cache stays
    taken although no port refers to it. *)
Theorem port_init_outcomes x out id c_ok b_ok s_ok m_ok fq :
  winv (x_world x) out -> 0 < fq < 2 ^ 32 -> w_caches (x_world x) !! id = None ->
  exists r x', port_init id c_ok b_ok s_ok m_ok fq x = Ok (r, x') /\
    match r with
    | Some fills => Z.of_nat (length fills) = fq /\ m_ok = true /\
        id ∈ dom (w_caches (x_world x')) /\
        exists out', out' ≡ₚ fills ++ out /\ winv (x_world x') out'
    | None => (exists lost, winv (x_world x') (lost ++ out)) /\
        (w_caches (x_world x') !! id = None \/ m_ok = false /\ id ∈ dom (w_caches (x_world x')))
    end.
Proof. intros Hinv Hfq Hid. apply wp_run. by apply wp_port_init. Qed.

(** ** The properties at concrete inputs *)




Definition no_args : args := mk_args 65536 [] [].
Definition demo_opts : list (ascii * string) :=
  [("c"%char, "3"); ("i"%char, "eth0"); ("q"%char, " 2"); ("i"%char, "eth1")].

Lemma parse_args_sound_witness :
  parse_args demo_opts no_args = (0, Some (mk_args 65536 [3] [("eth0", 2); ("eth1", 0)])) /\
  (1 | 2).
Proof.
  split; [reflexivity|].
  apply (parse_args_sound demo_opts no_args 0 (mk_args 65536 [3] [("eth0", 2); ("eth1", 0)]));
    [unfold args_bounded; by_compute | reflexivity].
Defined.

Lemma distribute_exact_witness :
  distribute (mk_args 0 [0] (replicate 17 ("eth0", 0))) = Err OutOfBounds.
Proof.
  apply (distribute_exact (mk_args 0 [0] (replicate 17 ("eth0", 0))));
    [by_compute | by_compute | exists 17; reflexivity | by_compute].
Defined.

Definition demo_fresh : xsk := mk_xsk demo_w0 ∅ ∅ ∅.

Lemma port_init_outcomes_witness :
  exists r x', port_init 7 true true true false 2 demo_fresh = Ok (r, x') /\ r = None /\
    7%nat ∈ dom (w_caches (x_world x')).
Proof.
  destruct (port_init_outcomes demo_fresh [] 7 true true true false 2) as (r & x' & Hrun & _);
    [exact (reach_winv _ _ _ demo_params_ok (reach_init demo_params)) | by_compute | reflexivity |].
  exists r, x'. split; [exact Hrun|]. vm_compute in Hrun. injection Hrun as <- <-.
  split; [reflexivity|]. by_compute.
Defined.
