(* ===== verification/Dummeth.v ===== *)
(** * The dummy Ethernet driver

    src/keth-if/kernel/core.c and core.h: two network devices, each the other's
    wire. A device owns a pool of packet buffers, linked through their [next]
    fields; a transmitted frame is copied into a buffer of the sender's pool and
    linked into the receiver's queue, from which the receiver's poll function
    delivers it and gives the buffer back to its owner.

    Buffers are addresses in a heap; an access to an address that is not
    allocated, past the end of a buffer, the locking of a held lock, or an allocation
    that may sleep while a spin lock is held, is a fault.
    [dev_alloc_skb] and [kmalloc] can fail, and [ip_fast_csum] is a parameter. *)
From S2P Require Import Prelude.
From stdpp Require Import base numbers list gmap.
Local Open Scope Z_scope.

Definition ETH_DATA_LEN : Z := 1500.
Definition ETH_ZLEN : Z := 60.
Definition DUMMETH_RX_INTR : Z := 1.
Definition DUMMETH_TX_INTR : Z := 2.
Definition EINVAL : Z := 22.
Definition EBUSY : Z := 16.
Definition EOPNOTSUPP : Z := 95.
Definition ENOMEM : Z := 12.

(** Devices 0 and 1. *)
Definition devno : Type := bool.
Definition addr : Type := nat.

Record packet := mk_packet {
  p_next : option addr; p_dev : devno; p_datalen : Z; p_data : list Z;
}.

Record net_stats := mk_stats {
  rx_packets : Z; rx_bytes : Z; rx_dropped : Z; tx_packets : Z; tx_bytes : Z; tx_errors : Z;
}.

(** [struct dummeth_priv], with the state of the device's transmit queue, of its
    lock and of its NAPI instance. *)
Record priv := mk_priv {
  stats : net_stats;
  status : Z;
  ppool : option addr;
  rx_queue : option addr;
  rx_int_enabled : bool;
  tx_packetlen : Z;
  skb : option addr;
  locked : bool;
  stopped : bool;
  napi_scheduled : bool;
  napi_enabled : bool;
}.

Definition set_stats (f : net_stats -> net_stats) (v : priv) : priv :=
  mk_priv (f (stats v)) (status v) (ppool v) (rx_queue v) (rx_int_enabled v) (tx_packetlen v)
    (skb v) (locked v) (stopped v) (napi_scheduled v) (napi_enabled v).
Definition set_status (x : Z) (v : priv) : priv :=
  mk_priv (stats v) x (ppool v) (rx_queue v) (rx_int_enabled v) (tx_packetlen v)
    (skb v) (locked v) (stopped v) (napi_scheduled v) (napi_enabled v).
Definition set_ppool (x : option addr) (v : priv) : priv :=
  mk_priv (stats v) (status v) x (rx_queue v) (rx_int_enabled v) (tx_packetlen v)
    (skb v) (locked v) (stopped v) (napi_scheduled v) (napi_enabled v).
Definition set_rx_queue (x : option addr) (v : priv) : priv :=
  mk_priv (stats v) (status v) (ppool v) x (rx_int_enabled v) (tx_packetlen v)
    (skb v) (locked v) (stopped v) (napi_scheduled v) (napi_enabled v).
Definition set_rx_int (x : bool) (v : priv) : priv :=
  mk_priv (stats v) (status v) (ppool v) (rx_queue v) x (tx_packetlen v)
    (skb v) (locked v) (stopped v) (napi_scheduled v) (napi_enabled v).
Definition set_txlen (x : Z) (v : priv) : priv :=
  mk_priv (stats v) (status v) (ppool v) (rx_queue v) (rx_int_enabled v) x
    (skb v) (locked v) (stopped v) (napi_scheduled v) (napi_enabled v).
Definition set_skb (x : option addr) (v : priv) : priv :=
  mk_priv (stats v) (status v) (ppool v) (rx_queue v) (rx_int_enabled v) (tx_packetlen v)
    x (locked v) (stopped v) (napi_scheduled v) (napi_enabled v).
Definition set_locked (x : bool) (v : priv) : priv :=
  mk_priv (stats v) (status v) (ppool v) (rx_queue v) (rx_int_enabled v) (tx_packetlen v)
    (skb v) x (stopped v) (napi_scheduled v) (napi_enabled v).
Definition set_stopped (x : bool) (v : priv) : priv :=
  mk_priv (stats v) (status v) (ppool v) (rx_queue v) (rx_int_enabled v) (tx_packetlen v)
    (skb v) (locked v) x (napi_scheduled v) (napi_enabled v).
Definition set_napi (x : bool) (v : priv) : priv :=
  mk_priv (stats v) (status v) (ppool v) (rx_queue v) (rx_int_enabled v) (tx_packetlen v)
    (skb v) (locked v) (stopped v) x (napi_enabled v).
Definition set_napi_enabled (x : bool) (v : priv) : priv :=
  mk_priv (stats v) (status v) (ppool v) (rx_queue v) (rx_int_enabled v) (tx_packetlen v)
    (skb v) (locked v) (stopped v) (napi_scheduled v) x.

Definition add_rx (len : Z) (t : net_stats) : net_stats :=
  mk_stats (u64 (rx_packets t + 1)) (u64 (rx_bytes t + len)) (rx_dropped t) (tx_packets t)
    (tx_bytes t) (tx_errors t).
Definition add_dropped (t : net_stats) : net_stats :=
  mk_stats (rx_packets t) (rx_bytes t) (u64 (rx_dropped t + 1)) (tx_packets t) (tx_bytes t) (tx_errors t).
Definition add_tx (len : Z) (t : net_stats) : net_stats :=
  mk_stats (rx_packets t) (rx_bytes t) (rx_dropped t) (u64 (tx_packets t + 1)) (u64 (tx_bytes t + len))
    (tx_errors t).
Definition add_tx_error (t : net_stats) : net_stats :=
  mk_stats (rx_packets t) (rx_bytes t) (rx_dropped t) (tx_packets t) (tx_bytes t) (u64 (tx_errors t + 1)).

(** The buffers, the live socket buffers of the stack, the two devices, and the
    frames handed to the stack so far, oldest first. *)
Record net := mk_net {
  pkts : gmap addr packet;
  skbs : gset addr;
  priv0 : priv;
  priv1 : priv;
  delivered : list (devno * list Z);
}.

Definition N (A : Type) : Type := ST net A.

Definition netdev_priv (s : net) (d : devno) : priv := if d then priv1 s else priv0 s.
Definition put_priv (s : net) (d : devno) (v : priv) : net :=
  if d then mk_net (pkts s) (skbs s) (priv0 s) v (delivered s)
  else mk_net (pkts s) (skbs s) v (priv1 s) (delivered s).
Definition with_pkts (s : net) (m : gmap addr packet) : net :=
  mk_net m (skbs s) (priv0 s) (priv1 s) (delivered s).

Definition get_priv (d : devno) : N priv := fun s => Ok (netdev_priv s d, s).
Definition mod_priv (d : devno) (f : priv -> priv) : N unit :=
  fun s => Ok (tt, put_priv s d (f (netdev_priv s d))).
Definition get_pkt (a : addr) : N packet := fun s =>
  match pkts s !! a with Some p => Ok (p, s) | None => Err UseAfterFree end.
Definition set_pkt (a : addr) (f : packet -> packet) : N unit := fun s =>
  match pkts s !! a with
  | Some p => Ok (tt, with_pkts s (<[a := f p]> (pkts s)))
  | None => Err UseAfterFree
  end.
Definition kfree (a : addr) : N unit := fun s =>
  match pkts s !! a with
  | Some _ => Ok (tt, with_pkts s (delete a (pkts s)))
  | None => Err BadFree
  end.
Definition set_next (x : option addr) (p : packet) : packet :=
  mk_packet x (p_dev p) (p_datalen p) (p_data p).

Definition spin_lock (d : devno) : N unit :=
  v ← get_priv d;
  if locked v then stfail Deadlock else mod_priv d (set_locked true).
Definition spin_unlock (d : devno) : N unit := mod_priv d (set_locked false).

(** An allocation with [GFP_KERNEL] may sleep, which no code may with a spin lock held. *)
Definition might_sleep : N unit := fun s =>
  if locked (priv0 s) || locked (priv1 s) then Err SleepInAtomic else Ok (tt, s).

(** The NAPI instance of a device: scheduling one that is disabled has no effect; enabling
    one that is enabled is a bug check of the kernel; disabling waits until the instance is
    enabled and not scheduled. *)
Definition napi_schedule (d : devno) : N unit :=
  mod_priv d (fun v => if napi_enabled v then set_napi true v else v).
Definition napi_enable (d : devno) : N unit :=
  v ← get_priv d;
  if napi_enabled v then stfail Aborted else mod_priv d (set_napi_enabled true).
Definition napi_disable (d : devno) : N unit :=
  v ← get_priv d;
  if napi_enabled v && negb (napi_scheduled v) then mod_priv d (set_napi_enabled false) else stfail Deadlock.

Definition netif_rx (d : devno) (bytes : list Z) : N unit := fun s =>
  Ok (tt, mk_net (pkts s) (skbs s) (priv0 s) (priv1 s) (delivered s ++ [(d, bytes)])).
Definition dev_kfree_skb (a : option addr) : N unit := fun s =>
  match a with
  | None => Ok (tt, s)
  | Some k =>
      if bool_decide (k ∈ skbs s)
      then Ok (tt, mk_net (pkts s) (skbs s ∖ {[k]}) (priv0 s) (priv1 s) (delivered s))
      else Err BadFree
  end.

(** ** The packet pool *)

(** [kmalloc_ok i] is the outcome of allocation [i]. A new buffer holds no data. *)
Fixpoint setup_loop (kmalloc_ok : nat -> bool) (d : devno) (i n : nat) : N unit :=
  match n with
  | O => mret tt
  | S n' =>
      might_sleep;;
      if negb (kmalloc_ok i) then mret tt
      else
        s ← stget;
        let a := fresh (dom (pkts s)) in
        stput (with_pkts s (<[a := mk_packet (ppool (netdev_priv s d)) d 0 []]> (pkts s)));;
        mod_priv d (set_ppool (Some a));;
        setup_loop kmalloc_ok d (S i) n'
  end.

Definition dummeth_setup_pool (pool_size : nat) (kmalloc_ok : nat -> bool) (d : devno) : N unit :=
  mod_priv d (set_ppool None);;
  setup_loop kmalloc_ok d 0 pool_size.

(** The loop ends when the list does; a list has at most as many buffers as there
    are. *)
Fixpoint teardown_loop (fuel : nat) (d : devno) : N unit :=
  v ← get_priv d;
  match ppool v with
  | None => mret tt
  | Some a =>
      match fuel with
      | O => stfail OutOfFuel
      | S fuel' =>
          p ← get_pkt a;
          mod_priv d (set_ppool (p_next p));;
          kfree a;;
          teardown_loop fuel' d
      end
  end.
Definition dummeth_teardown_pool (d : devno) : N unit :=
  s ← stget; teardown_loop (size (pkts s)) d.

Definition dummeth_get_tx_buffer (d : devno) : N (option addr) :=
  spin_lock d;;
  v ← get_priv d;
  match ppool v with
  | None => mret None
  | Some a =>
      p ← get_pkt a;
      mod_priv d (set_ppool (p_next p));;
      (match p_next p with
       | Some _ => mret tt
       | None => mod_priv d (set_stopped true)
       end);;
      spin_unlock d;;
      mret (Some a)
  end.

Definition dummeth_release_buffer (a : addr) : N unit :=
  p ← get_pkt a;
  let d := p_dev p in
  spin_lock d;;
  v ← get_priv d;
  set_pkt a (set_next (ppool v));;
  mod_priv d (set_ppool (Some a));;
  spin_unlock d;;
  v' ← get_priv d;
  p' ← get_pkt a;
  match p_next p' with
  | None => if stopped v' then mod_priv d (set_stopped false) else mret tt
  | Some _ => mret tt
  end.

Definition dummeth_enqueue_buf (d : devno) (a : addr) : N unit :=
  spin_lock d;;
  v ← get_priv d;
  set_pkt a (set_next (rx_queue v));;
  mod_priv d (set_rx_queue (Some a));;
  spin_unlock d.

Definition dummeth_dequeue_buf (d : devno) : N (option addr) :=
  spin_lock d;;
  v ← get_priv d;
  (match rx_queue v with
   | Some a => p ← get_pkt a; mod_priv d (set_rx_queue (p_next p))
   | None => mret tt
   end);;
  spin_unlock d;;
  mret (rx_queue v).

Definition dummeth_rx_ints (d : devno) (enable : bool) : N unit := mod_priv d (set_rx_int enable).

(** ** Reception *)

(** The bytes of a received buffer: its first [datalen] bytes, which must have been
    written. *)
Definition pkt_bytes (p : packet) : N (list Z) :=
  if Z.of_nat (length (p_data p)) <? p_datalen p then stfail Uninit
  else mret (take (Z.to_nat (p_datalen p)) (p_data p)).

Definition dummeth_rx (d : devno) (a : addr) (alloc_ok : bool) : N unit :=
  p ← get_pkt a;
  if negb alloc_ok then mod_priv d (set_stats add_dropped)
  else
    bytes ← pkt_bytes p;
    mod_priv d (set_stats (add_rx (p_datalen p)));;
    netif_rx d bytes.

(** [alloc_ok i] is the outcome of allocating the socket buffer of packet [i]. *)
Fixpoint poll_loop (alloc_ok : nat -> bool) (d : devno) (budget npackets : nat) : N nat :=
  match budget with
  | O => mret npackets
  | S budget' =>
      v ← get_priv d;
      match rx_queue v with
      | None => mret npackets
      | Some _ =>
          oa ← dummeth_dequeue_buf d;
          match oa with
          | None => stfail NullDeref
          | Some a =>
              p ← get_pkt a;
              if negb (alloc_ok npackets) then
                mod_priv d (set_stats add_dropped);;
                dummeth_release_buffer a;;
                poll_loop alloc_ok d budget' (S npackets)
              else
                bytes ← pkt_bytes p;
                netif_rx d bytes;;
                mod_priv d (set_stats (add_rx (p_datalen p)));;
                dummeth_release_buffer a;;
                poll_loop alloc_ok d budget' (S npackets)
          end
      end
  end.

(** [complete] is the answer of [napi_complete_done]. *)
Definition dummeth_poll (alloc_ok : nat -> bool) (complete : bool) (d : devno) (budget : nat) : N nat :=
  npackets ← poll_loop alloc_ok d budget 0;
  if (npackets <? budget)%nat then
    spin_lock d;;
    (if complete then mod_priv d (set_napi false);; dummeth_rx_ints d true else mret tt);;
    spin_unlock d;;
    mret npackets
  else mret npackets.

(** ** Interrupts *)

Definition dummeth_regular_interrupt (alloc_ok : bool) (d : devno) : N unit :=
  spin_lock d;;
  v ← get_priv d;
  let statusword := status v in
  mod_priv d (set_status 0);;
  pkt ← (if negb (Z.land statusword DUMMETH_RX_INTR =? 0) then
           match rx_queue v with
           | Some a =>
               p ← get_pkt a;
               mod_priv d (set_rx_queue (p_next p));;
               dummeth_rx d a alloc_ok;;
               mret (Some a)
           | None => mret None
           end
         else mret None);
  (if negb (Z.land statusword DUMMETH_TX_INTR =? 0) then
     w ← get_priv d;
     mod_priv d (set_stats (add_tx (tx_packetlen w)));;
     dev_kfree_skb (skb w)
   else mret tt);;
  spin_unlock d;;
  match pkt with
  | Some a => dummeth_release_buffer a
  | None => mret tt
  end.

Definition dummeth_napi_interrupt (d : devno) : N unit :=
  spin_lock d;;
  v ← get_priv d;
  let statusword := status v in
  mod_priv d (set_status 0);;
  (if negb (Z.land statusword DUMMETH_RX_INTR =? 0) then
     dummeth_rx_ints d false;;
     napi_schedule d
   else mret tt);;
  (if negb (Z.land statusword DUMMETH_TX_INTR =? 0) then
     w ← get_priv d;
     mod_priv d (set_stats (add_tx (tx_packetlen w)));;
     match skb w with
     | Some k => dev_kfree_skb (Some k);; mod_priv d (set_skb None)
     | None => mret tt
     end
   else mret tt);;
  spin_unlock d.

(** ** Transmission *)

Section transmit.
(** Module parameters, the kernel's checksum routine (header bytes, length in
    words), and the outcomes of allocations in the interrupt handler. *)
Context (use_napi : bool) (lockup : Z) (ip_fast_csum : list Z -> Z -> Z) (alloc_ok : bool).

Definition dummeth_interrupt (d : devno) : N unit :=
  if use_napi then dummeth_napi_interrupt d else dummeth_regular_interrupt alloc_ok d.

Definition byte (buf : list Z) (i : nat) : Z := default 0 (buf !! i).

(** The frame on the wire: bit 0 of the third octet of both IPv4 addresses
    flipped, checksum recomputed. *)
Definition flip_addresses (buf : list Z) : list Z :=
  <[32%nat := Z.lxor (byte buf 32) 1]> (<[28%nat := Z.lxor (byte buf 28) 1]> buf).
Definition clear_check (buf : list Z) : list Z := splice 24 [0; 0] buf.
Definition mangle (buf : list Z) : list Z :=
  let b := clear_check (flip_addresses buf) in
  splice 24 (le_bytes 2 (ip_fast_csum (drop 14 b) (Z.land (byte b 14) 15))) b.

(** [memcpy(tx_buffer->data, buf, len)] into the array of [ETH_DATA_LEN] bytes. *)
Definition copy_data (len : Z) (buf : list Z) (p : packet) : packet :=
  mk_packet (p_next p) (p_dev p) len (take (Z.to_nat len) buf ++ drop (Z.to_nat len) (p_data p)).

Definition dummeth_hw_tx (buf : list Z) (len : Z) (dev : devno) : N unit :=
  if len <? 14 + 20 then mret tt
  else
    let buf' := mangle buf in
    let dest := negb dev in
    tx_buffer ← dummeth_get_tx_buffer dev;
    match tx_buffer with
    | None => mret tt
    | Some a =>
        if ETH_DATA_LEN <? len then stfail OutOfBounds
        else
          set_pkt a (copy_data len buf');;
          dummeth_enqueue_buf dest a;;
          v ← get_priv dest;
          (if rx_int_enabled v then
             mod_priv dest (fun v => set_status (Z.lor (status v) DUMMETH_RX_INTR) v);;
             dummeth_interrupt dest
           else mret tt);;
          mod_priv dev (fun v => set_status (Z.lor (status v) DUMMETH_TX_INTR) (set_txlen len v));;
          w ← get_priv dev;
          if negb (lockup =? 0) && (Z.rem (u64 (tx_packets (stats w) + 1)) lockup =? 0)
          then mod_priv dev (set_stopped true)
          else dummeth_interrupt dev
    end.

(** The frame of socket buffer [k], padded to the minimum length. *)
Definition dummeth_xmit (k : addr) (skb_data : list Z) (dev : devno) : N Z :=
  let len := Z.of_nat (length skb_data) in
  let '(data, len') :=
    if len <? ETH_ZLEN
    then (skb_data ++ replicate (Z.to_nat (ETH_ZLEN - len)) 0, ETH_ZLEN)
    else (skb_data, len) in
  mod_priv dev (set_skb (Some k));;
  dummeth_hw_tx data len' dev;;
  mret 0.

Definition dummeth_tx_timeout (pool_size : nat) (kmalloc_ok : nat -> bool) (dev : devno) : N unit :=
  mod_priv dev (fun v => set_status (Z.lor (status v) DUMMETH_TX_INTR) v);;
  dummeth_interrupt dev;;
  mod_priv dev (set_stats add_tx_error);;
  spin_lock dev;;
  dummeth_teardown_pool dev;;
  dummeth_setup_pool pool_size kmalloc_ok dev;;
  spin_unlock dev;;
  mod_priv dev (set_stopped false).

Definition dummeth_open (dev : devno) : N Z :=
  (if use_napi then napi_enable dev else mret tt);;
  mod_priv dev (set_stopped false);; mret 0.
Definition dummeth_stop (dev : devno) : N Z :=
  mod_priv dev (set_stopped true);;
  (if use_napi then napi_disable dev else mret tt);;
  mret 0.

(** A device as [dummeth_setup] leaves it. *)
Definition blank_priv : priv := mk_priv (mk_stats 0 0 0 0 0 0) 0 None None false 0 None false false false false.
Definition dummeth_setup (pool_size : nat) (kmalloc_ok : nat -> bool) (d : devno) : N unit :=
  mod_priv d (fun _ => blank_priv);;
  dummeth_rx_ints d true;;
  dummeth_setup_pool pool_size kmalloc_ok d.
End transmit.

(** ** Configuration and headers *)

Record net_device := mk_net_device {
  mtu : Z; dev_addr : list Z; irq : Z; base_addr : Z; is_up : bool;
}.

(** The hardware address [dummeth_open] gives a device. *)
Definition open_address (dev : devno) (d : net_device) : net_device :=
  mk_net_device (mtu d) (if dev then [0; 68; 69; 84; 72; 49] else [0; 68; 69; 84; 72; 48])
    (irq d) (base_addr d) true.

Definition dummeth_change_mtu (d : net_device) (new_mtu : Z) : Z * net_device :=
  if (new_mtu <? 68) || (1500 <? new_mtu) then (- EINVAL, d)
  else (0, mk_net_device new_mtu (dev_addr d) (irq d) (base_addr d) (is_up d)).

Definition dummeth_set_config (d : net_device) (map_base map_irq : Z) : Z * net_device :=
  if is_up d then (- EBUSY, d)
  else if negb (map_base =? base_addr d) then (- EOPNOTSUPP, d)
  else (0, mk_net_device (mtu d) (dev_addr d) map_irq (base_addr d) (is_up d)).

(** The Ethernet header in front of the payload. *)
Definition flip_last (mac : list Z) : list Z := <[5%nat := Z.lxor (byte mac 5) 1]> mac.
Definition dummeth_header (d : net_device) (type : Z) (daddr saddr : option (list Z)) (payload : list Z)
    : list Z :=
  flip_last (default (dev_addr d) daddr) ++ default (dev_addr d) saddr ++ le_bytes 2 (bswap16 type) ++ payload.
Definition dummeth_rebuild_header (d : net_device) (frame : list Z) : list Z :=
  flip_last (dev_addr d) ++ dev_addr d ++ drop 12 frame.

(** ** Loading and unloading the module *)

Inductive dev_state := Allocated | Registered.

(** The outcomes of allocating and registering the two devices; the result and the
    devices that are still there. Freeing a registered device is a fault. *)
Definition dummeth_init_module (alloc0 alloc1 : bool) (reg0 reg1 : Z)
    : res (Z * option dev_state * option dev_state) :=
  if negb alloc0 then Ok (- ENOMEM, None, None)
  else if negb alloc1 then Ok (- ENOMEM, Some Allocated, None)
  else if reg0 <? 0 then Ok (reg0, None, Some Allocated)
  else if reg1 <? 0 then Err BadFree
  else Ok (0, Some Registered, Some Registered).

(** Unregistering and freeing the devices apart, unloading empties the pools. *)
Definition dummeth_cleanup_module : N unit :=
  dummeth_teardown_pool false;; dummeth_teardown_pool true.

(** ** Results of the operations *)

Section runs.
Context (s : net) (d : devno).
Local Abbreviation v := (netdev_priv s d).

Ltac run := destruct s as [m ks v0 v1 dl]; destruct d, v0, v1; simpl in *; subst.

(** The device after a buffer was taken from its pool. *)
Definition took (next : option addr) (v : priv) : priv :=
  set_ppool next (set_stopped (match next with None => true | Some _ => stopped v end) v).

Lemma get_tx_run a p :
  locked v = false -> ppool v = Some a -> pkts s !! a = Some p ->
  dummeth_get_tx_buffer d s = Ok (Some a, put_priv s d (took (p_next p) v)).
Proof.
  intros Hl Hp Ha. unfold dummeth_get_tx_buffer, spin_lock, get_priv, mod_priv, get_pkt, took.
  run; unfold mbind, ST_bind; simpl; rewrite Ha; by destruct (p_next p).
Qed.

(** An empty pool: the lock is not given back. *)
Lemma get_tx_empty :
  locked v = false -> ppool v = None ->
  dummeth_get_tx_buffer d s = Ok (None, put_priv s d (set_locked true v)).
Proof.
  intros Hl Hp. unfold dummeth_get_tx_buffer, spin_lock, get_priv, mod_priv.
  by run; unfold mbind, ST_bind; simpl.
Qed.

Definition gave (a : addr) (v : priv) : priv :=
  set_ppool (Some a) (set_stopped (match ppool v with None => false | Some _ => stopped v end) v).

Lemma release_run a p :
  pkts s !! a = Some p -> p_dev p = d -> locked v = false ->
  dummeth_release_buffer a s =
  Ok (tt, put_priv (with_pkts s (<[a := set_next (ppool v) p]> (pkts s))) d (gave a v)).
Proof.
  intros Ha Hd Hl. unfold dummeth_release_buffer, gave.
  rewrite (bind_run (get_pkt a) _ s p s) by (unfold get_pkt; by rewrite Ha). rewrite Hd. cbn zeta.
  run; unfold spin_lock, spin_unlock, get_priv, mod_priv, set_pkt, get_pkt, mbind, ST_bind; simpl;
    rewrite Ha; simpl; rewrite lookup_insert_eq; simpl; destruct ppool0, ppool1; try done;
    by destruct stopped0, stopped1.
Qed.

Lemma enqueue_run a p :
  pkts s !! a = Some p -> locked v = false ->
  dummeth_enqueue_buf d a s =
  Ok (tt, put_priv (with_pkts s (<[a := set_next (rx_queue v) p]> (pkts s))) d (set_rx_queue (Some a) v)).
Proof.
  intros Ha Hl. unfold dummeth_enqueue_buf, spin_lock, spin_unlock, get_priv, mod_priv, set_pkt.
  run; unfold mbind, ST_bind; simpl; by rewrite Ha.
Qed.

Lemma dequeue_run a p :
  rx_queue v = Some a -> pkts s !! a = Some p -> locked v = false ->
  dummeth_dequeue_buf d s = Ok (Some a, put_priv s d (set_rx_queue (p_next p) v)).
Proof.
  intros Hq Ha Hl. unfold dummeth_dequeue_buf, spin_lock, spin_unlock, get_priv, mod_priv, get_pkt.
  run; unfold mbind, ST_bind; simpl; by rewrite Ha.
Qed.

(** The device and the socket buffers after the NAPI interrupt handler. *)
Definition rx_pending (v : priv) : bool := negb (Z.land (status v) DUMMETH_RX_INTR =? 0).
Definition tx_pending (v : priv) : bool := negb (Z.land (status v) DUMMETH_TX_INTR =? 0).

Definition napi_handled (v : priv) : priv :=
  mk_priv (if tx_pending v then add_tx (tx_packetlen v) (stats v) else stats v) 0 (ppool v) (rx_queue v)
    (if rx_pending v then false else rx_int_enabled v) (tx_packetlen v)
    (if tx_pending v then None else skb v) (locked v) (stopped v)
    (if rx_pending v && napi_enabled v then true else napi_scheduled v) (napi_enabled v).
Definition skbs_after (v : priv) (ks : gset addr) : gset addr :=
  match skb v with
  | Some k => if tx_pending v then ks ∖ {[k]} else ks
  | None => ks
  end.
Definition with_skbs (s : net) (ks : gset addr) : net :=
  mk_net (pkts s) ks (priv0 s) (priv1 s) (delivered s).

Lemma napi_run :
  locked v = false -> (forall k, skb v = Some k -> k ∈ skbs s) ->
  dummeth_napi_interrupt d s =
  Ok (tt, put_priv (with_skbs s (skbs_after v (skbs s))) d (napi_handled v)).
Proof.
  intros Hl Hk. unfold dummeth_napi_interrupt, napi_handled, skbs_after, rx_pending, tx_pending.
  destruct s as [m ks v0 v1 dl]; destruct d, v0 as [? s0 ? ? ? ? k0 ? ? ? e0], v1 as [? s1 ? ? ? ? k1 ? ? ? e1];
    simpl in *; subst;
    unfold spin_lock, spin_unlock, get_priv, mod_priv, dummeth_rx_ints, napi_schedule, mbind, ST_bind, mret, ST_ret; simpl;
    [destruct (Z.land s1 DUMMETH_RX_INTR =? 0), (Z.land s1 DUMMETH_TX_INTR =? 0), k1 as [k|], e1
    |destruct (Z.land s0 DUMMETH_RX_INTR =? 0), (Z.land s0 DUMMETH_TX_INTR =? 0), k0 as [k|], e0]; simpl; try done;
    unfold dev_kfree_skb; simpl; by rewrite bool_decide_eq_true_2 by auto.
Qed.
End runs.

(** ** Linked lists of buffers *)

Fixpoint chain (m : gmap addr packet) (head : option addr) (l : list addr) : Prop :=
  match l with
  | [] => head = None
  | a :: l' => head = Some a /\ exists p, m !! a = Some p /\ chain m (p_next p) l'
  end.

Section chain.
Context (m : gmap addr packet).

Lemma chain_insert_ne a p h l : a ∉ l -> chain m h l -> chain (<[a := p]> m) h l.
Proof.
  revert h. induction l as [|b l IH]; intros h Hnot; [done|]. apply not_elem_of_cons in Hnot as [? ?].
  intros (-> & q & Hq & Hc). split; [done|]. exists q. rewrite lookup_insert_ne by done. auto.
Qed.

Lemma chain_insert_next a p p' h l :
  m !! a = Some p -> p_next p' = p_next p -> chain m h l -> chain (<[a := p']> m) h l.
Proof.
  intros Ha Hn. revert h. induction l as [|b l IH]; intros h; [done|].
  intros (-> & q & Hq & Hc). split; [done|]. destruct (decide (a = b)) as [->|Hne].
  - rewrite Ha in Hq. injection Hq as <-. exists p'. rewrite lookup_insert_eq, Hn. auto.
  - exists q. rewrite lookup_insert_ne by done. auto.
Qed.

Lemma chain_delete_ne a h l : a ∉ l -> chain m h l -> chain (delete a m) h l.
Proof.
  revert h. induction l as [|b l IH]; intros h Hnot; [done|]. apply not_elem_of_cons in Hnot as [? ?].
  intros (-> & q & Hq & Hc). split; [done|]. exists q. rewrite lookup_delete_ne by done. auto.
Qed.

Lemma chain_none l : chain m None l -> l = [].
Proof. by destruct l as [|a l]; [|intros [? _]]. Qed.

Lemma chain_some a l : chain m (Some a) l ->
  exists l' p, l = a :: l' /\ m !! a = Some p /\ chain m (p_next p) l'.
Proof. destruct l as [|b l']; [done|]. intros ([= ->] & p & ? & ?). eauto. Qed.
End chain.

(** ** The invariant *)

(** Where every buffer is: in the pool of its owner, in the receive queue of the
    other device, or in the hands of the running function. *)
Definition all_bufs (pool rx : devno -> list addr) (fl : list addr) : list addr :=
  pool false ++ pool true ++ rx false ++ rx true ++ fl.
Definition upd (f : devno -> list addr) (d : devno) (l : list addr) : devno -> list addr :=
  fun d' => if Bool.eqb d' d then l else f d'.

(** A buffer sent by the other device, holding a frame. *)
Definition in_flight (m : gmap addr packet) (d : devno) (a : addr) : Prop :=
  exists p, m !! a = Some p /\ p_dev p = negb d /\ 0 <= p_datalen p <= Z.of_nat (length (p_data p)).

Record net_inv (s : net) (pool rx : devno -> list addr) (fl : list addr) : Prop := {
  ni_pool : forall d, chain (pkts s) (ppool (netdev_priv s d)) (pool d);
  ni_rx : forall d, chain (pkts s) (rx_queue (netdev_priv s d)) (rx d);
  ni_nodup : NoDup (all_bufs pool rx fl);
  ni_dom : forall a, is_Some (pkts s !! a) <-> a ∈ all_bufs pool rx fl;
  ni_own : forall d a, a ∈ pool d -> exists p, pkts s !! a = Some p /\ p_dev p = d;
  ni_from : forall d a, a ∈ rx d -> in_flight (pkts s) d a;
}.

Definition unlocked (s : net) : Prop := forall d, locked (netdev_priv s d) = false.
(** An empty pool means a stopped queue. *)
Definition stop_inv (s : net) (pool : devno -> list addr) : Prop :=
  forall d, pool d = [] -> stopped (netdev_priv s d) = true.
(** The socket buffers the devices still have to free are live, and different. *)
Definition skb_inv (s : net) : Prop :=
  (forall d k, skb (netdev_priv s d) = Some k -> k ∈ skbs s) /\
  (forall k, skb (priv0 s) = Some k -> skb (priv1 s) <> Some k).

Lemma netdev_put s d v d' :
  netdev_priv (put_priv s d v) d' = if Bool.eqb d' d then v else netdev_priv s d'.
Proof. by destruct d, d'. Qed.
Lemma pkts_put s d v : pkts (put_priv s d v) = pkts s.
Proof. by destruct d. Qed.
Lemma skbs_put s d v : skbs (put_priv s d v) = skbs s.
Proof. by destruct d. Qed.
Lemma netdev_pkts s m d : netdev_priv (with_pkts s m) d = netdev_priv s d.
Proof. by destruct d. Qed.
Lemma netdev_skbs s ks d : netdev_priv (with_skbs s ks) d = netdev_priv s d.
Proof. by destruct d. Qed.
Lemma delivered_put s d v : delivered (put_priv s d v) = delivered s.
Proof. by destruct d. Qed.

Lemma all_pool_pop pool rx fl d a l :
  pool d = a :: l -> all_bufs pool rx fl ≡ₚ all_bufs (upd pool d l) rx (a :: fl).
Proof. intros H. unfold all_bufs, upd. destruct d; simpl; rewrite H; solve_Permutation. Qed.
Lemma all_rx_pop pool rx fl d a l :
  rx d = a :: l -> all_bufs pool rx fl ≡ₚ all_bufs pool (upd rx d l) (a :: fl).
Proof. intros H. unfold all_bufs, upd. destruct d; simpl; rewrite H; solve_Permutation. Qed.
Lemma all_pool_push pool rx fl d a :
  all_bufs pool rx (a :: fl) ≡ₚ all_bufs (upd pool d (a :: pool d)) rx fl.
Proof. unfold all_bufs, upd. destruct d; simpl; solve_Permutation. Qed.
Lemma all_rx_push pool rx fl d a :
  all_bufs pool rx (a :: fl) ≡ₚ all_bufs pool (upd rx d (a :: rx d)) fl.
Proof. unfold all_bufs, upd. destruct d; simpl; solve_Permutation. Qed.

Lemma in_all pool rx fl d :
  (forall a, a ∈ pool d -> a ∈ all_bufs pool rx fl) /\ (forall a, a ∈ rx d -> a ∈ all_bufs pool rx fl).
Proof. unfold all_bufs. destruct d; set_solver. Qed.

(** A buffer in hand is in no list. *)
Lemma in_hand_apart pool rx fl a d :
  NoDup (all_bufs pool rx (a :: fl)) -> (a ∉ pool d) /\ (a ∉ rx d).
Proof.
  rewrite (all_pool_push _ _ _ d). intros Hnd.
  assert (all_bufs (upd pool d (a :: pool d)) rx fl ≡ₚ a :: all_bufs pool rx fl) as Hp
    by (unfold all_bufs, upd; destruct d; simpl; solve_Permutation).
  rewrite Hp in Hnd. apply NoDup_cons in Hnd as [Hnot _].
  pose proof (in_all pool rx fl d) as [H1 H2]. split; intros Hin; apply Hnot; auto.
Qed.

Section inv.
Context (s : net) (pool rx : devno -> list addr) (fl : list addr) (d : devno).

(** Changes of a device that keep its lists keep the invariant. *)
Lemma inv_priv v :
  net_inv s pool rx fl -> ppool v = ppool (netdev_priv s d) -> rx_queue v = rx_queue (netdev_priv s d) ->
  net_inv (put_priv s d v) pool rx fl.
Proof.
  intros [H1 H2 H3 H4 H5 H6] Hp Hr. split; rewrite ?pkts_put; auto; intros d'; rewrite netdev_put;
    destruct (Bool.eqb d' d) eqn:E; auto; apply Bool.eqb_prop in E; subst; [rewrite Hp | rewrite Hr]; auto.
Qed.

Lemma inv_skbs ks : net_inv s pool rx fl -> net_inv (with_skbs s ks) pool rx fl.
Proof.
  intros [H1 H2 H3 H4 H5 H6]. split; auto; intros d'; rewrite netdev_skbs; auto.
Qed.

Lemma inv_take a l p :
  net_inv s pool rx fl -> pool d = a :: l -> pkts s !! a = Some p ->
  net_inv (put_priv s d (took (p_next p) (netdev_priv s d))) (upd pool d l) rx (a :: fl).
Proof.
  intros [H1 H2 H3 H4 H5 H6] Hl Ha. pose proof (H1 d) as Hc. rewrite Hl in Hc.
  destruct Hc as (_ & p' & Ha' & Hc). rewrite Ha in Ha'. injection Ha' as <-.
  split; rewrite ?pkts_put; auto.
  - intros d'. rewrite netdev_put. unfold upd. destruct (Bool.eqb d' d) eqn:E; auto.
  - intros d'. rewrite netdev_put. destruct (Bool.eqb d' d) eqn:E; auto. apply Bool.eqb_prop in E. subst. apply (H2 d).
  - by rewrite <- (all_pool_pop pool rx fl d a l).
  - intros b. by rewrite <- (all_pool_pop pool rx fl d a l).
  - intros d' b. unfold upd. destruct (Bool.eqb d' d) eqn:E; auto. apply Bool.eqb_prop in E. subst.
    intros Hb. apply H5. rewrite Hl. by right.
Qed.

Lemma inv_dequeue a l p :
  net_inv s pool rx fl -> rx d = a :: l -> pkts s !! a = Some p ->
  net_inv (put_priv s d (set_rx_queue (p_next p) (netdev_priv s d))) pool (upd rx d l) (a :: fl).
Proof.
  intros [H1 H2 H3 H4 H5 H6] Hl Ha. pose proof (H2 d) as Hc. rewrite Hl in Hc.
  destruct Hc as (_ & p' & Ha' & Hc). rewrite Ha in Ha'. injection Ha' as <-.
  split; rewrite ?pkts_put; auto.
  - intros d'. rewrite netdev_put. destruct (Bool.eqb d' d) eqn:E; auto. apply Bool.eqb_prop in E. subst. apply (H1 d).
  - intros d'. rewrite netdev_put. unfold upd. destruct (Bool.eqb d' d) eqn:E; auto.
  - by rewrite <- (all_rx_pop pool rx fl d a l).
  - intros b. by rewrite <- (all_rx_pop pool rx fl d a l).
  - intros d' b. unfold upd. destruct (Bool.eqb d' d) eqn:E; auto. apply Bool.eqb_prop in E. subst.
    intros Hb. apply H6. rewrite Hl. by right.
Qed.
End inv.

Section inv_hand.
Context (s : net) (pool rx : devno -> list addr) (fl : list addr) (d : devno) (a : addr) (p : packet).
Context (Hinv : net_inv s pool rx (a :: fl)) (Ha : pkts s !! a = Some p).

Lemma hand_lookup b p' : b <> a -> (<[a := p']> (pkts s)) !! b = pkts s !! b.
Proof. intros. by rewrite lookup_insert_ne. Qed.

(** Writing to a buffer in hand. *)
Lemma inv_write p' : net_inv (with_pkts s (<[a := p']> (pkts s))) pool rx (a :: fl).
Proof.
  destruct Hinv as [H1 H2 H3 H4 H5 H6]. pose proof (in_hand_apart _ _ _ _ false H3) as [? ?].
  pose proof (in_hand_apart _ _ _ _ true H3) as [? ?].
  assert (forall d', (a ∉ pool d') /\ (a ∉ rx d')) as Hap by (intros []; auto).
  split; auto; simpl.
  - intros d'. rewrite netdev_pkts. apply chain_insert_ne; [apply Hap | auto].
  - intros d'. rewrite netdev_pkts. apply chain_insert_ne; [apply Hap | auto].
  - intros b. destruct (decide (b = a)) as [->|Hne]; [rewrite lookup_insert_eq|rewrite hand_lookup by done; auto].
    split; [intros _; rewrite <- H4; eauto|eauto].
  - intros d' b Hb. destruct (decide (b = a)) as [->|Hne]; [by destruct (Hap d')|].
    rewrite hand_lookup by done. auto.
  - intros d' b Hb. unfold in_flight. destruct (decide (b = a)) as [->|Hne]; [by destruct (Hap d')|].
    rewrite hand_lookup by done. by apply H6.
Qed.

Lemma inv_release :
  p_dev p = d ->
  net_inv (put_priv (with_pkts s (<[a := set_next (ppool (netdev_priv s d)) p]> (pkts s))) d
             (gave a (netdev_priv s d))) (upd pool d (a :: pool d)) rx fl.
Proof.
  intros Hd. set (p' := set_next _ p). pose proof (inv_write p') as [H1 H2 H3 H4 H5 H6].
  simpl in H1, H2, H4, H5, H6.
  assert (forall d', netdev_priv (put_priv (with_pkts s (<[a := p']> (pkts s))) d (gave a (netdev_priv s d))) d'
    = if Bool.eqb d' d then gave a (netdev_priv s d) else netdev_priv s d') as Hnd
    by (intros; rewrite netdev_put, netdev_pkts; done).
  split; rewrite ?pkts_put; cbn [pkts with_pkts].
  - intros d'. rewrite Hnd. unfold upd. destruct (Bool.eqb d' d) eqn:E; [|by rewrite <- (netdev_pkts s (<[a:=p']> (pkts s)))].
    simpl. split; [done|]. exists p'. rewrite lookup_insert_eq. split; [done|]. specialize (H1 d). by rewrite netdev_pkts in H1.
  - intros d'. rewrite Hnd. specialize (H2 d'). rewrite netdev_pkts in H2.
    destruct (Bool.eqb d' d) eqn:E; [apply Bool.eqb_prop in E; subst d'|]; done.
  - by rewrite <- all_pool_push.
  - intros b. by rewrite <- all_pool_push.
  - intros d' b. unfold upd. destruct (Bool.eqb d' d) eqn:E; [|apply H5].
    apply Bool.eqb_prop in E. subst d'. intros [->|Hb]%elem_of_cons; [|by apply H5].
    exists p'. rewrite lookup_insert_eq. by split.
  - apply H6.
Qed.

Lemma inv_enqueue :
  p_dev p = negb d -> 0 <= p_datalen p <= Z.of_nat (length (p_data p)) ->
  net_inv (put_priv (with_pkts s (<[a := set_next (rx_queue (netdev_priv s d)) p]> (pkts s))) d
             (set_rx_queue (Some a) (netdev_priv s d))) pool (upd rx d (a :: rx d)) fl.
Proof.
  intros Hd Hlen. set (p' := set_next _ p). pose proof (inv_write p') as [H1 H2 H3 H4 H5 H6].
  simpl in H1, H2, H4, H5, H6.
  assert (forall d', netdev_priv (put_priv (with_pkts s (<[a := p']> (pkts s))) d (set_rx_queue (Some a) (netdev_priv s d))) d'
    = if Bool.eqb d' d then set_rx_queue (Some a) (netdev_priv s d) else netdev_priv s d') as Hnd
    by (intros; rewrite netdev_put, netdev_pkts; done).
  split; rewrite ?pkts_put; cbn [pkts with_pkts].
  - intros d'. rewrite Hnd. specialize (H1 d'). rewrite netdev_pkts in H1.
    destruct (Bool.eqb d' d) eqn:E; [apply Bool.eqb_prop in E; subst d'|]; done.
  - intros d'. rewrite Hnd. unfold upd. destruct (Bool.eqb d' d) eqn:E; [|by rewrite <- (netdev_pkts s (<[a:=p']> (pkts s)))].
    simpl. split; [done|]. exists p'. rewrite lookup_insert_eq. split; [done|]. specialize (H2 d). by rewrite netdev_pkts in H2.
  - by rewrite <- all_rx_push.
  - intros b. by rewrite <- all_rx_push.
  - apply H5.
  - intros d' b. unfold upd. destruct (Bool.eqb d' d) eqn:E; [|apply H6].
    apply Bool.eqb_prop in E. subst d'. intros [->|Hb]%elem_of_cons; [|by apply H6].
    exists p'. rewrite lookup_insert_eq. by split.
Qed.
End inv_hand.

(** ** The invariants together

    Between two operations no buffer is in hand. *)
Record good (s : net) (pool rx : devno -> list addr) (fl : list addr) : Prop := {
  g_inv : net_inv s pool rx fl;
  g_unlocked : unlocked s;
  g_stop : stop_inv s pool;
  g_skb : skb_inv s;
}.

(** The frame in a buffer. *)
Definition frame_in (m : gmap addr packet) (a : addr) : list Z :=
  match m !! a with
  | Some p => take (Z.to_nat (p_datalen p)) (p_data p)
  | None => []
  end.

Definition with_delivered (s : net) (l : list (devno * list Z)) : net :=
  mk_net (pkts s) (skbs s) (priv0 s) (priv1 s) (delivered s ++ l).
Lemma netdev_delivered s l d : netdev_priv (with_delivered s l) d = netdev_priv s d.
Proof. by destruct d. Qed.

Lemma inv_delivered s l pool rx fl : net_inv s pool rx fl -> net_inv (with_delivered s l) pool rx fl.
Proof. intros [H1 H2 H3 H4 H5 H6]. split; auto; intros d'; rewrite netdev_delivered; auto. Qed.

(** Giving back a received buffer restores the state between operations. *)
Lemma release_good s pool rx d a p :
  net_inv s pool rx [a] -> unlocked s -> stop_inv s pool -> skb_inv s ->
  pkts s !! a = Some p -> p_dev p = d ->
  exists s', dummeth_release_buffer a s = Ok (tt, s') /\ good s' (upd pool d (a :: pool d)) rx [] /\
    (forall b, frame_in (pkts s') b = frame_in (pkts s) b) /\ delivered s' = delivered s /\
    (forall d', stats (netdev_priv s' d') = stats (netdev_priv s d')).
Proof.
  intros Hinv Hun Hst Hskb Ha Hd. eexists. split; [by apply release_run|].
  assert (forall d' v', netdev_priv (put_priv (with_pkts s v') d (gave a (netdev_priv s d))) d'
    = if Bool.eqb d' d then gave a (netdev_priv s d) else netdev_priv s d') as Hnd
    by (intros; rewrite netdev_put, netdev_pkts; done).
  split; [split|].
  - by apply inv_release.
  - intros d'. rewrite Hnd. destruct (Bool.eqb d' d); [apply (Hun d)|apply Hun].
  - intros d'. rewrite Hnd. unfold upd. destruct (Bool.eqb d' d) eqn:E; [done|apply Hst].
  - destruct Hskb as [Hk1 Hk2]. split.
    + intros d' k. rewrite Hnd, skbs_put. destruct (Bool.eqb d' d) eqn:E; [apply (Hk1 d)|apply Hk1].
    + destruct d; exact Hk2.
  - split_and!.
    + intros b. rewrite pkts_put. unfold frame_in. simpl. destruct (decide (a = b)) as [->|Hne].
      * rewrite lookup_insert_eq, Ha. done.
      * by rewrite lookup_insert_ne.
    + by rewrite delivered_put.
    + intros d'. rewrite Hnd. destruct (Bool.eqb d' d) eqn:E; [|done]. apply Bool.eqb_prop in E. by subst.
Qed.

(** The frames for which an allocation succeeded, from packet [n] on. *)
Fixpoint accepted (alloc_ok : nat -> bool) (n : nat) (fs : list (list Z)) : list (list Z) :=
  match fs with
  | [] => []
  | f :: fs' => if alloc_ok n then f :: accepted alloc_ok (S n) fs' else accepted alloc_ok (S n) fs'
  end.

(** The parts of a state the control invariants talk about. *)
Definition same_ctrl (s s' : net) : Prop :=
  skbs s' = skbs s /\
  forall d, locked (netdev_priv s' d) = locked (netdev_priv s d) /\
    stopped (netdev_priv s' d) = stopped (netdev_priv s d) /\
    skb (netdev_priv s' d) = skb (netdev_priv s d).

Lemma ctrl_inv s s' pool :
  same_ctrl s s' -> unlocked s -> stop_inv s pool -> skb_inv s ->
  unlocked s' /\ stop_inv s' pool /\ skb_inv s'.
Proof.
  intros [Hks Hc] Hun Hst [Hk1 Hk2]. split_and!.
  - intros d. destruct (Hc d) as (-> & _). apply Hun.
  - intros d. destruct (Hc d) as (_ & -> & _). apply Hst.
  - split.
    + intros d k. destruct (Hc d) as (_ & _ & ->). rewrite Hks. apply Hk1.
    + intros k. destruct (Hc false) as (_ & _ & H0), (Hc true) as (_ & _ & H1). simpl in *.
      rewrite H0, H1. apply Hk2.
Qed.

Lemma ctrl_put s d v :
  locked v = locked (netdev_priv s d) -> stopped v = stopped (netdev_priv s d) ->
  skb v = skb (netdev_priv s d) -> same_ctrl s (put_priv s d v).
Proof.
  intros. split; [apply skbs_put|]. intros d'. rewrite netdev_put.
  destruct (Bool.eqb d' d) eqn:E; [apply Bool.eqb_prop in E; subst d'|]; auto.
Qed.

Lemma ctrl_trans s1 s2 s3 : same_ctrl s1 s2 -> same_ctrl s2 s3 -> same_ctrl s1 s3.
Proof.
  intros [H1 H2] [H3 H4]. split; [congruence|]. intros d.
  destruct (H2 d) as (? & ? & ?), (H4 d) as (? & ? & ?). split_and!; congruence.
Qed.

Lemma ctrl_delivered s l : same_ctrl s (with_delivered s l).
Proof. split; [done|]. intros d. by rewrite netdev_delivered. Qed.

(** One round of the polling loop. *)
Lemma poll_round alloc d budget n s pool rx a l :
  good s pool rx [] -> rx d = a :: l ->
  exists s' pool', poll_loop alloc d (S budget) n s = poll_loop alloc d budget (S n) s' /\
    good s' pool' (upd rx d l) [] /\ (forall b, frame_in (pkts s') b = frame_in (pkts s) b) /\
    delivered s' = delivered s ++ (pair d <$> accepted alloc n [frame_in (pkts s) a]).
Proof.
  intros [Hinv Hun Hst Hskb] Hrx.
  destruct (ni_from _ _ _ _ Hinv d a) as (p & Ha & Hdev & Hlen); [rewrite Hrx; left|].
  pose proof (ni_rx _ _ _ _ Hinv d) as Hc. rewrite Hrx in Hc. destruct Hc as (Hq & _).
  set (s1 := put_priv s d (set_rx_queue (p_next p) (netdev_priv s d))).
  assert (net_inv s1 pool (upd rx d l) [a]) as Hinv1 by (by apply inv_dequeue).
  assert (same_ctrl s s1) as Hc1 by (by apply ctrl_put).
  assert (pkts s1 !! a = Some p) as Ha1 by (unfold s1; by rewrite pkts_put).
  assert (frame_in (pkts s) a = take (Z.to_nat (p_datalen p)) (p_data p)) as Hf
    by (unfold frame_in; by rewrite Ha).
  cbn [poll_loop].
  rewrite (bind_run (get_priv d) _ s (netdev_priv s d) s eq_refl). rewrite Hq.
  rewrite (bind_run _ _ _ _ _ (dequeue_run s d a p Hq Ha (Hun d))). fold s1.
  rewrite (bind_run (get_pkt a) _ s1 p s1) by (unfold get_pkt; by rewrite Ha1).
  cbn [accepted]. destruct (alloc n); simpl.
  - assert (pkt_bytes p s1 = Ok (frame_in (pkts s) a, s1)) as Hb.
    { unfold pkt_bytes. destruct (_ <? _) eqn:E; [lia|]. by rewrite Hf. }
    rewrite (bind_run _ _ _ _ _ Hb).
    set (s2 := with_delivered s1 [(d, frame_in (pkts s) a)]).
    rewrite (bind_run (netif_rx d _) _ s1 tt s2 eq_refl).
    set (s3 := put_priv s2 d (set_stats (add_rx (p_datalen p)) (netdev_priv s2 d))).
    rewrite (bind_run (mod_priv d _) _ s2 tt s3 eq_refl).
    assert (same_ctrl s s3) as Hc3.
    { eapply ctrl_trans; [exact Hc1|]. eapply ctrl_trans; [apply ctrl_delivered|]. by apply ctrl_put. }
    destruct (ctrl_inv s s3 pool Hc3 Hun Hst Hskb) as (Hun3 & Hst3 & Hskb3).
    destruct (release_good s3 pool (upd rx d l) (negb d) a p) as (s4 & Hrun & Hgood & Hfr & Hdel & _); auto.
    + apply inv_priv; auto. by apply inv_delivered.
    + unfold s3. by rewrite pkts_put.
    + rewrite (bind_run _ _ _ _ _ Hrun). eexists _, _. split; [done|]. split; [done|]. split.
      * intros b. rewrite Hfr. unfold s3. rewrite pkts_put. unfold s2, s1. cbn [pkts with_delivered].
        by rewrite pkts_put.
      * rewrite Hdel. unfold s3. rewrite delivered_put. simpl. unfold s1. by rewrite delivered_put.
  - set (s3 := put_priv s1 d (set_stats add_dropped (netdev_priv s1 d))).
    rewrite (bind_run (mod_priv d _) _ s1 tt s3 eq_refl).
    assert (same_ctrl s s3) as Hc3 by (eapply ctrl_trans; [exact Hc1|by apply ctrl_put]).
    destruct (ctrl_inv s s3 pool Hc3 Hun Hst Hskb) as (Hun3 & Hst3 & Hskb3).
    destruct (release_good s3 pool (upd rx d l) (negb d) a p) as (s4 & Hrun & Hgood & Hfr & Hdel & _); auto.
    + by apply inv_priv.
    + unfold s3. by rewrite pkts_put.
    + rewrite (bind_run _ _ _ _ _ Hrun). eexists _, _. split; [done|]. split; [done|]. split.
      * intros b. rewrite Hfr. unfold s3, s1. by rewrite !pkts_put.
      * rewrite Hdel. unfold s3, s1. rewrite !delivered_put. by rewrite app_nil_r.
Qed.

Lemma inv_ext s pool pool' rx rx' fl :
  (forall d, pool d = pool' d) -> (forall d, rx d = rx' d) ->
  net_inv s pool rx fl -> net_inv s pool' rx' fl.
Proof.
  intros Hp Hr [H1 H2 H3 H4 H5 H6].
  assert (all_bufs pool' rx' fl = all_bufs pool rx fl) as Hall by (unfold all_bufs; by rewrite !Hp, !Hr).
  split; rewrite ?Hall; auto.
  - intros d. by rewrite <- Hp.
  - intros d. by rewrite <- Hr.
  - intros d b. rewrite <- Hp. apply H5.
  - intros d b. rewrite <- Hr. apply H6.
Qed.

Lemma good_ext s pool pool' rx rx' fl :
  (forall d, pool d = pool' d) -> (forall d, rx d = rx' d) ->
  good s pool rx fl -> good s pool' rx' fl.
Proof.
  intros Hp Hr [Hinv Hun Hst Hk]. split; auto; [by eapply inv_ext|].
  intros d. rewrite <- Hp. apply Hst.
Qed.

Lemma upd_same f d d' : upd f d (f d) d' = f d'.
Proof. unfold upd. destruct (Bool.eqb d' d) eqn:E; [|done]. apply Bool.eqb_prop in E. by subst. Qed.
Lemma upd_eq f d l : upd f d l d = l.
Proof. unfold upd. by rewrite Bool.eqb_reflx. Qed.
Lemma upd_upd f d l l' d' : upd (upd f d l) d l' d' = upd f d l' d'.
Proof. unfold upd. by destruct (Bool.eqb d' d). Qed.

Lemma accepted_cons alloc n f fs :
  accepted alloc n (f :: fs) = accepted alloc n [f] ++ accepted alloc (S n) fs.
Proof. simpl. by destruct (alloc n). Qed.

Lemma poll_loop_good alloc d budget : forall n s pool rx,
  good s pool rx [] ->
  exists s' pool', poll_loop alloc d budget n s = Ok ((n + Nat.min budget (length (rx d)))%nat, s') /\
    good s' pool' (upd rx d (drop budget (rx d))) [] /\
    (forall b, frame_in (pkts s') b = frame_in (pkts s) b) /\
    delivered s' = delivered s ++
      (pair d <$> accepted alloc n (frame_in (pkts s) <$> take budget (rx d))).
Proof.
  induction budget as [|budget IH]; intros n s pool rx Hg.
  { exists s, pool. split; [simpl; by rewrite Nat.add_0_r|]. split_and!; auto; [|by rewrite app_nil_r].
    eapply good_ext; [done| |exact Hg]. intros d'. unfold upd. destruct (Bool.eqb d' d) eqn:E; [|done].
    apply Bool.eqb_prop in E. by subst. }
  destruct (rx d) as [|a l] eqn:Hrx.
  - exists s, pool. split.
    { pose proof (ni_rx _ _ _ _ (g_inv _ _ _ _ Hg) d) as Hc. rewrite Hrx in Hc. simpl in Hc.
      cbn [poll_loop]. rewrite (bind_run (get_priv d) _ s (netdev_priv s d) s eq_refl), Hc.
      simpl. by rewrite Nat.add_0_r. }
    split_and!; auto; [|by rewrite app_nil_r]. eapply good_ext; [done| |exact Hg].
    intros d'. unfold upd. destruct (Bool.eqb d' d) eqn:E; [|done]. apply Bool.eqb_prop in E. by subst.
  - destruct (poll_round alloc d budget n s pool rx a l Hg Hrx) as (s1 & pool1 & -> & Hg1 & Hf1 & Hd1).
    destruct (IH (S n) s1 pool1 (upd rx d l) Hg1) as (s2 & pool2 & -> & Hg2 & Hf2 & Hd2).
    assert (upd rx d l d = l) as Hl by (unfold upd; by rewrite Bool.eqb_reflx). rewrite Hl in *.
    exists s2, pool2. split; [do 2 f_equal; simpl; lia|]. split_and!.
    + eapply good_ext; [done| |exact Hg2]. intros d'. unfold upd. by destruct (Bool.eqb d' d).
    + intros b. by rewrite Hf2, Hf1.
    + assert (frame_in (pkts s1) <$> take budget l = frame_in (pkts s) <$> take budget l) as Hfs
        by (apply list_fmap_ext; intros; apply Hf1).
      rewrite Hd2, Hd1, Hfs. cbn [take].
      rewrite fmap_cons, (accepted_cons _ n _ (_ <$> _)), fmap_app. by rewrite <- app_assoc.
Qed.

(** The NAPI interrupt handler keeps the invariants. *)
Lemma napi_good s pool rx fl d :
  good s pool rx fl ->
  exists s', dummeth_napi_interrupt d s = Ok (tt, s') /\ good s' pool rx fl /\
    pkts s' = pkts s /\ delivered s' = delivered s /\
    netdev_priv s' (negb d) = netdev_priv s (negb d) /\
    netdev_priv s' d = napi_handled (netdev_priv s d) /\
    (forall k, skb (netdev_priv s (negb d)) = Some k -> k ∈ skbs s').
Proof.
  intros [Hinv Hun Hst [Hk1 Hk2]]. eexists. split; [apply napi_run; [apply Hun | apply Hk1]|].
  assert (forall k, skb (netdev_priv s (negb d)) = Some k ->
    k ∈ skbs_after (netdev_priv s d) (skbs s)) as Hother.
  { intros k Hk. unfold skbs_after. pose proof (Hk1 _ _ Hk).
    destruct (skb (netdev_priv s d)) as [k'|] eqn:E; [|done]. destruct (tx_pending _); [|done].
    assert (k <> k'); [|set_solver]. intros ->. destruct d; simpl in *; [by apply (Hk2 k')|by apply (Hk2 k')]. }
  split; [split|].
  - apply inv_priv; [by apply inv_skbs|by rewrite netdev_skbs..].
  - intros d'. rewrite netdev_put, netdev_skbs. destruct (Bool.eqb d' d); [apply (Hun d)|apply Hun].
  - intros d'. rewrite netdev_put, netdev_skbs. destruct (Bool.eqb d' d) eqn:E; [|apply Hst].
    apply Bool.eqb_prop in E. subst. apply Hst.
  - split.
    + intros d' k. rewrite netdev_put, netdev_skbs, skbs_put. simpl.
      destruct (Bool.eqb d' d) eqn:E.
      * unfold napi_handled, skbs_after. simpl. destruct (tx_pending _); [done|]. intros Hk. rewrite Hk. eauto.
      * intros Hk. apply Hother. by destruct d, d'.
    + intros k. unfold napi_handled. destruct d; simpl; destruct (tx_pending _); simpl; auto; done.
  - rewrite pkts_put, delivered_put, !netdev_put, !netdev_skbs, skbs_put, Bool.eqb_reflx.
    split_and!; auto. by destruct d.
Qed.

Lemma take_good s pool rx fl d a l :
  good s pool rx fl -> pool d = a :: l ->
  exists s', dummeth_get_tx_buffer d s = Ok (Some a, s') /\ good s' (upd pool d l) rx (a :: fl) /\
    pkts s' = pkts s /\ delivered s' = delivered s.
Proof.
  intros [Hinv Hun Hst Hskb] Hl. pose proof (ni_pool _ _ _ _ Hinv d) as Hc. rewrite Hl in Hc.
  destruct Hc as (Hp & p & Ha & Hc). eexists. split; [by apply get_tx_run|].
  split; [split|by rewrite pkts_put, delivered_put].
  - by apply inv_take.
  - intros d'. rewrite netdev_put. destruct (Bool.eqb d' d); [apply (Hun d)|apply Hun].
  - intros d'. rewrite netdev_put. unfold upd. destruct (Bool.eqb d' d) eqn:E; [|apply Hst].
    intros ->. simpl in Hc. simpl. by rewrite Hc.
  - destruct Hskb as [Hk1 Hk2]. split.
    + intros d' k. rewrite netdev_put, skbs_put. destruct (Bool.eqb d' d); [apply (Hk1 d)|apply Hk1].
    + destruct d; exact Hk2.
Qed.

Lemma write_good s pool rx fl a p p' :
  good s pool rx (a :: fl) -> pkts s !! a = Some p ->
  good (with_pkts s (<[a := p']> (pkts s))) pool rx (a :: fl).
Proof.
  intros [Hinv Hun Hst [Hk1 Hk2]] Ha. split; [by eapply inv_write| | |split; [|done]];
    intros d'; rewrite netdev_pkts; [apply Hun | apply Hst | apply Hk1].
Qed.

Lemma enqueue_good s pool rx fl d a p :
  good s pool rx (a :: fl) -> pkts s !! a = Some p -> p_dev p = negb d ->
  0 <= p_datalen p <= Z.of_nat (length (p_data p)) ->
  exists s', dummeth_enqueue_buf d a s = Ok (tt, s') /\ good s' pool (upd rx d (a :: rx d)) fl /\
    (forall b, frame_in (pkts s') b = frame_in (pkts s) b) /\ delivered s' = delivered s.
Proof.
  intros [Hinv Hun Hst Hskb] Ha Hdev Hlen. eexists. split; [exact (enqueue_run s d a p Ha (Hun d))|].
  assert (same_ctrl s (put_priv (with_pkts s (<[a := set_next (rx_queue (netdev_priv s d)) p]> (pkts s))) d
    (set_rx_queue (Some a) (netdev_priv s d)))) as Hc.
  { split; [by rewrite skbs_put|]. intros d'. rewrite netdev_put, netdev_pkts.
    destruct (Bool.eqb d' d) eqn:E; [apply Bool.eqb_prop in E; by subst|done]. }
  destruct (ctrl_inv _ _ pool Hc Hun Hst Hskb) as (? & ? & ?).
  split; [split; auto; by apply inv_enqueue|]. split; [|by rewrite delivered_put].
  intros b. rewrite pkts_put. unfold frame_in. simpl. destruct (decide (a = b)) as [->|Hne].
  - by rewrite lookup_insert_eq, Ha.
  - by rewrite lookup_insert_ne.
Qed.

(** Changes of a device that touch neither lists nor lock nor socket buffer. *)
Lemma priv_good s pool rx fl d f :
  good s pool rx fl -> (forall v, ppool (f v) = ppool v /\ rx_queue (f v) = rx_queue v /\
    locked (f v) = locked v /\ skb (f v) = skb v /\ (stopped v = true -> stopped (f v) = true)) ->
  good (put_priv s d (f (netdev_priv s d))) pool rx fl.
Proof.
  intros [Hinv Hun Hst [Hk1 Hk2]] Hf. destruct (Hf (netdev_priv s d)) as (Hp & Hr & Hl & Hk & Hs).
  split; [by apply inv_priv|..|split].
  - intros d'. rewrite netdev_put. destruct (Bool.eqb d' d); [rewrite Hl; apply Hun|apply Hun].
  - intros d'. rewrite netdev_put. destruct (Bool.eqb d' d) eqn:E; [|apply Hst].
    apply Bool.eqb_prop in E. subst. intros Hd. by apply Hs, Hst.
  - intros d' k. rewrite netdev_put, skbs_put. destruct (Bool.eqb d' d); [rewrite Hk; apply Hk1|apply Hk1].
  - intros k. destruct d; simpl in *; rewrite Hk; apply Hk2.
Qed.

Lemma length_mangle csum buf : (34 <= length buf)%nat -> length (mangle csum buf) = length buf.
Proof.
  intros Hlen. unfold mangle, clear_check, flip_addresses.
  assert (length (splice 24 [0; 0] (<[32%nat := Z.lxor (byte buf 32) 1]> (<[28%nat := Z.lxor (byte buf 28) 1]> buf)))
    = length buf) as H by (rewrite length_splice; rewrite !length_insert; simpl; lia).
  rewrite length_splice; rewrite ?H; [done|]. simpl. lia.
Qed.

(** The frame a device puts on the wire for a given socket buffer. *)
Definition padded (data : list Z) : list Z :=
  data ++ replicate (Z.to_nat (ETH_ZLEN - Z.of_nat (length data))) 0.

Lemma length_frame_padded data :
  Z.of_nat (length (padded data)) = Z.max ETH_ZLEN (Z.of_nat (length data)).
Proof. unfold padded, ETH_ZLEN. rewrite length_app, length_replicate. lia. Qed.

Section transmit_good.
Context (lockup : Z) (csum : list Z -> Z -> Z) (alloc_ok : bool).

(** The two simulated interrupts at the end of a transmission. *)
Lemma signals_good s pool rx len v d :
  good s pool rx [] ->
  exists s',
    ((if rx_int_enabled v then
        mod_priv (negb d) (fun v => set_status (Z.lor (status v) DUMMETH_RX_INTR) v);;
        dummeth_interrupt true alloc_ok (negb d)
      else mret tt);;
     mod_priv d (fun v => set_status (Z.lor (status v) DUMMETH_TX_INTR) (set_txlen len v));;
     w ← get_priv d;
     if negb (lockup =? 0) && (Z.rem (u64 (tx_packets (stats w) + 1)) lockup =? 0)
     then mod_priv d (set_stopped true)
     else dummeth_interrupt true alloc_ok d) s = Ok (tt, s') /\
    good s' pool rx [] /\ pkts s' = pkts s /\ delivered s' = delivered s.
Proof.
  intros Hg. unfold dummeth_interrupt.
  assert (exists s1, (if rx_int_enabled v then
        mod_priv (negb d) (fun v => set_status (Z.lor (status v) DUMMETH_RX_INTR) v);;
        dummeth_napi_interrupt (negb d)
      else mret tt) s = Ok (tt, s1) /\ good s1 pool rx [] /\ pkts s1 = pkts s /\ delivered s1 = delivered s)
    as (s1 & Hrun1 & Hg1 & Hp1 & Hd1).
  { destruct (rx_int_enabled v); [|by exists s].
    pose proof (priv_good s pool rx [] (negb d)
      (fun v => set_status (Z.lor (status v) DUMMETH_RX_INTR) v) Hg ltac:(done)) as Hg0.
    destruct (napi_good _ _ _ _ (negb d) Hg0) as (s1 & Hrun & Hg1 & Hp & Hd & _).
    exists s1. split; [|by rewrite Hp, Hd, pkts_put, delivered_put].
    by rewrite (bind_run (mod_priv (negb d) _) _ s tt _ eq_refl). }
  rewrite (bind_run _ _ _ _ _ Hrun1).
  set (f := fun v => set_status (Z.lor (status v) DUMMETH_TX_INTR) (set_txlen len v)).
  rewrite (bind_run (mod_priv d f) _ s1 tt _ eq_refl).
  pose proof (priv_good s1 pool rx [] d f Hg1 ltac:(done)) as Hg2. set (s2 := put_priv s1 d _) in *.
  rewrite (bind_run (get_priv d) _ s2 _ s2 eq_refl).
  destruct (_ && _).
  - eexists. split; [reflexivity|]. split; [by apply (priv_good s2 pool rx [] d (set_stopped true) Hg2)|].
    unfold s2. by rewrite !pkts_put, !delivered_put.
  - destruct (napi_good _ _ _ _ d Hg2) as (s3 & Hrun & Hg3 & Hp & Hd & _).
    exists s3. split; [done|]. split; [done|]. rewrite Hp, Hd. unfold s2. by rewrite pkts_put, delivered_put.
Qed.

Lemma hw_tx_good s pool rx d a l buf :
  good s pool rx [] -> pool d = a :: l -> (34 <= length buf)%nat -> Z.of_nat (length buf) <= ETH_DATA_LEN ->
  exists s', dummeth_hw_tx true lockup csum alloc_ok buf (Z.of_nat (length buf)) d s = Ok (tt, s') /\
    good s' (upd pool d l) (upd rx (negb d) (a :: rx (negb d))) [] /\
    frame_in (pkts s') a = mangle csum buf /\
    (forall b, b <> a -> frame_in (pkts s') b = frame_in (pkts s) b) /\ delivered s' = delivered s.
Proof.
  intros Hg Hl Hmin Hmax. pose proof (length_mangle csum buf Hmin) as Hml.
  destruct (ni_own _ _ _ _ (g_inv _ _ _ _ Hg) d a) as (p & Ha & Hdev); [rewrite Hl; left|].
  destruct (take_good s pool rx [] d a l Hg Hl) as (s1 & Hrun1 & Hg1 & Hp1 & Hd1).
  unfold dummeth_hw_tx. destruct (_ <? 14 + 20) eqn:E; [lia|clear E].
  rewrite (bind_run _ _ _ _ _ Hrun1). destruct (ETH_DATA_LEN <? _) eqn:E; [lia|clear E].
  rewrite <- Hp1 in Ha. set (p1 := copy_data (Z.of_nat (length buf)) (mangle csum buf) p).
  set (s2 := with_pkts s1 (<[a := p1]> (pkts s1))).
  rewrite (bind_run (set_pkt a _) _ s1 tt s2) by (unfold set_pkt; by rewrite Ha).
  pose proof (write_good s1 _ _ _ a p p1 Hg1 Ha) as Hg2. fold s2 in Hg2.
  assert (pkts s2 !! a = Some p1) as Ha2 by apply lookup_insert_eq.
  assert (take (Z.to_nat (p_datalen p1)) (p_data p1) = mangle csum buf) as Hp1d.
  { unfold p1, copy_data. cbn [p_datalen p_data]. rewrite Nat2Z.id, (take_ge (mangle _ _)) by lia.
    rewrite <- Hml. apply take_app_length. }
  destruct (enqueue_good s2 _ _ _ (negb d) a p1 Hg2 Ha2) as (s3 & Hrun3 & Hg3 & Hf3 & Hd3).
  { unfold p1. simpl. by rewrite Hdev, negb_involutive. }
  { unfold p1, copy_data. cbn [p_datalen p_data]. rewrite length_app, length_take. lia. }
  rewrite (bind_run _ _ _ _ _ Hrun3).
  rewrite (bind_run (get_priv (negb d)) _ s3 _ s3 eq_refl).
  assert (frame_in (pkts s3) a = mangle csum buf /\
    (forall b, b <> a -> frame_in (pkts s3) b = frame_in (pkts s) b) /\ delivered s3 = delivered s) as Hcont.
  { split_and!.
    - rewrite Hf3. unfold frame_in. by rewrite Ha2.
    - intros b Hb. rewrite Hf3. unfold frame_in, s2. simpl. by rewrite lookup_insert_ne, Hp1 by done.
    - rewrite Hd3. unfold s2. simpl. done. }
  destruct (signals_good s3 _ _ (Z.of_nat (length buf)) (netdev_priv s3 (negb d)) d Hg3)
    as (s4 & Hrun4 & Hg4 & Hp4 & Hd4).
  exists s4. split; [exact Hrun4|]. split; [done|]. by rewrite Hp4, Hd4.
Qed.

Lemma xmit_good s pool rx d k data :
  good s pool rx [] -> stopped (netdev_priv s d) = false -> k ∈ skbs s ->
  skb (netdev_priv s (negb d)) <> Some k -> Z.of_nat (length data) <= ETH_DATA_LEN ->
  exists a l s', pool d = a :: l /\ dummeth_xmit true lockup csum alloc_ok k data d s = Ok (0, s') /\
    good s' (upd pool d l) (upd rx (negb d) (a :: rx (negb d))) [] /\
    frame_in (pkts s') a = mangle csum (padded data) /\
    (forall b, b <> a -> frame_in (pkts s') b = frame_in (pkts s) b) /\ delivered s' = delivered s.
Proof.
  intros Hg Hrunning Hk Hother Hlen.
  destruct (pool d) as [|a l] eqn:Hl; [by rewrite (g_stop _ _ _ _ Hg d Hl) in Hrunning|].
  set (s0 := put_priv s d (set_skb (Some k) (netdev_priv s d))).
  assert (good s0 pool rx []) as Hg0.
  { destruct Hg as [Hinv Hun Hst [Hk1 Hk2]]. split; [by apply inv_priv|..|split].
    - intros d'. unfold s0. rewrite netdev_put. destruct (Bool.eqb d' d); [apply (Hun d)|apply Hun].
    - intros d'. unfold s0. rewrite netdev_put. destruct (Bool.eqb d' d) eqn:E; [|apply Hst].
      apply Bool.eqb_prop in E. subst. apply Hst.
    - intros d' k'. unfold s0. rewrite netdev_put, skbs_put. destruct (Bool.eqb d' d); [|apply Hk1].
      simpl. by intros [= <-].
    - intros k'. unfold s0. destruct d; simpl in *; [intros H0 [= <-]; done|intros [= <-]; done]. }
  pose proof (length_frame_padded data) as Hpl. unfold ETH_DATA_LEN, ETH_ZLEN in *.
  destruct (hw_tx_good s0 pool rx d a l (padded data) Hg0 Hl) as (s' & Hrun & Hg' & Ha & Hf & Hd);
    [lia|unfold ETH_DATA_LEN; lia|].
  exists a, l, s'. split; [done|]. split.
  { unfold dummeth_xmit, ETH_ZLEN.
    assert ((if Z.of_nat (length data) <? 60
       then (data ++ replicate (Z.to_nat (60 - Z.of_nat (length data))) 0, 60)
       else (data, Z.of_nat (length data))) = (padded data, Z.of_nat (length (padded data)))) as ->.
    { destruct (_ <? 60) eqn:E; f_equal; [lia| |lia]. unfold padded, ETH_ZLEN.
      replace (Z.to_nat _) with 0%nat by lia. by rewrite app_nil_r. }
    rewrite (bind_run (mod_priv d _) _ s tt s0 eq_refl). by rewrite (bind_run _ _ _ _ _ Hrun). }
  split; [done|]. split; [done|]. split.
  - intros b Hb. rewrite Hf by done. unfold s0. by rewrite pkts_put.
  - rewrite Hd. unfold s0. by rewrite delivered_put.
Qed.
End transmit_good.

(** ** Filling and emptying a pool *)

(** Only the head of the pool of [d] and the buffers changed. *)
Definition only_pool (s s' : net) (d : devno) : Prop :=
  skbs s' = skbs s /\ delivered s' = delivered s /\
  forall d', netdev_priv s' d' =
    if Bool.eqb d' d then set_ppool (ppool (netdev_priv s' d)) (netdev_priv s d') else netdev_priv s d'.

Lemma only_pool_refl s d : only_pool s s d.
Proof.
  split_and!; auto. intros d'. destruct (Bool.eqb d' d) eqn:E; [|done]. apply Bool.eqb_prop in E. subst.
  by destruct (netdev_priv s d).
Qed.

Lemma only_pool_step s m x s' d :
  only_pool (put_priv (with_pkts s m) d (set_ppool x (netdev_priv s d))) s' d -> only_pool s s' d.
Proof.
  intros (H1 & H2 & H3). rewrite skbs_put in H1. rewrite delivered_put in H2. split_and!; auto.
  intros d'. rewrite H3, netdev_put, netdev_pkts. destruct (Bool.eqb d' d) eqn:E; [|done].
  apply Bool.eqb_prop in E. by subst.
Qed.

Lemma inv_alloc s pool rx d a :
  net_inv s pool rx [] -> pkts s !! a = None ->
  net_inv (put_priv (with_pkts s (<[a := mk_packet (ppool (netdev_priv s d)) d 0 []]> (pkts s))) d
             (set_ppool (Some a) (netdev_priv s d))) (upd pool d (a :: pool d)) rx [].
Proof.
  intros [H1 H2 H3 H4 H5 H6] Ha. set (p := mk_packet _ d 0 []).
  assert (a ∉ all_bufs pool rx []) as Hnot by (rewrite <- H4, Ha; by intros [? ?]).
  assert (forall d', (a ∉ pool d') /\ (a ∉ rx d')) as Hap.
  { intros d'. pose proof (in_all pool rx [] d') as [? ?]. split; intros ?; apply Hnot; auto. }
  assert (all_bufs (upd pool d (a :: pool d)) rx [] ≡ₚ a :: all_bufs pool rx []) as Hp
    by (unfold all_bufs, upd; destruct d; simpl; solve_Permutation).
  split; rewrite ?pkts_put; cbn [pkts with_pkts].
  - intros d'. rewrite netdev_put, netdev_pkts. unfold upd. destruct (Bool.eqb d' d) eqn:E.
    + simpl. split; [done|]. exists p. rewrite lookup_insert_eq. split; [done|]. simpl.
      apply chain_insert_ne; [apply Hap|apply H1].
    + apply chain_insert_ne; [apply Hap|apply H1].
  - intros d'. rewrite netdev_put, netdev_pkts. destruct (Bool.eqb d' d) eqn:E;
      [apply Bool.eqb_prop in E; subst d'|]; apply chain_insert_ne; try apply Hap; apply H2.
  - rewrite Hp. by apply NoDup_cons.
  - intros b. rewrite Hp, elem_of_cons, <- H4. destruct (decide (a = b)) as [->|Hne].
    + rewrite lookup_insert_eq. split; eauto.
    + rewrite lookup_insert_ne by done. split; [by right|]. by intros [->|].
  - intros d' b. unfold upd. destruct (decide (a = b)) as [->|Hne].
    + destruct (Bool.eqb d' d) eqn:E; [|by intros ?%Hap]. apply Bool.eqb_prop in E. subst.
      intros _. exists p. by rewrite lookup_insert_eq.
    + rewrite lookup_insert_ne by done. destruct (Bool.eqb d' d) eqn:E; [|apply H5].
      apply Bool.eqb_prop in E. subst. intros [->|?]%elem_of_cons; [done|by apply H5].
  - intros d' b Hb. unfold in_flight. destruct (decide (a = b)) as [->|Hne]; [by apply Hap in Hb|].
    rewrite lookup_insert_ne by done. by apply H6.
Qed.

Lemma unlocked_pool s m d x : unlocked s -> unlocked (put_priv (with_pkts s m) d (set_ppool x (netdev_priv s d))).
Proof. intros H d'. rewrite netdev_put, netdev_pkts. destruct (Bool.eqb d' d); [apply (H d)|apply H]. Qed.
Lemma might_sleep_run s : unlocked s -> might_sleep s = Ok (tt, s).
Proof. intros H. unfold might_sleep. pose proof (H false) as H0. pose proof (H true) as H1. cbn in H0, H1. by rewrite H0, H1. Qed.
Lemma might_sleep_locked s d : locked (netdev_priv s d) = true -> might_sleep s = Err SleepInAtomic.
Proof. intros H. unfold might_sleep. destruct d; cbn in H; rewrite H; [by rewrite orb_true_r|done]. Qed.

Lemma setup_loop_inv ok d n : forall i s pool rx,
  net_inv s pool rx [] -> unlocked s ->
  exists s' l, setup_loop ok d i n s = Ok (tt, s') /\ net_inv s' (upd pool d (l ++ pool d)) rx [] /\
    only_pool s s' d /\ (forall b, is_Some (pkts s !! b) -> pkts s' !! b = pkts s !! b) /\
    ((0 < n)%nat -> ok i = true -> l <> []).
Proof.
  induction n as [|n IH]; intros i s pool rx Hinv Hun; cbn [setup_loop].
  - exists s, []. split; [done|]. split_and!; [|apply only_pool_refl|done|lia].
    eapply inv_ext; [intros; symmetry; apply upd_same|done|done].
  - rewrite (bind_run _ _ _ _ _ (might_sleep_run s Hun)). destruct (ok i) eqn:Hok; simpl.
    2:{ exists s, []. split; [done|]. split_and!; [|apply only_pool_refl|done|done].
        eapply inv_ext; [intros; symmetry; apply upd_same|done|done]. }
    rewrite (bind_run stget _ s s s eq_refl). set (a := fresh (dom (pkts s))).
    assert (pkts s !! a = None) as Ha by (apply not_elem_of_dom; apply is_fresh).
    match goal with |- context [stput ?x] => rewrite (bind_run (stput x) _ s tt x eq_refl) end.
    match goal with |- context [mod_priv d ?f] =>
      rewrite (bind_run (mod_priv d f) _ _ tt _ eq_refl) end.
    rewrite netdev_pkts. pose proof (inv_alloc s pool rx d a Hinv Ha) as Hinv1.
    set (s1 := put_priv _ d _) in *.
    destruct (IH (S i) s1 _ _ Hinv1 (unlocked_pool _ _ _ _ Hun)) as (s' & l & Hrun & Hinv2 & Hop & Hold & _).
    exists s', (l ++ [a]). split; [done|]. split_and!.
    + eapply inv_ext; [|done|exact Hinv2]. intros d'. rewrite upd_eq, upd_upd. by rewrite <- app_assoc.
    + by eapply only_pool_step.
    + intros b Hb. rewrite Hold.
      * unfold s1. rewrite pkts_put. apply lookup_insert_ne. intros ->. by rewrite Ha in Hb; destruct Hb.
      * unfold s1. rewrite pkts_put. cbn [pkts with_pkts].
        rewrite lookup_insert_ne; [done|]. intros ->. by rewrite Ha in Hb; destruct Hb.
    + intros _ _. by destruct l.
Qed.

Lemma inv_free s pool rx d a l p :
  net_inv s pool rx [] -> pool d = a :: l -> pkts s !! a = Some p ->
  net_inv (put_priv (with_pkts s (delete a (pkts s))) d (set_ppool (p_next p) (netdev_priv s d)))
    (upd pool d l) rx [].
Proof.
  intros [H1 H2 H3 H4 H5 H6] Hl Ha. pose proof (H1 d) as Hc. rewrite Hl in Hc.
  destruct Hc as (_ & p' & Ha' & Hc). rewrite Ha in Ha'. injection Ha' as <-.
  assert (all_bufs pool rx [] ≡ₚ a :: all_bufs (upd pool d l) rx []) as Hp
    by (unfold all_bufs, upd; destruct d; simpl; rewrite Hl; solve_Permutation).
  rewrite Hp in H3. apply NoDup_cons in H3 as [Hnot Hnd].
  assert (forall d', (a ∉ upd pool d l d') /\ (a ∉ rx d')) as Hap.
  { intros d'. pose proof (in_all (upd pool d l) rx [] d') as [? ?]. split; intros ?; apply Hnot; auto. }
  split; rewrite ?pkts_put; cbn [pkts with_pkts]; auto.
  - intros d'. rewrite netdev_put, netdev_pkts. specialize (Hap d') as [Hap _].
    apply chain_delete_ne; [done|]. unfold upd. destruct (Bool.eqb d' d); [done|apply H1].
  - intros d'. rewrite netdev_put, netdev_pkts. destruct (Bool.eqb d' d) eqn:E;
      [apply Bool.eqb_prop in E; subst d'|]; apply chain_delete_ne; try apply Hap; apply H2.
  - intros b. destruct (decide (a = b)) as [->|Hne].
    + rewrite lookup_delete_eq. split; [by intros [? ?]|done].
    + rewrite lookup_delete_ne by done. rewrite H4, Hp, elem_of_cons. split; [by intros [->|?]|by right].
  - intros d' b Hb. destruct (Hap d') as [Hap1 _]. assert (a <> b) by (intros ->; done).
    rewrite lookup_delete_ne by done. apply H5. unfold upd in Hb.
    destruct (Bool.eqb d' d) eqn:E; [|done]. apply Bool.eqb_prop in E. subst. rewrite Hl. by right.
  - intros d' b Hb. destruct (Hap d') as [_ Hap2]. assert (a <> b) by (intros ->; done).
    unfold in_flight. rewrite lookup_delete_ne by done. by apply H6.
Qed.

Lemma teardown_loop_inv d : forall fuel s pool rx,
  net_inv s pool rx [] -> (length (pool d) <= fuel)%nat ->
  exists s', teardown_loop fuel d s = Ok (tt, s') /\ net_inv s' (upd pool d []) rx [] /\ only_pool s s' d /\
    (forall d' b, b ∈ rx d' -> pkts s' !! b = pkts s !! b).
Proof.
  induction fuel as [|fuel IH]; intros s pool rx Hinv Hlen;
    pose proof (ni_pool _ _ _ _ Hinv d) as Hc; cbn [teardown_loop];
    rewrite (bind_run (get_priv d) _ s (netdev_priv s d) s eq_refl);
    destruct (pool d) as [|a l] eqn:Hl; simpl in Hlen; try lia.
  1,2: simpl in Hc; rewrite Hc; exists s; split; [done|]; split_and!; [|apply only_pool_refl|done];
    (eapply inv_ext; [|done|exact Hinv]); intros d'; rewrite <- Hl; symmetry; apply upd_same.
  destruct Hc as (Hp & p & Ha & _). rewrite Hp.
  rewrite (bind_run (get_pkt a) _ s p s) by (unfold get_pkt; by rewrite Ha).
  rewrite (bind_run (mod_priv d _) _ s tt _ eq_refl).
  set (s1 := put_priv (with_pkts s (delete a (pkts s))) d (set_ppool (p_next p) (netdev_priv s d))).
  assert (kfree a (put_priv s d (set_ppool (p_next p) (netdev_priv s d))) = Ok (tt, s1)) as Hfree.
  { unfold kfree. rewrite pkts_put, Ha. unfold s1. by destruct d, s. }
  rewrite (bind_run _ _ _ _ _ Hfree).
  destruct (IH s1 (upd pool d l) rx) as (s' & Hrun & Hinv' & Hop & Hold).
  { by apply inv_free. }
  { rewrite upd_eq. lia. }
  exists s'. split; [done|]. split_and!.
  - eapply inv_ext; [|done|exact Hinv']. intros d'. apply upd_upd.
  - by eapply only_pool_step.
  - intros d' b Hb. rewrite (Hold d') by done. unfold s1. rewrite pkts_put. apply lookup_delete_ne. intros ->.
    pose proof (ni_nodup _ _ _ _ Hinv) as Hnd.
    assert (all_bufs pool rx [] ≡ₚ b :: all_bufs (upd pool d l) rx []) as Hperm
      by (unfold all_bufs, upd; destruct d; simpl; rewrite Hl; solve_Permutation).
    rewrite Hperm in Hnd. apply NoDup_cons in Hnd as [Hnot _].
    apply Hnot. by apply (in_all _ _ _ d').
Qed.

Lemma only_pool_trans s1 s2 s3 d : only_pool s1 s2 d -> only_pool s2 s3 d -> only_pool s1 s3 d.
Proof.
  intros (H1 & H2 & H3) (H4 & H5 & H6). split_and!; [congruence..|]. intros d'.
  rewrite H6, (H3 d'). by destruct (Bool.eqb d' d).
Qed.

(** Filling the empty pool of a device. *)
Lemma setup_pool_inv pool_size ok s pool rx d : unlocked s ->
  net_inv s pool rx [] -> pool d = [] ->
  exists s' l, dummeth_setup_pool pool_size ok d s = Ok (tt, s') /\ net_inv s' (upd pool d l) rx [] /\
    only_pool s s' d /\ (forall b, is_Some (pkts s !! b) -> pkts s' !! b = pkts s !! b) /\
    ((0 < pool_size)%nat -> ok 0%nat = true -> l <> []).
Proof.
  intros Hun Hinv Hd. pose proof (ni_pool _ _ _ _ Hinv d) as Hc. rewrite Hd in Hc. simpl in Hc.
  unfold dummeth_setup_pool. set (s1 := put_priv s d (set_ppool None (netdev_priv s d))).
  rewrite (bind_run (mod_priv d _) _ s tt s1 eq_refl).
  assert (net_inv s1 pool rx []) as Hinv1 by (by apply inv_priv).
  assert (unlocked s1) as Hun1 by (intros d'; unfold s1; rewrite netdev_put; destruct (Bool.eqb d' d); [apply (Hun d)|apply Hun]).
  destruct (setup_loop_inv ok d pool_size 0 s1 pool rx Hinv1 Hun1) as (s' & l & Hrun & Hinv' & Hop & Hold & Hne).
  exists s', l. split; [done|]. rewrite Hd, app_nil_r in Hinv'. split_and!; auto.
  - eapply only_pool_trans; [|exact Hop]. unfold s1. rewrite <- Hc. split_and!.
    + apply skbs_put.
    + apply delivered_put.
    + intros d'. rewrite !netdev_put, Bool.eqb_reflx. destruct (Bool.eqb d' d) eqn:E; [|done].
      apply Bool.eqb_prop in E. by subst.
  - intros b Hb. unfold s1 in Hold. rewrite pkts_put in Hold. by apply Hold.
Qed.

(** The fuel of the teardown loop is enough: the buffers of a pool are distinct. *)
Lemma teardown_pool_inv s pool rx d :
  net_inv s pool rx [] ->
  exists s', dummeth_teardown_pool d s = Ok (tt, s') /\ net_inv s' (upd pool d []) rx [] /\ only_pool s s' d /\
    (forall d' b, b ∈ rx d' -> pkts s' !! b = pkts s !! b).
Proof.
  intros Hinv. unfold dummeth_teardown_pool. rewrite (bind_run stget _ s s s eq_refl).
  apply teardown_loop_inv; [done|].
  assert (NoDup (pool d)) as Hnd.
  { pose proof (ni_nodup _ _ _ _ Hinv) as H. unfold all_bufs in H.
    rewrite !NoDup_app in H. destruct d; tauto. }
  rewrite <- size_dom, <- (size_list_to_set (C := gset addr)) by done. apply subseteq_size.
  intros b Hb. apply elem_of_list_to_set in Hb. apply elem_of_dom. apply (ni_dom _ _ _ _ Hinv).
  by apply (proj1 (in_all _ _ _ d)).
Qed.

(** [dummeth_poll]: up to [budget] frames, newest first. *)
Lemma poll_good alloc complete d budget s pool rx :
  good s pool rx [] ->
  exists s' pool', dummeth_poll alloc complete d budget s = Ok (Nat.min budget (length (rx d)), s') /\
    good s' pool' (upd rx d (drop budget (rx d))) [] /\
    (forall b, frame_in (pkts s') b = frame_in (pkts s) b) /\
    delivered s' = delivered s ++
      (pair d <$> accepted alloc 0 (frame_in (pkts s) <$> take budget (rx d))).
Proof.
  intros Hg. destruct (poll_loop_good alloc d budget 0 s pool rx Hg) as (s1 & pool1 & Hrun & Hg1 & Hf & Hd).
  unfold dummeth_poll. rewrite (bind_run _ _ _ _ _ Hrun). simpl.
  destruct (_ <? budget)%nat; [|by exists s1, pool1].
  set (f := fun v => set_locked false ((if complete then fun v => set_rx_int true (set_napi false v)
                                        else fun v => v) (set_locked true v))).
  exists (put_priv s1 d (f (netdev_priv s1 d))), pool1. split.
  - unfold spin_lock, spin_unlock, dummeth_rx_ints, get_priv, mod_priv, mbind, ST_bind.
    pose proof (g_unlocked _ _ _ _ Hg1 d) as Hl. destruct s1 as [? ? v0 v1 ?]. unfold f.
    by destruct d, complete; simpl in *; rewrite Hl.
  - split_and!.
    + destruct Hg1 as [Hinv Hun Hst Hk].
      destruct (ctrl_inv s1 (put_priv s1 d (f (netdev_priv s1 d))) pool1) as (? & ? & ?); auto.
      * apply ctrl_put; unfold f; destruct complete; simpl; auto; by rewrite Hun.
      * split; auto. apply inv_priv; auto; unfold f; by destruct complete.
    + intros b. rewrite pkts_put. apply Hf.
    + by rewrite delivered_put.
Qed.

(** The completion a timeout signals. *)
Lemma timeout_signal_good alloc s pool rx d :
  good s pool rx [] ->
  exists s2, good s2 pool rx [] /\ pkts s2 = pkts s /\ delivered s2 = delivered s /\
    forall pool_size ok, dummeth_tx_timeout true alloc pool_size ok d s =
      (spin_lock d;; dummeth_teardown_pool d;; dummeth_setup_pool pool_size ok d;; spin_unlock d;;
       mod_priv d (set_stopped false)) s2.
Proof.
  intros Hg. unfold dummeth_tx_timeout, dummeth_interrupt.
  set (f := fun v => set_status (Z.lor (status v) DUMMETH_TX_INTR) v).
  set (s0 := put_priv s d (f (netdev_priv s d))).
  assert (good s0 pool rx []) as Hg0 by (by apply (priv_good s pool rx [] d f)).
  destruct (napi_good s0 pool rx [] d Hg0) as (s1 & Hrun1 & Hg1 & Hp1 & Hd1 & _).
  set (s2 := put_priv s1 d (set_stats add_tx_error (netdev_priv s1 d))).
  exists s2. split_and!.
  - by apply (priv_good s1 pool rx [] d (set_stats add_tx_error)).
  - unfold s2. rewrite pkts_put, Hp1. unfold s0. by rewrite pkts_put.
  - unfold s2. rewrite delivered_put, Hd1. unfold s0. by rewrite delivered_put.
  - intros pool_size ok. rewrite (bind_run (mod_priv d f) _ s tt s0 eq_refl).
    rewrite (bind_run _ _ _ _ _ Hrun1). by rewrite (bind_run (mod_priv d _) _ s1 tt s2 eq_refl).
Qed.

(** Filling the pool with the lock held. *)
Lemma refill_sleeps pool_size ok s pool rx d :
  good s pool rx [] -> (0 < pool_size)%nat ->
  (spin_lock d;; dummeth_teardown_pool d;; dummeth_setup_pool pool_size ok d;; spin_unlock d;;
   mod_priv d (set_stopped false)) s = Err SleepInAtomic.
Proof.
  intros [Hinv Hun _ _] Hsize. set (s3 := put_priv s d (set_locked true (netdev_priv s d))).
  assert (spin_lock d s = Ok (tt, s3)) as Hlock
    by (unfold spin_lock, get_priv, mod_priv, mbind, ST_bind; by rewrite (Hun d)).
  rewrite (bind_run _ _ _ _ _ Hlock).
  assert (net_inv s3 pool rx []) as Hinv3 by (by apply inv_priv).
  destruct (teardown_pool_inv s3 pool rx d Hinv3) as (s4 & Hrun4 & _ & (_ & _ & Hp) & _).
  rewrite (bind_run _ _ _ _ _ Hrun4). apply bind_err. unfold dummeth_setup_pool.
  set (s5 := put_priv s4 d (set_ppool None (netdev_priv s4 d))).
  rewrite (bind_run (mod_priv d _) _ s4 tt s5 eq_refl). destruct pool_size as [|n]; [lia|]. cbn [setup_loop].
  apply bind_err, (might_sleep_locked s5 d). unfold s5. rewrite netdev_put, Bool.eqb_reflx. cbn [locked set_ppool].
  rewrite Hp, Bool.eqb_reflx. unfold s3. by rewrite netdev_put, Bool.eqb_reflx.
Qed.

(** ** The driver as a wire

    What the two devices promise, buffers, lists and interrupts apart: the frames
    on their way to a device, newest first, and the frames handed to the stack. *)
Record wire := mk_wire { to0 : list (list Z); to1 : list (list Z); log : list (devno * list Z) }.

Definition towards (w : wire) (d : devno) : list (list Z) := if d then to1 w else to0 w.
Definition set_towards (w : wire) (d : devno) (l : list (list Z)) : wire :=
  if d then mk_wire (to0 w) l (log w) else mk_wire l (to1 w) (log w).

(** What the stack does to the driver. [New k]: the stack allocates a socket buffer.
    [StopWaits d]: [dummeth_stop] has stopped the queue and waits in [napi_disable] for a
    poll that is scheduled. [Complete d]: the kernel ends the scheduling of an instance that is
    being disabled. [Stop d]: [dummeth_stop], when nothing is scheduled (any more). *)
Inductive op :=
  | New (k : addr)
  | Xmit (d : devno) (k : addr) (data : list Z)
  | Poll (d : devno) (budget : nat) (alloc_ok : nat -> bool) (complete : bool)
  | StopWaits (d : devno)
  | Complete (d : devno)
  | Stop (d : devno)
  | Open (d : devno).

Section wire.
(** NAPI mode. [csum] is the kernel's checksum routine. *)
Context (lockup : Z) (csum : list Z -> Z -> Z) (pool_size : nat).

Definition run_op (o : op) : N unit :=
  match o with
  | New k => fun s => Ok (tt, with_skbs s ({[k]} ∪ skbs s))
  | Xmit d k data => dummeth_xmit true lockup csum true k data d;; mret tt
  | Poll d budget alloc complete => dummeth_poll alloc complete d budget;; mret tt
  | StopWaits d => mod_priv d (set_stopped true)
  | Complete d => mod_priv d (set_napi false)
  | Stop d => dummeth_stop true d;; mret tt
  | Open d => dummeth_open true d;; mret tt
  end.

(** When the network stack may call an operation. A frame is transmitted on a
    running queue, with a socket buffer that is live and not already at the other
    device, and is no longer than the buffers of the driver. A device is opened when it is
    not open, with a buffer to send with, and stopped when it is open, which waits until no
    poll is scheduled. *)
Definition allowed (o : op) (s : net) : Prop :=
  match o with
  | New k => k ∉ skbs s
  | Xmit d k data =>
      stopped (netdev_priv s d) = false /\ k ∈ skbs s /\ skb (netdev_priv s (negb d)) <> Some k /\
      Z.of_nat (length data) <= ETH_DATA_LEN
  | Stop d => napi_enabled (netdev_priv s d) = true /\ napi_scheduled (netdev_priv s d) = false
  | Open d => napi_enabled (netdev_priv s d) = false /\ ppool (netdev_priv s d) <> None
  | _ => True
  end.

Definition wire_step (o : op) (w : wire) : wire :=
  match o with
  | Xmit d _ data => set_towards w (negb d) (mangle csum (padded data) :: towards w (negb d))
  | Poll d budget alloc _ =>
      let w' := set_towards w d (drop budget (towards w d)) in
      mk_wire (to0 w') (to1 w') (log w ++ (pair d <$> accepted alloc 0 (take budget (towards w d))))
  | _ => w
  end.

(** The module loaded, the devices set up. *)
Definition loaded (ok0 ok1 : nat -> bool) : res (unit * net) :=
  (dummeth_setup pool_size ok0 false;; dummeth_setup pool_size ok1 true)
    (mk_net ∅ ∅ blank_priv blank_priv []).

Inductive reach : net -> wire -> Prop :=
  | reach_loaded ok0 ok1 s : (0 < pool_size)%nat -> ok0 0%nat = true -> ok1 0%nat = true ->
      loaded ok0 ok1 = Ok (tt, s) -> reach s (mk_wire [] [] [])
  | reach_step o s w s' : reach s w -> allowed o s -> run_op o s = Ok (tt, s') -> reach s' (wire_step o w).

Definition view (s : net) (rx : devno -> list addr) : wire :=
  mk_wire (frame_in (pkts s) <$> rx false) (frame_in (pkts s) <$> rx true) (delivered s).

Lemma loaded_good ok0 ok1 :
  (0 < pool_size)%nat -> ok0 0%nat = true -> ok1 0%nat = true ->
  exists s pool, loaded ok0 ok1 = Ok (tt, s) /\ good s pool (fun _ => []) [] /\ delivered s = [].
Proof.
  intros Hsize H0 H1.
  set (v := set_rx_int true blank_priv).
  set (sa := mk_net ∅ ∅ v blank_priv []).
  assert (loaded ok0 ok1 =
    (dummeth_setup_pool pool_size ok0 false;;
     mod_priv true (fun _ => blank_priv);; dummeth_rx_ints true true;;
     dummeth_setup_pool pool_size ok1 true) sa) as -> by reflexivity.
  assert (net_inv sa (fun _ => []) (fun _ => []) []) as Hinv.
  { split; try (by intros []); try (intros ? ? Hb; inversion Hb); [constructor|].
    intros a. simpl. rewrite lookup_empty. split; [by intros []|intros Hb; inversion Hb]. }
  destruct (setup_pool_inv pool_size ok0 sa _ _ false ltac:(by intros []) Hinv eq_refl)
    as (s1 & l0 & Hrun1 & Hinv1 & (Hk1 & Hd1 & Hp1) & _ & Hne0).
  rewrite (bind_run _ _ _ _ _ Hrun1).
  rewrite (bind_run (mod_priv true _) _ s1 tt (put_priv s1 true blank_priv) eq_refl).
  rewrite (bind_run (dummeth_rx_ints true true) _ (put_priv s1 true blank_priv) tt
    (put_priv s1 true v) eq_refl).
  pose proof (Hp1 true) as Ht1. pose proof (Hp1 false) as Hf1. simpl in Ht1, Hf1.
  assert (net_inv (put_priv s1 true v) (upd (fun _ => []) false l0) (fun _ => []) []) as Hinv2
    by (apply inv_priv; simpl; rewrite ?Ht1; auto).
  assert (unlocked (put_priv s1 true v)) as Hun2 by (intros []; cbn; [done|by rewrite Hf1]).
  destruct (setup_pool_inv pool_size ok1 _ _ _ true Hun2 Hinv2 eq_refl)
    as (s2 & l1 & Hrun2 & Hinv3 & (Hk2 & Hd2 & Hp2) & _ & Hne1).
  exists s2, (upd (upd (fun _ => []) false l0) true l1). split; [done|].
  pose proof (Hp2 true) as Ht2. pose proof (Hp2 false) as Hf2. simpl in Ht2, Hf2. rewrite Hf1 in Hf2.
  split; [split; [done|..]|by rewrite Hd2, delivered_put, Hd1].
  - intros []; simpl; [by rewrite Ht2|by rewrite Hf2].
  - intros [] Hl; [by destruct (Hne1 Hsize H1 Hl)|by destruct (Hne0 Hsize H0 Hl)].
  - split; [intros [] k|intros k]; simpl; [by rewrite Ht2|by rewrite Hf2..].
Qed.

Lemma stop_good s pool rx d x :
  good s pool rx [] -> (x = false -> pool d <> []) ->
  good (put_priv s d (set_stopped x (netdev_priv s d))) pool rx [].
Proof.
  intros [Hinv Hun Hst [Hk1 Hk2]] Hx. split; [by apply inv_priv|..|split].
  - intros d'. rewrite netdev_put. destruct (Bool.eqb d' d); [apply (Hun d)|apply Hun].
  - intros d'. rewrite netdev_put. destruct (Bool.eqb d' d) eqn:E; [|apply Hst].
    apply Bool.eqb_prop in E. subst. intros Hd. simpl. destruct x; [done|]. by destruct Hx.
  - intros d' k. rewrite netdev_put, skbs_put. destruct (Bool.eqb d' d); [apply (Hk1 d)|apply Hk1].
  - intros k. destruct d; apply Hk2.
Qed.

(** Every allowed operation runs to its end, keeps the invariants, and does what the
    wire does. *)
Lemma step_refines o s pool rx :
  good s pool rx [] -> allowed o s ->
  exists s' pool' rx', run_op o s = Ok (tt, s') /\ good s' pool' rx' [] /\
    view s' rx' = wire_step o (view s rx).
Proof.
  intros Hg Ha. destruct o as [k|d k data|d budget alloc complete|d|d|d|d]; simpl in Ha; cbn [run_op].
  - eexists _, pool, rx. split; [done|]. split; [|done]. destruct Hg as [Hinv Hun Hst [Hk1 Hk2]].
    split; [by apply inv_skbs|..|split].
    + intros d. rewrite netdev_skbs. apply Hun.
    + intros d. rewrite netdev_skbs. apply Hst.
    + intros d k'. rewrite netdev_skbs. simpl. intros Hk. pose proof (Hk1 _ _ Hk). set_solver.
    + apply Hk2.
  - destruct Ha as (Hr & Hk & Ho & Hlen).
    destruct (xmit_good lockup csum true s pool rx d k data) as (a & l & s' & Hl & Hrun & Hg' & Hfa & Hf & Hd); auto.
    rewrite (bind_run _ _ _ _ _ Hrun). eexists s', _, _. split; [done|]. split; [done|].
    assert (forall d', a ∉ rx d') as Hnot.
    { intros d' Hin. pose proof (ni_nodup _ _ _ _ (g_inv _ _ _ _ Hg)) as Hnd.
      rewrite (all_pool_pop _ _ _ _ _ _ Hl) in Hnd. by apply (in_hand_apart _ _ _ _ d') in Hnd as [_ ?]. }
    assert (forall d', frame_in (pkts s') <$> rx d' = frame_in (pkts s) <$> rx d') as Hsame.
    { intros d'. apply list_fmap_ext. intros i b Hb. apply Hf. intros ->. apply (Hnot d').
      by eapply list_elem_of_lookup_2. }
    unfold view, upd. rewrite Hd. destruct d; simpl; by rewrite Hfa, !Hsame.
  - destruct (poll_good alloc complete d budget s pool rx Hg) as (s' & pool' & Hrun & Hg' & Hf & Hd).
    rewrite (bind_run _ _ _ _ _ Hrun). eexists s', _, _. split; [done|]. split; [done|].
    assert (forall l, frame_in (pkts s') <$> l = frame_in (pkts s) <$> l) as Hsame
      by (intros l; apply list_fmap_ext; intros; apply Hf).
    unfold view, upd. rewrite Hd. destruct d; simpl; by rewrite !Hsame, fmap_drop, fmap_take.
  - exists (put_priv s d (set_stopped true (netdev_priv s d))), pool, rx. split; [done|].
    split; [by apply stop_good|]. unfold view. by rewrite pkts_put, delivered_put.
  - exists (put_priv s d (set_napi false (netdev_priv s d))), pool, rx. split; [done|].
    split; [by apply (priv_good s pool rx [] d (set_napi false))|]. unfold view. by rewrite pkts_put, delivered_put.
  - destruct Ha as [He Hn]. set (s1 := put_priv s d (set_stopped true (netdev_priv s d))).
    exists (put_priv s1 d (set_napi_enabled false (netdev_priv s1 d))), pool, rx. split; [|split].
    + unfold dummeth_stop, napi_disable, get_priv, mod_priv, mbind, ST_bind. fold s1.
      assert (napi_enabled (netdev_priv s1 d) = true /\ napi_scheduled (netdev_priv s1 d) = false) as [-> ->]
        by (unfold s1; by rewrite netdev_put, Bool.eqb_reflx).
      done.
    + apply (priv_good s1 pool rx [] d (set_napi_enabled false)); [by apply stop_good|done].
    + unfold view, s1. by rewrite !pkts_put, !delivered_put.
  - destruct Ha as [He Hp]. set (s1 := put_priv s d (set_napi_enabled true (netdev_priv s d))).
    exists (put_priv s1 d (set_stopped false (netdev_priv s1 d))), pool, rx. split; [|split].
    + unfold dummeth_open, napi_enable, get_priv, mod_priv, mbind, ST_bind. by rewrite He.
    + apply stop_good; [by apply (priv_good s pool rx [] d (set_napi_enabled true))|]. intros _ Hd.
      apply Hp. pose proof (ni_pool _ _ _ _ (g_inv _ _ _ _ Hg) d) as Hc. by rewrite Hd in Hc.
    + unfold view, s1. by rewrite !pkts_put, !delivered_put.
Qed.

Lemma reach_good s w : reach s w -> exists pool rx, good s pool rx [] /\ w = view s rx.
Proof.
  induction 1 as [ok0 ok1 s Hsize H0 H1 Hl|o s w s' _ (pool & rx & Hg & ->) Ha Hrun].
  - destruct (loaded_good ok0 ok1 Hsize H0 H1) as (s1 & pool & Hl1 & Hg & Hd). rewrite Hl in Hl1.
    injection Hl1 as <-. eexists _, _. split; [done|]. unfold view. by rewrite Hd.
  - destruct (step_refines o s pool rx Hg Ha) as (s1 & pool' & rx' & Hrun1 & Hg' & Hv).
    rewrite Hrun in Hrun1. injection Hrun1 as <-. by exists pool', rx'.
Qed.


Lemma hw_tx_overruns s a p d alloc buf :
  locked (netdev_priv s d) = false -> ppool (netdev_priv s d) = Some a -> pkts s !! a = Some p ->
  ETH_DATA_LEN < Z.of_nat (length buf) ->
  dummeth_hw_tx true lockup csum alloc buf (Z.of_nat (length buf)) d s = Err OutOfBounds.
Proof.
  intros Hl Hp Ha Hlen. unfold dummeth_hw_tx, ETH_DATA_LEN in *. destruct (_ <? 14 + 20) eqn:E; [lia|].
  rewrite (bind_run _ _ _ _ _ (get_tx_run s d a p Hl Hp Ha)). by destruct (1500 <? _) eqn:E2; [|lia].
Qed.

(** A frame longer than 1500 bytes overruns the data array of the buffer it is
    copied into. An interface with the largest MTU the driver accepts sends such
    frames: 1500 bytes of payload and a header of 14. *)
Theorem xmit_long_frame_overruns s w d k data :
  reach s w -> stopped (netdev_priv s d) = false -> ETH_DATA_LEN < Z.of_nat (length data) ->
  dummeth_xmit true lockup csum true k data d s = Err OutOfBounds /\
  forall dev, (dummeth_change_mtu dev 1500).1 = 0 /\ mtu (dummeth_change_mtu dev 1500).2 = 1500 /\
    ETH_DATA_LEN < Z.of_nat (length (dummeth_header dev 2048 (Some (replicate 6 0)) (Some (replicate 6 0))
                                       (replicate 1500 0))).
Proof.
  intros Hr Hs Hlen. split; [|by intros].
  destruct (reach_good s w Hr) as (pool & rx & [Hinv Hun Hst _] & _).
  pose proof (ni_pool _ _ _ _ Hinv d) as Hc. destruct (pool d) as [|a l] eqn:Hl; [by rewrite Hst in Hs|].
  destruct Hc as (Hp & p & Ha & _). unfold dummeth_xmit.
  destruct (_ <? ETH_ZLEN) eqn:E; [unfold ETH_ZLEN, ETH_DATA_LEN in *; lia|].
  set (s0 := put_priv s d (set_skb (Some k) (netdev_priv s d))).
  rewrite (bind_run (mod_priv d _) _ s tt s0 eq_refl).
  unfold mbind, ST_bind at 1. rewrite (hw_tx_overruns s0 a p d true data); auto; unfold s0.
  - rewrite netdev_put, Bool.eqb_reflx. apply Hun.
  - by rewrite netdev_put, Bool.eqb_reflx.
  - by rewrite pkts_put.
Qed.

Lemma locked_ops s d k data alloc complete budget :
  locked (netdev_priv s d) = true ->
  dummeth_xmit true lockup csum true k data d s = Err Deadlock /\
  dummeth_poll alloc complete d (S budget) s = Err Deadlock.
Proof.
  intros Hl. split.
  - unfold dummeth_xmit. pose proof (length_frame_padded data) as Hp. unfold ETH_ZLEN in *.
    assert (exists b n, (if Z.of_nat (length data) <? 60
      then (data ++ replicate (Z.to_nat (60 - Z.of_nat (length data))) 0, 60)
      else (data, Z.of_nat (length data))) = (b, n) /\ 34 <= n) as (b & n & -> & Hn)
      by (destruct (_ <? 60) eqn:E; eexists _, _; split; [done|lia|done|lia]).
    unfold dummeth_hw_tx, dummeth_get_tx_buffer, spin_lock, get_priv, mod_priv, mbind, ST_bind.
    destruct (n <? 14 + 20) eqn:E; [lia|]. rewrite netdev_put, Bool.eqb_reflx. cbn. by rewrite Hl.
  - unfold dummeth_poll. cbn [poll_loop]. unfold dummeth_dequeue_buf, spin_lock, get_priv, mbind, ST_bind.
    destruct (rx_queue _); cbn; by rewrite Hl.
Qed.

Lemma xmit_empty s d k data :
  locked (netdev_priv s d) = false -> ppool (netdev_priv s d) = None ->
  exists s', dummeth_xmit true lockup csum true k data d s = Ok (0, s') /\
    locked (netdev_priv s' d) = true /\ pkts s' = pkts s /\ delivered s' = delivered s.
Proof.
  intros Hl Hp. unfold dummeth_xmit. pose proof (length_frame_padded data) as Hpad. unfold ETH_ZLEN in *.
  assert (exists b n, (if Z.of_nat (length data) <? 60
    then (data ++ replicate (Z.to_nat (60 - Z.of_nat (length data))) 0, 60)
    else (data, Z.of_nat (length data))) = (b, n) /\ 34 <= n) as (b & n & -> & Hn)
    by (destruct (_ <? 60) eqn:E; eexists _, _; split; [done|lia|done|lia]).
  set (s0 := put_priv s d (set_skb (Some k) (netdev_priv s d))).
  rewrite (bind_run (mod_priv d _) _ s tt s0 eq_refl). unfold dummeth_hw_tx.
  destruct (n <? 14 + 20) eqn:E; [lia|].
  assert (locked (netdev_priv s0 d) = false /\ ppool (netdev_priv s0 d) = None) as [Hl0 Hp0]
    by (unfold s0; by rewrite netdev_put, Bool.eqb_reflx).
  eexists. split; [rewrite (bind_run _ _ s0 tt (put_priv s0 d (set_locked true (netdev_priv s0 d))));
    [done|by rewrite (bind_run _ _ _ _ _ (get_tx_empty s0 d Hl0 Hp0))]|].
  rewrite pkts_put, delivered_put, netdev_put, Bool.eqb_reflx. unfold s0. by rewrite pkts_put, delivered_put.
Qed.

Lemma reach_size s w : reach s w -> (0 < pool_size)%nat.
Proof. by induction 1. Qed.

(** A transmit timeout refills the pool with the lock of the device held, with allocations
    that may sleep: no timeout runs to its end. *)
Theorem timeout_sleeps_in_atomic s w d ok :
  reach s w -> dummeth_tx_timeout true true pool_size ok d s = Err SleepInAtomic.
Proof.
  intros Hr. destruct (reach_good s w Hr) as (pool & rx & Hg & _).
  destruct (timeout_signal_good true s pool rx d Hg) as (s2 & Hg2 & _ & _ & Hrun). rewrite Hrun.
  apply (refill_sleeps pool_size ok s2 pool rx d Hg2), (reach_size s w Hr).
Qed.

(** A device that is opened with an empty pool (all its buffers are on their way, or none
    could be allocated) has its queue awake. The next transmission reports success, sends nothing, and
    returns with the lock of the device held: every transmission and every poll of
    that device after it waits for the lock for ever. *)
Theorem empty_pool_keeps_the_lock s w d k data k' data' alloc complete budget :
  reach s w -> napi_enabled (netdev_priv s d) = false -> ppool (netdev_priv s d) = None ->
  exists s1 s2, dummeth_open true d s = Ok (0, s1) /\
    stopped (netdev_priv s1 d) = false /\
    dummeth_xmit true lockup csum true k data d s1 = Ok (0, s2) /\
    pkts s2 = pkts s1 /\ delivered s2 = delivered s1 /\ locked (netdev_priv s2 d) = true /\
    dummeth_xmit true lockup csum true k' data' d s2 = Err Deadlock /\
    dummeth_poll alloc complete d (S budget) s2 = Err Deadlock.
Proof.
  intros Hr He Hp. destruct (reach_good s w Hr) as (pool & rx & Hg & _).
  set (s0 := put_priv s d (set_napi_enabled true (netdev_priv s d))).
  set (s1 := put_priv s0 d (set_stopped false (netdev_priv s0 d))).
  assert (dummeth_open true d s = Ok (0, s1)) as Ho
    by (unfold dummeth_open, napi_enable, get_priv, mod_priv, mbind, ST_bind; by rewrite He).
  assert (locked (netdev_priv s1 d) = false /\ ppool (netdev_priv s1 d) = None /\ stopped (netdev_priv s1 d) = false) as (Hl & Hp1 & Hs).
  { unfold s1, s0. rewrite !netdev_put, !Bool.eqb_reflx. split_and!; [apply (g_unlocked _ _ _ _ Hg d)|done..]. }
  destruct (xmit_empty s1 d k data Hl Hp1) as (s2 & Hx & Hl2 & Hpk & Hd).
  destruct (locked_ops s2 d k' data' alloc complete budget Hl2) as [H1 H2].
  by exists s1, s2.
Qed.

Lemma net_inv_size s pool rx : net_inv s pool rx [] -> size (pkts s) = length (all_bufs pool rx []).
Proof.
  intros Hinv. rewrite <- size_dom, <- (size_list_to_set (C := gset addr)) by apply Hinv. apply set_size_proper.
  intros a. rewrite elem_of_dom, elem_of_list_to_set. apply (ni_dom _ _ _ _ Hinv).
Qed.

(** Unloading the module frees every buffer in the pools, without a fault; what is
    left allocated are the buffers of the frames still on their way, one for each. *)
Theorem cleanup_leaks_frames_in_flight s w :
  reach s w ->
  exists s', dummeth_cleanup_module s = Ok (tt, s') /\
    size (pkts s') = (length (towards w false) + length (towards w true))%nat.
Proof.
  intros Hr. destruct (reach_good s w Hr) as (pool & rx & [Hinv _ _ _] & ->).
  destruct (teardown_pool_inv s pool rx false Hinv) as (s1 & Hrun1 & Hinv1 & _).
  destruct (teardown_pool_inv s1 _ rx true Hinv1) as (s2 & Hrun2 & Hinv2 & _).
  exists s2. unfold dummeth_cleanup_module. rewrite (bind_run _ _ _ _ _ Hrun1). split; [done|].
  rewrite (net_inv_size _ _ _ Hinv2). unfold all_bufs, upd. simpl.
  by rewrite !length_app, !length_fmap, Nat.add_0_r.
Qed.
End wire.

(** With the regular interrupt handler, the completion of a transmission frees the
    socket buffer and keeps the pointer to it; a transmit timeout after it frees the
    same socket buffer again. (The NAPI handler clears the pointer.) *)
Theorem regular_timeout_frees_twice s d k alloc pool_size ok :
  locked (netdev_priv s d) = false -> status (netdev_priv s d) = DUMMETH_TX_INTR ->
  skb (netdev_priv s d) = Some k -> k ∈ skbs s ->
  exists s', dummeth_regular_interrupt alloc d s = Ok (tt, s') /\ (k ∉ skbs s') /\
    dummeth_tx_timeout false alloc pool_size ok d s' = Err BadFree.
Proof.
  intros Hl Hs Hk Hin.
  exists (put_priv (with_skbs s (skbs s ∖ {[k]})) d
    (set_stats (add_tx (tx_packetlen (netdev_priv s d))) (set_status 0 (netdev_priv s d)))).
  assert (dummeth_regular_interrupt alloc d s = Ok (tt, put_priv (with_skbs s (skbs s ∖ {[k]})) d
    (set_stats (add_tx (tx_packetlen (netdev_priv s d))) (set_status 0 (netdev_priv s d))))) as Hrun.
  { unfold dummeth_regular_interrupt, spin_lock, spin_unlock, get_priv, mod_priv, dev_kfree_skb, mbind, ST_bind.
    destruct s as [m ks v0 v1 dl], d, v0, v1; simpl in *; subst; simpl; by rewrite bool_decide_true. }
  split; [done|]. rewrite skbs_put. split; [simpl; set_solver|].
  assert (k ∉ skbs s ∖ {[k]}) as Hnot by set_solver.
  unfold dummeth_tx_timeout, dummeth_interrupt, dummeth_regular_interrupt, spin_lock, get_priv, mod_priv,
    dev_kfree_skb, mbind, ST_bind.
  destruct s as [m ks v0 v1 dl], d, v0, v1; simpl in *; subst; simpl; by rewrite bool_decide_false.
Qed.

(** Loading the module leaves both devices registered or reports an error; but of
    the four ways to fail, one leaves nothing behind, two leak a device, and the
    failure of the second registration frees the first device while it is still
    registered. *)
Theorem init_module_outcomes alloc0 alloc1 reg0 reg1 :
  match dummeth_init_module alloc0 alloc1 reg0 reg1 with
  | Ok (r, d0, d1) =>
      (r = 0 /\ d0 = Some Registered /\ d1 = Some Registered /\ alloc0 = true /\ alloc1 = true /\
         0 <= reg0 /\ 0 <= reg1) \/
      (r < 0 /\ ((alloc0 = false /\ d0 = None /\ d1 = None) \/
                 (alloc0 = true /\ alloc1 = false /\ d0 = Some Allocated /\ d1 = None) \/
                 (alloc1 = true /\ r = reg0 /\ d0 = None /\ d1 = Some Allocated)))
  | Err e => e = BadFree /\ alloc0 = true /\ alloc1 = true /\ 0 <= reg0 /\ reg1 < 0
  end.
Proof.
  unfold dummeth_init_module, ENOMEM.
  destruct alloc0, alloc1, (reg0 <? 0) eqn:E0, (reg1 <? 0) eqn:E1; simpl; split_and?; try done; try lia;
    ((left; split_and!; (done || lia)) || (right; split; [lia|tauto])).
Qed.

(** ** Witnesses *)

Definition demo_csum (header : list Z) (words : Z) : Z := 0.
Definition demo_net : net := Eval vm_compute in
  match loaded 2%nat (fun _ => true) (fun _ => true) with
  | Ok (_, s) => s
  | Err _ => mk_net ∅ ∅ blank_priv blank_priv []
  end.
Lemma demo_net_reach : reach 0 demo_csum 2%nat demo_net (mk_wire [] [] []).
Proof. apply (reach_loaded _ _ _ (fun _ => true) (fun _ => true)); [lia|done..]. Qed.
(** Both devices are opened, and a socket buffer is allocated. *)
Definition demo_ops : list op := [Open false; Open true; New 5%nat].
Definition after (s : net) (os : list op) : net :=
  foldl (fun s o => match run_op 0 demo_csum o s with Ok (_, s') => s' | Err _ => s end) s os.
Definition demo_net1 : net := Eval vm_compute in after demo_net demo_ops.
Lemma demo_net1_reach : reach 0 demo_csum 2%nat demo_net1 (mk_wire [] [] []).
Proof.
  apply (reach_step _ _ _ (New 5%nat) (after demo_net [Open false; Open true])); [|by_compute|by vm_compute].
  apply (reach_step _ _ _ (Open true) (after demo_net [Open false])); [|done|by vm_compute].
  apply (reach_step _ _ _ (Open false) demo_net); [apply demo_net_reach|done|by vm_compute].
Qed.


Lemma xmit_long_frame_overruns_witness :
  dummeth_xmit true 0 demo_csum true 5%nat (replicate 1514%nat 7) false demo_net1 = Err OutOfBounds.
Proof.
  apply (xmit_long_frame_overruns 0 demo_csum 2%nat demo_net1 _ false 5%nat (replicate 1514%nat 7) demo_net1_reach);
    [done|vm_compute; done].
Defined.

Lemma timeout_sleeps_in_atomic_witness : dummeth_tx_timeout true true 2%nat (fun _ => true) false demo_net1 = Err SleepInAtomic.
Proof. apply (timeout_sleeps_in_atomic 0 demo_csum 2%nat demo_net1 _ false (fun _ => true) demo_net1_reach). Defined.

(** The only buffer of a pool of one is sent, and the device stopped. *)
Definition demo_net2 : net := Eval vm_compute in
  match loaded 1%nat (fun _ => true) (fun _ => true) with
  | Ok (_, s) => s
  | Err _ => mk_net ∅ ∅ blank_priv blank_priv []
  end.
Definition demo_net3 : net := Eval vm_compute in after demo_net2 [Open false; New 5%nat; Xmit false 5%nat (replicate 60%nat 7); Stop false].
Lemma demo_net3_reach : exists w, reach 0 demo_csum 1%nat demo_net3 w.
Proof.
  eexists.
  apply (reach_step _ _ _ (Stop false) (after demo_net2 [Open false; New 5%nat; Xmit false 5%nat (replicate 60%nat 7)])); [|by vm_compute|by vm_compute].
  apply (reach_step _ _ _ (Xmit false 5%nat (replicate 60%nat 7)) (after demo_net2 [Open false; New 5%nat])); [| |by vm_compute].
  - apply (reach_step _ _ _ (New 5%nat) (after demo_net2 [Open false])); [|by_compute|by vm_compute].
    apply (reach_step _ _ _ (Open false) demo_net2); [|done|by vm_compute].
    apply (reach_loaded _ _ _ (fun _ => true) (fun _ => true)); [lia|done..].
  - split_and!; [done|by_compute|done|done].
Qed.

Lemma empty_pool_keeps_the_lock_witness :
  exists s1 s2, dummeth_open true false demo_net3 = Ok (0, s1) /\
    dummeth_xmit true 0 demo_csum true 5%nat (replicate 60%nat 7) false s1 = Ok (0, s2) /\
    dummeth_poll (fun _ => true) true false 1%nat s2 = Err Deadlock.
Proof.
  destruct demo_net3_reach as [w Hr].
  destruct (empty_pool_keeps_the_lock 0 demo_csum 1%nat demo_net3 w false 5%nat (replicate 60%nat 7)
    5%nat (replicate 60%nat 7) (fun _ => true) true 0%nat Hr eq_refl eq_refl)
    as (s1 & s2 & H1 & _ & H2 & _ & _ & _ & _ & H3).
  exact (ex_intro _ s1 (ex_intro _ s2 (conj H1 (conj H2 H3)))).
Defined.

Lemma regular_timeout_frees_twice_witness :
  exists s', dummeth_regular_interrupt true false
      (put_priv demo_net1 false (set_skb (Some 5%nat) (set_status 2 (priv0 demo_net1)))) = Ok (tt, s') /\
    dummeth_tx_timeout false true 2%nat (fun _ => true) false s' = Err BadFree.
Proof.
  destruct (regular_timeout_frees_twice
    (put_priv demo_net1 false (set_skb (Some 5%nat) (set_status 2 (priv0 demo_net1)))) false 5%nat true 2%nat
    (fun _ => true) eq_refl eq_refl eq_refl) as (s' & H1 & _ & H2).
  - by_compute.
  - exact (ex_intro _ s' (conj H1 H2)).
Defined.

Lemma cleanup_leaks_frames_in_flight_witness :
  exists s', dummeth_cleanup_module demo_net1 = Ok (tt, s') /\ size (pkts s') = 0%nat.
Proof. apply (cleanup_leaks_frames_in_flight 0 demo_csum 2%nat demo_net1 _ demo_net1_reach). Defined.
