(* ===== verification/RcuList.v ===== *)
(** * The library of books under RCU

    src/ksync-rcu/list_rcu.c: a linked list of books read under RCU, changed by
    replacing or removing nodes, and reclaimed after a grace period, by a callback or
    by waiting. Every function of the file is a state machine over the shared memory,
    one shared access a step, so that any number of threads can interleave; each has
    its Definition below.

    The list keeps the order of its nodes; a node that was unlinked keeps the next
    pointer it had, as [list_del_rcu] and [list_replace_rcu] promise, and unlinking a
    node that is not on the list follows its poisoned back pointer, a fault. A grace
    period waits for the read-side sections that were open when it began. *)
From S2P Require Import Prelude.
From stdpp Require Import base numbers list gmap.
Local Open Scope Z_scope.

Module Rcu.

Definition addr : Type := nat.
Definition tid : Type := nat.

Record book := mk_book { id : Z; name : list Z; author : list Z; borrow : Z }.
Definition set_borrow (x : Z) (b : book) : book := mk_book (id b) (name b) (author b) x.

(** [strncpy] into a field of 64 bytes. *)
Definition NAME_LEN : nat := 64.
Definition strncpy (src : list Z) : list Z :=
  let s := take NAME_LEN (c_chars src) in s ++ replicate (NAME_LEN - length s) 0.

(** Books; the nodes on the list, first to last; the next pointers of unlinked nodes;
    the holder of [books_lock]; the threads in a read-side section; the nodes whose
    grace period runs, with the sections it waits for and whether a callback frees
    them; the lines printed. *)
Record shared := mk_shared {
  heap : gmap addr book;
  books : list addr;
  stale : gmap addr (option addr);
  books_lock : option tid;
  readers : gset tid;
  pending : gmap addr (gset tid * bool);
  printed : list (Z * list Z * list Z * Z * addr);
}.

Definition set_heap (h : gmap addr book) (s : shared) : shared :=
  mk_shared h (books s) (stale s) (books_lock s) (readers s) (pending s) (printed s).
Definition set_lock (o : option tid) (s : shared) : shared :=
  mk_shared (heap s) (books s) (stale s) o (readers s) (pending s) (printed s).
Definition set_links (l : list addr) (m : gmap addr (option addr)) (s : shared) : shared :=
  mk_shared (heap s) l m (books_lock s) (readers s) (pending s) (printed s).
Definition set_pending (m : gmap addr (gset tid * bool)) (s : shared) : shared :=
  mk_shared (heap s) (books s) (stale s) (books_lock s) (readers s) m (printed s).
Definition add_line (x : Z * list Z * list Z * Z * addr) (s : shared) : shared :=
  mk_shared (heap s) (books s) (stale s) (books_lock s) (readers s) (pending s) (printed s ++ [x]).

(** ** Kernel interfaces *)

Definition rcu_read_lock (t : tid) (s : shared) : shared :=
  mk_shared (heap s) (books s) (stale s) (books_lock s) ({[t]} ∪ readers s) (pending s) (printed s).
(** Leaving a section ends what grace periods waited for it. *)
Definition rcu_read_unlock (t : tid) (s : shared) : shared :=
  mk_shared (heap s) (books s) (stale s) (books_lock s) (readers s ∖ {[t]})
    ((fun '(w, cb) => (w ∖ {[t]}, cb)) <$> pending s) (printed s).

Fixpoint successor (a : addr) (l : list addr) : option addr :=
  match l with
  | [] => None
  | x :: l' => if decide (x = a) then head l' else successor a l'
  end.
Definition next (a : addr) (s : shared) : option addr :=
  match stale s !! a with Some n => n | None => successor a (books s) end.

Definition list_add_rcu (a : addr) (s : shared) : shared := set_links (a :: books s) (stale s) s.

Fixpoint replace_in (old new : addr) (l : list addr) : list addr :=
  match l with
  | [] => []
  | x :: l' => if decide (x = old) then new :: l' else x :: replace_in old new l'
  end.
Fixpoint remove_in (a : addr) (l : list addr) : list addr :=
  match l with
  | [] => []
  | x :: l' => if decide (x = a) then l' else x :: remove_in a l'
  end.

Definition list_replace_rcu (old new : addr) (s : shared) : res shared :=
  if decide (is_Some (heap s !! old)) then
    if decide (old ∈ books s)
    then Ok (set_links (replace_in old new (books s)) (<[old := successor old (books s)]> (stale s)) s)
    else Err OutOfBounds
  else Err UseAfterFree.
Definition list_del_rcu (a : addr) (s : shared) : res shared :=
  if decide (is_Some (heap s !! a)) then
    if decide (a ∈ books s)
    then Ok (set_links (remove_in a (books s)) (<[a := successor a (books s)]> (stale s)) s)
    else Err OutOfBounds
  else Err UseAfterFree.

(** A grace period for node [a]. *)
Definition start_grace (a : addr) (callback : bool) (s : shared) : shared :=
  set_pending (<[a := (readers s, callback)]> (pending s)) s.
Definition grace_over (a : addr) (callback : bool) (s : shared) : bool :=
  bool_decide (pending s !! a = Some (∅, callback)).
Definition kfree (a : addr) (s : shared) : shared :=
  mk_shared (delete a (heap s)) (books s) (delete a (stale s)) (books_lock s) (readers s)
    (delete a (pending s)) (printed s).

(** One step of a thread: the new memory and where the thread is, [None] when the
    thread has to wait. *)
Definition step_to (P : Type) : Type := res (option (shared * P)).
Definition go {P} (s : shared) (p : P) : step_to P := Ok (Some (s, p)).
Definition wait {P} : step_to P := Ok None.
Definition access {P} (a : addr) (s : shared) (k : book -> step_to P) : step_to P :=
  match heap s !! a with Some b => k b | None => Err UseAfterFree end.
Definition spin_lock {P} (t : tid) (s : shared) (p : P) : step_to P :=
  match books_lock s with None => go (set_lock (Some t) s) p | Some _ => wait end.

(** ** The functions of the module *)

Inductive add_pc := AInit | ALock (b : addr) | ALink (b : addr) | AUnlock | AReturn.

Definition add_book (id : Z) (name author : list Z) (kzalloc_ok : bool) (t : tid) (pc : add_pc) (s : shared)
    : step_to add_pc :=
  match pc with
  | AInit =>
      if negb kzalloc_ok then go s AReturn
      else
        let b := fresh (dom (heap s)) in
        go (set_heap (<[b := mk_book id (strncpy name) (strncpy author) 0]> (heap s)) s) (ALock b)
  | ALock b => spin_lock t s (ALink b)
  | ALink b => go (list_add_rcu b s) AUnlock
  | AUnlock => go (set_lock None s) AReturn
  | AReturn => wait
  end.

(** [borrow_book] and [return_book] walk, copy, replace and reclaim alike. *)
Inductive upd_pc :=
  | URead | UFirst | UWalk (b : option addr) | URefuse | UAlloc (old_b : addr)
  | ULock (old_b new_b : addr) | UReplace (old_b new_b : addr) | UUnlock (old_b : addr)
  | UReadUnlock (old_b : addr) | UReclaim (old_b : addr) | USync (old_b : addr) | UReturn (r : Z).

Section update.
(** The test that refuses the book, and the new value of its flag. *)
Context (refuse : book -> bool) (flag : Z).

Definition update_book (bid : Z) (async kzalloc_ok : bool) (t : tid) (pc : upd_pc) (s : shared)
    : step_to upd_pc :=
  match pc with
  | URead => go (rcu_read_lock t s) UFirst
  | UFirst => go s (UWalk (head (books s)))
  | UWalk None => go s URefuse
  | UWalk (Some b) =>
      access b s (fun x =>
        if id x =? bid then if refuse x then go s URefuse else go s (UAlloc b)
        else go s (UWalk (next b s)))
  | URefuse => go (rcu_read_unlock t s) (UReturn (-1))
  | UAlloc old_b =>
      if negb kzalloc_ok then go s URefuse
      else access old_b s (fun x =>
        let new_b := fresh (dom (heap s)) in
        go (set_heap (<[new_b := set_borrow flag x]> (heap s)) s) (ULock old_b new_b))
  | ULock old_b new_b => spin_lock t s (UReplace old_b new_b)
  | UReplace old_b new_b =>
      match list_replace_rcu old_b new_b s with
      | Ok s' => go s' (UUnlock old_b)
      | Err e => Err e
      end
  | UUnlock old_b => go (set_lock None s) (UReadUnlock old_b)
  | UReadUnlock old_b => go (rcu_read_unlock t s) (UReclaim old_b)
  | UReclaim old_b => go (start_grace old_b async s) (if async then UReturn 0 else USync old_b)
  | USync old_b => if grace_over old_b false s then go (kfree old_b s) (UReturn 0) else wait
  | UReturn _ => wait
  end.
End update.

Definition borrow_book : Z -> bool -> bool -> tid -> upd_pc -> shared -> step_to upd_pc :=
  update_book (fun b => negb (borrow b =? 0)) 1.
Definition return_book : Z -> bool -> bool -> tid -> upd_pc -> shared -> step_to upd_pc :=
  update_book (fun b => borrow b =? 0) 0.

Inductive del_pc :=
  | DLock | DFirst | DWalk (b : option addr) | DDel (b : addr) | DUnlock (b : addr) | DReclaim (b : addr)
  | DSync (b : addr) | DMissing | DReturn.

Definition delete_book (bid : Z) (async : bool) (t : tid) (pc : del_pc) (s : shared) : step_to del_pc :=
  match pc with
  | DLock => spin_lock t s DFirst
  | DFirst => go s (DWalk (head (books s)))
  | DWalk None => go s DMissing
  | DWalk (Some b) =>
      access b s (fun x => if id x =? bid then go s (DDel b) else go s (DWalk (next b s)))
  | DDel b =>
      match list_del_rcu b s with
      | Ok s' => go s' (DUnlock b)
      | Err e => Err e
      end
  | DUnlock b => go (set_lock None s) (DReclaim b)
  | DReclaim b => go (start_grace b async s) (if async then DReturn else DSync b)
  | DSync b => if grace_over b false s then go (kfree b s) DReturn else wait
  | DMissing => go (set_lock None s) DReturn
  | DReturn => wait
  end.

Inductive print_pc := PRead | PFirst | PWalk (b : option addr) | PUnlock | PReturn.

(** The fields follow each other in memory, so a name without a zero byte is printed
    up to the first zero byte behind it. *)
Definition book_line (a : addr) (b : book) : option (Z * list Z * list Z * Z * addr) :=
  n ← c_string (name b ++ author b ++ le_bytes 4 (borrow b));
  w ← c_string (author b ++ le_bytes 4 (borrow b));
  Some (id b, n, w, borrow b, a).

Definition print_book (bid : Z) (t : tid) (pc : print_pc) (s : shared) : step_to print_pc :=
  match pc with
  | PRead => go (rcu_read_lock t s) PFirst
  | PFirst => go s (PWalk (head (books s)))
  | PWalk None => go s PUnlock
  | PWalk (Some b) =>
      access b s (fun x =>
        if id x =? bid then
          match book_line b x with
          | Some line => go (add_line line s) PUnlock
          | None => Err OutOfBounds
          end
        else go s (PWalk (next b s)))
  | PUnlock => go (rcu_read_unlock t s) PReturn
  | PReturn => wait
  end.

Inductive read_pc :=
  | RRead | RFirst | RWalk (b : option addr) | RUnlock (b : addr) | RFlag (b : addr) | RMissing
  | RReturn (r : Z).

(** The flag is read after the section was left. *)
Definition is_borrowed_book (bid : Z) (t : tid) (pc : read_pc) (s : shared) : step_to read_pc :=
  match pc with
  | RRead => go (rcu_read_lock t s) RFirst
  | RFirst => go s (RWalk (head (books s)))
  | RWalk None => go s RMissing
  | RWalk (Some b) =>
      access b s (fun x => if id x =? bid then go s (RUnlock b) else go s (RWalk (next b s)))
  | RUnlock b => go (rcu_read_unlock t s) (RFlag b)
  | RFlag b => access b s (fun x => go s (RReturn (borrow x)))
  | RMissing => go (rcu_read_unlock t s) (RReturn (-1))
  | RReturn _ => wait
  end.

(** The callback of [call_rcu], once the grace period of its node is over. *)
Definition book_reclaim_callback (a : addr) (s : shared) : option shared :=
  if grace_over a true s then Some (kfree a s) else None.

(** ** Threads *)

Inductive proc :=
  | Add (id : Z) (name author : list Z) (pc : add_pc)
  | Update (returning : bool) (id : Z) (async : bool) (pc : upd_pc)
  | Delete (id : Z) (async : bool) (pc : del_pc)
  | Print (id : Z) (pc : print_pc)
  | IsBorrowed (id : Z) (pc : read_pc).

Definition lift {P} (f : P -> proc) (r : step_to P) : step_to proc :=
  match r with
  | Ok (Some (s, p)) => Ok (Some (s, f p))
  | Ok None => Ok None
  | Err e => Err e
  end.

Definition step_proc (kzalloc_ok : bool) (t : tid) (p : proc) (s : shared) : step_to proc :=
  match p with
  | Add i n w pc => lift (Add i n w) (add_book i n w kzalloc_ok t pc s)
  | Update false i async pc => lift (Update false i async) (borrow_book i async kzalloc_ok t pc s)
  | Update true i async pc => lift (Update true i async) (return_book i async kzalloc_ok t pc s)
  | Delete i async pc => lift (Delete i async) (delete_book i async t pc s)
  | Print i pc => lift (Print i) (print_book i t pc s)
  | IsBorrowed i pc => lift (IsBorrowed i) (is_borrowed_book i t pc s)
  end.

(** A call that begins, a thread that changes the list, a thread that is done. *)
Definition begins (p : proc) : bool :=
  match p with
  | Add _ _ _ AInit | Update _ _ _ URead | Delete _ _ DLock | Print _ PRead | IsBorrowed _ RRead => true
  | _ => false
  end.
Definition finished (p : proc) : bool :=
  match p with
  | Add _ _ _ AReturn | Update _ _ _ (UReturn _) | Delete _ _ DReturn | Print _ PReturn
  | IsBorrowed _ (RReturn _) => true
  | _ => false
  end.
Definition updates (p : proc) : bool :=
  match p with
  | Add _ _ _ AReturn | Update _ _ _ (UReturn _) | Delete _ _ DReturn => false
  | Add _ _ _ _ | Update _ _ _ _ | Delete _ _ _ => true
  | _ => false
  end.

Record sys := mk_sys { mem : shared; procs : gmap tid proc }.

Definition start : sys := mk_sys (mk_shared ∅ [] ∅ None ∅ ∅ []) ∅.

(** What can happen next: a call on a thread that runs none, a step of a thread, a
    callback. *)
Inductive event := Call (t : tid) (p : proc) | Run (t : tid) (kzalloc_ok : bool) | Callback (a : addr).

Definition idle (x : sys) (t : tid) : bool :=
  match procs x !! t with None => true | Some p => finished p end.

Definition happens (e : event) (x : sys) : res (option sys) :=
  match e with
  | Call t p =>
      if idle x t && begins p then Ok (Some (mk_sys (mem x) (<[t := p]> (procs x)))) else Ok None
  | Run t ok =>
      match procs x !! t with
      | None => Ok None
      | Some p =>
          match step_proc ok t p (mem x) with
          | Ok (Some (s, p')) => Ok (Some (mk_sys s (<[t := p']> (procs x))))
          | Ok None => Ok None
          | Err e => Err e
          end
      end
  | Callback a => Ok ((fun s => mk_sys s (procs x)) <$> book_reclaim_callback a (mem x))
  end.

Definition no_updater (x : sys) : Prop := map_Forall (fun _ p => updates p = false) (procs x).

(** Updates one after the other, reads at any time: a function that changes the list is
    called when no other is under way. *)
Definition one_updater (e : event) (x : sys) : Prop :=
  match e with
  | Call _ p => updates p = true -> no_updater x
  | _ => True
  end.

Inductive reach : sys -> Prop :=
  | reach_start : reach start
  | reach_step x e x' : reach x -> one_updater e x -> happens e x = Ok (Some x') -> reach x'.

(** A schedule run from a state; events that cannot happen are skipped. *)
Fixpoint run (es : list event) (x : sys) : res sys :=
  match es with
  | [] => Ok x
  | e :: es' =>
      match happens e x with
      | Ok (Some x') => run es' x'
      | Ok None => run es' x
      | Err f => Err f
      end
  end.

(** ** Where a thread is *)

Definition in_section (p : proc) : bool :=
  match p with
  | Update _ _ _ pc =>
      match pc with
      | UFirst | UWalk _ | URefuse | UAlloc _ | ULock _ _ | UReplace _ _ | UUnlock _ | UReadUnlock _ => true
      | _ => false
      end
  | Print _ pc => match pc with PFirst | PWalk _ | PUnlock => true | _ => false end
  | IsBorrowed _ pc => match pc with RFirst | RWalk _ | RUnlock _ | RMissing => true | _ => false end
  | _ => false
  end.

Definition holds_lock (p : proc) : bool :=
  match p with
  | Add _ _ _ (ALink _ | AUnlock) | Update _ _ _ (UReplace _ _ | UUnlock _)
  | Delete _ _ (DFirst | DWalk _ | DDel _ | DUnlock _ | DMissing) => true
  | _ => false
  end.

(** The node a reader is about to read inside its section. *)
Definition cursor (p : proc) : option addr :=
  match p with
  | Print _ (PWalk b) | IsBorrowed _ (RWalk b) => b
  | _ => None
  end.

(** The node an updater has unlinked and not yet handed to a grace period. *)
Definition limbo (p : proc) : option addr :=
  match p with
  | Update _ _ _ (UUnlock b | UReadUnlock b | UReclaim b) | Delete _ _ (DUnlock b | DReclaim b) => Some b
  | _ => None
  end.

(** The node whose grace period a thread waits for. *)
Definition syncs (p : proc) : option addr :=
  match p with Update _ _ _ (USync b) | Delete _ _ (DSync b) => Some b | _ => None end.

(** The function that a thread executes. *)
Inductive call :=
  | CAdd (id : Z) (name author : list Z) | CUpdate (returning : bool) (id : Z) | CDelete (id : Z)
  | CRead.
Definition call_of (p : proc) : call :=
  match p with
  | Add i n w _ => CAdd i n w
  | Update r i _ _ => CUpdate r i
  | Delete i _ _ => CDelete i
  | _ => CRead
  end.

(** ** The library the list stands for *)

Definition library (s : shared) : list book := omap (fun a => heap s !! a) (books s).

Fixpoint change_first (i : Z) (f : book -> option (list book)) (l : list book) : option (list book) :=
  match l with
  | [] => None
  | b :: l' => if id b =? i then (fun x => x ++ l') <$> f b else cons b <$> change_first i f l'
  end.

(** What each function does to the library; [None]: it refuses. *)
Definition lib_apply (c : call) (l : list book) : option (list book) :=
  match c with
  | CAdd i n w => Some (mk_book i (strncpy n) (strncpy w) 0 :: l)
  | CUpdate false i =>
      change_first i (fun b => if borrow b =? 0 then Some [set_borrow 1 b] else None) l
  | CUpdate true i =>
      change_first i (fun b => if borrow b =? 0 then None else Some [set_borrow 0 b]) l
  | CDelete i => change_first i (fun _ => Some []) l
  | CRead => Some l
  end.

(** ** The list primitives *)

Lemma successor_split a pre suf : (a ∉ pre) -> successor a (pre ++ a :: suf) = head suf.
Proof.
  induction pre as [|x pre IH]; intros Hn; simpl.
  - by rewrite decide_True.
  - apply not_elem_of_cons in Hn as [Hx Hn]. rewrite decide_False by done. by apply IH.
Qed.
Lemma replace_split a b pre suf : (a ∉ pre) -> replace_in a b (pre ++ a :: suf) = pre ++ b :: suf.
Proof.
  induction pre as [|x pre IH]; intros Hn; simpl.
  - by rewrite decide_True.
  - apply not_elem_of_cons in Hn as [Hx Hn]. rewrite decide_False by done. by rewrite IH.
Qed.
Lemma remove_split a pre suf : (a ∉ pre) -> remove_in a (pre ++ a :: suf) = pre ++ suf.
Proof.
  induction pre as [|x pre IH]; intros Hn; simpl.
  - by rewrite decide_True.
  - apply not_elem_of_cons in Hn as [Hx Hn]. rewrite decide_False by done. by rewrite IH.
Qed.
Lemma successor_in a m l : successor a l = Some m -> m ∈ l.
Proof.
  induction l as [|x l IH]; simpl; [done|]. destruct (decide _).
  - intros H. right. destruct l; simplify_eq/=. left.
  - intros H. right. by apply IH.
Qed.
Lemma nodup_mid (pre suf : list addr) a : NoDup (pre ++ a :: suf) -> (a ∉ pre) /\ (a ∉ suf).
Proof.
  rewrite NoDup_app, NoDup_cons. intros (_ & H & Hs & _). split; [|done]. intros Hin. apply (H a Hin). left.
Qed.

(** ** Invariants of the memory *)

(** A node that thread [t] may read in its section: on the list, unlinked and not yet
    handed to a grace period, or awaited by a grace period that waits for [t]. *)
Definition awaited (t : tid) (s : shared) (a : addr) : Prop :=
  exists w cb, pending s !! a = Some (w, cb) /\ t ∈ w.
Definition protected (t : tid) (s : shared) (a : addr) : Prop :=
  a ∈ books s \/ (is_Some (stale s !! a) /\ pending s !! a = None) \/ (is_Some (stale s !! a) /\ awaited t s a).

Record sinv (s : shared) : Prop := {
  s_nodup : NoDup (books s);
  s_live : forall a, a ∈ books s -> is_Some (heap s !! a) /\ stale s !! a = None;
  s_stale : forall a, is_Some (stale s !! a) -> is_Some (heap s !! a);
  s_pend : forall a w cb, pending s !! a = Some (w, cb) -> is_Some (stale s !! a) /\ w ⊆ readers s;
  s_limbo : forall a m, stale s !! a = Some (Some m) -> pending s !! a = None -> m ∈ books s;
  s_next : forall t a m, awaited t s a -> stale s !! a = Some (Some m) -> protected t s m;
  s_flag : forall a b, heap s !! a = Some b -> borrow b = 0 \/ borrow b = 1;
}.

Lemma protected_live t s a : sinv s -> protected t s a -> is_Some (heap s !! a).
Proof. intros Hs [H|[[H _]|[H _]]]; [by apply s_live|by apply s_stale..]. Qed.

(** The heart of RCU: the next pointer of a protected node leads to a protected node. *)
Lemma protected_next t s a m : sinv s -> protected t s a -> next a s = Some m -> protected t s m.
Proof.
  intros Hs Hp Hn. unfold next in Hn. destruct (stale s !! a) as [n|] eqn:E.
  - subst n. destruct Hp as [Hin|[[_ Hno]|[_ Haw]]].
    + destruct (s_live s Hs a Hin). congruence.
    + left. by eapply s_limbo.
    + by eapply s_next.
  - left. by eapply successor_in.
Qed.

Section changes.
Context (s : shared) (t : tid) (Hs : sinv s).

Lemma sinv_read_lock : (t ∉ readers s) -> sinv (rcu_read_lock t s).
Proof.
  destruct Hs as [H1 H2 H3 H4 H5 H6 H7]. intros Ht. split; simpl; auto.
  intros a w cb Ha. destruct (H4 a w cb Ha). split; [done|]. set_solver.
Qed.

Lemma pending_unlock a : pending (rcu_read_unlock t s) !! a =
  (fun '(w, cb) => (w ∖ {[t]}, cb)) <$> pending s !! a.
Proof. simpl. by rewrite lookup_fmap. Qed.

Lemma awaited_unlock t' a : awaited t' (rcu_read_unlock t s) a <-> awaited t' s a /\ t' <> t.
Proof.
  unfold awaited. rewrite pending_unlock. split.
  - intros (w & cb & Hp & Hw). destruct (pending s !! a) as [[w0 cb0]|]; simplify_eq/=. set_solver.
  - intros [(w & cb & -> & Hw) Hne]. eexists _, _. split; [done|]. set_solver.
Qed.
Lemma protected_unlock t' a : protected t' s a -> t' <> t -> protected t' (rcu_read_unlock t s) a.
Proof.
  intros [H|[[H1 H2]|[H1 H2]]] Hne; [by left|right; left|right; right]; (split; [done|]).
  - by rewrite pending_unlock, H2.
  - by apply awaited_unlock.
Qed.

Lemma sinv_read_unlock : sinv (rcu_read_unlock t s).
Proof.
  pose proof Hs as [H1 H2 H3 H4 H5 H6 H7]. split; auto.
  - intros a w cb. rewrite pending_unlock. destruct (pending s !! a) as [[w0 cb0]|] eqn:E; [|done].
    intros [= <- <-]. destruct (H4 a w0 cb0 E). split; [done|]. simpl. set_solver.
  - intros a m. rewrite pending_unlock. simpl. destruct (pending s !! a) eqn:E; [done|]. intros. by eapply H5.
  - intros t' a m [Ha Hne]%awaited_unlock Hm. apply protected_unlock; [by eapply H6|done].
Qed.

Lemma sinv_alloc a b : heap s !! a = None -> (borrow b = 0 \/ borrow b = 1) ->
  sinv (set_heap (<[a := b]> (heap s)) s).
Proof.
  destruct Hs as [H1 H2 H3 H4 H5 H6 H7]. intros Ha Hb. split; simpl; auto.
  - intros c Hc. destruct (H2 c Hc). split; [|done]. rewrite lookup_insert_is_Some'. auto.
  - intros c Hc. rewrite lookup_insert_is_Some'. auto.
  - intros c x. rewrite lookup_insert_Some. intros [[_ <-]|[_ Hx]]; [done|by eapply H7].
Qed.

Lemma sinv_lock o : sinv (set_lock o s).
Proof. by destruct Hs. Qed.
Lemma sinv_line x : sinv (add_line x s).
Proof. by destruct Hs. Qed.

Lemma protected_add a t' c : protected t' s c -> protected t' (list_add_rcu a s) c.
Proof. intros [H|H]; [left; by right|by right]. Qed.
Lemma sinv_add a : is_Some (heap s !! a) -> (a ∉ books s) -> stale s !! a = None -> sinv (list_add_rcu a s).
Proof.
  pose proof Hs as [H1 H2 H3 H4 H5 H6 H7]. intros Ha Hnot Hst. split; simpl; auto.
  - by apply NoDup_cons.
  - intros c [->|Hc]%elem_of_cons; auto.
  - intros c m Hc Hp. right. by eapply H5.
  - intros t' c m Haw Hm. apply protected_add. by eapply H6.
Qed.

(** Unlinking [a] and linking [mid] in its place. *)
Definition unlink (a : addr) (pre mid suf : list addr) : shared :=
  set_links (pre ++ mid ++ suf) (<[a := head suf]> (stale s)) s.

Section unlink.
Context (a : addr) (pre mid suf : list addr).
Context (Hbooks : books s = pre ++ a :: suf) (Hnone : forall c, is_Some (stale s !! c) -> is_Some (pending s !! c)).
Context (Hmid : Forall (fun c => is_Some (heap s !! c) /\ (c ∉ books s) /\ stale s !! c = None) mid) (Hnd : NoDup mid).

Lemma unlinked_pending : pending s !! a = None /\ stale s !! a = None.
Proof.
  assert (stale s !! a = None) as Ha by (apply s_live; [done|rewrite Hbooks; set_solver]). split; [|done].
  destruct (pending s !! a) as [[w cb]|] eqn:E; [|done]. destruct (s_pend s Hs a w cb E) as [[? ?] _]. congruence.
Qed.

Lemma protected_unlink t' c : protected t' s c -> protected t' (unlink a pre mid suf) c.
Proof.
  destruct unlinked_pending as [Hpa Hsa]. intros Hc. unfold protected, awaited, unlink. simpl.
  destruct (decide (c = a)) as [->|Hne].
  - right. left. by rewrite lookup_insert_eq.
  - rewrite lookup_insert_ne by done. destruct Hc as [Hc|Hc]; [left|by right].
    rewrite Hbooks in Hc. set_solver.
Qed.

Lemma sinv_unlink : sinv (unlink a pre mid suf).
Proof.
  destruct unlinked_pending as [Hpa Hsa]. pose proof Hs as [H1 H2 H3 H4 H5 H6 H7].
  pose proof H1 as Hnd'. rewrite Hbooks in Hnd'. destruct (nodup_mid _ _ _ Hnd') as [Hna Hnb].
  pose proof Hmid as Hfor. rewrite Forall_forall in Hfor.
  split; simpl; auto.
  - rewrite Hbooks in Hfor. apply NoDup_app in Hnd' as (Hp & Hd & [_ Hsuf]%NoDup_cons).
    apply NoDup_app. split; [done|]. split; [|apply NoDup_app; split; [done|]; split; [|done]].
    + intros c Hc [Hm|Hm]%elem_of_app; [destruct (Hfor c Hm) as (_ & Hno & _); set_solver|].
      apply (Hd c Hc). by right.
    + intros c Hm Hc. destruct (Hfor c Hm) as (_ & Hno & _). set_solver.
  - intros c Hc. assert (c <> a) as Hne.
    { intros ->. rewrite !elem_of_app in Hc. destruct Hc as [?|[Hm|?]]; [done| |done].
      destruct (Hfor a Hm) as (_ & Hno & _). apply Hno. rewrite Hbooks. set_solver. }
    rewrite lookup_insert_ne by done. rewrite !elem_of_app in Hc.
    destruct Hc as [Hc|[Hm|Hc]]; [apply H2; rewrite Hbooks; set_solver|by apply Hfor in Hm as (? & _ & ?)|].
    apply H2. rewrite Hbooks. set_solver.
  - intros c. rewrite lookup_insert_is_Some'. intros [<-|Hc]; [|by apply H3].
    apply H2. rewrite Hbooks. set_solver.
  - intros c w cb Hc. destruct (H4 c w cb Hc). split; [|done]. rewrite lookup_insert_is_Some'. by right.
  - intros c m. rewrite lookup_insert_Some. intros [[<- Hm]|[Hne Hm]] Hp.
    + destruct suf; simplify_eq/=. set_solver.
    + destruct (Hnone c); [by eexists|congruence].
  - intros t' c m Haw. rewrite lookup_insert_Some. intros [[<- Hm]|[Hne Hm]].
    + destruct Haw as (w & cb & Hw & _). simpl in Hw. congruence.
    + apply protected_unlink. by eapply H6.
Qed.
End unlink.

Section grace.
Context (a : addr) (cb : bool) (Ha : is_Some (stale s !! a)) (Hp : pending s !! a = None).

Lemma protected_grace t' c : t' ∈ readers s -> protected t' s c -> protected t' (start_grace a cb s) c.
Proof.
  intros Ht [Hc|[[Hc1 Hc2]|[Hc1 (w & b & Hw & Hin)]]]; [by left|right..].
  - simpl. destruct (decide (c = a)) as [->|Hne].
    + right. split; [done|]. exists (readers s), cb. simpl. by rewrite lookup_insert_eq.
    + left. by rewrite lookup_insert_ne.
  - right. split; [done|]. exists w, b. simpl. rewrite lookup_insert_ne; [done|]. congruence.
Qed.

Lemma sinv_grace : sinv (start_grace a cb s).
Proof.
  pose proof Hs as [H1 H2 H3 H4 H5 H6 H7]. split; simpl; auto.
  - intros c w b. rewrite lookup_insert_Some. intros [[<- [= <- <-]]|[_ Hc]]; [done|by eapply H4].
  - intros c m Hm. rewrite lookup_insert_None. intros [Hc _]. by eapply H5.
  - intros t' c m (w & b & Hw & Hin) Hm. simpl in Hw. apply lookup_insert_Some in Hw as [[<- [= <- <-]]|[Hne Hw]].
    + left. by eapply H5.
    + destruct (H4 c w b Hw) as [_ Hsub]. apply protected_grace; [by apply Hsub|].
      eapply H6; [by exists w, b|done].
Qed.
End grace.

Section free.
Context (a : addr) (cb : bool) (Hover : pending s !! a = Some (∅, cb)).

Lemma freed_unprotected t' : ~ protected t' s a.
Proof.
  destruct (s_pend s Hs a _ _ Hover) as [Hst _]. intros [H|[[_ H]|[_ (w & b & Hw & Hin)]]].
  - destruct (s_live s Hs a H) as [_ H']. rewrite H' in Hst. by destruct Hst.
  - congruence.
  - rewrite Hover in Hw. injection Hw as <- <-. set_solver.
Qed.
Lemma freed_unlinked : a ∉ books s.
Proof. intros H. by apply (freed_unprotected 0%nat); left. Qed.

Lemma protected_free t' c : protected t' s c -> protected t' (kfree a s) c.
Proof.
  intros Hc. assert (a <> c) as Hne by (intros <-; by apply (freed_unprotected t')).
  unfold protected, awaited. simpl. by rewrite !lookup_delete_ne.
Qed.

Lemma sinv_free : sinv (kfree a s).
Proof.
  pose proof Hs as [H1 H2 H3 H4 H5 H6 H7]. split; simpl; auto.
  - intros c Hc. assert (a <> c) by (intros <-; by apply freed_unlinked). rewrite !lookup_delete_ne by done. by apply H2.
  - intros c [n Hn]. apply lookup_delete_Some in Hn as [Hne Hn]. rewrite lookup_delete_ne by done. apply H3. by exists n.
  - intros c w b [Hne Hc]%lookup_delete_Some. rewrite lookup_delete_ne by done. by eapply H4.
  - intros c m [Hne Hm]%lookup_delete_Some. rewrite lookup_delete_ne by done. by apply H5.
  - intros t' c m (w & b & Hw & Hin) [Hne Hm]%lookup_delete_Some. simpl in Hw. rewrite lookup_delete_ne in Hw by done.
    apply protected_free. eapply H6; [by exists w, b|done].
  - intros c b [_ Hc]%lookup_delete_Some. by eapply H7.
Qed.
End free.
End changes.

(** ** The library *)

(** The step that changes the library, and the step that refuses to. *)
Definition commits (p : proc) : bool :=
  match p with
  | Add _ _ _ (ALink _) | Update _ _ _ (UReplace _ _) | Delete _ _ (DDel _) => true
  | _ => false
  end.
Definition refusal (p p' : proc) : bool :=
  match p, p' with
  | Update _ _ _ (UWalk _), Update _ _ _ URefuse | Delete _ _ (DWalk _), Delete _ _ DMissing => true
  | _, _ => false
  end.
Definition lib_step (p p' : proc) (s s' : shared) : Prop :=
  if commits p then lib_apply (call_of p) (library s) = Some (library s')
  else library s' = library s /\ (refusal p p' = true -> lib_apply (call_of p) (library s) = None).

Lemma list_omap_cons {A B} (f : A -> option B) a (l : list A) :
  omap f (a :: l) = match f a with Some b => b :: omap f l | None => omap f l end.
Proof. done. Qed.
Lemma omap_in {A B} (f g : A -> option B) (l : list A) : (forall a, a ∈ l -> f a = g a) -> omap f l = omap g l.
Proof.
  induction l as [|a l IH]; [done|]. intros H. rewrite !list_omap_cons, (H a) by left.
  rewrite IH; [done|]. intros. apply H. by right.
Qed.
Lemma library_same s s' :
  books s' = books s -> (forall a, a ∈ books s -> heap s' !! a = heap s !! a) -> library s' = library s.
Proof. intros Hb Hh. unfold library. rewrite Hb. by apply omap_in. Qed.

Lemma change_first_skip i f l l' :
  Forall (fun b => id b <> i) l -> change_first i f (l ++ l') = app l <$> change_first i f l'.
Proof.
  induction 1 as [|b l Hb _ IH]; simpl; [by destruct (change_first i f l')|].
  destruct (id b =? i) eqn:E; [lia|]. rewrite IH. by destruct (change_first i f l').
Qed.

(** ** Invariants of the threads *)

Definition others (i : Z) (s : shared) (l : list addr) : Prop :=
  Forall (fun a => exists b, heap s !! a = Some b /\ id b <> i) l.
(** A walk for book [i] that has come to [c]. *)
Definition at_pos (s : shared) (i : Z) (c : option addr) : Prop :=
  exists pre suf, books s = pre ++ suf /\ c = head suf /\ others i s pre.
(** The first node with book [i]. *)
Definition found (s : shared) (i : Z) (a : addr) (b : book) : Prop :=
  exists pre suf, books s = pre ++ a :: suf /\ others i s pre /\ heap s !! a = Some b /\ id b = i.
Definition unlinked (s : shared) (a : addr) (b : book) : Prop :=
  heap s !! a = Some b /\ (a ∉ books s) /\ stale s !! a = None.
Definition refuses (returning : bool) (b : book) : bool :=
  if returning then borrow b =? 0 else negb (borrow b =? 0).
Definition flag_of (returning : bool) : Z := if returning then 0 else 1.

(** What an updater knows of the list. *)
Definition upos (p : proc) (s : shared) : Prop :=
  match p with
  | Add i n w (ALock a | ALink a) => unlinked s a (mk_book i (strncpy n) (strncpy w) 0)
  | Update _ i _ (UWalk c) | Delete i _ (DWalk c) => at_pos s i c
  | Update r i _ (UAlloc old) => exists b, found s i old b /\ refuses r b = false
  | Update r i _ (ULock old new | UReplace old new) =>
      exists b, found s i old b /\ refuses r b = false /\ unlinked s new (set_borrow (flag_of r) b)
  | Delete i _ (DDel a) => exists b, found s i a b
  | _ => True
  end.

Record tinv (t : tid) (p : proc) (s : shared) : Prop := {
  t_sec : t ∈ readers s <-> in_section p = true;
  t_lock : books_lock s = Some t <-> holds_lock p = true;
  t_cur : forall a, cursor p = Some a -> protected t s a;
  t_limbo : forall a, limbo p = Some a -> is_Some (stale s !! a) /\ pending s !! a = None;
  t_sync : forall a, syncs p = Some a -> exists w, pending s !! a = Some (w, false);
  t_pos : upos p s;
}.

Record inv (x : sys) : Prop := {
  i_mem : sinv (mem x);
  i_proc : forall t p, procs x !! t = Some p -> tinv t p (mem x);
  i_one : forall t t' p p', procs x !! t = Some p -> procs x !! t' = Some p' ->
    updates p = true -> updates p' = true -> t = t';
  i_unsub : forall a, is_Some (stale (mem x) !! a) -> pending (mem x) !! a = None ->
    exists t p, procs x !! t = Some p /\ limbo p = Some a;
  i_sec : forall t, t ∈ readers (mem x) -> is_Some (procs x !! t);
  i_lock : forall t, books_lock (mem x) = Some t -> is_Some (procs x !! t);
}.

(** A thread that does not update knows nothing of the list but its cursor. *)
Lemma reader_facts p : updates p = false ->
  holds_lock p = false /\ limbo p = None /\ syncs p = None /\ forall s, upos p s.
Proof. intros H. by destruct p as [? ? ? []|? ? ? []|? ? []|? []|? []]. Qed.

Lemma others_ids i s l : others i s l -> Forall (fun b => id b <> i) (omap (fun a => heap s !! a) l).
Proof. induction 1 as [|a l (b & Hb & Hi) _ IH]; [done|]. rewrite list_omap_cons, Hb. by constructor. Qed.

(** A walk to the end means the book is not there. *)
Lemma change_missing s i f : at_pos s i None -> change_first i f (library s) = None.
Proof.
  intros (pre & suf & Hb & Hh & Ho). destruct suf; [|done]. rewrite app_nil_r in Hb. unfold library.
  rewrite Hb, <- (app_nil_r (omap _ pre)), change_first_skip by (by apply others_ids). done.
Qed.
Lemma change_found s i f pre a suf b :
  books s = pre ++ a :: suf -> others i s pre -> heap s !! a = Some b -> id b = i ->
  change_first i f (library s) =
  (fun l => omap (fun a => heap s !! a) pre ++ l ++ omap (fun a => heap s !! a) suf) <$> f b.
Proof.
  intros Hb Ho Ha Hi. unfold library. rewrite Hb, omap_app, change_first_skip by (by apply others_ids).
  rewrite list_omap_cons, Ha. simpl. destruct (id b =? i) eqn:E; [|lia]. by destruct (f b).
Qed.

Lemma frame_reader t p s s' :
  tinv t p s -> updates p = false -> (t ∈ readers s' <-> t ∈ readers s) -> books_lock s' <> Some t ->
  (forall a, t ∈ readers s -> protected t s a -> protected t s' a) -> tinv t p s'.
Proof.
  intros [H1 H2 H3 H4 H5 H6] Hu Hr Hl Hp. destruct (reader_facts p Hu) as (Hh & Hli & Hsy & Hpos).
  split; rewrite ?Hh, ?Hli, ?Hsy; try done; try (by rewrite Hr).
  intros a Ha. apply Hp; [|by apply H3]. apply H1. by destruct p as [? ? ? []|? ? ? []|? ? []|? []|? []].
Qed.

(** Entering and leaving sections, and printing, does not disturb other threads. *)
Lemma frame_section t p s s' :
  tinv t p s -> heap s' = heap s -> books s' = books s -> stale s' = stale s -> books_lock s' = books_lock s ->
  (t ∈ readers s' <-> t ∈ readers s) -> (forall a, protected t s a -> protected t s' a) ->
  (forall a, pending s !! a = None -> pending s' !! a = None) ->
  (forall a w, pending s !! a = Some (w, false) -> exists w', pending s' !! a = Some (w', false)) ->
  tinv t p s'.
Proof.
  intros [H1 H2 H3 H4 H5 H6] Eh Eb Es El Hr Hp Hn Hw. split.
  - by rewrite Hr.
  - by rewrite El.
  - auto.
  - intros a Ha. rewrite Es. destruct (H4 a Ha). auto.
  - intros a Ha. destruct (H5 a Ha) as [w ?]. by eapply Hw.
  - unfold upos, unlinked, at_pos, found, others in *. by rewrite Eh, Eb, Es.
Qed.

Lemma frame_free t p s a cb :
  sinv s -> tinv t p s -> pending s !! a = Some (∅, cb) -> syncs p <> Some a -> tinv t p (kfree a s).
Proof.
  intros Hs [H1 H2 H3 H4 H5 H6] Hover Hsy. pose proof (freed_unlinked s Hs a cb Hover) as Hnot.
  destruct (s_pend s Hs a _ _ Hover) as [Hst _].
  assert (forall i l, (a ∉ l) -> others i s l -> others i (kfree a s) l) as Hoth.
  { intros i l Hl Ho. unfold others in *. rewrite Forall_forall in *. intros c Hc. simpl.
    rewrite lookup_delete_ne; [by apply Ho|]. by intros ->. }
  assert (forall i c b, found s i c b -> found (kfree a s) i c b) as Hfound.
  { intros i c b (pre & suf & Hb & Ho & Hc & Hi). rewrite Hb in Hnot. exists pre, suf. split; [done|].
    split; [apply Hoth; [set_solver|done]|]. simpl. rewrite lookup_delete_ne; [done|]. set_solver. }
  assert (forall c b, unlinked s c b -> unlinked (kfree a s) c b) as Hunl.
  { intros c b (Hc & Hn & Hcs). unfold unlinked. simpl. rewrite !lookup_delete_ne; [done|..];
      intros ->; rewrite Hcs in Hst; by destruct Hst. }
  split; simpl; auto.
  - intros c Hc. by eapply protected_free, H3.
  - intros c Hc. destruct (H4 c Hc) as [Hc1 Hc2]. rewrite !lookup_delete_ne by congruence. done.
  - intros c Hc. destruct (H5 c Hc) as [w Hw]. exists w. rewrite lookup_delete_ne; congruence.
  - assert (forall i c, at_pos s i c -> at_pos (kfree a s) i c) as Hpos.
    { intros i c (pre & suf & Hb & Hh & Ho). exists pre, suf. rewrite Hb in Hnot.
      split; [done|]. split; [done|]. apply Hoth; [set_solver|done]. }
    destruct p as [? ? ? []|? ? ? []|? ? []|? []|? []]; cbn [upos] in *; naive_solver.
Qed.

(** ** Preservation *)

Section step.
Context (x : sys) (t : tid) (p : proc) (Hx : inv x) (Hp : procs x !! t = Some p).
Local Abbreviation s := (mem x).

Definition after (s' : shared) (p' : proc) : sys := mk_sys s' (<[t := p']> (procs x)).

Lemma inv_step s' p' :
  sinv s' -> tinv t p' s' ->
  (forall t' q, t' <> t -> procs x !! t' = Some q -> tinv t' q s') ->
  (updates p' = true -> updates p = true) ->
  (forall a, is_Some (stale s' !! a) -> pending s' !! a = None ->
     limbo p' = Some a \/ (is_Some (stale s !! a) /\ pending s !! a = None /\ limbo p <> Some a)) ->
  (forall t', t' <> t -> t' ∈ readers s' -> t' ∈ readers s) ->
  (forall t', t' <> t -> books_lock s' = Some t' -> books_lock s = Some t') ->
  inv (after s' p').
Proof.
  destruct Hx as [H1 H2 H3 H4 H5 H6]. intros Hs Ht Ho Hu Hun Hr Hl. split; simpl; auto.
  - intros t' q. rewrite lookup_insert_Some. intros [[<- <-]|[Hne Hq]]; auto.
  - intros t1 t2 p1 p2. rewrite !lookup_insert_Some. intros [[<- <-]|[Hne1 Hq1]] [[<- <-]|[Hne2 Hq2]] U1 U2; eauto.
  - intros a Ha Hpa. destruct (Hun a Ha Hpa) as [Hli|(Hs1 & Hs2 & Hne)].
    + exists t, p'. by rewrite lookup_insert_eq.
    + destruct (H4 a Hs1 Hs2) as (t' & q & Hq & Hlq). exists t', q. split; [|done].
      rewrite lookup_insert_ne; [done|]. intros <-. congruence.
  - intros t' Hin. destruct (decide (t = t')) as [->|Hne]; [by rewrite lookup_insert_eq|].
    rewrite lookup_insert_ne by done. apply H5, Hr; auto.
  - intros t' Hin. destruct (decide (t = t')) as [->|Hne]; [by rewrite lookup_insert_eq|].
    rewrite lookup_insert_ne by done. apply H6, Hl; auto.
Qed.

Lemma lock_other t' : t' <> t -> updates p = true -> books_lock s <> Some t'.
Proof.
  intros Hne Hu Hl. destruct (i_lock _ Hx t' Hl) as [q Hq]. pose proof (i_proc _ Hx t' q Hq) as Ht.
  apply (t_lock _ _ _ Ht) in Hl. apply Hne. eapply (i_one _ Hx); [exact Hq|exact Hp| |done].
  by destruct q as [? ? ? []|? ? ? []|? ? []|? []|? []].
Qed.

Lemma unsub_mine a : updates p = true -> is_Some (stale s !! a) -> pending s !! a = None -> limbo p = Some a.
Proof.
  intros Hu Ha Hpa. destruct (i_unsub _ Hx a Ha Hpa) as (t' & q & Hq & Hl).
  assert (t' = t) as ->; [|congruence]. eapply (i_one _ Hx); [exact Hq|exact Hp| |done].
  by destruct q as [? ? ? []|? ? ? []|? ? []|? []|? []].
Qed.

(** A step of an updater: the other threads are readers. *)
Lemma inv_upd s' p' :
  updates p = true -> sinv s' -> tinv t p' s' -> readers s' = readers s ->
  (books_lock s' = books_lock s \/ books_lock s' = Some t \/ books_lock s' = None) ->
  (forall t' a, t' ∈ readers s -> protected t' s a -> protected t' s' a) ->
  (forall a, is_Some (stale s' !! a) -> pending s' !! a = None -> limbo p' = Some a) ->
  inv (after s' p').
Proof.
  intros Hu Hs Ht Hr Hl Hmono Hun. assert (forall t', t' <> t -> books_lock s' <> Some t') as Hl'.
  { intros t' Hne. destruct Hl as [->|[->| ->]]; [by apply lock_other|congruence|done]. }
  apply inv_step; auto.
  - intros t' q Hne Hq. destruct (updates q) eqn:Eq; [exfalso; apply Hne; by eapply (i_one _ Hx)|].
    apply (frame_reader t' q s); auto; [by apply (i_proc _ Hx)|by rewrite Hr].
  - intros t' Hne. by rewrite Hr.
  - intros t' Hne E. by apply Hl' in E.
Qed.

(** Only the thread moves. *)
Lemma inv_quiet p' :
  in_section p' = in_section p -> holds_lock p' = holds_lock p -> limbo p' = limbo p ->
  syncs p' = syncs p -> (updates p' = true -> updates p = true) ->
  (forall a, cursor p' = Some a -> protected t s a) -> upos p' s -> inv (after s p').
Proof.
  intros E1 E2 E3 E4 Hu Hc Hpos. pose proof (i_proc _ Hx t p Hp) as [H1 H2 H3 H4 H5 H6].
  apply inv_step; auto; [by apply Hx|split; rewrite ?E1, ?E2, ?E3, ?E4; auto| |].
  - intros t' q Hne Hq. by apply (i_proc _ Hx).
  - intros a Ha Hpa. destruct (decide (limbo p = Some a)) as [E|E]; [left; congruence|by right].
Qed.

(** A step that changes the sections, the grace periods' waiting sets or the output. *)
Lemma inv_section s' p' :
  sinv s' -> heap s' = heap s -> books s' = books s -> stale s' = stale s -> books_lock s' = books_lock s ->
  (forall t', t' <> t -> t' ∈ readers s' <-> t' ∈ readers s) ->
  (t ∈ readers s' <-> in_section p' = true) ->
  (forall t' a, t' <> t -> protected t' s a -> protected t' s' a) ->
  (forall a, pending s !! a = None <-> pending s' !! a = None) ->
  (forall a w cb, pending s !! a = Some (w, cb) -> exists w', pending s' !! a = Some (w', cb)) ->
  holds_lock p' = holds_lock p -> limbo p' = limbo p -> cursor p' = None -> syncs p' = None ->
  (updates p' = true -> updates p = true) -> upos p' s' -> inv (after s' p').
Proof.
  intros Hs Eh Eb Es El Hr Hin Hmono Hn Hw E2 E3 E4 E5 Hu Hpos.
  pose proof (i_proc _ Hx t p Hp) as [H1 H2 H3 H4 H5 H6]. apply inv_step; auto.
  - split; rewrite ?E2, ?E3, ?E4, ?E5, ?El, ?Es; auto; try done.
    intros a Ha. destruct (H4 a Ha). split; [done|]. by apply Hn.
  - intros t' q Hne Hq. apply (frame_section t' q s); auto; [by apply (i_proc _ Hx)|intros; by apply Hn|].
    intros a w Ha. by eapply Hw.
  - intros a. rewrite Es. intros Ha Hpa. apply Hn in Hpa.
    destruct (decide (limbo p = Some a)) as [E|E]; [left; congruence|by right].
  - intros t' Hne Ht'. by apply Hr.
  - intros t' _. by rewrite El.
Qed.

Lemma inv_enter p' :
  in_section p = false -> in_section p' = true ->
  holds_lock p' = holds_lock p -> limbo p' = limbo p -> cursor p' = None -> syncs p' = None ->
  (updates p' = true -> updates p = true) -> (forall s', upos p' s') -> inv (after (rcu_read_lock t s) p').
Proof.
  intros E0 E1 E2 E3 E4 E5 Hu Hpos. pose proof (i_proc _ Hx t p Hp) as [H1 _ _ _ _ _].
  assert (t ∉ readers s) by (rewrite H1, E0; done). apply inv_section; auto; simpl.
  - apply sinv_read_lock; [apply Hx|done].
  - intros t' Hne. set_solver.
  - rewrite E1. set_solver.
  - naive_solver.
Qed.

Lemma inv_leave p' :
  in_section p' = false ->
  holds_lock p' = holds_lock p -> limbo p' = limbo p -> cursor p' = None -> syncs p' = None ->
  (updates p' = true -> updates p = true) -> (forall s', upos p' s') -> inv (after (rcu_read_unlock t s) p').
Proof.
  intros E1 E2 E3 E4 E5 Hu Hpos. apply inv_section; auto.
  - apply sinv_read_unlock, Hx.
  - intros t' Hne. simpl. set_solver.
  - rewrite E1. simpl. set_solver.
  - intros t' a Hne Ha. apply protected_unlock; [apply Hx|done..].
  - intros a. rewrite pending_unlock. destruct (pending s !! a); naive_solver.
  - intros a w cb Ha. rewrite pending_unlock, Ha. simpl. eauto.
Qed.

(** The step did not fault and kept the invariants. *)
Definition step_good (r : step_to proc) : Prop :=
  match r with
  | Ok (Some (s', p')) => inv (after s' p')
  | Ok None => True
  | Err _ => False
  end.

Lemma head_protected t' a : head (books s) = Some a -> protected t' s a.
Proof. intros H. left. destruct (books s); simplify_eq/=. left. Qed.

Lemma cursor_live a : cursor p = Some a -> exists b, heap s !! a = Some b.
Proof. intros Ha. eapply protected_live; [apply Hx|]. by apply (t_cur _ _ _ (i_proc _ Hx t p Hp)). Qed.
Lemma cursor_next a m : cursor p = Some a -> next a s = Some m -> protected t s m.
Proof. intros Ha. apply protected_next; [apply Hx|]. by apply (t_cur _ _ _ (i_proc _ Hx t p Hp)). Qed.

Lemma book_line_some a b : borrow b = 0 \/ borrow b = 1 -> is_Some (book_line a b).
Proof.
  intros Hb. assert (0 ∈ le_bytes 4 (borrow b)) as Hz by (destruct Hb as [-> | ->]; by_compute).
  unfold book_line. rewrite (app_assoc (name b)). destruct (c_string_app (name b ++ author b) _ Hz) as [n ->].
  destruct (c_string_app (author b) _ Hz) as [w ->]. by eexists.
Qed.

Lemma print_ok i pc : p = Print i pc -> step_good (lift (Print i) (print_book i t pc s)).
Proof.
  intros E. assert (forall a, pc = PWalk (Some a) -> cursor p = Some a) as Hcur by (intros; by rewrite E; subst).
  destruct pc as [| |[a|]| |]; cbn [print_book lift go step_good]; [| |destruct (cursor_live a) as [b Hb]; [by auto|]|..].
  - apply inv_enter; by rewrite ?E.
  - apply inv_quiet; rewrite ?E; try done. intros a. apply head_protected.
  - unfold access. rewrite Hb. destruct (id b =? i).
    + destruct (book_line_some a b) as [line ->]; [by eapply s_flag; [apply Hx|]|].
      cbn [lift go step_good]. apply inv_section; rewrite ?E; try done; [by apply sinv_line, Hx| |by eauto].
      pose proof (i_proc _ Hx t _ Hp) as [H1 _ _ _ _ _]. by rewrite H1, E.
    + cbn [lift go step_good]. apply inv_quiet; rewrite ?E; try done. intros m Hm. eapply cursor_next; [by apply Hcur|done].
  - apply inv_quiet; by rewrite ?E.
  - apply inv_leave; by rewrite ?E.
  - done.
Qed.

Lemma is_borrowed_ok i pc : p = IsBorrowed i pc ->
  step_good (lift (IsBorrowed i) (is_borrowed_book i t pc s)) \/ exists a, pc = RFlag a.
Proof.
  intros E. assert (forall a, pc = RWalk (Some a) -> cursor p = Some a) as Hcur by (intros; by rewrite E; subst).
  destruct pc as [| |[a|]|a|a| |]; [left|left|left; destruct (cursor_live a) as [b Hb]; [by auto|]|left|left
    |by right; exists a|left|left]; cbn [is_borrowed_book lift go step_good].
  - apply inv_enter; by rewrite ?E.
  - apply inv_quiet; rewrite ?E; try done. intros a. apply head_protected.
  - unfold access. rewrite Hb. destruct (id b =? i); cbn [lift go step_good].
    + apply inv_quiet; by rewrite ?E.
    + apply inv_quiet; rewrite ?E; try done. intros m Hm. eapply cursor_next; [by apply Hcur|done].
  - apply inv_quiet; by rewrite ?E.
  - apply inv_leave; by rewrite ?E.
  - apply inv_leave; by rewrite ?E.
  - done.
Qed.

(** The steps of an updater that change the memory. *)
Section updater.
Context (Hu : updates p = true).

Lemma inv_lock p' o :
  (o = Some t \/ o = None) -> (holds_lock p' = true <-> o = Some t) ->
  in_section p' = in_section p -> limbo p' = limbo p -> cursor p' = None -> syncs p' = syncs p ->
  upos p' s -> inv (after (set_lock o s) p').
Proof.
  intros Ho Hh E1 E2 E3 E4 Hpos. pose proof (i_proc _ Hx t p Hp) as [H1 H2 H3 H4 H5 H6].
  apply inv_upd; [done|apply sinv_lock, Hx| |done|simpl; tauto|done|].
  - split; rewrite ?E1, ?E2, ?E3, ?E4; auto; done.
  - intros a Ha Hpa. rewrite E2. by apply unsub_mine.
Qed.

Lemma rinv_alloc b f p' :
  heap s !! b = None -> (borrow f = 0 \/ borrow f = 1) ->
  in_section p' = in_section p -> holds_lock p' = holds_lock p -> limbo p' = limbo p -> cursor p' = None ->
  syncs p' = syncs p -> upos p' (set_heap (<[b := f]> (heap s)) s) ->
  inv (after (set_heap (<[b := f]> (heap s)) s) p').
Proof.
  intros Hb Hf E1 E2 E3 E4 E5 Hpos. pose proof (i_proc _ Hx t p Hp) as [H1 H2 H3 H4 H5 H6].
  apply inv_upd; [done|by apply sinv_alloc; [apply Hx|..]| |done|by left|done|].
  - split; rewrite ?E1, ?E2, ?E3, ?E4, ?E5; auto; done.
  - intros a Ha Hpa. rewrite E3. by apply unsub_mine.
Qed.

Lemma inv_link a b p' :
  limbo p = None -> unlinked s a b -> in_section p' = in_section p -> holds_lock p' = holds_lock p ->
  limbo p' = None -> cursor p' = None -> syncs p' = None -> upos p' (list_add_rcu a s) ->
  inv (after (list_add_rcu a s) p').
Proof.
  intros E0 (Ha & Hn & Hst) E1 E2 E3 E4 E5 Hpos. pose proof (i_proc _ Hx t p Hp) as [H1 H2 H3 H4 H5 H6].
  apply inv_upd; [done|apply sinv_add; [apply Hx|by eexists|done|done]| |done|by left| |].
  - split; rewrite ?E1, ?E2, ?E3, ?E4, ?E5; auto; done.
  - intros t' c _ Hc. by apply protected_add.
  - intros c Hc Hpc. simpl in *. rewrite (unsub_mine c) in E0; done.
Qed.

Lemma inv_unlink a pre mid suf p' :
  limbo p = None -> books s = pre ++ a :: suf -> NoDup mid ->
  Forall (fun c => is_Some (heap s !! c) /\ (c ∉ books s) /\ stale s !! c = None) mid ->
  in_section p' = in_section p -> holds_lock p' = holds_lock p ->
  limbo p' = Some a -> cursor p' = None -> syncs p' = None -> (forall s', upos p' s') ->
  inv (after (unlink s a pre mid suf) p').
Proof.
  intros E0 Hb Hnd Hmid E1 E2 E3 E4 E5 Hpos. pose proof (i_proc _ Hx t p Hp) as [H1 H2 H3 H4 H5 H6].
  pose proof (i_mem _ Hx) as Hs.
  assert (forall c, is_Some (stale s !! c) -> is_Some (pending s !! c)) as Hnone.
  { intros c Hc. destruct (pending s !! c) eqn:E; [by eexists|]. rewrite (unsub_mine c) in E0; done. }
  destruct (unlinked_pending s Hs a pre mid suf Hb Hnone Hmid Hnd) as [Hpa Hsa].
  apply inv_upd; [done| | |done|by left| |].
  - by apply sinv_unlink.
  - split; rewrite ?E1, ?E2, ?E3, ?E4, ?E5; auto; try done.
    intros c [= <-]. simpl. by rewrite lookup_insert_eq.
  - intros t' c _ Hc. by apply protected_unlink.
  - intros c Hc Hpc. simpl in *. rewrite E3. f_equal. destruct (decide (a = c)) as [->|Hne]; [done|].
    rewrite lookup_insert_ne in Hc by done. destruct (Hnone c Hc). congruence.
Qed.

Lemma inv_grace a (cb : bool) p' :
  limbo p = Some a -> in_section p' = in_section p -> holds_lock p' = holds_lock p ->
  limbo p' = None -> cursor p' = None -> (syncs p' = if cb then None else Some a) -> (forall s', upos p' s') ->
  inv (after (start_grace a cb s) p').
Proof.
  intros E0 E1 E2 E3 E4 E5 Hpos. pose proof (i_proc _ Hx t p Hp) as [H1 H2 H3 H4 H5 H6].
  destruct (H4 a E0) as [Ha Hpa]. pose proof (i_mem _ Hx) as Hs. apply inv_upd; [done| | |done|by left| |].
  - by apply sinv_grace.
  - split; rewrite ?E1, ?E2, ?E3, ?E4, ?E5; auto; try done.
    destruct cb; [done|]. intros c [= <-]. simpl. rewrite lookup_insert_eq. by eexists.
  - intros t' c Ht' Hc. by apply protected_grace.
  - intros c Hc Hpc. simpl in *. apply lookup_insert_None in Hpc as [Hpc Hne].
    rewrite (unsub_mine c) in E0; [congruence|done..].
Qed.

Lemma rinv_free a p' :
  pending s !! a = Some (∅, false) -> limbo p = None -> in_section p' = in_section p ->
  holds_lock p' = holds_lock p -> limbo p' = None -> cursor p' = None -> syncs p' = None ->
  (forall s', upos p' s') -> inv (after (kfree a s) p').
Proof.
  intros Ha E0 E1 E2 E3 E4 E5 Hpos. pose proof (i_proc _ Hx t p Hp) as [H1 H2 H3 H4 H5 H6].
  pose proof (i_mem _ Hx) as Hs. apply inv_upd; [done| | |done|by left| |].
  - by eapply sinv_free.
  - split; rewrite ?E1, ?E2, ?E3, ?E4, ?E5; auto; done.
  - intros t' c _ Hc. by eapply protected_free.
  - intros c Hc Hpc. simpl in *. destruct Hc as [n Hc]. apply lookup_delete_Some in Hc as [Hne Hc].
    rewrite lookup_delete_ne in Hpc by done. rewrite (unsub_mine c) in E0; [done..|by eexists|done].
Qed.
End updater.

Definition upd_good (r : step_to proc) : Prop :=
  match r with
  | Ok (Some (s', p')) => inv (after s' p') /\ lib_step p p' s s'
  | Ok None => True
  | Err _ => False
  end.

Lemma head_pos i : at_pos s i (head (books s)).
Proof. exists [], (books s). split_and!; try done. constructor. Qed.

(** The walk of an updater stands on the list. *)
Lemma pos_node i a : at_pos s i (Some a) ->
  exists b pre suf, books s = pre ++ a :: suf /\ others i s pre /\ heap s !! a = Some b /\ next a s = head suf.
Proof.
  intros (pre & suf & Hb & Hh & Ho). destruct suf as [|a' suf]; [done|]. injection Hh as <-.
  pose proof (i_mem _ Hx) as Hs. destruct (s_live _ Hs a) as [[b Ha] Hst]; [rewrite Hb; set_solver|].
  exists b, pre, suf. split_and!; try done. unfold next. rewrite Hst, Hb. apply successor_split.
  pose proof (s_nodup _ Hs) as Hnd. rewrite Hb in Hnd. by apply nodup_mid in Hnd as [? _].
Qed.
Lemma pos_next i a b pre suf :
  books s = pre ++ a :: suf -> others i s pre -> heap s !! a = Some b -> id b <> i -> at_pos s i (head suf).
Proof.
  intros Hb Ho Ha Hi. exists (pre ++ [a]), suf. split; [by rewrite Hb, <- app_assoc|]. split; [done|].
  apply Forall_app. split; [done|]. constructor; [by exists b|constructor].
Qed.

Lemma fresh_heap : heap s !! fresh (dom (heap s)) = None.
Proof. apply not_elem_of_dom, is_fresh. Qed.
Lemma fresh_unlinked b : unlinked (set_heap (<[fresh (dom (heap s)) := b]> (heap s)) s) (fresh (dom (heap s))) b.
Proof.
  pose proof (i_mem _ Hx) as Hs. unfold unlinked. simpl. rewrite lookup_insert_eq. split_and!; [done| |].
  - intros Hin. destruct (s_live _ Hs _ Hin) as [[? H] _]. by rewrite fresh_heap in H.
  - destruct (stale s !! _) eqn:E; [|done]. destruct (s_stale _ Hs (fresh (dom (heap s)))) as [? H]; [by eexists|].
    by rewrite fresh_heap in H.
Qed.
Lemma fresh_library b : library (set_heap (<[fresh (dom (heap s)) := b]> (heap s)) s) = library s.
Proof.
  apply library_same; [done|]. intros a Ha. simpl. apply lookup_insert_ne. intros <-.
  destruct (s_live _ (i_mem _ Hx) _ Ha) as [[? H] _]. by rewrite fresh_heap in H.
Qed.
Lemma free_library a cb : pending s !! a = Some (∅, cb) -> library (kfree a s) = library s.
Proof.
  intros Ha. apply library_same; [done|]. intros c Hc. simpl. apply lookup_delete_ne. intros <-.
  by eapply (freed_unlinked s (i_mem _ Hx)).
Qed.

Lemma add_ok i n w ok pc : p = Add i n w pc -> upd_good (lift (Add i n w) (add_book i n w ok t pc s)).
Proof.
  intros E. pose proof (t_pos _ _ _ (i_proc _ Hx t p Hp)) as Hpos. rewrite E in Hpos.
  destruct pc as [|b|b| |]; cbn [add_book]; simpl in Hpos.
  - destruct ok; simpl; rewrite E.
    + split; [|split; [apply fresh_library|done]].
      apply rinv_alloc; rewrite ?E; auto using fresh_heap. apply fresh_unlinked.
    + split; [apply inv_quiet; by rewrite ?E|done].
  - unfold spin_lock. destruct (books_lock s) eqn:El; simpl; [done|]. rewrite E.
    split; [|done]. apply inv_lock; rewrite ?E; auto; done.
  - simpl. rewrite E. split; [by eapply inv_link; rewrite ?E|].
    unfold lib_step, library. simpl. destruct Hpos as (Hb & _). by rewrite Hb.
  - simpl. rewrite E. split; [|done]. apply inv_lock; rewrite ?E; auto; done.
  - done.
Qed.

Lemma refusal_lib r i b pre a suf :
  books s = pre ++ a :: suf -> others i s pre -> heap s !! a = Some b -> id b = i -> refuses r b = true ->
  lib_apply (CUpdate r i) (library s) = None.
Proof.
  intros Hb Ho Ha Hi Hr. destruct r; simpl in *; rewrite (change_found _ _ _ _ _ _ _ Hb Ho Ha Hi); [by rewrite Hr|].
  by destruct (borrow b =? 0).
Qed.

(** The two commits, as changes of the library. *)
Lemma replace_lib r i b pre a suf new :
  books s = pre ++ a :: suf -> others i s pre -> heap s !! a = Some b -> id b = i -> refuses r b = false ->
  heap s !! new = Some (set_borrow (flag_of r) b) ->
  lib_apply (CUpdate r i) (library s) = Some (library (unlink s a pre [new] suf)).
Proof.
  intros Hb Ho Ha Hi Hr Hn. unfold library at 2. unfold unlink. cbn [books set_links heap].
  rewrite !omap_app, list_omap_cons, Hn.
  destruct r; simpl in *; rewrite (change_found _ _ _ _ _ _ _ Hb Ho Ha Hi); [by rewrite Hr|].
  by destruct (borrow b =? 0).
Qed.
Lemma delete_lib i b pre a suf :
  books s = pre ++ a :: suf -> others i s pre -> heap s !! a = Some b -> id b = i ->
  lib_apply (CDelete i) (library s) = Some (library (unlink s a pre [] suf)).
Proof.
  intros Hb Ho Ha Hi. unfold library at 2. unfold unlink. cbn [books set_links heap]. rewrite !omap_app.
  simpl. by rewrite (change_found _ _ _ _ _ _ _ Hb Ho Ha Hi).
Qed.

Lemma replace_is_unlink a new pre suf :
  books s = pre ++ a :: suf -> is_Some (heap s !! a) ->
  list_replace_rcu a new s = Ok (unlink s a pre [new] suf).
Proof.
  intros Hb Ha. unfold list_replace_rcu. rewrite decide_True by done.
  rewrite decide_True by (rewrite Hb; set_solver). pose proof (s_nodup _ (i_mem _ Hx)) as Hnd. rewrite Hb in Hnd.
  apply nodup_mid in Hnd as [Hn _]. unfold unlink. by rewrite Hb, replace_split, successor_split.
Qed.
Lemma del_is_unlink a pre suf :
  books s = pre ++ a :: suf -> is_Some (heap s !! a) -> list_del_rcu a s = Ok (unlink s a pre [] suf).
Proof.
  intros Hb Ha. unfold list_del_rcu. rewrite decide_True by done.
  rewrite decide_True by (rewrite Hb; set_solver). pose proof (s_nodup _ (i_mem _ Hx)) as Hnd. rewrite Hb in Hnd.
  apply nodup_mid in Hnd as [Hn _]. unfold unlink. by rewrite Hb, remove_split, successor_split.
Qed.

Lemma flag_range r b : borrow (set_borrow (flag_of r) b) = 0 \/ borrow (set_borrow (flag_of r) b) = 1.
Proof. destruct r; simpl; auto. Qed.

Lemma found_alloc i a b f : found s i a b -> found (set_heap (<[fresh (dom (heap s)) := f]> (heap s)) s) i a b.
Proof.
  intros (pre & suf & Hb & Ho & Ha & Hi). exists pre, suf. split_and!; try done.
  - unfold others in *. rewrite Forall_forall in *. intros c Hc. destruct (Ho c Hc) as (b' & Hb' & ?).
    exists b'. simpl. rewrite lookup_insert_ne; [done|]. intros <-. by rewrite fresh_heap in Hb'.
  - simpl. rewrite lookup_insert_ne; [done|]. intros <-. by rewrite fresh_heap in Ha.
Qed.

(** A grace period that is over: the book is freed. *)
Lemma sync_over a : grace_over a false s = true -> pending s !! a = Some (∅, false).
Proof. unfold grace_over. by rewrite bool_decide_eq_true. Qed.

Lemma update_walk r i async ok b :
  p = Update r i async (UWalk b) ->
  upd_good (lift (Update r i async) (update_book (refuses r) (flag_of r) i async ok t (UWalk b) s)).
Proof.
  intros E. pose proof (t_pos _ _ _ (i_proc _ Hx t p Hp)) as Hpos. rewrite E in Hpos. simpl in Hpos.
  destruct b as [a|]; cbn [update_book].
  - destruct (pos_node i a Hpos) as (b & pre & suf & Hb & Ho & Ha & Hn). unfold access. rewrite Ha, Hn.
    destruct (id b =? i) eqn:Ei; [destruct (refuses r b) eqn:Er|]; simpl; rewrite E.
    + split; [apply inv_quiet; by rewrite ?E|]. split; [done|]. intros _. eapply refusal_lib; eauto. lia.
    + split; [|done]. apply inv_quiet; rewrite ?E; try done. exists b. split; [|done].
      exists pre, suf. split_and!; auto. lia.
    + split; [|done]. apply inv_quiet; rewrite ?E; try done. eapply pos_next; eauto. lia.
  - simpl. rewrite E. split; [apply inv_quiet; by rewrite ?E|]. split; [done|]. intros _.
    destruct r; by apply change_missing.
Qed.

Lemma update_ok r i async ok pc :
  p = Update r i async pc ->
  upd_good (lift (Update r i async) (update_book (refuses r) (flag_of r) i async ok t pc s)).
Proof.
  intros E. pose proof (t_pos _ _ _ (i_proc _ Hx t p Hp)) as Hpos.
  destruct pc as [| |b| |old|old new|old new|old|old|old|old|rv]; try (by apply update_walk);
    rewrite E in Hpos; cbn [update_book]; simpl in Hpos.
  - simpl. rewrite E. split; [by apply inv_enter; rewrite ?E|done].
  - simpl. rewrite E. split; [|done]. apply inv_quiet; rewrite ?E; try done. apply head_pos.
  - simpl. rewrite E. split; [by apply inv_leave; rewrite ?E|done].
  - destruct ok; simpl; [|rewrite E; split; [by apply inv_quiet; rewrite ?E|done]].
    destruct Hpos as (b & Hf & Hr). pose proof Hf as (pre & suf & _ & _ & Ha & _). unfold access. rewrite Ha.
    simpl. rewrite E. split; [|split; [apply fresh_library|done]].
    apply rinv_alloc; rewrite ?E; auto using fresh_heap, flag_range.
    exists b. split_and!; [by apply found_alloc|done|apply fresh_unlinked].
  - unfold spin_lock. destruct (books_lock s) eqn:El; simpl; [done|]. rewrite E.
    split; [|done]. apply inv_lock; rewrite ?E; auto; done.
  - destruct Hpos as (b & (pre & suf & Hb & Ho & Ha & Hi) & Hr & (Hn & Hn1 & Hn2)).
    rewrite (replace_is_unlink old new pre suf) by (try done; by eexists). simpl. rewrite E. split.
    + apply inv_unlink; rewrite ?E; try done; [apply NoDup_singleton|].
      constructor; [|constructor]. split; [by eexists|done].
    + unfold lib_step. simpl. by eapply replace_lib.
  - simpl. rewrite E. split; [|done]. apply inv_lock; rewrite ?E; auto; done.
  - simpl. rewrite E. split; [by apply inv_leave; rewrite ?E|done].
  - simpl. rewrite E. split; [|done]. apply inv_grace; rewrite ?E; auto; by destruct async.
  - destruct (grace_over old false s) eqn:Eg; [|done]. apply sync_over in Eg. simpl. rewrite E.
    split; [by apply rinv_free; rewrite ?E|]. split; [by eapply free_library|done].
  - done.
Qed.

Lemma delete_ok i async pc : p = Delete i async pc -> upd_good (lift (Delete i async) (delete_book i async t pc s)).
Proof.
  intros E. pose proof (t_pos _ _ _ (i_proc _ Hx t p Hp)) as Hpos. rewrite E in Hpos.
  destruct pc as [| |b|a|a|a|a| |]; cbn [delete_book]; simpl in Hpos.
  - unfold spin_lock. destruct (books_lock s) eqn:El; simpl; [done|]. rewrite E.
    split; [|done]. apply inv_lock; rewrite ?E; auto; done.
  - simpl. rewrite E. split; [|done]. apply inv_quiet; rewrite ?E; try done. apply head_pos.
  - destruct b as [a|]; cbn [delete_book].
    + destruct (pos_node i a Hpos) as (b & pre & suf & Hb & Ho & Ha & Hn). unfold access. rewrite Ha, Hn.
      destruct (id b =? i) eqn:Ei; simpl; rewrite E; (split; [|done]); apply inv_quiet; rewrite ?E; try done.
      * exists b, pre, suf. split_and!; auto. lia.
      * eapply pos_next; eauto. lia.
    + simpl. rewrite E. split; [by apply inv_quiet; rewrite ?E|]. split; [done|]. intros _. by apply change_missing.
  - destruct Hpos as (b & pre & suf & Hb & Ho & Ha & Hi).
    rewrite (del_is_unlink a pre suf) by (try done; by eexists). simpl. rewrite E. split.
    + apply inv_unlink; rewrite ?E; try done; constructor.
    + unfold lib_step. simpl. by eapply delete_lib.
  - simpl. rewrite E. split; [|done]. apply inv_lock; rewrite ?E; auto; done.
  - simpl. rewrite E. split; [|done]. apply inv_grace; rewrite ?E; auto; by destruct async.
  - destruct (grace_over a false s) eqn:Eg; [|done]. apply sync_over in Eg. simpl. rewrite E.
    split; [by apply rinv_free; rewrite ?E|]. split; [by eapply free_library|done].
  - simpl. rewrite E. split; [|done]. apply inv_lock; rewrite ?E; auto; done.
  - done.
Qed.
End step.


Lemma reader_library ok t p s s' p' :
  call_of p = CRead -> step_proc ok t p s = Ok (Some (s', p')) -> lib_step p p' s s'.
Proof.
  intros Hc Hst.
  assert (library s' = library s /\ commits p = false /\ refusal p p' = false) as (Hl & E1 & E2).
  { destruct p as [| | |i pc|i pc]; try done; simpl in Hst; [destruct pc as [| |[]| |]|destruct pc as [| |[]| | | |]];
      simpl in Hst; unfold access, go, wait, lift in Hst; repeat case_match; by simplify_eq/=. }
  unfold lib_step. rewrite E1, E2. done.
Qed.

(** Every step of every thread, but the late read of [is_borrowed_book]. *)
Lemma step_ok x t p ok :
  inv x -> procs x !! t = Some p ->
  match step_proc ok t p (mem x) with
  | Ok (Some (s', p')) => inv (after x t s' p') /\ lib_step p p' (mem x) s'
  | Ok None => True
  | Err f => f = UseAfterFree /\ exists i a, p = IsBorrowed i (RFlag a)
  end.
Proof.
  intros Hx Hp. destruct p as [i n w pc|r i async pc|i async pc|i pc|i pc].
  - pose proof (add_ok x t _ Hx Hp i n w ok pc eq_refl) as H. cbn [step_proc].
    by destruct (lift _ _) as [[[]|]|].
  - assert (step_proc ok t (Update r i async pc) (mem x) =
      lift (Update r i async) (update_book (refuses r) (flag_of r) i async ok t pc (mem x))) as -> by (by destruct r).
    pose proof (update_ok x t _ Hx Hp r i async ok pc eq_refl) as H. by destruct (lift _ _) as [[[]|]|].
  - pose proof (delete_ok x t _ Hx Hp i async pc eq_refl) as H. cbn [step_proc].
    by destruct (lift _ _) as [[[]|]|].
  - pose proof (print_ok x t _ Hx Hp i pc eq_refl) as H.
    pose proof (reader_library ok t (Print i pc) (mem x)) as Hl. cbn [step_proc] in *.
    destruct (lift _ _) as [[[]|]|]; [|done|done]. split; [done|]. by apply Hl.
  - destruct (is_borrowed_ok x t _ Hx Hp i pc eq_refl) as [H|[a ->]].
    + pose proof (reader_library ok t (IsBorrowed i pc) (mem x)) as Hl. cbn [step_proc] in *.
      destruct (lift _ _) as [[[]|]|]; [|done|done]. split; [done|]. by apply Hl.
    + cbn [step_proc is_borrowed_book]. unfold access. destruct (heap (mem x) !! a); simpl; [|by eauto].
      split; [|done]. by apply (inv_quiet x t (IsBorrowed i (RFlag a)) Hx Hp).
Qed.

Lemma callback_inv x a s' : inv x -> book_reclaim_callback a (mem x) = Some s' ->
  inv (mk_sys s' (procs x)) /\ library s' = library (mem x).
Proof.
  unfold book_reclaim_callback, grace_over. destruct (bool_decide _) eqn:E; [|done].
  apply bool_decide_eq_true in E. intros Hx [= <-]. pose proof Hx as [H1 H2 H3 H4 H5 H6].
  split; [|by eapply free_library]. split; simpl; auto.
  - by eapply sinv_free.
  - intros t p Hp. pose proof (H2 t p Hp) as Ht. eapply frame_free; eauto. intros Hsy.
    destruct (t_sync _ _ _ Ht a Hsy) as [w Hw]. congruence.
  - intros b [n [Hne Hb]%lookup_delete_Some]. rewrite lookup_delete_ne by done. intros Hpb. apply H4; [by eexists|done].
Qed.

Lemma call_inv x t p : inv x -> idle x t = true -> begins p = true -> (updates p = true -> no_updater x) ->
  inv (mk_sys (mem x) (<[t := p]> (procs x))).
Proof.
  intros [H1 H2 H3 H4 H5 H6] Hi Hb Hu. unfold idle in Hi.
  assert (forall q, procs x !! t = Some q -> in_section q = false /\ holds_lock q = false /\ limbo q = None) as Hq.
  { intros q Hq. rewrite Hq in Hi. by destruct q as [? ? ? []|? ? ? []|? ? []|? []|? []]. }
  assert (in_section p = false /\ holds_lock p = false /\ cursor p = None /\ limbo p = None /\ syncs p = None /\
    forall s, upos p s) as (E1 & E2 & E3 & E4 & E5 & Hpos)
    by (by destruct p as [? ? ? []|? ? ? []|? ? []|? []|? []]).
  split; simpl; auto.
  - intros t' q. rewrite lookup_insert_Some. intros [[<- <-]|[Hne Hq']]; [|auto].
    split; rewrite ?E1, ?E2, ?E3, ?E4, ?E5; auto; try done; split; try done; intros Hin; exfalso.
    + destruct (H5 t Hin) as [q Hq']. destruct (Hq q Hq') as (F1 & _). apply (t_sec _ _ _ (H2 t q Hq')) in Hin. congruence.
    + destruct (H6 t Hin) as [q Hq']. destruct (Hq q Hq') as (_ & F1 & _). apply (t_lock _ _ _ (H2 t q Hq')) in Hin. congruence.
  - intros t1 t2 p1 p2. rewrite !lookup_insert_Some. intros [[<- <-]|[Hne1 Hq1]] [[<- <-]|[Hne2 Hq2]] U1 U2; eauto.
    + specialize (Hu U1 t2 p2 Hq2). simpl in Hu. congruence.
    + specialize (Hu U2 t1 p1 Hq1). simpl in Hu. congruence.
  - intros a Ha Hpa. destruct (H4 a Ha Hpa) as (t' & q & Hq' & Hl). exists t', q. split; [|done].
    rewrite lookup_insert_ne; [done|]. intros <-. destruct (Hq q Hq') as (_ & _ & ?). congruence.
  - intros t' Ht'. rewrite lookup_insert_is_Some'. auto.
  - intros t' Ht'. rewrite lookup_insert_is_Some'. auto.
Qed.

Lemma start_inv : inv start.
Proof. split; [split|..]; simpl; try done; try (by intros * []); try (constructor); try (intros; set_solver). Qed.

Lemma happens_inv x e x' : inv x -> one_updater e x -> happens e x = Ok (Some x') -> inv x'.
Proof.
  intros Hx Hone He. destruct e as [t p|t ok|a]; simpl in He.
  - destruct (idle x t) eqn:E1; [|done]. destruct (begins p) eqn:E2; [|done]. simplify_eq/=. by apply call_inv.
  - destruct (procs x !! t) as [p|] eqn:Hp; [|done]. pose proof (step_ok x t p ok Hx Hp) as H.
    destruct (step_proc ok t p (mem x)) as [[[s' p']|]|]; simplify_eq/=. by destruct H.
  - destruct (book_reclaim_callback a (mem x)) as [s'|] eqn:E; simplify_eq/=. by eapply callback_inv.
Qed.

Lemma reach_inv x : reach x -> inv x.
Proof. induction 1; [apply start_inv|by eapply happens_inv]. Qed.

(** C2: Reclamation is safe. Whatever the interleaving of any number of calls and
    callbacks, as long as updates are made one after the other, no step faults: no
    reader inside its section and no updater touches a node that was freed, no node is
    unlinked twice, no name is printed beyond its book; and a node is never freed while
    a section that can reach it is open. The one exception is the flag
    [is_borrowed_book] reads after it has left its section. *)
Theorem reclamation_is_safe x e :
  reach x -> one_updater e x ->
  (forall t ok i a, e = Run t ok -> procs x !! t <> Some (IsBorrowed i (RFlag a))) ->
  exists r, happens e x = Ok r /\
    match r with
    | Some x' => reach x' /\ forall t p a, procs x' !! t = Some p -> cursor p = Some a ->
        is_Some (heap (mem x') !! a) /\ pending (mem x') !! a <> Some (∅, true)
    | None => True
    end.
Proof.
  intros Hr Hone Hlate. pose proof (reach_inv x Hr) as Hx.
  assert (exists r, happens e x = Ok r) as [r He].
  { destruct e as [t p|t ok|a]; simpl; [by destruct (_ && _); eexists| |by eexists].
    destruct (procs x !! t) as [p|] eqn:Hp; [|by eexists]. pose proof (step_ok x t p ok Hx Hp) as H.
    destruct (step_proc ok t p (mem x)) as [[[]|]|]; [by eexists..|]. destruct H as (_ & i & a & ->).
    by destruct (Hlate t ok i a eq_refl). }
  exists r. split; [done|]. destruct r as [x'|]; [|done]. split; [by eapply reach_step|].
  pose proof (happens_inv x e x' Hx Hone He) as Hx'. intros t p a Hp Hc.
  pose proof (t_cur _ _ _ (i_proc _ Hx' t p Hp) a Hc) as Hpr. split; [by eapply protected_live; [apply Hx'|]|].
  intros Hover. by eapply (freed_unprotected _ (i_mem _ Hx')).
Qed.


(** ** Schedules *)

#[global] Instance no_updater_dec x : Decision (no_updater x).
Proof. unfold no_updater. apply _. Defined.
#[global] Instance one_updater_dec e x : Decision (one_updater e x).
Proof.
  destruct e as [t p|t ok|a]; simpl; [|left; done..].
  destruct (decide (updates p = true)) as [E|E]; [destruct (decide (no_updater x))|]; [left|right|left]; tauto.
Defined.

(** A schedule all of whose events happen, updates one after the other. *)
Fixpoint run_serial (es : list event) (x : sys) : option sys :=
  match es with
  | [] => Some x
  | e :: es' =>
      if decide (one_updater e x) then
        match happens e x with
        | Ok (Some x') => run_serial es' x'
        | _ => None
        end
      else None
  end.
Lemma run_serial_reach es : forall x x', reach x -> run_serial es x = Some x' -> reach x'.
Proof.
  induction es as [|e es IH]; intros x x' Hr; simpl; [by intros [= <-]|].
  destruct (decide _); [|done]. destruct (happens e x) as [[x1|]|] eqn:E; [|done..].
  apply IH. by eapply reach_step.
Qed.

Definition steps (t : tid) (n : nat) : list event := replicate n (Run t true).
Definition adds (i : Z) (name : list Z) : list event := Call 0%nat (Add i name [106; 98] AInit) :: steps 0%nat 4%nat.

(** A reader has found book 7 and left its section; the book is deleted and freed. *)
Definition late_schedule : list event :=
  adds 7 [98] ++ (Call 1%nat (IsBorrowed 7 RRead) :: steps 1%nat 4%nat) ++ (Call 0%nat (Delete 7 false DLock) :: steps 0%nat 7%nat).
Definition late_state : option sys := Eval vm_compute in run_serial late_schedule start.

(** [is_borrowed_book] reads the flag of a book after it has left its section: if
    the book is deleted in between, it reads freed memory, even when updates are made
    one after the other. *)
Theorem is_borrowed_book_reads_freed_memory :
  exists x, reach x /\ happens (Run 1%nat true) x = Err UseAfterFree.
Proof.
  assert (exists x, late_state = Some x) as [x Hx] by (vm_compute; by eexists). exists x. split.
  - apply (run_serial_reach late_schedule start); [constructor|]. rewrite <- Hx. by vm_compute.
  - assert (happens (Run 1%nat true) <$> late_state = Some (Err UseAfterFree)) as H by (by vm_compute).
    rewrite Hx in H. by injection H.
Qed.

(** Two borrowers of the same book: both find it on the shelf before either has
    replaced it. *)
Definition race_schedule : list event :=
  adds 7 [98] ++ (Call 1%nat (Update false 7 false URead) :: steps 1%nat 4%nat) ++
  (Call 2%nat (Update false 7 false URead) :: steps 2%nat 4%nat) ++ steps 1%nat 3%nat.

Definition race_state : sys := Eval vm_compute in
  match run race_schedule start with Ok x => x | Err _ => start end.

(** Two calls of [borrow_book] for one book that overlap: the spin lock is taken
    after the book was found, so both pass the test, the first replaces the node and
    has borrowed the book, and the second unlinks a node that is not on the list any
    more, following its poisoned pointer. *)
Theorem overlapping_borrows_corrupt_the_list :
  exists x, run race_schedule start = Ok x /\
    borrow <$> library (mem x) = [1] /\ procs x !! 1%nat = Some (Update false 7 false (UReadUnlock 0%nat)) /\
    run (steps 2%nat 2%nat) x = Err OutOfBounds.
Proof.
  exists race_state. split_and!; by vm_compute.
Qed.

(** ** The module's own use *)

Definition book1 : list Z := [98; 111; 111; 107; 49; 0].
Definition book2 : list Z := [98; 111; 111; 107; 50; 0].
Definition jb : list Z := [106; 98; 0].

Definition test_example (async : bool) : list proc :=
  [Add 0 book1 jb AInit; Add 1 book2 jb AInit; Print 0 PRead; Print 1 PRead;
   IsBorrowed 0 RRead; IsBorrowed 1 RRead;
   Update false 0 async URead; Update false 1 async URead; Print 0 PRead; Print 1 PRead;
   Update true 0 async URead; Update true 1 async URead; Print 0 PRead; Print 1 PRead;
   Delete 0 async DLock; Delete 1 async DLock; Print 0 PRead; Print 1 PRead].

(** The calls one after the other on one thread; twelve steps are enough for each on a
    list of two books. *)
Definition in_turn (ps : list proc) : list event := p ← ps; Call 0%nat p :: steps 0%nat 12%nat.
Definition list_rcu_init : list event := in_turn (test_example false) ++ in_turn (test_example true).
Definition init_state : sys := Eval vm_compute in
  match run list_rcu_init start with Ok x => x | Err _ => start end.

Definition end_state : sys := Eval vm_compute in
  match run (Callback <$> elements (dom (heap (mem init_state)))) init_state with Ok x => x | Err _ => start end.

(** Loading the module runs without a fault, prints the books on the shelf, lent and
    returned, ends with an empty list, and leaves nothing allocated once the callbacks
    have run. *)
Theorem module_init_leaves_nothing :
  run list_rcu_init start = Ok init_state /\ books (mem init_state) = [] /\
  (fun '(i, _, _, f, _) => (i, f)) <$> printed (mem init_state) =
    [(0, 0); (1, 0); (0, 1); (1, 1); (0, 0); (1, 0); (0, 0); (1, 0); (0, 1); (1, 1); (0, 0); (1, 0)] /\
  exists x, run (Callback <$> elements (dom (heap (mem init_state)))) init_state = Ok x /\ heap (mem x) = ∅.
Proof.
  split; [by vm_compute|]. split; [by vm_compute|]. split; [by vm_compute|].
  exists end_state.
  split; by vm_compute.
Qed.

(** ** Witnesses *)

Definition walk_schedule : list event :=
  adds 7 [98] ++ (Call 1%nat (Print 7 PRead) :: steps 1%nat 2%nat) ++
  (Call 0%nat (Update false 7 true URead) :: steps 0%nat 6%nat).
Definition walk_state : sys := Eval vm_compute in
  match run_serial walk_schedule start with Some x => x | None => start end.
Lemma walk_reach : reach walk_state.
Proof. apply (run_serial_reach walk_schedule start); [constructor|by vm_compute]. Qed.

(** A reader stands on the node that a borrower is about to replace. *)
Lemma reclamation_is_safe_witness :
  exists r, happens (Run 0%nat true) walk_state = Ok r /\
    match r with
    | Some x' => is_Some (heap (mem x') !! 0%nat)
    | None => True
    end.
Proof.
  destruct (reclamation_is_safe walk_state (Run 0%nat true) walk_reach I) as (r & Hr & H).
  - intros t ok i a E. injection E as <- <-. discriminate.
  - exists r. split; [exact Hr|]. destruct r as [x'|]; [|exact I]. destruct H as [_ H].
    assert (exists p, procs x' !! 1%nat = Some p /\ cursor p = Some 0%nat) as (p & Hp & Hc).
    { injection Hr as <-. eexists. split; reflexivity. }
    exact (proj1 (H 1%nat p 0%nat Hp Hc)).
Defined.

End Rcu.
