(* ===== verification/MiscDev.v ===== *)
(** * The misc character drivers and their user

    Three versions of a driver that keeps a secret string: without locking
    (src/kmisc/miscdrv_rdwr.c), with a mutex (src/ksync-mutex/mutexlock_misc.c) and
    with a mutex and a spin lock (src/ksync-spin/spinlock_misc.c), and the program that
    writes and reads the secret (src/kmisc/rdwr_test_secret.c).

    The outcomes of allocations and of the copies from and to user space are arguments
    of the operations. Taking a held lock and sleeping with a spin lock held are
    faults. Log messages are not modelled. *)
From S2P Require Import Prelude.
From stdpp Require Import base numbers list gmap.
Local Open Scope Z_scope.

Module Misc.

Definition MAXBYTES : Z := 128.
Definition ENOMEM : Z := 12.
Definition EFAULT : Z := 14.
Definition EINVAL : Z := 22.

(** The fields of the context that the drivers use. *)
Record drv_ctx := mk_ctx { tx : Z; rx : Z; oursecret : list Z }.

(** [Lock1] guards [ga] and [gb], the others the context. *)
Inductive lock := Lock1 | CtxMutex | CtxSpin.
Definition lock_eqb (l l' : lock) : bool :=
  match l, l' with
  | Lock1, Lock1 | CtxMutex, CtxMutex | CtxSpin, CtxSpin => true
  | _, _ => false
  end.

Record drv := mk_drv { registered : bool; ctx : option drv_ctx; ga : Z; gb : Z; held : list lock }.

Definition M (A : Type) : Type := ST drv A.

(** [ctx->...] *)
Definition get_ctx : M drv_ctx := fun d =>
  match ctx d with Some c => Ok (c, d) | None => Err NullDeref end.
Definition put_ctx (c : drv_ctx) : M unit := fun d =>
  Ok (tt, mk_drv (registered d) (Some c) (ga d) (gb d) (held d)).
Definition add_ga_gb (x y : Z) : M unit := fun d =>
  Ok (tt, mk_drv (registered d) (ctx d) (s32 (ga d + x)) (s32 (gb d + y)) (held d)).

Section locks.
(** Which locks are spin locks. *)
Context (is_spin : lock -> bool).
Definition might_sleep : M unit := fun d =>
  if existsb is_spin (held d) then Err SleepInAtomic else Ok (tt, d).
Definition acquire (l : lock) : M unit := fun d =>
  if negb (is_spin l) && existsb is_spin (held d) then Err SleepInAtomic
  else if existsb (lock_eqb l) (held d) then Err Deadlock
  else Ok (tt, mk_drv (registered d) (ctx d) (ga d) (gb d) (l :: held d)).
Definition release (l : lock) : M unit := fun d =>
  Ok (tt, mk_drv (registered d) (ctx d) (ga d) (gb d) (List.filter (fun l' => negb (lock_eqb l l')) (held d))).
End locks.

(** ** String functions of the kernel *)

Definition strnlen (s : list Z) (n : Z) : Z := Z.of_nat (length (c_chars (take (Z.to_nat n) s))).
Definition strlen (s : list Z) : res Z :=
  match c_string s with Some x => Ok (Z.of_nat (length x)) | None => Err OutOfBounds end.

(** [strlcpy] measures all of the source; [strscpy] reads no more than [size] bytes. *)
Definition strlcpy (dest src : list Z) (size : Z) : res (list Z) :=
  match c_string src with
  | None => Err OutOfBounds
  | Some s =>
      if size =? 0 then Ok dest
      else Ok (splice 0 (take (Z.to_nat (size - 1)) s ++ [0]) dest)
  end.
Definition strscpy (dest src : list Z) (size : Z) : list Z :=
  if size =? 0 then dest
  else splice 0 (take (Z.to_nat (size - 1)) (c_chars (take (Z.to_nat size) src)) ++ [0]) dest.

Definition lift_res {A} (r : res A) : M A := fun d => match r with Ok a => Ok (a, d) | Err e => Err e end.

Definition initmsg : list Z := [105; 110; 105; 116; 109; 115; 103; 0].
Definition zeroed_ctx : drv_ctx := mk_ctx 0 0 (replicate (Z.to_nat MAXBYTES) 0).
Definition set_secret (b : list Z) (c : drv_ctx) : drv_ctx := mk_ctx (tx c) (rx c) b.
Definition add_tx (n : Z) (c : drv_ctx) : drv_ctx := mk_ctx (s32 (tx c + n)) (rx c) (oursecret c).
Definition add_rx (n : Z) (c : drv_ctx) : drv_ctx := mk_ctx (tx c) (s32 (rx c + n)) (oursecret c).

(** The module before it is loaded. *)
Definition unloaded : drv := mk_drv false None 0 1 [].

(** Registration [r], then the context: when it cannot be allocated, the device stays
    registered. *)
Definition init_with (copy : list Z -> list Z -> Z -> res (list Z)) (register : Z) (failed : Z -> bool)
    (devm_ok : bool) : M Z := fun d =>
  if failed register then Ok (register, d)
  else
    if negb devm_ok then Ok (- ENOMEM, mk_drv true None (ga d) (gb d) (held d))
    else
      match copy (oursecret zeroed_ctx) initmsg 8 with
      | Ok b => Ok (0, mk_drv true (Some (set_secret b zeroed_ctx)) (ga d) (gb d) (held d))
      | Err e => Err e
      end.

(** ** Without locking: src/kmisc/miscdrv_rdwr.c *)
Module Kmisc.

Definition open_miscdrv_rdwr (kzalloc_ok : bool) : M Z :=
  get_ctx;;
  if negb kzalloc_ok then mret (- ENOMEM)
  else add_ga_gb 1 (-1);; mret 0.

(** The bytes that reach user space, with the return value. *)
Definition read_miscdrv_rdwr (count : Z) (copy_ok : bool) : M (Z * list Z) :=
  c ← get_ctx;
  let secret_len := strnlen (oursecret c) MAXBYTES in
  if count <? MAXBYTES then mret (- EINVAL, [])
  else if secret_len <=? 0 then mret (- EINVAL, [])
  else if negb copy_ok then mret (- EFAULT, [])
  else
    put_ctx (add_tx secret_len c);;
    mret (secret_len, take (Z.to_nat secret_len) (oursecret c)).

(** [ubuf]: the [count] bytes at the user's address. *)
Definition write_miscdrv_rdwr (count : Z) (ubuf : list Z) (kvmalloc_ok copy_ok : bool) : M Z :=
  c ← get_ctx;
  if MAXBYTES <? count then mret (s32 count)
  else if negb kvmalloc_ok then mret (- ENOMEM)
  else if negb copy_ok then mret (- EFAULT)
  else
    b ← lift_res (strlcpy (oursecret c) ubuf (if MAXBYTES <? count then MAXBYTES else count));
    put_ctx (add_rx count (set_secret b c));;
    mret (s32 count).

Definition close_miscdrv_rdwr (kzalloc_ok : bool) : M Z :=
  get_ctx;;
  if negb kzalloc_ok then mret (- ENOMEM)
  else add_ga_gb (-1) 1;; mret 0.

Definition miscdrv_rdwr_init (register : Z) (devm_ok : bool) : M Z :=
  init_with strlcpy register (fun r => negb (r =? 0)) devm_ok.
End Kmisc.

(** ** With a mutex: src/ksync-mutex/mutexlock_misc.c *)
Module Mutex.
Definition is_spin (l : lock) : bool := false.

Definition open_miscdrv_rdwr : M Z :=
  get_ctx;;
  acquire is_spin Lock1;; add_ga_gb 1 (-1);; release Lock1;;
  mret 0.

(** The two critical sections of the read method. *)
Definition read_length : M Z :=
  get_ctx;;
  acquire is_spin CtxMutex;;
  c ← get_ctx;
  n ← lift_res (strlen (oursecret c));
  release CtxMutex;;
  mret n.
Definition read_copy (count secret_len : Z) (copy_ok : bool) : M (Z * list Z) :=
  if count <? MAXBYTES then mret (- EINVAL, [])
  else if secret_len <=? 0 then mret (- EINVAL, [])
  else
    acquire is_spin CtxMutex;;
    might_sleep is_spin;;
    c ← get_ctx;
    if negb copy_ok then release CtxMutex;; mret (- EFAULT, [])
    else
      put_ctx (add_tx secret_len c);;
      release CtxMutex;;
      mret (secret_len, take (Z.to_nat secret_len) (oursecret c)).
Definition read_miscdrv_rdwr (count : Z) (copy_ok : bool) : M (Z * list Z) :=
  n ← read_length; read_copy count n copy_ok.

Definition write_miscdrv_rdwr (count : Z) (ubuf : list Z) (kvmalloc_ok copy_ok : bool) : M Z :=
  get_ctx;;
  might_sleep is_spin;;
  if negb kvmalloc_ok then mret (- ENOMEM)
  else if negb copy_ok then mret (- EFAULT)
  else
    acquire is_spin CtxMutex;;
    c ← get_ctx;
    put_ctx (add_rx count
      (set_secret (strscpy (oursecret c) ubuf (if MAXBYTES <? count then MAXBYTES else count)) c));;
    release CtxMutex;;
    mret (s32 count).

Definition close_miscdrv_rdwr : M Z :=
  get_ctx;;
  acquire is_spin Lock1;; add_ga_gb (-1) 1;; release Lock1;;
  mret 0.

Definition miscdrv_init_mutexlock (register : Z) (devm_ok : bool) : M Z :=
  init_with (fun d s n => Ok (strscpy d s n)) register (fun r => r <? 0) devm_ok.
End Mutex.

(** ** With a mutex and a spin lock: src/ksync-spin/spinlock_misc.c *)
Module Spin.
Definition is_spin (l : lock) : bool := match l with CtxMutex => false | _ => true end.

Definition display_stats (show_stats : Z) : M unit :=
  get_ctx;;
  if show_stats =? 1 then acquire is_spin CtxSpin;; get_ctx;; release CtxSpin else mret tt.

Definition open_miscdrv_rdwr : M Z :=
  get_ctx;;
  acquire is_spin Lock1;; add_ga_gb 1 (-1);; release Lock1;;
  display_stats 1;;
  mret 0.

Definition read_length : M Z :=
  get_ctx;;
  acquire is_spin CtxSpin;;
  c ← get_ctx;
  n ← lift_res (strlen (oursecret c));
  release CtxSpin;;
  mret n.
(** The copy holds the mutex, which the write method does not take. *)
Definition read_copy (count secret_len : Z) (copy_ok : bool) : M (Z * list Z) :=
  if count <? MAXBYTES then mret (- EINVAL, [])
  else if secret_len <=? 0 then mret (- EINVAL, [])
  else
    acquire is_spin CtxMutex;;
    might_sleep is_spin;;
    c ← get_ctx;
    if negb copy_ok then release CtxMutex;; display_stats 1;; mret (- EFAULT, [])
    else
      put_ctx (add_tx secret_len c);;
      release CtxMutex;;
      display_stats 0;;
      mret (secret_len, take (Z.to_nat secret_len) (oursecret c)).
Definition read_miscdrv_rdwr (count : Z) (copy_ok : bool) : M (Z * list Z) :=
  n ← read_length; read_copy count n copy_ok.

(** [buggy] is the module parameter. *)
Definition write_miscdrv_rdwr (buggy : Z) (count : Z) (ubuf : list Z) (kvmalloc_ok copy_ok : bool) : M Z :=
  get_ctx;;
  might_sleep is_spin;;
  if negb kvmalloc_ok then mret (- ENOMEM)
  else if negb copy_ok then display_stats 1;; mret (- EFAULT)
  else
    acquire is_spin CtxSpin;;
    c ← get_ctx;
    put_ctx (add_rx count
      (set_secret (strscpy (oursecret c) ubuf (if MAXBYTES <? count then MAXBYTES else count)) c));;
    (if buggy =? 1 then might_sleep is_spin else mret tt);;
    release CtxSpin;;
    display_stats 0;;
    mret (s32 count).

Definition close_miscdrv_rdwr : M Z :=
  get_ctx;;
  acquire is_spin Lock1;; add_ga_gb (-1) 1;; release Lock1;;
  display_stats 1;;
  mret 0.

Definition miscdrv_init_spinlock (register : Z) (devm_ok : bool) : M Z :=
  init_with (fun d s n => Ok (strscpy d s n)) register (fun r => r <? 0) devm_ok.
End Spin.

(** ** The program that writes and reads the secret: src/kmisc/rdwr_test_secret.c *)

(** What the program relies on: a device with a secret, on which open and close return
    0, a terminated string of at most 128 bytes that is written becomes the secret, and
    a read of 128 bytes returns it. *)
Class SecretDevice (S : Type) := {
  sd_open : ST S Z;
  sd_read : Z -> ST S (Z * list Z);
  sd_write : Z -> list Z -> ST S Z;
  sd_close : ST S Z;
  sd_inv : S -> Prop;
  sd_secret : S -> list Z;
  sd_open_ok s : sd_inv s -> exists s', sd_open s = Ok (0, s') /\ sd_inv s' /\ sd_secret s' = sd_secret s;
  sd_close_ok s : sd_inv s -> exists s', sd_close s = Ok (0, s') /\ sd_inv s' /\ sd_secret s' = sd_secret s;
  sd_read_ok s : sd_inv s -> sd_secret s <> [] ->
    exists s', sd_read MAXBYTES s = Ok ((Z.of_nat (length (sd_secret s)), sd_secret s), s') /\
      sd_inv s' /\ sd_secret s' = sd_secret s;
  sd_write_ok s msg : sd_inv s -> no_nul msg -> Z.of_nat (length msg) < MAXBYTES ->
    exists s', sd_write (Z.of_nat (length msg) + 1) (msg ++ [0]) s = Ok (Z.of_nat (length msg) + 1, s') /\
      sd_inv s' /\ sd_secret s' = msg;
}.

Section client.
Context {S : Type} `{SecretDevice S}.

(** The characters of the first argument. *)
Definition OPT_R : Z := 114.
Definition OPT_W : Z := 119.
Definition EXIT_SUCCESS : Z := 0.
Definition EXIT_FAILURE : Z := 1.

Definition strncpy (src : list Z) (n : Z) : list Z :=
  let x := take (Z.to_nat n) src in x ++ replicate (Z.to_nat n - length x) 0.

(** The arguments of the command line as strings; the exit status and the secret that
    is printed. *)
Definition main (argv : list (list Z)) (malloc_ok : bool) : ST S (Z * option (list Z)) :=
  match argv with
  | _ :: a1 :: a2 :: rest =>
      let argc := length argv in
      let opt := default 0 (head a1) in
      let msg := default [] (head rest) in
      if negb (opt =? OPT_R) && negb (opt =? OPT_W) then mret (EXIT_FAILURE, None)
      else if ((opt =? OPT_W) && negb (argc =? 4)%nat) || ((opt =? OPT_R) && negb (argc =? 3)%nat)
      then mret (EXIT_FAILURE, None)
      else if (opt =? OPT_W) && (MAXBYTES <? strnlen msg MAXBYTES) then mret (EXIT_FAILURE, None)
      else
        fd ← sd_open;
        if fd <? 0 then mret (EXIT_FAILURE, None)
        else
          let num :=
            if opt =? OPT_W
            then if MAXBYTES <? strnlen msg MAXBYTES + 1 then MAXBYTES else strnlen msg MAXBYTES + 1
            else MAXBYTES in
          if negb malloc_ok then sd_close;; mret (EXIT_FAILURE, None)
          else if opt =? OPT_R then
            '(n, bytes) ← sd_read num;
            if n <? 0 then sd_close;; mret (EXIT_FAILURE, None)
            else sd_close;; mret (EXIT_SUCCESS, Some (c_chars (take (Z.to_nat n) bytes)))
          else
            n ← sd_write num (strncpy msg num);
            if n <? 0 then sd_close;; mret (EXIT_FAILURE, None)
            else sd_close;; mret (EXIT_SUCCESS, None)
  | _ => mret (EXIT_FAILURE, None)
  end.

Lemma strnlen_short msg : no_nul msg -> strnlen msg MAXBYTES = Z.min (Z.of_nat (length msg)) MAXBYTES.
Proof.
  intros Hn. unfold strnlen. rewrite c_chars_none by (by apply Forall_take). rewrite length_take. unfold MAXBYTES. lia.
Qed.

Lemma main_write name path msg s :
  sd_inv s -> no_nul msg -> Z.of_nat (length msg) < MAXBYTES ->
  exists s', main [name; [OPT_W]; path; msg] true s = Ok ((EXIT_SUCCESS, None), s') /\
    sd_inv s' /\ sd_secret s' = msg.
Proof.
  intros Hi Hn Hlen. pose proof (strnlen_short msg Hn) as Hsl. rewrite Z.min_l in Hsl by lia.
  destruct (sd_open_ok s Hi) as (s1 & H1 & Hi1 & _).
  destruct (sd_write_ok s1 msg Hi1 Hn Hlen) as (s2 & H2 & Hi2 & Hs2).
  destruct (sd_close_ok s2 Hi2) as (s3 & H3 & Hi3 & Hs3).
  exists s3. split; [|split; [done|congruence]].
  unfold main. cbn -[mbind mret strnlen strncpy]. rewrite Hsl. unfold MAXBYTES in *. destruct (128 <? _) eqn:E; [lia|].
  cbn -[mbind mret strncpy]. rewrite (bind_run _ _ _ _ _ H1). cbn -[mbind mret strncpy]. destruct (128 <? _ + 1) eqn:E1; [lia|].
  assert (strncpy msg (Z.of_nat (length msg) + 1) = msg ++ [0]) as ->.
  { unfold strncpy. rewrite take_ge by lia. replace (Z.to_nat _ - length msg)%nat with 1%nat by lia. done. }
  rewrite (bind_run _ _ _ _ _ H2). destruct (_ + 1 <? 0) eqn:E2; [lia|].
  by rewrite (bind_run _ _ _ _ _ H3).
Qed.

Lemma main_read name path s :
  sd_inv s -> no_nul (sd_secret s) -> sd_secret s <> [] ->
  exists s', main [name; [OPT_R]; path] true s = Ok ((EXIT_SUCCESS, Some (sd_secret s)), s') /\
    sd_inv s' /\ sd_secret s' = sd_secret s.
Proof.
  intros Hi Hn Hne. destruct (sd_open_ok s Hi) as (s1 & H1 & Hi1 & Hs1).
  destruct (sd_read_ok s1 Hi1) as (s2 & H2 & Hi2 & Hs2); [congruence|].
  destruct (sd_close_ok s2 Hi2) as (s3 & H3 & Hi3 & Hs3).
  exists s3. split; [|split; [done|congruence]].
  unfold main. cbn -[mbind mret strnlen]. rewrite (bind_run _ _ _ _ _ H1). cbn -[mbind mret strnlen].
  rewrite (bind_run _ _ _ _ _ H2). cbn -[mbind mret Z.ltb]. rewrite (proj2 (Z.ltb_ge _ _)) by apply Nat2Z.is_nonneg.
  rewrite (bind_run _ _ _ _ _ H3).
  rewrite Nat2Z.id, take_ge, c_chars_none by (try done; congruence). by rewrite Hs1.
Qed.

(** C34: What the program writes it reads back, on every device that keeps the promises
    of [SecretDevice]: after writing a secret of 1 to 127 characters, reading prints
    exactly that secret, and both runs succeed. *)
Theorem secret_written_is_read name path msg s :
  sd_inv s -> no_nul msg -> msg <> [] -> Z.of_nat (length msg) < MAXBYTES ->
  exists s1 s2, main [name; [OPT_W]; path; msg] true s = Ok ((EXIT_SUCCESS, None), s1) /\
    main [name; [OPT_R]; path] true s1 = Ok ((EXIT_SUCCESS, Some msg), s2) /\ sd_inv s2.
Proof.
  intros Hi Hn Hne Hlen. destruct (main_write name path msg s Hi Hn Hlen) as (s1 & H1 & Hi1 & Hs1).
  destruct (main_read name path s1 Hi1) as (s2 & H2 & Hi2 & _); [congruence..|].
  exists s1, s2. rewrite Hs1 in H2. done.
Qed.
End client.

(** ** The drivers are such devices *)

(** Loaded, no lock held, the secret a terminated string in its array. *)
Definition terminated (c : drv_ctx) : Prop :=
  Z.of_nat (length (oursecret c)) = MAXBYTES /\ 0 ∈ oursecret c.
Definition dev_ok (d : drv) : Prop := held d = [] /\ exists c, ctx d = Some c /\ terminated c.
Definition dev_secret (d : drv) : list Z :=
  match ctx d with Some c => c_chars (oursecret c) | None => [] end.

Lemma terminated_string c : terminated c ->
  c_string (oursecret c) = Some (c_chars (oursecret c)) /\
  (length (c_chars (oursecret c)) < length (oursecret c))%nat.
Proof.
  intros [_ H0]. destruct (c_string_app [] (oursecret c) H0) as [x Hx]. simpl in Hx.
  destruct (c_string_chars _ _ Hx) as [<- [l Hl]]. split; [done|].
  apply (f_equal length) in Hl. rewrite length_app in Hl. simpl in Hl. lia.
Qed.

(** The array after a string was stored. *)
Definition stored (x old : list Z) : list Z := splice 0 (x ++ [0]) old.
Lemma stored_ok x c t r : terminated c -> no_nul x -> Z.of_nat (length x) < MAXBYTES ->
  terminated (mk_ctx t r (stored x (oursecret c))) /\ c_chars (stored x (oursecret c)) = x.
Proof.
  intros [Hl _] Hn Hx. unfold stored, splice, terminated. simpl. split; [split|].
  - rewrite length_app, length_drop, length_app. simpl. lia.
  - set_solver.
  - rewrite <- app_assoc. by apply c_chars_nul.
Qed.

Lemma copy_string msg old : no_nul msg ->
  strlcpy old (msg ++ [0]) (Z.of_nat (length msg) + 1) = Ok (stored msg old) /\
  strscpy old (msg ++ [0]) (Z.of_nat (length msg) + 1) = stored msg old.
Proof.
  intros Hn. unfold strlcpy, strscpy, stored. rewrite c_string_nul by done. destruct (_ =? 0) eqn:E; [zbool; lia|].
  replace (Z.to_nat (Z.of_nat (length msg) + 1 - 1)) with (length msg) by lia.
  rewrite (take_ge (msg ++ [0])) by (rewrite length_app; simpl; lia). rewrite c_chars_nul by done.
  by rewrite take_ge.
Qed.

Lemma secret_len c : terminated c ->
  strlen (oursecret c) = Ok (Z.of_nat (length (c_chars (oursecret c)))) /\
  strnlen (oursecret c) MAXBYTES = Z.of_nat (length (c_chars (oursecret c))) /\
  take (length (c_chars (oursecret c))) (oursecret c) = c_chars (oursecret c).
Proof.
  intros Ht. destruct (terminated_string c Ht) as [Hs Hl]. unfold strlen, strnlen. rewrite Hs.
  destruct Ht as [Hlen _]. rewrite take_ge by lia. split_and!; try done.
  destruct (c_string_chars _ _ Hs) as [_ [l E]]. rewrite E at 2. by rewrite take_app_length.
Qed.

Ltac dcbn := cbn -[strlen strnlen strlcpy strscpy].
Ltac dev_run :=
  unfold get_ctx, put_ctx, acquire, release, might_sleep, add_ga_gb, lift_res, Spin.display_stats, mbind, ST_bind,
    mret, ST_ret; dcbn.

Lemma s32_len (msg : list Z) : Z.of_nat (length msg) < MAXBYTES -> s32 (Z.of_nat (length msg) + 1) = Z.of_nat (length msg) + 1.
Proof. intros. unfold MAXBYTES in *. apply s32_small. lia. Qed.

Section device_ops.
Context (d : drv) (c : drv_ctx) (Hheld : held d = []) (Hctx : ctx d = Some c) (Ht : terminated c).
Local Abbreviation len := (Z.of_nat (length (c_chars (oursecret c)))).
Local Abbreviation with_ctx c' := (mk_drv (registered d) (Some c') (ga d) (gb d) []).

Lemma nonempty_len : dev_secret d <> [] -> (len <=? 0) = false.
Proof. unfold dev_secret. rewrite Hctx. intros H. apply Z.leb_gt. destruct (c_chars _); simpl; [done|lia]. Qed.
Lemma secret_eq : dev_secret d = c_chars (oursecret c).
Proof. unfold dev_secret. by rewrite Hctx. Qed.

Ltac runs := dev_run; do 4 (rewrite ?Hctx, ?Hheld; dcbn).

Lemma kmisc_read : dev_secret d <> [] ->
  Kmisc.read_miscdrv_rdwr MAXBYTES true d = Ok ((len, dev_secret d), with_ctx (add_tx len c)).
Proof.
  intros Hne%nonempty_len. rewrite secret_eq. destruct (secret_len c Ht) as (_ & Hn & Htk).
  unfold Kmisc.read_miscdrv_rdwr. dev_run. rewrite Hctx, Hn, Hne. by rewrite Nat2Z.id, Htk, Hheld.
Qed.
Lemma mutex_read : dev_secret d <> [] ->
  Mutex.read_miscdrv_rdwr MAXBYTES true d = Ok ((len, dev_secret d), with_ctx (add_tx len c)).
Proof.
  intros Hne%nonempty_len. rewrite secret_eq. destruct (secret_len c Ht) as (Hn & _ & Htk).
  unfold Mutex.read_miscdrv_rdwr, Mutex.read_length, Mutex.read_copy. runs.
  rewrite Hn. dcbn. rewrite Hne. runs. by rewrite Nat2Z.id, Htk.
Qed.
Lemma spin_read : dev_secret d <> [] ->
  Spin.read_miscdrv_rdwr MAXBYTES true d = Ok ((len, dev_secret d), with_ctx (add_tx len c)).
Proof.
  intros Hne%nonempty_len. rewrite secret_eq. destruct (secret_len c Ht) as (Hn & _ & Htk).
  unfold Spin.read_miscdrv_rdwr, Spin.read_length, Spin.read_copy. runs.
  rewrite Hn. dcbn. rewrite Hne. runs. by rewrite Nat2Z.id, Htk.
Qed.

Lemma clamp n : (if MAXBYTES <? n then MAXBYTES else n) = Z.min n MAXBYTES.
Proof. destruct (MAXBYTES <? n) eqn:E; zbool; lia. Qed.

(** A write, by each driver, of any bytes that reach the copy into the context. *)
Lemma kmisc_write n ubuf b : n <= MAXBYTES -> strlcpy (oursecret c) ubuf n = Ok b ->
  Kmisc.write_miscdrv_rdwr n ubuf true true d = Ok (s32 n, with_ctx (add_rx n (set_secret b c))).
Proof.
  intros Hn Hb. unfold Kmisc.write_miscdrv_rdwr. dev_run. rewrite Hctx.
  destruct (MAXBYTES <? n) eqn:E; [zbool; lia|]. by rewrite Hb, Hheld.
Qed.
Lemma mutex_write n ubuf :
  Mutex.write_miscdrv_rdwr n ubuf true true d =
  Ok (s32 n, with_ctx (add_rx n (set_secret (strscpy (oursecret c) ubuf (Z.min n MAXBYTES)) c))).
Proof.
  unfold Mutex.write_miscdrv_rdwr. rewrite clamp. by runs.
Qed.
Lemma spin_write buggy n ubuf : buggy <> 1 ->
  Spin.write_miscdrv_rdwr buggy n ubuf true true d =
  Ok (s32 n, with_ctx (add_rx n (set_secret (strscpy (oursecret c) ubuf (Z.min n MAXBYTES)) c))).
Proof.
  intros Hb. unfold Spin.write_miscdrv_rdwr. rewrite clamp. runs.
  destruct (buggy =? 1) eqn:E; [zbool; lia|]. done.
Qed.

(** Open and close. *)
Definition counted (x : Z) : drv := mk_drv (registered d) (Some c) (s32 (ga d + x)) (s32 (gb d - x)) [].
Lemma open_runs :
  Kmisc.open_miscdrv_rdwr true d = Ok (0, counted 1) /\
  Mutex.open_miscdrv_rdwr d = Ok (0, counted 1) /\ Spin.open_miscdrv_rdwr d = Ok (0, counted 1).
Proof.
  unfold Kmisc.open_miscdrv_rdwr, Mutex.open_miscdrv_rdwr, Spin.open_miscdrv_rdwr, counted.
  split_and!; by runs.
Qed.
Lemma close_runs :
  Kmisc.close_miscdrv_rdwr true d = Ok (0, counted (-1)) /\
  Mutex.close_miscdrv_rdwr d = Ok (0, counted (-1)) /\ Spin.close_miscdrv_rdwr d = Ok (0, counted (-1)).
Proof.
  unfold Kmisc.close_miscdrv_rdwr, Mutex.close_miscdrv_rdwr, Spin.close_miscdrv_rdwr, counted.
  split_and!; by runs.
Qed.
End device_ops.

Lemma counted_ok d c x : ctx d = Some c -> terminated c ->
  dev_ok (counted d c x) /\ dev_secret (counted d c x) = dev_secret d.
Proof. intros Hc Ht. split; [split; [done|by exists c]|]. unfold dev_secret. by rewrite Hc. Qed.

(** The three drivers, with every allocation and copy successful. *)
#[local] Instance kmisc_device : SecretDevice drv.
Proof.
  refine {| sd_open := Kmisc.open_miscdrv_rdwr true; sd_read n := Kmisc.read_miscdrv_rdwr n true;
    sd_write n b := Kmisc.write_miscdrv_rdwr n b true true; sd_close := Kmisc.close_miscdrv_rdwr true;
    sd_inv := dev_ok; sd_secret := dev_secret |}.
  - intros d (Hh & c & Hc & Ht). destruct (open_runs d c Hh Hc) as (-> & _).
    eexists. split; [done|]. by apply counted_ok.
  - intros d (Hh & c & Hc & Ht). destruct (close_runs d c Hh Hc) as (-> & _).
    eexists. split; [done|]. by apply counted_ok.
  - intros d (Hh & c & Hc & Ht) Hne. rewrite (kmisc_read d c Hh Hc Ht Hne), (secret_eq d c Hc).
    eexists. split; [done|]. split; [split; [done|by eexists]|done].
  - intros d msg (Hh & c & Hc & Ht) Hn Hlen. destruct (copy_string msg (oursecret c) Hn) as [Hb _].
    assert (Z.of_nat (length msg) + 1 <= MAXBYTES) as Hle by lia.
    rewrite (kmisc_write d c Hh Hc _ _ _ Hle Hb), s32_len by done.
    destruct (stored_ok msg c (tx c) (s32 (rx c + (Z.of_nat (length msg) + 1))) Ht Hn Hlen) as [H1 H2].
    eexists. split; [done|]. split; [split; [done|by eexists]|done].
Defined.

#[local] Instance mutex_device : SecretDevice drv.
Proof.
  refine {| sd_open := Mutex.open_miscdrv_rdwr; sd_read n := Mutex.read_miscdrv_rdwr n true;
    sd_write n b := Mutex.write_miscdrv_rdwr n b true true; sd_close := Mutex.close_miscdrv_rdwr;
    sd_inv := dev_ok; sd_secret := dev_secret |}.
  - intros d (Hh & c & Hc & Ht). destruct (open_runs d c Hh Hc) as (_ & -> & _).
    eexists. split; [done|]. by apply counted_ok.
  - intros d (Hh & c & Hc & Ht). destruct (close_runs d c Hh Hc) as (_ & -> & _).
    eexists. split; [done|]. by apply counted_ok.
  - intros d (Hh & c & Hc & Ht) Hne. rewrite (mutex_read d c Hh Hc Ht Hne), (secret_eq d c Hc).
    eexists. split; [done|]. split; [split; [done|by eexists]|done].
  - intros d msg (Hh & c & Hc & Ht) Hn Hlen. destruct (copy_string msg (oursecret c) Hn) as [_ Hb].
    rewrite (mutex_write d c Hh Hc), Z.min_l, Hb, s32_len by (try done; unfold MAXBYTES in *; lia).
    destruct (stored_ok msg c (tx c) (s32 (rx c + (Z.of_nat (length msg) + 1))) Ht Hn Hlen) as [H1 H2].
    eexists. split; [done|]. split; [split; [done|by eexists]|done].
Defined.

(** The parameter [buggy] is 0 unless the module is loaded with it. *)
#[local] Instance spin_device : SecretDevice drv.
Proof.
  refine {| sd_open := Spin.open_miscdrv_rdwr; sd_read n := Spin.read_miscdrv_rdwr n true;
    sd_write n b := Spin.write_miscdrv_rdwr 0 n b true true; sd_close := Spin.close_miscdrv_rdwr;
    sd_inv := dev_ok; sd_secret := dev_secret |}.
  - intros d (Hh & c & Hc & Ht). destruct (open_runs d c Hh Hc) as (_ & _ & ->).
    eexists. split; [done|]. by apply counted_ok.
  - intros d (Hh & c & Hc & Ht). destruct (close_runs d c Hh Hc) as (_ & _ & ->).
    eexists. split; [done|]. by apply counted_ok.
  - intros d (Hh & c & Hc & Ht) Hne. rewrite (spin_read d c Hh Hc Ht Hne), (secret_eq d c Hc).
    eexists. split; [done|]. split; [split; [done|by eexists]|done].
  - intros d msg (Hh & c & Hc & Ht) Hn Hlen. destruct (copy_string msg (oursecret c) Hn) as [_ Hb].
    rewrite (spin_write d c Hh Hc), Z.min_l, Hb, s32_len by (try done; unfold MAXBYTES in *; lia).
    destruct (stored_ok msg c (tx c) (s32 (rx c + (Z.of_nat (length msg) + 1))) Ht Hn Hlen) as [H1 H2].
    eexists. split; [done|]. split; [split; [done|by eexists]|done].
Defined.

(** ** Secrets that are too long *)

Lemma main_write_long {S} (H : SecretDevice S) name path msg s s1 :
  sd_open s = Ok (0, s1) -> no_nul msg -> MAXBYTES <= Z.of_nat (length msg) ->
  main [name; [OPT_W]; path; msg] true s =
  (n ← sd_write MAXBYTES (take 128 msg);
   if n <? 0 then sd_close;; mret (EXIT_FAILURE, None) else sd_close;; mret (EXIT_SUCCESS, None)) s1.
Proof.
  intros H1 Hn Hlen. pose proof (strnlen_short msg Hn) as Hsl. rewrite Z.min_r in Hsl by lia.
  unfold main. cbn -[mbind mret strnlen strncpy]. rewrite Hsl. cbn -[mbind mret strncpy].
  rewrite (bind_run _ _ _ _ _ H1). cbn -[mbind mret strncpy].
  assert (strncpy msg MAXBYTES = take 128 msg) as E; [|change (MAXBYTES <? MAXBYTES + 1) with true; cbn iota; by rewrite E].
  unfold strncpy, MAXBYTES in *.
  change (Z.to_nat 128) with 128%nat. rewrite length_take.
  replace (128 - _)%nat with 0%nat by lia. by rewrite app_nil_r.
Qed.

Lemma strscpy_long msg old : no_nul msg -> MAXBYTES <= Z.of_nat (length msg) ->
  strscpy old (take 128 msg) MAXBYTES = stored (take 127 msg) old.
Proof.
  intros Hn Hlen. unfold strscpy, stored, MAXBYTES in *. change (128 =? 0) with false. cbn iota.
  change (Z.to_nat (128 - 1)) with 127%nat. change (Z.to_nat 128) with 128%nat.
  rewrite take_take, c_chars_none by (by apply Forall_take). by rewrite take_take.
Qed.

(** The program lets a secret of 128 characters or more pass (its length check
    can never fail) and sends 128 bytes without a terminator. The driver without
    locking then measures the string beyond the end of its buffer; the other two store
    its first 127 characters, and the program reports success. *)
Theorem long_secrets name path msg d :
  dev_ok d -> no_nul msg -> MAXBYTES <= Z.of_nat (length msg) ->
  main (H := kmisc_device) [name; [OPT_W]; path; msg] true d = Err OutOfBounds /\
  forall dv, dv = mutex_device \/ dv = spin_device ->
    exists d', main (H := dv) [name; [OPT_W]; path; msg] true d = Ok ((EXIT_SUCCESS, None), d') /\
      dev_ok d' /\ dev_secret d' = take 127 msg.
Proof.
  intros (Hh & c & Hc & Ht) Hn Hlen. set (d1 := counted d c 1).
  destruct (open_runs d c Hh Hc) as (O1 & O2 & O3). fold d1 in O1, O2, O3.
  assert (no_nul (take 127 msg)) as Hn' by (by apply Forall_take).
  assert (Z.of_nat (length (take 127 msg)) < MAXBYTES) as Hl' by (rewrite length_take; unfold MAXBYTES; lia).
  split.
  - rewrite (main_write_long kmisc_device name path msg d d1 O1 Hn Hlen). cbn [sd_write kmisc_device].
    unfold Kmisc.write_miscdrv_rdwr. dev_run. unfold strlcpy. rewrite c_string_none by (by apply Forall_take). done.
  - set (c2 := add_rx MAXBYTES (set_secret (stored (take 127 msg) (oursecret c)) c)).
    set (d2 := mk_drv (registered d1) (Some c2) (ga d1) (gb d1) []).
    destruct (stored_ok _ c (tx c) (s32 (rx c + MAXBYTES)) Ht Hn' Hl') as [T1 T2].
    destruct (close_runs d2 c2 eq_refl eq_refl) as (_ & C2 & C3).
    exists (counted d2 c2 (-1)). split; [|by destruct (counted_ok d2 c2 (-1) eq_refl T1)].
    destruct H as [-> | ->].
    + rewrite (main_write_long mutex_device name path msg d d1 O2 Hn Hlen). cbn [sd_write mutex_device].
      rewrite (bind_run _ _ d1 MAXBYTES d2).
      { change (MAXBYTES <? 0) with false. cbn iota. by rewrite (bind_run (sd_close (SecretDevice := mutex_device)) _ d2 0 _ C2). }
      by rewrite (mutex_write d1 c eq_refl eq_refl), Z.min_id, strscpy_long.
    + rewrite (main_write_long spin_device name path msg d d1 O3 Hn Hlen). cbn [sd_write spin_device].
      rewrite (bind_run _ _ d1 MAXBYTES d2).
      { change (MAXBYTES <? 0) with false. cbn iota. by rewrite (bind_run (sd_close (SecretDevice := spin_device)) _ d2 0 _ C3). }
      by rewrite (spin_write d1 c eq_refl eq_refl), Z.min_id, strscpy_long.
Qed.

(** The write method of the driver without locking, on every path. A write of
    more than 128 bytes changes nothing and reports that all bytes were written; bytes
    without a zero among them make it measure beyond its buffer (a write of no bytes
    among them); otherwise the string before the first zero byte becomes the secret. *)
Theorem kmisc_write_outcomes d count ubuf :
  dev_ok d -> 0 <= count -> Z.of_nat (length ubuf) = count ->
  (MAXBYTES < count -> forall a b, Kmisc.write_miscdrv_rdwr count ubuf a b d = Ok (s32 count, d)) /\
  (count <= MAXBYTES ->
    (forall b, Kmisc.write_miscdrv_rdwr count ubuf false b d = Ok (- ENOMEM, d)) /\
    Kmisc.write_miscdrv_rdwr count ubuf true false d = Ok (- EFAULT, d) /\
    (0 ∉ ubuf -> Kmisc.write_miscdrv_rdwr count ubuf true true d = Err OutOfBounds) /\
    (0 ∈ ubuf -> exists d', Kmisc.write_miscdrv_rdwr count ubuf true true d = Ok (count, d') /\
       dev_ok d' /\ dev_secret d' = c_chars ubuf)).
Proof.
  intros (Hh & c & Hc & Ht) H0 Hlen. unfold Kmisc.write_miscdrv_rdwr. split.
  { intros Hbig a b. dev_run. rewrite Hc. destruct (MAXBYTES <? count) eqn:E; [done|zbool; lia]. }
  intros Hle. destruct (MAXBYTES <? count) eqn:E; [zbool; lia|]. split_and!.
  - intros b. dev_run. by rewrite Hc.
  - dev_run. by rewrite Hc.
  - intros Hno. dev_run. rewrite Hc. unfold strlcpy. rewrite c_string_none; [done|].
    apply Forall_forall. intros x Hx ->. done.
  - intros Hin. destruct (c_string_app [] ubuf Hin) as [x Hx]. simpl in Hx.
    destruct (c_string_chars _ _ Hx) as [Hch [l Hl]]. pose proof (f_equal length Hl) as Hll.
    rewrite length_app in Hll. simpl in Hll.
    assert (no_nul x) as Hn by (rewrite <- Hch; apply c_chars_no_nul).
    destruct (stored_ok x c (tx c) (s32 (rx c + count)) Ht Hn) as [T1 T2]; [lia|].
    exists (mk_drv (registered d) (Some (add_rx count (set_secret (stored x (oursecret c)) c))) (ga d) (gb d) []).
    rewrite Hch. split; [|split; [split; [done|by eexists]|done]].
    dev_run. rewrite Hc. unfold strlcpy. rewrite Hx. destruct (count =? 0) eqn:E0; [zbool; lia|].
    rewrite take_ge by lia. rewrite Hh. unfold MAXBYTES in *. by rewrite s32_small by lia.
Qed.

(** ** A write between the two critical sections of a read *)

Section torn.
Context (d : drv) (c : drv_ctx) (Hheld : held d = []) (Hctx : ctx d = Some c).

Lemma read_length_runs : terminated c ->
  Mutex.read_length d = Ok (Z.of_nat (length (dev_secret d)), d) /\
  Spin.read_length d = Ok (Z.of_nat (length (dev_secret d)), d).
Proof.
  intros Ht. destruct (secret_len c Ht) as (Hn & _). rewrite (secret_eq d c Hctx).
  unfold Mutex.read_length, Spin.read_length. destruct d as [r o a b h]. simpl in *. subst. dev_run.
  by rewrite Hn.
Qed.

Lemma read_copy_runs n : 0 < n ->
  let d' := mk_drv (registered d) (Some (add_tx n c)) (ga d) (gb d) [] in
  Mutex.read_copy MAXBYTES n true d = Ok ((n, take (Z.to_nat n) (oursecret c)), d') /\
  Spin.read_copy MAXBYTES n true d = Ok ((n, take (Z.to_nat n) (oursecret c)), d').
Proof.
  intros Hn. unfold Mutex.read_copy, Spin.read_copy. destruct d as [r o a b h]. simpl in *. subst.
  destruct (n <=? 0) eqn:E; [zbool; lia|]. by dev_run.
Qed.
End torn.

(** The length is taken in one critical section and the bytes in another. When a
    shorter secret is written in between, a read by either locking driver returns as
    many bytes as the old secret had: the new secret, its terminator, and the rest of
    the old one, a string that was never the secret. *)
Theorem read_torn_by_write d old msg :
  dev_ok d -> dev_secret d = old -> no_nul msg -> (length msg < length old)%nat ->
  exists dm dm' ds ds',
    Mutex.read_length d = Ok (Z.of_nat (length old), d) /\
    Mutex.write_miscdrv_rdwr (Z.of_nat (length msg) + 1) (msg ++ [0]) true true d =
      Ok (Z.of_nat (length msg) + 1, dm) /\ dev_secret dm = msg /\
    Mutex.read_copy MAXBYTES (Z.of_nat (length old)) true dm =
      Ok ((Z.of_nat (length old), msg ++ 0 :: drop (S (length msg)) old), dm') /\
    Spin.read_length d = Ok (Z.of_nat (length old), d) /\
    Spin.write_miscdrv_rdwr 0 (Z.of_nat (length msg) + 1) (msg ++ [0]) true true d =
      Ok (Z.of_nat (length msg) + 1, ds) /\ dev_secret ds = msg /\
    Spin.read_copy MAXBYTES (Z.of_nat (length old)) true ds =
      Ok ((Z.of_nat (length old), msg ++ 0 :: drop (S (length msg)) old), ds').
Proof.
  intros (Hh & c & Hc & Ht) <- Hn Hlen. pose proof (secret_eq d c Hc) as Hold.
  destruct (terminated_string c Ht) as [_ Hlt]. destruct (secret_len c Ht) as (_ & _ & Htk).
  assert (Z.of_nat (length msg) < MAXBYTES) as Hm by (destruct Ht as [Hl _]; rewrite Hold in Hlen; lia).
  destruct (copy_string msg (oursecret c) Hn) as [_ Hb].
  set (c2 := add_rx (Z.of_nat (length msg) + 1) (set_secret (stored msg (oursecret c)) c)).
  set (d2 := mk_drv (registered d) (Some c2) (ga d) (gb d) []).
  destruct (stored_ok msg c (tx c) (s32 (rx c + (Z.of_nat (length msg) + 1))) Ht Hn Hm) as [T1 T2].
  destruct (read_length_runs d c Hh Hc Ht) as [L1 L2].
  destruct (read_copy_runs d2 c2 eq_refl eq_refl (Z.of_nat (length (dev_secret d)))) as [R1 R2]; [lia|].
  assert (take (Z.to_nat (Z.of_nat (length (dev_secret d)))) (oursecret c2) =
    msg ++ 0 :: drop (S (length msg)) (dev_secret d)) as Hbytes.
  { rewrite Nat2Z.id. unfold c2. simpl. unfold stored, splice. rewrite length_app. simpl.
    rewrite Hold, <- app_assoc. rewrite Hold in Hlen. rewrite take_app_ge by lia. f_equal.
    replace (length (c_chars (oursecret c)) - length msg)%nat
      with (S (length (c_chars (oursecret c)) - S (length msg))) by lia. simpl. f_equal.
    by rewrite Nat.add_1_r, <- skipn_firstn_comm, Htk. }
  rewrite Hbytes in R1, R2. eexists d2, _, d2, _. split_and!; try done.
  - by rewrite (mutex_write d c Hh Hc), Z.min_l, Hb, s32_len by lia.
  - by rewrite (spin_write d c Hh Hc), Z.min_l, Hb, s32_len by lia.
Qed.

(** ** Counting opens *)

Lemma s32_add a b : s32 (s32 a + b) = s32 (a + b).
Proof.
  unfold s32. f_equal. set (m := (a + 2 ^ 31) mod 2 ^ 32).
  replace (m - 2 ^ 31 + b + 2 ^ 31) with (m + b) by lia. unfold m. rewrite Zplus_mod_idemp_l. f_equal. lia.
Qed.

Lemma s32_idem z : s32 z = s32 (s32 z).
Proof. pose proof (s32_add z 0) as H. by rewrite !Z.add_0_r in H. Qed.

Inductive file_op := Open | Close.
Definition change (o : file_op) : Z := match o with Open => 1 | Close => -1 end.
Definition net (ops : list file_op) : Z := foldr (fun o n => change o + n) 0 ops.

(** The three drivers' methods; the flag is the outcome of the allocation that the
    driver without locking makes for its message. *)
Definition kmisc_op (x : file_op * bool) : M Z :=
  match x with (Open, ok) => Kmisc.open_miscdrv_rdwr ok | (Close, ok) => Kmisc.close_miscdrv_rdwr ok end.
Definition mutex_op (o : file_op) : M Z :=
  match o with Open => Mutex.open_miscdrv_rdwr | Close => Mutex.close_miscdrv_rdwr end.
Definition spin_op (o : file_op) : M Z :=
  match o with Open => Spin.open_miscdrv_rdwr | Close => Spin.close_miscdrv_rdwr end.
Fixpoint each {A} (f : A -> M Z) (xs : list A) : M unit :=
  match xs with [] => mret tt | x :: xs' => f x;; each f xs' end.

(** A run of operations that each change the counters by [g x] and nothing else. *)
Lemma each_counts {A} (f : A -> M Z) (g : A -> Z) xs : forall d c,
  held d = [] -> ctx d = Some c ->
  (forall x d, held d = [] -> ctx d = Some c ->
     exists r, f x d = Ok (r, if g x =? 0 then d else counted d c (g x))) ->
  (ga d = s32 (ga d) /\ gb d = s32 (gb d)) ->
  each f xs d = Ok (tt, mk_drv (registered d) (ctx d) (s32 (ga d + foldr (fun x n => g x + n) 0 xs))
    (s32 (gb d - foldr (fun x n => g x + n) 0 xs)) []).
Proof.
  induction xs as [|x xs IH]; intros d c Hh Hc Hf [Ea Eb]; simpl.
  - rewrite Z.add_0_r, Z.sub_0_r, <- Ea, <- Eb, <- Hh. by destruct d.
  - destruct (Hf x d Hh Hc) as [r Hr]. rewrite (bind_run _ _ _ _ _ Hr). destruct (g x =? 0) eqn:E.
    + zbool. rewrite E. simpl. by apply (IH d c).
    + rewrite (IH (counted d c (g x)) c eq_refl eq_refl Hf (conj (s32_idem _) (s32_idem _))). unfold counted. simpl.
      rewrite Hc. do 3 f_equal; [rewrite s32_add; f_equal; lia|].
      rewrite <- (Z.add_opp_r (s32 _)), s32_add. f_equal. lia.
Qed.

(** The counters of open files. In the locking drivers, any sequence of opens and
    closes moves [ga] up and [gb] down by opens minus closes (as 32-bit integers),
    releases every lock and changes nothing else. In the driver without locking the
    same holds of the calls whose allocation succeeds: a close that cannot allocate the
    buffer for its message fails and is not counted. *)
Theorem opens_and_closes_balance d (ops : list file_op) (kops : list (file_op * bool)) :
  dev_ok d -> ga d = s32 (ga d) -> gb d = s32 (gb d) ->
  let after n := mk_drv (registered d) (ctx d) (s32 (ga d + n)) (s32 (gb d - n)) [] in
  each mutex_op ops d = Ok (tt, after (net ops)) /\
  each spin_op ops d = Ok (tt, after (net ops)) /\
  each kmisc_op kops d = Ok (tt, after (net (omap (fun x : file_op * bool => if x.2 then Some x.1 else None) kops))).
Proof.
  intros (Hh & c & Hc & Ht) Ea Eb after. split_and!.
  - apply (each_counts mutex_op change ops d c Hh Hc); [|done]. intros x d' Hh' Hc'.
    destruct (open_runs d' c Hh' Hc') as (_ & H1 & _), (close_runs d' c Hh' Hc') as (_ & H2 & _).
    exists 0. by destruct x.
  - apply (each_counts spin_op change ops d c Hh Hc); [|done]. intros x d' Hh' Hc'.
    destruct (open_runs d' c Hh' Hc') as (_ & _ & H1), (close_runs d' c Hh' Hc') as (_ & _ & H2).
    exists 0. by destruct x.
  - set (g := fun x : file_op * bool => if x.2 then change x.1 else 0).
    assert (net (omap (fun x : file_op * bool => if x.2 then Some x.1 else None) kops) = foldr (fun x n => g x + n) 0 kops) as ->.
    { unfold net. induction kops as [|[o []] l IH]; [done|..]; simpl; unfold g at 1; simpl; by rewrite <- IH. }
    apply (each_counts kmisc_op g kops d c Hh Hc); [|done]. intros [o b] d' Hh' Hc'.
    destruct (open_runs d' c Hh' Hc') as (H1 & _), (close_runs d' c Hh' Hc') as (H2 & _).
    destruct b; [exists 0; by destruct o|]. exists (- ENOMEM). destruct o; simpl;
      unfold Kmisc.open_miscdrv_rdwr, Kmisc.close_miscdrv_rdwr; dev_run; by rewrite Hc'.
Qed.

(** Loading: a failed allocation leaves the device registered without a context, and
    every method then follows a null pointer. *)
Lemma init_without_context register :
  exists d, Kmisc.miscdrv_rdwr_init 0 false unloaded = Ok (- ENOMEM, d) /\ registered d = true /\
    (forall ok, Kmisc.open_miscdrv_rdwr ok d = Err NullDeref) /\
    Mutex.miscdrv_init_mutexlock 0 false unloaded = Ok (- ENOMEM, d) /\
    Mutex.open_miscdrv_rdwr d = Err NullDeref /\
    (0 <= register -> Spin.miscdrv_init_spinlock register false unloaded = Ok (- ENOMEM, d)) /\
    Spin.open_miscdrv_rdwr d = Err NullDeref.
Proof.
  eexists. split; [done|]. split_and!; try done. intros Hr. unfold Spin.miscdrv_init_spinlock, init_with.
  by destruct (register <? 0) eqn:E; [zbool; lia|].
Qed.

(** ** Witnesses *)

Definition demo_dev : drv := Eval vm_compute in
  match Kmisc.miscdrv_rdwr_init 0 true unloaded with Ok (_, d) => d | Err _ => unloaded end.
Lemma demo_dev_ok : dev_ok demo_dev.
Proof. split; [done|]. eexists. split; [reflexivity|]. split; [done|]. by_compute. Qed.

Lemma secret_written_is_read_witness :
  exists s1 s2, main (H := mutex_device) [[97]; [OPT_W]; [100]; [104; 105]] true demo_dev = Ok ((EXIT_SUCCESS, None), s1) /\
    main (H := mutex_device) [[97]; [OPT_R]; [100]] true s1 = Ok ((EXIT_SUCCESS, Some [104; 105]), s2) /\ dev_ok s2.
Proof.
  apply (secret_written_is_read (H := mutex_device) [97] [100] [104; 105] demo_dev); [exact demo_dev_ok| |discriminate|reflexivity].
  repeat constructor; discriminate.
Defined.

Lemma long_secrets_witness :
  main (H := kmisc_device) [[97]; [OPT_W]; [100]; replicate 130 104] true demo_dev = Err OutOfBounds.
Proof.
  refine (proj1 (long_secrets [97] [100] (replicate 130 104) demo_dev demo_dev_ok _ _)).
  - apply Forall_replicate. discriminate.
  - vm_compute. discriminate.
Defined.

Lemma kmisc_write_outcomes_witness :
  Kmisc.write_miscdrv_rdwr 0 [] true true demo_dev = Err OutOfBounds.
Proof.
  refine (proj1 (proj2 (proj2 (proj2 (kmisc_write_outcomes demo_dev 0 [] demo_dev_ok _ eq_refl) _))) _).
  - discriminate.
  - discriminate.
  - apply not_elem_of_nil.
Defined.

Lemma read_torn_by_write_witness :
  exists dm dm', Mutex.write_miscdrv_rdwr 2 [120; 0] true true demo_dev = Ok (2, dm) /\
    Mutex.read_copy MAXBYTES 7 true dm = Ok ((7, [120; 0; 105; 116; 109; 115; 103]), dm').
Proof.
  destruct (read_torn_by_write demo_dev [105; 110; 105; 116; 109; 115; 103] [120] demo_dev_ok eq_refl)
    as (dm & dm' & ds & ds' & _ & H1 & _ & H2 & _).
  - repeat constructor; discriminate.
  - simpl. lia.
  - exact (ex_intro _ dm (ex_intro _ dm' (conj H1 H2))).
Defined.

Lemma opens_and_closes_balance_witness :
  each mutex_op [Open; Open; Close] demo_dev = Ok (tt, mk_drv true (ctx demo_dev) 1 0 []).
Proof. apply (opens_and_closes_balance demo_dev [Open; Open; Close] [] demo_dev_ok); reflexivity. Defined.
End Misc.
