(* ===== verification/CBase.v ===== *)
(** * Values and loops of C and C++

    Code that only computes is in the monad [res]: a value or a fault. Signed arithmetic
    is checked, the elements of an array or vector are accessed with bounds, and a loop
    the source does not bound by a counter is [iter] with a fuel, for which
    [iter_total] is the rule of total correctness: an invariant and a measure below the
    fuel. *)
From S2P Require Import Prelude.
From stdpp Require Import base numbers list gmap.
Local Open Scope Z_scope.

(** ** Results *)

#[global] Instance res_ret : MRet res := @Ok.
#[global] Instance res_bind : MBind res := fun A B f m =>
  match m with Ok a => f a | Err e => Err e end.

Lemma rbind_ok {A B} (a : A) (f : A -> res B) : mbind f (Ok a) = f a.
Proof. done. Qed.
Lemma rbind_err {A B} e (f : A -> res B) : mbind f (Err e) = Err e.
Proof. done. Qed.

(** A computation as part of a program. *)
Definition lift {S A} (m : res A) : ST S A := fun s =>
  match m with Ok a => Ok (a, s) | Err e => Err e end.

Lemma lift_ok {S A} (a : A) : lift (S := S) (Ok a) = mret a.
Proof. done. Qed.

(** ** Programs that may exit

    A program in [ST] with a result in [Z + A] may end early: [inl status] is the state
    after [exit(status)]. *)
Section exits.
Context {S : Type}.

Definition xret {A} (a : A) : ST S (Z + A) := mret (inr a).
Definition xbind {A B} (m : ST S (Z + A)) (f : A -> ST S (Z + B)) : ST S (Z + B) :=
  r ← m; match r with inl status => mret (inl status) | inr a => f a end.
Definition xlift {A} (m : ST S A) : ST S (Z + A) := a ← m; mret (inr a).
Definition exit {A} (status : Z) : ST S (Z + A) := mret (inl status).
End exits.
Notation "x <~ m ; k" := (xbind m (fun x => k)) (at level 20, m at level 100, k at level 200, right associativity).

(** ** The type [int] *)

Definition INT_MAX : Z := 2147483647.
Definition INT_MIN : Z := -2147483648.
Definition is_int (z : Z) : Prop := INT_MIN <= z <= INT_MAX.
#[global] Instance is_int_dec z : Decision (is_int z).
Proof. unfold is_int. apply _. Defined.

(** The result of an arithmetic operation of type [int]. *)
Definition int_ (z : Z) : res Z :=
  if (INT_MIN <=? z) && (z <=? INT_MAX) then Ok z else Err Overflow.

Lemma int_ok z : is_int z -> int_ z = Ok z.
Proof. unfold is_int, int_. intros. destruct (INT_MIN <=? z) eqn:E1, (z <=? INT_MAX) eqn:E2; simpl; zbool; done || lia. Qed.
Lemma int_overflow z : ~ is_int z -> int_ z = Err Overflow.
Proof. unfold is_int, int_. intros. destruct (INT_MIN <=? z) eqn:E1, (z <=? INT_MAX) eqn:E2; simpl; zbool; done || lia. Qed.
Lemma s32_is_int z : is_int (s32 z).
Proof. unfold is_int, INT_MIN, INT_MAX, s32. pose proof (Z.mod_pos_bound (z + 2 ^ 31) (2 ^ 32) ltac:(lia)). lia. Qed.
Lemma s32_int z : is_int z -> s32 z = z.
Proof. unfold is_int, INT_MIN, INT_MAX. intros. apply s32_small. lia. Qed.

(** ** Arrays and vectors *)
Section arrays.
Context {A : Type}.
Implicit Types (v : list A) (i : Z).

Definition at_ (v : list A) (i : Z) : res A :=
  if i <? 0 then Err OutOfBounds
  else match v !! Z.to_nat i with Some a => Ok a | None => Err OutOfBounds end.

Definition set_at (v : list A) (i : Z) (a : A) : res (list A) :=
  if (0 <=? i) && (i <? Z.of_nat (length v)) then Ok (<[Z.to_nat i := a]> v) else Err OutOfBounds.

Definition size (v : list A) : Z := Z.of_nat (length v).

Lemma at_ok v i a : v !! Z.to_nat i = Some a -> 0 <= i -> at_ v i = Ok a.
Proof. intros Ha Hi. unfold at_. destruct (i <? 0) eqn:E; [lia|]. by rewrite Ha. Qed.
Lemma at_nat v (k : nat) a : v !! k = Some a -> at_ v (Z.of_nat k) = Ok a.
Proof. intros Ha. apply at_ok; [by rewrite Nat2Z.id|lia]. Qed.
Lemma at_bad v i : i < 0 \/ size v <= i -> at_ v i = Err OutOfBounds.
Proof.
  unfold at_, size. intros Hi. destruct (i <? 0) eqn:E; [done|]. zbool.
  rewrite lookup_ge_None_2; [done|lia].
Qed.
Lemma at_some v i : 0 <= i < size v -> exists a, v !! Z.to_nat i = Some a /\ at_ v i = Ok a.
Proof.
  unfold size. intros Hi. destruct (lookup_lt_is_Some_2 v (Z.to_nat i)) as [a Ha]; [lia|].
  exists a. split; [done|]. apply at_ok; [done|lia].
Qed.
Lemma set_at_ok v i a : 0 <= i < size v -> set_at v i a = Ok (<[Z.to_nat i := a]> v).
Proof.
  unfold size, set_at. intros Hi.
  destruct (0 <=? i) eqn:E1, (i <? Z.of_nat (length v)) eqn:E2; simpl; zbool; done || lia.
Qed.
Lemma set_at_bad v i a : i < 0 \/ size v <= i -> set_at v i a = Err OutOfBounds.
Proof.
  unfold size, set_at. intros Hi.
  destruct (0 <=? i) eqn:E1, (i <? Z.of_nat (length v)) eqn:E2; simpl; zbool; done || lia.
Qed.
End arrays.

(** ** Loops *)
Section loops.
Context {S A : Type}.

(** A loop: a step goes on with a new state of the local variables or leaves with a value. *)
Fixpoint iter (fuel : nat) (step : S -> res (S + A)) (s : S) : res A :=
  match fuel with
  | O => Err OutOfFuel
  | Datatypes.S f =>
      match step s with
      | Ok (inl s') => iter f step s'
      | Ok (inr a) => Ok a
      | Err e => Err e
      end
  end.

(** Every state of the invariant is followed by a smaller one or by a result. *)
Lemma iter_total (step : S -> res (S + A)) (I : S -> Prop) (m : S -> nat) (Q : A -> Prop) :
  (forall s, I s -> (exists s', step s = Ok (inl s') /\ I s' /\ (m s' < m s)%nat) \/
                    (exists a, step s = Ok (inr a) /\ Q a)) ->
  forall fuel s, I s -> (m s < fuel)%nat -> exists a, iter fuel step s = Ok a /\ Q a.
Proof.
  intros Hstep. induction fuel as [|f IH]; intros s Hs Hf; [lia|]. simpl.
  destruct (Hstep s Hs) as [(s' & -> & Hs' & Hm)|(a & -> & Ha)]; [apply IH; [done|lia]|eauto].
Qed.

(** One step of a loop. *)
Lemma iter_step f (step : S -> res (S + A)) s s' :
  step s = Ok (inl s') -> iter (Datatypes.S f) step s = iter f step s'.
Proof. simpl. by intros ->. Qed.
Lemma iter_leave f (step : S -> res (S + A)) s a :
  step s = Ok (inr a) -> iter (Datatypes.S f) step s = Ok a.
Proof. simpl. by intros ->. Qed.
End loops.

(** A loop [for (i = a; i < b; i++)] whose body changes the local variables [s]. *)
Fixpoint for_res {S : Type} (n : nat) (i : Z) (body : Z -> S -> res S) (s : S) : res S :=
  match n with
  | O => Ok s
  | Datatypes.S n' => s' ← body i s; for_res n' (i + 1) body s'
  end.

Lemma for_res_inv {S} (body : Z -> S -> res S) (I : Z -> S -> Prop) n i s :
  (forall k s, i <= k < i + Z.of_nat n -> I k s -> exists s', body k s = Ok s' /\ I (k + 1) s') ->
  I i s -> exists s', for_res n i body s = Ok s' /\ I (i + Z.of_nat n) s'.
Proof.
  revert i s. induction n as [|n IH]; intros i s Hb Hs; cbn [for_res].
  - exists s. by rewrite Z.add_0_r.
  - destruct (Hb i s) as (s1 & E & H1); [lia|done|]. rewrite E. unfold mbind, res_bind. simpl.
    destruct (IH (i + 1) s1) as (s' & E' & H'); [intros; apply Hb; [lia|done]|done|].
    exists s'. split; [done|]. replace (i + Z.of_nat (Datatypes.S n)) with (i + 1 + Z.of_nat n) by lia. done.
Qed.

(** A counting loop whose body may leave the function with a value. *)
Fixpoint for_exit {S A : Type} (n : nat) (i : Z) (body : Z -> S -> res (S + A)) (s : S) : res (S + A) :=
  match n with
  | O => Ok (inl s)
  | Datatypes.S n' =>
      r ← body i s;
      match r with inl s' => for_exit n' (i + 1) body s' | inr a => Ok (inr a) end
  end.

Definition exits {S A} (I : S -> Prop) (Q : A -> Prop) (r : S + A) : Prop :=
  match r with inl s => I s | inr a => Q a end.

Lemma for_exit_inv {S A} (body : Z -> S -> res (S + A)) (I : nat -> S -> Prop) (Q : A -> Prop) n i s :
  (forall k s, (k < n)%nat -> I k s -> exists r, body (i + Z.of_nat k) s = Ok r /\ exits (I (Datatypes.S k)) Q r) ->
  I 0%nat s -> exists r, for_exit n i body s = Ok r /\ exits (I n) Q r.
Proof.
  revert i I s. induction n as [|n IH]; intros i I s Hb Hs; cbn [for_exit]; [by exists (inl s)|].
  destruct (Hb 0%nat s) as (r & E & Hr); [lia|done|]. rewrite Z.add_0_r in E. rewrite E, rbind_ok.
  destruct r as [s'|a]; [|by exists (inr a)].
  apply (IH (i + 1) (fun k => I (Datatypes.S k))); [|done]. intros k t Hk Ht.
  replace (i + 1 + Z.of_nat k) with (i + Z.of_nat (Datatypes.S k)) by lia. apply Hb; [lia|done].
Qed.

(** The end and a place in the middle of a list. *)
Lemma insert_mid {A} (l : list A) a a' r n : n = length l -> <[n := a']> (l ++ a :: r) = l ++ a' :: r.
Proof. intros ->. rewrite insert_app_r_alt by lia. by rewrite Nat.sub_diag. Qed.
Lemma lookup_end {A} (l : list A) a n : n = length l -> (l ++ [a]) !! n = Some a.
Proof. intros ->. by apply list_lookup_middle. Qed.
