(* ===== verification/CDecimal.v ===== *)
(** * Decimal numbers

    The [%d] of [printf] and the function [strtol] with base 10, and that one reads what
    the other writes. *)
From stdpp Require Import base numbers list gmap.
From S2P Require Import Prelude CBase.
Local Open Scope Z_scope.

(** ** Writing *)

(** The decimal digits of a number that is not negative, in front of [acc]; a digit uses up
    at least one bit of the number, so that its binary length is enough fuel. *)
Fixpoint udec (fuel : nat) (n : Z) (acc : list Z) : list Z :=
  match fuel with
  | O => acc
  | S f =>
      let acc' := (48 + n mod 10) :: acc in
      if n <? 10 then acc' else udec f (n / 10) acc'
  end.
Definition dec_digits (n : Z) : list Z := udec (S (Z.to_nat (Z.log2 n))) n [].
Definition dec (z : Z) : list Z := if z <? 0 then 45 :: dec_digits (- z) else dec_digits z.

(** ** Reading *)

Definition isdigit (c : Z) : bool := (48 <=? c) && (c <=? 57).
Definition isspace (c : Z) : bool := (c =? 32) || ((9 <=? c) && (c <=? 13)).

Fixpoint skip_spaces (x : list Z) : nat :=
  match x with
  | c :: x' => if isspace c then S (skip_spaces x') else 0%nat
  | [] => 0%nat
  end.

(** The value of the leading digits, from [a] on, and their number. *)
Fixpoint read_digits (a : Z) (x : list Z) : Z * nat :=
  match x with
  | c :: x' => if isdigit c then let '(v, n) := read_digits (10 * a + (c - 48)) x' in (v, S n) else (a, 0%nat)
  | [] => (a, 0%nat)
  end.

Definition LONG_MAX : Z := 2 ^ 63 - 1.
Definition LONG_MIN : Z := - 2 ^ 63.

(** The value of the number at the start of [x], and how many characters it takes: none when
    there is no number. *)
Definition strtol (x : list Z) : Z * nat :=
  let k := skip_spaces x in
  let '(neg, s) := match drop k x with
                   | c :: _ => if c =? 45 then (true, 1%nat) else if c =? 43 then (false, 1%nat) else (false, 0%nat)
                   | [] => (false, 0%nat)
                   end in
  let '(v, n) := read_digits 0 (drop (k + s) x) in
  if (n =? 0)%nat then (0, 0%nat)
  else (if (neg : bool) then Z.max LONG_MIN (- v) else Z.min LONG_MAX v, (k + s + n)%nat).

(** ** Reading what was written *)

Definition digit_char (c : Z) : Prop := 48 <= c <= 57.

Lemma isdigit_true c : digit_char c -> isdigit c = true.
Proof. unfold digit_char, isdigit. intros. apply andb_true_iff. split; apply Z.leb_le; lia. Qed.

Lemma udec_digits f n acc : 0 <= n -> Forall digit_char acc -> Forall digit_char (udec f n acc).
Proof.
  revert n acc. induction f as [|f IH]; intros n acc Hn Ha; simpl; [done|].
  assert (Forall digit_char ((48 + n mod 10) :: acc)).
  { constructor; [|done]. pose proof (Z.mod_pos_bound n 10). unfold digit_char. lia. }
  destruct (n <? 10); [done|]. apply IH; [apply Z.div_pos; lia|done].
Qed.

(** The digits read back as the number. *)
Lemma read_udec f n acc : 0 <= n < 2 ^ Z.of_nat f -> (1 <= f)%nat -> Forall digit_char acc ->
  read_digits 0 (udec f n acc) = let '(v, k) := read_digits n acc in (v, (length (udec f n acc) - length acc + k)%nat).
Proof.
  revert n acc. induction f as [|f IH]; intros n acc Hn Hf Ha; [lia|]. cbn [udec].
  pose proof (Z.mod_pos_bound n 10 ltac:(lia)) as Hm.
  assert (Forall digit_char ((48 + n mod 10) :: acc)) as Ha' by (constructor; [unfold digit_char; lia|done]).
  destruct (n <? 10) eqn:E; zbool.
  - rewrite Z.mod_small in Ha' |- * by lia. cbn [read_digits]. rewrite isdigit_true by (unfold digit_char; lia).
    replace (10 * 0 + (48 + n - 48)) with n by lia. destruct (read_digits n acc). cbn [length]. f_equal. lia.
  - assert (2 ^ Z.of_nat (S f) = 2 * 2 ^ Z.of_nat f) as E2 by (rewrite Nat2Z.inj_succ, Z.pow_succ_r by lia; done).
    assert (1 <= f)%nat by (destruct f; [simpl in *; lia|lia]).
    rewrite IH; [|split; [apply Z.div_pos; lia|apply Z.div_lt_upper_bound; lia]|done|done].
    cbn [read_digits]. rewrite isdigit_true by (unfold digit_char; lia).
    replace (10 * (n / 10) + (48 + n mod 10 - 48)) with n by (pose proof (Z.div_mod n 10); lia).
    destruct (read_digits n acc) as [v k]. cbn [length]. f_equal.
    assert (forall g m a, (length a <= length (udec g m a))%nat) as Hmono.
    { clear. induction g as [|g IH]; intros m a; simpl; [done|]. destruct (m <? 10); [simpl; lia|].
      etransitivity; [|apply IH]. simpl. lia. }
    pose proof (Hmono f (n / 10) ((48 + n mod 10) :: acc)). cbn [length] in *. lia.
Qed.

Lemma udec_length f n acc k : 0 <= n < 10 ^ Z.of_nat k -> (1 <= k)%nat ->
  (length (udec f n acc) <= k + length acc)%nat.
Proof.
  revert n acc k. induction f as [|f IH]; intros n acc k Hn Hk; simpl; [lia|].
  destruct (n <? 10) eqn:E; [simpl; lia|]. zbool.
  destruct k as [|k]; [lia|]. rewrite Nat2Z.inj_succ, Z.pow_succ_r in Hn by lia.
  assert (1 <= k)%nat by (destruct k; [simpl in *; lia|lia]).
  specialize (IH (n / 10) ((48 + n mod 10) :: acc) k). simpl in IH. etransitivity; [apply IH|]; [|done|lia].
  split; [apply Z.div_pos; lia|apply Z.div_lt_upper_bound; lia].
Qed.

Lemma udec_nonempty f n acc : (1 <= f)%nat -> udec f n acc <> [].
Proof.
  revert n acc. induction f as [|f IH]; intros n acc Hf; [lia|]. simpl. destruct (n <? 10); [done|].
  destruct f as [|f]; [done|]. apply IH. lia.
Qed.

Lemma dec_digits_fuel n : 0 <= n -> n < 2 ^ Z.of_nat (S (Z.to_nat (Z.log2 n))).
Proof.
  intros Hn. destruct (decide (n = 0)) as [->|]; [done|].
  pose proof (Z.log2_spec n ltac:(lia)) as [_ H]. pose proof (Z.log2_nonneg n).
  rewrite Nat2Z.inj_succ, Z2Nat.id by lia. done.
Qed.

Lemma dec_digits_digits n : 0 <= n -> Forall digit_char (dec_digits n).
Proof. intros Hn. apply udec_digits; [done|constructor]. Qed.
Lemma read_dec_digits n : 0 <= n -> read_digits 0 (dec_digits n) = (n, length (dec_digits n)).
Proof.
  intros Hn. unfold dec_digits. rewrite read_udec; [|split; [done|by apply dec_digits_fuel]|lia|constructor].
  cbn [read_digits length]. f_equal. lia.
Qed.
Lemma dec_digits_nonempty n : dec_digits n <> [].
Proof. apply udec_nonempty. lia. Qed.
Lemma dec_digits_length n k : 0 <= n < 10 ^ Z.of_nat k -> (1 <= k)%nat -> (length (dec_digits n) <= k)%nat.
Proof. intros Hn Hk. pose proof (udec_length (S (Z.to_nat (Z.log2 n))) n [] k Hn Hk). simpl length at 2 in H. unfold dec_digits. lia. Qed.

(** The text after the digits does not matter when it does not start with a digit. *)
Lemma read_digits_app a x y : Forall digit_char x ->
  (forall c y', y = c :: y' -> isdigit c = false) -> read_digits a (x ++ y) = read_digits a x.
Proof.
  intros Hx Hy. revert a. induction Hx as [|c x Hc _ IH]; intros a; simpl.
  - destruct y as [|c y]; [done|]. simpl. by rewrite (Hy c y).
  - rewrite isdigit_true by done. by rewrite IH.
Qed.

Lemma skip_spaces_none c x : isspace c = false -> skip_spaces (c :: x) = 0%nat.
Proof. simpl. by intros ->. Qed.

(** [strtol] reads back any [int] that [printf] wrote. *)
Lemma strtol_dec z y : is_int z -> (forall c y', y = c :: y' -> isdigit c = false) ->
  strtol (dec z ++ y) = (z, length (dec z)).
Proof.
  unfold is_int, INT_MIN, INT_MAX. intros Hz Hy. unfold strtol, dec.
  destruct (z <? 0) eqn:E; zbool.
  - cbn [app]. rewrite skip_spaces_none by done. cbn [drop Nat.add]. rewrite ?drop_0.
    cbn [Z.eqb Pos.eqb]. cbn [Nat.add drop]. rewrite ?drop_0. rewrite read_digits_app; [|apply dec_digits_digits; lia|done].
    rewrite read_dec_digits by lia. destruct (length (dec_digits (- z))) eqn:El.
    { by apply length_zero_iff_nil, dec_digits_nonempty in El. }
    cbn [Nat.eqb length]. rewrite El. f_equal. unfold LONG_MIN. lia.
  - destruct (dec_digits z) as [|c x] eqn:Ed; [by apply dec_digits_nonempty in Ed|].
    pose proof (dec_digits_digits z E) as Hd. rewrite Ed in Hd. apply Forall_cons in Hd as [Hc Hd].
    unfold digit_char in Hc. cbn [app]. rewrite skip_spaces_none; last first.
    { unfold isspace. apply orb_false_iff. split; [lia|]. apply andb_false_iff. right. apply Z.leb_gt. lia. }
    rewrite drop_0. destruct (c =? 45) eqn:E1; [zbool; lia|]. destruct (c =? 43) eqn:E2; [zbool; lia|].
    cbn [Nat.add]. rewrite drop_0, app_comm_cons, <- Ed.
    rewrite read_digits_app; [|apply dec_digits_digits; lia|done].
    rewrite read_dec_digits, Ed by lia. cbn [Nat.eqb length]. f_equal. unfold LONG_MAX. lia.
Qed.

(** An [int] takes at most 11 characters. *)
Lemma dec_length z : is_int z -> (1 <= length (dec z) <= 11)%nat.
Proof.
  unfold is_int, INT_MIN, INT_MAX. intros Hz. unfold dec. destruct (z <? 0) eqn:E; zbool.
  - pose proof (dec_digits_length (- z) 10). cbn [length]. lia.
  - pose proof (dec_digits_length z 10). pose proof (dec_digits_nonempty z).
    destruct (dec_digits z); [done|]. cbn [length] in *. lia.
Qed.
