(* ===== verification/CHeap.v ===== *)
(** * The C heap and the C library

    The memory of the user-space programs: blocks of cells (a character, an integer or
    a pointer each), allocated, resized and freed as the C library does, the string
    functions the programs call, the standard input and the standard output. An
    allocation can fail; [outcomes] says which do, in order, and the later ones succeed.
    A resized block always moves. Reading a cell that was never written gives an
    indeterminate value, whose use is a fault. Sizes are in cells: a program that asks
    for [n * sizeof(T)] bytes for an array of [T] gets [n] cells. *)
From stdpp Require Import base numbers list gmap strings.
From S2P Require Import Prelude CBase CDecimal.
Local Open Scope Z_scope.

(** A pointer: a block and an offset in cells. *)
Definition ptr : Type := option (nat * nat).
Definition NULL : ptr := None.

Inductive val := VInt (z : Z) | VPtr (p : ptr) | VUndef.
#[global] Instance val_eq_dec : EqDecision val.
Proof. solve_decision. Defined.

(** What is outside the memory: the rest of the standard input, what was written to the
    standard output, and the place where [strtok] goes on. *)
Record world := mk_world { stdin : list Z; stdout : list Z; strtok_next : ptr }.

Record cmem := mk_cmem { heap : gmap nat (list val); outcomes : list bool; files : world }.

Definition C (A : Type) : Type := ST cmem A.

(** ** Allocation *)

Definition set_heap (h : gmap nat (list val)) (s : cmem) : cmem := mk_cmem h (outcomes s) (files s).

(** A new block with the cells [b]: an array on the stack, or what [malloc] finds. *)
Definition new_block (b : list val) : C ptr := fun s =>
  let l := fresh (dom (heap s)) in
  Ok (Some (l, 0%nat), set_heap (<[l := b]> (heap s)) s).

(** The outcome of the next allocation. *)
Definition next_outcome : C bool := fun s =>
  match outcomes s with
  | [] => Ok (true, s)
  | o :: os => Ok (o, mk_cmem (heap s) os (files s))
  end.

Definition malloc (n : nat) : C ptr :=
  ok ← next_outcome;
  if (ok : bool) then new_block (replicate n VUndef) else mret NULL.

Definition calloc (n : nat) : C ptr :=
  ok ← next_outcome;
  if (ok : bool) then new_block (replicate n (VInt 0)) else mret NULL.

Definition free (p : ptr) : C unit := fun s =>
  match p with
  | None => Ok (tt, s)
  | Some (l, off) =>
      match off, heap s !! l with
      | O, Some _ => Ok (tt, set_heap (delete l (heap s)) s)
      | _, _ => Err BadFree
      end
  end.

Definition block (p : ptr) : C (nat * nat * list val) := fun s =>
  match p with
  | None => Err NullDeref
  | Some (l, off) =>
      match heap s !! l with
      | Some b => Ok ((l, off, b), s)
      | None => Err UseAfterFree
      end
  end.

(** The sizes the programs pass are never zero. *)
Definition realloc (p : ptr) (n : nat) : C ptr :=
  match p with
  | None => malloc n
  | Some (l, S _) => stfail BadFree
  | Some (l, O) =>
      '(_, _, b) ← block p;
      ok ← next_outcome;
      if (ok : bool) then
        p' ← new_block (take n b ++ replicate (n - length b) VUndef);
        free p;; mret p'
      else mret NULL
  end.

(** A negative number of bytes is a huge [size_t]: the allocation fails. *)
Definition malloc_z (n : Z) : C ptr := if n <? 0 then mret NULL else malloc (Z.to_nat n).
Definition realloc_z (p : ptr) (n : Z) : C ptr := if n <? 0 then mret NULL else realloc p (Z.to_nat n).

(** ** Cells *)

Definition put_block (l : nat) (b : list val) : C unit := fun s =>
  Ok (tt, set_heap (<[l := b]> (heap s)) s).

(** The cell [i] places after a pointer. *)
Definition cell_index (off : nat) (i : Z) : option nat :=
  if Z.of_nat off + i <? 0 then None else Some (Z.to_nat (Z.of_nat off + i)).

Definition load (p : ptr) (i : Z) : C val :=
  '(_, off, b) ← block p;
  match cell_index off i ≫= (fun k => b !! k) with
  | Some v => mret v
  | None => stfail OutOfBounds
  end.

Definition store (p : ptr) (i : Z) (v : val) : C unit :=
  '(l, off, b) ← block p;
  match cell_index off i with
  | Some k => if (k <? length b)%nat then put_block l (<[k := v]> b) else stfail OutOfBounds
  | None => stfail OutOfBounds
  end.

Definition as_ptr (v : val) : C ptr :=
  match v with VPtr p => mret p | VUndef => stfail Uninit | VInt _ => stfail Uninit end.
Definition as_int (v : val) : C Z :=
  match v with VInt z => mret z | VUndef => stfail Uninit | VPtr _ => stfail Uninit end.

Definition load_ptr (p : ptr) (i : Z) : C ptr := v ← load p i; as_ptr v.
Definition load_int (p : ptr) (i : Z) : C Z := v ← load p i; as_int v.

Definition int_c (z : Z) : C Z := lift (int_ z).

(** The number of cells of the block of a pointer: a bound for loops over a string. *)
Definition room (p : ptr) : C nat := fun s =>
  Ok (match p with Some (l, _) => from_option length 0%nat (heap s !! l) | None => 0%nat end, s).

(** ** Strings *)

(** The string in a row of cells. *)
Fixpoint cell_string (b : list val) : res (list Z) :=
  match b with
  | [] => Err OutOfBounds
  | VInt c :: b' =>
      if c =? 0 then Ok []
      else match cell_string b' with Ok x => Ok (c :: x) | Err e => Err e end
  | _ :: _ => Err Uninit
  end.

Definition read_string (p : ptr) : C (list Z) :=
  '(_, off, b) ← block p;
  match cell_string (drop off b) with Ok x => mret x | Err e => stfail e end.

Definition strlen (p : ptr) : C Z := x ← read_string p; mret (Z.of_nat (length x)).

(** The [n] cells from [p] on. *)
Definition read_cells (p : ptr) (n : nat) : C (list val) :=
  '(_, off, b) ← block p;
  if (length b <? off + n)%nat then stfail OutOfBounds else mret (slice off n b).

Definition write_cells (p : ptr) (c : list val) : C unit :=
  '(l, off, b) ← block p;
  if (length b <? off + length c)%nat then stfail OutOfBounds else put_block l (splice off c b).

Definition memset (p : ptr) (c : Z) (n : nat) : C unit := write_cells p (replicate n (VInt c)).
Definition memcpy (dest src : ptr) (n : nat) : C unit := c ← read_cells src n; write_cells dest c.

(** A string as the cells that hold it. *)
Definition str_cells (x : list Z) : list val := (VInt <$> x) ++ [VInt 0].

Definition strcpy (dest src : ptr) : C unit := x ← read_string src; write_cells dest (str_cells x).
Definition offset (p : ptr) (n : nat) : ptr := (fun '(l, off) => (l, (off + n)%nat)) <$> p.
Definition strcat (dest src : ptr) : C unit :=
  x ← read_string dest; y ← read_string src; write_cells (offset dest (length x)) (str_cells y).

(** The position of the first occurrence of [t] in [x]. *)
Fixpoint find_sub (t x : list Z) : option nat :=
  if bool_decide (t `prefix_of` x) then Some 0%nat
  else match x with [] => None | _ :: x' => S <$> find_sub t x' end.

Definition strstr (haystack needle : ptr) : C ptr :=
  x ← read_string haystack; t ← read_string needle;
  mret (match find_sub t x with Some k => offset haystack k | None => NULL end).

(** The characters before the first [c], and whether there is one. *)
Fixpoint until (c : Z) (x : list Z) : list Z * bool :=
  match x with
  | [] => ([], false)
  | a :: x' => if a =? c then ([], true) else let '(y, b) := until c x' in (a :: y, b)
  end.

Definition strchr (p : ptr) (c : Z) : C ptr :=
  x ← read_string p;
  let '(y, found) := until c x in mret (if found then offset p (length y) else NULL).

(** [strsep(&p, ...)] with a delimiter of one character: the token, and the new value of
    the pointer. *)
Definition strsep (p : ptr) (delim : Z) : C (ptr * ptr) :=
  match p with
  | None => mret (NULL, NULL)
  | Some _ =>
      x ← read_string p;
      let '(y, more) := until delim x in
      if more then store p (Z.of_nat (length y)) (VInt 0);; mret (p, offset p (S (length y)))
      else mret (p, NULL)
  end.

Definition get_files : C world := fun s => Ok (files s, s).
Definition put_files (w : world) : C unit := fun s => Ok (tt, mk_cmem (heap s) (outcomes s) w).

(** [strtok] with a delimiter of one character: delimiters are skipped, the token ends at
    the next one, which is overwritten, or at the end of the string. *)
Fixpoint skip_char (c : Z) (x : list Z) : nat :=
  match x with
  | a :: x' => if a =? c then S (skip_char c x') else 0%nat
  | [] => 0%nat
  end.

Definition tok_start (p : ptr) (w : world) : ptr := match p with Some _ => p | None => strtok_next w end.

Definition strtok (p : ptr) (delim : Z) : C ptr :=
  w ← get_files;
  let start := tok_start p w in
  match start with
  | None => mret NULL
  | Some _ =>
      x ← read_string start;
      let k := skip_char delim x in
      let '(y, more) := until delim (drop k x) in
      match drop k x with
      | [] => put_files (mk_world (stdin w) (stdout w) NULL);; mret NULL
      | _ :: _ =>
          (if (more : bool) then
             store start (Z.of_nat (k + length y)) (VInt 0);;
             put_files (mk_world (stdin w) (stdout w) (offset start (S (k + length y))))
           else put_files (mk_world (stdin w) (stdout w) NULL));;
          mret (offset start k)
      end
  end.

(** ** Input and output *)

(** What one call of [fgets] takes from the input: up to [n] characters, the last one the
    only newline. *)
Fixpoint chunk (n : nat) (x : list Z) : list Z :=
  match n, x with
  | S n', c :: x' => if c =? 10 then [c] else c :: chunk n' x'
  | _, _ => []
  end.

Lemma chunk_prefix n x : chunk n x = take (length (chunk n x)) x.
Proof.
  revert x. induction n as [|n IH]; intros x; [done|]. destruct x as [|c x]; [done|]. cbn [chunk].
  destruct (c =? 10); [done|]. cbn [length take]. by rewrite <- IH.
Qed.
Lemma length_chunk n x : (length (chunk n x) <= n)%nat /\ (length (chunk n x) <= length x)%nat.
Proof.
  revert x. induction n as [|n IH]; intros x; simpl; [lia|]. destruct x as [|c x]; simpl; [lia|].
  destruct (c =? 10); simpl; [lia|]. pose proof (IH x). lia.
Qed.
Lemma chunk_nonempty n x : n <> 0%nat -> x <> [] -> (1 <= length (chunk n x))%nat.
Proof. intros Hn Hx. destruct n, x; [done..|]. simpl. destruct (_ =? 10); simpl; lia. Qed.
Lemma chunk_no_nul n x : no_nul x -> no_nul (chunk n x).
Proof. intros Hx. rewrite chunk_prefix. by apply Forall_take. Qed.

Definition fgets (p : ptr) (size : Z) : C ptr :=
  w ← get_files;
  if size <=? 0 then mret NULL
  else if size =? 1 then write_cells p [VInt 0];; mret p
  else match stdin w with
  | [] => mret NULL
  | inp =>
      let line := chunk (Z.to_nat (size - 1)) inp in
      write_cells p (str_cells line);;
      put_files (mk_world (drop (length line) inp) (stdout w) (strtok_next w));;
      mret p
  end.

(** Write characters to the standard output. *)
Definition emit (x : list Z) : C unit :=
  w ← get_files; put_files (mk_world (stdin w) (stdout w ++ x) (strtok_next w)).

(** A string literal, and the [%s] and [%d] of a format. *)
Fixpoint chars (s : string) : list Z :=
  match s with
  | EmptyString => []
  | String a s' => Z.of_nat (Ascii.nat_of_ascii a) :: chars s'
  end.

Definition emit_string (p : ptr) : C unit := x ← read_string p; emit x.

(** A loop [for (i = 0; i < n; i++)] over nonnegative [n]. *)
Fixpoint for_loop {S : Type} (n : nat) (i : Z) (body : Z -> ST S unit) : ST S unit :=
  match n with
  | O => mret tt
  | Datatypes.S n' => body i;; for_loop n' (i + 1) body
  end.

(** A program starts with no memory of its own, and no allocation fails. *)
Definition mem (h : gmap nat (list val)) (w : world) : cmem := mk_cmem h [] w.
