(* ===== verification/HeapLogic.v ===== *)
(** * A separation logic for the C heap

    Assertions [hprop] about a part of the heap, as a logic of bunched implications, so
    that Iris's proof mode applies. The logic is linear: an assertion owns exactly its
    blocks and nothing can be dropped, so a program proved to end in [emp] frees all it
    allocated. [wpc m w Φ] is total correctness of [m] with a frame, when no allocation
    fails. *)
From stdpp Require Import base numbers list gmap.
From iris.bi Require Import interface.
From iris.proofmode Require Import proofmode.
From S2P Require Import Prelude CBase CDecimal CHeap.
Set Warnings "-rewrite-rw".
Local Open Scope Z_scope.

Notation blocks := (gmap nat (list val)).

Record hprop := mk_hprop { holds : blocks -> Prop }.

(** ** The logic *)
Record h_entails (P Q : hprop) : Prop := mk_entails { entails_holds : forall h, holds P h -> holds Q h }.
Section connectives.
Definition h_pure (φ : Prop) : hprop := mk_hprop (fun _ => φ).
Definition h_emp : hprop := mk_hprop (fun h => h = ∅).
Definition h_and (P Q : hprop) : hprop := mk_hprop (fun h => holds P h /\ holds Q h).
Definition h_or (P Q : hprop) : hprop := mk_hprop (fun h => holds P h \/ holds Q h).
Definition h_impl (P Q : hprop) : hprop := mk_hprop (fun h => holds P h -> holds Q h).
Definition h_all (A : Type) (Φ : A -> hprop) : hprop := mk_hprop (fun h => forall a, holds (Φ a) h).
Definition h_ex (A : Type) (Φ : A -> hprop) : hprop := mk_hprop (fun h => exists a, holds (Φ a) h).
Definition h_sep (P Q : hprop) : hprop :=
  mk_hprop (fun h => exists h1 h2, h = h1 ∪ h2 /\ h1 ##ₘ h2 /\ holds P h1 /\ holds Q h2).
Definition h_wand (P Q : hprop) : hprop :=
  mk_hprop (fun h => forall h', h ##ₘ h' -> holds P h' -> holds Q (h ∪ h')).
Definition h_pers (P : hprop) : hprop := h_pure (h_entails h_emp P).
Definition h_later (P : hprop) : hprop := P.
End connectives.

#[local] Instance hprop_equiv : Equiv hprop := fun P Q => forall h, holds P h <-> holds Q h.
#[local] Instance hprop_equivalence : Equivalence (≡@{hprop}).
Proof.
  split; [by intros P h|by intros P Q HPQ h; rewrite (HPQ h)|].
  intros P Q R HPQ HQR h. by rewrite (HPQ h) (HQR h).
Qed.
Canonical Structure hpropO : ofe := discreteO hprop.

Lemma hprop_bi_mixin :
  BiMixin (PROP := hprop) h_entails h_emp h_pure h_and h_or h_impl h_all h_ex h_sep h_wand.
Proof.
  split.
  - split; [by intros P; split|]. intros P Q R [HPQ] [HQR]. split. auto.
  - intros P Q. split.
    + intros E. split; split; intros h; apply E.
    + intros [[H1] [H2]] h. split; auto.
  - intros n φ ψ E h. apply E.
  - intros n P P' EP Q Q' EQ h. simpl. by rewrite (EP h) (EQ h).
  - intros n P P' EP Q Q' EQ h. simpl. by rewrite (EP h) (EQ h).
  - intros n P P' EP Q Q' EQ h. simpl. by rewrite (EP h) (EQ h).
  - intros A n Φ Ψ E h. simpl. split; intros H a; apply (E a h), H.
  - intros A n Φ Ψ E h. simpl. split; intros [a H]; exists a; apply (E a h), H.
  - intros n P P' EP Q Q' EQ h. simpl.
    split; intros (h1 & h2 & -> & Hd & H1 & H2); exists h1, h2; split_and!; auto; by [apply (EP h1)|apply (EQ h2)].
  - intros n P P' EP Q Q' EQ h. simpl.
    split; intros H h' Hd HP; apply (EQ (h ∪ h')), H; [done|by apply (EP h')|done|by apply (EP h')].
  - by intros φ P Hφ; split.
  - intros φ P H. split. intros h Hφ. by apply (entails_holds _ _ (H Hφ)).
  - intros P Q. split. by intros h [? ?].
  - intros P Q. split. by intros h [? ?].
  - intros P Q R [H1] [H2]. split. intros h HP. split; auto.
  - intros P Q. split. intros h HP. by left.
  - intros P Q. split. intros h HQ. by right.
  - intros P Q R [H1] [H2]. split. intros h [HP|HQ]; auto.
  - intros P Q R [H]. split. intros h HP HQ. apply H. by split.
  - intros P Q R [H]. split. intros h [HP HQ]. by apply (H h).
  - intros A P Ψ H. split. intros h HP a. by apply (entails_holds _ _ (H a)).
  - intros A Ψ a. split. intros h H. apply H.
  - intros A Ψ a. split. intros h H. by exists a.
  - intros A Φ Q H. split. intros h [a HΦ]. by apply (entails_holds _ _ (H a)).
  - intros P P' Q Q' [HPQ] [HPQ']. split. intros h (h1 & h2 & -> & Hd & H1 & H2). exists h1, h2. auto.
  - intros P. split. intros h HP. exists ∅, h.
    split_and!; auto; [by rewrite (left_id_L ∅ (∪))|apply map_disjoint_empty_l|done].
  - intros P. split. intros h (h1 & h2 & -> & Hd & -> & HP). by rewrite (left_id_L ∅ (∪)).
  - intros P Q. split. intros h (h1 & h2 & -> & Hd & HP & HQ). exists h2, h1.
    split_and!; auto. by apply map_union_comm.
  - intros P Q R. split. intros h (h12 & h3 & -> & Hd & (h1 & h2 & -> & Hd' & HP & HQ) & HR).
    apply map_disjoint_union_l in Hd as [Hd1 Hd2]. exists h1, (h2 ∪ h3). split_and!; auto.
    + by rewrite (assoc_L (∪)).
    + by apply map_disjoint_union_r_2.
    + exists h2, h3. auto.
  - intros P Q R [H]. split. intros h HP h' Hd HQ. apply H. exists h, h'. auto.
  - intros P Q R [H]. split. intros h (h1 & h2 & -> & Hd & HP & HQ). by apply (H h1).
Qed.

Lemma hprop_persistently_mixin :
  BiPersistentlyMixin (PROP := hprop) h_entails h_emp h_and h_ex h_sep h_pers.
Proof.
  eapply bi_persistently_mixin_discrete; [done| |done|apply hprop_bi_mixin].
  intros A Φ [H]. destruct (H ∅ eq_refl) as [a Ha]. exists a. split. by intros h ->.
Qed.

Lemma hprop_later_mixin :
  BiLaterMixin (PROP := hprop) h_entails h_pure h_or h_impl h_all h_ex h_sep h_pers h_later.
Proof. eapply bi_later_mixin_id; [done|apply hprop_bi_mixin]. Qed.

Canonical Structure hpropI : bi :=
  {| bi_ofe_mixin := ofe_mixin_of hprop; bi_bi_mixin := hprop_bi_mixin;
     bi_bi_persistently_mixin := hprop_persistently_mixin; bi_bi_later_mixin := hprop_later_mixin |}.

#[global] Instance hprop_pure_forall : BiPureForall hpropI.
Proof. intros A φ. split. intros h H a. apply H. Qed.

Lemma hprop_entails (P Q : hprop) : (P ⊢ Q) <-> forall h, holds P h -> holds Q h.
Proof. split; [by intros [H]|by intros H; split]. Qed.

(** ** Blocks and programs *)

(** Exactly the block [l] with the cells [b]. *)
Definition own_block (l : nat) (b : list val) : hprop := mk_hprop (fun h => h = {[l := b]}).
Notation "l ↦ b" := (own_block l b) (at level 20, format "l  ↦  b") : bi_scope.

(** From any heap that has this part and a disjoint rest, [m] runs to its end, leaves the
    rest alone and establishes [Φ]. *)
Definition wpc {A} (m : C A) (w : world) (Φ : A -> world -> hprop) : hprop :=
  mk_hprop (fun h => forall hf, h ##ₘ hf ->
    exists a w' h', m (mem (h ∪ hf) w) = Ok (a, mem (h' ∪ hf) w') /\ h' ##ₘ hf /\ holds (Φ a w') h').

Section rules.
Context {A : Type}.
Implicit Types (Φ : A -> world -> hprop) (w : world).

Lemma wpc_ret (a : A) w Φ : Φ a w ⊢ wpc (mret a) w Φ.
Proof. apply hprop_entails. intros h H hf Hd. exists a, w, h. done. Qed.

Lemma wpc_bind {B} (m : C B) (f : B -> C A) w Φ :
  wpc m w (fun b w' => wpc (f b) w' Φ) ⊢ wpc (mbind f m) w Φ.
Proof.
  apply hprop_entails. intros h H hf Hd. destruct (H hf Hd) as (b & w' & h' & E & Hd' & Hf).
  destruct (Hf hf Hd') as (a & w2 & h2 & E2 & Hd2 & Ha). exists a, w2, h2. split_and!; try done.
  by rewrite (bind_run _ _ _ _ _ E).
Qed.

Lemma wpc_wand (m : C A) w Φ Ψ : wpc m w Φ -∗ (∀ a w', Φ a w' -∗ Ψ a w') -∗ wpc m w Ψ.
Proof.
  apply bi.entails_wand, bi.wand_intro_r, hprop_entails. intros h (h1 & h2 & -> & Hd & H & HΨ) hf Hd2.
  apply map_disjoint_union_l in Hd2 as [Hd1 Hd2]. destruct (H (h2 ∪ hf)) as (a & w' & h' & E & Hd' & Ha).
  { by apply map_disjoint_union_r_2. }
  apply map_disjoint_union_r in Hd' as [Hd3 Hd4]. exists a, w', (h' ∪ h2). split_and!.
  - by rewrite -!(assoc_L (∪)).
  - by apply map_disjoint_union_l_2.
  - rewrite map_union_comm; [|done]. apply HΨ; [done|]. done.
Qed.

(** A program that only looks at the memory. *)
Lemma wpc_of_eq (m m' : C A) w Φ : (forall h, m (mem h w) = m' (mem h w)) -> wpc m' w Φ ⊢ wpc m w Φ.
Proof.
  intros E. apply hprop_entails. intros h H hf Hd. destruct (H hf Hd) as (a & w' & h' & Em & ?).
  exists a, w', h'. by rewrite E.
Qed.
End rules.

Section steps.
Implicit Types (w : world) (l : nat) (b : list val).

Lemma wpc_new_block b w Φ : (∀ l, l ↦ b -∗ Φ (Some (l, 0%nat)) w) ⊢ wpc (new_block b) w Φ.
Proof.
  apply hprop_entails. intros h H hf Hd. set (l := fresh (dom (h ∪ hf))).
  assert ((h ∪ hf) !! l = None) as Hl by apply not_elem_of_dom, is_fresh.
  apply lookup_union_None in Hl as [Hl1 Hl2].
  exists (Some (l, 0%nat)), w, (<[l := b]> h). split_and!.
  - unfold new_block, set_heap, mem. simpl. by rewrite insert_union_l.
  - by apply map_disjoint_insert_l_2.
  - rewrite insert_union_singleton_r; [|done]. apply H; [|done]. by apply map_disjoint_singleton_r_2.
Qed.

Lemma wpc_malloc n w Φ : (∀ l, l ↦ replicate n VUndef -∗ Φ (Some (l, 0%nat)) w) ⊢ wpc (malloc n) w Φ.
Proof. rewrite -(wpc_of_eq _ (new_block (replicate n VUndef))); [|done]. apply wpc_new_block. Qed.
Lemma wpc_calloc n w Φ : (∀ l, l ↦ replicate n (VInt 0) -∗ Φ (Some (l, 0%nat)) w) ⊢ wpc (calloc n) w Φ.
Proof. rewrite -(wpc_of_eq _ (new_block (replicate n (VInt 0)))); [|done]. apply wpc_new_block. Qed.

Lemma own_block_lookup l b h hf : holds (own_block l b) h -> (h ∪ hf) !! l = Some b.
Proof. intros ->. apply lookup_union_Some_l, lookup_singleton_eq. Qed.

Lemma holds_own_sep l b (P : hprop) h : holds (own_block l b ∗ P)%I h -> h !! l = Some b /\ holds P (delete l h).
Proof.
  intros (h1 & h2 & -> & Hd & -> & HP). split; [by rewrite lookup_union_l' lookup_singleton_eq|].
  rewrite -insert_union_singleton_l delete_insert_id; [done|]. by apply map_disjoint_singleton_l in Hd.
Qed.

Lemma wpc_free l b w Φ : l ↦ b -∗ Φ tt w -∗ wpc (free (Some (l, 0%nat))) w Φ.
Proof.
  apply bi.entails_wand, bi.wand_intro_r, hprop_entails. intros h (h1 & h2 & -> & Hd & -> & H) hf Hd2.
  apply map_disjoint_union_l in Hd2 as [Hd1 Hd2]. exists tt, w, h2. split_and!; try done.
  apply map_disjoint_singleton_l in Hd, Hd1.
  unfold free, set_heap, mem. simpl. rewrite -(assoc_L (∪)) lookup_union_l'; last first.
  { rewrite lookup_singleton_eq. done. }
  rewrite lookup_singleton_eq. do 3 f_equal. rewrite -insert_union_singleton_l. apply delete_insert_id.
  by apply lookup_union_None.
Qed.

(** A program that only looks at a block. *)
Lemma wpc_read {A} l b (m : C A) a w Φ : (forall h, h !! l = Some b -> m (mem h w) = Ok (a, mem h w)) ->
  l ↦ b -∗ (l ↦ b -∗ Φ a w) -∗ wpc m w Φ.
Proof.
  intros Hm. apply bi.entails_wand, bi.wand_intro_r, hprop_entails. intros h (h1 & h2 & -> & Hd & Hl & H) hf Hd2.
  exists a, w, (h1 ∪ h2). split_and!; try done.
  - apply Hm. rewrite -(assoc_L (∪)). by rewrite (own_block_lookup l b h1 _ Hl).
  - rewrite map_union_comm; [|done]. by apply H.
Qed.
Lemma wpc_block l off b w Φ : l ↦ b -∗ (l ↦ b -∗ Φ (l, off, b) w) -∗ wpc (block (Some (l, off))) w Φ.
Proof. apply wpc_read. intros h Hh. unfold block. simpl. by rewrite Hh. Qed.

Lemma wpc_room l off b w Φ :
  own_block l b -∗ (own_block l b -∗ Φ (length b) w) -∗ wpc (room (Some (l, off))) w Φ.
Proof.
  iIntros "Hl HΦ". iApply (wpc_read with "Hl HΦ"). intros h Hh. unfold room. simpl. by rewrite Hh.
Qed.

Lemma wpc_put_block l b b' w Φ : l ↦ b -∗ (l ↦ b' -∗ Φ tt w) -∗ wpc (put_block l b') w Φ.
Proof.
  apply bi.entails_wand, bi.wand_intro_r, hprop_entails. intros h (h1 & h2 & -> & Hd & -> & H) hf Hd2.
  apply map_disjoint_union_l in Hd2 as [Hd1 Hd2]. exists tt, w, (<[l := b']> h2).
  apply map_disjoint_singleton_l in Hd, Hd1. split_and!.
  - unfold put_block, set_heap, mem. simpl.
    by rewrite -insert_union_singleton_l insert_union_l insert_insert_eq.
  - by apply map_disjoint_insert_l_2.
  - rewrite insert_union_singleton_r; [|done]. apply H; [|done]. by apply map_disjoint_singleton_r_2.
Qed.

Lemma wpc_get_files w Φ : Φ w w ⊢ wpc get_files w Φ.
Proof. apply hprop_entails. intros h H hf Hd. by exists w, w, h. Qed.
Lemma wpc_put_files w w' Φ : Φ tt w' ⊢ wpc (put_files w') w Φ.
Proof. apply hprop_entails. intros h H hf Hd. by exists tt, w', h. Qed.
End steps.

(** What a proof in the logic says about a run. *)
Lemma wpc_adequate {A} (m : C A) (P : hprop) w Φ h :
  (P ⊢ wpc m w Φ) -> holds P h ->
  exists a w' h', m (mem h w) = Ok (a, mem h' w') /\ holds (Φ a w') h'.
Proof.
  intros Hm HP. destruct (proj1 (hprop_entails _ _) Hm h HP ∅) as (a & w' & h' & E & _ & Ha).
  { apply map_disjoint_empty_r. }
  exists a, w', h'. by rewrite !(right_id_L ∅ (∪)) in E.
Qed.

(** A program started with no memory. *)
Lemma wpc_run {A} (m : C A) w Φ :
  (⊢ wpc m w Φ) -> exists a w' h', m (mem ∅ w) = Ok (a, mem h' w') /\ holds (Φ a w') h'.
Proof. intros Hm. by apply (wpc_adequate m emp%I). Qed.

Lemma holds_pure_emp φ h : holds (⌜φ⌝ ∧ emp)%I h <-> φ /\ h = ∅.
Proof. done. Qed.
Lemma holds_pure_and φ (P : hprop) h : holds (⌜φ⌝ ∧ P)%I h <-> φ /\ holds P h.
Proof. done. Qed.
Lemma holds_exist {A} (Φ : A -> hprop) h : holds (∃ a, Φ a)%I h <-> exists a, holds (Φ a) h.
Proof. done. Qed.

(** ** Rules for the library functions *)

Ltac wpc_bind := iApply wpc_bind.
Ltac wpc_ret := iApply wpc_ret.

Section library.
Implicit Types (w : world) (l : nat) (b : list val) (x : list Z).

Lemma cell_index_nat off i : cell_index off (Z.of_nat i) = Some (off + i)%nat.
Proof. unfold cell_index. destruct (_ <? 0) eqn:E; [zbool; lia|]. f_equal. lia. Qed.

Lemma wpc_load l off i b v w Φ : b !! (off + i)%nat = Some v ->
  l ↦ b -∗ (l ↦ b -∗ Φ v w) -∗ wpc (load (Some (l, off)) (Z.of_nat i)) w Φ.
Proof.
  iIntros (Hv) "Hl HΦ". wpc_bind. iApply (wpc_block with "Hl"). iIntros "Hl".
  rewrite cell_index_nat /= Hv. wpc_ret. by iApply "HΦ".
Qed.

Lemma wpc_load_ptr l off i b p w Φ : b !! (off + i)%nat = Some (VPtr p) ->
  l ↦ b -∗ (l ↦ b -∗ Φ p w) -∗ wpc (load_ptr (Some (l, off)) (Z.of_nat i)) w Φ.
Proof.
  iIntros (Hv) "Hl HΦ". wpc_bind. iApply (wpc_load with "Hl"); [done|]. iIntros "Hl".
  wpc_ret. by iApply "HΦ".
Qed.

Lemma wpc_load_int l off i b z w Φ : b !! (off + i)%nat = Some (VInt z) ->
  l ↦ b -∗ (l ↦ b -∗ Φ z w) -∗ wpc (load_int (Some (l, off)) (Z.of_nat i)) w Φ.
Proof.
  iIntros (Hv) "Hl HΦ". wpc_bind. iApply (wpc_load with "Hl"); [done|]. iIntros "Hl".
  wpc_ret. by iApply "HΦ".
Qed.

Lemma wpc_store l off i b v w Φ : (off + i < length b)%nat ->
  l ↦ b -∗ (l ↦ <[(off + i)%nat := v]> b -∗ Φ tt w) -∗ wpc (store (Some (l, off)) (Z.of_nat i) v) w Φ.
Proof.
  iIntros (Hi) "Hl HΦ". wpc_bind. iApply (wpc_block with "Hl"). iIntros "Hl".
  rewrite cell_index_nat (proj2 (Nat.ltb_lt _ _) Hi). by iApply (wpc_put_block with "Hl").
Qed.

Lemma wpc_realloc l b n w Φ :
  l ↦ b -∗ (∀ l', l' ↦ (take n b ++ replicate (n - length b) VUndef) -∗ Φ (Some (l', 0%nat)) w) -∗
  wpc (realloc (Some (l, 0%nat)) n) w Φ.
Proof.
  iIntros "Hl HΦ". unfold realloc. wpc_bind. iApply (wpc_block with "Hl"). iIntros "Hl".
  wpc_bind. rewrite -(wpc_of_eq next_outcome (mret true)); [|done]. wpc_ret.
  wpc_bind. iApply wpc_new_block. iIntros (l') "Hl'". wpc_bind. iApply (wpc_free with "Hl").
  wpc_ret. by iApply "HΦ".
Qed.

Lemma wpc_malloc_z n w Φ : 0 <= n ->
  (∀ l, l ↦ replicate (Z.to_nat n) VUndef -∗ Φ (Some (l, 0%nat)) w) ⊢ wpc (malloc_z n) w Φ.
Proof. intros Hn. unfold malloc_z. destruct (_ <? 0) eqn:E; [lia|]. apply wpc_malloc. Qed.

Lemma wpc_int (z : Z) w Φ : is_int z -> Φ z w ⊢ wpc (int_c z) w Φ.
Proof. intros Hz. unfold int_c. rewrite int_ok; [|done]. rewrite lift_ok. apply wpc_ret. Qed.

Lemma wpc_lift {A} (m : res A) a w (Φ : A -> world -> hprop) : m = Ok a -> Φ a w ⊢ wpc (lift m) w Φ.
Proof. intros ->. rewrite lift_ok. apply wpc_ret. Qed.

(** A string from a place in a block on. *)
Definition str_in (b : list val) (off : nat) (x : list Z) : Prop := cell_string (drop off b) = Ok x.

Lemma cell_string_cells x rest : no_nul x -> cell_string ((VInt <$> x) ++ VInt 0 :: rest) = Ok x.
Proof.
  induction 1 as [|c x Hc _ IH]; [done|]. cbn [fmap list_fmap app cell_string].
  destruct (c =? 0) eqn:E; [lia|]. by rewrite IH.
Qed.
Lemma str_in_cells x : no_nul x -> str_in (str_cells x) 0 x.
Proof. apply cell_string_cells. Qed.
Lemma str_in_app pre x rest : no_nul x ->
  str_in (pre ++ (VInt <$> x) ++ VInt 0 :: rest) (length pre) x.
Proof. intros Hx. unfold str_in. rewrite drop_app_length. by apply cell_string_cells. Qed.
Lemma length_str_cells x : length (str_cells x) = S (length x).
Proof. unfold str_cells. rewrite length_app length_fmap /=. lia. Qed.

Lemma wpc_read_string l off b x w Φ : str_in b off x ->
  l ↦ b -∗ (l ↦ b -∗ Φ x w) -∗ wpc (read_string (Some (l, off))) w Φ.
Proof.
  iIntros (Hx) "Hl HΦ". wpc_bind. iApply (wpc_block with "Hl"). iIntros "Hl".
  rewrite Hx. wpc_ret. by iApply "HΦ".
Qed.
Lemma wpc_strlen l off b x w Φ : str_in b off x ->
  l ↦ b -∗ (l ↦ b -∗ Φ (Z.of_nat (length x)) w) -∗ wpc (strlen (Some (l, off))) w Φ.
Proof.
  iIntros (Hx) "Hl HΦ". wpc_bind. iApply (wpc_read_string with "Hl"); [done|]. iIntros "Hl".
  wpc_ret. by iApply "HΦ".
Qed.

Lemma wpc_read_cells l off n b w Φ : (off + n <= length b)%nat ->
  l ↦ b -∗ (l ↦ b -∗ Φ (slice off n b) w) -∗ wpc (read_cells (Some (l, off)) n) w Φ.
Proof.
  iIntros (Hn) "Hl HΦ". wpc_bind. iApply (wpc_block with "Hl"). iIntros "Hl".
  destruct (_ <? _)%nat eqn:E; [apply Nat.ltb_lt in E; lia|]. wpc_ret. by iApply "HΦ".
Qed.
Lemma wpc_write_cells l off c b w Φ : (off + length c <= length b)%nat ->
  l ↦ b -∗ (l ↦ splice off c b -∗ Φ tt w) -∗ wpc (write_cells (Some (l, off)) c) w Φ.
Proof.
  iIntros (Hn) "Hl HΦ". wpc_bind. iApply (wpc_block with "Hl"). iIntros "Hl".
  destruct (_ <? _)%nat eqn:E; [apply Nat.ltb_lt in E; lia|]. by iApply (wpc_put_block with "Hl").
Qed.

Lemma splice_all {A} (b c : list A) : length c = length b -> splice 0 c b = c.
Proof. intros Hl. unfold splice. rewrite take_0 /= drop_ge; [|lia]. by rewrite app_nil_r. Qed.

Lemma splice_mid {A} (x c y : list A) : splice (length x) c (x ++ y) = x ++ c ++ drop (length c) y.
Proof. unfold splice. by rewrite take_app_length Nat.add_comm -skipn_skipn drop_app_length. Qed.

Lemma wpc_memset l b (c : Z) n w Φ : n = length b ->
  l ↦ b -∗ (l ↦ replicate n (VInt c) -∗ Φ tt w) -∗ wpc (memset (Some (l, 0%nat)) c n) w Φ.
Proof.
  iIntros (->) "Hl HΦ". iApply (wpc_write_cells with "Hl"); [rewrite length_replicate; lia|].
  rewrite splice_all; [done|by rewrite length_replicate].
Qed.

(** A copy of a string into a block of its size. *)
Lemma wpc_strcpy l b l' off b' x w Φ : str_in b' off x -> length b = S (length x) ->
  l ↦ b -∗ l' ↦ b' -∗ (l ↦ str_cells x -∗ l' ↦ b' -∗ Φ tt w) -∗
  wpc (strcpy (Some (l, 0%nat)) (Some (l', off))) w Φ.
Proof.
  iIntros (Hx Hlen) "Hl Hl' HΦ". wpc_bind. iApply (wpc_read_string with "Hl'"); [done|]. iIntros "Hl'".
  iApply (wpc_write_cells with "Hl"); [rewrite length_str_cells; lia|].
  rewrite splice_all; [|by rewrite length_str_cells]. iIntros "Hl". iApply ("HΦ" with "Hl Hl'").
Qed.

Lemma wpc_emit x w Φ : Φ tt (mk_world (stdin w) (stdout w ++ x) (strtok_next w)) ⊢ wpc (emit x) w Φ.
Proof. iIntros "HΦ". wpc_bind. iApply wpc_get_files. by iApply wpc_put_files. Qed.
(** The world after printing [x]. *)
Definition says (w : world) (x : list Z) : world := mk_world (stdin w) (stdout w ++ x) (strtok_next w).
Lemma says_says w x y : says (says w x) y = says w (x ++ y).
Proof. unfold says. cbn. by rewrite app_assoc. Qed.
Lemma says_nil w : says w [] = w.
Proof. unfold says. destruct w. cbn. by rewrite app_nil_r. Qed.
Lemma wpc_says x w Φ : Φ tt (says w x) ⊢ wpc (emit x) w Φ.
Proof. apply wpc_emit. Qed.
Lemma wpc_emit_string l off b x w Φ : str_in b off x ->
  l ↦ b -∗ (l ↦ b -∗ Φ tt (mk_world (stdin w) (stdout w ++ x) (strtok_next w))) -∗
  wpc (emit_string (Some (l, off))) w Φ.
Proof.
  iIntros (Hx) "Hl HΦ". wpc_bind. iApply (wpc_read_string with "Hl"); [done|]. iIntros "Hl".
  iApply wpc_emit. by iApply "HΦ".
Qed.

(** A block that grows by one cell. *)
Lemma replicate_end (b : list val) n : n = length b ->
  take (S n) b ++ replicate (S n - length b) VUndef = b ++ [VUndef].
Proof. intros ->. rewrite take_ge; [|lia]. by replace (S (length b) - length b)%nat with 1%nat by lia. Qed.

(** A counting loop with an invariant. *)
Lemma wpc_for n i body (I : nat -> world -> hprop) w :
  (forall k w, (k < n)%nat -> I k w ⊢ wpc (body (i + Z.of_nat k)) w (fun _ w' => I (S k) w')) ->
  I 0%nat w ⊢ wpc (for_loop n i body) w (fun _ w' => I n w').
Proof.
  revert i I w. induction n as [|n IH]; intros i I w Hbody; simpl.
  { exact (wpc_ret tt w (fun _ w' => I 0%nat w')). }
  rewrite -wpc_bind. rewrite (Hbody 0%nat w); [|lia]. rewrite Z.add_0_r.
  iIntros "H". iApply (wpc_wand with "H"). iIntros (_ w') "H".
  iApply (IH (i + 1) (fun k => I (S k)) with "H"). intros k w2 Hk.
  replace (i + 1 + Z.of_nat k) with (i + Z.of_nat (S k)) by lia. apply Hbody. lia.
Qed.

Lemma for_loop_app n1 n2 i (body : Z -> C unit) s :
  for_loop (n1 + n2) i body s = (for_loop n1 i body;; for_loop n2 (i + Z.of_nat n1) body) s.
Proof.
  revert i s. induction n1 as [|n1 IH]; intros i s; cbn [for_loop Nat.add].
  - by rewrite Z.add_0_r.
  - unfold mbind, ST_bind in *. destruct (body i s) as [[[] s']|e]; [|done]. rewrite IH.
    by replace (i + 1 + Z.of_nat n1) with (i + Z.of_nat (S n1)) by lia.
Qed.
Lemma wpc_for_app n1 n2 i (body : Z -> C unit) w Φ :
  wpc (for_loop n1 i body) w (fun _ w' => wpc (for_loop n2 (i + Z.of_nat n1) body) w' Φ) ⊢
  wpc (for_loop (n1 + n2) i body) w Φ.
Proof. rewrite wpc_bind. apply wpc_of_eq. intros h. apply for_loop_app. Qed.

(** Iterations that do nothing. *)
Lemma wpc_for_skip n i (body : Z -> C unit) w Φ :
  (forall k, i <= k < i + Z.of_nat n -> body k = mret tt) -> Φ tt w ⊢ wpc (for_loop n i body) w Φ.
Proof.
  revert i. induction n as [|n IH]; intros i Hb; [apply wpc_ret|]. cbn [for_loop].
  rewrite -wpc_bind Hb; [|lia]. rewrite -wpc_ret. apply IH. intros k Hk. apply Hb. lia.
Qed.
End library.

(** ** Runs that end in a fault *)

(** From any heap that has this part and a disjoint rest, [m] ends in the fault [e]. *)
Definition wpe {A} (m : C A) (w : world) (e : fault) : hprop :=
  mk_hprop (fun h => forall hf, h ##ₘ hf -> m (mem (h ∪ hf) w) = Err e).

Section faults.
Context {A : Type}.
Implicit Types (w : world) (e : fault).

Lemma wpe_fail (P : hprop) w e : P ⊢ wpe (A := A) (stfail e) w e.
Proof. apply hprop_entails. by intros h _ hf _. Qed.

(** The memory a faulting run does not need may be dropped. *)
#[global] Instance wpe_absorbing (m : C A) w e : Absorbing (PROP := hpropI) (wpe m w e).
Proof.
  unfold Absorbing, bi_absorbingly. apply hprop_entails. intros h (h1 & h2 & -> & Hd & _ & H) hf Hf.
  apply map_disjoint_union_l in Hf as [Hf1 Hf2]. rewrite (map_union_comm h1 h2); [|done]. rewrite -(assoc_L (∪)). apply H.
  by apply map_disjoint_union_r_2.
Qed.

(** The fault comes after [m], or from [m]. *)
Lemma wpe_bind {B} (m : C B) (f : B -> C A) w e : wpc m w (fun b w' => wpe (f b) w' e) ⊢ wpe (mbind f m) w e.
Proof.
  apply hprop_entails. intros h H hf Hd. destruct (H hf Hd) as (b & w' & h' & E & Hd' & Hf).
  rewrite (bind_run _ _ _ _ _ E). by apply Hf.
Qed.
Lemma wpe_bind_err {B} (m : C B) (f : B -> C A) w e : wpe m w e ⊢ wpe (mbind f m) w e.
Proof. apply hprop_entails. intros h H hf Hd. by apply bind_err, H. Qed.

Lemma wpe_adequate (m : C A) (P : hprop) w e h : (P ⊢ wpe m w e) -> holds P h -> m (mem h w) = Err e.
Proof.
  intros Hm HP. pose proof (proj1 (hprop_entails _ _) Hm h HP ∅ (map_disjoint_empty_r _)) as E.
  by rewrite (right_id_L ∅ (∪)) in E.
Qed.
Lemma wpe_run (m : C A) w e : (⊢ wpe m w e) -> m (mem ∅ w) = Err e.
Proof. intros Hm. by apply (wpe_adequate m emp%I). Qed.
End faults.

Ltac wpe_bind := iApply wpe_bind.

Section fault_steps.
Implicit Types (w : world) (l : nat) (b : list val).

Lemma wpe_load_undef l off i b w : b !! (off + i)%nat = Some VUndef ->
  own_block l b ⊢ wpe (load_ptr (Some (l, off)) (Z.of_nat i)) w Uninit.
Proof.
  iIntros (Hv) "Hl". wpe_bind. iApply (wpc_load with "Hl"); [done|]. iIntros "Hl". by iApply (wpe_fail with "Hl").
Qed.

(** A cell in front of a block. *)
Lemma wpe_load_before l off i b w : Z.of_nat off + i < 0 -> own_block l b ⊢ wpe (load (Some (l, off)) i) w OutOfBounds.
Proof.
  iIntros (Hi) "Hl". wpe_bind. iApply (wpc_block with "Hl"). iIntros "Hl". unfold cell_index.
  destruct (_ <? 0) eqn:E; zbool; [|lia]. by iApply (wpe_fail with "Hl").
Qed.

(** A string that does not end in its block. *)
Lemma wpe_read_string l off b e w : cell_string (drop off b) = Err e ->
  own_block l b ⊢ wpe (read_string (Some (l, off))) w e.
Proof.
  iIntros (Hx) "Hl". wpe_bind. iApply (wpc_block with "Hl"). iIntros "Hl". rewrite Hx. by iApply (wpe_fail with "Hl").
Qed.
Lemma cell_string_open x : no_nul x -> cell_string (VInt <$> x) = Err OutOfBounds.
Proof.
  induction 1 as [|c x Hc _ IH]; [done|]. cbn [fmap list_fmap cell_string].
  destruct (c =? 0) eqn:E; [lia|]. by rewrite IH.
Qed.
End fault_steps.
