(* ===== verification/CStrings.v ===== *)
(** * Strings inside buffers

    How the functions that cut strings in place ([strsep], [strtok]) and the input
    functions change a buffer, as rules of the heap logic. [split] and [words] are what
    repeated calls of [strsep] and [strtok] give. *)
From stdpp Require Import base numbers list gmap.
From iris.proofmode Require Import proofmode.
From S2P Require Import Prelude CBase CDecimal CHeap HeapLogic.
Set Warnings "-rewrite-rw".
Local Open Scope Z_scope.

(** ** A string at a place in a block *)
Section str_in.
Implicit Types (b : list val) (x y : list Z).

Lemma str_in_iff b off x : str_in b off x <->
  no_nul x /\ (forall j c, x !! j = Some c -> b !! (off + j)%nat = Some (VInt c)) /\
  b !! (off + length x)%nat = Some (VInt 0).
Proof.
  unfold str_in. setoid_rewrite <- lookup_drop. generalize (drop off b). clear b. intros b. split.
  - revert x. induction b as [|v b IH]; intros x; simpl; [done|]. destruct v as [c| |]; try done.
    destruct (c =? 0) eqn:E; zbool.
    + intros [= <-]. subst c. split_and!; [constructor|done|done].
    + destruct (cell_string b) as [y|]; [|done]. intros [= <-]. destruct (IH y eq_refl) as (H1 & H2 & H3).
      split_and!; [by constructor| |done]. intros [|j] d; [by intros [= <-]|apply H2].
  - revert b. induction x as [|c x IH]; intros b (Hn & Hc & H0).
    + destruct b as [|v b]; [done|]. injection H0 as ->. done.
    + pose proof (Hc 0%nat c eq_refl) as H1. destruct b as [|v b]; [done|]. injection H1 as ->.
      apply Forall_cons in Hn as [Hn1 Hn]. simpl. destruct (c =? 0) eqn:E; [lia|].
      rewrite (IH b); [done|]. split_and!; [done| |done]. intros j d Hj. apply (Hc (S j) d Hj).
Qed.
Lemma str_in_mono b r off x : str_in b off x -> str_in (b ++ r) off x.
Proof.
  intros (H1 & H2 & H3)%str_in_iff. apply str_in_iff. split_and!; [done|intros j c Hj|];
    (apply lookup_app_l_Some; auto).
Qed.

Lemma str_in_no_nul b off x : str_in b off x -> no_nul x.
Proof. by intros (? & _)%str_in_iff. Qed.
Lemma str_in_length b off x : str_in b off x -> (off + length x < length b)%nat.
Proof. intros (_ & _ & H)%str_in_iff. by eapply lookup_lt_Some. Qed.

Lemma str_in_get b off x j c : str_in b off x -> x !! j = Some c -> b !! (off + j)%nat = Some (VInt c).
Proof. intros (_ & H & _)%str_in_iff. apply H. Qed.
Lemma str_in_end b off x : str_in b off x -> b !! (off + length x)%nat = Some (VInt 0).
Proof. by intros (_ & _ & H)%str_in_iff. Qed.

(** The rest of a string. *)
Lemma str_in_drop b off x k : str_in b off x -> (k <= length x)%nat -> str_in b (off + k) (drop k x).
Proof.
  intros (Hn & Hc & H0)%str_in_iff Hk. apply str_in_iff. split_and!; [by apply Forall_drop| |].
  - intros j c. rewrite lookup_drop. intros Hj%Hc. by rewrite -Nat.add_assoc.
  - rewrite length_drop. by replace (off + k + (length x - k))%nat with (off + length x)%nat by lia.
Qed.

(** Ending a string earlier. *)
Lemma str_in_cut b off x k : str_in b off x -> (k <= length x)%nat ->
  str_in (<[(off + k)%nat := VInt 0]> b) off (take k x).
Proof.
  intros Hx Hk. pose proof (str_in_length _ _ _ Hx). apply str_in_iff in Hx as (Hn & Hc & H0).
  apply str_in_iff. rewrite length_take_le; [|done]. split_and!; [by apply Forall_take| |].
  - intros j c [Hj Hlt]%lookup_take_Some. rewrite list_lookup_insert_ne; [|lia]. by apply Hc.
  - apply list_lookup_insert_eq. lia.
Qed.

(** Writing outside a string. *)
Lemma str_in_insert b off x j v : str_in b off x -> (j < off \/ off + length x < j)%nat ->
  str_in (<[j := v]> b) off x.
Proof.
  intros (Hn & Hc & H0)%str_in_iff Hj. apply str_in_iff. split_and!; [done| |].
  - intros i c Hi. pose proof (lookup_lt_Some _ _ _ Hi). rewrite list_lookup_insert_ne; [|lia]. by apply Hc.
  - by rewrite list_lookup_insert_ne; [|lia].
Qed.

(** Resizing a block keeps what fits. *)
Lemma str_in_resize b off x n r : str_in b off x -> (off + length x < n)%nat -> str_in (take n b ++ r) off x.
Proof.
  intros Hx Hn. pose proof (str_in_length _ _ _ Hx). apply str_in_iff in Hx as (Hn' & Hc & H0). apply str_in_iff.
  assert (forall j, (j <= length x)%nat -> (take n b ++ r) !! (off + j)%nat = b !! (off + j)%nat) as Hlk.
  { intros j Hj. rewrite lookup_app_l; [|rewrite length_take; lia]. apply lookup_take_lt. lia. }
  split_and!; [done| |by rewrite Hlk].
  intros j c Hj. pose proof (lookup_lt_Some _ _ _ Hj). rewrite Hlk; [by apply Hc|lia].
Qed.
Lemma str_in_zeros n : n <> 0%nat -> str_in (replicate n (VInt 0)) 0 [].
Proof. by destruct n. Qed.
End str_in.

(** ** Pieces of a string *)

(** The pieces between the delimiters; there is always one more piece than delimiters. *)
Fixpoint split (d : Z) (x : list Z) : list (list Z) :=
  match x with
  | [] => [[]]
  | c :: x' =>
      if c =? d then [] :: split d x'
      else match split d x' with y :: ys => (c :: y) :: ys | [] => [[c]] end
  end.

(** The pieces that are not empty. *)
Definition words (d : Z) (x : list Z) : list (list Z) := filter (fun y => y <> []) (split d x).

Section pieces.
Context (d : Z).
Implicit Types (x y : list Z).

Lemma until_split x : split d x =
  let '(y, more) := until d x in if (more : bool) then y :: split d (drop (S (length y)) x) else [y].
Proof.
  induction x as [|c x IH]; [done|]. cbn [split until]. destruct (c =? d) eqn:E.
  - cbn [length drop]. by rewrite drop_0.
  - rewrite IH. destruct (until d x) as [y [|]]; done.
Qed.

Lemma until_prefix x y more : until d x = (y, more) ->
  y = take (length y) x /\ (length y <= length x)%nat /\ d ∉ y /\
  (more = true -> x !! length y = Some d) /\ (more = false -> y = x).
Proof.
  revert y more. induction x as [|c x IH]; intros y more; cbn [until].
  - intros [= <- <-]. split_and!; try done. by apply not_elem_of_nil.
  - destruct (c =? d) eqn:E; zbool.
    + intros [= <- <-]. subst. split_and!; try done; [simpl; lia|by apply not_elem_of_nil].
    + destruct (until d x) as [y' m]. intros [= <- <-]. destruct (IH y' m eq_refl) as (H1 & H2 & H3 & H4 & H5).
      split; [|split; [|split; [|split]]]; cbn [length take].
      * by f_equal.
      * lia.
      * apply not_elem_of_cons. split; [by intros ->|done].
      * done.
      * intros Hm. by rewrite (H5 Hm).
Qed.

(** Pieces are not longer than the string, and there are not more of them than characters,
    plus one. *)
Lemma split_bounds x : (length (split d x) <= S (length x))%nat /\
  Forall (fun y => (length y <= length x)%nat /\ (no_nul x -> no_nul y)) (split d x).
Proof.
  induction x as [|c x [IH1 IH2]]; cbn [split].
  - split; [simpl; lia|]. by repeat constructor.
  - assert (Forall (fun y => (length y <= S (length x))%nat /\ (no_nul (c :: x) -> no_nul y)) (split d x)) as IH3.
    { eapply Forall_impl; [exact IH2|]. intros y [H1 H2]. split; [lia|]. intros [_ H]%Forall_cons. by apply H2. }
    destruct (c =? d).
    + split; [simpl; lia|]. constructor; [split; [simpl; lia|constructor]|done].
    + destruct (split d x) as [|y ys]; [split; [simpl; lia|]|].
      * constructor; [split; [simpl; lia|]|constructor]. intros [Hc _]%Forall_cons. by repeat constructor.
      * apply Forall_cons in IH2 as [[H1 H2] _]. apply Forall_cons in IH3 as [_ IH3]. split; [simpl in *; lia|].
        constructor; [|done]. split; [simpl; lia|]. intros [Hc Hx]%Forall_cons. constructor; [done|by apply H2].
Qed.

Lemma skip_char_le x : (skip_char d x <= length x)%nat.
Proof. induction x as [|c x IH]; simpl; [lia|]. destruct (c =? d); simpl; lia. Qed.

Lemma skip_char_words x : words d (drop (skip_char d x) x) = words d x.
Proof.
  unfold words. induction x as [|c x IH]; [done|]. cbn [skip_char split]. destruct (c =? d) eqn:E.
  - cbn [drop]. rewrite IH. by rewrite filter_cons_False; [|by intros ?].
  - rewrite drop_0. cbn [split]. by rewrite E.
Qed.

Lemma skip_char_first x c x' : drop (skip_char d x) x = c :: x' -> c <> d.
Proof.
  induction x as [|a x IH]; simpl; [done|]. destruct (a =? d) eqn:E; [done|].
  rewrite drop_0. intros [= -> ->]. zbool. done.
Qed.

(** The first word of a string, and the others. *)
Lemma words_step x : words d x =
  match drop (skip_char d x) x with
  | [] => []
  | c :: z => let '(y, more) := until d (c :: z) in
              y :: if (more : bool) then words d (drop (S (length y)) (c :: z)) else []
  end.
Proof.
  rewrite -skip_char_words. destruct (drop (skip_char d x) x) as [|c z] eqn:Ez; [done|].
  apply skip_char_first in Ez. unfold words at 1. rewrite until_split.
  destruct (until d (c :: z)) as [y more] eqn:E. assert (y <> []) as Hy.
  { cbn [until] in E. destruct (c =? d) eqn:E'; [zbool; done|]. destruct (until d z). by injection E as <- <-. }
  destruct more; rewrite filter_cons_True //.
Qed.
End pieces.

(** ** Loops over the pieces *)
(** [while ((tok = strsep(&p, ...)) != NULL) body(tok)], where the body may leave the
    function with a value. *)
Section strsep_loop.
Context {S R : Type} (d : Z) (body : ptr -> S -> C (S + R)).

Fixpoint strsep_loop (fuel : nat) (p : ptr) (s : S) : C (S + R) :=
  match fuel with
  | O => stfail OutOfFuel
  | Datatypes.S f =>
      '(tok, p') ← strsep p d;
      match tok with
      | None => mret (inl s)
      | Some _ =>
          r ← body tok s;
          match r with inl s' => strsep_loop f p' s' | inr a => mret (inr a) end
      end
  end.
End strsep_loop.

Section strtok_loop.
Context {S R : Type} (d : Z) (body : ptr -> S -> C (S + R)).

(** [while (tok != NULL) { body(tok); tok = strtok(NULL, ...); }] *)
Fixpoint strtok_loop (fuel : nat) (tok : ptr) (s : S) : C (S + R) :=
  match fuel with
  | O => stfail OutOfFuel
  | Datatypes.S f =>
      match tok with
      | None => mret (inl s)
      | Some _ =>
          r ← body tok s;
          match r with
          | inl s' => tok' ← strtok NULL d; strtok_loop f tok' s'
          | inr a => mret (inr a)
          end
      end
  end.
End strtok_loop.

(** Pieces of a buffer before a place. *)
Definition pieces_at (b : list val) (off : nat) (toks : list (nat * list Z)) : Prop :=
  Forall (fun t => str_in b t.1 t.2 /\ (t.1 + length t.2 < off)%nat) toks.

Section loops.
Context (d : Z).
Implicit Types (w : world) (l : nat) (b : list val) (x y : list Z).

Lemma pieces_at_insert b off toks j v : pieces_at b off toks -> (off <= j)%nat -> pieces_at (<[j := v]> b) off toks.
Proof.
  intros H Hj. eapply Forall_impl; [exact H|]. intros [o y] [H1 H2]. split; [|done].
  apply str_in_insert; [done|]. simpl in *. lia.
Qed.
Lemma pieces_at_le b off off' toks : pieces_at b off toks -> (off <= off')%nat -> pieces_at b off' toks.
Proof. intros H Hle. eapply Forall_impl; [exact H|]. intros [o y] [H1 H2]. split; [done|lia]. Qed.

Lemma wpc_strsep l off b x w Φ : str_in b off x ->
  l ↦ b -∗
  (let '(y, more) := until d x in
   l ↦ (if more then <[(off + length y)%nat := VInt 0]> b else b) -∗
   Φ (Some (l, off), if more then Some (l, (off + S (length y))%nat) else NULL) w) -∗
  wpc (strsep (Some (l, off)) d) w Φ.
Proof.
  iIntros (Hx) "Hl HΦ". unfold strsep. wpc_bind. iApply (wpc_read_string with "Hl"); [done|]. iIntros "Hl".
  destruct (until d x) as [y more] eqn:E. pose proof (until_prefix d x y more E) as (_ & Hle & _).
  pose proof (str_in_length _ _ _ Hx). destruct more.
  - wpc_bind. iApply (wpc_store with "Hl"); [lia|]. iIntros "Hl". wpc_ret. by iApply "HΦ".
  - wpc_ret. by iApply "HΦ".
Qed.

(** The two strings left by a cut. *)
Lemma cut_facts b off x y (more : bool) : str_in b off x -> until d x = (y, more) ->
  let b' := if more then <[(off + length y)%nat := VInt 0]> b else b in
  str_in b' off y /\ (more = true -> str_in b' (off + S (length y)) (drop (S (length y)) x) /\
                                     (S (length y) <= length x)%nat).
Proof.
  intros Hx E. destruct (until_prefix d x y more E) as (Hy & Hle & _ & Hm & Hx0). destruct more.
  - assert (length y < length x)%nat by (by eapply lookup_lt_Some, Hm). split.
    + rewrite {2}Hy. by apply str_in_cut.
    + intros _. split; [|done]. apply str_in_insert; [|lia]. apply str_in_drop; [done|lia].
  - by rewrite -(Hx0 eq_refl) in Hx.
Qed.

Section strsep.
Context {S R : Type} (body : ptr -> S -> C (S + R)) (l : nat).
Context (I : list (nat * list Z) -> S -> world -> hprop) (all : list (list Z)).
Context (Hbody : forall toks off y rest s w b, toks.*2 ++ y :: rest = all -> str_in b off y ->
  I toks s w ∗ l ↦ b ⊢ wpc (body (Some (l, off)) s) w (fun r w' =>
    ∃ s', ⌜r = inl s'⌝ ∧ (I (toks ++ [(off, y)]) s' w' ∗ l ↦ b))).

Lemma wpc_strsep_loop fuel off b x toks s w :
  toks.*2 ++ split d x = all -> str_in b off x -> (length x + 1 < fuel)%nat -> pieces_at b off toks ->
  I toks s w ∗ l ↦ b ⊢ wpc (strsep_loop d body fuel (Some (l, off)) s) w (fun r w' =>
    ∃ s' b' toks' off', ⌜r = inl s' /\ toks'.*2 = all /\ pieces_at b' off' toks'⌝ ∧ (I toks' s' w' ∗ l ↦ b')).
Proof.
  revert off b x toks s w. induction fuel as [|f IH]; intros off b x toks s w Hall Hx Hf Hp; [lia|].
  iIntros "[HI Hl]". cbn [strsep_loop]. wpc_bind. iApply (wpc_strsep with "Hl"); [done|].
  rewrite until_split in Hall. destruct (until d x) as [y more] eqn:E.
  pose proof (cut_facts b off x y more Hx E) as [H1 H2]. iIntros "Hl".
  set (b' := if more then _ else b) in *. assert (pieces_at b' (off + Datatypes.S (length y)) (toks ++ [(off, y)])) as Hp'.
  { apply Forall_app_2; [|constructor; [split; [done|simpl; lia]|constructor]].
    apply (pieces_at_le _ off); [|lia]. unfold b'. destruct more; [|done]. apply pieces_at_insert; [done|lia]. }
  wpc_bind. iAssert (wpc _ _ _) with "[HI Hl]" as "H".
  { iApply (Hbody toks off y (if more then split d (drop (Datatypes.S (length y)) x) else [])); [|exact H1|iFrame].
    rewrite -Hall. by destruct more. }
  iApply (wpc_wand with "H"). iIntros (r w') "(%s' & -> & HI & Hl)". destruct more.
  - destruct (H2 eq_refl) as [H3 H4]. iApply (IH with "[$HI $Hl]"); [|exact H3|rewrite length_drop; lia|done].
    rewrite fmap_app -app_assoc. by rewrite -Hall.
  - destruct f as [|f]; [lia|]. cbn [strsep_loop]. wpc_bind. wpc_ret. wpc_ret.
    iExists s', b', (toks ++ [(off, y)]), (off + Datatypes.S (length y))%nat. iFrame. iPureIntro.
    split; [|done]. split; [done|]. split; [|done]. by rewrite fmap_app -Hall.
Qed.
End strsep.

(** [strtok] on a string without a word, and on one with a word. *)
Lemma wpc_strtok_end p l off b x w Φ : str_in b off x -> words d x = [] ->
  (p = Some (l, off) \/ p = NULL /\ strtok_next w = Some (l, off)) ->
  l ↦ b -∗ (l ↦ b -∗ Φ NULL (mk_world (stdin w) (stdout w) NULL)) -∗ wpc (strtok p d) w Φ.
Proof.
  iIntros (Hx Hw Hp) "Hl HΦ". unfold strtok. wpc_bind. iApply wpc_get_files. cbv zeta.
  assert (tok_start p w = Some (l, off)) as -> by (by destruct Hp as [->|[-> Hnx]]).
  wpc_bind. iApply (wpc_read_string with "Hl"); [done|]. iIntros "Hl". rewrite words_step in Hw.
  destruct (drop _ x) as [|c z] eqn:Ez; [|exfalso; revert Hw; by destruct (until d (c :: z))].
  cbn [until]. wpc_bind. iApply wpc_put_files. wpc_ret. by iApply "HΦ".
Qed.

Lemma wpc_strtok_word p l off b x w Φ k y more :
  str_in b off x -> k = skip_char d x -> drop k x <> [] -> until d (drop k x) = (y, more) ->
  (p = Some (l, off) \/ p = NULL /\ strtok_next w = Some (l, off)) ->
  l ↦ b -∗
  (l ↦ (if more then <[(off + k + length y)%nat := VInt 0]> b else b) -∗
   Φ (Some (l, (off + k)%nat))
     (mk_world (stdin w) (stdout w) (if more then Some (l, (off + k + S (length y))%nat) else NULL))) -∗
  wpc (strtok p d) w Φ.
Proof.
  iIntros (Hx Hk Hne E Hp) "Hl HΦ". unfold strtok. wpc_bind. iApply wpc_get_files. cbv zeta.
  assert (tok_start p w = Some (l, off)) as -> by (by destruct Hp as [->|[-> Hnx]]).
  wpc_bind. iApply (wpc_read_string with "Hl"); [done|]. iIntros "Hl". rewrite -Hk E.
  pose proof (until_prefix d _ y more E) as (_ & Hle & _). rewrite length_drop in Hle.
  pose proof (str_in_length _ _ _ Hx). pose proof (skip_char_le d x).
  destruct (drop k x) as [|c z] eqn:Ez; [done|]. wpc_bind. destruct more.
  - wpc_bind. iApply (wpc_store with "Hl"); [lia|]. iIntros "Hl". iApply wpc_put_files. wpc_ret.
    cbn [offset fmap option_fmap option_map]. rewrite !Nat.add_assoc -!Nat.add_succ_r !Nat.add_assoc. by iApply "HΦ".
  - iApply wpc_put_files. wpc_ret. by iApply "HΦ".
Qed.

Section strtok.
Context {S R : Type} (body : ptr -> S -> C (S + R)) (l : nat).
Context (I : list (nat * list Z) -> S -> world -> hprop) (all : list (list Z)).
Context (Hbody : forall toks off y rest s w b, toks.*2 ++ y :: rest = all -> y <> [] -> str_in b off y ->
  I toks s w ∗ l ↦ b ⊢ wpc (body (Some (l, off)) s) w (fun r w' =>
    ∃ s', ⌜r = inl s' /\ strtok_next w' = strtok_next w⌝ ∧ (I (toks ++ [(off, y)]) s' w' ∗ l ↦ b))).
(** The invariant does not depend on the place where [strtok] goes on. *)
Context (HI : forall toks s w p, I toks s w ⊢ I toks s (mk_world (stdin w) (stdout w) p)).

Definition strtok_post (r : S + R) (w' : world) : hprop :=
  (∃ s' b' toks' off', ⌜r = inl s' /\ toks'.*2 = all /\ pieces_at b' off' toks'⌝ ∧ (I toks' s' w' ∗ l ↦ b'))%I.

(** One call of [strtok] and the rest of the loop. *)
Lemma wpc_strtok_loop fuel p off b x toks s w :
  toks.*2 ++ words d x = all -> str_in b off x -> (length x + 1 < fuel)%nat -> pieces_at b off toks ->
  (p = Some (l, off) \/ p = NULL /\ strtok_next w = Some (l, off)) ->
  I toks s w ∗ l ↦ b ⊢ wpc (tok ← strtok p d; strtok_loop d body fuel tok s) w strtok_post.
Proof.
  revert p off b x toks s w. induction fuel as [|f IH]; intros p off b x toks s w Hall Hx Hf Hp Hst; [lia|].
  iIntros "[HIs Hl]". wpc_bind. rewrite words_step in Hall. destruct (drop (skip_char d x) x) as [|c z] eqn:Ez.
  - iApply (wpc_strtok_end with "Hl"); [done|by rewrite words_step Ez|done|]. iIntros "Hl". cbn [strtok_loop].
    wpc_ret. rewrite app_nil_r in Hall. iExists s, b, toks, off. iFrame "Hl". iDestruct (HI with "HIs") as "$". done.
  - destruct (until d (c :: z)) as [y more] eqn:E. set (k := skip_char d x) in *.
    assert (k <= length x)%nat as Hk by apply skip_char_le.
    pose proof (str_in_drop b off x k Hx Hk) as Hz. rewrite Ez in Hz.
    pose proof (cut_facts b (off + k) _ y more Hz E) as [H1 H2].
    iApply (wpc_strtok_word p l off b x w _ k y more with "Hl"); [done|done|by rewrite Ez|by rewrite Ez|done|].
    iIntros "Hl".
    set (b' := if more then _ else b) in *. set (w1 := mk_world _ _ _).
    assert (y <> []) as Hy.
    { apply skip_char_first in Ez. cbn [until] in E. destruct (c =? d) eqn:E'; [zbool; done|].
      destruct (until d z). by injection E as <- <-. }
    assert (pieces_at b' (off + k + Datatypes.S (length y)) (toks ++ [((off + k)%nat, y)])) as Hp'.
    { apply Forall_app_2; [|constructor; [split; [done|simpl; lia]|constructor]].
      apply (pieces_at_le _ off); [|lia]. unfold b'. destruct more; [|done]. apply pieces_at_insert; [done|lia]. }
    cbn [strtok_loop]. wpc_bind. iDestruct (HI _ _ _ (strtok_next w1) with "HIs") as "HIs".
    iAssert (wpc _ w1 _) with "[HIs Hl]" as "H".
    { iApply (Hbody toks (off + k)%nat y (if more then words d (drop (Datatypes.S (length y)) (c :: z)) else []));
        [|exact Hy|exact H1|iFrame]. rewrite -Hall. by destruct more. }
    iApply (wpc_wand with "H"). iIntros (r w') "(%s' & %Hr & HIs & Hl)". destruct Hr as [-> Hnext]. subst w1. simpl in Hnext. destruct more.
    + destruct (H2 eq_refl) as [H3 H4]. iApply (IH with "[$HIs $Hl]"); [|exact H3| |exact Hp'|by right].
      * rewrite fmap_app -app_assoc. by rewrite -Hall.
      * assert (length (drop k x) = length (c :: z)) as Hd by (by rewrite Ez). rewrite length_drop in Hd.
        rewrite length_drop. lia.
    + wpc_bind. unfold strtok. wpc_bind. iApply wpc_get_files. unfold tok_start. rewrite Hnext. cbv zeta iota. wpc_ret.
      destruct f as [|f]; [lia|]. cbn [strtok_loop]. wpc_ret.
      iExists s', b', (toks ++ [((off + k)%nat, y)]), (off + k + Datatypes.S (length y))%nat. iFrame. iPureIntro.
      split_and!; try done. by rewrite fmap_app -Hall.
Qed.
End strtok.
End loops.

(** ** Building strings *)
Section building.
Implicit Types (w : world) (l : nat) (b : list val) (x y : list Z).

Lemma lookup_str_cells y j c : y !! j = Some c -> str_cells y !! j = Some (VInt c).
Proof.
  intros Hj. unfold str_cells. rewrite lookup_app_l; [|rewrite length_fmap; by eapply lookup_lt_Some].
  by rewrite list_lookup_fmap Hj.
Qed.

(** A string appended where another one ends. *)
Lemma str_in_append b off x y : str_in b off x -> no_nul y -> (off + length x + length y < length b)%nat ->
  str_in (splice (off + length x) (str_cells y) b) off (x ++ y).
Proof.
  intros (Hn & Hc & H0)%str_in_iff Hy Hlen. apply str_in_iff.
  assert (off + length x + length (str_cells y) <= length b)%nat by (rewrite length_str_cells; lia).
  split_and!; [by apply Forall_app_2| |].
  - intros j c [Hj|[Hge Hj]]%lookup_app_Some.
    + pose proof (lookup_lt_Some _ _ _ Hj). rewrite lookup_splice_old; [by apply Hc|done|lia].
    + pose proof (lookup_lt_Some _ _ _ Hj).
      rewrite lookup_splice_new; [|done|rewrite length_str_cells; lia].
      replace (off + j - (off + length x))%nat with (j - length x)%nat by lia. by apply lookup_str_cells.
  - rewrite length_app lookup_splice_new; [|done|rewrite length_str_cells; lia].
    replace (off + (length x + length y) - (off + length x))%nat with (length y) by lia.
    unfold str_cells. apply list_lookup_middle. by rewrite length_fmap.
Qed.

(** A string written over what was there. *)
Lemma str_in_write b off y : no_nul y -> (off + length y < length b)%nat -> str_in (splice off (str_cells y) b) off y.
Proof.
  intros Hy Hlen. apply str_in_iff.
  assert (off + length (str_cells y) <= length b)%nat by (rewrite length_str_cells; lia). split_and!; [done| |].
  - intros j c Hj. pose proof (lookup_lt_Some _ _ _ Hj).
    rewrite lookup_splice_new; [|done|rewrite length_str_cells; lia].
    replace (off + j - off)%nat with j by lia. by apply lookup_str_cells.
  - rewrite lookup_splice_new; [|done|rewrite length_str_cells; lia].
    replace (off + length y - off)%nat with (length y) by lia.
    unfold str_cells. apply list_lookup_middle. by rewrite length_fmap.
Qed.

Lemma wpc_strcat l off b x l' off' b' y w Φ :
  str_in b off x -> str_in b' off' y -> (off + length x + length y < length b)%nat ->
  l ↦ b -∗ l' ↦ b' -∗ (l ↦ splice (off + length x) (str_cells y) b -∗ l' ↦ b' -∗ Φ tt w) -∗
  wpc (strcat (Some (l, off)) (Some (l', off'))) w Φ.
Proof.
  iIntros (Hx Hy Hlen) "Hl Hl' HΦ". wpc_bind. iApply (wpc_read_string with "Hl"); [done|]. iIntros "Hl".
  wpc_bind. iApply (wpc_read_string with "Hl'"); [done|]. iIntros "Hl'".
  iApply (wpc_write_cells with "Hl"); [rewrite length_str_cells; lia|]. iIntros "Hl". iApply ("HΦ" with "Hl Hl'").
Qed.

Lemma wpc_strstr l off b x l' off' b' t w Φ : str_in b off x -> str_in b' off' t ->
  l ↦ b -∗ l' ↦ b' -∗
  (l ↦ b -∗ l' ↦ b' -∗ Φ (match find_sub t x with Some k => Some (l, (off + k)%nat) | None => NULL end) w) -∗
  wpc (strstr (Some (l, off)) (Some (l', off'))) w Φ.
Proof.
  iIntros (Hx Ht) "Hl Hl' HΦ". wpc_bind. iApply (wpc_read_string with "Hl"); [done|]. iIntros "Hl".
  wpc_bind. iApply (wpc_read_string with "Hl'"); [done|]. iIntros "Hl'".
  wpc_ret. iApply ("HΦ" with "Hl Hl'").
Qed.

(** [find_sub] is the first occurrence. *)
Lemma find_sub_some t x k : find_sub t x = Some k <->
  t `prefix_of` drop k x /\ (k <= length x)%nat /\ forall j, (j < k)%nat -> ~ t `prefix_of` drop j x.
Proof.
  revert k. induction x as [|c x IH]; intros k; cbn [find_sub]; case_bool_decide as Hp.
  - split; [intros [= <-]|intros (H1 & H2 & _); f_equal; simpl in H2; lia].
    split_and!; [done|simpl; lia|lia].
  - split; [done|]. intros (H1 & H2 & _). destruct k; [done|simpl in H2; lia].
  - split.
    + intros [= <-]. split_and!; [done|lia|lia].
    + intros (_ & _ & H3). destruct k; [done|]. by destruct (H3 0%nat ltac:(lia)).
  - destruct k as [|k].
    + split; [by destruct (find_sub t x)|]. by intros (H1 & _).
    + transitivity (find_sub t x = Some k); [destruct (find_sub t x); simpl; split; congruence|].
      rewrite IH. cbn [drop length]. split; intros (H1 & H2 & H3); split_and!; try done; try lia.
      * intros [|j] Hj; [done|]. cbn [drop]. apply H3. lia.
      * intros j Hj. apply (H3 (S j)). lia.
Qed.
Lemma find_sub_le t x k : find_sub t x = Some k -> (k <= length x)%nat.
Proof. by intros (_ & H & _)%find_sub_some. Qed.
Lemma find_sub_none t x : find_sub t x = None <-> forall j, (j <= length x)%nat -> ~ t `prefix_of` drop j x.
Proof.
  split.
  - revert t. induction x as [|c x IH]; intros t; cbn [find_sub]; case_bool_decide as Hp; try done.
    + intros _ [|j] Hj; [done|simpl in Hj; lia].
    + destruct (find_sub t x) eqn:E; [done|]. intros _ [|j] Hj; [done|]. apply IH; [done|]. simpl in Hj. lia.
  - intros H. destruct (find_sub t x) as [k|] eqn:E; [|done]. apply find_sub_some in E as (H1 & H2 & _).
    by destruct (H k H2).
Qed.

(** ** Reading lines *)

Lemma wpc_fgets l off b size w Φ : 2 <= size -> stdin w <> [] ->
  let line := chunk (Z.to_nat (size - 1)) (stdin w) in (off + length line < length b)%nat ->
  l ↦ b -∗
  (l ↦ splice off (str_cells line) b -∗
   Φ (Some (l, off)) (mk_world (drop (length line) (stdin w)) (stdout w) (strtok_next w))) -∗
  wpc (fgets (Some (l, off)) size) w Φ.
Proof.
  iIntros (Hs Hne line Hlen) "Hl HΦ". unfold fgets. wpc_bind. iApply wpc_get_files.
  destruct (size <=? 0) eqn:E1; [zbool; lia|]. destruct (size =? 1) eqn:E2; [zbool; lia|].
  destruct (stdin w) as [|c inp] eqn:E3; [done|]. cbv zeta. wpc_bind.
  iApply (wpc_write_cells with "Hl"); [rewrite length_str_cells; unfold line in Hlen; lia|]. iIntros "Hl".
  wpc_bind. iApply wpc_put_files. wpc_ret. by iApply "HΦ".
Qed.
Lemma wpc_fgets_eof p size w Φ : 2 <= size -> stdin w = [] -> Φ NULL w ⊢ wpc (fgets p size) w Φ.
Proof.
  iIntros (Hs Hnil) "HΦ". unfold fgets. wpc_bind. iApply wpc_get_files.
  destruct (size <=? 0) eqn:E1; [zbool; lia|]. destruct (size =? 1) eqn:E2; [zbool; lia|]. rewrite Hnil. by wpc_ret.
Qed.
End building.
