(* ===== verification/Vector.v ===== *)
(** * Growing arrays of strings and integers

    src/vector/string.c and src/vector/int.c: arrays that a push resizes by one and an
    erase closes up, with the number of elements kept by the caller. An operation takes
    the value of [*vec], which the caller may not have initialised while there are no
    elements, and returns its result and the new value of [*vec]. src/grep/grep.c has the
    same operations under other names. *)
From stdpp Require Import base numbers list gmap.
From iris.proofmode Require Import proofmode.
From S2P Require Import Prelude CBase CDecimal CHeap HeapLogic.
Set Warnings "-rewrite-rw".
Local Open Scope Z_scope.

Module Vec.

(** ** Operations *)

Definition VECTOR_PushBackString (rowc : Z) (vec : val) (new_el : ptr) : C (Z * val) :=
  new_row_count ← int_c (rowc + 1);
  vec_tmp ← (if rowc =? 0 then malloc_z new_row_count
             else v ← as_ptr vec; realloc_z v new_row_count);
  n ← strlen new_el;
  let new_line_len := s32 n in
  p ← malloc_z (new_line_len + 1);
  store vec_tmp rowc (VPtr p);;
  p1 ← load_ptr vec_tmp rowc; memset p1 0 (Z.to_nat (new_line_len + 1));;
  p2 ← load_ptr vec_tmp rowc; strcpy p2 new_el;;
  mret (0, VPtr vec_tmp).

(** The body of the loop of [VECTOR_EraseString]. *)
Definition erase_string_step (rowc : Z) (vec : ptr) (index i : Z) : C unit :=
  if i <? index then mret tt
  else if i =? index then p ← load_ptr vec i; free p
  else if negb (i =? rowc - 1) then v ← load vec i; store vec (i - 1) v
  else
    p ← load_ptr vec i;
    n ← strlen p;
    let last_strlen := s32 (n + 1) in
    new_last ← malloc_z last_strlen;
    memset new_last 0 (Z.to_nat last_strlen);;
    p1 ← load_ptr vec i; strcpy new_last p1;;
    p2 ← load_ptr vec i; free p2;;
    store vec (i - 1) (VPtr new_last).

Definition VECTOR_EraseString (rowc : Z) (vec : val) (index : Z) : C (Z * val) :=
  new_row_count ← int_c (rowc - 1);
  if new_row_count <? 0 then mret (-1, vec)
  else if (rowc <=? index) || (index <? 0) then mret (-2, vec)
  else
    v ← as_ptr vec;
    for_loop (Z.to_nat rowc) 0 (erase_string_step rowc v index);;
    if new_row_count =? 0 then free v;; mret (1, vec)
    else new_vec ← realloc_z v new_row_count; mret (0, VPtr new_vec).

Definition VECTOR_PushBackInt (count : Z) (vec : val) (new_el : Z) : C (Z * val) :=
  new_el_count ← int_c (count + 1);
  vec_tmp ← (if count =? 0 then malloc_z new_el_count
             else v ← as_ptr vec; realloc_z v new_el_count);
  store vec_tmp count (VInt new_el);;
  mret (0, VPtr vec_tmp).

Definition erase_int_step (vec : ptr) (index i : Z) : C unit :=
  if i <=? index then mret tt else v ← load vec i; store vec (i - 1) v.

Definition VECTOR_EraseInt (count : Z) (vec : val) (index : Z) : C (Z * val) :=
  new_el_count ← int_c (count - 1);
  if new_el_count <? 0 then mret (-1, vec)
  else if (count <=? index) || (index <? 0) then mret (-2, vec)
  else
    v ← as_ptr vec;
    for_loop (Z.to_nat count) 0 (erase_int_step v index);;
    if new_el_count =? 0 then free v;; mret (1, vec)
    else new_vec ← realloc_z v new_el_count; mret (0, VPtr new_vec).

(** ** What a vector owns *)

Definition ptr_cells (ls : list nat) : list val := (fun l => VPtr (Some (l, 0%nat))) <$> ls.

(** Each string in a block of its own. *)
Definition rows_own (ls : list nat) (xs : list (list Z)) : hprop :=
  ([∗ list] l;x ∈ ls;xs, own_block l (str_cells x))%I.

(** Without elements the caller's variable may hold anything. *)
Definition strings_own (v : val) (xs : list (list Z)) : hprop :=
  match xs with
  | [] => emp%I
  | _ => (∃ lv ls, ⌜v = VPtr (Some (lv, 0%nat))⌝ ∧ own_block lv (ptr_cells ls) ∗ rows_own ls xs)%I
  end.

Definition ints_own (v : val) (ns : list Z) : hprop :=
  match ns with
  | [] => emp%I
  | _ => (∃ lv, ⌜v = VPtr (Some (lv, 0%nat))⌝ ∧ own_block lv (VInt <$> ns))%I
  end.

#[global] Arguments strings_own : simpl never.
#[global] Arguments ints_own : simpl never.

(** Strings the operations handle: the lengths are of type [int]. *)
Definition good_string (x : list Z) : Prop := no_nul x /\ Z.of_nat (length x) < INT_MAX.

#[global] Instance good_string_dec x : Decision (good_string x).
Proof. unfold good_string, no_nul. apply _. Defined.

(** ** Proofs *)
Section proofs.
Implicit Types (w : world) (xs : list (list Z)) (x : list Z).

Lemma rows_own_length ls xs : rows_own ls xs ⊢ ⌜length ls = length xs⌝.
Proof. apply big_sepL2_length. Qed.

Lemma strings_own_some lv ls xs : xs <> [] ->
  own_block lv (ptr_cells ls) -∗ rows_own ls xs -∗ strings_own (VPtr (Some (lv, 0%nat))) xs.
Proof. iIntros (Hx) "Hv Hr". destruct xs; [done|]. iExists lv, ls. by iFrame. Qed.

Lemma strings_own_inv v xs : xs <> [] -> strings_own v xs ⊢
  ∃ lv ls, ⌜v = VPtr (Some (lv, 0%nat))⌝ ∧ ⌜length ls = length xs⌝ ∧
    (own_block lv (ptr_cells ls) ∗ rows_own ls xs).
Proof.
  intros Hx. destruct xs; [done|]. iIntros "(%lv & %ls & -> & Hv & Hr)".
  iDestruct (rows_own_length with "Hr") as %Hl. iExists lv, ls. by iFrame.
Qed.

(** A new block with a copy of a string. *)
Lemma wpc_fill l b lp bp off x w Φ n : str_in bp off x -> n = S (length x) -> length b = n ->
  own_block l b -∗ own_block lp bp -∗ (own_block l (str_cells x) -∗ own_block lp bp -∗ Φ tt w) -∗
  wpc (memset (Some (l, 0%nat)) 0 n;; strcpy (Some (l, 0%nat)) (Some (lp, off))) w Φ.
Proof.
  iIntros (Hx -> Hb) "Hl Hp HΦ". wpc_bind. iApply (wpc_memset with "Hl"); [done|]. iIntros "Hl".
  iApply (wpc_strcpy with "Hl Hp HΦ"); [done|by rewrite length_replicate].
Qed.

Lemma length_ptr_cells ls : length (ptr_cells ls) = length ls.
Proof. apply length_fmap. Qed.

(** The array with room for one more element. *)
Lemma wpc_grow v xs w Φ :
  strings_own v xs -∗
  (∀ lv ls, ⌜length ls = length xs⌝ → own_block lv (ptr_cells ls ++ [VUndef]) -∗ rows_own ls xs -∗
     Φ (Some (lv, 0%nat)) w) -∗
  wpc (if Z.of_nat (length xs) =? 0 then malloc_z (Z.of_nat (length xs) + 1)
       else v' ← as_ptr v; realloc_z v' (Z.of_nat (length xs) + 1)) w Φ.
Proof.
  iIntros "Hv HΦ". destruct xs as [|x0 xs0]; simpl.
  - iApply wpc_malloc_z; [lia|]. iIntros (l) "Hl". iApply ("HΦ" $! l [] with "[%] Hl Hv"); done.
  - iDestruct (strings_own_inv with "Hv") as (lv ls) "(-> & %Hls & Hl & Hr)"; [done|].
    wpc_bind. wpc_ret. unfold realloc_z. destruct (_ <? 0) eqn:E; [zbool; lia|].
    iApply (wpc_realloc with "Hl"). iIntros (l') "Hl".
    replace (Z.to_nat _) with (S (length (x0 :: xs0))) by (simpl; lia).
    rewrite replicate_end; [|by rewrite length_ptr_cells Hls].
    by iApply ("HΦ" with "[%] Hl Hr").
Qed.

(** Pushing a string appends a copy of it. *)
Lemma push_string_spec v xs lp bp off x w Φ :
  good_string x -> str_in bp off x -> Z.of_nat (length xs) < INT_MAX ->
  strings_own v xs -∗ own_block lp bp -∗
  (∀ v', strings_own v' (xs ++ [x]) -∗ own_block lp bp -∗ Φ (0, v') w) -∗
  wpc (VECTOR_PushBackString (Z.of_nat (length xs)) v (Some (lp, off))) w Φ.
Proof.
  iIntros ([Hn Hx] Hp Hlen) "Hv Hp HΦ". unfold VECTOR_PushBackString.
  wpc_bind. iApply wpc_int; [unfold is_int, INT_MIN; lia|].
  wpc_bind. iApply (wpc_grow with "Hv"). iIntros (lv ls Hls) "Hl Hr".
  wpc_bind. iApply (wpc_strlen with "Hp"); [done|]. iIntros "Hp".
  rewrite s32_int; [|unfold is_int, INT_MIN; lia].
  wpc_bind. iApply wpc_malloc_z; [lia|]. iIntros (l) "Hs".
  wpc_bind. iApply (wpc_store with "Hl"); [rewrite length_app length_ptr_cells /=; lia|]. iIntros "Hl".
  rewrite Nat.add_0_l insert_mid; [|by rewrite length_ptr_cells].
  assert ((ptr_cells ls ++ [VPtr (Some (l, 0%nat))]) !! (0 + length xs)%nat = Some (VPtr (Some (l, 0%nat)))) as Hlk
    by (apply lookup_end; by rewrite length_ptr_cells).
  wpc_bind. iApply (wpc_load_ptr with "Hl"); [done|]. iIntros "Hl".
  wpc_bind. iApply (wpc_memset with "Hs"); [by rewrite length_replicate|]. iIntros "Hs".
  wpc_bind. iApply (wpc_load_ptr with "Hl"); [done|]. iIntros "Hl".
  wpc_bind. iApply (wpc_strcpy with "Hs Hp"); [done|rewrite length_replicate; lia|]. iIntros "Hs Hp".
  wpc_ret. iApply ("HΦ" with "[Hl Hr Hs] Hp").
  iApply (strings_own_some lv (ls ++ [l]) with "[Hl] [Hr Hs]"); [by destruct xs| |].
  - unfold ptr_cells. by rewrite fmap_app.
  - iApply (big_sepL2_app with "Hr"). by iFrame.
Qed.

(** The part of the loop after the erased element: the elements move down by one, and the
    last string moves to a new block. [pre] is the array up to the free place. *)
Lemma wpc_shift lv pre junk ls xs w Φ (n index : Z) :
  Forall good_string xs -> n = Z.of_nat (length pre) + 1 + Z.of_nat (length ls) ->
  index <= Z.of_nat (length pre) ->
  own_block lv (pre ++ junk :: ptr_cells ls) -∗ rows_own ls xs -∗
  (∀ ls' b, ⌜length b = (length pre + 1 + length ls)%nat /\ take (length pre + length ls) b = pre ++ ptr_cells ls'⌝ →
     own_block lv b -∗ rows_own ls' xs -∗ Φ tt w) -∗
  wpc (for_loop (length ls) (Z.of_nat (length pre) + 1) (erase_string_step n (Some (lv, 0%nat)) index)) w Φ.
Proof.
  revert pre junk xs. induction ls as [|l ls IH]; intros pre junk xs Hg Hn Hi; iIntros "Hv Hr HΦ".
  - iDestruct (rows_own_length with "Hr") as %Hl. destruct xs; [|done]. wpc_ret.
    iApply ("HΦ" $! [] with "[%] Hv Hr"). rewrite length_app /=. split; [lia|].
    by rewrite Nat.add_0_r take_app_length /ptr_cells app_nil_r.
  - iDestruct (rows_own_length with "Hr") as %Hl. destruct xs as [|x xs]; [done|].
    apply Forall_cons in Hg as [[Hnx Hx] Hg]. iDestruct "Hr" as "[Hx Hr]".
    cbn [length for_loop]. wpc_bind. unfold erase_string_step at 1.
    destruct (_ <? index) eqn:E1; [zbool; lia|]. destruct (_ =? index) eqn:E2; [zbool; lia|].
    replace (Z.of_nat (length pre) + 1 - 1) with (Z.of_nat (length pre)) by lia.
    replace (Z.of_nat (length pre) + 1) with (Z.of_nat (S (length pre))) by lia.
    assert ((pre ++ junk :: ptr_cells (l :: ls)) !! (0 + S (length pre))%nat = Some (VPtr (Some (l, 0%nat)))) as Hlk.
    { rewrite lookup_app_r /=; [|lia]. by replace (S (length pre) - length pre)%nat with 1%nat by lia. }
    assert (length (pre ++ junk :: ptr_cells (l :: ls)) = (length pre + 2 + length ls)%nat) as Hlen.
    { rewrite length_app /= length_ptr_cells. lia. }
    destruct (_ =? n - 1) eqn:E3; simpl negb; cbv iota.
    + zbool. assert (ls = []) as -> by (apply length_zero_iff_nil; simpl in *; lia). destruct xs; [|done].
      wpc_bind. iApply (wpc_load_ptr with "Hv"); [done|]. iIntros "Hv".
      wpc_bind. iApply (wpc_strlen with "Hx"); [by apply str_in_cells|]. iIntros "Hx".
      rewrite s32_int; [|unfold is_int, INT_MIN; lia].
      wpc_bind. iApply wpc_malloc_z; [lia|]. iIntros (l2) "Hl2".
      wpc_bind. iApply (wpc_memset with "Hl2"); [by rewrite length_replicate|]. iIntros "Hl2".
      wpc_bind. iApply (wpc_load_ptr with "Hv"); [done|]. iIntros "Hv".
      wpc_bind. iApply (wpc_strcpy with "Hl2 Hx"); [by apply str_in_cells|rewrite length_replicate; lia|].
      iIntros "Hl2 Hx". wpc_bind. iApply (wpc_load_ptr with "Hv"); [done|]. iIntros "Hv".
      wpc_bind. iApply (wpc_free with "Hx"). iApply (wpc_store with "Hv"); [rewrite Hlen; lia|]. iIntros "Hv".
      wpc_ret. iApply ("HΦ" $! [l2] with "[%] Hv [$Hl2 $Hr]"). rewrite length_insert Hlen /=. split; [lia|].
      rewrite insert_mid; [|done]. rewrite take_app_ge; [|lia]. by replace (_ - _)%nat with 1%nat by lia.
    + wpc_bind. iApply (wpc_load with "Hv"); [done|]. iIntros "Hv".
      iApply (wpc_store with "Hv"); [rewrite Hlen; lia|]. iIntros "Hv".
      rewrite insert_mid; [|done]. rewrite cons_middle app_assoc.
      replace (Z.of_nat (S (length pre)) + 1) with (Z.of_nat (length (pre ++ [VPtr (Some (l, 0%nat))])) + 1)
        by (rewrite length_app /=; lia).
      iApply (IH with "Hv Hr"); [done|rewrite length_app; simpl in *; lia|rewrite length_app; lia|].
      iIntros (ls' b [Hb1 Hb2]) "Hv Hr". iApply ("HΦ" $! (l :: ls') with "[%] Hv [$Hx $Hr]").
      rewrite length_app /= in Hb1, Hb2. split; [simpl; lia|]. cbn [length].
      replace (length pre + S (length ls))%nat with (length pre + 1 + length ls)%nat by lia.
      by rewrite Hb2 -app_assoc.
Qed.

Lemma rows_own_app ls xs1 xs2 : rows_own ls (xs1 ++ xs2) ⊢
  ∃ ls1 ls2, ⌜ls = ls1 ++ ls2 /\ length ls1 = length xs1⌝ ∧ (rows_own ls1 xs1 ∗ rows_own ls2 xs2).
Proof.
  iIntros "H". iDestruct (big_sepL2_app_inv_r with "H") as (ls1 ls2 ->) "[H1 H2]".
  iDestruct (rows_own_length with "H1") as %Hl. iExists ls1, ls2. by iFrame.
Qed.

(** The whole loop: the element after [xs1] goes. *)
Lemma wpc_erase_loop lv ls xs1 x xs2 w Φ :
  Forall good_string xs2 ->
  own_block lv (ptr_cells ls) -∗ rows_own ls (xs1 ++ x :: xs2) -∗
  (∀ ls' b, ⌜length b = length ls /\ take (length xs1 + length xs2) b = ptr_cells ls'⌝ →
     own_block lv b -∗ rows_own ls' (xs1 ++ xs2) -∗ Φ tt w) -∗
  wpc (for_loop (length ls) 0 (erase_string_step (Z.of_nat (length ls)) (Some (lv, 0%nat)) (Z.of_nat (length xs1)))) w Φ.
Proof.
  iIntros (Hg) "Hv Hr HΦ". iDestruct (rows_own_app with "Hr") as (ls1 ls2) "(%Hls & Hr1 & Hr2)". destruct Hls as [-> H1].
  iDestruct (rows_own_length with "Hr2") as %H2. destruct ls2 as [|l ls2]; [done|].
  iDestruct "Hr2" as "[Hx Hr2]". injection H2 as H2.
  rewrite length_app. iApply wpc_for_app. iApply wpc_for_skip.
  { intros k Hk. unfold erase_string_step. destruct (_ <? _) eqn:E; [done|zbool; lia]. }
  cbn [length for_loop]. rewrite Z.add_0_l. wpc_bind. unfold erase_string_step at 1. rewrite H1 Z.ltb_irrefl Z.eqb_refl.
  wpc_bind. iApply (wpc_load_ptr with "Hv").
  { rewrite list_lookup_fmap list_lookup_middle; [done|by rewrite H1]. }
  iIntros "Hv". iApply (wpc_free with "Hx"). unfold ptr_cells. rewrite fmap_app fmap_cons -/(ptr_cells ls1) -/(ptr_cells ls2).
  replace (Z.of_nat (length xs1) + 1) with (Z.of_nat (length (ptr_cells ls1)) + 1) by (rewrite length_ptr_cells; lia).
  iApply (wpc_shift with "Hv Hr2"); [done|rewrite length_ptr_cells; lia|rewrite length_ptr_cells; lia|].
  iIntros (ls' b [Hb1 Hb2]) "Hv Hr2". rewrite length_ptr_cells H1 H2 in Hb1 Hb2.
  iApply ("HΦ" $! (ls1 ++ ls') with "[%] Hv [Hr1 Hr2]").
  - rewrite Hb1. split; [simpl; lia|]. by rewrite Hb2 /ptr_cells fmap_app.
  - iApply (big_sepL2_app with "Hr1 Hr2").
Qed.

(** Erasing closes the gap; the array of an empty vector is freed. *)
Lemma erase_string_spec v xs1 x xs2 w Φ :
  Forall good_string xs2 -> Z.of_nat (length (xs1 ++ x :: xs2)) <= INT_MAX ->
  strings_own v (xs1 ++ x :: xs2) -∗
  (∀ v', strings_own v' (xs1 ++ xs2) -∗ Φ (if bool_decide (xs1 ++ xs2 = []) then 1 else 0, v') w) -∗
  wpc (VECTOR_EraseString (Z.of_nat (length (xs1 ++ x :: xs2))) v (Z.of_nat (length xs1))) w Φ.
Proof.
  iIntros (Hg Hlen) "Hv HΦ".
  iDestruct (strings_own_inv with "Hv") as (lv ls) "(-> & %Hls & Hv & Hr)"; [by destruct xs1|].
  rewrite -Hls in Hlen |- *. rewrite length_app /= in Hls. unfold VECTOR_EraseString.
  wpc_bind. iApply wpc_int; [unfold is_int, INT_MIN; lia|].
  destruct (_ <? 0) eqn:E1; [zbool; lia|]. destruct (_ <=? _) eqn:E2; [zbool; lia|].
  destruct (Z.of_nat (length xs1) <? 0) eqn:E3; [zbool; lia|]. cbn [orb].
  wpc_bind. wpc_ret. wpc_bind. rewrite Nat2Z.id. iApply (wpc_erase_loop with "Hv Hr"); [done|].
  iIntros (ls' b [Hb1 Hb2]) "Hv Hr". iDestruct (rows_own_length with "Hr") as %Hls'.
  destruct (_ =? 0) eqn:E4; zbool.
  - assert (xs1 ++ xs2 = []) as -> by (apply length_zero_iff_nil; rewrite length_app; lia).
    destruct ls'; [|done]. rewrite bool_decide_eq_true_2; [|done].
    wpc_bind. iApply (wpc_free with "Hv"). wpc_ret. by iApply "HΦ".
  - assert (xs1 ++ xs2 <> []) as Hne by (intros H0%(f_equal length); rewrite length_app /= in H0; lia).
    rewrite bool_decide_eq_false_2; [|done]. wpc_bind. unfold realloc_z. destruct (_ <? 0) eqn:E5; [zbool; lia|].
    iApply (wpc_realloc with "Hv"). iIntros (l') "Hv". wpc_ret. iApply "HΦ".
    replace (Z.to_nat (Z.of_nat (length ls) - 1)) with (length xs1 + length xs2)%nat by lia.
    rewrite Hb2. replace (length xs1 + length xs2 - length b)%nat with 0%nat by lia. rewrite app_nil_r.
    by iApply (strings_own_some with "Hv Hr").
Qed.

(** The rejected calls change nothing. *)
Lemma erase_string_rejects rowc v index w Φ :
  is_int (rowc - 1) -> rowc <= 0 \/ index < 0 \/ rowc <= index ->
  Φ (if rowc <=? 0 then -1 else -2, v) w ⊢ wpc (VECTOR_EraseString rowc v index) w Φ.
Proof.
  iIntros (Hr Hi) "HΦ". wpc_bind. iApply wpc_int; [done|].
  destruct (rowc <=? 0) eqn:E, (rowc - 1 <? 0) eqn:E1; zbool; try lia; [by wpc_ret|].
  destruct (rowc <=? index) eqn:E2, (index <? 0) eqn:E3; zbool; try lia; by wpc_ret.
Qed.

(** Access to one string. *)
Lemma rows_own_acc ls xs i l x : ls !! i = Some l -> xs !! i = Some x ->
  rows_own ls xs ⊢ own_block l (str_cells x) ∗ (own_block l (str_cells x) -∗ rows_own ls xs).
Proof. intros Hl Hx. exact (big_sepL2_lookup_acc (fun _ l x => own_block l (str_cells x)) ls xs i l x Hl Hx). Qed.

Lemma ptr_cells_lookup ls i l : ls !! i = Some l -> ptr_cells ls !! i = Some (VPtr (Some (l, 0%nat))).
Proof. intros Hl. unfold ptr_cells. by rewrite list_lookup_fmap Hl. Qed.

(** Freeing the strings and the array, as the programs do at their end. *)
Lemma wpc_free_rows lv ls xs (body : Z -> C unit) w Φ :
  (forall i, body i = (v ← mret (Some (lv, 0%nat)); p ← load_ptr v i; free p)) ->
  own_block lv (ptr_cells ls) -∗ rows_own ls xs -∗ (own_block lv (ptr_cells ls) -∗ Φ tt w) -∗
  wpc (for_loop (length ls) 0 body) w Φ.
Proof.
  intros Hb. cut (forall k, (k <= length ls)%nat -> ⊢ own_block lv (ptr_cells ls) -∗ rows_own (drop k ls) (drop k xs) -∗
    (own_block lv (ptr_cells ls) -∗ Φ tt w) -∗ wpc (for_loop (length (drop k ls)) (Z.of_nat k) body) w Φ).
  { intros H. iIntros "Hv Hr HΦ". iApply (H 0%nat with "Hv Hr HΦ"). lia. }
  intros k. remember (length (drop k ls)) as n eqn:Hn. revert k Hn. induction n as [|n IH]; intros k Hn Hk.
  - iIntros "Hv Hr HΦ". iDestruct (rows_own_length with "Hr") as %Hl.
    apply eq_sym, length_zero_iff_nil in Hn. rewrite Hn in Hl |- *. destruct (drop k xs); [|done].
    wpc_ret. by iApply "HΦ".
  - iIntros "Hv Hr HΦ". destruct (drop k ls) as [|l ls'] eqn:El; [done|]. injection Hn as Hn.
    assert (ls !! k = Some l) as Hlk by (by rewrite -(Nat.add_0_r k) -lookup_drop El).
    assert (drop (S k) ls = ls') as El' by (by rewrite -Nat.add_1_r -drop_drop El).
    iDestruct (rows_own_length with "Hr") as %Hl. destruct (drop k xs) as [|x xs'] eqn:Ex; [done|].
    assert (drop (S k) xs = xs') as Ex' by (by rewrite -Nat.add_1_r -drop_drop Ex).
    iDestruct "Hr" as "[Hx Hr]". cbn [for_loop]. wpc_bind. rewrite Hb. wpc_bind. wpc_ret.
    wpc_bind. iApply (wpc_load_ptr with "Hv"); [by apply ptr_cells_lookup|]. iIntros "Hv".
    iApply (wpc_free with "Hx"). replace (Z.of_nat k + 1) with (Z.of_nat (S k)) by lia.
    rewrite -El' -Ex'. iApply (IH (S k) with "Hv Hr HΦ"); [by rewrite El'|apply lookup_lt_Some in Hlk; lia].
Qed.

(** ** Integers *)

Lemma ints_own_some lv ns : ns <> [] -> own_block lv (VInt <$> ns) ⊢ ints_own (VPtr (Some (lv, 0%nat))) ns.
Proof. iIntros (Hx) "Hv". destruct ns; [done|]. iExists lv. by iFrame. Qed.
Lemma ints_own_inv v ns : ns <> [] -> ints_own v ns ⊢
  ∃ lv, ⌜v = VPtr (Some (lv, 0%nat))⌝ ∧ own_block lv (VInt <$> ns).
Proof. by destruct ns. Qed.

Lemma push_int_spec v (ns : list Z) n w Φ : Z.of_nat (length ns) < INT_MAX ->
  ints_own v ns -∗ (∀ v', ints_own v' (ns ++ [n]) -∗ Φ (0, v') w) -∗
  wpc (VECTOR_PushBackInt (Z.of_nat (length ns)) v n) w Φ.
Proof.
  iIntros (Hlen) "Hv HΦ". wpc_bind. iApply wpc_int; [unfold is_int, INT_MIN; lia|]. wpc_bind.
  iAssert (wpc (if Z.of_nat (length ns) =? 0 then malloc_z (Z.of_nat (length ns) + 1)
                else v' ← as_ptr v; realloc_z v' (Z.of_nat (length ns) + 1)) w
    (fun p w' => ∃ lv, ⌜p = Some (lv, 0%nat) /\ w' = w⌝ ∧ own_block lv ((VInt <$> ns) ++ [VUndef])))%I
    with "[Hv]" as "H".
  { destruct ns as [|n0 ns].
    - iApply wpc_malloc_z; [lia|]. iIntros (l) "Hl". iAssert emp%I with "Hv" as "_". iExists l. by iFrame.
    - iDestruct (ints_own_inv with "Hv") as (lv) "[-> Hv]"; [done|]. wpc_bind. wpc_ret.
      unfold realloc_z. destruct (_ <? 0) eqn:E; [zbool; lia|].
      iApply (wpc_realloc with "Hv"). iIntros (l) "Hl". iExists l.
      replace (Z.to_nat _) with (S (length (n0 :: ns))) by (simpl; lia).
      rewrite replicate_end; [|by rewrite length_fmap]. by iFrame. }
  iApply (wpc_wand with "H"). iIntros (p w') "(%lv & %E & Hl)". destruct E as [-> ->].
  wpc_bind. iApply (wpc_store with "Hl"); [rewrite length_app length_fmap /=; lia|]. iIntros "Hl".
  rewrite Nat.add_0_l insert_mid; [|by rewrite length_fmap]. wpc_ret. iApply "HΦ".
  iApply ints_own_some; [by destruct ns|]. by rewrite fmap_app.
Qed.

Lemma wpc_shift_ints lv pre junk (ns : list val) index w Φ :
  index <= Z.of_nat (length pre) ->
  own_block lv (pre ++ junk :: ns) -∗
  (∀ b, ⌜length b = (length pre + 1 + length ns)%nat /\ take (length pre + length ns) b = pre ++ ns⌝ →
     own_block lv b -∗ Φ tt w) -∗
  wpc (for_loop (length ns) (Z.of_nat (length pre) + 1) (erase_int_step (Some (lv, 0%nat)) index)) w Φ.
Proof.
  revert pre junk. induction ns as [|n ns IH]; intros pre junk Hi; iIntros "Hv HΦ".
  - wpc_ret. iApply ("HΦ" with "[%] Hv"). rewrite length_app /=. split; [lia|].
    by rewrite Nat.add_0_r take_app_length app_nil_r.
  - cbn [length for_loop]. wpc_bind. unfold erase_int_step at 1. destruct (_ <=? _) eqn:E1; [zbool; lia|].
    replace (Z.of_nat (length pre) + 1 - 1) with (Z.of_nat (length pre)) by lia.
    replace (Z.of_nat (length pre) + 1) with (Z.of_nat (S (length pre))) by lia.
    wpc_bind. iApply (wpc_load with "Hv").
    { rewrite lookup_app_r /=; [|lia]. by replace (S (length pre) - length pre)%nat with 1%nat by lia. }
    iIntros "Hv". iApply (wpc_store with "Hv"); [rewrite length_app /=; lia|]. iIntros "Hv".
    rewrite insert_mid; [|done].
    assert (pre ++ n :: n :: ns = (pre ++ [n]) ++ n :: ns) as -> by (by rewrite -app_assoc).
    replace (Z.of_nat (S (length pre)) + 1) with (Z.of_nat (length (pre ++ [n])) + 1) by (rewrite length_app /=; lia).
    iApply (IH with "Hv"); [rewrite length_app; lia|]. iIntros (b [Hb1 Hb2]) "Hv".
    iApply ("HΦ" with "[%] Hv"). rewrite length_app /= in Hb1, Hb2. split; [simpl; lia|]. cbn [length].
    replace (length pre + S (length ns))%nat with (length pre + 1 + length ns)%nat by lia.
    by rewrite Hb2 -app_assoc.
Qed.

Lemma erase_int_spec v ns1 n ns2 w Φ : Z.of_nat (length (ns1 ++ n :: ns2)) <= INT_MAX ->
  ints_own v (ns1 ++ n :: ns2) -∗
  (∀ v', ints_own v' (ns1 ++ ns2) -∗ Φ (if bool_decide (ns1 ++ ns2 = []) then 1 else 0, v') w) -∗
  wpc (VECTOR_EraseInt (Z.of_nat (length (ns1 ++ n :: ns2))) v (Z.of_nat (length ns1))) w Φ.
Proof.
  iIntros (Hlen) "Hv HΦ".
  iDestruct (ints_own_inv with "Hv") as (lv) "(-> & Hv)"; [by destruct ns1|].
  rewrite length_app /= in Hlen |- *. unfold VECTOR_EraseInt.
  wpc_bind. iApply wpc_int; [unfold is_int, INT_MIN; lia|].
  destruct (_ <? 0) eqn:E1; [zbool; lia|]. destruct (_ <=? _) eqn:E2; [zbool; lia|].
  destruct (Z.of_nat (length ns1) <? 0) eqn:E3; [zbool; lia|]. cbn [orb].
  wpc_bind. wpc_ret. wpc_bind. rewrite Nat2Z.id fmap_app fmap_cons.
  replace (length ns1 + S (length ns2))%nat with (S (length ns1) + length ns2)%nat by lia.
  iApply (wpc_for_app (S (length ns1)) (length ns2)). iApply wpc_for_skip.
  { intros k Hk. unfold erase_int_step. destruct (k <=? Z.of_nat (length ns1)) eqn:E; [done|zbool; lia]. }
  replace (0 + Z.of_nat (S (length ns1))) with (Z.of_nat (length (VInt <$> ns1)) + 1) by (rewrite length_fmap; lia).
  rewrite -(length_fmap VInt ns2). iApply (wpc_shift_ints with "Hv"); [rewrite length_fmap; lia|].
  iIntros (b [Hb1 Hb2]) "Hv". rewrite !length_fmap in Hb1 Hb2 |- *.
  destruct (_ =? 0) eqn:E4; zbool.
  - assert (ns1 ++ ns2 = []) as -> by (apply length_zero_iff_nil; rewrite length_app; lia).
    rewrite bool_decide_eq_true_2; [|done]. wpc_bind. iApply (wpc_free with "Hv"). wpc_ret. by iApply "HΦ".
  - assert (ns1 ++ ns2 <> []) as Hne by (intros H0%(f_equal length); rewrite length_app /= in H0; lia).
    rewrite bool_decide_eq_false_2; [|done]. wpc_bind. unfold realloc_z. destruct (_ <? 0) eqn:E5; [zbool; lia|].
    iApply (wpc_realloc with "Hv"). iIntros (l') "Hv". wpc_ret. iApply "HΦ".
    replace (Z.to_nat _) with (length ns1 + length ns2)%nat by lia. rewrite Hb2.
    replace (length ns1 + length ns2 - length b)%nat with 0%nat by lia. rewrite app_nil_r -fmap_app.
    by iApply (ints_own_some with "Hv").
Qed.
End proofs.

(** ** Refinement of lists

    A client of the vector keeps the number of elements, as the programs do. Each operation
    returns what it returns on a list of strings, and at any time the memory holds exactly
    the array and one block for each string. *)

Inductive op := Push (x : list Z) | Erase (i : Z).

Definition run_op (o : op) (count : Z) (vec : val) : C (Z * (Z * val)) :=
  match o with
  | Push x =>
      p ← new_block (str_cells x);
      '(r, vec') ← VECTOR_PushBackString count vec p;
      free p;; mret (r, (count + 1, vec'))
  | Erase i =>
      '(r, vec') ← VECTOR_EraseString count vec i;
      mret (r, (if r <? 0 then count else count - 1, vec'))
  end.

Fixpoint run_ops (os : list op) (count : Z) (vec : val) : C (list Z * (Z * val)) :=
  match os with
  | [] => mret ([], (count, vec))
  | o :: os' =>
      '(r, (count', vec')) ← run_op o count vec;
      '(rs, st) ← run_ops os' count' vec';
      mret (r :: rs, st)
  end.

(** The operations on lists. *)
Definition spec_op (o : op) (xs : list (list Z)) : Z * list (list Z) :=
  match o with
  | Push x => (0, xs ++ [x])
  | Erase i =>
      if bool_decide (xs = []) then (-1, xs)
      else if (i <? 0) || (size xs <=? i) then (-2, xs)
      else let xs' := delete (Z.to_nat i) xs in (if bool_decide (xs' = []) then 1 else 0, xs')
  end.

Fixpoint spec_ops (os : list op) (xs : list (list Z)) : list Z * list (list Z) :=
  match os with
  | [] => ([], xs)
  | o :: os' => let '(r, xs') := spec_op o xs in let '(rs, xs2) := spec_ops os' xs' in (r :: rs, xs2)
  end.

Definition good_op (o : op) : Prop := match o with Push x => good_string x | Erase i => is_int i end.

Lemma erase_op_spec i xs v w : Forall good_string xs -> Z.of_nat (length xs) <= INT_MAX ->
  strings_own v xs ⊢ wpc (VECTOR_EraseString (size xs) v i) w (fun '(r, v') w' =>
    ⌜r = (spec_op (Erase i) xs).1 /\ w' = w⌝ ∧ strings_own v' (spec_op (Erase i) xs).2).
Proof.
  intros Hg Hlen. unfold spec_op, size. case_bool_decide as Hn.
  - subst xs. rewrite -erase_string_rejects; [by iIntros "$"|by vm_compute|simpl; lia].
  - destruct (i <? 0) eqn:E1; [|destruct (_ <=? i) eqn:E2]; zbool; cbn [orb fst snd].
    + rewrite -erase_string_rejects; [|unfold is_int, INT_MIN; lia|lia].
      destruct (_ <=? 0) eqn:E; [zbool; by destruct xs|by iIntros "$"].
    + rewrite -erase_string_rejects; [|unfold is_int, INT_MIN; lia|lia].
      destruct (_ <=? 0) eqn:E; [zbool; by destruct xs|by iIntros "$"].
    + destruct (list_cut (Z.to_nat i) xs) as (xs1 & xs2 & -> & H1); [lia|]. rewrite length_app in E2 Hlen.
      destruct xs2 as [|x xs2]; [simpl in *; lia|].
      apply Forall_app in Hg as [_ Hg]. apply Forall_cons in Hg as [_ Hg].
      rewrite -H1 delete_middle. replace i with (Z.of_nat (length xs1)) by lia.
      iIntros "Hv". iApply (erase_string_spec with "Hv"); [done|rewrite length_app; lia|].
      iIntros (v') "Hv". by iFrame.
Qed.

Lemma spec_op_good o xs : good_op o -> Forall good_string xs -> Forall good_string (spec_op o xs).2.
Proof.
  destruct o; intros Ho Hg; cbn [spec_op snd].
  - apply Forall_app_2; [done|]. by constructor.
  - repeat case_match; simpl; try done; by apply Forall_delete.
Qed.
Lemma spec_op_length o xs : (length (spec_op o xs).2 <= S (length xs))%nat.
Proof.
  destruct o; cbn [spec_op snd]; [rewrite length_app /=; lia|].
  case_bool_decide; [simpl; lia|]. destruct (_ || _) eqn:E; [simpl; lia|].
  apply orb_false_iff in E as [??]. unfold size in *. zbool. cbn [snd].
  rewrite length_delete; [lia|]. apply lookup_lt_is_Some_2. lia.
Qed.

Lemma run_op_spec o xs v w :
  good_op o -> Forall good_string xs -> Z.of_nat (length xs) < INT_MAX ->
  strings_own v xs ⊢ wpc (run_op o (size xs) v) w (fun '(r, (count, v')) w' =>
    ⌜r = (spec_op o xs).1 /\ count = size (spec_op o xs).2 /\ w' = w⌝ ∧ strings_own v' (spec_op o xs).2).
Proof.
  intros Ho Hg Hlen. destruct o as [x|i].
  - iIntros "Hv". wpc_bind. iApply wpc_new_block. iIntros (l) "Hl". wpc_bind.
    iApply (push_string_spec with "Hv Hl"); [done|apply str_in_cells, Ho|done|]. iIntros (v') "Hv Hl".
    wpc_bind. iApply (wpc_free with "Hl"). wpc_ret. iFrame. iPureIntro. split_and!; try done.
    unfold size. cbn [spec_op snd]. rewrite length_app /=. lia.
  - iIntros "Hv". wpc_bind. iDestruct (erase_op_spec i xs v w with "Hv") as "H"; [done|lia|].
    iApply (wpc_wand with "H"). iIntros ([r v'] w') "[%E Hv]". destruct E as [-> ->].
    wpc_ret. iFrame. iPureIntro. split_and!; try done. unfold spec_op, size.
    case_bool_decide as E0; [done|]. destruct (_ || _) eqn:E; [done|]. apply orb_false_iff in E as [??].
    unfold size in *. zbool. cbn [fst snd]. rewrite length_delete; [|apply lookup_lt_is_Some_2; lia].
    case_bool_decide; simpl; lia.
Qed.

Lemma run_ops_spec os xs v w :
  Forall good_op os -> Forall good_string xs -> Z.of_nat (length xs + length os) < INT_MAX ->
  strings_own v xs ⊢ wpc (run_ops os (size xs) v) w (fun '(rs, (count, v')) w' =>
    ⌜rs = (spec_ops os xs).1 /\ count = size (spec_ops os xs).2 /\ w' = w⌝ ∧ strings_own v' (spec_ops os xs).2).
Proof.
  intros Ho. revert xs v. induction Ho as [|o os Ho Hos IH]; intros xs v Hg Hlen; iIntros "Hv".
  - wpc_ret. by iFrame.
  - cbn [length] in Hlen. wpc_bind. iDestruct (run_op_spec o xs v w with "Hv") as "H"; [done|done|lia|].
    iApply (wpc_wand with "H"). iIntros ([r [count v']] w') "[%E Hv]". destruct E as (-> & -> & ->).
    wpc_bind. iDestruct (IH with "Hv") as "H"; [by apply spec_op_good|pose proof (spec_op_length o xs); lia|].
    iApply (wpc_wand with "H"). iIntros ([rs [count v2]] w') "[%E Hv]". destruct E as (-> & -> & ->).
    wpc_ret. cbn [spec_ops]. destruct (spec_op o xs) as [r xs']. cbn [fst snd]. destruct (spec_ops os xs') as [rs xs2]. by iFrame.
Qed.

(** C13: any sequence of pushes and erases on an uninitialised vector returns what it returns on
    a list of strings, rejected erases included, and then the memory consists of exactly the
    array and a copy of each string of the list: nothing is lost, shared or kept. *)
Theorem string_vector_refines_list os w :
  Forall good_op os -> Z.of_nat (length os) < INT_MAX ->
  exists v h, run_ops os 0 VUndef (mem ∅ w) =
    Ok (((spec_ops os []).1, (size (spec_ops os []).2, v)), mem h w) /\
    holds (strings_own v (spec_ops os []).2) h.
Proof.
  intros Ho Hlen. destruct (wpc_run (run_ops os 0 VUndef) w _ (run_ops_spec os [] VUndef w Ho (Forall_nil_2 _) Hlen))
    as ([rs [count v]] & w' & h & E & H).
  apply holds_pure_and in H as [(-> & -> & ->) H]. eauto.
Qed.

Definition demo : list op :=
  [Erase 0; Push [97]; Push [98; 98]; Push []; Erase 3; Erase 1; Push [99]; Erase 2; Erase 0; Erase 0].

Lemma string_vector_refines_list_witness :
  (spec_ops demo []).1 = [-1; 0; 0; 0; -2; 0; 0; 0; 0; 1] /\
  exists v h, run_ops demo 0 VUndef (mem ∅ (mk_world [] [] NULL)) =
    Ok (((spec_ops demo []).1, (size (spec_ops demo []).2, v)), mem h (mk_world [] [] NULL)) /\
    holds (strings_own v (spec_ops demo []).2) h.
Proof.
  split; [by vm_compute|]. apply string_vector_refines_list; [|by vm_compute].
  repeat constructor; try done; by intros ?.
Defined.
End Vec.
