(* ===== verification/Grep.v ===== *)
(** * The search tool

    src/grep: the lines of the standard input that contain a string are printed with
    their number, from the first match on. The structures of the program are records of
    the values of their fields, which start out indeterminate; [ferror] is the outcome of
    the call of that name. [fuel] bounds the loops over the input: one more than its
    length is enough. *)
From stdpp Require Import base numbers list gmap strings.
From iris.proofmode Require Import proofmode.
From S2P Require Import Prelude CBase CDecimal CHeap HeapLogic CStrings Vector.
Set Warnings "-rewrite-rw".
Local Open Scope Z_scope.

Module Grep.

Definition MAX_STDINPUT_WIDTH : Z := 1048576.

Inductive BITGREP_FLAG := FIND | EARG.
Record BITGREP_INPUT2D := mk_input2d { row_count : Z; buff_2d : val }.
Record BITGREP_FOUND := mk_found { found_count : Z; found_index : val; buff_found : val }.

(** The vectors are those of src/vector, copied. *)
Definition BITGREP_PushBackInt := Vec.VECTOR_PushBackInt.
Definition BITGREP_EraseInt := Vec.VECTOR_EraseInt.
Definition BITGREP_PushBackString := Vec.VECTOR_PushBackString.
Definition BITGREP_EraseString := Vec.VECTOR_EraseString.

Definition BITGREP_FlagParser (argc : Z) (argv : list ptr) : C (BITGREP_FLAG * val) :=
  if negb (argc =? 2) then mret (EARG, VUndef)
  else
    a1 ← lift (at_ argv 1);
    n ← strlen a1;
    let find_arg_len := s32 (n + 1) in
    target_string ← malloc_z find_arg_len;
    memset target_string 0 (Z.to_nat find_arg_len);;
    strcpy target_string a1;;
    mret (FIND, VPtr target_string).

(** The loop that collects the input; it leaves with [-1] when a buffer cannot grow. *)
Fixpoint read_loop (fuel : nat) (get_buffer buff_input : ptr) (total_input_size : Z) : C (ptr + Z) :=
  match fuel with
  | O => stfail OutOfFuel
  | S f =>
      r ← fgets get_buffer MAX_STDINPUT_WIDTH;
      match r with
      | None => mret (inl buff_input)
      | Some _ =>
          n ← strlen get_buffer;
          let total := u64 (total_input_size + n) in
          new ← realloc buff_input (Z.to_nat total);
          match new with
          | None => free buff_input;; mret (inr (-1))
          | Some _ => strcat new get_buffer;; read_loop f get_buffer new total
          end
      end
  end.

(** The body of the loop over the lines. *)
Definition add_row (line_ptr : ptr) (bg : BITGREP_INPUT2D) : C (BITGREP_INPUT2D + Z) :=
  '(status, v) ← BITGREP_PushBackString (row_count bg) (buff_2d bg) line_ptr;
  if status <? -1 then mret (inr (-3))
  else n ← int_c (row_count bg + 1); mret (inl (mk_input2d n v)).

Definition BITGREP_MapStdinTo2d (fuel : nat) (ferror : bool) (bg_in2d : BITGREP_INPUT2D) : C (Z * BITGREP_INPUT2D) :=
  get_buffer ← new_block (replicate (Z.to_nat MAX_STDINPUT_WIDTH) (VInt 0));
  buff ← malloc (Z.to_nat MAX_STDINPUT_WIDTH);
  memset buff 0 (Z.to_nat MAX_STDINPUT_WIDTH);;
  r ← read_loop fuel get_buffer buff 1;
  match r with
  | inr status => free get_buffer;; mret (status, bg_in2d)
  | inl buff_input =>
      if ferror then free buff_input;; free get_buffer;; mret (-2, bg_in2d)
      else
        r' ← strsep_loop 10 add_row fuel buff_input bg_in2d;
        match r' with
        | inr status => free get_buffer;; mret (status, bg_in2d)
        | inl bg' => free NULL;; free get_buffer;; mret (0, bg')
        end
  end.

(** The loop of the search over the rows from [i] on. *)
Fixpoint search_loop (n : nat) (i : Z) (target : ptr) (bg_in2d : BITGREP_INPUT2D) (bg_found : BITGREP_FOUND)
    : C (Z * BITGREP_FOUND) :=
  match n with
  | O => mret (0, bg_found)
  | S n' =>
      rows ← as_ptr (buff_2d bg_in2d);
      row ← load_ptr rows i;
      target_found ← strstr row target;
      match target_found with
      | None => search_loop n' (i + 1) target bg_in2d bg_found
      | Some _ =>
          '(status, vi) ← BITGREP_PushBackInt (found_count bg_found) (found_index bg_found) i;
          if status <? 0 then mret (-1, bg_found)
          else
            '(status', vs) ← BITGREP_PushBackString (found_count bg_found) (buff_found bg_found) target_found;
            if status' <? 0 then mret (-2, mk_found (found_count bg_found) vi (buff_found bg_found))
            else
              c ← int_c (found_count bg_found + 1);
              search_loop n' (i + 1) target bg_in2d (mk_found c vi vs)
      end
  end.

Definition BITGREP_PopulateSearchResult (target : ptr) (bg_in2d : BITGREP_INPUT2D) (bg_found : BITGREP_FOUND)
    : C (Z * BITGREP_FOUND) :=
  search_loop (Z.to_nat (row_count bg_in2d)) 0 target bg_in2d bg_found.

Definition BITGREP_PrintFound (bg_found : BITGREP_FOUND) : C unit :=
  for_loop (Z.to_nat (found_count bg_found)) 0 (fun i =>
    vi ← as_ptr (found_index bg_found);
    n ← load_int vi i;
    emit (chars "[ " ++ dec n ++ chars " ]: ");;
    vs ← as_ptr (buff_found bg_found);
    p ← load_ptr vs i;
    emit_string p;; emit [10]).

Definition BITGREP_Clear (target_string : val) (bg_in2d : BITGREP_INPUT2D) (bg_found : BITGREP_FOUND) : C unit :=
  t ← as_ptr target_string; free t;;
  for_loop (Z.to_nat (row_count bg_in2d)) 0 (fun i =>
    rows ← as_ptr (buff_2d bg_in2d); p ← load_ptr rows i; free p);;
  rows ← as_ptr (buff_2d bg_in2d); free rows;;
  for_loop (Z.to_nat (found_count bg_found)) 0 (fun i =>
    vs ← as_ptr (buff_found bg_found); p ← load_ptr vs i; free p);;
  vi ← as_ptr (found_index bg_found); free vi;;
  vs ← as_ptr (buff_found bg_found); free vs.

Definition main (fuel : nat) (ferror : bool) (argc : Z) (argv : list ptr) : C Z :=
  '(flag, target_string) ← BITGREP_FlagParser argc argv;
  let bg_in2d := mk_input2d 0 VUndef in
  let bg_found := mk_found 0 VUndef VUndef in
  match flag with
  | EARG => mret (-1)
  | FIND =>
      '(status, bg_in2d) ← BITGREP_MapStdinTo2d fuel ferror bg_in2d;
      if status <? 0 then mret (-2)
      else
        t ← as_ptr target_string;
        '(status, bg_found) ← BITGREP_PopulateSearchResult t bg_in2d bg_found;
        if status <? 0 then mret (-3)
        else
          BITGREP_PrintFound bg_found;;
          BITGREP_Clear target_string bg_in2d bg_found;;
          mret 0
  end.

(** ** What is printed *)

(** The rows that contain [t], with their numbers, from the match on. *)
Fixpoint matches (t : list Z) (i : Z) (rows : list (list Z)) : list (Z * list Z) :=
  match rows with
  | [] => []
  | x :: rows' =>
      match find_sub t x with
      | Some k => (i, drop k x) :: matches t (i + 1) rows'
      | None => matches t (i + 1) rows'
      end
  end.

Definition report (ms : list (Z * list Z)) : list Z :=
  ms ≫= (fun m => chars "[ " ++ dec m.1 ++ chars " ]: " ++ m.2 ++ [10]).

(** ** Proofs *)
Section proofs.
Import Vec.
Implicit Types (w : world) (t x : list Z) (xs : list (list Z)).

(** The size of the buffers as a number that is never unfolded. *)
Context (W : nat) (HW : Z.of_nat W = MAX_STDINPUT_WIDTH).
Lemma MAX_ge : 2 <= MAX_STDINPUT_WIDTH.
Proof. done. Qed.
#[local] Opaque MAX_STDINPUT_WIDTH.

Lemma flag_parser_spec la ba p0 t w Φ : good_string t -> str_in ba 0 t ->
  own_block la ba -∗
  (∀ lt, own_block la ba -∗ own_block lt (str_cells t) -∗ Φ (FIND, VPtr (Some (lt, 0%nat))) w) -∗
  wpc (BITGREP_FlagParser 2 [p0; Some (la, 0%nat)]) w Φ.
Proof.
  iIntros ([Hn Ht] Hin) "Ha HΦ". unfold BITGREP_FlagParser. cbn [negb Z.eqb Pos.eqb].
  wpc_bind. wpc_ret. wpc_bind. iApply (wpc_strlen with "Ha"); [done|]. iIntros "Ha".
  rewrite s32_int; [|unfold is_int, INT_MIN; lia]. wpc_bind. iApply wpc_malloc_z; [lia|]. iIntros (lt) "Hl".
  wpc_bind. iApply (wpc_memset with "Hl"); [by rewrite length_replicate|]. iIntros "Hl".
  wpc_bind. iApply (wpc_strcpy with "Hl Ha"); [done|rewrite length_replicate; lia|]. iIntros "Hl Ha".
  wpc_ret. iApply ("HΦ" with "Ha Hl").
Qed.

(** The input, collected line by line. *)
Lemma read_loop_spec fuel lg bg lb b acc w Φ :
  length bg = W -> str_in b 0 acc -> no_nul (stdin w) ->
  (length (stdin w) < fuel)%nat -> Z.of_nat (length acc + length (stdin w)) < INT_MAX ->
  own_block lg bg -∗ own_block lb b -∗
  (∀ bg' lb' b', ⌜length bg' = W /\ str_in b' 0 (acc ++ stdin w)⌝ →
     own_block lg bg' -∗ own_block lb' b' -∗
     Φ (inl (Some (lb', 0%nat))) (mk_world [] (stdout w) (strtok_next w))) -∗
  wpc (read_loop fuel (Some (lg, 0%nat)) (Some (lb, 0%nat)) (Z.of_nat (length acc) + 1)) w Φ.
Proof.
  revert bg lb b acc w. induction fuel as [|f IH]; intros bg lb b acc w Hg Hb Hn Hf Hlen; [lia|].
  iIntros "Hg Hb HΦ". cbn [read_loop]. pose proof MAX_ge. wpc_bind. destruct (decide (stdin w = [])) as [Ein|Hne].
  - iApply wpc_fgets_eof; [lia|done|]. wpc_ret.
    destruct w as [i o nx]. simpl in Ein. subst i. iApply ("HΦ" with "[%] Hg Hb").
    by rewrite app_nil_r.
  - set (line := chunk (Z.to_nat (MAX_STDINPUT_WIDTH - 1)) (stdin w)).
    destruct (length_chunk (Z.to_nat (MAX_STDINPUT_WIDTH - 1)) (stdin w)) as [Hl1 Hl2].
    pose proof (chunk_nonempty (Z.to_nat (MAX_STDINPUT_WIDTH - 1)) (stdin w) ltac:(lia) Hne) as Hl3.
    assert (no_nul line) as Hnl by (by apply chunk_no_nul). fold line in Hl1, Hl2, Hl3.
    iApply (wpc_fgets with "Hg"); [lia|done|fold line; lia|].
    fold line. iIntros "Hg". set (bg' := splice 0 (str_cells line) bg).
    assert (length bg' = W) as Hg' by (unfold bg'; rewrite length_splice; [done|rewrite length_str_cells; lia]).
    assert (str_in bg' 0 line) as Hline by (apply str_in_write; [done|lia]).
    wpc_bind. iApply (wpc_strlen with "Hg"); [done|]. iIntros "Hg".
    replace (u64 _) with (Z.of_nat (length (acc ++ line)) + 1); last first.
    { rewrite length_app /u64 wrapu_small; unfold INT_MAX in *; lia. }
    wpc_bind. iApply (wpc_realloc with "Hb"). iIntros (lb') "Hb".
    set (n := Z.to_nat _). set (b1 := take n b ++ _).
    assert (length b1 = n) as Hb1 by (unfold b1; rewrite length_app length_take length_replicate; lia).
    assert (str_in b1 0 acc) as Hacc by (apply str_in_resize; [done|unfold n; rewrite length_app; lia]).
    wpc_bind. iApply (wpc_strcat with "Hb Hg"); [exact Hacc|done|rewrite Hb1 /n length_app; lia|]. iIntros "Hb Hg".
    iApply (IH with "Hg Hb"); [done| | | | |].
    + apply (str_in_append b1 0 acc line); [done|done|rewrite Hb1 /n length_app; lia].
    + by apply Forall_drop.
    + cbn [stdin]. rewrite length_drop. lia.
    + cbn [stdin]. rewrite length_drop length_app. lia.
    + cbn [stdin stdout strtok_next]. iIntros (bg2 lb2 b2 [H1 H2]) "Hg Hb". iApply ("HΦ" with "[%] Hg Hb").
      split; [done|]. rewrite -app_assoc {1}/line chunk_prefix -/line take_drop in H2. done.
Qed.

Lemma split_good (x : list Z) : no_nul x -> Z.of_nat (length x) < INT_MAX -> Forall good_string (split 10 x).
Proof.
  intros Hn Hl. destruct (split_bounds 10 x) as [_ H]. eapply Forall_impl; [exact H|].
  intros y [H1 H2]. split; [by apply H2|lia].
Qed.

(** One row more for each line. *)
Definition rows_inv (w1 : world) (toks : list (nat * list Z)) (bg : BITGREP_INPUT2D) (w : world) : hprop :=
  (⌜row_count bg = Z.of_nat (length toks) /\ w = w1⌝ ∧ strings_own (buff_2d bg) toks.*2)%I.

Lemma add_row_spec l all w1 toks off y rest bg w b :
  Forall good_string all -> Z.of_nat (length all) < INT_MAX ->
  toks.*2 ++ y :: rest = all -> str_in b off y ->
  rows_inv w1 toks bg w ∗ own_block l b ⊢ wpc (add_row (Some (l, off)) bg) w (fun r w' =>
    ∃ bg', ⌜r = inl bg'⌝ ∧ (rows_inv w1 (toks ++ [(off, y)]) bg' w' ∗ own_block l b)).
Proof.
  iIntros (Hgood Hcount <- Hy) "[[%Hb HI] Hl]". destruct Hb as [Hc ->]. apply Forall_app in Hgood as [_ Hgood].
  apply Forall_cons in Hgood as [Hgy _]. rewrite length_app length_fmap /= in Hcount.
  unfold add_row. wpc_bind. rewrite Hc -(length_fmap snd toks).
  iApply (push_string_spec with "HI Hl"); [done|done|rewrite length_fmap; lia|]. iIntros (v') "HI Hl".
  cbn [Z.ltb Z.compare]. wpc_bind. iApply wpc_int; [unfold is_int, INT_MIN; rewrite length_fmap; lia|]. wpc_ret.
  iExists _. iSplit; [done|]. iFrame "Hl". unfold rows_inv. cbn [row_count buff_2d]. rewrite fmap_app. iFrame "HI".
  iPureIntro. rewrite length_fmap length_app /=. repeat split; lia || done.
Qed.

(** The rows are the lines of the input; its buffer is not freed. *)
Lemma map_stdin_spec fuel w Φ :
  no_nul (stdin w) -> (length (stdin w) + 1 < fuel)%nat -> Z.of_nat (length (stdin w)) + 1 < INT_MAX ->
  (∀ v lb b, strings_own v (split 10 (stdin w)) -∗ own_block lb b -∗
     Φ (0, mk_input2d (size (split 10 (stdin w))) v) (mk_world [] (stdout w) (strtok_next w))) -∗
  wpc (BITGREP_MapStdinTo2d fuel false (mk_input2d 0 VUndef)) w Φ.
Proof.
  iIntros (Hn Hf Hlen) "HΦ". unfold BITGREP_MapStdinTo2d. pose proof MAX_ge.
  assert (Z.to_nat MAX_STDINPUT_WIDTH = W) as -> by lia.
  wpc_bind. iApply wpc_new_block. iIntros (lg) "Hg". wpc_bind. iApply wpc_malloc. iIntros (lb) "Hb".
  wpc_bind. iApply (wpc_memset with "Hb"); [by rewrite length_replicate|]. iIntros "Hb". wpc_bind.
  iApply (read_loop_spec fuel lg _ lb _ [] with "Hg Hb"); [by rewrite length_replicate| |done|lia|simpl; lia|].
  { apply str_in_zeros. lia. }
  iIntros (bg' lb' b' [Hg' Hb']) "Hg Hb". rewrite app_nil_l in Hb'. wpc_bind.
  set (all := split 10 (stdin w)). set (w1 := mk_world _ _ _).
  pose proof (split_good (stdin w) Hn ltac:(lia)) as Hgood. destruct (split_bounds 10 (stdin w)) as [Hcount _].
  iDestruct (wpc_strsep_loop 10 add_row lb' (rows_inv w1) all
    (fun toks off y rest bg w b => add_row_spec lb' all w1 toks off y rest bg w b Hgood ltac:(unfold all; lia))
    fuel 0%nat b' (stdin w) [] (mk_input2d 0 VUndef) w1 eq_refl Hb' Hf (Forall_nil_2 _) with "[$Hb]") as "H".
  { by iSplit. }
  iApply (wpc_wand with "H"). iIntros (r w2) "(%bg & %b2 & %toks & %off & %E & [[%Hc HI] Hl])".
  destruct E as (-> & Ht & _). destruct Hc as [Hc ->]. destruct bg as [n v]. cbn [row_count buff_2d] in *. subst n.
  wpc_bind. wpc_ret. wpc_bind. iApply (wpc_free with "Hg"). wpc_ret.
  rewrite /size -/all -Ht length_fmap. rewrite Ht. iApply ("HΦ" with "HI Hl").
Qed.

(** The search keeps the rows and collects the matches. *)
Lemma search_loop_spec lt t lv ls xs pre vi vs ms i w Φ :
  good_string t -> Forall good_string xs -> Z.of_nat (length pre + length xs) < INT_MAX ->
  (length ms <= length pre)%nat -> i = Z.of_nat (length pre) -> (ms = [] -> vi = VUndef /\ vs = VUndef) ->
  own_block lt (str_cells t) -∗ own_block lv (ptr_cells ls) -∗ rows_own ls (pre ++ xs) -∗
  ints_own vi ms.*1 -∗ strings_own vs ms.*2 -∗
  (∀ vi' vs', ⌜ms ++ matches t i xs = [] -> vi' = VUndef /\ vs' = VUndef⌝ →
     own_block lt (str_cells t) -∗ own_block lv (ptr_cells ls) -∗ rows_own ls (pre ++ xs) -∗
     ints_own vi' (ms ++ matches t i xs).*1 -∗ strings_own vs' (ms ++ matches t i xs).*2 -∗
     Φ (0, mk_found (size (ms ++ matches t i xs)) vi' vs') w) -∗
  wpc (search_loop (length xs) i (Some (lt, 0%nat)) (mk_input2d (size (pre ++ xs)) (VPtr (Some (lv, 0%nat))))
         (mk_found (size ms) vi vs)) w Φ.
Proof.
  intros Ht. revert pre vi vs ms i. induction xs as [|x xs IH]; intros pre vi vs ms i Hg Hlen Hms -> Hu;
    iIntros "Ht Hv Hr Hi Hs HΦ".
  - cbn [search_loop length matches]. rewrite !app_nil_r. wpc_ret. iApply ("HΦ" with "[%] Ht Hv Hr Hi Hs"). done.
  - apply Forall_cons in Hg as [Hx Hg]. cbn [search_loop length]. wpc_bind. wpc_ret.
    iDestruct (rows_own_length with "Hr") as %Hl. rewrite length_app in Hl. cbn [length] in Hl, Hlen.
    destruct (lookup_lt_is_Some_2 ls (length pre)) as [l Hlk]; [lia|].
    assert ((pre ++ x :: xs) !! length pre = Some x) as Hxk by (by apply list_lookup_middle).
    iDestruct (rows_own_acc _ _ _ _ _ Hlk Hxk with "Hr") as "[Hx Hr]".
    wpc_bind. iApply (wpc_load_ptr with "Hv"); [by apply ptr_cells_lookup|]. iIntros "Hv".
    wpc_bind. iApply (wpc_strstr with "Hx Ht"); [apply str_in_cells, Hx|apply str_in_cells, Ht|]. iIntros "Hx Ht".
    rewrite cons_middle app_assoc. cbn [matches]. destruct (find_sub t x) as [k|] eqn:Ek.
    + assert (k <= length x)%nat as Hk by (by apply find_sub_le in Ek).
      wpc_bind. rewrite {2}/size -(length_fmap fst ms). iApply (push_int_spec with "Hi"); [rewrite length_fmap; lia|].
      iIntros (vi') "Hi". cbn [Z.ltb Z.compare]. wpc_bind. cbn [found_count buff_found]. replace (size ms) with (Z.of_nat (length ms.*2)) by (by rewrite length_fmap).
      iApply (push_string_spec _ _ l (str_cells x) k (drop k x) with "Hs Hx"); [|apply (str_in_drop _ 0); [apply str_in_cells, Hx|done]|rewrite length_fmap; lia|].
      { destruct Hx as [Hx1 Hx2]. split; [by apply Forall_drop|rewrite length_drop; lia]. }
      iIntros (vs') "Hs Hx". cbn [Z.ltb Z.compare]. wpc_bind.
      iApply wpc_int; [unfold is_int, INT_MIN; rewrite length_fmap; lia|].
      iDestruct ("Hr" with "Hx") as "Hr".
      replace (Z.of_nat (length ms.*2) + 1) with (size (ms ++ [(Z.of_nat (length pre), drop k x)])); last first.
      { unfold size. rewrite length_app length_fmap /=. lia. }
      rewrite (cons_middle _ ms) app_assoc.
      iApply (IH with "Ht Hv Hr [Hi] [Hs] HΦ"); rewrite ?fmap_app ?length_app /=; try done || lia; by destruct ms.
    + iDestruct ("Hr" with "Hx") as "Hr".
      iApply (IH with "Ht Hv Hr Hi Hs HΦ"); rewrite ?length_app /=; done || lia.
Qed.

Lemma report_app ms1 ms2 : report (ms1 ++ ms2) = report ms1 ++ report ms2.
Proof. apply bind_app. Qed.

Lemma report_one i x : report [(i, x)] = chars "[ " ++ dec i ++ chars " ]: " ++ x ++ [10].
Proof. apply app_nil_r. Qed.

Lemma matches_good t i xs : Forall good_string xs -> Forall (fun m => good_string m.2) (matches t i xs).
Proof.
  intros H. revert i. induction H as [|x xs [H1 H2] _ IH]; intros i; cbn [matches]; [constructor|].
  destruct (find_sub t x); [constructor; [split|]|]; auto; [by apply Forall_drop|rewrite length_drop; lia].
Qed.

Lemma print_found_spec li lv ls ms w Φ : Forall (fun m => good_string m.2) ms ->
  own_block li (VInt <$> ms.*1) -∗ own_block lv (ptr_cells ls) -∗ rows_own ls ms.*2 -∗
  (own_block li (VInt <$> ms.*1) -∗ own_block lv (ptr_cells ls) -∗ rows_own ls ms.*2 -∗
     Φ tt (mk_world (stdin w) (stdout w ++ report ms) (strtok_next w))) -∗
  wpc (BITGREP_PrintFound (mk_found (size ms) (VPtr (Some (li, 0%nat))) (VPtr (Some (lv, 0%nat))))) w Φ.
Proof.
  iIntros (Hg) "Hi Hv Hr HΦ". unfold BITGREP_PrintFound, size. cbn [found_count found_index buff_found].
  rewrite Nat2Z.id. iDestruct (rows_own_length with "Hr") as %Hl. rewrite length_fmap in Hl.
  iApply (wpc_wand with "[Hi Hv Hr]"); [iApply (wpc_for (length ms) 0 _ (fun k w' =>
    ⌜w' = mk_world (stdin w) (stdout w ++ report (take k ms)) (strtok_next w)⌝ ∧
    (own_block li (VInt <$> ms.*1) ∗ own_block lv (ptr_cells ls) ∗ rows_own ls ms.*2))%I)|].
  - intros k w' Hk. iIntros "(-> & Hi & Hv & Hr)". rewrite Z.add_0_l.
    destruct (lookup_lt_is_Some_2 ms k Hk) as [[i x] Hm]. destruct (lookup_lt_is_Some_2 ls k) as [l Hlk]; [lia|].
    assert (good_string x) as [Hn _] by (apply (Forall_lookup_1 _ _ _ _ Hg Hm)).
    wpc_bind. wpc_ret. wpc_bind. iApply (wpc_load_int with "Hi").
    { rewrite !list_lookup_fmap Hm. done. }
    iIntros "Hi". wpc_bind. iApply wpc_emit. wpc_bind. wpc_ret. wpc_bind.
    iApply (wpc_load_ptr with "Hv"); [by apply ptr_cells_lookup|]. iIntros "Hv".
    iDestruct (rows_own_acc _ _ k l x Hlk with "Hr") as "[Hx Hr]"; [by rewrite list_lookup_fmap Hm|].
    wpc_bind. iApply (wpc_emit_string with "Hx"); [by apply str_in_cells|]. iIntros "Hx". iApply wpc_emit.
    iDestruct ("Hr" with "Hx") as "Hr". iFrame. iPureIntro. split; [|done].
    cbn [stdin stdout strtok_next]. rewrite (take_S_r _ _ _ Hm) report_app report_one. f_equal. by rewrite -!app_assoc.
  - rewrite take_0 app_nil_r. iFrame. by destruct w.
  - iIntros ([] w') "(-> & Hi & Hv & Hr)". rewrite firstn_all. iApply ("HΦ" with "Hi Hv Hr").
Qed.

Lemma clear_spec lt t lx lxs xs li lv ls ms w Φ :
  own_block lt (str_cells t) -∗ own_block lx (ptr_cells lxs) -∗ rows_own lxs xs -∗
  own_block li (VInt <$> ms.*1) -∗ own_block lv (ptr_cells ls) -∗ rows_own ls ms.*2 -∗ Φ tt w -∗
  wpc (BITGREP_Clear (VPtr (Some (lt, 0%nat))) (mk_input2d (size xs) (VPtr (Some (lx, 0%nat))))
        (mk_found (size ms) (VPtr (Some (li, 0%nat))) (VPtr (Some (lv, 0%nat))))) w Φ.
Proof.
  iIntros "Ht Hx Hxs Hi Hv Hr HΦ". unfold BITGREP_Clear, size. cbn [row_count buff_2d found_count found_index buff_found].
  rewrite !Nat2Z.id. iDestruct (rows_own_length with "Hr") as %Hl. iDestruct (rows_own_length with "Hxs") as %Hlx.
  rewrite length_fmap in Hl. rewrite -Hl -Hlx. wpc_bind. wpc_ret. wpc_bind. iApply (wpc_free with "Ht").
  wpc_bind. iApply (wpc_free_rows with "Hx Hxs"); [done|]. iIntros "Hx". wpc_bind. wpc_ret.
  wpc_bind. iApply (wpc_free with "Hx"). wpc_bind. iApply (wpc_free_rows with "Hv Hr"); [done|]. iIntros "Hv".
  wpc_bind. wpc_ret. wpc_bind. iApply (wpc_free with "Hi"). wpc_bind. wpc_ret. by iApply (wpc_free with "Hv").
Qed.

(** Everything up to the search. *)
Lemma split_nonempty d (x : list Z) : split d x <> [].
Proof. destruct x as [|c x]; [done|]. cbn [split]. destruct (c =? d); [done|]. by destruct (split d x). Qed.

(** The program, when there are matches: it leaves the buffer of the input behind. *)
Lemma main_found fuel la t p0 w :
  good_string t -> no_nul (stdin w) -> Z.of_nat (length (stdin w)) + 2 < INT_MAX -> (length (stdin w) + 1 < fuel)%nat ->
  matches t 0 (split 10 (stdin w)) <> [] ->
  own_block la (str_cells t) ⊢ wpc (main fuel false 2 [p0; Some (la, 0%nat)]) w (fun r w' =>
    ⌜r = 0 /\ w' = mk_world [] (stdout w ++ report (matches t 0 (split 10 (stdin w)))) (strtok_next w)⌝ ∧
    ∃ lb b, own_block la (str_cells t) ∗ own_block lb b).
Proof.
  iIntros (Ht Hn Hlen Hf Hm) "Ha". pose proof (split_good (stdin w) Hn ltac:(lia)) as Hg.
  destruct (split_bounds 10 (stdin w)) as [Hb _]. unfold main. wpc_bind.
  iApply (flag_parser_spec with "Ha"); [done|apply str_in_cells, Ht|]. iIntros (lt) "Ha Ht".
  wpc_bind. iApply map_stdin_spec; [done|done|lia|]. iIntros (v lb b) "Hrows Hb".
  iDestruct (strings_own_inv with "Hrows") as (lx lxs) "(-> & %Hlx & Hx & Hxs)"; [apply split_nonempty|].
  cbn [Z.ltb Z.compare]. wpc_bind. wpc_ret. wpc_bind. unfold BITGREP_PopulateSearchResult, size at 1. cbn [row_count].
  rewrite Nat2Z.id. set (xs := split 10 (stdin w)) in *.
  iApply (search_loop_spec lt t lx lxs xs [] VUndef VUndef [] 0 with "Ht Hx Hxs [] []");
    [done|done|simpl; lia|simpl; lia|done|done|done|done|].
  iIntros (vi vs _) "Ht Hx Hxs Hi Hs". rewrite !app_nil_l.
  iDestruct (ints_own_inv with "Hi") as (li) "(-> & Hi)"; [by destruct (matches t 0 xs)|].
  iDestruct (strings_own_inv with "Hs") as (lv ls) "(-> & %Hls & Hv & Hs)"; [by destruct (matches t 0 xs)|].
  cbn [Z.ltb Z.compare]. wpc_bind. iApply (print_found_spec with "Hi Hv Hs"); [by apply matches_good|].
  iIntros "Hi Hv Hs". wpc_bind. iApply (clear_spec with "Ht Hx Hxs Hi Hv Hs"). wpc_ret.
  iSplit; [done|]. iExists lb, b. by iFrame.
Qed.

(** Without a match the vectors of the result were never initialised, and are freed. *)
Lemma main_not_found fuel la t p0 w :
  good_string t -> no_nul (stdin w) -> Z.of_nat (length (stdin w)) + 2 < INT_MAX -> (length (stdin w) + 1 < fuel)%nat ->
  matches t 0 (split 10 (stdin w)) = [] ->
  own_block la (str_cells t) ⊢ wpe (main fuel false 2 [p0; Some (la, 0%nat)]) w Uninit.
Proof.
  iIntros (Ht Hn Hlen Hf Hm) "Ha". pose proof (split_good (stdin w) Hn ltac:(lia)) as Hg.
  destruct (split_bounds 10 (stdin w)) as [Hb _]. unfold main. wpe_bind.
  iApply (flag_parser_spec with "Ha"); [done|apply str_in_cells, Ht|]. iIntros (lt) "Ha Ht".
  wpe_bind. iApply map_stdin_spec; [done|done|lia|]. iIntros (v lb b) "Hrows Hb".
  iDestruct (strings_own_inv with "Hrows") as (lx lxs) "(-> & %Hlx & Hx & Hxs)"; [apply split_nonempty|].
  cbn [Z.ltb Z.compare]. wpe_bind. wpc_ret. wpe_bind. unfold BITGREP_PopulateSearchResult, size at 1. cbn [row_count].
  rewrite Nat2Z.id. set (xs := split 10 (stdin w)) in *.
  iApply (search_loop_spec lt t lx lxs xs [] VUndef VUndef [] 0 with "Ht Hx Hxs [] []");
    [done|done|simpl; lia|simpl; lia|done|done|done|done|].
  rewrite Hm. iIntros (vi vs Hu) "Ht Hx Hxs _ _". destruct (Hu eq_refl) as [-> ->].
  cbn [Z.ltb Z.compare]. wpe_bind. wpc_ret. iApply wpe_bind_err. wpe_bind. wpc_ret. wpe_bind. iApply (wpc_free with "Ht").
  wpe_bind. cbn [row_count buff_2d]. unfold size. rewrite Nat2Z.id -Hlx.
  iApply (wpc_free_rows with "Hx Hxs"); [done|]. iIntros "Hx". wpe_bind. wpc_ret. wpe_bind. iApply (wpc_free with "Hx").
  wpe_bind. wpc_ret. iApply wpe_bind_err. iApply (wpe_fail with "[Ha Hb]"). iCombine "Ha Hb" as "H". iExact "H".
Qed.
End proofs.

Lemma width_nat : Z.of_nat (Z.to_nat MAX_STDINPUT_WIDTH) = MAX_STDINPUT_WIDTH.
Proof. apply Z2Nat.id. done. Qed.

(** C14: with one argument, an input without zero bytes and at least one line that contains the
    argument, the program prints every line that contains it, with its number and from the
    first match on, in order, and returns 0. All its memory is freed except one block, the
    buffer of the input. *)
Theorem grep_prints_matches fuel la t p0 inp out nx :
  Vec.good_string t -> no_nul inp -> Z.of_nat (length inp) + 2 < INT_MAX -> (length inp + 1 < fuel)%nat ->
  matches t 0 (split 10 inp) <> [] ->
  exists lb b, lb <> la /\
    main fuel false 2 [p0; Some (la, 0%nat)] (mem {[la := str_cells t]} (mk_world inp out nx)) =
    Ok (0, mem {[la := str_cells t; lb := b]} (mk_world [] (out ++ report (matches t 0 (split 10 inp))) nx)).
Proof.
  intros Ht Hn Hlen Hf Hm.
  destruct (wpc_adequate _ _ (mk_world inp out nx) _ {[la := str_cells t]} (main_found _ width_nat fuel la t p0 (mk_world inp out nx) Ht Hn Hlen Hf Hm))
    as (r & w' & h & E & H); [done|].
  apply holds_pure_and in H as [[-> ->] H]. apply holds_exist in H as [lb H]. apply holds_exist in H as [b H].
  destruct H as (h1 & h2 & -> & Hd & -> & ->). exists lb, b. apply map_disjoint_singleton_l, lookup_singleton_None in Hd.
  split; [done|]. by rewrite E insert_union_singleton_l.
Qed.

(** When no line contains the argument, the program frees the two vectors of the result,
    which were never initialised. *)
Theorem grep_without_match_frees_garbage fuel la t p0 inp out nx :
  Vec.good_string t -> no_nul inp -> Z.of_nat (length inp) + 2 < INT_MAX -> (length inp + 1 < fuel)%nat ->
  matches t 0 (split 10 inp) = [] ->
  main fuel false 2 [p0; Some (la, 0%nat)] (mem {[la := str_cells t]} (mk_world inp out nx)) = Err Uninit.
Proof.
  intros Ht Hn Hlen Hf Hm.
  exact (wpe_adequate _ _ (mk_world inp out nx) _ {[la := str_cells t]} (main_not_found _ width_nat fuel la t p0 (mk_world inp out nx) Ht Hn Hlen Hf Hm) eq_refl).
Qed.

(** Three lines, the second and third with the word. *)
Definition demo_input : list Z := chars "ab" ++ [10] ++ chars "xaby" ++ [10] ++ chars "yy".

Lemma grep_prints_matches_witness :
  report (matches (chars "aby") 0 (split 10 demo_input)) = chars "[ 1 ]: aby" ++ [10] /\
  exists lb b, lb <> 7%nat /\
    main 20 false 2 [NULL; Some (7%nat, 0%nat)] (mem {[7%nat := str_cells (chars "aby")]} (mk_world demo_input [] NULL)) =
    Ok (0, mem {[7%nat := str_cells (chars "aby"); lb := b]}
             (mk_world [] ([] ++ report (matches (chars "aby") 0 (split 10 demo_input))) NULL)).
Proof.
  split; [by vm_compute|].
  apply (grep_prints_matches 20 7 (chars "aby") NULL demo_input [] NULL);
    [by_compute|by_compute|by vm_compute|by apply Nat.ltb_lt; vm_compute|by vm_compute].
Defined.

Lemma grep_without_match_frees_garbage_witness :
  main 20 false 2 [NULL; Some (7%nat, 0%nat)] (mem {[7%nat := str_cells (chars "q")]} (mk_world demo_input [] NULL)) =
  Err Uninit.
Proof.
  apply (grep_without_match_frees_garbage 20 7 (chars "q") NULL demo_input [] NULL);
    [by_compute|by_compute|by vm_compute|by apply Nat.ltb_lt; vm_compute|by vm_compute].
Defined.
End Grep.
