(* ===== verification/CcTwoPointers.v ===== *)
(** * Two pointers

    src/0xetc/0xcc/two-pointers and src/0xetc/0xcc/math: the container with most water, the
    palindromes of letters and digits and the palindromic numbers. The loops of the source move two indices towards each other; the
    fuel is the number of elements. *)
From stdpp Require Import base numbers list gmap.
From S2P Require Import Prelude CBase CDecimal.
Local Open Scope Z_scope.

Module Water.

(** The body of the loop of [maxArea]: the pointer at the lower line moves. *)
Definition area_step (height : list Z) (st : Z * Z * Z) : res (Z * Z * Z + Z) :=
  let '(top, front, rear) := st in
  if front =? rear then mret (inr top)
  else
    h_front ← at_ height front;
    h_rear ← at_ height rear;
    distance ← int_ (rear - front);
    let '(effctive_height, front', rear') :=
      if h_rear <? h_front then (h_rear, front, rear - 1) else (h_front, front + 1, rear) in
    this_result ← int_ (effctive_height * distance);
    mret (inl (if top <? this_result then this_result else top, front', rear')).

Definition maxArea (height : list Z) : res Z :=
  rear ← int_ (size height - 1);
  iter (S (length height)) (area_step height) (0, 0, rear).

(** The water between two lines. *)
Definition area (h : list Z) (i j : nat) : Z :=
  match h !! i, h !! j with
  | Some a, Some b => Z.min a b * (Z.of_nat j - Z.of_nat i)
  | _, _ => 0
  end.

(** A number that is the area of a container, or zero, and not below any of them. *)
Definition largest_area (h : list Z) (m : Z) : Prop :=
  (m = 0 \/ exists i j, (i < j < length h)%nat /\ area h i j = m) /\
  forall i j, (i < j < length h)%nat -> area h i j <= m.

Section proofs.
Context (h : list Z) (Hpos : Forall (fun a => 0 <= a) h).
Context (Hfit : forall i j, (i < j < length h)%nat -> area h i j <= INT_MAX).

Lemma area_at i j a b : h !! i = Some a -> h !! j = Some b ->
  area h i j = Z.min a b * (Z.of_nat j - Z.of_nat i).
Proof. unfold area. by intros -> ->. Qed.

(** The pairs that are still to be looked at are those between the pointers. *)
Definition inv (st : Z * Z * Z) : Prop :=
  let '(top, front, rear) := st in
  0 <= front <= rear /\ rear < size h /\ 0 <= top /\
  (top = 0 \/ exists i j, (i < j < length h)%nat /\ area h i j = top) /\
  forall i j, (i < j < length h)%nat -> Z.of_nat i < front \/ rear < Z.of_nat j -> area h i j <= top.

(** The line that is given up has no better partner than the one it is compared with. *)
Lemma area_le_left f r a b i : h !! f = Some a -> h !! r = Some b -> b < a -> (f <= i < r)%nat ->
  area h i r <= b * (Z.of_nat r - Z.of_nat f).
Proof.
  intros Hf Hr Hlt Hi. destruct (lookup_lt_is_Some_2 h i) as [c Hc]; [apply lookup_lt_Some in Hr; lia|].
  rewrite (area_at i r c b) by done.
  assert (0 <= c) by (by apply (Forall_lookup_1 _ _ _ _ Hpos Hc)).
  assert (0 <= b) by (by apply (Forall_lookup_1 _ _ _ _ Hpos Hr)). nia.
Qed.
Lemma area_le_right f r a b j : h !! f = Some a -> h !! r = Some b -> a <= b -> (f < j <= r)%nat ->
  area h f j <= a * (Z.of_nat r - Z.of_nat f).
Proof.
  intros Hf Hr Hle Hj. destruct (lookup_lt_is_Some_2 h j) as [c Hc]; [apply lookup_lt_Some in Hr; lia|].
  rewrite (area_at f j a c) by done.
  assert (0 <= c) by (by apply (Forall_lookup_1 _ _ _ _ Hpos Hc)).
  assert (0 <= a) by (by apply (Forall_lookup_1 _ _ _ _ Hpos Hf)). nia.
Qed.

(** What the step computes. *)
Lemma step_eq top f r a b : (f < r < length h)%nat -> Z.of_nat (length h) <= INT_MAX ->
  h !! f = Some a -> h !! r = Some b ->
  area_step h (top, Z.of_nat f, Z.of_nat r) =
  Ok (inl (Z.max top (area h f r), if b <? a then Z.of_nat f else Z.of_nat f + 1,
           if b <? a then Z.of_nat r - 1 else Z.of_nat r)).
Proof.
  intros Hfr Hlen Ha Hb. unfold area_step. destruct (_ =? _) eqn:E; [zbool; lia|].
  rewrite (at_nat _ _ _ Ha), (at_nat _ _ _ Hb). unfold mbind, res_bind.
  assert (0 <= a) by (by apply (Forall_lookup_1 _ _ _ _ Hpos Ha)).
  assert (0 <= b) by (by apply (Forall_lookup_1 _ _ _ _ Hpos Hb)).
  rewrite int_ok by (unfold is_int, INT_MIN; lia).
  pose proof (Hfit f r Hfr) as Hm. rewrite (area_at f r a b Ha Hb) in Hm |- *.
  assert ((if b <? a then b else a) = Z.min a b) as Hmin by (destruct (b <? a) eqn:E'; zbool; lia).
  assert (is_int (Z.min a b * (Z.of_nat r - Z.of_nat f))) as Hi by (unfold is_int, INT_MIN; nia).
  destruct (b <? a) eqn:E'; rewrite Hmin, int_ok by done; do 3 f_equal;
    match goal with |- context [?x <? ?y] => destruct (x <? y) eqn:E2; zbool end; do 2 f_equal; lia.
Qed.

Lemma step_inv st : Z.of_nat (length h) <= INT_MAX -> inv st ->
  (exists st', area_step h st = Ok (inl st') /\ inv st' /\
     (Z.to_nat (st'.2 - st'.1.2) < Z.to_nat (st.2 - st.1.2))%nat) \/
  (exists m, area_step h st = Ok (inr m) /\ largest_area h m).
Proof.
  destruct st as [[top front] rear]. intros Hlen (Hfr & Hr & Ht & Hex & Hle). unfold size in Hr.
  destruct (decide (front = rear)) as [<-|Hne].
  - right. exists top. unfold area_step. rewrite Z.eqb_refl. split; [done|]. split; [done|].
    intros i j Hij. apply Hle; [done|]. lia.
  - left. set (f := Z.to_nat front). set (r := Z.to_nat rear).
    replace front with (Z.of_nat f) in * by lia. replace rear with (Z.of_nat r) in * by lia. clearbody f r.
    destruct (lookup_lt_is_Some_2 h f) as [a Ha]; [lia|]. destruct (lookup_lt_is_Some_2 h r) as [b Hb]; [lia|].
    rewrite (step_eq top f r a b) by (done || lia). eexists. split; [done|].
    assert (top = 0 \/ exists i j, (i < j < length h)%nat /\ area h i j = top) as Hex' by done.
    assert (Z.max top (area h f r) = 0 \/
            exists i j, (i < j < length h)%nat /\ area h i j = Z.max top (area h f r)) as Hmax.
    { destruct (Z.max_spec top (area h f r)) as [[_ ->]|[_ ->]]; [right; exists f, r; split; [lia|done]|done]. }
    destruct (b <? a) eqn:E; zbool; cbn [fst snd]; (split; [split_and!|]); try done; try (unfold size; lia).
    + intros i j Hij [H1|H1]; [transitivity top; [apply Hle; [done|by left]|lia]|].
      destruct (decide (j = r)) as [->|]; [|transitivity top; [apply Hle; [done|right; lia]|lia]].
      destruct (decide (i < f)%nat); [transitivity top; [apply Hle; [done|left; lia]|lia]|].
      transitivity (area h f r); [|lia]. rewrite (area_at f r a b) by done.
      rewrite Z.min_r by lia. apply (area_le_left f r a b i); [done|done|lia|lia].
    + intros i j Hij [H1|H1]; [|transitivity top; [apply Hle; [done|by right]|lia]].
      destruct (decide (i = f)) as [->|]; [|transitivity top; [apply Hle; [done|left; lia]|lia]].
      destruct (decide (r < j)%nat); [transitivity top; [apply Hle; [done|right; lia]|lia]|].
      transitivity (area h f r); [|lia]. rewrite (area_at f r a b) by done.
      rewrite Z.min_l by lia. apply (area_le_right f r a b j); [done|done|lia|lia].
Qed.
End proofs.

(** For lines of heights that are not negative, with areas that fit in an [int], the loop
    ends and returns the area of the largest container, although it only looks at one pair
    of lines for each length. *)
Theorem max_area_is_largest height :
  (1 <= length height)%nat -> Z.of_nat (length height) <= INT_MAX -> Forall (fun a => 0 <= a) height ->
  (forall i j, (i < j < length height)%nat -> area height i j <= INT_MAX) ->
  exists m, maxArea height = Ok m /\ largest_area height m.
Proof.
  intros H1 Hlen Hpos Hfit. unfold maxArea. unfold size.
  rewrite int_ok by (unfold is_int, INT_MIN; lia). unfold mbind, res_bind.
  apply (iter_total _ (inv height) (fun st => Z.to_nat (st.2 - st.1.2)) (largest_area height)).
  - intros st Hst. by apply step_inv.
  - split_and!; unfold size; try lia; try by left.
  - cbn [fst snd]. lia.
Qed.

Lemma max_area_is_largest_witness :
  maxArea [1; 8; 6; 2; 5; 4; 8; 3; 7] = Ok 49 /\
  exists m, maxArea [1; 8; 6; 2; 5; 4; 8; 3; 7] = Ok m /\ largest_area [1; 8; 6; 2; 5; 4; 8; 3; 7] m.
Proof.
  split; [by vm_compute|]. apply max_area_is_largest; [simpl; lia|by vm_compute|by_compute|].
  intros i j [Hij Hj]. do 9 (destruct j as [|j]; [do 9 (destruct i as [|i]; [by vm_compute|]); simpl in Hj; lia|]).
  simpl in Hj. lia.
Defined.

(** Without lines the loop starts behind the end of the vector. *)
Lemma max_area_empty : maxArea [] = Err OutOfBounds.
Proof. reflexivity. Qed.
End Water.

(** ** Palindromes *)

(** Comparing the first half with the mirrored second half is enough. *)
Lemma palindrome_half {A} (x : list A) :
  (forall i, (2 * i + 1 < length x)%nat -> x !! i = x !! (length x - 1 - i)%nat) -> x = reverse x.
Proof.
  intros H. apply list_eq. intros i. destruct (decide (i < length x)%nat) as [Hi|Hi]; last first.
  { rewrite !lookup_ge_None_2; [done|rewrite length_reverse; lia|lia]. }
  rewrite reverse_lookup by done. replace (length x - S i)%nat with (length x - 1 - i)%nat by lia.
  destruct (decide (2 * i + 1 < length x)%nat); [by apply H|].
  destruct (decide (2 * i + 1 = length x)%nat); [f_equal; lia|].
  rewrite (H (length x - 1 - i)%nat) by lia. f_equal. lia.
Qed.
Lemma palindrome_lookup {A} (x : list A) i : x = reverse x -> (i < length x)%nat ->
  x !! i = x !! (length x - 1 - i)%nat.
Proof.
  intros E Hi. rewrite E at 1. rewrite reverse_lookup by done. f_equal. lia.
Qed.

Module Palindrome.

(** *** Strings: src/0xetc/0xcc/two-pointers/valid-palindrome *)

Definition isalnum (c : Z) : bool :=
  isdigit c || ((65 <=? c) && (c <=? 90)) || ((97 <=? c) && (c <=? 122)).
Definition tolower (c : Z) : Z := if (65 <=? c) && (c <=? 90) then c + 32 else c.

Definition pal_step (newsize : Z) (new_s : list Z) (st : Z * Z) : res (Z * Z + bool) :=
  let '(front, rear) := st in
  a ← at_ new_s front;
  b ← at_ new_s rear;
  if a =? b then
    if newsize mod 2 =? 0 then
      if front =? rear - 1 then mret (inr true) else mret (inl (front + 1, rear - 1))
    else
      if front =? rear - 2 then mret (inr true) else mret (inl (front + 1, rear - 1))
  else mret (inr false).

Definition isPalindrome (s : list Z) : res bool :=
  ssize ← int_ (size s);
  new_s ← for_res (Z.to_nat ssize) 0 (fun i new_s =>
    c ← at_ s i;
    if negb (isalnum c) then mret new_s else mret (new_s ++ [tolower c])) [];
  newsize ← int_ (size new_s);
  let rear := newsize - 1 in
  if (newsize =? 0) || (newsize =? 1) then mret true
  else iter (length new_s) (pal_step newsize new_s) (0, rear).

(** The letters and digits, in lower case. *)
Definition normalize (s : list Z) : list Z := tolower <$> filter isalnum s.

Lemma normalize_app s t : normalize (s ++ t) = normalize s ++ normalize t.
Proof. unfold normalize. by rewrite filter_app, fmap_app. Qed.

Lemma normalize_one c : normalize [c] = if isalnum c then [tolower c] else [].
Proof. unfold normalize. rewrite filter_cons. by destruct (isalnum c). Qed.

Lemma normalize_loop s : for_res (length s) 0 (fun i new_s =>
    c ← at_ s i; if negb (isalnum c) then mret new_s else mret (new_s ++ [tolower c])) [] = Ok (normalize s).
Proof.
  destruct (for_res_inv (fun i new_s =>
    c ← at_ s i; if negb (isalnum c) then mret new_s else mret (new_s ++ [tolower c]))
    (fun k acc => acc = normalize (take (Z.to_nat k) s)) (length s) 0 []) as (r & E & Hr).
  - intros k acc Hk ->. destruct (at_some s k) as (c & Hc & Ec); [unfold size; lia|].
    rewrite Ec. unfold mbind, res_bind. replace (Z.to_nat (k + 1)) with (S (Z.to_nat k)) by lia.
    rewrite (take_S_r _ _ _ Hc), normalize_app, normalize_one. destruct (isalnum c); cbn [negb]; rewrite ?app_nil_r; eauto.
  - done.
  - rewrite E, Hr. rewrite take_ge by lia. done.
Qed.

Section proofs.
Context (x : list Z) (Hlen : (2 <= length x)%nat) (Hint : is_int (size x)).

(** The characters outside the two pointers agree. *)
Definition pinv (st : Z * Z) : Prop :=
  let '(front, rear) := st in
  0 <= front /\ rear = size x - 1 - front /\ front < rear /\
  forall i, Z.of_nat i < front -> x !! i = x !! (length x - 1 - i)%nat.

Lemma pal_step_inv st : pinv st ->
  (exists st', pal_step (size x) x st = Ok (inl st') /\ pinv st' /\ (Z.to_nat (st'.2 - st'.1) < Z.to_nat (st.2 - st.1))%nat) \/
  (exists r, pal_step (size x) x st = Ok (inr r) /\ r = bool_decide (x = reverse x)).
Proof.
  destruct st as [front rear]. intros (H0 & Hr & Hlt & Heq). unfold pal_step.
  destruct (at_some x front) as (a & Ha & ->); [lia|]. destruct (at_some x rear) as (b & Hb & ->); [lia|].
  unfold mbind, res_bind. unfold size in Hr. replace (Z.to_nat rear) with (length x - 1 - Z.to_nat front)%nat in Hb by lia.
  destruct (a =? b) eqn:E; zbool.
  - subst b. assert (forall i, Z.of_nat i < front + 1 -> x !! i = x !! (length x - 1 - i)%nat) as Heq'.
    { intros i Hi. destruct (decide (Z.of_nat i = front)); [|apply Heq; lia].
      replace i with (Z.to_nat front) by lia. congruence. }
    assert ((size x mod 2 = 0 \/ size x mod 2 = 1)) as Hpar by (pose proof (Z.mod_pos_bound (size x) 2); lia).
    assert (forall k, front = rear - k -> (k = 1 \/ k = 2) -> bool_decide (x = reverse x) = true) as Hend.
    { intros k Hk Hk'. apply bool_decide_eq_true_2, palindrome_half. intros i Hi. apply Heq'. lia. }
    unfold size in Hpar |- *.
    destruct (_ mod 2 =? 0) eqn:Em; [destruct (front =? rear - 1) eqn:Ef|destruct (front =? rear - 2) eqn:Ef]; zbool.
    + right. eexists. split; [done|]. symmetry. apply (Hend 1); [done|by left].
    + left. eexists. split; [done|]. cbn [fst snd]. split; [|lia]. split_and!; unfold size; try lia; [|done].
      Z.to_euclidean_division_equations. lia.
    + right. eexists. split; [done|]. symmetry. apply (Hend 2); [done|by right].
    + left. eexists. split; [done|]. cbn [fst snd]. split; [|lia]. split_and!; unfold size; try lia; [|done].
      Z.to_euclidean_division_equations. lia.
  - right. exists false. split; [done|]. symmetry. apply bool_decide_eq_false_2. intros Hx.
    pose proof (palindrome_lookup x (Z.to_nat front) Hx ltac:(lia)). congruence.
Qed.
End proofs.

(** A string is accepted exactly when its letters and digits, in lower case, read the same
    backwards; the loop ends for every length. *)
Theorem valid_palindrome_exact s : is_int (size s) ->
  isPalindrome s = Ok (bool_decide (normalize s = reverse (normalize s))).
Proof.
  intros Hs. unfold isPalindrome. rewrite int_ok, rbind_ok by done.
  replace (Z.to_nat (size s)) with (length s) by (unfold size; lia). rewrite normalize_loop, rbind_ok.
  assert (length (normalize s) <= length s)%nat as Hle.
  { unfold normalize. rewrite length_fmap. apply length_filter. }
  assert (is_int (size (normalize s))) as Hn by (unfold is_int, INT_MIN, size in *; lia).
  rewrite int_ok, rbind_ok by done. unfold size in *. set (x := normalize s) in *.
  destruct (decide (2 <= length x)%nat) as [H2|H2].
  - destruct (_ =? 0) eqn:E0; [zbool; lia|]. destruct (_ =? 1) eqn:E1; [zbool; lia|]. cbn [orb].
    destruct (iter_total (pal_step (size x) x) (pinv x) (fun st => Z.to_nat (st.2 - st.1))
      (fun r => r = bool_decide (x = reverse x)) (fun st => pal_step_inv x H2 st) (length x) (0, size x - 1))
      as (r & E & ->); [|cbn [fst snd]; unfold size; lia|done].
    split_and!; unfold size; try lia.
  - assert ((Z.of_nat (length x) =? 0) || (Z.of_nat (length x) =? 1) = true) as ->.
    { destruct (length x) as [|[|?]]; [done|done|lia]. }
    unfold mret, res_ret. f_equal. symmetry. apply bool_decide_eq_true_2. destruct x as [|a [|b x]]; [done|done|simpl in H2; lia].
Qed.

Lemma valid_palindrome_exact_witness :
  isPalindrome [65; 44; 32; 98; 98; 97] = Ok (bool_decide (normalize [65; 44; 32; 98; 98; 97] = reverse (normalize [65; 44; 32; 98; 98; 97]))) /\
  isPalindrome [65; 44; 32; 98; 98; 97] = Ok true.
Proof. split; [apply valid_palindrome_exact; by_compute|by vm_compute]. Defined.
End Palindrome.

(** *** Numbers: src/0xetc/0xcc/math/palindrome-number *)
Module NumberPalindrome.

(** [sprintf(x_str, "%d", x)] into an array of 16 zero bytes. *)
Definition sprintf_d (x : Z) : res (list Z) :=
  if (length (dec x) <? 16)%nat then Ok (dec x ++ replicate (16 - length (dec x)) 0) else Err OutOfBounds.

Definition size_step (x_str : list Z) (i : Z) : res (Z + Z) :=
  if 16 <=? i then mret (inr 0)
  else c ← at_ x_str i; if c =? 0 then mret (inr i) else mret (inl (i + 1)).

(** The two loops differ in the test that ends them. *)
Definition mirror_step (stop : Z -> Z -> bool) (x_str : list Z) (xsize : Z) (i : Z) : res (Z + bool) :=
  let f_idx := i in
  let r_idx := xsize - i - 1 in
  if stop f_idx r_idx then mret (inr true)
  else
    front ← at_ x_str f_idx;
    rear ← at_ x_str r_idx;
    if negb (front =? rear) then mret (inr false) else mret (inl (i + 1)).

Definition isPalindrome (x : Z) : res bool :=
  x_str ← sprintf_d x;
  xsize ← iter 17 (size_step x_str) 0;
  if xsize =? 1 then mret true
  else
    c0 ← at_ x_str 0;
    if c0 =? 45 then mret false
    else if xsize mod 2 =? 0 then iter 16 (mirror_step (fun f r => r <? f) x_str xsize) 0
    else iter 16 (mirror_step (fun f r => f =? r) x_str xsize) 0.

Section proofs.
Context (d : list Z) (Hd : (length d < 16)%nat) (Hn : no_nul d).
Let x_str := d ++ replicate (16 - length d) 0.

Lemma str_lookup i c : d !! i = Some c -> at_ x_str (Z.of_nat i) = Ok c.
Proof. intros Hc. apply at_nat. unfold x_str. rewrite lookup_app_l; [done|by eapply lookup_lt_Some]. Qed.

Lemma size_loop : iter 17 (size_step x_str) 0 = Ok (size d).
Proof.
  destruct (iter_total (size_step x_str) (fun i => 0 <= i <= size d) (fun i => Z.to_nat (size d - i))
    (fun r => r = size d)) with (fuel := 17%nat) (s := 0) as (r & E & ->); [|unfold size; lia|unfold size; lia|done].
  intros i Hi. unfold size_step, size in *. destruct (16 <=? i) eqn:E; [zbool; lia|].
  destruct (decide (i < Z.of_nat (length d))) as [Hlt|Hge].
  - destruct (lookup_lt_is_Some_2 d (Z.to_nat i)) as [c Hc]; [lia|].
    pose proof (str_lookup _ _ Hc) as Hat. rewrite Z2Nat.id in Hat by lia. rewrite Hat, rbind_ok.
    assert (c <> 0) by (apply (Forall_lookup_1 _ _ _ _ Hn Hc)).
    destruct (c =? 0) eqn:E0; [lia|]. left. eexists. split; [done|]. lia.
  - right. replace i with (Z.of_nat (length d)) by lia. exists (Z.of_nat (length d)).
    rewrite (at_nat x_str (length d) 0); [done|]. unfold x_str. rewrite lookup_app_r by done.
    rewrite Nat.sub_diag. destruct (16 - length d)%nat eqn:E1; [lia|done].
Qed.

(** Both tests stop no earlier than the middle, and in time. *)
Definition stops (stop : Z -> Z -> bool) : Prop :=
  (forall i, stop i (size d - i - 1) = true -> 0 <= i -> size d <= 2 * i + 1) /\
  forall i, 0 <= i -> stop i (size d - i - 1) = false ->
    (forall j, 0 <= j < i -> stop j (size d - j - 1) = false) -> 2 * i + 1 < size d.

Lemma mirror_loop stop : stops stop -> iter 16 (mirror_step stop x_str (size d)) 0 = Ok (bool_decide (d = reverse d)).
Proof.
  intros [Hs1 Hs2].
  destruct (iter_total (mirror_step stop x_str (size d))
    (fun i => 0 <= i <= size d /\ (forall j, 0 <= j < i -> stop j (size d - j - 1) = false) /\
       forall k, Z.of_nat k < i -> d !! k = d !! (length d - 1 - k)%nat)
    (fun i => Z.to_nat (size d - i)) (fun r => r = bool_decide (d = reverse d))) with (fuel := 16%nat) (s := 0)
    as (r & E & ->); [|split_and!; unfold size; try lia; intros; lia|unfold size; lia|done].
  intros i (Hi & Hns & Heq). unfold mirror_step. destruct (stop i (size d - i - 1)) eqn:E.
  - right. exists true. split; [done|]. symmetry. apply bool_decide_eq_true_2, palindrome_half.
    intros k Hk. apply Heq. pose proof (Hs1 i E ltac:(lia)). unfold size in *. lia.
  - pose proof (Hs2 i ltac:(lia) E Hns) as Hmid. unfold size in Hmid, Hi.
    destruct (lookup_lt_is_Some_2 d (Z.to_nat i)) as [a Ha]; [lia|].
    destruct (lookup_lt_is_Some_2 d (length d - 1 - Z.to_nat i)) as [b Hb]; [lia|].
    pose proof (str_lookup _ _ Ha) as Hat. rewrite Z2Nat.id in Hat by lia. rewrite Hat, rbind_ok.
    pose proof (str_lookup _ _ Hb) as Hbt.
    replace (Z.of_nat (length d - 1 - Z.to_nat i)) with (size d - i - 1) in Hbt by (unfold size; lia).
    rewrite Hbt, rbind_ok. destruct (a =? b) eqn:Eab; zbool; cbn [negb].
    + left. exists (i + 1). split; [done|]. split; [|unfold size; lia]. split_and!; [unfold size; lia|unfold size; lia| |].
      * intros j Hj. destruct (decide (j = i)) as [->|]; [done|apply Hns; lia].
      * intros k Hk. destruct (decide (Z.of_nat k = i)); [|apply Heq; lia].
        replace k with (Z.to_nat i) by lia. congruence.
    + right. exists false. split; [done|]. symmetry. apply bool_decide_eq_false_2. intros Hp.
      pose proof (palindrome_lookup d (Z.to_nat i) Hp ltac:(lia)). congruence.
Qed.

Lemma stops_even : size d mod 2 = 0 -> stops (fun f r => r <? f).
Proof.
  intros Hm. unfold stops, size in *. split; cbv beta; [intros i H _; zbool; lia|]. intros i Hi H _. zbool.
  Z.to_euclidean_division_equations. lia.
Qed.
Lemma stops_odd : size d mod 2 <> 0 -> stops (fun f r => f =? r).
Proof.
  intros Hm. unfold stops, size in *. split; cbv beta; [intros i H _; zbool; lia|]. intros i Hi H Hj. zbool.
  destruct (decide (2 * i + 1 < Z.of_nat (length d))); [done|].
  specialize (Hj (Z.of_nat (length d) / 2)). Z.to_euclidean_division_equations. lia.
Qed.
End proofs.

(** An [int] is accepted exactly when it is not negative and its decimal digits read the
    same backwards. *)
Theorem palindrome_number_exact x : is_int x ->
  isPalindrome x = Ok (bool_decide (0 <= x /\ dec x = reverse (dec x))).
Proof.
  intros Hx. pose proof (dec_length x Hx) as Hl. unfold isPalindrome, sprintf_d.
  destruct (_ <? 16)%nat eqn:E16; [|apply Nat.ltb_ge in E16; lia]. rewrite rbind_ok.
  assert (no_nul (dec x)) as Hn.
  { unfold dec. destruct (x <? 0) eqn:E; [constructor; [done|]|]; zbool;
      (eapply Forall_impl; [apply dec_digits_digits; lia|unfold digit_char; lia]). }
  rewrite size_loop, rbind_ok by (done || lia). destruct (dec x) as [|c d] eqn:Ed; [simpl in Hl; lia|].
  rewrite <- Ed in *. assert (0 <= x <-> c <> 45) as Hneg.
  { unfold dec in Ed. destruct (x <? 0) eqn:E; zbool; [injection Ed as <- <-; lia|].
    pose proof (dec_digits_digits x E) as Hd. rewrite Ed in Hd. apply Forall_cons in Hd as [Hc _]. unfold digit_char in Hc. lia. }
  destruct (size (dec x) =? 1) eqn:E1; zbool.
  - rewrite Ed in E1. unfold size in E1. destruct d; [|simpl in E1; lia]. unfold mret, res_ret. f_equal. symmetry.
    apply bool_decide_eq_true_2. rewrite Ed. split; [|done].
    unfold dec in Ed. destruct (x <? 0) eqn:E; [|by zbool]. injection Ed as _ Ed. by apply dec_digits_nonempty in Ed.
  - pose proof (str_lookup (dec x) 0%nat c ltac:(by rewrite Ed)) as H0. change (Z.of_nat 0) with 0 in H0.
    rewrite H0, rbind_ok. destruct (c =? 45) eqn:Ec; zbool.
    + unfold mret, res_ret. f_equal. symmetry. apply bool_decide_eq_false_2. intros [H _]. by apply Hneg in H.
    + assert (bool_decide (0 <= x /\ dec x = reverse (dec x)) = bool_decide (dec x = reverse (dec x))) as ->.
      { apply bool_decide_ext. split; [by intros [_ H]|]. intros H. split; [by apply Hneg|done]. }
      assert (length (dec x) < 16)%nat by lia.
      destruct (_ mod 2 =? 0) eqn:Em; zbool; [apply mirror_loop, stops_even|apply mirror_loop, stops_odd]; done.
Qed.

Lemma palindrome_number_exact_witness :
  isPalindrome 12321 = Ok (bool_decide (0 <= 12321 /\ dec 12321 = reverse (dec 12321))) /\
  isPalindrome 12321 = Ok true /\ isPalindrome (-2147483648) = Ok false.
Proof. split; [apply palindrome_number_exact; by_compute|by vm_compute]. Defined.
End NumberPalindrome.
