(* ===== verification/CcSliding.v ===== *)
(** * Sliding windows

    src/0xetc/0xcc/sliding-window: the shortest subarray whose sum reaches a target, and the
    longest substring without a repeated character. Each loop moves one end of the window
    by one; the fuel is the number of elements and two more. *)
From stdpp Require Import base numbers list gmap.
From S2P Require Import Prelude CBase.
Local Open Scope Z_scope.

Module MinSub.

(** The local variables [hit], [min_len], [sum] and [rear]. *)
Definition vars : Type := Z * Z * Z * Z.

Definition inner_step (target : Z) (nums : list Z) (front : Z) (st : vars) : res (vars + vars) :=
  let '(hit, min_len, sum, rear) := st in
  if sum <? target then mret (inr st)
  else
    len ← int_ (front - rear + 1);
    a ← at_ nums rear;
    sum' ← int_ (sum - a);
    let st' := (1, Z.min min_len len, sum', rear + 1) in
    if front <? rear + 1 then mret (inr st') else mret (inl st').

Definition outer_step (target : Z) (nums : list Z) (st : Z * vars) : res (Z * vars + vars) :=
  let '(front, (hit, min_len, sum, rear)) := st in
  if size nums <=? front then mret (inr (hit, min_len, sum, rear))
  else
    a ← at_ nums front;
    sum' ← int_ (sum + a);
    vs ← iter (length nums + 2) (inner_step target nums front) (hit, min_len, sum', rear);
    mret (inl (front + 1, vs)).

Definition minSubArrayLen (target : Z) (nums : list Z) : res Z :=
  '(hit, min_len, _, _) ← iter (length nums + 2) (outer_step target nums) (0, (0, INT_MAX, 0, 0));
  if negb (hit =? 1) then mret 0 else mret min_len.

(** The sum of the first [k] numbers, and of the numbers from [i] up to [j]. *)
Definition psum (nums : list Z) (k : nat) : Z := foldr Z.add 0 (take k nums).
Definition window (nums : list Z) (i j : nat) : Z := psum nums j - psum nums i.

(** The length of the shortest window that reaches the target, or zero without one. *)
Definition shortest (target : Z) (nums : list Z) (m : Z) : Prop :=
  (m = 0 /\ forall i j, (i < j <= length nums)%nat -> window nums i j < target) \/
  (exists i j, (i < j <= length nums)%nat /\ target <= window nums i j /\ m = Z.of_nat (j - i) /\
     forall i' j', (i' < j' <= length nums)%nat -> target <= window nums i' j' -> m <= Z.of_nat (j' - i')).

Section proofs.
Context (target : Z) (nums : list Z) (Hpos : Forall (fun a => 0 <= a) nums).
Context (Hsum : psum nums (length nums) <= INT_MAX) (Hlen : Z.of_nat (length nums) < INT_MAX).
Notation n := (length nums).
Notation win := (window nums).

Lemma psum_S k a : nums !! k = Some a -> psum nums (S k) = psum nums k + a.
Proof.
  intros Ha. unfold psum. rewrite (take_S_r _ _ _ Ha), foldr_app. simpl.
  generalize (take k nums). intros l. induction l as [|b l IH]; simpl; lia.
Qed.
Lemma psum_mono i j : (i <= j)%nat -> psum nums i <= psum nums j.
Proof.
  induction 1 as [|j Hij IH]; [lia|]. destruct (nums !! j) as [a|] eqn:Ha.
  - rewrite (psum_S j a Ha). pose proof (Forall_lookup_1 _ _ _ _ Hpos Ha). simpl in *. lia.
  - apply lookup_ge_None_1 in Ha. unfold psum in *. rewrite (take_ge nums (S j)) by lia.
    by rewrite (take_ge nums j) in IH by lia.
Qed.
Lemma psum_range k : 0 <= psum nums k <= INT_MAX.
Proof.
  pose proof (psum_mono 0 k ltac:(lia)) as H0. change (psum nums 0) with 0 in H0.
  destruct (decide (k <= n)%nat) as [|Hk]; [pose proof (psum_mono k n ltac:(lia)); lia|].
  unfold psum in *. rewrite (take_ge nums k) by lia. rewrite (take_ge nums n) in Hsum by lia.
  rewrite (take_ge nums k) in H0 by lia. lia.
Qed.

(** The windows that end at or before [f] are accounted for; those that start before [r] and
    end after [f] are too long to matter. *)
Definition known (f r : nat) (hit min_len : Z) : Prop :=
  (hit = 1 -> exists i j, (i < j <= f)%nat /\ target <= win i j /\ min_len = Z.of_nat (j - i)) /\
  (hit <> 1 -> r = 0%nat /\ min_len = INT_MAX) /\
  (forall i j, (i < j <= f)%nat -> target <= win i j -> hit = 1 /\ min_len <= Z.of_nat (j - i)) /\
  (forall i j, (i < r)%nat -> (f < j)%nat -> min_len <= Z.of_nat (j - i)) /\ min_len <= INT_MAX.

Definition outer_inv (st : Z * vars) : Prop :=
  let '(front, (hit, min_len, sum, rear)) := st in
  exists f r, front = Z.of_nat f /\ rear = Z.of_nat r /\ (r <= f <= n)%nat /\ sum = win r f /\ known f r hit min_len.

(** Inside the loop the new end [f + 1] is not accounted for yet. *)
Definition inner_inv (f : nat) (st : vars) : Prop :=
  let '(hit, min_len, sum, rear) := st in
  exists r, rear = Z.of_nat r /\ (r <= f < n)%nat /\ sum = win r (S f) /\
  (hit = 1 -> exists i j, (i < j <= S f)%nat /\ target <= win i j /\ min_len = Z.of_nat (j - i)) /\
  (hit <> 1 -> r = 0%nat /\ min_len = INT_MAX) /\
  (forall i j, (i < j <= f)%nat -> target <= win i j -> hit = 1 /\ min_len <= Z.of_nat (j - i)) /\
  (forall i j, (i < r)%nat -> (f < j)%nat -> min_len <= Z.of_nat (j - i)) /\ min_len <= INT_MAX.

Lemma inner_step_inv f st : inner_inv f st ->
  (exists st', inner_step target nums (Z.of_nat f) st = Ok (inl st') /\ inner_inv f st' /\
     (Z.to_nat (Z.of_nat n - st'.2) < Z.to_nat (Z.of_nat n - st.2))%nat) \/
  (exists st', inner_step target nums (Z.of_nat f) st = Ok (inr st') /\ outer_inv (Z.of_nat (S f), st')).
Proof.
  destruct st as [[[hit min_len] sum] rear]. intros (r & -> & Hr & -> & H1 & H0 & HA & HB & Hm).
  unfold inner_step. destruct (_ <? target) eqn:E; zbool.
  - right. eexists. split; [done|]. exists (S f), r. split_and!; try done; try lia. split_and!; try done.
    + intros i j Hij Hw. destruct (decide (j = S f)) as [->|]; [|apply HA; [lia|done]].
      destruct (decide (i < r)%nat) as [Hlt|].
      * split; [|apply HB; lia]. destruct (decide (hit = 1)); [done|]. specialize (H0 ltac:(done)). lia.
      * unfold window in *. pose proof (psum_mono r i ltac:(lia)). lia.
    + intros i j Hi Hj. apply HB; lia.
  - destruct (lookup_lt_is_Some_2 nums r) as [a Ha]; [lia|]. rewrite int_ok, rbind_ok by (unfold is_int, INT_MIN; lia).
    rewrite (at_nat _ _ _ Ha), rbind_ok.
    assert (win r (S f) - a = win (S r) (S f)) as -> by (unfold window; rewrite (psum_S r a Ha); lia).
    pose proof (psum_range (S f)). pose proof (psum_mono (S r) (S f) ltac:(lia)). pose proof (psum_range (S r)).
    rewrite int_ok, rbind_ok by (unfold is_int, INT_MIN, window; lia).
    set (m' := Z.min min_len _).
    assert (exists i j, (i < j <= S f)%nat /\ target <= win i j /\ m' = Z.of_nat (j - i)) as Hex.
    { unfold m'. destruct (Z.min_spec min_len (Z.of_nat f - Z.of_nat r + 1)) as [[Hlt ->]|[Hge ->]].
      - apply H1. destruct (decide (hit = 1)) as [|Hh]; [done|]. destruct (H0 Hh) as [_ ->]. lia.
      - exists r, (S f). split_and!; [lia|lia|lia|lia]. }
    assert (forall i j, (i < j <= f)%nat -> target <= win i j -> m' <= Z.of_nat (j - i)) as HA'.
    { intros i j Hij Hw. destruct (HA i j Hij Hw). unfold m'. lia. }
    assert (forall i j, (i < S r)%nat -> (f < j)%nat -> m' <= Z.of_nat (j - i)) as HB'.
    { intros i j Hi Hj. destruct (decide (i = r)) as [->|]; unfold m'; [lia|]. pose proof (HB i j ltac:(lia) Hj). lia. }
    destruct (_ <? _) eqn:Eb; zbool.
    + right. eexists. split; [done|]. exists (S f), (S r). split_and!; try done; try lia.
      split_and!; try done; unfold m'; lia.
    + left. eexists. split; [done|]. cbn [fst snd]. split; [|lia]. exists (S r). split_and!; try done; try lia.
      intros i j Hij Hw. split; [done|]. by apply HA'.
Qed.

Lemma outer_step_inv st : outer_inv st ->
  (exists st', outer_step target nums st = Ok (inl st') /\ outer_inv st' /\
     (Z.to_nat (Z.of_nat n - st'.1) < Z.to_nat (Z.of_nat n - st.1))%nat) \/
  (exists vs, outer_step target nums st = Ok (inr vs) /\ outer_inv (Z.of_nat n, vs)).
Proof.
  destruct st as [front [[[hit min_len] sum] rear]]. intros (f & r & -> & -> & Hr & -> & H1 & H0 & HA & HB & Hm).
  unfold outer_step. destruct (size nums <=? _) eqn:E; zbool; unfold size in E.
  - right. eexists. split; [done|]. assert (f = n) as -> by lia. exists n, r. done.
  - left. destruct (lookup_lt_is_Some_2 nums f) as [a Ha]; [lia|]. rewrite (at_nat _ _ _ Ha), rbind_ok.
    assert (win r f + a = win r (S f)) as -> by (unfold window; rewrite (psum_S f a Ha); lia).
    pose proof (psum_range (S f)). pose proof (psum_mono r (S f) ltac:(lia)). pose proof (psum_range r).
    rewrite int_ok, rbind_ok by (unfold is_int, INT_MIN, window; lia).
    destruct (iter_total (inner_step target nums (Z.of_nat f)) (inner_inv f) (fun st => Z.to_nat (Z.of_nat n - st.2))
      (fun vs => outer_inv (Z.of_nat (S f), vs)) (inner_step_inv f) (n + 2)%nat (hit, min_len, win r (S f), Z.of_nat r))
      as (vs & -> & Hvs); [|cbn [snd]; lia|].
    + exists r. split_and!; try done; try lia. intros Hh. destruct (H1 Hh) as (i & j & ? & ? & ?). exists i, j. split_and!; done || lia.
    + rewrite rbind_ok. eexists. split; [done|]. cbn [fst]. split; [|lia].
      by replace (Z.of_nat f + 1) with (Z.of_nat (S f)) by lia.
Qed.
End proofs.

(** For numbers that are not negative and whose sum fits in an [int], both loops end and
    the result is the length of a shortest run of numbers whose sum reaches the target, or
    zero when there is none. *)
Theorem min_sub_array_len_shortest target nums :
  Forall (fun a => 0 <= a) nums -> psum nums (length nums) <= INT_MAX -> Z.of_nat (length nums) < INT_MAX ->
  exists m, minSubArrayLen target nums = Ok m /\ shortest target nums m.
Proof.
  intros Hpos Hsum Hlen. unfold minSubArrayLen.
  destruct (iter_total (outer_step target nums) (outer_inv target nums) (fun st => Z.to_nat (Z.of_nat (length nums) - st.1))
    (fun vs => outer_inv target nums (Z.of_nat (length nums), vs)) (outer_step_inv target nums Hpos Hsum Hlen)
    (length nums + 2)%nat (0, (0, INT_MAX, 0, 0))) as ([[[hit min_len] sum] rear] & -> & Hvs); [|cbn [fst]; lia|].
  - exists 0%nat, 0%nat. split_and!; try done; try lia. split_and!; try done; lia.
  - destruct Hvs as (f & r & Hf & _ & Hr & _ & H1 & H0 & HA & HB & Hm). assert (f = length nums) as -> by lia.
    rewrite rbind_ok. destruct (hit =? 1) eqn:E; zbool; cbn [negb]; eexists; (split; [done|]).
    + right. destruct (H1 E) as (i & j & Hij & Hw & ->). exists i, j.
      split; [done|]. split; [done|]. split; [done|]. intros i' j' Hij' Hw'. by apply HA.
    + left. split; [done|]. intros i j Hij. destruct (decide (target <= window nums i j)) as [Hw|]; [|lia].
      by destruct (HA i j Hij Hw).
Qed.

Lemma min_sub_array_len_shortest_witness :
  minSubArrayLen 7 [2; 3; 1; 2; 4; 3] = Ok 2 /\
  exists m, minSubArrayLen 7 [2; 3; 1; 2; 4; 3] = Ok m /\ shortest 7 [2; 3; 1; 2; 4; 3] m.
Proof.
  split; [by vm_compute|]. apply min_sub_array_len_shortest; [by_compute|by vm_compute|by vm_compute].
Defined.
End MinSub.

Module Longest.

Definition found (c : Z) (v : list Z) : bool := existsb (Z.eqb c) v.

(** The loop that drops characters from the front until [this_c] is gone. *)
Definition drop_step (this_c rear : Z) (st : Z * list Z) : res (Z * list Z + Z * list Z) :=
  let '(front, this_vec) := st in
  match this_vec with
  | [] => Err OutOfBounds
  | _ :: this_vec' =>
      let front' := front + 1 in
      if front' =? rear then mret (inr (front', this_vec'))
      else if found this_c this_vec' then mret (inl (front', this_vec')) else mret (inr (front', this_vec'))
  end.

Definition window_step (s : list Z) (maxlen : Z) (st : Z * Z * list Z * Z) : res (Z * Z * list Z * Z + Z) :=
  let '(front, rear, this_vec, toplen) := st in
  this_c ← at_ s rear;
  '(front', vec') ← (if found this_c this_vec then iter (length s + 1) (drop_step this_c rear) (front, this_vec)
                     else mret (front, this_vec));
  let vec := vec' ++ [this_c] in
  let toplen' := if toplen <? size vec then size vec else toplen in
  if rear + 1 =? maxlen then mret (inr toplen') else mret (inl (front', rear + 1, vec, toplen')).

Definition lengthOfLongestSubstring (s : list Z) : res Z :=
  maxlen ← int_ (size s);
  if maxlen =? 0 then mret 0
  else iter (length s + 1) (window_step s maxlen) (0, 0, [], 0).

(** The length of a longest substring without a repeated character. *)
Definition longest (s : list Z) (m : Z) : Prop :=
  (exists i k, (i + k <= length s)%nat /\ NoDup (slice i k s) /\ m = Z.of_nat k) /\
  forall i k, (i + k <= length s)%nat -> NoDup (slice i k s) -> Z.of_nat k <= m.

Section proofs.
Context (s : list Z).
Notation n := (length s).

Lemma found_spec c v : found c v = true <-> c ∈ v.
Proof.
  unfold found. rewrite existsb_exists. split.
  - intros (y & Hy & E). zbool. subst. by apply list_elem_of_In.
  - intros Hc. exists c. split; [by apply list_elem_of_In|]. apply Z.eqb_refl.
Qed.
Lemma found_false c v : found c v = false <-> c ∉ v.
Proof. rewrite <- found_spec. by destruct (found c v). Qed.

Lemma nodup_shorter i k : NoDup (slice i (S k) s) -> NoDup (slice i k s).
Proof.
  destruct (s !! (i + k)%nat) as [c|] eqn:E; [rewrite (slice_S _ _ _ _ E); by intros [H _]%NoDup_app|].
  apply lookup_ge_None_1 in E. unfold slice. by rewrite !take_ge by (rewrite length_drop; lia).
Qed.

(** Characters [f] to [r] are in the window; a substring that starts earlier and reaches [r]
    has a repeated character. *)
Definition inside (f r : nat) (v : list Z) : Prop :=
  (f <= r)%nat /\ v = slice f (r - f) s /\ NoDup v /\
  forall i, (i < f)%nat -> ~ NoDup (slice i (r - i) s).

Definition win_inv (st : Z * Z * list Z * Z) : Prop :=
  let '(front, rear, v, toplen) := st in
  exists f r, front = Z.of_nat f /\ rear = Z.of_nat r /\ (r < n)%nat /\ inside f r v /\
  (exists i k, (i + k <= r)%nat /\ NoDup (slice i k s) /\ toplen = Z.of_nat k) /\
  forall i k, (i + k <= r)%nat -> NoDup (slice i k s) -> Z.of_nat k <= toplen.

(** The window after the front was moved for the character at [r]. *)
Definition ready (r : nat) (c : Z) (st : Z * list Z) : Prop :=
  exists f, st.1 = Z.of_nat f /\ (f <= r)%nat /\ st.2 = slice f (r - f) s /\ NoDup st.2 /\ c ∉ st.2 /\
  forall i, (i < f)%nat -> ~ NoDup (slice i (S r - i) s).

Lemma slice_cons f r : (f < r < n)%nat -> exists a, slice f (r - f) s = a :: slice (S f) (r - S f) s.
Proof.
  intros Hf. destruct (lookup_lt_is_Some_2 s f) as [a Ha]; [lia|]. exists a. unfold slice.
  rewrite (drop_S _ _ _ Ha). replace (r - f)%nat with (S (r - S f)) by lia. done.
Qed.

(** A window that has the character at [r] twice. *)
Lemma repeated f r c : (f <= r)%nat -> s !! r = Some c -> c ∈ slice f (r - f) s -> ~ NoDup (slice f (S r - f) s).
Proof.
  intros Hf Hc Hin Hnd. replace (S r - f)%nat with (S (r - f)) in Hnd by lia.
  rewrite (slice_S _ _ _ c) in Hnd by (by replace (f + (r - f))%nat with r by lia).
  apply NoDup_app in Hnd as (_ & Hd & _). apply (Hd c Hin). by left.
Qed.

Lemma drop_loop f r c v : (r < n)%nat -> s !! r = Some c -> inside f r v -> c ∈ v ->
  exists st, iter (n + 1) (drop_step c (Z.of_nat r)) (Z.of_nat f, v) = Ok st /\ ready r c st.
Proof.
  intros Hr Hc (Hf & Hv & Hnd & Hb) Hin.
  apply (iter_total (drop_step c (Z.of_nat r))
    (fun st => exists f, st.1 = Z.of_nat f /\ (f <= r)%nat /\ st.2 = slice f (r - f) s /\ NoDup st.2 /\ c ∈ st.2 /\
       forall i, (i < f)%nat -> ~ NoDup (slice i (S r - i) s)) (fun st => Z.to_nat (Z.of_nat r - st.1)) (ready r c)).
  - intros [front w] (g & E & Hg & Ew & Hw & Hcw & Hbw). cbn [fst snd] in *. subst front.
    assert (g < r)%nat as Hlt.
    { destruct (decide (g = r)) as [->|]; [|lia]. rewrite Ew, Nat.sub_diag in Hcw. by apply not_elem_of_nil in Hcw. }
    assert (forall i, (i < S g)%nat -> ~ NoDup (slice i (S r - i) s)) as Hb'.
    { intros i Hi. destruct (decide (i = g)) as [->|]; [|apply Hbw; lia]. apply (repeated g r c); [lia|done|by rewrite <- Ew]. }
    destruct (slice_cons g r) as [a Ea]; [lia|]. rewrite Ea in Ew. subst w. apply NoDup_cons in Hw as [_ Hw].
    unfold drop_step. destruct (_ =? _) eqn:E; zbool; [|destruct (found c _) eqn:E2].
    + right. eexists. split; [done|]. exists (S g). split_and!; try done; [simpl; lia|].
      assert (S g = r) as -> by lia. cbn [snd]. rewrite Nat.sub_diag. by apply not_elem_of_nil.
    + left. eexists. split; [done|]. split; [|cbn [fst]; lia].
      exists (S g). split_and!; try done; [simpl; lia|]. by apply found_spec.
    + right. eexists. split; [done|]. exists (S g). split_and!; try done; [simpl; lia|]. by apply found_false.
  - exists f. split_and!; try done. intros i Hi Hn. apply (Hb i Hi).
    replace (S r - i)%nat with (S (r - i)) in Hn by lia. by apply nodup_shorter.
  - cbn [fst]. lia.
Qed.

(** One turn of the loop: the new character joins a window without it. *)
Lemma turn f r c v toplen : (r < n)%nat -> s !! r = Some c -> ready r c (Z.of_nat f, v) ->
  (exists i k, (i + k <= r)%nat /\ NoDup (slice i k s) /\ toplen = Z.of_nat k) ->
  (forall i k, (i + k <= r)%nat -> NoDup (slice i k s) -> Z.of_nat k <= toplen) ->
  let top := if toplen <? size (v ++ [c]) then size (v ++ [c]) else toplen in
  inside f (S r) (v ++ [c]) /\
  (exists i k, (i + k <= S r)%nat /\ NoDup (slice i k s) /\ top = Z.of_nat k) /\
  forall i k, (i + k <= S r)%nat -> NoDup (slice i k s) -> Z.of_nat k <= top.
Proof.
  intros Hr Hc (f' & Ef & Hf & Hv & Hnd & Hcv & Hb) (i0 & k0 & H1 & H2 & ->) Hmax top. cbn [fst snd] in *.
  assert (f' = f) as -> by lia. assert (v ++ [c] = slice f (S r - f) s) as Hv'.
  { replace (S r - f)%nat with (S (r - f)) by lia. rewrite (slice_S _ _ _ c); [by rewrite Hv|].
    by replace (f + (r - f))%nat with r by lia. }
  assert (size (v ++ [c]) = Z.of_nat (S r - f)) as Hsz.
  { unfold size. rewrite Hv', length_slice by lia. done. }
  assert (NoDup (v ++ [c])) as Hnd'.
  { apply NoDup_app. split; [done|]. split; [|apply NoDup_singleton]. intros x Hx ->%list_elem_of_singleton. done. }
  unfold top. rewrite Hsz. split; [|split].
  - split_and!; [lia|done|done|done].
  - destruct (Z.of_nat k0 <? Z.of_nat (S r - f)) eqn:E; zbool.
    + exists f, (S r - f)%nat. split; [lia|]. split; [by rewrite <- Hv'|done].
    + exists i0, k0. split; [lia|done].
  - intros i k Hik Hn. destruct (decide (i + k <= r)%nat) as [Hle|].
    + pose proof (Hmax i k Hle Hn). destruct (Z.of_nat k0 <? Z.of_nat (S r - f)) eqn:E; zbool; lia.
    + assert (f <= i)%nat.
      { destruct (decide (f <= i)%nat); [done|]. destruct (Hb i ltac:(lia)). by replace (S r - i)%nat with k by lia. }
      destruct (Z.of_nat k0 <? Z.of_nat (S r - f)) eqn:E; zbool; lia.
Qed.

Lemma window_step_inv st : win_inv st ->
  (exists st', window_step s (size s) st = Ok (inl st') /\ win_inv st' /\
     (Z.to_nat (Z.of_nat n - st'.1.1.2) < Z.to_nat (Z.of_nat n - st.1.1.2))%nat) \/
  (exists m, window_step s (size s) st = Ok (inr m) /\ longest s m).
Proof.
  destruct st as [[[front rear] v] toplen]. intros (f & r & -> & -> & Hr & Hin & Hex & Hmax).
  destruct (lookup_lt_is_Some_2 s r Hr) as [c Hc]. unfold window_step. rewrite (at_nat _ _ _ Hc), rbind_ok.
  assert (exists g w, (if found c v then iter (n + 1) (drop_step c (Z.of_nat r)) (Z.of_nat f, v)
                       else mret (Z.of_nat f, v)) = Ok (Z.of_nat g, w) /\ ready r c (Z.of_nat g, w)) as (g & w & -> & Hrd).
  { destruct (found c v) eqn:E.
    - apply found_spec in E. destruct (drop_loop f r c v Hr Hc Hin E) as ([g' w] & -> & Hrd).
      destruct Hrd as (g & Eg & Hrest). cbn [fst] in Eg. subst g'. exists g, w. split; [done|]. by exists g.
    - exists f, v. split; [done|]. apply found_false in E. destruct Hin as (Hf & Hv & Hnd & Hb). exists f.
      split_and!; try done. intros i Hi Hn. apply (Hb i Hi). replace (S r - i)%nat with (S (r - i)) in Hn by lia.
      by apply nodup_shorter. }
  rewrite rbind_ok. destruct (turn g r c w toplen Hr Hc Hrd Hex Hmax) as (Hin' & Hex' & Hmax').
  destruct (_ =? size s) eqn:E; zbool; unfold size in E.
  - right. eexists. split; [done|]. assert (S r = n) as Hn by lia. rewrite Hn in *. by split.
  - left. eexists. split; [done|]. cbn [fst snd]. split; [|lia].
    exists g, (S r). split_and!; try done; lia.
Qed.
End proofs.

(** The result is the length of a longest substring without a repeated character, for every
    string, and both loops end. *)
Theorem longest_substring_is_longest s : is_int (size s) ->
  exists m, lengthOfLongestSubstring s = Ok m /\ longest s m.
Proof.
  intros Hs. unfold lengthOfLongestSubstring. rewrite int_ok, rbind_ok by done.
  destruct (_ =? 0) eqn:E; zbool; unfold size in E.
  - exists 0. split; [done|]. destruct s; [|done]. split; [exists 0%nat, 0%nat; split_and!; [done|constructor|done]|].
    intros i k Hik _. simpl in Hik. lia.
  - apply (iter_total _ (win_inv s) (fun st => Z.to_nat (Z.of_nat (length s) - st.1.1.2)) (longest s)).
    + apply window_step_inv.
    + exists 0%nat, 0%nat. split; [done|]. split; [done|]. split; [lia|]. split.
      { split; [lia|]. split; [done|]. split; [constructor|lia]. }
      split; [exists 0%nat, 0%nat; split; [lia|]; split; [constructor|done]|]. intros i k Hik _. lia.
    + cbn [fst snd]. lia.
Qed.

Lemma longest_substring_is_longest_witness :
  lengthOfLongestSubstring [97; 98; 99; 97; 98; 98; 100] = Ok 3 /\
  exists m, lengthOfLongestSubstring [97; 98; 99; 97; 98; 98; 100] = Ok m /\ longest [97; 98; 99; 97; 98; 98; 100] m.
Proof. split; [by vm_compute|]. apply longest_substring_is_longest. by_compute. Defined.
End Longest.
