(* ===== verification/CcArrays.v ===== *)
(** * Arrays and counting

    src/0xetc/0xcc/array (merging sorted arrays, removing an element) and
    src/0xetc/0xcc/hashmap (two numbers with a given sum, building a note from the letters of
    a magazine). [std::sort] is a function that sorts, [std::map] a finite map. *)
From stdpp Require Import base numbers list gmap sorting.
From S2P Require Import Prelude CBase.
Local Open Scope Z_scope.

Module Arrays.

(** ** Merging *)

Definition sort (v : list Z) : list Z := merge_sort Z.le v.

(** [nums1] after the call. *)
Definition merge (nums1 : list Z) (m : Z) (nums2 : list Z) (n : Z) : res (list Z) :=
  if (m =? 0) && (n =? 0) then mret nums1
  else if n =? 0 then mret nums1
  else
    '(nums1', _) ← for_res (Z.to_nat n) 0 (fun i '(v, idx) =>
      a ← at_ nums2 i;
      v' ← set_at v idx a;
      idx' ← int_ (idx + 1);
      mret (v', idx')) (nums1, m);
    mret (sort nums1').

Lemma merge_loop (a junk b : list Z) : length junk = length b -> Z.of_nat (length (a ++ b)) <= INT_MAX ->
  for_res (length b) 0 (fun i '(v, idx) =>
      c ← at_ b i; v' ← set_at v idx c; idx' ← int_ (idx + 1); mret (v', idx')) (a ++ junk, size a) =
  Ok (a ++ b, size (a ++ b)).
Proof.
  intros Hj Hlen. destruct (for_res_inv (fun i '(v, idx) =>
      c ← at_ b i; v' ← set_at v idx c; idx' ← int_ (idx + 1); mret (v', idx'))
    (fun k st => st = (a ++ take (Z.to_nat k) b ++ drop (Z.to_nat k) junk, size a + k)) (length b) 0 (a ++ junk, size a))
    as (st & E & Hst).
  - intros k st Hk ->. destruct (at_some b k) as (c & Hc & ->); [unfold size; lia|]. rewrite rbind_ok.
    destruct (lookup_lt_is_Some_2 junk (Z.to_nat k)) as [j Hjk]; [lia|].
    rewrite set_at_ok, rbind_ok; last first.
    { unfold size. rewrite !length_app, length_take, length_drop. lia. }
    rewrite length_app in Hlen. unfold size. rewrite int_ok, rbind_ok by (unfold is_int, INT_MIN; lia).
    eexists. split; [done|]. f_equal; [|lia].
    replace (Z.to_nat (Z.of_nat (length a) + k)) with (length a + Z.to_nat k)%nat by lia.
    replace (Z.to_nat (k + 1)) with (S (Z.to_nat k)) by lia.
    rewrite insert_app_r. f_equal. rewrite (take_S_r _ _ _ Hc), <- app_assoc.
    assert (length (take (Z.to_nat k) b) = Z.to_nat k) as Hl by (rewrite length_take; lia).
    rewrite <- Hl at 1. rewrite <- (Nat.add_0_r (length _)), insert_app_r. f_equal. by rewrite (drop_S _ _ _ Hjk).
  - f_equal. lia.
  - rewrite E, Hst. unfold size. rewrite length_app. do 3 f_equal; [|lia].
    rewrite take_ge, drop_ge by lia. by rewrite app_nil_r.
Qed.

(** With room for the second array behind the [m] elements of the first, the first array
    afterwards holds the elements of both in ascending order. *)
Theorem merge_sorts_both (a junk b : list Z) : Sorted Z.le a -> length junk = length b -> Z.of_nat (length (a ++ b)) <= INT_MAX ->
  exists r, merge (a ++ junk) (size a) b (size b) = Ok r /\ Sorted Z.le r /\ r ≡ₚ a ++ b.
Proof.
  intros Ha Hj Hlen. unfold merge. destruct (decide (b = [])) as [->|Hb].
  - destruct junk; [|done]. rewrite !app_nil_r. exists a. rewrite andb_comm. cbn. by destruct (size a =? 0).
  - assert (0 < size b) by (unfold size; destruct b; [done|simpl; lia]).
    destruct (size b =? 0) eqn:E; [zbool; lia|]. rewrite andb_false_r. replace (Z.to_nat (size b)) with (length b) by (unfold size; lia).
    rewrite merge_loop, rbind_ok by done. exists (sort (a ++ b)). split; [done|]. unfold sort. split.
    + apply Sorted_merge_sort. intros x y. lia.
    + apply merge_sort_Permutation.
Qed.

Lemma merge_sorts_both_witness :
  merge [1; 2; 3; 0; 0; 0] 3 [2; 5; 6] 3 = Ok [1; 2; 2; 3; 5; 6] /\
  exists r, merge ([1; 2; 3] ++ [0; 0; 0]) (size [1; 2; 3]) [2; 5; 6] (size [2; 5; 6]) = Ok r /\ Sorted Z.le r /\ r ≡ₚ [1; 2; 3] ++ [2; 5; 6].
Proof.
  split; [by vm_compute|]. apply merge_sorts_both; [|done|by vm_compute]. repeat constructor; lia.
Defined.

(** ** Removing *)

Definition removeElement (nums : list Z) (val : Z) : res (Z * list Z) :=
  nsize ← int_ (size nums);
  for_res (Z.to_nat nsize) 0 (fun i '(ans, nums) =>
    a ← at_ nums i;
    if negb (a =? val) then
      v ← set_at nums ans a;
      ans' ← int_ (ans + 1);
      mret (ans', v)
    else mret (ans, nums)) (0, nums).

(** The number of elements other than [val] is returned, and the array starts with those
    elements in their order; what is behind them is left as it was. *)
Theorem remove_element_filters nums val : is_int (size nums) ->
  let kept := filter (fun a => a <> val) nums in
  removeElement nums val = Ok (size kept, kept ++ drop (length kept) nums).
Proof.
  intros Hs kept. unfold removeElement. rewrite int_ok, rbind_ok by done.
  replace (Z.to_nat (size nums)) with (length nums) by (unfold size; lia).
  set (pre k := filter (fun a => a <> val) (take k nums)).
  assert (forall k, (length (pre k) <= k)%nat) as Hle.
  { intros k. unfold pre. etransitivity; [apply length_filter|]. rewrite length_take. lia. }
  destruct (for_res_inv (fun i '(ans, nums) =>
    a ← at_ nums i;
    if negb (a =? val) then v ← set_at nums ans a; ans' ← int_ (ans + 1); mret (ans', v) else mret (ans, nums))
    (fun k st => let p := pre (Z.to_nat k) in st = (size p, p ++ drop (length p) nums)) (length nums) 0 (0, nums))
    as (st & E & Hst).
  - intros k st Hk ->. set (p := pre (Z.to_nat k)). pose proof (Hle (Z.to_nat k)) as Hp. fold p in Hp.
    destruct (lookup_lt_is_Some_2 nums (Z.to_nat k)) as [a Ha]; [lia|].
    rewrite (at_ok _ k a), rbind_ok; [|rewrite lookup_app_r, lookup_drop by done; rewrite <- Ha; f_equal; lia|lia].
    replace (Z.to_nat (k + 1)) with (S (Z.to_nat k)) by lia.
    assert (pre (S (Z.to_nat k)) = p ++ filter (fun a => a <> val) [a]) as Hpre.
    { unfold p, pre. by rewrite (take_S_r _ _ _ Ha), filter_app. }
    rewrite Hpre. destruct (a =? val) eqn:Ea; zbool; cbn [negb].
    + rewrite filter_cons_False by (intros H; by apply H). cbn. rewrite app_nil_r. eauto.
    + rewrite filter_cons_True by done. rewrite filter_nil.
      rewrite set_at_ok, rbind_ok by (unfold size; rewrite length_app, length_drop; lia).
      rewrite int_ok, rbind_ok by (unfold is_int, INT_MIN, size in *; lia). eexists. split; [done|].
      unfold size. rewrite length_app. cbn [length]. f_equal; [lia|]. rewrite Nat2Z.id.
      rewrite <- (Nat.add_0_r (length p)) at 1. rewrite insert_app_r, <- app_assoc. f_equal.
      destruct (lookup_lt_is_Some_2 nums (length p)) as [c Hc]; [lia|]. rewrite (drop_S _ _ _ Hc).
      replace (length p + 1)%nat with (S (length p)) by lia. done.
  - done.
  - rewrite E, Hst. cbv zeta. replace (Z.to_nat (0 + Z.of_nat (length nums))) with (length nums) by lia.
    unfold pre. by rewrite firstn_all.
Qed.

Lemma remove_element_filters_witness :
  removeElement [3; 2; 2; 3; 4] 3 = Ok (3, [2; 2; 4; 3; 4]) /\
  (let kept := filter (fun a => a <> 3) [3; 2; 2; 3; 4] in
   removeElement [3; 2; 2; 3; 4] 3 = Ok (size kept, kept ++ drop (length kept) [3; 2; 2; 3; 4])).
Proof. split; [by vm_compute|]. apply remove_element_filters. by_compute. Defined.
End Arrays.

Module HashMap.

(** ** The ransom note *)

(** The first loop: how often each letter is in the magazine. *)
Definition count_letters (magazine : list Z) : res (gmap Z Z) :=
  mag_size ← int_ (size magazine);
  for_res (Z.to_nat mag_size) 0 (fun i (mag_map : gmap Z Z) =>
    mkey ← at_ magazine i;
    match mag_map !! mkey with
    | None => mret (<[mkey := 1]> mag_map)
    | Some c => c' ← int_ (c + 1); mret (<[mkey := c']> mag_map)
    end) ∅.

Definition use_letter (ransomNote : list Z) (ran_size : Z) (st : Z * gmap Z Z) : res (Z * gmap Z Z + bool) :=
  let '(i, mag_map) := st in
  if ran_size <=? i then mret (inr true)
  else
    rkey ← at_ ransomNote i;
    match mag_map !! rkey with
    | None => mret (inr false)
    | Some c =>
        count ← int_ (c - 1);
        if count <? 0 then mret (inr false) else mret (inl (i + 1, <[rkey := count]> mag_map))
    end.

Definition canConstruct (ransomNote magazine : list Z) : res bool :=
  ran_size ← int_ (size ransomNote);
  mag_map ← count_letters magazine;
  iter (S (length ransomNote)) (use_letter ransomNote ran_size) (0, mag_map).

(** The map counts the letters of [L]. *)
Definition occurrences (c : Z) (L : list Z) : Z := size (filter (fun x => x = c) L).
Definition counts (m : gmap Z Z) (L : list Z) : Prop :=
  forall c, default 0 (m !! c) = occurrences c L.

Lemma occurrences_app c L L' : occurrences c (L ++ L') = occurrences c L + occurrences c L'.
Proof. unfold occurrences, size. rewrite filter_app, length_app. lia. Qed.
Lemma occurrences_cons c x L : occurrences c (x :: L) = (if bool_decide (x = c) then 1 else 0) + occurrences c L.
Proof.
  unfold occurrences, size. rewrite filter_cons. destruct (decide (x = c)) as [->|].
  - rewrite bool_decide_eq_true_2 by done. cbn [length]. lia.
  - rewrite bool_decide_eq_false_2 by done. lia.
Qed.
Lemma occurrences_nonneg c L : 0 <= occurrences c L.
Proof. unfold occurrences, size. lia. Qed.
Lemma occurrences_le c L : occurrences c L <= size L.
Proof. unfold occurrences, size. pose proof (length_filter (fun x => x = c) L). lia. Qed.
Lemma occurrences_zero c L : occurrences c L = 0 -> c ∉ L.
Proof.
  unfold occurrences, size. intros H Hin. assert (c ∈ filter (fun x => x = c) L) as Hf by (by apply list_elem_of_filter).
  destruct (filter _ L); [by apply not_elem_of_nil in Hf|simpl in H; lia].
Qed.

Lemma count_letters_spec magazine : is_int (size magazine) ->
  exists m, count_letters magazine = Ok m /\ counts m magazine.
Proof.
  intros Hs. unfold count_letters. rewrite int_ok, rbind_ok by done.
  replace (Z.to_nat (size magazine)) with (length magazine) by (unfold size; lia).
  destruct (for_res_inv (fun i (mag_map : gmap Z Z) =>
    mkey ← at_ magazine i;
    match mag_map !! mkey with
    | None => mret (<[mkey := 1]> mag_map)
    | Some c => c' ← int_ (c + 1); mret (<[mkey := c']> mag_map)
    end) (fun k m => counts m (take (Z.to_nat k) magazine)) (length magazine) 0 ∅) as (m & E & Hm).
  - intros k m Hk Hm. destruct (at_some magazine k) as (x & Hx & ->); [unfold size; lia|]. rewrite rbind_ok.
    replace (Z.to_nat (k + 1)) with (S (Z.to_nat k)) by lia. rewrite (take_S_r _ _ _ Hx).
    pose proof (Hm x) as Hmx. pose proof (occurrences_le x (take (Z.to_nat k) magazine)) as Hle.
    pose proof (occurrences_nonneg x (take (Z.to_nat k) magazine)).
    unfold size in Hle. rewrite length_take in Hle. destruct (m !! x) as [c|] eqn:Em; simpl in Hmx.
    + rewrite int_ok, rbind_ok by (unfold is_int, INT_MIN, size in *; lia). eexists. split; [done|].
      intros y. rewrite occurrences_app, occurrences_cons. change (occurrences y []) with 0.
      case_bool_decide as Hy; [subst; rewrite lookup_insert_eq; simpl; lia|].
      rewrite lookup_insert_ne by done. rewrite (Hm y). lia.
    + eexists. split; [done|]. intros y. rewrite occurrences_app, occurrences_cons. change (occurrences y []) with 0.
      case_bool_decide as Hy; [subst; rewrite lookup_insert_eq; simpl; lia|].
      rewrite lookup_insert_ne by done. rewrite (Hm y). lia.
  - intros y. done.
  - exists m. split; [done|]. replace (Z.to_nat (0 + Z.of_nat (length magazine))) with (length magazine) in Hm by lia.
    by rewrite firstn_all in Hm.
Qed.

Lemma submseteq_same_head (c : Z) l k : c :: l ⊆+ c :: k <-> l ⊆+ k.
Proof.
  split; [|apply submseteq_skip]. intros (k' & Hk & Hl)%submseteq_cons_l.
  apply Permutation_cons_inv in Hk. by rewrite Hk.
Qed.

(** One letter of the note: it comes from the magazine, or there is none left. *)
Lemma use_letter_inv note mag st : is_int (size mag) ->
  let inv (st : Z * gmap Z Z) := exists L, 0 <= st.1 <= size note /\ counts st.2 L /\ size L <= size mag /\
    (note ⊆+ mag <-> drop (Z.to_nat st.1) note ⊆+ L) in
  inv st ->
  (exists st', use_letter note (size note) st = Ok (inl st') /\ inv st' /\
     (Z.to_nat (size note - st'.1) < Z.to_nat (size note - st.1))%nat) \/
  (exists b, use_letter note (size note) st = Ok (inr b) /\ b = bool_decide (note ⊆+ mag)).
Proof.
  intros Hs inv. destruct st as [i m]. intros (L & Hi & Hc & HL & Hsub). cbn [fst snd] in *. unfold use_letter.
  destruct (size note <=? i) eqn:E; zbool.
  - right. exists true. split; [done|]. symmetry. apply bool_decide_eq_true_2, Hsub.
    rewrite drop_ge by (unfold size in *; lia). apply submseteq_nil_l.
  - destruct (at_some note i) as (c & Hci & ->); [lia|]. rewrite rbind_ok. pose proof (Hc c) as Hmc.
    rewrite (drop_S _ _ _ Hci) in Hsub.
    assert (occurrences c L = 0 -> false = bool_decide (note ⊆+ mag)) as Hno.
    { intros H0. symmetry. apply bool_decide_eq_false_2. intros H%Hsub.
      apply (occurrences_zero c L H0). eapply elem_of_submseteq; [|exact H]. by left. }
    destruct (m !! c) as [k|] eqn:Em; simpl in Hmc; [|right; exists false; split; [done|by apply Hno]].
    pose proof (occurrences_nonneg c L). pose proof (occurrences_le c L).
    rewrite int_ok, rbind_ok by (unfold is_int, INT_MIN in *; lia).
    destruct (k - 1 <? 0) eqn:Ek; zbool; [right; exists false; split; [done|apply Hno; lia]|].
    left. eexists. split; [done|]. cbn [fst]. split; [|lia].
    assert (c ∈ L) as [L1 [L2 ->]]%list_elem_of_split.
    { destruct (filter (fun x => x = c) L) as [|y l] eqn:Ef.
      - unfold occurrences, size in Hmc. rewrite Ef in Hmc. simpl in Hmc. lia.
      - assert (y ∈ filter (fun x => x = c) L) as [-> Hy]%list_elem_of_filter by (rewrite Ef; by left). done. }
    assert (size (L1 ++ L2) <= size mag) by (unfold size in *; rewrite length_app in *; simpl in *; lia).
    exists (L1 ++ L2). split; [simpl; lia|]. split; [|split; [done|]].
    + intros y. cbn [snd]. rewrite occurrences_app. pose proof (Hc y) as Hy.
      rewrite occurrences_app, occurrences_cons in Hy, Hmc.
      destruct (decide (c = y)) as [->|].
      * rewrite lookup_insert_eq. rewrite bool_decide_eq_true_2 in Hmc by done. simpl. lia.
      * rewrite lookup_insert_ne by done. rewrite bool_decide_eq_false_2 in Hy by done. lia.
    + cbn [fst]. replace (Z.to_nat (i + 1)) with (S (Z.to_nat i)) by lia. rewrite Hsub, <- Permutation_middle. apply submseteq_same_head.
Qed.

(** The note can be built exactly when its letters, with their multiplicities, are among
    those of the magazine. *)
Theorem can_construct_exact note mag : is_int (size note) -> is_int (size mag) ->
  canConstruct note mag = Ok (bool_decide (note ⊆+ mag)).
Proof.
  intros Hn Hm. unfold canConstruct. rewrite int_ok, rbind_ok by done.
  destruct (count_letters_spec mag Hm) as (m & -> & Hc). rewrite rbind_ok.
  destruct (iter_total (use_letter note (size note)) _ (fun st => Z.to_nat (size note - st.1)) _
    (fun st => use_letter_inv note mag st Hm) (S (length note)) (0, m)) as (b & -> & ->); [| |done].
  - exists mag. cbn [fst snd]. split_and!; try done; unfold size; lia.
  - cbn [fst]. unfold size. lia.
Qed.

Lemma can_construct_exact_witness :
  canConstruct [97; 97] [97; 98] = Ok false /\ canConstruct [97; 97] [97; 98; 97] = Ok true /\
  canConstruct [97; 97] [97; 98; 97] = Ok (bool_decide ([97; 97] ⊆+ [97; 98; 97])).
Proof. split; [by vm_compute|]. split; [by vm_compute|]. apply can_construct_exact; by_compute. Defined.

(** ** Two numbers with a given sum *)

(** The loop over the second index. *)
Definition second_step (nums : list Z) (target front nsize i : Z) : res (Z + option (Z * Z)) :=
  if nsize <=? i then mret (inr None)
  else
    a ← at_ nums front;
    b ← at_ nums i;
    thisval ← int_ (a + b);
    if thisval =? target then mret (inr (Some (front, i))) else mret (inl (i + 1)).

Definition first_step (nums : list Z) (target nsize front : Z) : res (Z + Z * Z) :=
  i ← int_ (front + 1);
  r ← iter (S (length nums)) (second_step nums target front nsize) i;
  match r with
  | Some ans => mret (inr ans)
  | None => front' ← int_ (front + 1); mret (inl front')
  end.

(** The source does not bound the loop over the first index. *)
Definition twoSum (fuel : nat) (nums : list Z) (target : Z) : res (Z * Z) :=
  nsize ← int_ (size nums);
  iter fuel (first_step nums target nsize) 0.

Definition is_pair (nums : list Z) (target : Z) (i j : nat) : Prop :=
  (i < j)%nat /\ exists a b, nums !! i = Some a /\ nums !! j = Some b /\ a + b = target.

Section two_sum.
Context (nums : list Z) (target : Z).
Context (Hfit : forall i j a b, nums !! i = Some a -> nums !! j = Some b -> is_int (a + b)).

(** The first partner of an element, if it has one. *)
Lemma second_loop front : (front < length nums)%nat ->
  exists r, iter (S (length nums)) (second_step nums target (Z.of_nat front) (size nums)) (Z.of_nat front + 1) = Ok r /\
  match r with
  | Some (f, j) => f = Z.of_nat front /\ exists j', j = Z.of_nat j' /\ is_pair nums target front j' /\
      forall k, (k < j')%nat -> ~ is_pair nums target front k
  | None => forall k, ~ is_pair nums target front k
  end.
Proof.
  intros Hf. destruct (lookup_lt_is_Some_2 nums front Hf) as [a Ha].
  apply (iter_total (second_step nums target (Z.of_nat front) (size nums))
    (fun i => Z.of_nat front < i /\ forall k, Z.of_nat k < i -> ~ is_pair nums target front k)
    (fun i => Z.to_nat (size nums - i)) (fun r => match r with
      | Some (f, j) => f = Z.of_nat front /\ exists j', j = Z.of_nat j' /\ is_pair nums target front j' /\
          forall k, (k < j')%nat -> ~ is_pair nums target front k
      | None => forall k, ~ is_pair nums target front k end)).
  - intros i [Hi Hno]. unfold second_step. destruct (size nums <=? i) eqn:E; zbool.
    + right. exists None. split; [done|]. intros k Hk. destruct (decide (Z.of_nat k < i)) as [H|H]; [by apply (Hno k H)|].
      destruct Hk as (_ & a' & b & _ & Hb & _). apply lookup_lt_Some in Hb. unfold size in E. lia.
    + rewrite (at_nat _ _ _ Ha), rbind_ok. destruct (at_some nums i) as (b & Hb & ->); [lia|]. rewrite rbind_ok.
      rewrite int_ok, rbind_ok by (by eapply Hfit). destruct (_ =? target) eqn:Et; zbool.
      * right. eexists. split; [done|]. split; [done|]. exists (Z.to_nat i). split_and!; [lia| |].
        -- split; [lia|]. exists a, b. done.
        -- intros k Hk. apply Hno. lia.
      * left. exists (i + 1). split; [done|]. split; [|lia]. split; [lia|]. intros k Hk.
        destruct (decide (Z.of_nat k = i)) as [<-|]; [|apply Hno; lia]. intros (_ & a' & b' & Ha' & Hb' & Hsum).
        rewrite Nat2Z.id in Hb. congruence.
  - split; [lia|]. intros k Hk [H _]. lia.
  - unfold size. lia.
Qed.

(** One turn of the outer loop. *)
Lemma first_step_pair front : Z.of_nat front < INT_MAX ->
  (exists j, is_pair nums target front j /\ (forall k, (k < j)%nat -> ~ is_pair nums target front k) /\
     first_step nums target (size nums) (Z.of_nat front) = Ok (inr (Z.of_nat front, Z.of_nat j))) \/
  ((forall k, ~ is_pair nums target front k) /\
   first_step nums target (size nums) (Z.of_nat front) = Ok (inl (Z.of_nat (S front)))).
Proof.
  intros Hm. unfold first_step. rewrite int_ok, rbind_ok by (unfold is_int, INT_MIN; lia).
  destruct (decide (front < length nums)%nat) as [Hf|Hf].
  - destruct (second_loop front Hf) as ([[f j]|] & -> & Hr); rewrite rbind_ok.
    + destruct Hr as (-> & j' & -> & Hp & Hno). left. exists j'. done.
    + right. split; [done|]. rewrite rbind_ok.
      by replace (Z.of_nat front + 1) with (Z.of_nat (S front)) by lia.
  - right. split; [intros k (_ & a & b & Ha & _); apply lookup_lt_Some in Ha; lia|].
    rewrite (iter_leave _ _ _ None), rbind_ok; last first.
    { unfold second_step, size. destruct (_ <=? _) eqn:E; [done|]. zbool. lia. }
    rewrite rbind_ok. by replace (Z.of_nat front + 1) with (Z.of_nat (S front)) by lia.
Qed.

(** Without a pair the loop goes on until the index overflows. *)
Lemma no_pair_overflows (Hno : forall i j, ~ is_pair nums target i j) k fuel front :
  Z.of_nat front + Z.of_nat k = INT_MAX -> (k < fuel)%nat ->
  iter fuel (first_step nums target (size nums)) (Z.of_nat front) = Err Overflow.
Proof.
  revert fuel front. induction k as [|k IH]; intros fuel front Hk Hf; (destruct fuel as [|fuel]; [lia|]).
  - cbn [iter]. unfold first_step. rewrite int_overflow; [done|]. unfold is_int. lia.
  - destruct (first_step_pair front ltac:(lia)) as [(j & Hp & _)|[_ E]]; [by destruct (Hno front j)|].
    rewrite (iter_step _ _ _ _ E). apply IH; lia.
Qed.
End two_sum.

(** When some pair of numbers has the sum, the loops end and return the first such pair in
    the order of the indices. *)
Theorem two_sum_first_pair fuel nums target p q : is_int (size nums) ->
  (forall i j a b, nums !! i = Some a -> nums !! j = Some b -> is_int (a + b)) ->
  is_pair nums target p q -> (length nums < fuel)%nat ->
  exists i j, twoSum fuel nums target = Ok (Z.of_nat i, Z.of_nat j) /\ is_pair nums target i j /\
    forall i' j', is_pair nums target i' j' -> (i < i' \/ i = i' /\ j <= j')%nat.
Proof.
  intros Hs Hfit Hpq Hfuel. unfold twoSum. rewrite int_ok, rbind_ok by done.
  assert (p < length nums)%nat as Hpl by (destruct Hpq as (_ & a & b & Ha & _); by eapply lookup_lt_Some).
  destruct (iter_total (first_step nums target (size nums))
    (fun front => exists f, front = Z.of_nat f /\ (f <= p)%nat /\ forall i j, (i < f)%nat -> ~ is_pair nums target i j)
    (fun front => Z.to_nat (size nums - front))
    (fun ans => exists i j, ans = (Z.of_nat i, Z.of_nat j) /\ is_pair nums target i j /\
       forall i' j', is_pair nums target i' j' -> (i < i' \/ i = i' /\ j <= j')%nat)) with (fuel := fuel) (s := 0)
    as (ans & -> & i & j & -> & H); [| | |eauto].
  - intros front (f & -> & Hf & Hno). assert (Z.of_nat f < INT_MAX) as Hfm by (unfold is_int, size in Hs; lia).
    destruct (first_step_pair nums target Hfit f Hfm) as [(j & Hp & Hj & E)|[Hnone E]]; rewrite E.
    + right. eexists. split; [done|]. exists f, j. split; [done|]. split; [done|]. intros i' j' Hp'.
      destruct (decide (i' < f)%nat) as [Hlt|]; [by destruct (Hno i' j' Hlt)|].
      destruct (decide (i' = f)) as [->|]; [|lia]. destruct (decide (j' < j)%nat) as [Hlt|]; [by destruct (Hj j' Hlt)|lia].
    + left. eexists. split; [done|]. split; [|unfold size; lia]. exists (S f). split; [done|].
      split; [destruct (decide (f = p)) as [->|]; [by destruct (Hnone q)|lia]|].
      intros i j Hi. destruct (decide (i = f)) as [->|]; [apply Hnone|apply Hno; lia].
  - exists 0%nat. split_and!; lia.
  - unfold size. lia.
Qed.

Lemma two_sum_first_pair_witness :
  twoSum 9 [3; 2; 4; 2] 6 = Ok (1, 2) /\
  exists i j, twoSum 9 [3; 2; 4; 2] 6 = Ok (Z.of_nat i, Z.of_nat j) /\ is_pair [3; 2; 4; 2] 6 i j /\
    forall i' j', is_pair [3; 2; 4; 2] 6 i' j' -> (i < i' \/ i = i' /\ j <= j')%nat.
Proof.
  split; [by vm_compute|]. apply (two_sum_first_pair 9 [3; 2; 4; 2] 6 2%nat 3%nat); [by_compute| | |simpl; lia].
  - intros i j a b Ha Hb. apply list_elem_of_lookup_2 in Ha, Hb.
    rewrite !elem_of_cons in Ha, Hb. rewrite elem_of_nil in Ha, Hb. unfold is_int, INT_MIN, INT_MAX. lia.
  - split; [lia|]. exists 4, 2. done.
Defined.

(** When no two numbers have the sum, the function does not return: the index of the outer
    loop grows until it overflows. *)
Theorem two_sum_without_pair_overflows fuel nums target : is_int (size nums) ->
  (forall i j a b, nums !! i = Some a -> nums !! j = Some b -> is_int (a + b)) ->
  (forall i j, ~ is_pair nums target i j) -> INT_MAX < Z.of_nat fuel ->
  twoSum fuel nums target = Err Overflow.
Proof.
  intros Hs Hfit Hno Hfuel. unfold twoSum. rewrite int_ok, rbind_ok by done.
  apply (no_pair_overflows nums target Hfit Hno (Z.to_nat INT_MAX) fuel 0%nat); unfold INT_MAX in *; lia.
Qed.

Lemma two_sum_without_pair_overflows_witness : twoSum (Z.to_nat 2147483648) [1; 2] 5 = Err Overflow.
Proof.
  apply two_sum_without_pair_overflows; [by_compute| | |unfold INT_MAX; lia].
  - intros i j a b Ha Hb. apply list_elem_of_lookup_2 in Ha, Hb.
    rewrite !elem_of_cons in Ha, Hb. rewrite elem_of_nil in Ha, Hb. unfold is_int, INT_MIN, INT_MAX. lia.
  - intros i j (Hij & a & b & Ha & Hb & Hab). apply list_elem_of_lookup_2 in Ha as Ha', Hb as Hb'.
    rewrite !elem_of_cons in Ha', Hb'. rewrite elem_of_nil in Ha', Hb'. lia.
Defined.
End HashMap.
