(* ===== verification/CcMatrix.v ===== *)
(** * Sudoku boards

    src/0xetc/0xcc/matrix/valid-sudoku: one pass over the board checks the rows, the columns
    and, at their first cells, the boxes. *)
From stdpp Require Import base numbers list gmap.
From S2P Require Import Prelude CBase.
Local Open Scope Z_scope.

Module Sudoku.

Definition at2 (board : list (list Z)) (i j : Z) : res Z := row ← at_ board i; at_ row j.

(** A cell joins the digits seen so far; a digit that was seen ends the check. *)
Definition join (c : Z) (seen : list Z) : list Z + bool :=
  if c =? 46 then inl seen
  else if existsb (Z.eqb c) seen then inr false else inl (seen ++ [c]).

Definition check_box (board : list (list Z)) (i j : Z) : res (list Z + bool) :=
  for_exit 3 i (fun si sub => for_exit 3 j (fun sj sub =>
    subc ← at2 board si sj; mret (join subc sub)) sub) [].

Definition check_cell (board : list (list Z)) (i j : Z) (st : list Z * list Z) : res (list Z * list Z + bool) :=
  let '(x, y) := st in
  r ← (if (i mod 3 =? 0) && (j mod 3 =? 0) then check_box board i j else mret (inl []));
  match r with
  | inr b => mret (inr b)
  | inl _ =>
      xc ← at2 board i j;
      yc ← at2 board j i;
      match join xc x with
      | inr b => mret (inr b)
      | inl x' => match join yc y with inr b => mret (inr b) | inl y' => mret (inl (x', y')) end
      end
  end.

Definition isValidSudoku (board : list (list Z)) : res bool :=
  r ← for_exit 9 0 (fun i _ =>
    r ← for_exit 9 0 (check_cell board i) ([], []);
    match r with inr b => mret (inr b) | inl _ => mret (inl tt) end) tt;
  match r with inr b => mret b | inl _ => mret true end.

(** ** Boards *)

Definition is_board (board : list (list Z)) : Prop :=
  length board = 9%nat /\ Forall (fun row => length row = 9%nat) board.

Definition cell (board : list (list Z)) (i j : nat) : Z := default 0 (board !! i ≫= fun row => row !! j).
Definition filled (cells : list Z) : list Z := filter (fun c => c <> 46) cells.

(** The first [k] cells of a row and of a column, and the cells of the first [k] rows of the
    box at [i], [j]. *)
Definition row_cells (b : list (list Z)) (i j k : nat) : list Z := cell b i <$> seq j k.
Definition col_cells (b : list (list Z)) (j k : nat) : list Z := (fun i => cell b i j) <$> seq 0 k.
Definition box_cells (b : list (list Z)) (i j k : nat) : list Z := seq i k ≫= fun si => row_cells b si j 3.

(** No digit twice in a row, a column or a box. *)
Definition valid (b : list (list Z)) : Prop :=
  (forall i, (i < 9)%nat -> NoDup (filled (row_cells b i 0 9))) /\
  (forall j, (j < 9)%nat -> NoDup (filled (col_cells b j 9))) /\
  (forall i j, (i < 3)%nat -> (j < 3)%nat -> NoDup (filled (box_cells b (3 * i) (3 * j) 3))).

Section proofs.
Context (b : list (list Z)) (Hb : is_board b).

Lemma at2_cell i j : (i < 9)%nat -> (j < 9)%nat -> at2 b (Z.of_nat i) (Z.of_nat j) = Ok (cell b i j).
Proof.
  intros Hi Hj. destruct Hb as [Hl Hr]. destruct (lookup_lt_is_Some_2 b i) as [row Hrow]; [lia|].
  pose proof (Forall_lookup_1 _ _ _ _ Hr Hrow) as Hlr. simpl in Hlr.
  destruct (lookup_lt_is_Some_2 row j) as [c Hc]; [lia|].
  unfold at2, cell. rewrite (at_nat _ _ _ Hrow), rbind_ok, (at_nat _ _ _ Hc). by rewrite Hrow; simpl; rewrite Hc.
Qed.

Lemma filled_app l l' : filled (l ++ l') = filled l ++ filled l'.
Proof. apply filter_app. Qed.
Lemma filled_one c : filled [c] = if c =? 46 then [] else [c].
Proof. unfold filled. rewrite filter_cons. destruct (decide (c <> 46)), (c =? 46) eqn:E; zbool; done. Qed.

(** Joining a cell, when the digits so far are those of [cells]. *)
Lemma join_spec c cells : NoDup (filled cells) ->
  match join c (filled cells) with
  | inl seen => seen = filled (cells ++ [c]) /\ NoDup seen
  | inr r => r = false /\ ~ NoDup (filled (cells ++ [c]))
  end.
Proof.
  intros Hn. unfold join. rewrite filled_app, filled_one. destruct (c =? 46) eqn:E; zbool; [by rewrite app_nil_r|].
  destruct (existsb _ _) eqn:Ex.
  - split; [done|]. apply existsb_exists in Ex as (y & Hy & Ey). zbool. subst y.
    apply list_elem_of_In in Hy. intros (_ & Hd & _)%NoDup_app. apply (Hd c Hy). by left.
  - split; [done|]. apply NoDup_app. split; [done|]. split; [|apply NoDup_singleton].
    intros y Hy ->%list_elem_of_singleton.
    assert (existsb (Z.eqb c) (filled cells) = true) as Ht; [|congruence].
    apply existsb_exists. exists c. split; [by apply list_elem_of_In|apply Z.eqb_refl].
Qed.

Lemma filled_prefix l l' : ~ NoDup (filled l) -> ~ NoDup (filled (l ++ l')).
Proof. rewrite filled_app. intros H (H' & _)%NoDup_app. by apply H. Qed.

Lemma row_cells_S i j k : row_cells b i j (S k) = row_cells b i j k ++ [cell b i (j + k)].
Proof. unfold row_cells. by rewrite seq_S, fmap_app. Qed.
Lemma col_cells_S j k : col_cells b j (S k) = col_cells b j k ++ [cell b k j].
Proof. unfold col_cells. by rewrite seq_S, fmap_app. Qed.
Lemma box_cells_S i j k : box_cells b i j (S k) = box_cells b i j k ++ row_cells b (i + k) j 3.
Proof. unfold box_cells. rewrite seq_S, bind_app. done. Qed.

Lemma row_split i j m : (m <= 3)%nat -> row_cells b i j 3 = row_cells b i j m ++ row_cells b i (j + m) (3 - m).
Proof. intros Hm. unfold row_cells. rewrite <- fmap_app, <- seq_app. by replace (m + (3 - m))%nat with 3%nat by lia. Qed.
Lemma box_split i j k : (k < 3)%nat ->
  box_cells b i j 3 = box_cells b i j k ++ row_cells b (i + k) j 3 ++ box_cells b (i + S k) j (2 - k).
Proof.
  intros Hk. rewrite app_assoc, <- box_cells_S. unfold box_cells. rewrite <- bind_app, <- seq_app.
  by replace (S k + (2 - k))%nat with 3%nat by lia.
Qed.

Lemma row_prefix i j k : (k <= 9)%nat -> ~ NoDup (filled (row_cells b i j k)) -> ~ NoDup (filled (row_cells b i j 9)).
Proof.
  intros Hk H. unfold row_cells in *. replace 9%nat with (k + (9 - k))%nat by lia. rewrite seq_app, fmap_app.
  by apply filled_prefix.
Qed.
Lemma col_prefix j k : (k <= 9)%nat -> ~ NoDup (filled (col_cells b j k)) -> ~ NoDup (filled (col_cells b j 9)).
Proof.
  intros Hk H. unfold col_cells in *. replace 9%nat with (k + (9 - k))%nat by lia. rewrite seq_app, fmap_app.
  by apply filled_prefix.
Qed.

(** A box is checked cell by cell. *)
Lemma check_box_spec i j : (i + 3 <= 9)%nat -> (j + 3 <= 9)%nat ->
  exists r, check_box b (Z.of_nat i) (Z.of_nat j) = Ok r /\
  exits (fun _ => NoDup (filled (box_cells b i j 3))) (fun a => a = false /\ ~ NoDup (filled (box_cells b i j 3))) r.
Proof.
  intros Hi Hj.
  destruct (for_exit_inv (fun si sub => for_exit 3 (Z.of_nat j) (fun sj sub =>
      subc ← at2 b si sj; mret (join subc sub)) sub)
    (fun k sub => sub = filled (box_cells b i j k) /\ NoDup sub)
    (fun a => a = false /\ ~ NoDup (filled (box_cells b i j 3))) 3 (Z.of_nat i) []) as (r & E & Hr).
  - intros k sub Hk [-> Hn].
    destruct (for_exit_inv (fun sj sub => subc ← at2 b (Z.of_nat i + Z.of_nat k) sj; mret (join subc sub))
      (fun m sub => sub = filled (box_cells b i j k ++ row_cells b (i + k) j m) /\ NoDup sub)
      (fun a => a = false /\ ~ NoDup (filled (box_cells b i j 3))) 3 (Z.of_nat j) (filled (box_cells b i j k))) as (r & E & Hr).
    + intros m sub Hm [-> Hn']. rewrite <- !Nat2Z.inj_add, at2_cell, rbind_ok by lia. eexists. split; [done|].
      rewrite row_cells_S, app_assoc. pose proof (join_spec (cell b (i + k) (j + m)) _ Hn') as H.
      destruct (join _ _) as [seen|a]; [done|]. simpl. destruct H as [-> H]. split; [done|].
      assert (exists rest, box_cells b i j 3 = ((box_cells b i j k ++ row_cells b (i + k) j m) ++ [cell b (i + k) (j + m)]) ++ rest) as [rest ->].
      { exists (row_cells b (i + k) (j + S m) (3 - S m) ++ box_cells b (i + S k) j (2 - k)).
        rewrite (box_split i j k), (row_split (i + k) j (S m)), row_cells_S by lia. by rewrite <- !app_assoc. }
      by apply filled_prefix.
    + split; [|done]. by rewrite app_nil_r.
    + exists r. split; [done|]. destruct r; [|done]. simpl in *. by rewrite box_cells_S.
  - split; [done|]. constructor.
  - exists r. split; [done|]. destruct r; [|done]. simpl in *. destruct Hr as [-> H]. done.
Qed.

(** The cells before [j] of row [i] and of column [i], and the boxes that start before them. *)
Definition cell_inv (i j : nat) (st : list Z * list Z) : Prop :=
  st = (filled (row_cells b i 0 j), filled (col_cells b i j)) /\ NoDup st.1 /\ NoDup st.2 /\
  forall a c, i = (3 * a)%nat -> (3 * c < j)%nat -> NoDup (filled (box_cells b (3 * a) (3 * c) 3)).

Definition fails (r : bool) : Prop := r = false /\ ~ valid b.

(** The box that starts at a cell, if one does. *)
Lemma box_at i j : (i < 9)%nat -> (j < 9)%nat ->
  exists r, (if (Z.of_nat i mod 3 =? 0) && (Z.of_nat j mod 3 =? 0) then check_box b (Z.of_nat i) (Z.of_nat j)
             else mret (inl [])) = Ok r /\
  exits (fun _ => forall a c, i = (3 * a)%nat -> j = (3 * c)%nat -> NoDup (filled (box_cells b (3 * a) (3 * c) 3))) fails r.
Proof.
  intros Hi Hj. destruct (_ && _) eqn:E.
  - apply andb_true_iff in E as [E1 E2]. zbool.
    assert (exists a, i = (3 * a)%nat) as [a ->] by (exists (Z.to_nat (Z.of_nat i / 3)); Z.to_euclidean_division_equations; lia).
    assert (exists c, j = (3 * c)%nat) as [c ->] by (exists (Z.to_nat (Z.of_nat j / 3)); Z.to_euclidean_division_equations; lia).
    destruct (check_box_spec (3 * a) (3 * c)) as (r & -> & Hr); [lia|lia|]. exists r. split; [done|].
    destruct r as [sub|r]; simpl in *.
    + intros a' c' Ha Hc. by replace a' with a by lia; replace c' with c by lia.
    + destruct Hr as [-> Hr]. split; [done|]. intros (_ & _ & Hv). apply Hr, Hv; lia.
  - exists (inl []). split; [done|]. intros a c -> ->. apply andb_false_iff in E as [E|E]; zbool;
      Z.to_euclidean_division_equations; lia.
Qed.

Lemma check_cell_spec i j st : (i < 9)%nat -> (j < 9)%nat -> cell_inv i j st ->
  exists r, check_cell b (Z.of_nat i) (Z.of_nat j) st = Ok r /\ exits (cell_inv i (S j)) fails r.
Proof.
  intros Hi Hj (-> & Hx & Hy & Hbox). cbn [fst snd] in *. unfold check_cell.
  destruct (box_at i j Hi Hj) as (r & -> & Hr). rewrite rbind_ok. destruct r as [sub|r]; simpl in Hr; [|by exists (inr r)].
  rewrite !at2_cell, !rbind_ok by lia.
  pose proof (join_spec (cell b i j) _ Hx) as Jx. pose proof (join_spec (cell b j i) _ Hy) as Jy.
  assert (row_cells b i 0 (S j) = row_cells b i 0 j ++ [cell b i j]) as Er by apply row_cells_S.
  rewrite <- Er in Jx. rewrite <- col_cells_S in Jy.
  destruct (join (cell b i j) _) as [x'|r]; [|eexists; split; [done|]; destruct Jx as [-> Jx]; split; [done|]].
  - destruct (join (cell b j i) _) as [y'|r]; [|eexists; split; [done|]; destruct Jy as [-> Jy]; split; [done|]].
    + eexists. split; [done|]. destruct Jx as [-> ?], Jy as [-> ?]. split; [done|]. split; [done|]. split; [done|].
      intros a c Ha Hc. destruct (decide (3 * c < j)%nat); [by apply Hbox|]. apply Hr; lia.
    + intros (_ & Hv & _). apply (col_prefix i (S j)) in Jy; [|lia]. by apply Jy, Hv.
  - intros (Hv & _). apply (row_prefix i 0 (S j)) in Jx; [|lia]. by apply Jx, Hv.
Qed.

(** The rows, columns and rows of boxes before [i]. *)
Definition board_inv (i : nat) (u : unit) : Prop :=
  forall k, (k < i)%nat -> NoDup (filled (row_cells b k 0 9)) /\ NoDup (filled (col_cells b k 9)) /\
    forall a c, k = (3 * a)%nat -> (c < 3)%nat -> NoDup (filled (box_cells b (3 * a) (3 * c) 3)).
End proofs.

(** A board of nine rows of nine cells is accepted exactly when no digit occurs twice in a
    row, in a column or in one of the nine boxes. *)
Theorem sudoku_exact board : is_board board ->
  exists r, isValidSudoku board = Ok r /\ (r = true <-> valid board).
Proof.
  intros Hb. unfold isValidSudoku.
  destruct (for_exit_inv (fun i (_ : unit) =>
    r ← for_exit 9 0 (check_cell board i) ([], []);
    match r with inr b => mret (inr b) | inl _ => mret (inl tt) end) (board_inv board) (fails board) 9 0 tt) as (r & -> & Hr).
  - intros k [] Hk Hinv. rewrite Z.add_0_l.
    destruct (for_exit_inv (check_cell board (Z.of_nat k)) (cell_inv board k) (fails board) 9 0 ([], [])) as (r & -> & Hr).
    + intros j st Hj Hst. rewrite Z.add_0_l. by apply check_cell_spec.
    + split; [done|]. split; [constructor|]. split; [constructor|]. intros a c _ Hc. lia.
    + rewrite rbind_ok. destruct r as [st|r]; [|by exists (inr r)]. exists (inl tt). split; [done|].
      destruct Hr as (-> & Hx & Hy & Hbox). intros i Hi. destruct (decide (i = k)) as [->|]; [|apply Hinv; lia].
      split; [done|]. split; [done|]. intros a c Ha Hc. apply Hbox; [done|lia].
  - intros k Hk. lia.
  - rewrite rbind_ok. destruct r as [[]|r].
    + exists true. split; [done|]. split; [intros _|done]. split; [|split].
      * intros i Hi. by apply (Hr i Hi).
      * intros j Hj. by apply (Hr j Hj).
      * intros i j Hi Hj. apply (Hr (3 * i)%nat); lia.
    + destruct Hr as [-> Hr]. exists false. split; [done|]. split; [done|]. intros H. by destruct (Hr H).
Qed.

(** The cell [5] of the first row again in its box. *)
Definition demo_board : list (list Z) :=
  [53; 51; 46; 46; 55; 46; 46; 46; 46] :: [54; 46; 53; 49; 57; 46; 46; 46; 46] :: replicate 7 (replicate 9 46).

Lemma sudoku_exact_witness :
  isValidSudoku demo_board = Ok false /\ isValidSudoku (replicate 9 (replicate 9 46)) = Ok true /\
  exists r, isValidSudoku demo_board = Ok r /\ (r = true <-> valid demo_board).
Proof.
  split; [by vm_compute|]. split; [by vm_compute|]. apply sudoku_exact. split; [done|]. by_compute.
Defined.
End Sudoku.
