(* ===== verification/CcZigzag.v ===== *)
(** * Zigzag conversion

    src/0xetc/0xcc/array/zigzag-conversion: the characters of a string are written down and
    up again over a number of rows, with spaces as filling, and read row by row. The two
    inner loops and the outer one are as in the source; of two turns of the outer loop one
    places a character going down, so that twice the length of the string is enough fuel, and
    a diagonal takes less than [numRows * numRows] steps. *)
From stdpp Require Import base numbers list gmap.
From S2P Require Import Prelude CBase.
Local Open Scope Z_scope.

Module Zigzag.

(** The local variables of [convert]. [col_ptr] is not initialised. *)
Record vars := mk_vars {
  zz_tile : list (list Z);
  i_ : Z;
  row_ptr : Z;
  col_ptr : option Z;
  reached_full : Z;
  do_switch : Z
}.

(** [s[i]] of a [std::string]: the character at the size is a zero. *)
Definition str_at (s : list Z) (i : Z) : res Z := if i =? size s then mret 0 else at_ s i.

(** [zz_tile[r].push_back(c)] *)
Definition push (tile : list (list Z)) (r c : Z) : res (list (list Z)) :=
  row ← at_ tile r; set_at tile r (row ++ [c]).

(** The loop that goes down. *)
Definition down_step (s : list Z) (numRows : Z) (v : vars) : res (vars + vars) :=
  if negb (reached_full v =? 0) then mret (inr v)
  else
    target_c ← str_at s (i_ v);
    tile ← push (zz_tile v) (row_ptr v) target_c;
    let i := i_ v + 1 in
    let row := row_ptr v + 1 in
    if i =? size s then mret (inr (mk_vars tile i row (col_ptr v) (reached_full v) (do_switch v)))
    else if row =? numRows then mret (inr (mk_vars tile i 0 (col_ptr v) 1 1))
    else mret (inl (mk_vars tile i row (col_ptr v) (reached_full v) (do_switch v))).

(** The loop that goes up, one column for each character. *)
Definition up_step (s : list Z) (numRows : Z) (v : vars) : res (vars + vars) :=
  if negb (reached_full v =? 1) then mret (inr v)
  else
    col ← match col_ptr v with Some c => Ok c | None => Err Uninit end;
    target_c ← (if negb (row_ptr v =? col) then mret 32 else str_at s (i_ v));
    let i := if negb (row_ptr v =? col) then i_ v else i_ v + 1 in
    tile ← push (zz_tile v) (row_ptr v) target_c;
    let row := row_ptr v + 1 in
    if i =? size s then mret (inr (mk_vars tile i row (Some col) (reached_full v) (do_switch v)))
    else if row =? numRows then
      if col - 1 <? 1 then mret (inr (mk_vars tile i 0 (Some (col - 1)) 0 (do_switch v)))
      else mret (inl (mk_vars tile i 0 (Some (col - 1)) (reached_full v) (do_switch v)))
    else mret (inl (mk_vars tile i row (Some col) (reached_full v) (do_switch v))).

Definition turn (s : list Z) (numRows : Z) (v : vars) : res (vars + vars) :=
  v1 ← iter (Z.to_nat numRows + 1) (down_step s numRows) v;
  if i_ v1 =? size s then mret (inr v1)
  else if do_switch v1 =? 1 then
    let col := numRows - 2 in
    mret (inl (mk_vars (zz_tile v1) (i_ v1) (row_ptr v1) (Some col) (if col =? 0 then 0 else reached_full v1) 0))
  else
    v2 ← iter (Z.to_nat numRows * Z.to_nat numRows + 1) (up_step s numRows) v1;
    if i_ v2 =? size s then mret (inr v2) else mret (inl v2).

(** The rows without the filling. *)
Definition read_rows (tile : list (list Z)) (numRows : Z) : res (list Z) :=
  for_res (Z.to_nat numRows) 0 (fun i ans =>
    row ← at_ tile i;
    for_res (length row) 0 (fun j ans =>
      t ← at_ row j; if t =? 32 then mret ans else mret (ans ++ [t])) ans) [].

Definition convert (s : list Z) (numRows : Z) : res (list Z) :=
  if numRows =? 1 then mret s
  else
    ssize ← int_ (size s);
    v ← iter (2 * length s + 1) (turn s numRows) (mk_vars (replicate (Z.to_nat numRows) []) 0 0 None 0 0);
    read_rows (zz_tile v) numRows.

(** ** The reference: character [k] is in row [zig n k] *)

Definition zig (n k : nat) : nat :=
  let r := (k mod (2 * n - 2))%nat in if (r <? n)%nat then r else (2 * n - 2 - r)%nat.

(** The characters among the first [k] that belong to row [r]. *)
Fixpoint picks (n : nat) (s : list Z) (k r : nat) : list Z :=
  match k with
  | O => []
  | S k' => picks n s k' r ++ if (zig n k' =? r)%nat then from_option (fun c => [c]) [] (s !! k') else []
  end.

Definition zigzag (s : list Z) (n : nat) : list Z := seq 0 n ≫= picks n s (length s).

Definition strip (row : list Z) : list Z := filter (fun c => c <> 32) row.

Local Ltac fields := cbn [zz_tile i_ row_ptr col_ptr reached_full do_switch default from_option id].

Section proofs.
Context (s : list Z) (n : nat) (Hn : (2 <= n)%nat).
Notation p := (2 * n - 2)%nat.

Lemma strip_app l l' : strip (l ++ l') = strip l ++ strip l'.
Proof. apply filter_app. Qed.
Lemma strip_one c : strip [c] = if c =? 32 then [] else [c].
Proof. unfold strip. rewrite filter_cons. destruct (decide (c <> 32)), (c =? 32) eqn:E; zbool; done. Qed.

Lemma mod_succ k : (S k mod p = if k mod p + 1 =? p then 0 else k mod p + 1)%nat.
Proof.
  pose proof (Nat.div_mod k p ltac:(lia)) as Hd. pose proof (Nat.mod_upper_bound k p ltac:(lia)) as Hm.
  destruct (_ =? _)%nat eqn:E; [apply Nat.eqb_eq in E|apply Nat.eqb_neq in E].
  - symmetry. apply (Nat.mod_unique (S k) p (S (k / p)) 0); lia.
  - symmetry. apply (Nat.mod_unique (S k) p (k / p) (k mod p + 1)); lia.
Qed.

(** The rows hold the first [k] characters. *)
Definition tiles (k : nat) (tile : list (list Z)) : Prop :=
  length tile = n /\ forall r row, tile !! r = Some row -> strip row = strip (picks n s k r).

Lemma push_fill k tile r : tiles k tile -> (r < n)%nat ->
  exists tile', push tile (Z.of_nat r) 32 = Ok tile' /\ tiles k tile'.
Proof.
  intros [Hl Ht] Hr. destruct (lookup_lt_is_Some_2 tile r) as [row Hrow]; [lia|]. unfold push.
  rewrite (at_nat _ _ _ Hrow), rbind_ok, set_at_ok by (unfold size; lia). rewrite Nat2Z.id. eexists. split; [done|].
  split; [by rewrite length_insert|]. intros q row' Hq. destruct (decide (q = r)) as [->|].
  - rewrite list_lookup_insert_eq in Hq by lia. injection Hq as <-. rewrite strip_app, strip_one, app_nil_r. by apply Ht.
  - rewrite list_lookup_insert_ne in Hq by done. by apply Ht.
Qed.

Lemma push_char k tile c : tiles k tile -> s !! k = Some c -> (zig n k < n)%nat ->
  exists tile', push tile (Z.of_nat (zig n k)) c = Ok tile' /\ tiles (S k) tile'.
Proof.
  intros [Hl Ht] Hc Hr. destruct (lookup_lt_is_Some_2 tile (zig n k)) as [row Hrow]; [lia|]. unfold push.
  rewrite (at_nat _ _ _ Hrow), rbind_ok, set_at_ok by (unfold size; lia). rewrite Nat2Z.id. eexists. split; [done|].
  split; [by rewrite length_insert|]. intros q row' Hq. cbn [picks]. rewrite Hc, strip_app. cbn [from_option].
  destruct (decide (q = zig n k)) as [->|Hne].
  - rewrite list_lookup_insert_eq in Hq by lia. injection Hq as <-. rewrite strip_app, Nat.eqb_refl. f_equal. by apply Ht.
  - rewrite list_lookup_insert_ne in Hq by done.
    destruct (zig n k =? q)%nat eqn:E; [apply Nat.eqb_eq in E; congruence|]. rewrite app_nil_r. by apply Ht.
Qed.

Lemma str_at_char k c : s !! k = Some c -> str_at s (Z.of_nat k) = Ok c.
Proof.
  intros Hc. unfold str_at. destruct (_ =? _) eqn:E; [|by apply at_nat].
  zbool. unfold size in E. apply lookup_lt_Some in Hc. lia.
Qed.

Notation N := (Z.of_nat n).
Lemma zig_down k : (k mod p < n)%nat -> zig n k = (k mod p)%nat.
Proof. intros H. unfold zig. destruct (_ <? n)%nat eqn:E; [done|]. apply Nat.ltb_ge in E. lia. Qed.
Lemma zig_up k c : (k mod p = p - c)%nat -> (1 <= c <= n - 2)%nat -> zig n k = c.
Proof. intros H Hc. unfold zig. rewrite H. destruct (_ <? n)%nat eqn:E; [apply Nat.ltb_lt in E|]; lia. Qed.

(** The string is used up. *)
Definition finished (v : vars) : Prop := i_ v = size s /\ tiles (length s) (zz_tile v).

(** Going down, at least [k0] characters placed. *)
Definition down_inv (k0 : nat) (v : vars) : Prop := exists k,
  (k0 <= k < length s)%nat /\ i_ v = Z.of_nat k /\ tiles k (zz_tile v) /\ reached_full v = 0 /\ do_switch v = 0 /\
  (k mod p < n)%nat /\ row_ptr v = Z.of_nat (k mod p).

(** At the bottom row. *)
Definition bottom (k0 : nat) (v : vars) : Prop := exists k,
  (k0 < k < length s)%nat /\ i_ v = Z.of_nat k /\ tiles k (zz_tile v) /\ reached_full v = 1 /\ do_switch v = 1 /\
  row_ptr v = 0 /\ (k mod p = n mod p)%nat.

Lemma down_step_inv k0 v : down_inv k0 v ->
  (exists v', down_step s N v = Ok (inl v') /\ down_inv k0 v' /\
     (Z.to_nat (N - row_ptr v') < Z.to_nat (N - row_ptr v))%nat) \/
  (exists v', down_step s N v = Ok (inr v') /\ (finished v' \/ bottom k0 v')).
Proof.
  intros (k & Hk & Hi & Ht & Hr & Hd & Hm & Hrow). unfold down_step. rewrite Hr, Hi, Hrow. cbn [Z.eqb negb].
  destruct (lookup_lt_is_Some_2 s k) as [c Hc]; [lia|]. rewrite (str_at_char k c Hc), rbind_ok.
  rewrite <- (zig_down k Hm). destruct (push_char k _ c Ht Hc) as (tile & -> & Ht'); [rewrite zig_down; done|]. rewrite rbind_ok.
  rewrite (zig_down k Hm). pose proof (mod_succ k) as Hs.
  destruct (_ =? size s) eqn:E1; zbool; unfold size in E1; [|destruct (_ =? N) eqn:E2; zbool].
  - right. eexists. split; [done|]. left. split; [done|]. by replace (length s) with (S k) by lia.
  - right. eexists. split; [done|]. right. exists (S k). fields. split; [lia|]. split; [lia|]. split; [done|]. split; [done|].
    split; [done|]. split; [done|]. rewrite Hs. assert (k mod p + 1 = n)%nat as -> by lia.
    destruct (n =? p)%nat eqn:E; [apply Nat.eqb_eq in E; rewrite <- E; by rewrite Nat.Div0.mod_same|].
    apply Nat.eqb_neq in E. rewrite Nat.mod_small; lia.
  - left. eexists. split; [done|]. cbn [row_ptr]. split; [|lia]. exists (S k). fields.
    assert (S k mod p = k mod p + 1)%nat as Hs'.
    { rewrite Hs. destruct (_ =? p)%nat eqn:E; [apply Nat.eqb_eq in E; lia|done]. }
    rewrite Hs'. split_and!; try done; lia.
Qed.

(** Going up: the character of this column is still to come, or was just placed. *)
Definition up_inv (k0 : nat) (v : vars) : Prop := exists k c r,
  (k0 <= k < length s)%nat /\ i_ v = Z.of_nat k /\ tiles k (zz_tile v) /\ reached_full v = 1 /\ do_switch v = 0 /\
  col_ptr v = Some (Z.of_nat c) /\ (1 <= c <= n - 2)%nat /\ row_ptr v = Z.of_nat r /\ (r < n)%nat /\
  ((r <= c)%nat /\ (k mod p = p - c)%nat \/ (c < r)%nat /\ (k mod p = (p - c + 1) mod p)%nat).

Definition up_measure (v : vars) : nat := Z.to_nat (default 0 (col_ptr v) * N - row_ptr v + N).

(** A step that leaves the column at [r]. *)
Lemma up_next k0 k c r tile : (k0 <= k < length s)%nat -> tiles k tile -> (1 <= c <= n - 2)%nat -> (r < n)%nat ->
  ((r < c)%nat /\ (k mod p = p - c)%nat \/ (c <= r)%nat /\ (k mod p = (p - c + 1) mod p)%nat) ->
  let v0 := mk_vars tile (Z.of_nat k) (Z.of_nat r) (Some (Z.of_nat c)) 1 0 in
  (exists v', (if Z.of_nat r + 1 =? N then
      if Z.of_nat c - 1 <? 1 then mret (inr (mk_vars tile (Z.of_nat k) 0 (Some (Z.of_nat c - 1)) 0 0))
      else mret (inl (mk_vars tile (Z.of_nat k) 0 (Some (Z.of_nat c - 1)) 1 0))
    else mret (inl (mk_vars tile (Z.of_nat k) (Z.of_nat r + 1) (Some (Z.of_nat c)) 1 0)) : res (vars + vars)) = Ok (inl v') /\
    up_inv k0 v' /\ (up_measure v' < up_measure v0)%nat) \/
  (exists v', (if Z.of_nat r + 1 =? N then
      if Z.of_nat c - 1 <? 1 then mret (inr (mk_vars tile (Z.of_nat k) 0 (Some (Z.of_nat c - 1)) 0 0))
      else mret (inl (mk_vars tile (Z.of_nat k) 0 (Some (Z.of_nat c - 1)) 1 0))
    else mret (inl (mk_vars tile (Z.of_nat k) (Z.of_nat r + 1) (Some (Z.of_nat c)) 1 0)) : res (vars + vars)) = Ok (inr v') /\
    down_inv k0 v').
Proof.
  intros Hk Ht Hc Hr Hcase v0. unfold up_measure, v0. pose proof (Z.mul_nonneg_nonneg (Z.of_nat c) N ltac:(lia) ltac:(lia)) as HcN.
  destruct (_ =? N) eqn:E1; zbool; [destruct (_ <? 1) eqn:E2; zbool|].
  - right. eexists. split; [done|]. assert (c = 1)%nat as -> by lia.
    assert (k mod p = 0)%nat as Hm.
    { destruct Hcase as [[H _]|[_ ->]]; [lia|]. replace (p - 1 + 1)%nat with p by lia. by rewrite Nat.Div0.mod_same. }
    exists k. fields. rewrite Hm. split_and!; try done; lia.
  - left. eexists. split; [done|]. fields. split; [|lia]. exists k, (c - 1)%nat, 0%nat. fields.
    split_and!; try done; try lia; [f_equal; lia|]. left. split; [lia|].
    destruct Hcase as [[H _]|[_ ->]]; [lia|]. rewrite Nat.mod_small; lia.
  - left. eexists. split; [done|]. fields. split; [|lia]. exists k, c, (S r). fields.
    split_and!; try done; try lia.
Qed.

Lemma up_step_inv k0 v : up_inv k0 v ->
  (exists v', up_step s N v = Ok (inl v') /\ up_inv k0 v' /\ (up_measure v' < up_measure v)%nat) \/
  (exists v', up_step s N v = Ok (inr v') /\ (finished v' \/ down_inv k0 v')).
Proof.
  intros (k & c & r & Hk & Hi & Ht & Hf & Hd & Hcol & Hc & Hrow & Hr & Hcase).
  assert (up_measure v = up_measure (mk_vars (zz_tile v) (Z.of_nat k) (Z.of_nat r) (Some (Z.of_nat c)) 1 0)) as ->.
  { unfold up_measure. by rewrite Hcol, Hrow. }
  unfold up_step. rewrite Hf, Hcol, Hrow, Hi, Hd. cbn [Z.eqb Pos.eqb negb]. rewrite rbind_ok.
  destruct (Z.of_nat r =? Z.of_nat c) eqn:Erc; zbool; cbn [negb].
  - assert (r = c) as -> by lia. destruct Hcase as [[_ Hm]|[H _]]; [|lia].
    destruct (lookup_lt_is_Some_2 s k) as [ch Hch]; [lia|]. rewrite (str_at_char k ch Hch), rbind_ok.
    pose proof (zig_up k c Hm Hc) as Hz.
    destruct (push_char k _ ch Ht Hch) as (tile & Hp & Ht'); [lia|]. rewrite Hz in Hp. rewrite Hp, rbind_ok.
    destruct (_ =? size s) eqn:E1; zbool; unfold size in E1.
    + right. eexists. split; [done|]. left. split; [done|]. by replace (length s) with (S k) by lia.
    + replace (Z.of_nat k + 1) with (Z.of_nat (S k)) by lia.
      destruct (up_next k0 (S k) c c tile) as [(v' & E & Hv & Hmv)|(v' & E & Hv)]; [lia|done|lia|lia| | |].
      * right. split; [lia|]. rewrite mod_succ, Hm. destruct (_ =? p)%nat eqn:E; [apply Nat.eqb_eq in E|apply Nat.eqb_neq in E].
        -- rewrite E. by rewrite Nat.Div0.mod_same.
        -- rewrite Nat.mod_small; lia.
      * left. exists v'. done.
      * right. exists v'. eauto.
  - rewrite rbind_ok. destruct (push_fill k _ r Ht Hr) as (tile & -> & Ht'). rewrite rbind_ok.
    destruct (_ =? size s) eqn:E1; zbool; unfold size in E1; [lia|].
    destruct (up_next k0 k c r tile) as [(v' & E & Hv & Hmv)|(v' & E & Hv)]; [lia|done|lia|lia| | |].
    + destruct Hcase as [[H H']|[H H']]; [left|right]; split; try done; lia.
    + left. exists v'. done.
    + right. exists v'. eauto.
Qed.

Lemma down_loop k0 v : down_inv k0 v ->
  exists v', iter (Z.to_nat N + 1) (down_step s N) v = Ok v' /\ (finished v' \/ bottom k0 v').
Proof.
  intros Hv. eapply (iter_total _ (down_inv k0) (fun v => Z.to_nat (N - row_ptr v))); [apply down_step_inv|done|].
  destruct Hv as (k & _ & _ & _ & _ & _ & _ & ->). lia.
Qed.

Lemma up_loop k0 v : up_inv k0 v ->
  exists v', iter (Z.to_nat N * Z.to_nat N + 1) (up_step s N) v = Ok v' /\ (finished v' \/ down_inv k0 v').
Proof.
  intros Hv. eapply (iter_total _ (up_inv k0) up_measure); [apply up_step_inv|done|].
  destruct Hv as (k & c & r & _ & _ & _ & _ & _ & Hcol & Hc & Hrow & _). unfold up_measure. rewrite Hcol, Hrow.
  fields. nia.
Qed.

Definition turn_measure (v : vars) : nat := Z.to_nat (2 * (size s - i_ v) + reached_full v).

Lemma turn_inv v : down_inv 0 v \/ up_inv 0 v ->
  (exists v', turn s N v = Ok (inl v') /\ (down_inv 0 v' \/ up_inv 0 v') /\ (turn_measure v' < turn_measure v)%nat) \/
  (exists v', turn s N v = Ok (inr v') /\ finished v').
Proof.
  unfold turn, turn_measure. intros [(k & Hk & Hv)|(k & c & r & Hk & Hv)].
  - destruct (down_loop k v) as (v1 & -> & [[Hi Ht]|(k' & Hk' & Hi & Ht & Hf & Hd & Hrow & Hm)]);
      [exists k; split; [lia|done]| |]; rewrite rbind_ok, Hi.
    { rewrite Z.eqb_refl. right. by exists v1. }
    destruct (_ =? size s) eqn:E; zbool; unfold size in *; [lia|]. rewrite Hd, Hf. cbn [Z.eqb Pos.eqb]. left. eexists. split; [done|].
    fields. destruct Hv as (-> & _ & -> & _). destruct (N - 2 =? 0) eqn:E2; zbool; (split; [|lia]); [left|right].
    + exists k'. fields. assert (n = 2)%nat as Hn2 by lia. assert (k' mod p = 0)%nat as Hm0 by (rewrite Hm, Hn2; done). rewrite Hm0.
      split_and!; try done; lia.
    + exists k', (n - 2)%nat, 0%nat. fields. rewrite Hm. 
      split_and!; try done; try lia; [f_equal; lia|]. left. split; [lia|]. rewrite Nat.mod_small; lia.
  - pose proof Hv as (Hi0 & Ht & Hf & Hd & _). rewrite (Nat.add_1_r (Z.to_nat N)).
    rewrite (iter_leave _ (down_step s N) v v) by (unfold down_step; by rewrite Hf). rewrite rbind_ok, Hi0.
    destruct (_ =? size s) eqn:E; zbool; unfold size in *; [lia|]. rewrite Hd. cbn [Z.eqb].
    destruct (up_loop k v) as (v1 & -> & [[Hi Ht']|Hv1]); [exists k, c, r; split; [lia|done]| |]; rewrite rbind_ok.
    { rewrite Hi. unfold size. rewrite Z.eqb_refl. right. by exists v1. }
    pose proof Hv1 as (k' & Hk' & Hi & Hv1'). rewrite Hi. destruct (_ =? Z.of_nat _) eqn:E2; zbool; [lia|].
    left. exists v1. split; [done|]. split; [|destruct Hv1' as (_ & -> & _); lia]. left. exists k'. split; [lia|done].
Qed.

Lemma read_row row ans :
  for_res (length row) 0 (fun j ans => t ← at_ row j; if t =? 32 then mret ans else mret (ans ++ [t])) ans =
  Ok (ans ++ strip row).
Proof.
  destruct (for_res_inv (fun j ans => t ← at_ row j; if t =? 32 then mret ans else mret (ans ++ [t]))
              (fun j out => out = ans ++ strip (take (Z.to_nat j) row)) (length row) 0 ans) as (out & -> & ->).
  - intros j out Hj ->. destruct (at_some row j) as (t & Ht & ->); [unfold size; lia|]. rewrite rbind_ok.
    replace (Z.to_nat (j + 1)) with (S (Z.to_nat j)) by lia. rewrite (take_S_r _ _ t Ht), strip_app, strip_one.
    destruct (t =? 32); eexists; (split; [done|]); rewrite ?app_nil_r; by rewrite <- ?app_assoc.
  - by rewrite app_nil_r.
  - by rewrite Z.add_0_l, Nat2Z.id, take_ge.
Qed.

Lemma read_tiles k tile : tiles k tile -> read_rows tile N = Ok (strip (seq 0 n ≫= picks n s k)).
Proof.
  intros [Hl Ht]. unfold read_rows. rewrite Nat2Z.id.
  match goal with |- for_res _ _ ?b _ = _ => 
    destruct (for_res_inv b (fun i out => out = strip (seq 0 (Z.to_nat i) ≫= picks n s k)) n 0 []) as (out & -> & ->) end.
  - intros i out Hi ->. destruct (at_some tile i) as (row & Hrow & ->); [unfold size; lia|]. rewrite rbind_ok, read_row. eexists. split; [done|].
    replace (Z.to_nat (i + 1)) with (Z.to_nat i + 1)%nat by lia. rewrite seq_app, bind_app, strip_app. f_equal.
    cbn [seq mbind list_bind]. rewrite app_nil_r. by apply Ht.
  - done.
  - by rewrite Z.add_0_l, Nat2Z.id.
Qed.

Lemma convert_rows : s <> [] -> is_int (size s) -> convert s N = Ok (strip (zigzag s n)).
Proof.
  intros Hs Hi. unfold convert. destruct (N =? 1) eqn:E; zbool; [lia|]. rewrite int_ok, rbind_ok by (try done; by_compute).
  assert (0 < length s)%nat as Hl by (destruct s; [done|cbn; lia]).
  destruct (iter_total (turn s N) (fun v => down_inv 0 v \/ up_inv 0 v) turn_measure finished turn_inv (2 * length s + 1)
              (mk_vars (replicate (Z.to_nat N) []) 0 0 None 0 0)) as (v & -> & Hv).
  - left. exists 0%nat. fields. rewrite Nat.Div0.mod_0_l.
    split_and!; try done; try lia. split; [by rewrite length_replicate, Nat2Z.id|].
    intros r row Hrow. apply lookup_replicate in Hrow as [-> _]. done.
  - unfold turn_measure, size. fields. lia.
  - rewrite rbind_ok. by apply read_tiles, Hv.
Qed.
End proofs.

(** An empty string is read at its end, and then beyond it. *)
Lemma convert_empty (n : nat) : (2 <= n)%nat -> convert [] (Z.of_nat n) = Err OutOfBounds.
Proof.
  intros Hn. unfold convert. destruct (_ =? 1) eqn:E; zbool; [lia|]. destruct n as [|[|n]]; [lia..|].
  rewrite int_ok, rbind_ok by by_compute. cbn [length Nat.mul Nat.add iter]. unfold turn at 1.
  rewrite Nat2Z.id. cbn [Nat.add iter replicate]. unfold down_step at 1. cbn [reached_full Z.eqb negb i_ zz_tile row_ptr].
  change (str_at [] 0) with (Ok 0). rewrite rbind_ok. unfold push at 1.
  rewrite (at_nat _ 0 []), rbind_ok, set_at_ok, rbind_ok by (try done; unfold size; cbn [length]; lia).
  destruct (0 + 1 =? Z.of_nat _) eqn:E1; zbool; [lia|]. reflexivity.
Qed.

(** For a non-empty string and at least two rows the loops of [convert] end, every
    [zz_tile] access is within its rows, [col_ptr] is set before it is read, and the result
    is the string read along the rows of the zigzag, but for its spaces: they are taken for
    filling. *)
Theorem zigzag_conversion_exact (s : list Z) (n : nat) : (2 <= n)%nat -> s <> [] -> is_int (size s) ->
  convert s (Z.of_nat n) = Ok (strip (zigzag s n)).
Proof. apply convert_rows. Qed.

(** [PAYPALISHIRING] over three rows. *)
Definition paypal : list Z := [80; 65; 89; 80; 65; 76; 73; 83; 72; 73; 82; 73; 78; 71].
Lemma zigzag_conversion_exact_witness :
  convert paypal 3 = Ok [80; 65; 72; 78; 65; 80; 76; 83; 73; 73; 71; 89; 73; 82].
Proof. change 3 with (Z.of_nat 3). rewrite (zigzag_conversion_exact paypal 3); [reflexivity|lia|done|by_compute]. Defined.

End Zigzag.
