(* ===== verification/CcCommon.v ===== *)
(** * The input functions of the exercises

    src/0xetc/0xcc/common.c: reading a line of any length into a buffer that doubles,
    replacing the marks of a list notation by spaces, trimming, cutting into words and
    reading numbers, over the heap of CHeap; and what the [main] functions share. Nothing
    the exercises allocate is freed: the assertions about them end in [True]. *)
From stdpp Require Import base numbers list gmap strings.
From iris.proofmode Require Import proofmode.
From S2P Require Import Prelude CBase CDecimal CHeap HeapLogic CStrings.
Set Warnings "-rewrite-rw".
Local Open Scope Z_scope.

Module Common.

(** A computation that may end the program: [inl status] after [exit(status)]. *)
Definition X (A : Type) : Type := C (Z + A).

(** ** Reading a line *)

(** The loop of [readline]. Every turn but the last takes characters from the input. *)
Fixpoint readline_loop (fuel : nat) (data : ptr) (alloc_length data_length : Z) : C (ptr * Z) :=
  match fuel with
  | O => stfail OutOfFuel
  | S f =>
      let cursor := offset data (Z.to_nat data_length) in
      line ← fgets cursor (s32 (alloc_length - data_length));
      match line with
      | None => mret (data, data_length)
      | Some _ =>
          n ← strlen cursor;
          let data_length := data_length + n in
          stop ← (if data_length <? alloc_length - 1 then mret true
                  else c ← load_int data (data_length - 1); mret (c =? 10));
          if (stop : bool) then mret (data, data_length)
          else
            let alloc_length := u64 (Z.shiftl alloc_length 1) in
            data' ← realloc_z data alloc_length;
            match data' with
            | None => mret (NULL, data_length)
            | Some _ => readline_loop f data' alloc_length data_length
            end
      end
  end.

(** With no input left, [data[data_length - 1]] is in front of the buffer. *)
Definition readline : C ptr :=
  w ← get_files;
  data ← malloc_z 1024;
  '(data, data_length) ← readline_loop (S (length (stdin w))) data 1024 0;
  c ← load_int data (data_length - 1);
  if c =? 10 then
    store data (data_length - 1) (VInt 0);;
    realloc_z data data_length
  else
    data' ← realloc_z data (data_length + 1);
    match data' with
    | None => mret NULL
    | Some _ => store data' data_length (VInt 0);; mret data'
    end.

(** ** Changing a line in place *)

(** A bracket, a comma or a quotation mark. *)
Definition is_mark (c : Z) : bool := (c =? 91) || (c =? 93) || (c =? 44) || (c =? 34).

Definition normalize_line (line : ptr) : C unit :=
  n ← strlen line;
  let linelen := s32 n in
  for_loop (Z.to_nat linelen) 0 (fun i =>
    c ← load_int line i;
    if is_mark c then store line i (VInt 32) else mret tt).

Fixpoint ltrim_loop (fuel : nat) (str : ptr) : C ptr :=
  match fuel with
  | O => stfail OutOfFuel
  | S f =>
      c ← load_int str 0;
      if negb (c =? 0) && isspace c then ltrim_loop f (offset str 1) else mret str
  end.

Definition ltrim (str : ptr) : C ptr :=
  match str with
  | None => mret NULL
  | Some _ =>
      c ← load_int str 0;
      if c =? 0 then mret str
      else n ← room str; ltrim_loop n str
  end.

(** The loop of [rtrim], with [n] for [end + 1 - str]. *)
Fixpoint rtrim_loop (n : nat) (str : ptr) : C nat :=
  match n with
  | O => mret 0%nat
  | S n' =>
      c ← load_int str (Z.of_nat n');
      if isspace c then rtrim_loop n' str else mret (S n')
  end.

Definition rtrim (str : ptr) : C ptr :=
  match str with
  | None => mret NULL
  | Some _ =>
      c ← load_int str 0;
      if c =? 0 then mret str
      else
        len ← strlen str;
        n ← rtrim_loop (Z.to_nat len) str;
        store str (Z.of_nat n) (VInt 0);;
        mret str
  end.

(** ** Words and numbers *)

Definition add_split (token : ptr) (st : ptr * Z) : C (ptr * Z + unit) :=
  let '(splits, spaces) := st in
  spaces' ← int_c (spaces + 1);
  splits' ← realloc_z splits spaces';
  match splits' with
  | None => mret (inr tt)
  | Some _ => store splits' (spaces' - 1) (VPtr token);; mret (inl (splits', spaces'))
  end.

Definition split_words (str : ptr) : C (ptr * Z + unit) :=
  w ← get_files;
  n ← room (tok_start str w);
  token ← strtok str 32;
  strtok_loop 32 add_split (n + 2) token (NULL, 0).

Definition split_string (str : ptr) : C ptr :=
  r ← split_words str;
  match r with inl (splits, _) => mret splits | inr _ => mret NULL end.

(** The array and the new value of [*len], which keeps [len] when an allocation fails. *)
Definition split_string2 (str : ptr) (len : Z) : C (ptr * Z) :=
  r ← split_words str;
  match r with inl (splits, spaces) => mret (splits, spaces) | inr _ => mret (NULL, len) end.

Definition parse_int (str : ptr) : C (Z + Z) :=
  x ← read_string str;
  let '(v, n) := strtol x in
  let value := s32 v in
  if (n =? 0)%nat then mret (inl 1)
  else
    c ← load_int str (Z.of_nat n);
    if negb (c =? 0) then mret (inl 1) else mret (inr value).

(** ** What the [main] functions share *)

(** [for (i = 0; i < arr_len; i++) a.push_back(parse_int(arr[i]))] *)
Fixpoint parse_ints (n : nat) (i : Z) (arr : ptr) (a : list Z) : X (list Z) :=
  match n with
  | O => xret a
  | S n' => p <~ xlift (load_ptr arr i); v <~ parse_int p; parse_ints n' (i + 1) arr (a ++ [v])
  end.

(** [for (t = 0; t < T; t++) test()] *)
Fixpoint repeat_test (n : nat) (test : X unit) : X unit :=
  match n with
  | O => xret tt
  | S n' => _ <~ test; repeat_test n' test
  end.

(** A [main] that reads the number of tests and runs each. The result is the exit status. *)
Definition main_of (test : X unit) : C Z :=
  r ← (p <~ xlift readline; T <~ parse_int p; repeat_test (Z.to_nat T) test);
  match r with inl status => mret status | inr _ => mret 0 end.

(** [ltrim(rtrim(line))] *)
Definition trimmed (line : ptr) : C ptr := r ← rtrim line; ltrim r.

(** [split_string2], and [parse_int] of each word. *)
Definition split_numbers (line : ptr) : X (list Z) :=
  s <~ xlift (split_string2 line 0); parse_ints (Z.to_nat s.2) 0 s.1 [].

(** A line of numbers. *)
Definition numbers_of (line : ptr) : X (list Z) :=
  _ <~ xlift (normalize_line line);
  l <~ xlift (trimmed line);
  split_numbers l.

(** A line as a [std::string]. *)
Definition string_of (line : ptr) : X (list Z) :=
  _ <~ xlift (normalize_line line);
  l <~ xlift (trimmed line);
  xlift (read_string l).

Definition print_bool (b : bool) : C unit := emit (chars (if b then "true" else "false") ++ [10]).
Definition print_int (z : Z) : C unit := emit (dec z ++ [10]).

(** ** What a line is *)

(** The first line of an input, with its newline if it has one, and without. *)
Definition first_line (inp : list Z) : list Z := chunk (length inp) inp.
Definition line_of (inp : list Z) : list Z := (until 10 inp).1.

Section lines.
Implicit Types (x got : list Z).

Lemma chunk_cases k x :
  (10 ∈ chunk k x /\ last (chunk k x) = Some 10 /\ chunk k x = first_line x) \/
  (10 ∉ chunk k x /\ (length (chunk k x) < k)%nat /\ chunk k x = x) \/
  (10 ∉ chunk k x /\ length (chunk k x) = k).
Proof.
  revert x. induction k as [|k IH]; intros x; [right; right; split; [apply not_elem_of_nil|done]|].
  destruct x as [|c x]; [right; left; split_and!; [apply not_elem_of_nil|cbn; lia|done]|].
  unfold first_line. cbn [chunk length]. destruct (c =? 10) eqn:E; zbool.
  { subst c. left. split_and!; [by apply list_elem_of_singleton|done|done]. }
  destruct (IH x) as [(H1 & H2 & H3)|[(H1 & H2 & H3)|(H1 & H2)]].
  - left. split_and!; [by right| |by rewrite H3]. destruct (chunk k x); [by apply elem_of_nil in H1|done].
  - right; left. rewrite H3 in H1 H2 |- *. split_and!; [rewrite not_elem_of_cons; by split|cbn; lia|done].
  - right; right. split; [rewrite not_elem_of_cons; by split|cbn; lia].
Qed.

Lemma first_line_no_newline x : 10 ∉ x -> first_line x = x.
Proof.
  unfold first_line. induction x as [|c x IH]; [done|]. rewrite not_elem_of_cons. intros [Hc Hx]. cbn [chunk length].
  destruct (c =? 10) eqn:E; [zbool; congruence|]. by rewrite IH.
Qed.
Lemma first_line_app got x : 10 ∉ got -> first_line (got ++ x) = got ++ first_line x.
Proof.
  unfold first_line. induction got as [|c got IH]; [done|]. rewrite not_elem_of_cons. intros [Hc Hx].
  cbn [app chunk length]. destruct (c =? 10) eqn:E; [zbool; congruence|]. by rewrite IH.
Qed.
Lemma first_line_until x : first_line x = let '(y, more) := until 10 x in if (more : bool) then y ++ [10] else y.
Proof.
  unfold first_line. induction x as [|c x IH]; [done|]. cbn [chunk length until]. destruct (c =? 10) eqn:E.
  - zbool. by subst.
  - rewrite IH. destruct (until 10 x) as [y []]; done.
Qed.
Lemma first_line_prefix x : first_line x = take (length (first_line x)) x.
Proof. apply chunk_prefix. Qed.
End lines.

(** ** [readline] *)
Section readline.
Implicit Types (w : world) (got : list Z) (junk : list val).

(** The buffer after a chunk was read behind what it holds. *)
Lemma read_chunk got ch junk : (length ch < length junk)%nat ->
  splice (length got) (str_cells ch) ((VInt <$> got) ++ junk) =
  (VInt <$> (got ++ ch)) ++ VInt 0 :: drop (S (length ch)) junk.
Proof.
  intros Hl. rewrite -{1}(take_drop (S (length ch)) junk) -{1}(length_fmap VInt got) splice_app.
  - unfold str_cells. by rewrite fmap_app -!app_assoc.
  - rewrite length_str_cells length_take. lia.
Qed.

(** The last character read. *)
Lemma wpc_load_last l x r c w Φ : last x = Some c ->
  own_block l ((VInt <$> x) ++ r) -∗ (own_block l ((VInt <$> x) ++ r) -∗ Φ c w) -∗
  wpc (load_int (Some (l, 0%nat)) (Z.of_nat (length x) - 1)) w Φ.
Proof.
  iIntros (Hc) "Hl HΦ". rewrite last_lookup in Hc. pose proof (lookup_lt_Some _ _ _ Hc) as Hl.
  replace (Z.of_nat (length x) - 1) with (Z.of_nat (pred (length x))) by lia.
  iApply (wpc_load_int with "Hl HΦ"). rewrite lookup_app_l; [|rewrite length_fmap; lia].
  by rewrite list_lookup_fmap Hc.
Qed.

(** Whether the loop stops after a chunk [ch]. *)
Lemma stop_spec l got r alloc inp w Φ (k := Z.to_nat (alloc - Z.of_nat (length got) - 1)) (ch := chunk k inp) :
  inp <> [] -> (1 <= k)%nat ->
  own_block l ((VInt <$> (got ++ ch)) ++ r) -∗
  (∀ stop, ⌜stop = true /\ first_line inp = ch \/ stop = false /\ 10 ∉ ch /\ length ch = k⌝ →
     own_block l ((VInt <$> (got ++ ch)) ++ r) -∗ Φ stop w) -∗
  wpc (if Z.of_nat (length (got ++ ch)) <? alloc - 1 then mret true
       else c ← load_int (Some (l, 0%nat)) (Z.of_nat (length (got ++ ch)) - 1); mret (c =? 10)) w Φ.
Proof.
  iIntros (Hne Hk) "Hl HΦ". pose proof (chunk_nonempty k inp ltac:(lia) Hne) as Hc. fold ch in Hc.
  pose proof (length_app got ch) as Hla. pose proof (chunk_cases k inp) as Hcases. fold ch in Hcases.
  assert (exists c, last (got ++ ch) = Some c /\ last ch = Some c) as (c & Hlast & Hlast').
  { rewrite last_app. destruct (last ch) as [c|] eqn:E; [by exists c|]. apply last_None in E. rewrite E in Hc. cbn in Hc. lia. }
  destruct (_ <? alloc - 1) eqn:E; zbool.
  - wpc_ret. iApply ("HΦ" with "[%] Hl"). left. split; [done|].
    destruct Hcases as [(_ & _ & H)|[(H1 & _ & H2)|(_ & H)]]; [done| |lia]. rewrite H2 in H1 |- *. by apply first_line_no_newline.
  - wpc_bind. iApply (wpc_load_last with "Hl"); [done|]. iIntros "Hl". wpc_ret. iApply ("HΦ" with "[%] Hl").
    destruct Hcases as [(_ & H1 & H2)|[(_ & H1 & _)|(H1 & H2)]]; [|lia|].
    + left. split; [|done]. rewrite H1 in Hlast'. injection Hlast' as <-. done.
    + right. split; [|done]. apply Z.eqb_neq. intros ->. apply H1. by apply last_Some_elem_of.
Qed.

Lemma readline_loop_spec fuel l got junk alloc w Φ (inp := got ++ stdin w) :
  no_nul inp -> 10 ∉ got -> inp <> [] -> Z.of_nat (length got + length junk) = alloc -> (2 <= length junk)%nat ->
  Z.of_nat (length junk) < 2 ^ 31 -> Z.of_nat (length (first_line inp)) <= 2 ^ 30 -> (length (stdin w) < fuel)%nat ->
  own_block l ((VInt <$> got) ++ junk) -∗
  (∀ l' junk', ⌜junk' <> []⌝ → own_block l' ((VInt <$> first_line inp) ++ junk') -∗
     Φ (Some (l', 0%nat), Z.of_nat (length (first_line inp)))
       (mk_world (drop (length (first_line inp)) inp) (stdout w) (strtok_next w))) -∗
  wpc (readline_loop fuel (Some (l, 0%nat)) alloc (Z.of_nat (length got))) w Φ.
Proof.
  subst inp. revert l got junk alloc w. induction fuel as [|f IH];
    iIntros (l got junk alloc w Hn Hg Hne Ha Hj Hj2 Hfl Hf) "Hl HΦ"; [lia|]. cbn [readline_loop].
  rewrite Nat2Z.id s32_int; [|unfold is_int, INT_MIN, INT_MAX; lia]. wpc_bind. cbn [offset fmap option_fmap option_map].
  destruct (decide (stdin w = [])) as [He|He].
  { iApply wpc_fgets_eof; [lia|done|]. wpc_ret. rewrite He app_nil_r in Hne |- *.
    rewrite (first_line_no_newline got Hg) drop_all. iSpecialize ("HΦ" $! l junk with "[%]"); [intros ->; cbn in Hj; lia|].
    destruct w as [si so sn]. simpl in He. subst si. by iApply "HΦ". }
  set (ch := chunk (Z.to_nat (alloc - Z.of_nat (length got) - 1)) (stdin w)).
  pose proof (length_chunk (Z.to_nat (alloc - Z.of_nat (length got) - 1)) (stdin w)) as [Hc1 Hc2]. fold ch in Hc1, Hc2.
  assert (length ch < length junk)%nat as Hcj by lia.
  assert (no_nul ch) as Hcn by (apply chunk_no_nul; by apply Forall_app in Hn as [_ ?]).
  iApply (wpc_fgets with "Hl"); [lia|done|fold ch; rewrite length_app length_fmap; lia|]. iIntros "Hl". fold ch.
  rewrite Nat.add_0_l read_chunk; [|done]. set (junk1 := drop (S (length ch)) junk).
  wpc_bind. iApply (wpc_strlen with "Hl").
  { rewrite fmap_app -app_assoc -(length_fmap VInt got). by apply str_in_app. }
  iIntros "Hl". wpc_bind. rewrite -Nat2Z.inj_add -(length_app got ch).
  assert (got ++ stdin w = (got ++ ch) ++ drop (length ch) (stdin w)) as Hinp.
  { rewrite -app_assoc. f_equal. rewrite {1}(chunk_prefix _ (stdin w) : ch = _). symmetry. apply take_drop. }
  assert (1 <= length ch)%nat as Hc0 by (apply chunk_nonempty; [lia|done]).
  assert (first_line (got ++ stdin w) = got ++ first_line (stdin w)) as Hfl' by by apply first_line_app.
  iApply (stop_spec l got _ alloc (stdin w) with "Hl"); [done|lia|]. fold ch. iIntros (stop Hstop) "Hl".
  set (w1 := mk_world (drop (length ch) (stdin w)) (stdout w) (strtok_next w)).
  destruct Hstop as [[-> Hch]|(-> & Hch & Hlen)].
  { wpc_ret. rewrite Hfl' Hch. iSpecialize ("HΦ" $! l (VInt 0 :: junk1) with "[%]"); [done|].
    rewrite Hinp drop_app_length. by iApply "HΦ". }
  assert (length (got ++ ch) < length (first_line (got ++ stdin w)) + 1)%nat as Hlt.
  { rewrite Hinp first_line_app; [|rewrite elem_of_app; tauto]. rewrite !length_app. lia. }
  rewrite length_app in Hlt. 
  assert (u64 (Z.shiftl alloc 1) = 2 * alloc) as ->.
  { rewrite Z.shiftl_mul_pow2; [|lia]. unfold u64, wrapu. rewrite Z.mod_small; lia. }
  wpc_bind. unfold realloc_z. destruct (2 * alloc <? 0) eqn:E; [zbool; lia|]. 
  iApply (wpc_realloc with "Hl"). iIntros (l') "Hl".
  assert (length ((VInt <$> got ++ ch) ++ VInt 0 :: junk1) = Z.to_nat alloc) as Hlb.
  { rewrite length_app length_fmap /= /junk1 length_app length_drop. lia. }
  rewrite take_ge; [|rewrite Hlb; lia]. rewrite -app_assoc.
  set (junk2 := (VInt 0 :: junk1) ++ replicate (Z.to_nat (2 * alloc) - length ((VInt <$> got ++ ch) ++ VInt 0 :: junk1)) VUndef).
  assert (length junk2 = Z.to_nat alloc + 1)%nat as Hj3.
  { unfold junk2. rewrite length_app length_replicate Hlb. rewrite length_app length_fmap length_app in Hlb. lia. }
  rewrite length_app in Hlb. iApply (IH _ (got ++ ch) with "Hl"); cbn [stdin w1].
  - by rewrite -Hinp.
  - rewrite elem_of_app. tauto.
  - by rewrite -Hinp.
  - rewrite length_app. lia.
  - lia.
  - lia.
  - by rewrite -Hinp.
  - rewrite length_drop. lia.
  - rewrite -Hinp. done.
Qed.

(** [readline] returns a block that holds exactly the next line. *)
Lemma readline_spec w Φ : no_nul (stdin w) -> stdin w <> [] -> Z.of_nat (length (first_line (stdin w))) <= 2 ^ 30 ->
  (∀ l, own_block l (str_cells (line_of (stdin w))) -∗
     Φ (Some (l, 0%nat)) (mk_world (drop (length (first_line (stdin w))) (stdin w)) (stdout w) (strtok_next w))) ⊢
  wpc readline w Φ.
Proof.
  iIntros (Hn Hne Hlen) "HΦ". unfold readline. wpc_bind. iApply wpc_get_files.
  wpc_bind. iApply wpc_malloc_z; [lia|]. iIntros (l0) "Hl".
  wpc_bind. iApply (readline_loop_spec _ l0 [] _ 1024 w with "Hl"); rewrite ?length_replicate; try done; try lia.
  { apply not_elem_of_nil. }
  cbn [app]. iIntros (l junk Hj) "Hl". set (w1 := mk_world _ _ _).
  unfold line_of. pose proof (first_line_until (stdin w)) as Hu.
  destruct (until 10 (stdin w)) as [y more] eqn:Ey. pose proof (until_prefix _ _ _ _ Ey) as (_ & _ & Hy & _ & Hnm).
  rewrite Hu. wpc_bind. destruct more; cbn [fst].
  - iApply (wpc_load_last with "Hl"); [apply last_snoc|]. iIntros "Hl". cbn [Z.eqb Pos.eqb].
    wpc_bind. replace (Z.of_nat (length (y ++ [10])) - 1) with (Z.of_nat (length y)) by (rewrite length_app /=; lia).
    iApply (wpc_store with "Hl"); [rewrite length_app length_fmap length_app /=; lia|]. iIntros "Hl".
    rewrite fmap_app -app_assoc Nat.add_0_l insert_mid; [|by rewrite length_fmap].
    unfold realloc_z. destruct (_ <? 0) eqn:E; [zbool; lia|]. iApply (wpc_realloc with "Hl"). iIntros (l') "Hl".
    rewrite Nat2Z.id. rewrite (cons_middle (VInt 0)) app_assoc take_app_length'; last first.
    { rewrite !length_app length_fmap. done. }
    rewrite (_ : (_ - _)%nat = 0%nat); [|rewrite !length_app length_fmap /=; lia]. rewrite app_nil_r. by iApply "HΦ".
  - assert (y <> []) as Hy0 by (by rewrite Hnm).
    destruct (last y) as [c|] eqn:Ec; [|by apply last_None in Ec].
    iApply (wpc_load_last with "Hl"); [done|]. iIntros "Hl".
    destruct (c =? 10) eqn:E10; zbool; [subst; by apply last_Some_elem_of in Ec|].
    wpc_bind. unfold realloc_z. destruct (_ <? 0) eqn:E; [zbool; lia|]. iApply (wpc_realloc with "Hl"). iIntros (l') "Hl".
    destruct junk as [|j junk]; [done|]. replace (Z.to_nat _) with (S (length y)) by lia.
    rewrite (cons_middle j) app_assoc take_app_length'; [|rewrite length_app length_fmap /=; lia].
    rewrite (_ : (_ - _)%nat = 0%nat); [|rewrite !length_app length_fmap /=; lia]. rewrite app_nil_r.
    wpc_bind. iApply (wpc_store with "Hl"); [rewrite length_app length_fmap /=; lia|]. iIntros "Hl".
    rewrite Nat.add_0_l insert_mid; [|by rewrite length_fmap]. wpc_ret. by iApply "HΦ".
Qed.

(** With no input left it reads in front of its buffer. *)
Lemma readline_at_end w : stdin w = [] -> True ⊢ wpe readline w OutOfBounds.
Proof.
  iIntros (He) "HT". unfold readline. wpe_bind. iApply wpc_get_files. wpe_bind. iApply wpc_malloc_z; [lia|].
  iIntros (l) "Hl". rewrite He. cbn [length readline_loop]. wpe_bind. wpc_bind.
  iApply wpc_fgets_eof; [done|done|]. wpc_ret. iApply wpe_bind_err. iApply wpe_bind_err.
  iApply (wpe_load_before with "Hl"). lia.
Qed.
End readline.

(** ** Changing a line *)

Definition norm_char (c : Z) : Z := if is_mark c then 32 else c.
Definition normalize (x : list Z) : list Z := norm_char <$> x.
Definition rstrip (x : list Z) : list Z := take (length x - skip_spaces (reverse x)) x.
Definition lstrip (x : list Z) : list Z := drop (skip_spaces x) x.
Definition trim (x : list Z) : list Z := lstrip (rstrip x).

Section in_place.
Implicit Types (w : world) (b : list val) (x : list Z).

(** A character that is replaced. *)
Lemma str_in_set b off x j c : str_in b off x -> (j < length x)%nat -> c <> 0 ->
  str_in (<[(off + j)%nat := VInt c]> b) off (<[j := c]> x).
Proof.
  intros Hx Hj Hc. pose proof (str_in_length _ _ _ Hx). apply str_in_iff in Hx as (Hn & Hg & H0).
  apply str_in_iff. rewrite length_insert. split_and!.
  - by apply Forall_insert.
  - intros i d Hi. destruct (decide (i = j)) as [->|].
    + rewrite list_lookup_insert_eq in Hi; [|done]. injection Hi as <-. apply list_lookup_insert_eq. lia.
    + rewrite list_lookup_insert_ne in Hi; [|done]. rewrite list_lookup_insert_ne; [by apply Hg|lia].
  - rewrite list_lookup_insert_ne; [done|lia].
Qed.

Lemma normalize_spec l off b x w Φ : str_in b off x -> Z.of_nat (length x) <= INT_MAX ->
  own_block l b -∗ (∀ b', ⌜str_in b' off (normalize x)⌝ → own_block l b' -∗ Φ tt w) -∗
  wpc (normalize_line (Some (l, off))) w Φ.
Proof.
  iIntros (Hx Hlen) "Hl HΦ". unfold normalize_line. wpc_bind. iApply (wpc_strlen with "Hl"); [done|]. iIntros "Hl".
  rewrite s32_int; [|unfold is_int, INT_MIN; lia]. rewrite Nat2Z.id.
  set (I := fun (k : nat) w' =>
    (⌜w' = w⌝ ∧ ∃ b', ⌜str_in b' off (normalize (take k x) ++ drop k x)⌝ ∧ own_block l b')%I).
  iApply (wpc_wand _ _ (fun _ => I (length x)) with "[Hl]").
  { iApply (wpc_for (length x) 0 _ I); last first.
    { iSplit; [done|]. iExists b. by iFrame. }
    intros k w' Hk. iIntros "(-> & %b' & %Hb' & Hl)". rewrite Z.add_0_l.
    destruct (lookup_lt_is_Some_2 x k Hk) as [c Hc].
    assert (length (normalize (take k x)) = k) as Hlk by (rewrite /normalize length_fmap length_take; lia).
    wpc_bind. iApply (wpc_load_int with "Hl").
    { apply (str_in_get _ _ _ k c Hb'). rewrite lookup_app_r; [|lia]. by rewrite Hlk Nat.sub_diag lookup_drop Nat.add_0_r. }
    iIntros "Hl". unfold I. rewrite (take_S_r _ _ _ Hc) /normalize fmap_app -app_assoc /=.
    rewrite (drop_S _ _ _ Hc) in Hb'. destruct (is_mark c) eqn:Em.
    - iApply (wpc_store with "Hl"); [apply str_in_length in Hb'; rewrite length_app Hlk /= in Hb'; lia|]. iIntros "Hl".
      iSplit; [done|]. iExists _. iFrame. iPureIntro. split; [|done]. rewrite /norm_char Em.
      apply (str_in_set _ _ _ k 32) in Hb'; [|rewrite length_app Hlk /=; lia|done].
      rewrite insert_mid in Hb'; [done|by rewrite Hlk].
    - wpc_ret. iSplit; [done|]. iExists _. iFrame. iPureIntro. rewrite /norm_char Em. done. }
  iIntros ([] w') "(-> & %b' & %Hb' & Hl)".
  rewrite firstn_all drop_all app_nil_r in Hb'. by iApply ("HΦ" with "[%] Hl").
Qed.

Lemma rtrim_loop_spec l off b x n w Φ : str_in b off x -> (n <= length x)%nat ->
  own_block l b -∗ (own_block l b -∗ Φ (n - skip_spaces (reverse (take n x)))%nat w) -∗
  wpc (rtrim_loop n (Some (l, off))) w Φ.
Proof.
  iIntros (Hx). iInduction n as [|n IH]; iIntros (Hn) "Hl HΦ"; cbn [rtrim_loop]; [wpc_ret; by iApply "HΦ"|].
  destruct (lookup_lt_is_Some_2 x n ltac:(lia)) as [c Hc].
  wpc_bind. iApply (wpc_load_int with "Hl"); [by eapply str_in_get|]. iIntros "Hl".
  rewrite (take_S_r _ _ _ Hc) reverse_snoc. cbn [skip_spaces]. destruct (isspace c).
  - iApply ("IH" with "[%] Hl HΦ"). lia.
  - wpc_ret. rewrite Nat.sub_0_r. by iApply "HΦ".
Qed.

Lemma skip_spaces_le x : (skip_spaces x <= length x)%nat.
Proof. induction x as [|c x IH]; simpl; [lia|]. destruct (isspace c); simpl; lia. Qed.

Lemma rtrim_spec l off b x w Φ : str_in b off x ->
  own_block l b -∗ (∀ b', ⌜str_in b' off (rstrip x)⌝ → own_block l b' -∗ Φ (Some (l, off)) w) -∗
  wpc (rtrim (Some (l, off))) w Φ.
Proof.
  iIntros (Hx) "Hl HΦ". unfold rtrim. wpc_bind. destruct x as [|c x].
  - iApply (wpc_load_int _ _ 0 with "Hl"); [by apply str_in_end in Hx|]. iIntros "Hl". wpc_ret.
    by iApply ("HΦ" with "[%] Hl").
  - iApply (wpc_load_int _ _ 0 with "Hl"); [by apply (str_in_get _ _ _ 0 c Hx)|]. iIntros "Hl".
    assert (c <> 0) as Hc by (by apply str_in_no_nul, Forall_cons in Hx as [? _]).
    destruct (c =? 0) eqn:E; [zbool; done|]. set (y := c :: x) in *.
    wpc_bind. iApply (wpc_strlen with "Hl"); [done|]. iIntros "Hl". rewrite Nat2Z.id.
    wpc_bind. iApply (rtrim_loop_spec with "Hl"); [done|done|]. iIntros "Hl". rewrite firstn_all.
    pose proof (str_in_length _ _ _ Hx). wpc_bind. iApply (wpc_store with "Hl"); [lia|]. iIntros "Hl". wpc_ret.
    iApply ("HΦ" with "[%] Hl"). apply str_in_cut; [done|lia].
Qed.

Lemma ltrim_loop_spec l off b x fuel w Φ : str_in b off x -> (length x < fuel)%nat ->
  own_block l b -∗ (own_block l b -∗ Φ (Some (l, (off + skip_spaces x)%nat)) w) -∗
  wpc (ltrim_loop fuel (Some (l, off))) w Φ.
Proof.
  revert off x. induction fuel as [|f IH]; iIntros (off x Hx Hf) "Hl HΦ"; [lia|]. cbn [ltrim_loop]. wpc_bind.
  destruct x as [|c x].
  - iApply (wpc_load_int _ _ 0 with "Hl"); [by apply str_in_end in Hx|]. iIntros "Hl". wpc_ret. rewrite Nat.add_0_r. by iApply "HΦ".
  - iApply (wpc_load_int _ _ 0 with "Hl"); [by apply (str_in_get _ _ _ 0 c Hx)|]. iIntros "Hl".
    assert (c <> 0) as Hc by (by apply str_in_no_nul, Forall_cons in Hx as [? _]).
    destruct (c =? 0) eqn:E; [zbool; done|]. cbn [negb andb skip_spaces]. destruct (isspace c).
    + iApply (IH (off + 1)%nat x with "Hl"); [apply (str_in_drop _ _ _ 1 Hx); simpl; lia|simpl in Hf; lia|].
      by rewrite -Nat.add_assoc.
    + wpc_ret. rewrite Nat.add_0_r. by iApply "HΦ".
Qed.

Lemma ltrim_spec l off b x w Φ : str_in b off x ->
  own_block l b -∗ (∀ off', ⌜str_in b off' (lstrip x)⌝ → own_block l b -∗ Φ (Some (l, off')) w) -∗
  wpc (ltrim (Some (l, off))) w Φ.
Proof.
  iIntros (Hx) "Hl HΦ". pose proof (str_in_drop _ _ _ (skip_spaces x) Hx (skip_spaces_le x)) as Hs.
  unfold ltrim. wpc_bind. destruct x as [|c x].
  - iApply (wpc_load_int _ _ 0 with "Hl"); [by apply str_in_end in Hx|]. iIntros "Hl". wpc_ret.
    by iApply ("HΦ" with "[%] Hl").
  - iApply (wpc_load_int _ _ 0 with "Hl"); [by apply (str_in_get _ _ _ 0 c Hx)|]. iIntros "Hl".
    assert (c <> 0) as Hc by (by apply str_in_no_nul, Forall_cons in Hx as [? _]).
    destruct (c =? 0) eqn:E; [zbool; done|]. wpc_bind. iApply (wpc_room with "Hl"). iIntros "Hl".
    iApply (ltrim_loop_spec with "Hl"); [done|apply str_in_length in Hx; lia|]. iIntros "Hl".
    by iApply ("HΦ" with "[%] Hl").
Qed.
End in_place.

(** ** Words and numbers *)

(** The array of pointers to the words [toks] of the block [l]. *)
Definition tok_cells (l : nat) (toks : list (nat * list Z)) : list val :=
  (fun t => VPtr (Some (l, t.1))) <$> toks.
Definition splits_own (l : nat) (toks : list (nat * list Z)) (p : ptr) : hprop :=
  match toks with
  | [] => ⌜p = NULL⌝ ∧ emp
  | _ => ∃ la, ⌜p = Some (la, 0%nat)⌝ ∧ own_block la (tok_cells l toks)
  end%I.

Section words.
Implicit Types (w : world) (b : list val) (x : list Z).

Lemma splits_own_some l toks la : toks <> [] -> own_block la (tok_cells l toks) ⊢ splits_own l toks (Some (la, 0%nat)).
Proof. iIntros (Ht) "H". destruct toks; [done|]. iExists la. by iFrame. Qed.

Lemma add_split_spec l toks off y p w Φ : Z.of_nat (length toks) < INT_MAX ->
  splits_own l toks p -∗
  (∀ p', splits_own l (toks ++ [(off, y)]) p' -∗ Φ (inl (p', Z.of_nat (length (toks ++ [(off, y)])))) w) -∗
  wpc (add_split (Some (l, off)) (p, Z.of_nat (length toks))) w Φ.
Proof.
  iIntros (Hlen) "Hp HΦ". unfold add_split. wpc_bind. iApply wpc_int; [unfold is_int, INT_MIN; lia|].
  wpc_bind. unfold realloc_z. destruct (_ <? 0) eqn:E; [zbool; lia|].
  iAssert (wpc (realloc p (Z.to_nat (Z.of_nat (length toks) + 1))) w (fun p' w' =>
    ∃ la, ⌜p' = Some (la, 0%nat) /\ w' = w⌝ ∧ own_block la (tok_cells l toks ++ [VUndef])))%I with "[Hp]" as "H".
  { destruct toks as [|t toks].
    - iDestruct "Hp" as "[-> _]". iApply wpc_malloc. iIntros (la) "Hl". iExists la. by iFrame.
    - iDestruct "Hp" as (la) "[-> Hl]". iApply (wpc_realloc with "Hl"). iIntros (la') "Hl". iExists la'.
      replace (Z.to_nat _) with (S (length (t :: toks))) by lia. rewrite replicate_end; [|by rewrite /tok_cells length_fmap].
      by iFrame. }
  iApply (wpc_wand with "H"). iIntros (p' w') "(%la & %Hp & Hl)". destruct Hp as [-> ->].
  wpc_bind. replace (Z.of_nat (length toks) + 1 - 1) with (Z.of_nat (length toks)) by lia.
  iApply (wpc_store with "Hl"); [rewrite length_app /tok_cells length_fmap /=; lia|]. iIntros "Hl".
  rewrite Nat.add_0_l insert_mid; [|by rewrite /tok_cells length_fmap]. wpc_ret.
  replace (Z.of_nat (length toks) + 1) with (Z.of_nat (length (toks ++ [(off, y)]))) by (rewrite length_app /=; lia).
  iApply "HΦ". iApply splits_own_some; [by destruct toks|]. unfold tok_cells. by rewrite fmap_app.
Qed.

Lemma words_le d x : (length (words d x) <= S (length x))%nat.
Proof. unfold words. etrans; [apply length_filter|apply split_bounds]. Qed.

(** [split_string2] cuts the string into its words. *)
Lemma split_string2_spec l off b x n w Φ : str_in b off x -> Z.of_nat (length x) + 1 < INT_MAX ->
  own_block l b -∗
  (∀ p b' off' toks nx, ⌜toks.*2 = words 32 x /\ pieces_at b' off' toks⌝ → own_block l b' -∗ splits_own l toks p -∗
     Φ (p, Z.of_nat (length (words 32 x))) (mk_world (stdin w) (stdout w) nx)) -∗
  wpc (split_string2 (Some (l, off)) n) w Φ.
Proof.
  iIntros (Hx Hlen) "Hl HΦ". unfold split_string2, split_words. wpc_bind. wpc_bind. iApply wpc_get_files.
  cbn [tok_start]. wpc_bind. iApply (wpc_room with "Hl"). iIntros "Hl".
  set (I := fun (toks : list (nat * list Z)) (st : ptr * Z) (w' : world) =>
    (⌜st.2 = Z.of_nat (length toks) /\ stdin w' = stdin w /\ stdout w' = stdout w⌝ ∧ splits_own l toks st.1)%I).
  iApply (wpc_wand _ _ (strtok_post l I (words 32 x)) with "[Hl]").
  { unshelve iApply (wpc_strtok_loop _ _ l I (words 32 x) _ _ _ _ off b x [] with "[Hl]"); try done.
    - intros toks o y rest [p k] w' b' Hall Hy Hb'. iIntros "[[%Hst Hp] Hl]". destruct Hst as (Hk & Hi & Ho). simpl in Hk. subst k.
      iApply (add_split_spec l toks o y with "Hp").
      + assert (length (toks.*2 ++ y :: rest) <= S (length x))%nat as Hle by (rewrite Hall; apply words_le).
        rewrite length_app length_fmap /= in Hle. lia.
      + iIntros (p') "Hp". iExists (p', _). iFrame. done.
    - apply str_in_length in Hx. lia.
    - constructor.
    - by left.
    - iFrame. by iSplit. }
  iIntros (r w') "(%s' & %b' & %toks & %off' & %Hr & [%Hst Hp] & Hl)". destruct s' as [p k].
  destruct Hr as (-> & Htoks & Hat). destruct Hst as (Hk & Hi & Ho). simpl in Hk. wpc_ret.
  iSpecialize ("HΦ" $! p b' off' toks (strtok_next w') with "[%] Hl Hp"); [done|].
  rewrite Hk -Htoks length_fmap. destruct w'; simpl in *; subst. done.
Qed.

(** The number a string stands for. *)
Definition number (x : list Z) : option Z :=
  let '(v, n) := strtol x in if (n =? 0)%nat || negb (n =? length x)%nat then None else Some (s32 v).
Definition numbers (x : list Z) : option (list Z) := mapM number (words 32 (trim (normalize x))).

Lemma read_digits_le a x : ((read_digits a x).2 <= length x)%nat.
Proof.
  revert a. induction x as [|c x IH]; intros a; simpl; [lia|]. destruct (isdigit c); [|simpl; lia].
  specialize (IH (10 * a + (c - 48))). destruct (read_digits _ x). simpl in *. lia.
Qed.
Lemma strtol_le x : ((strtol x).2 <= length x)%nat.
Proof.
  unfold strtol. pose proof (skip_spaces_le x) as Hk. set (k := skip_spaces x) in *.
  set (q := match drop k x with c :: _ => _ | [] => _ end).
  assert (k + q.2 <= length x)%nat as Hs.
  { unfold q. destruct (drop k x) as [|c z] eqn:E; [simpl; lia|].
    assert (length (drop k x) = length (c :: z)) as Hl by (by rewrite E). rewrite length_drop /= in Hl.
    destruct (c =? 45); [simpl; lia|]. destruct (c =? 43); simpl; lia. }
  destruct q as [neg s]. simpl in Hs. pose proof (read_digits_le 0 (drop (k + s) x)) as Hr. rewrite length_drop in Hr.
  destruct (read_digits 0 (drop (k + s) x)) as [v n]. simpl in Hr. destruct (n =? 0)%nat; simpl; lia.
Qed.

Lemma number_int x v : number x = Some v -> is_int v.
Proof.
  unfold number. destruct (strtol x) as [z n]. destruct (_ || _); [done|]. intros [= <-].
  unfold is_int, INT_MIN, INT_MAX, s32. pose proof (Z.mod_pos_bound (z + 2 ^ 31) (2 ^ 32) ltac:(lia)). lia.
Qed.
Lemma number_dec z : is_int z -> number (dec z) = Some z.
Proof.
  intros Hz. unfold number. pose proof (dec_length z Hz). rewrite -(app_nil_r (dec z)) strtol_dec; [|done|done].
  rewrite app_nil_r Nat.eqb_refl s32_int; [|done]. destruct (_ =? 0)%nat eqn:E; [apply Nat.eqb_eq in E; lia|done].
Qed.
End words.

(** ** Programs that may exit *)

Definition wpx {A} (m : X A) (w : world) (Φ : A -> world -> hprop) (Ψ : Z -> world -> hprop) : hprop :=
  wpc m w (fun r w' => match r with inl status => Ψ status w' | inr a => Φ a w' end).

Section exits.
Implicit Types (w : world) (Ψ : Z -> world -> hprop).

Lemma wpx_ret {A} (a : A) w Φ Ψ : Φ a w ⊢ wpx (xret a) w Φ Ψ.
Proof. iIntros "H". by wpc_ret. Qed.
Lemma wpx_lift {A} (m : C A) w Φ Ψ : wpc m w Φ ⊢ wpx (xlift m) w Φ Ψ.
Proof. iIntros "H". wpc_bind. iApply (wpc_wand with "H"). iIntros (a w') "H". by wpc_ret. Qed.
Lemma wpx_bind {A B} (m : X A) (f : A -> X B) w Φ Ψ :
  wpx m w (fun a w' => wpx (f a) w' Φ Ψ) Ψ ⊢ wpx (xbind m f) w Φ Ψ.
Proof.
  iIntros "H". wpc_bind. iApply (wpc_wand with "H"). iIntros (r w') "H". destruct r as [status|a]; [by wpc_ret|done].
Qed.
Lemma wpx_lift_bind {A B} (m : C A) (f : A -> X B) w Φ Ψ :
  wpc m w (fun a w' => wpx (f a) w' Φ Ψ) ⊢ wpx (xbind (xlift m) f) w Φ Ψ.
Proof. iIntros "H". iApply wpx_bind. by iApply wpx_lift. Qed.

(** A fault after [m], which does not exit, or in [m]. *)
Lemma wpe_xbind {A B} (m : X A) (f : A -> X B) w e :
  wpx m w (fun a w' => wpe (f a) w' e) (fun _ _ => False%I) ⊢ wpe (xbind m f) w e.
Proof.
  iIntros "H". wpe_bind. iApply (wpc_wand with "H"). iIntros (r w') "H". by destruct r as [status|a]; [iDestruct "H" as "[]"|].
Qed.
Lemma wpe_xbind_err {A B} (m : X A) (f : A -> X B) w e : wpe m w e ⊢ wpe (xbind m f) w e.
Proof. apply wpe_bind_err. Qed.
Lemma wpe_xlift {A} (m : C A) w e : wpe m w e ⊢ wpe (xlift m) w e.
Proof. apply wpe_bind_err. Qed.

(** [parse_int] gives the number, or ends the program with status 1. *)
Lemma parse_int_spec l off b x w Φ Ψ : str_in b off x ->
  own_block l b -∗ (own_block l b -∗ match number x with Some v => Φ v w | None => Ψ 1 w end) -∗
  wpx (parse_int (Some (l, off))) w Φ Ψ.
Proof.
  iIntros (Hx) "Hl H". unfold parse_int, number. wpc_bind. iApply (wpc_read_string with "Hl"); [done|]. iIntros "Hl".
  pose proof (strtol_le x) as Hle. destruct (strtol x) as [v n]. simpl in Hle.
  destruct (n =? 0)%nat; cbn [orb]; [wpc_ret; by iApply "H"|]. wpc_bind. destruct (decide (n = length x)) as [->|Hn].
  - iApply (wpc_load_int with "Hl"); [by apply str_in_end|]. iIntros "Hl". rewrite Nat.eqb_refl. wpc_ret. by iApply "H".
  - destruct (lookup_lt_is_Some_2 x n ltac:(lia)) as [c Hc].
    iApply (wpc_load_int with "Hl"); [by eapply str_in_get|]. iIntros "Hl".
    assert (c <> 0) as Hc0 by (apply str_in_no_nul in Hx; by eapply (Forall_lookup_1 _ _ _ _ Hx)).
    destruct (c =? 0) eqn:E; [zbool; done|]. rewrite (proj2 (Nat.eqb_neq _ _) Hn). wpc_ret. by iApply "H".
Qed.

Lemma pieces_at_in b off toks t : pieces_at b off toks -> t ∈ toks -> str_in b t.1 t.2.
Proof. intros H Ht. unfold pieces_at in H. rewrite Forall_forall in H. by apply H. Qed.

Lemma parse_ints_spec l b off la pre rest i a w Φ Ψ :
  pieces_at b off (pre ++ rest) -> i = Z.of_nat (length pre) ->
  own_block l b -∗ own_block la (tok_cells l (pre ++ rest)) -∗
  (True -∗ match mapM number rest.*2 with Some ns => Φ (a ++ ns) w | None => Ψ 1 w end) -∗
  wpx (parse_ints (length rest) i (Some (la, 0%nat)) a) w Φ Ψ.
Proof.
  revert pre i a. induction rest as [|t rest IH]; iIntros (pre i a Hat ->) "Hl Ha H"; cbn [parse_ints length].
  { iApply wpx_ret. cbn. rewrite (app_nil_r a). by iApply "H". }
  iApply wpx_lift_bind. iApply (wpc_load_ptr with "Ha").
  { rewrite Nat.add_0_l /tok_cells list_lookup_fmap list_lookup_middle; [|done]. done. }
  iIntros "Ha". iApply wpx_bind. iApply (parse_int_spec with "Hl").
  { eapply (pieces_at_in _ _ _ t Hat). apply elem_of_app. right. left. }
  iIntros "Hl". cbn [fmap list_fmap mapM]. destruct (number t.2) as [v|]; cbn [mbind option_bind].
  - rewrite (cons_middle t) app_assoc in Hat |- *.
    iApply (IH (pre ++ [t]) with "Hl Ha"); [done|rewrite length_app /=; lia|]. 
    iIntros "HT". iSpecialize ("H" with "HT"). destruct (mapM number rest.*2); cbn; [by rewrite -app_assoc|done].
  - by iApply "H".
Qed.

(** The world after [strtok] was used. *)
Definition same_files (w w' : world) : Prop := stdin w' = stdin w /\ stdout w' = stdout w.

Lemma trimmed_spec l off b x w Φ : str_in b off x ->
  own_block l b -∗ (∀ b' off', ⌜str_in b' off' (trim x)⌝ → own_block l b' -∗ Φ (Some (l, off')) w) -∗
  wpc (trimmed (Some (l, off))) w Φ.
Proof.
  iIntros (Hx) "Hl H". wpc_bind. iApply (rtrim_spec with "Hl"); [done|]. iIntros (b2 Hb2) "Hl".
  iApply (ltrim_spec with "Hl"); [done|]. iIntros (off' Hb3) "Hl". by iApply ("H" with "[%] Hl").
Qed.
Lemma length_trim x : (length (trim x) <= length x)%nat.
Proof. unfold trim, lstrip, rstrip. rewrite length_drop length_take. lia. Qed.
Lemma length_normalize x : length (normalize x) = length x.
Proof. apply length_fmap. Qed.

Lemma parse_splits_spec l b off toks p w Φ Ψ : pieces_at b off toks ->
  own_block l b -∗ splits_own l toks p -∗
  (True -∗ match mapM number toks.*2 with Some ns => Φ ns w | None => Ψ 1 w end) -∗
  wpx (parse_ints (length toks) 0 p []) w Φ Ψ.
Proof.
  iIntros (Hat) "Hl Hs H". destruct toks as [|t toks].
  - cbn [length parse_ints]. iApply wpx_ret. by iApply "H".
  - iDestruct "Hs" as (la) "[-> Ha]". iApply (parse_ints_spec l b off la [] with "Hl Ha H"); done.
Qed.

Lemma split_numbers_spec l off b x w Φ Ψ : str_in b off x -> Z.of_nat (length x) + 1 < INT_MAX ->
  own_block l b -∗
  (∀ w', ⌜same_files w w'⌝ → True -∗ match mapM number (words 32 x) with Some ns => Φ ns w' | None => Ψ 1 w' end) -∗
  wpx (split_numbers (Some (l, off))) w Φ Ψ.
Proof.
  iIntros (Hx Hlen) "Hl H". unfold split_numbers. iApply wpx_lift_bind. iApply (split_string2_spec with "Hl"); [done|done|].
  iIntros (p b' off' toks nx [Htoks Hat]) "Hl Hs". cbn [fst snd]. rewrite Nat2Z.id -Htoks length_fmap.
  iApply (parse_splits_spec with "Hl Hs"); [done|]. by iApply "H".
Qed.

(** A line read as numbers. *)
Lemma numbers_of_spec l off b x w Φ Ψ : str_in b off x -> Z.of_nat (length x) + 1 < INT_MAX ->
  own_block l b -∗
  (∀ w', ⌜same_files w w'⌝ → True -∗ match numbers x with Some ns => Φ ns w' | None => Ψ 1 w' end) -∗
  wpx (numbers_of (Some (l, off))) w Φ Ψ.
Proof.
  iIntros (Hx Hlen) "Hl H". unfold numbers_of. iApply wpx_lift_bind.
  iApply (normalize_spec with "Hl"); [done|lia|]. iIntros (b1 Hb1) "Hl".
  iApply wpx_lift_bind. iApply (trimmed_spec with "Hl"); [done|]. iIntros (b2 off' Hb2) "Hl".
  iApply (split_numbers_spec with "Hl H"); [done|].
  pose proof (length_trim (normalize x)) as Hl. rewrite length_normalize in Hl. lia.
Qed.

(** A line as a string. *)
Lemma string_of_spec l off b x w Φ Ψ : str_in b off x -> Z.of_nat (length x) <= INT_MAX ->
  own_block l b -∗ (True -∗ Φ (trim (normalize x)) w) -∗ wpx (string_of (Some (l, off))) w Φ Ψ.
Proof.
  iIntros (Hx Hlen) "Hl H". unfold string_of. iApply wpx_lift_bind.
  iApply (normalize_spec with "Hl"); [done|lia|]. iIntros (b1 Hb1) "Hl".
  iApply wpx_lift_bind. iApply (trimmed_spec with "Hl"); [done|]. iIntros (b2 off' Hb2) "Hl".
  iApply wpx_lift. iApply (wpc_read_string with "Hl"); [done|]. iIntros "Hl". by iApply "H".
Qed.

(** A line of the input: printable in the sense of the functions above. *)
Definition good_line (x : list Z) : Prop := no_nul x /\ 10 ∉ x /\ Z.of_nat (length x) < 2 ^ 30.

Lemma until_line x rest : 10 ∉ x -> until 10 (x ++ 10 :: rest) = (x, true).
Proof.
  induction x as [|c x IH]; [done|]. rewrite not_elem_of_cons. intros [Hc Hx]. cbn [app until].
  destruct (c =? 10) eqn:E; [zbool; congruence|]. by rewrite IH.
Qed.

Lemma readline_line x rest so nx Φ : good_line x -> no_nul rest ->
  (∀ l, own_block l (str_cells x) -∗ Φ (Some (l, 0%nat)) (mk_world rest so nx)) ⊢
  wpc readline (mk_world (x ++ 10 :: rest) so nx) Φ.
Proof.
  iIntros ((Hn & Hx & Hlen) Hr) "H".
  assert (first_line (x ++ 10 :: rest) = x ++ [10]) as Hf by (by rewrite first_line_until until_line).
  iApply readline_spec; cbn [stdin stdout strtok_next].
  - apply Forall_app. split; [done|]. by constructor.
  - by destruct x.
  - rewrite Hf length_app /=. lia.
  - rewrite Hf (cons_middle 10) app_assoc drop_app_length. unfold line_of. by rewrite -app_assoc /= until_line.
Qed.

(** The tests of a [main], one after the other: [feed t] is the input of the test [t], [Q t r]
    says that [r] is a right answer to it, and [show r] is how the answer is printed. *)
Section mains.
Context {T R : Type} (feed : T -> list Z) (show : R -> list Z) (P : T -> Prop) (Q : T -> R -> Prop) (test : X unit).

(** One test answers [t]. *)
Definition answers (t : T) : Prop := forall rest so nx, no_nul rest ->
  True ⊢ wpx test (mk_world (feed t ++ rest) so nx)
    (fun _ w' => ⌜exists r nx', Q t r /\ w' = mk_world rest (so ++ show r) nx'⌝ ∧ True) (fun _ _ => False).

Context (Hfeed : forall t, P t -> no_nul (feed t)) (Htest : forall t, P t -> answers t).

Lemma feeds_no_nul ts : Forall P ts -> no_nul (ts ≫= feed).
Proof.
  induction 1 as [|t ts Ht _ IH]; [constructor|]. cbn. apply Forall_app. split; [by apply Hfeed|done].
Qed.

Lemma repeat_test_spec ts so nx : Forall P ts ->
  True ⊢ wpx (repeat_test (length ts) test) (mk_world (ts ≫= feed) so nx)
    (fun _ w' => ⌜exists rs nx', Forall2 Q ts rs /\ w' = mk_world [] (so ++ (rs ≫= show)) nx'⌝ ∧ True) (fun _ _ => False).
Proof.
  intros Hts. revert so nx. induction Hts as [|t ts Ht Hts IH]; intros so nx; cbn [repeat_test length]; iIntros "HT".
  { iApply wpx_ret. iSplit; [|done]. iPureIntro. exists [], nx. split; [constructor|]. cbn. by rewrite app_nil_r. }
  iApply wpx_bind. cbn [mbind list_bind]. iApply (wpc_wand with "[HT]").
  { iApply (Htest t Ht with "HT"). by apply feeds_no_nul. }
  iIntros (r w') "Hr". destruct r as [|[]]; [iDestruct "Hr" as "[]"|]. iDestruct "Hr" as "[%Hw HT]".
  destruct Hw as (r & nx' & Hr & ->). iApply (wpc_wand with "[HT]"); [by iApply IH|].
  iIntros (q w') "Hq". destruct q; [iDestruct "Hq" as "[]"|]. iDestruct "Hq" as "[%Hw HT]". destruct Hw as (rs & nx2 & Hrs & ->).
  iSplit; [|done]. iPureIntro. exists (r :: rs), nx2. split; [by constructor|]. cbn. by rewrite app_assoc.
Qed.

Lemma main_of_spec count ts so nx : good_line count -> number count = Some (Z.of_nat (length ts)) -> Forall P ts ->
  exists rs h nx', Forall2 Q ts rs /\ main_of test (mem ∅ (mk_world (count ++ 10 :: (ts ≫= feed)) so nx)) =
    Ok (0, mem h (mk_world [] (so ++ (rs ≫= show)) nx')).
Proof.
  intros Hc Hnum Hts.
  set (post := fun w' => exists rs nx', Forall2 Q ts rs /\ w' = mk_world [] (so ++ (rs ≫= show)) nx').
  destruct (wpc_run (main_of test) (mk_world (count ++ 10 :: (ts ≫= feed)) so nx) (fun r w' => ⌜r = 0 /\ post w'⌝)%I)
    as (r & w' & h & E & -> & rs & nx' & Hrs & ->); [|by exists rs, h, nx'].
  unfold main_of. wpc_bind.
  iApply (wpc_wand _ _ (fun r w' => match r with inr _ => ⌜post w'⌝ ∧ True | inl _ => False end)%I).
  - iApply wpx_lift_bind. iApply (readline_line _ _ _ _ _ Hc (feeds_no_nul ts Hts)). iIntros (l) "Hl".
    iApply wpx_bind. iApply (parse_int_spec with "Hl"); [apply str_in_cells, Hc|]. iIntros "Hl". rewrite Hnum Nat2Z.id.
    iApply (repeat_test_spec ts so nx Hts). done.
  - iIntros (r w') "Hr". destruct r as [|u]; [iDestruct "Hr" as "[]"|]. iDestruct "Hr" as "[%Hw HT]". wpc_ret. done.
Qed.

(** A test that fails on the rest of the input. *)
Lemma repeat_test_fails n ts rest so nx e :
  (forall so nx, True ⊢ wpe test (mk_world rest so nx) e) -> no_nul rest -> (length ts < n)%nat -> Forall P ts ->
  True ⊢ wpe (repeat_test n test) (mk_world ((ts ≫= feed) ++ rest) so nx) e.
Proof.
  intros He Hrest Hn Hts. revert n so nx Hn.
  induction Hts as [|t ts Ht Hts IH]; intros [|n] so nx Hn; cbn [length] in Hn; try lia; cbn [repeat_test]; iIntros "HT".
  { iApply wpe_xbind_err. by iApply He. }
  iApply wpe_xbind. cbn [mbind list_bind]. rewrite -app_assoc. iApply (wpc_wand with "[HT]").
  { iApply (Htest t Ht with "HT"). apply Forall_app. split; [by apply feeds_no_nul|done]. }
  iIntros (r w') "Hr". destruct r as [|[]]; [done|]. iDestruct "Hr" as "[%Hw HT]".
  destruct Hw as (r & nx' & _ & ->). iApply IH; [lia|done].
Qed.

Lemma main_of_fails count k ts rest so nx e :
  (forall so nx, True ⊢ wpe test (mk_world rest so nx) e) -> no_nul rest ->
  good_line count -> number count = Some k -> Z.of_nat (length ts) < k -> Forall P ts ->
  main_of test (mem ∅ (mk_world (count ++ 10 :: (ts ≫= feed) ++ rest) so nx)) = Err e.
Proof.
  intros He Hrest Hc Hnum Hk Hts. apply wpe_run. unfold main_of. iApply wpe_bind_err. iApply wpe_xbind. iApply wpx_lift.
  iApply (readline_line _ _ _ _ _ Hc). { apply Forall_app. split; [by apply feeds_no_nul|done]. }
  iIntros (l) "Hl". iApply wpe_xbind.
  iApply (parse_int_spec l _ _ count with "Hl"); [apply str_in_cells, Hc|]. iIntros "Hl". rewrite Hnum.
  iApply repeat_test_fails; [done|done|lia|done|done].
Qed.
End mains.

(** When the answer is a function of the test. *)
Lemma main_of_function {T} (feed answer : T -> list Z) (P : T -> Prop) (test : X unit) count ts so nx :
  (forall t, P t -> no_nul (feed t)) -> (forall t, P t -> answers feed answer eq test t) ->
  good_line count -> number count = Some (Z.of_nat (length ts)) -> Forall P ts ->
  exists h nx', main_of test (mem ∅ (mk_world (count ++ 10 :: (ts ≫= feed)) so nx)) =
    Ok (0, mem h (mk_world [] (so ++ (ts ≫= answer)) nx')).
Proof.
  intros Hfeed Htest Hc Hnum Hts.
  destruct (main_of_spec feed answer P eq test Hfeed Htest count ts so nx Hc Hnum Hts) as (rs & h & nx' & Hrs & E).
  assert (rs = ts) as -> by (clear -Hrs; induction Hrs; congruence). by exists h, nx'.
Qed.

(** No number in the first line: the program exits with status 1. *)
Lemma main_of_bad_count test count rest so nx : good_line count -> no_nul rest -> number count = None ->
  exists h nx', main_of test (mem ∅ (mk_world (count ++ 10 :: rest) so nx)) = Ok (1, mem h (mk_world rest so nx')).
Proof.
  intros Hc Hr Hnum.
  destruct (wpc_run (main_of test) (mk_world (count ++ 10 :: rest) so nx)
    (fun r w' => ⌜r = 1 /\ exists nx', w' = mk_world rest so nx'⌝)%I) as (r & w' & h & E & -> & nx' & ->).
  - unfold main_of. wpc_bind. iApply (wpc_wand _ _ (fun r w' =>
      match r with inl s => ⌜s = 1 /\ exists nx', w' = mk_world rest so nx'⌝ ∧ True | inr _ => False end)%I).
    + iApply wpx_lift_bind. iApply (readline_line _ _ _ _ _ Hc Hr). iIntros (l) "Hl".
      iApply wpx_bind. iApply (parse_int_spec with "Hl"); [apply str_in_cells, Hc|]. iIntros "Hl". rewrite Hnum. by eauto.
    + iIntros (r w') "Hr". destruct r as [status|]; [|iDestruct "Hr" as "[]"]. iDestruct "Hr" as "[%Hr' HT]".
      destruct Hr' as (-> & nx' & ->). wpc_ret. by eauto.
  - by exists h, nx'.
Qed.
End exits.

End Common.
