(* ===== verification/CcMains.v ===== *)
(** * The exercises as programs

    The [main] functions of src/0xetc/0xcc: each reads a number of tests and, for each, lines
    of input, calls its solution (CcTwoPointers, CcSliding, CcArrays, CcMatrix, CcZigzag)
    and prints the answer. The theorems are about whole runs: for an input of well-formed
    lines the program ends with status 0 and its output is what the exercise asks for. *)
From stdpp Require Import base numbers list gmap strings sorting.
From iris.proofmode Require Import proofmode.
From S2P Require Import Prelude CBase CDecimal CHeap HeapLogic CStrings CcCommon.
From S2P Require Import CcTwoPointers CcSliding CcArrays CcMatrix CcZigzag.
Set Warnings "-rewrite-rw".
Local Open Scope Z_scope.
Import Common.

Module Mains.

(** container-with-most-water *)
Definition water_test : X unit :=
  line_raw <~ xlift readline;
  a <~ numbers_of line_raw;
  result <~ xlift (lift (Water.maxArea a));
  xlift (print_int result).
Definition water_main : C Z := main_of water_test.

(** valid-palindrome *)
Definition valid_palindrome_test : X unit :=
  p <~ xlift readline;
  line_str <~ xlift (trimmed p);
  line_s <~ string_of line_str;
  result <~ xlift (lift (Palindrome.isPalindrome line_s));
  xlift (print_bool result).
Definition valid_palindrome_main : C Z := main_of valid_palindrome_test.

(** palindrome-number *)
Definition palindrome_number_test : X unit :=
  line_raw <~ xlift readline;
  x <~ parse_int line_raw;
  result <~ xlift (lift (NumberPalindrome.isPalindrome x));
  xlift (print_bool result).
Definition palindrome_number_main : C Z := main_of palindrome_number_test.

(** longest-substring-without-repeating-characters *)
Definition longest_substring_test : X unit :=
  line_raw <~ xlift readline;
  a <~ string_of line_raw;
  result <~ xlift (lift (Longest.lengthOfLongestSubstring a));
  xlift (print_int result).
Definition longest_substring_main : C Z := main_of longest_substring_test.

(** minimum-size-subarray-sum *)
Definition min_sub_array_test : X unit :=
  p <~ xlift readline;
  target <~ parse_int p;
  tmp <~ xlift readline;
  arr <~ numbers_of tmp;
  result <~ xlift (lift (MinSub.minSubArrayLen target arr));
  xlift (print_int result).
Definition min_sub_array_main : C Z := main_of min_sub_array_test.

(** [printf("%d ", v[i])] for the first [n] elements. *)
Fixpoint print_ints (n : nat) (i : Z) (v : list Z) : C unit :=
  match n with
  | O => mret tt
  | S n' => a ← lift (at_ v i); emit (dec a ++ [32]);; print_ints n' (i + 1) v
  end.

(** merge-sorted-array *)
Definition array_line (line : ptr) : C ptr :=
  str ← trimmed line; normalize_line str;; mret str.

Definition merge_test : X unit :=
  p1 <~ xlift readline;
  nums1_str <~ xlift (array_line p1);
  q1 <~ xlift readline;
  nums1_len <~ parse_int q1;
  p2 <~ xlift readline;
  nums2_str <~ xlift (array_line p2);
  q2 <~ xlift readline;
  nums2_len <~ parse_int q2;
  arr1 <~ xlift (split_string2 nums1_str 0);
  arr2 <~ xlift (split_string2 nums2_str 0);
  nums1 <~ parse_ints (Z.to_nat arr1.2) 0 arr1.1 [];
  nums2 <~ parse_ints (Z.to_nat arr2.2) 0 arr2.1 [];
  r <~ xlift (lift (Arrays.merge nums1 nums1_len nums2 nums2_len));
  _ <~ xlift (print_ints (length r) 0 r);
  xlift (emit [10]).
Definition merge_main : C Z := main_of merge_test.

(** remove-element *)
Definition remove_test : X unit :=
  lineraw <~ xlift readline;
  p <~ xlift readline;
  q <~ xlift (trimmed p);
  val <~ parse_int q;
  nums <~ numbers_of lineraw;
  r <~ xlift (lift (Arrays.removeElement nums val));
  _ <~ xlift (emit (chars "ans: " ++ dec r.1 ++ [10] ++ chars " > "));
  _ <~ xlift (print_ints (Z.to_nat r.1) 0 r.2);
  xlift (emit [10]).
Definition remove_main : C Z := main_of remove_test.

(** ransom-note *)
Definition ransom_test : X unit :=
  p1 <~ xlift readline;
  p2 <~ xlift readline;
  _ <~ xlift (normalize_line p1);
  _ <~ xlift (normalize_line p2);
  q1 <~ xlift (trimmed p1);
  q2 <~ xlift (trimmed p2);
  a <~ xlift (read_string q1);
  b <~ xlift (read_string q2);
  result <~ xlift (lift (HashMap.canConstruct a b));
  xlift (print_bool result).
Definition ransom_main : C Z := main_of ransom_test.

(** two-sum. The fuel is for the search, which need not end. *)
Definition two_sum_test (fuel : nat) : X unit :=
  line_raw <~ xlift readline;
  target_raw <~ xlift readline;
  _ <~ xlift (normalize_line line_raw);
  l <~ xlift (trimmed line_raw);
  target <~ parse_int target_raw;
  nums <~ split_numbers l;
  result <~ xlift (lift (HashMap.twoSum fuel nums target));
  xlift (emit (dec result.1 ++ [32] ++ dec result.2 ++ [10])).
Definition two_sum_main (fuel : nat) : C Z := main_of (two_sum_test fuel).

(** valid-sudoku: the first characters of the words of a line. *)
Fixpoint first_chars (n : nat) (i : Z) (line : ptr) (row : list Z) : X (list Z) :=
  match n with
  | O => xret row
  | S n' =>
      c <~ xlift (load_ptr line i);
      x <~ xlift (load_int c 0);
      first_chars n' (i + 1) line (row ++ [x])
  end.

Fixpoint read_board (n : nat) (board : list (list Z)) : X (list (list Z)) :=
  match n with
  | O => xret board
  | S n' =>
      line_raw <~ xlift readline;
      _ <~ xlift (normalize_line line_raw);
      l <~ xlift (trimmed line_raw);
      line <~ xlift (split_string2 l 0);
      row <~ first_chars (Z.to_nat line.2) 0 line.1 [];
      read_board n' (board ++ [row])
  end.

Definition sudoku_test : X unit :=
  board <~ read_board 9 [];
  result <~ xlift (lift (Sudoku.isValidSudoku board));
  xlift (print_bool result).
Definition sudoku_main : C Z := main_of sudoku_test.

(** zigzag-conversion *)
Definition zigzag_test : X unit :=
  line_raw1 <~ xlift readline;
  _ <~ xlift (normalize_line line_raw1);
  line_row <~ xlift readline;
  l <~ xlift (trimmed line_raw1);
  a <~ xlift (read_string l);
  q <~ xlift (trimmed line_row);
  row <~ parse_int q;
  ans <~ xlift (lift (Zigzag.convert a row));
  xlift (emit (c_chars ans ++ [10])).
Definition zigzag_main : C Z := main_of zigzag_test.

(** ** Steps of the tests *)

Ltac x_lift := iApply wpx_lift_bind.

(** The end of a test: its output is written. *)
Section steps.
Implicit Types (x rest so : list Z) (nx : ptr).

Lemma good_no_nul x : good_line x -> no_nul (x ++ [10]).
Proof. intros (Hx & _). apply Forall_app. split; [done|]. by constructor. Qed.

Lemma x_readline {B} x rest so nx (f : ptr -> X B) Φ Ψ : good_line x -> no_nul rest ->
  (∀ l, own_block l (str_cells x) -∗ wpx (f (Some (l, 0%nat))) (mk_world rest so nx) Φ Ψ) ⊢
  wpx (xbind (xlift readline) f) (mk_world ((x ++ [10]) ++ rest) so nx) Φ Ψ.
Proof. iIntros (Hx Hr) "H". x_lift. rewrite -app_assoc. by iApply readline_line. Qed.

Lemma x_call {A B} (m : res A) a (f : A -> X B) w Φ Ψ : m = Ok a ->
  wpx (f a) w Φ Ψ ⊢ wpx (xbind (xlift (lift m)) f) w Φ Ψ.
Proof. iIntros (Hm) "H". x_lift. by iApply wpc_lift. Qed.

Lemma x_print {R} (Q : R -> Prop) (show : R -> list Z) (r : R) out rest so0 so nx Ψ : Q r -> so ++ out = so0 ++ show r ->
  True ⊢ wpx (xlift (emit out)) (mk_world rest so nx)
    (fun _ w' => ⌜exists r nx', Q r /\ w' = mk_world rest (so0 ++ show r) nx'⌝ ∧ True) Ψ.
Proof.
  iIntros (Hr Hout) "H". iApply wpx_lift. iApply wpc_emit. iSplit; [|done]. iPureIntro. exists r, nx. cbn. by rewrite Hout.
Qed.
End steps.

Ltac no_nuls := repeat first [by apply good_no_nul|apply Forall_app_2]; done.

(** ** Container with most water *)

(** The heights for which the solution is meant: areas that fit an [int]. *)
Definition container (h : list Z) : Prop :=
  (1 <= length h)%nat /\ Z.of_nat (length h) <= INT_MAX /\ Forall (fun a => 0 <= a) h /\
  forall i j, (i < j < length h)%nat -> Water.area h i j <= INT_MAX.

(** For lines that hold the heights of containers, the program prints the largest area
    of each and ends with status 0. *)
Theorem water_main_prints_largest (count : list Z) (ts : list (list Z * list Z)) so nx :
  good_line count -> number count = Some (Z.of_nat (length ts)) ->
  Forall (fun t => good_line t.1 /\ numbers t.1 = Some t.2 /\ container t.2) ts ->
  exists ms h nx', Forall2 (fun t m => Water.largest_area t.2 m) ts ms /\
    water_main (mem ∅ (mk_world (count ++ 10 :: (ts ≫= fun t => t.1 ++ [10])) so nx)) =
    Ok (0, mem h (mk_world [] (so ++ (ms ≫= fun m => dec m ++ [10])) nx')).
Proof.
  apply main_of_spec; [intros t (H & _); by apply good_no_nul|].
  intros [x h] (Hx & Hh & H1 & H2 & H3 & H4). cbn [fst snd] in *.
  destruct (Water.max_area_is_largest h H1 H2 H3 H4) as (m & Em & Hm). intros rest so' nx' Hr. cbn [fst snd] in *. iIntros "HT". iApply x_readline; [done|done|]. iIntros (l) "Hl".
  iApply wpx_bind. iApply (numbers_of_spec with "Hl"); [apply str_in_cells, Hx|unfold INT_MAX; destruct Hx; lia|].
  iIntros (w' [Hi Ho]) "HT'". rewrite Hh. destruct w' as [si so2 nx2]. simpl in Hi, Ho. subst.
  iApply (x_call _ _ _ _ _ _ Em). by iApply (x_print _ _ m).
Qed.

#[global] Instance good_line_dec x : Decision (good_line x).
Proof. unfold good_line, no_nul. apply _. Defined.

Lemma water_main_prints_largest_witness :
  exists ms h nx', Forall2 (fun t m => Water.largest_area t.2 m) [(chars "[1,8,6]", [1; 8; 6])] ms /\
    water_main (mem ∅ (mk_world (chars "1" ++ 10 :: ([(chars "[1,8,6]", [1; 8; 6])] ≫= fun t => t.1 ++ [10])) [] NULL)) =
    Ok (0, mem h (mk_world [] ([] ++ (ms ≫= fun m => dec m ++ [10])) nx')).
Proof.
  apply water_main_prints_largest; [by_compute|reflexivity|]. repeat constructor; try by_compute.
  intros i j [Hij Hj]. cbn [length snd] in *. do 3 (destruct j as [|j]; [do 3 (destruct i as [|i]; [by vm_compute|]); lia|]). lia.
Defined.

(** ** Palindromes *)

(** Neither trimming nor the replaced marks change the letters and digits of a line. *)
Section letters.
Implicit Types (x y : list Z).
Notation letters := Palindrome.normalize.

Lemma letters_app x y : letters (x ++ y) = letters x ++ letters y.
Proof. unfold Palindrome.normalize. by rewrite filter_app fmap_app. Qed.
Lemma alnum_from c : c < 48 \/ 90 < c < 97 -> Palindrome.isalnum c = false.
Proof.
  intros Hc. unfold Palindrome.isalnum, isdigit. destruct (48 <=? c) eqn:E1, (c <=? 57) eqn:E2, (65 <=? c) eqn:E3,
    (c <=? 90) eqn:E4, (97 <=? c) eqn:E5; zbool; try lia; done.
Qed.
Lemma mark_not_alnum c : is_mark c = true -> Palindrome.isalnum c = false.
Proof. unfold is_mark. intros H. apply alnum_from. rewrite !orb_true_iff !Z.eqb_eq in H. lia. Qed.
Lemma isspace_not_alnum c : isspace c = true -> Palindrome.isalnum c = false.
Proof.
  unfold isspace. intros [H|[H1 H2]%andb_true_iff]%orb_true_iff; zbool; apply alnum_from; lia.
Qed.
Lemma letters_spaces x : Forall (fun c => isspace c = true) x -> letters x = [].
Proof.
  induction 1 as [|c x Hc _ IH]; [done|]. unfold Palindrome.normalize in *.
  rewrite filter_cons_False; [done|]. rewrite isspace_not_alnum; [by intros []|done].
Qed.
Lemma skip_spaces_all x : Forall (fun c => isspace c = true) (take (skip_spaces x) x).
Proof.
  induction x as [|c x IH]; cbn [skip_spaces]; [constructor|]. destruct (isspace c) eqn:E; cbn [take]; [by constructor|constructor].
Qed.
Lemma letters_lstrip x : letters (lstrip x) = letters x.
Proof.
  unfold lstrip. trans (letters (take (skip_spaces x) x ++ drop (skip_spaces x) x)); [|by rewrite take_drop].
  by rewrite letters_app (letters_spaces _ (skip_spaces_all x)).
Qed.
Lemma letters_rstrip x : letters (rstrip x) = letters x.
Proof.
  unfold rstrip. set (k := skip_spaces (reverse x)). pose proof (skip_spaces_le (reverse x)) as Hk. rewrite length_reverse in Hk. fold k in Hk.
  trans (letters (take (length x - k) x ++ drop (length x - k) x)); [|by rewrite take_drop].
  rewrite letters_app (letters_spaces (drop _ x)); [by rewrite app_nil_r|].
  pose proof (skip_spaces_all (reverse x)) as H. fold k in H. by rewrite take_reverse Forall_reverse in H.
Qed.
Lemma letters_trim x : letters (trim x) = letters x.
Proof. unfold trim. by rewrite letters_lstrip letters_rstrip. Qed.
Lemma letters_normalize x : letters (normalize x) = letters x.
Proof.
  induction x as [|c x IH]; [done|]. unfold Palindrome.normalize, normalize in *. cbn [fmap list_fmap].
  assert (Palindrome.isalnum (norm_char c) = Palindrome.isalnum c) as E.
  { unfold norm_char. destruct (is_mark c) eqn:E; [|done]. by rewrite (mark_not_alnum c E). }
  rewrite !filter_cons E. destruct (decide (Palindrome.isalnum c)) as [Hc|]; [|done]. cbn [fmap list_fmap]. rewrite IH. f_equal.
  f_equal. unfold norm_char. destruct (is_mark c) eqn:Em; [|done]. rewrite (mark_not_alnum c Em) in Hc. by destruct Hc.
Qed.
End letters.

Definition show_bool (b : bool) : list Z := chars (if b then "true" else "false") ++ [10].

(** One test of valid-palindrome. *)
Lemma valid_palindrome_test_spec x : good_line x ->
  answers (fun x => x ++ [10]) (fun x => show_bool (bool_decide (Palindrome.normalize x = reverse (Palindrome.normalize x))))
    eq valid_palindrome_test x.
Proof.
  intros Hx rest so nx Hr. iIntros "HT".
  iApply x_readline; [done|done|]. iIntros (l) "Hl". x_lift. iApply (trimmed_spec with "Hl"); [apply str_in_cells, Hx|].
  iIntros (b off Hb) "Hl". iApply wpx_bind. destruct Hx as (Hn & H10 & Hlen). pose proof (length_trim x) as Hlt.
  iApply (string_of_spec with "Hl"); [done|unfold INT_MAX; lia|]. iIntros "HT'".
  set (y := trim (normalize (trim x))). pose proof (length_trim (normalize (trim x))) as Hly. rewrite length_normalize in Hly.
  iApply (x_call _ _ _ _ _ _ (Palindrome.valid_palindrome_exact y _)).
  iApply (x_print _ _ x); [done| |done].
  by assert (Palindrome.normalize y = Palindrome.normalize x) as -> by (by rewrite letters_trim letters_normalize letters_trim).
  Unshelve. unfold is_int, size, INT_MIN, INT_MAX. subst y. lia.
Qed.

(** Each line is answered by whether its letters and digits read the same from both
    ends. *)
Theorem valid_palindrome_main_exact (count : list Z) (lines : list (list Z)) so nx :
  good_line count -> number count = Some (Z.of_nat (length lines)) -> Forall good_line lines ->
  exists h nx', valid_palindrome_main (mem ∅ (mk_world (count ++ 10 :: (lines ≫= fun x => x ++ [10])) so nx)) =
    Ok (0, mem h (mk_world [] (so ++ (lines ≫= fun x =>
      show_bool (bool_decide (Palindrome.normalize x = reverse (Palindrome.normalize x))))) nx')).
Proof. apply main_of_function; [apply good_no_nul|apply valid_palindrome_test_spec]. Qed.

(** When the input has fewer lines than its first line announces, [readline] finds no
    input and reads the byte in front of its buffer. *)
Theorem short_input_reads_before_buffer (count : list Z) (k : Z) (lines : list (list Z)) so nx :
  good_line count -> number count = Some k -> Z.of_nat (length lines) < k -> Forall good_line lines ->
  valid_palindrome_main (mem ∅ (mk_world (count ++ 10 :: (lines ≫= fun x => x ++ [10])) so nx)) = Err OutOfBounds.
Proof.
  intros. rewrite -(app_nil_r (lines ≫= _)).
  eapply (main_of_fails _ _ good_line eq) with (k := k); [apply good_no_nul|apply valid_palindrome_test_spec| |constructor|done..].
  intros so' nx'. iIntros "HT". iApply wpe_xbind_err. iApply wpe_xlift. by iApply readline_at_end.
Qed.

Lemma short_input_reads_before_buffer_witness :
  valid_palindrome_main (mem ∅ (mk_world (chars "2" ++ 10 :: ([chars "aba"] ≫= fun x => x ++ [10])) [] NULL)) = Err OutOfBounds.
Proof. apply (short_input_reads_before_buffer (chars "2") 2); [by_compute|reflexivity|done|repeat constructor; by_compute]. Defined.

Lemma valid_palindrome_main_exact_witness :
  exists h nx', valid_palindrome_main (mem ∅ (mk_world (chars "2" ++ 10 ::
      ([chars "A man, a plan, a canal: Panama"; chars "race a car"] ≫= fun x => x ++ [10])) [] NULL)) =
    Ok (0, mem h (mk_world [] (chars "true" ++ [10] ++ chars "false" ++ [10]) nx')).
Proof.
  destruct (valid_palindrome_main_exact (chars "2") [chars "A man, a plan, a canal: Panama"; chars "race a car"] [] NULL)
    as (h & nx' & E); [by_compute|reflexivity|repeat constructor; by_compute|].
  exists h, nx'. rewrite E. reflexivity.
Defined.

(** Each number is answered by whether its decimal digits read the same from both
    ends. *)
Theorem palindrome_number_main_exact (count : list Z) (ts : list (list Z * Z)) so nx :
  good_line count -> number count = Some (Z.of_nat (length ts)) ->
  Forall (fun t => good_line t.1 /\ number t.1 = Some t.2) ts ->
  exists h nx', palindrome_number_main (mem ∅ (mk_world (count ++ 10 :: (ts ≫= fun t => t.1 ++ [10])) so nx)) =
    Ok (0, mem h (mk_world [] (so ++ (ts ≫= fun t => show_bool (bool_decide (0 <= t.2 /\ dec t.2 = reverse (dec t.2))))) nx')).
Proof.
  apply main_of_function; [intros t [H _]; by apply good_no_nul|]. intros [x v] [Hx Hv] rest so' nx' Hr. cbn [fst snd] in *. iIntros "HT".
  iApply x_readline; [done|done|]. iIntros (l) "Hl".
  iApply wpx_bind. iApply (parse_int_spec with "Hl"); [apply str_in_cells, Hx|]. iIntros "Hl". rewrite Hv.
  iApply (x_call _ _ _ _ _ _ (NumberPalindrome.palindrome_number_exact v (number_int _ _ Hv))). by iApply (x_print _ _ (x, v)).
Qed.

Lemma palindrome_number_main_exact_witness :
  exists h nx', palindrome_number_main (mem ∅ (mk_world (chars "2" ++ 10 ::
      ([(chars "12321", 12321); (chars "-7", -7)] ≫= fun t => t.1 ++ [10])) [] NULL)) =
    Ok (0, mem h (mk_world [] (chars "true" ++ [10] ++ chars "false" ++ [10]) nx')).
Proof.
  destruct (palindrome_number_main_exact (chars "2") [(chars "12321", 12321); (chars "-7", -7)] [] NULL)
    as (h & nx' & E); [by_compute|reflexivity|repeat constructor; by_compute|].
  exists h, nx'. rewrite E. reflexivity.
Defined.

(** ** Windows *)

(** For each line the program prints the length of the longest part of it without a
    repeated character. *)
Theorem longest_substring_main_prints_longest (count : list Z) (lines : list (list Z)) so nx :
  good_line count -> number count = Some (Z.of_nat (length lines)) -> Forall good_line lines ->
  exists ms h nx', Forall2 (fun x m => Longest.longest (trim (normalize x)) m) lines ms /\
    longest_substring_main (mem ∅ (mk_world (count ++ 10 :: (lines ≫= fun x => x ++ [10])) so nx)) =
    Ok (0, mem h (mk_world [] (so ++ (ms ≫= fun m => dec m ++ [10])) nx')).
Proof.
  apply main_of_spec; [apply good_no_nul|]. intros x Hx. pose proof (length_trim (normalize x)) as Hl.
  rewrite length_normalize in Hl. pose proof Hx as (_ & _ & Hlen).
  destruct (Longest.longest_substring_is_longest (trim (normalize x))) as (m & Em & Hm).
  { unfold is_int, size, INT_MIN, INT_MAX. lia. }
  intros rest so' nx' Hr. cbn [fst snd] in *. iIntros "HT". iApply x_readline; [done|done|]. iIntros (l) "Hl".
  iApply wpx_bind. iApply (string_of_spec with "Hl"); [apply str_in_cells, Hx|unfold INT_MAX; lia|].
  iIntros "HT'". iApply (x_call _ _ _ _ _ _ Em). by iApply (x_print _ _ m).
Qed.

Lemma longest_substring_main_prints_longest_witness :
  exists ms h nx', Forall2 (fun x m => Longest.longest (trim (normalize x)) m) [chars "abcabcbb"] ms /\
    longest_substring_main (mem ∅ (mk_world (chars "1" ++ 10 :: ([chars "abcabcbb"] ≫= fun x => x ++ [10])) [] NULL)) =
    Ok (0, mem h (mk_world [] ([] ++ (ms ≫= fun m => dec m ++ [10])) nx')).
Proof. apply longest_substring_main_prints_longest; [by_compute|reflexivity|repeat constructor; by_compute]. Defined.

(** A test of minimum-size-subarray-sum: the two lines, the target and the array. *)
Definition min_sub_case (t : list Z * list Z * Z * list Z) : Prop :=
  let '(l1, l2, target, nums) := t in
  good_line l1 /\ good_line l2 /\ number l1 = Some target /\ numbers l2 = Some nums /\
  Forall (fun a => 0 <= a) nums /\ MinSub.psum nums (length nums) <= INT_MAX /\ Z.of_nat (length nums) < INT_MAX.

(** For each target and array the program prints the length of the shortest window
    whose sum reaches the target, or 0. *)
Theorem min_sub_array_main_prints_shortest (count : list Z) (ts : list (list Z * list Z * Z * list Z)) so nx :
  good_line count -> number count = Some (Z.of_nat (length ts)) -> Forall min_sub_case ts ->
  exists ms h nx', Forall2 (fun '(_, _, target, nums) m => MinSub.shortest target nums m) ts ms /\
    min_sub_array_main (mem ∅ (mk_world (count ++ 10 :: (ts ≫= fun '(l1, l2, _, _) => (l1 ++ [10]) ++ l2 ++ [10])) so nx)) =
    Ok (0, mem h (mk_world [] (so ++ (ms ≫= fun m => dec m ++ [10])) nx')).
Proof.
  apply main_of_spec.
  { intros [[[l1 l2] target] nums] (H1 & H2 & _). no_nuls. }
  intros [[[l1 l2] target] nums] (H1 & H2 & Ht & Hn & H3 & H4 & H5).
  destruct (MinSub.min_sub_array_len_shortest target nums H3 H4 H5) as (m & Em & Hm).
  intros rest so' nx' Hr. cbn [fst snd] in *. iIntros "HT". rewrite -app_assoc.
  iApply x_readline; [done|no_nuls|]. iIntros (l) "Hl".
  iApply wpx_bind. iApply (parse_int_spec with "Hl"); [apply str_in_cells, H1|]. iIntros "Hl". rewrite Ht.
  iApply x_readline; [done|done|]. iIntros (l') "Hl'".
  iApply wpx_bind. iApply (numbers_of_spec with "Hl'"); [apply str_in_cells, H2|unfold INT_MAX; destruct H2; lia|].
  iIntros (w' [Hi Ho]) "HT'". rewrite Hn. destruct w' as [si so2 nx2]. simpl in Hi, Ho. subst.
  iApply (x_call _ _ _ _ _ _ Em). by iApply (x_print _ _ m).
Qed.

Lemma min_sub_array_main_prints_shortest_witness :
  exists ms h nx', Forall2 (fun '(_, _, target, nums) m => MinSub.shortest target nums m)
      [(chars "7", chars "[2,3,1,2,4,3]", 7, [2; 3; 1; 2; 4; 3])] ms /\
    min_sub_array_main (mem ∅ (mk_world (chars "1" ++ 10 :: ([(chars "7", chars "[2,3,1,2,4,3]", 7, [2; 3; 1; 2; 4; 3])] ≫=
      fun '(l1, l2, _, _) => (l1 ++ [10]) ++ l2 ++ [10])) [] NULL)) =
    Ok (0, mem h (mk_world [] ([] ++ (ms ≫= fun m => dec m ++ [10])) nx')).
Proof.
  apply min_sub_array_main_prints_shortest; [by_compute|reflexivity|]. repeat constructor; try reflexivity; by_compute.
Defined.

(** ** Arrays *)

Definition show_ints (v : list Z) : list Z := v ≫= fun a => dec a ++ [32].

Lemma print_ints_spec pre v tail w Φ :
  Φ tt (mk_world (stdin w) (stdout w ++ show_ints v) (strtok_next w)) ⊢
  wpc (print_ints (length v) (Z.of_nat (length pre)) (pre ++ v ++ tail)) w Φ.
Proof.
  revert pre w. induction v as [|a v IH]; intros pre w; cbn [print_ints length show_ints mbind list_bind]; iIntros "H".
  { wpc_ret. rewrite app_nil_r. by destruct w. }
  wpc_bind. iApply (wpc_lift _ a).
  { apply at_nat. by apply list_lookup_middle. }
  wpc_bind. iApply wpc_emit.
  replace (Z.of_nat (length pre) + 1) with (Z.of_nat (length (pre ++ [a]))) by (rewrite length_app /=; lia).
  replace (pre ++ (a :: v) ++ tail) with ((pre ++ [a]) ++ v ++ tail) by (by rewrite -app_assoc).
  iApply IH. cbn [stdin stdout strtok_next]. by rewrite -!app_assoc.
Qed.

(** A test of remove-element: the line with the array, the line with the value, the array
    and the value. *)
Definition remove_case (t : list Z * list Z * list Z * Z) : Prop :=
  let '(l1, l2, nums, v) := t in
  good_line l1 /\ good_line l2 /\ numbers l1 = Some nums /\ number (trim l2) = Some v.

(** What is printed: the number of elements kept, and the elements. *)
Definition show_kept (kept : list Z) : list Z :=
  chars "ans: " ++ dec (size kept) ++ [10] ++ chars " > " ++ show_ints kept ++ [10].

Lemma mapM_length {A B} (f : A -> option B) l k : mapM f l = Some k -> length k = length l.
Proof. intros H%mapM_Some. symmetry. by eapply Forall2_length. Qed.
Lemma numbers_length x ns : numbers x = Some ns -> (length ns <= S (length x))%nat.
Proof.
  intros H%mapM_length. rewrite H. pose proof (words_le 32 (trim (normalize x))).
  pose proof (length_trim (normalize x)) as Hl. rewrite length_normalize in Hl. lia.
Qed.

(** For each array and value the program prints how many elements are kept, and these,
    in order. *)
Theorem remove_main_prints_kept (count : list Z) (ts : list (list Z * list Z * list Z * Z)) so nx :
  good_line count -> number count = Some (Z.of_nat (length ts)) -> Forall remove_case ts ->
  exists h nx', remove_main (mem ∅ (mk_world (count ++ 10 :: (ts ≫= fun '(l1, l2, _, _) => (l1 ++ [10]) ++ l2 ++ [10])) so nx)) =
    Ok (0, mem h (mk_world [] (so ++ (ts ≫= fun '(_, _, nums, v) => show_kept (filter (fun a => a <> v) nums))) nx')).
Proof.
  apply main_of_function.
  { intros [[[l1 l2] nums] v] (H1 & H2 & _). no_nuls. }
  intros [[[l1 l2] nums] v] (H1 & H2 & Hn & Hv) rest so' nx' Hr. iIntros "HT". rewrite -app_assoc.
  iApply x_readline; [done|no_nuls|]. iIntros (l) "Hl".
  iApply x_readline; [done|done|]. iIntros (l') "Hl'".
  x_lift. iApply (trimmed_spec with "Hl'"); [apply str_in_cells, H2|]. iIntros (b off Hb) "Hl'".
  iApply wpx_bind. iApply (parse_int_spec with "Hl'"); [done|]. iIntros "Hl'". rewrite Hv.
  iApply wpx_bind. iApply (numbers_of_spec with "Hl"); [apply str_in_cells, H1|unfold INT_MAX; destruct H1; lia|].
  iIntros (w' [Hi Ho]) "HT'". rewrite Hn. destruct w' as [si so2 nx2]. simpl in Hi, Ho. subst.
  iApply (x_call _ _ _ _ _ _ (Arrays.remove_element_filters nums v _)). set (kept := filter (fun a => a <> v) nums). cbn [fst snd].
  x_lift. iApply wpc_emit. x_lift. unfold size. rewrite Nat2Z.id. iApply (print_ints_spec [] kept). cbn [stdin stdout strtok_next].
  iApply (x_print _ _ (l1, l2, nums, v)); [done| |done]. by rewrite /show_kept -!app_assoc.
  Unshelve. apply numbers_length in Hn. unfold is_int, size, INT_MIN, INT_MAX. destruct H1 as (_ & _ & ?). lia.
Qed.

Lemma remove_main_prints_kept_witness :
  exists h nx', remove_main (mem ∅ (mk_world (chars "1" ++ 10 :: ([(chars "[3,2,2,3]", chars " 3", [3; 2; 2; 3], 3)] ≫=
      fun '(l1, l2, _, _) => (l1 ++ [10]) ++ l2 ++ [10])) [] NULL)) =
    Ok (0, mem h (mk_world [] (chars "ans: 2" ++ [10] ++ chars " > 2 2 " ++ [10]) nx')).
Proof.
  destruct (remove_main_prints_kept (chars "1") [(chars "[3,2,2,3]", chars " 3", [3; 2; 2; 3], 3)] [] NULL) as (h & nx' & E);
    [by_compute|reflexivity|repeat constructor; try reflexivity; by_compute|].
  exists h, nx'. rewrite E. reflexivity.
Defined.

(** A test of merge-sorted-array: the four lines, the elements of the first array, its
    free places and the second array. *)
Definition merge_case : Type := list Z * list Z * list Z * list Z * list Z * list Z * list Z.
Definition plain_numbers (x : list Z) : option (list Z) := mapM number (words 32 (normalize (trim x))).
Definition good_merge (t : merge_case) : Prop :=
  let '(l1, n1, l2, n2, a, junk, b) := t in
  good_line l1 /\ good_line n1 /\ good_line l2 /\ good_line n2 /\
  plain_numbers l1 = Some (a ++ junk) /\ number n1 = Some (size a) /\
  plain_numbers l2 = Some b /\ number n2 = Some (size b) /\
  Sorted Z.le a /\ length junk = length b.

Lemma array_line_spec l x w Φ : good_line x ->
  own_block l (str_cells x) -∗
  (∀ b off, ⌜str_in b off (normalize (trim x))⌝ → ⌜Z.of_nat (length (normalize (trim x))) + 1 < INT_MAX⌝ →
     own_block l b -∗ Φ (Some (l, off)) w) -∗
  wpc (array_line (Some (l, 0%nat))) w Φ.
Proof.
  iIntros ((Hn & _ & Hlen)) "Hl H". pose proof (length_trim x). wpc_bind. iApply (trimmed_spec with "Hl"); [by apply str_in_cells|].
  iIntros (b off Hb) "Hl". wpc_bind. iApply (normalize_spec with "Hl"); [done|unfold INT_MAX; lia|]. iIntros (b' Hb') "Hl".
  wpc_ret. iApply ("H" with "[%] [%] Hl"); [done|]. rewrite length_normalize. unfold INT_MAX. lia.
Qed.

(** For each pair of arrays the program prints a sorted rearrangement of both. *)
Theorem merge_main_prints_sorted (count : list Z) (ts : list merge_case) so nx :
  good_line count -> number count = Some (Z.of_nat (length ts)) -> Forall good_merge ts ->
  exists rs h nx', Forall2 (fun '(_, _, _, _, a, _, b) r => Sorted Z.le r /\ r ≡ₚ a ++ b) ts rs /\
    merge_main (mem ∅ (mk_world (count ++ 10 :: (ts ≫= fun '(l1, n1, l2, n2, _, _, _) =>
      (l1 ++ [10]) ++ (n1 ++ [10]) ++ (l2 ++ [10]) ++ n2 ++ [10])) so nx)) =
    Ok (0, mem h (mk_world [] (so ++ (rs ≫= fun r => show_ints r ++ [10])) nx')).
Proof.
  apply main_of_spec.
  { intros [[[[[[l1 n1] l2] n2] a] junk] b] (H1 & H2 & H3 & H4 & _). no_nuls. }
  intros [[[[[[l1 n1] l2] n2] a] junk] b] (H1 & H2 & H3 & H4 & E1 & E2 & E3 & E4 & Ha & Hj).
  assert (Z.of_nat (length (a ++ b)) <= INT_MAX) as Hlen.
  { apply mapM_length in E1. pose proof (words_le 32 (normalize (trim l1))) as Hw. rewrite length_normalize in Hw.
    pose proof (length_trim l1). rewrite !length_app in E1 |- *. destruct H1 as (_ & _ & ?). unfold INT_MAX. lia. }
  destruct (Arrays.merge_sorts_both a junk b Ha Hj Hlen) as (r & Er & Hr). intros rest so' nx' Hrest. cbn [fst snd] in *.
  iIntros "HT". rewrite -(app_assoc (l1 ++ [10])) -(app_assoc (n1 ++ [10])) -(app_assoc (l2 ++ [10])).
  iApply x_readline; [done|no_nuls|]. iIntros (la) "Ha". x_lift. iApply (array_line_spec with "Ha"); [done|]. iIntros (b2 o2 Hb2 Hl1) "Ha".
  iApply x_readline; [done|no_nuls|]. iIntros (lq) "Hq".
  iApply wpx_bind. iApply (parse_int_spec with "Hq"); [apply str_in_cells, H2|]. iIntros "Hq". rewrite E2.
  iApply x_readline; [done|no_nuls|]. iIntros (lb) "Hb". x_lift. iApply (array_line_spec with "Hb"); [done|]. iIntros (b4 o4 Hb4 Hl2) "Hb".
  iApply x_readline; [done|no_nuls|]. iIntros (lr) "Hr".
  iApply wpx_bind. iApply (parse_int_spec with "Hr"); [apply str_in_cells, H4|]. iIntros "Hr". rewrite E4.
  x_lift. iApply (split_string2_spec with "Ha"); [done|done|].
  iIntros (p1 b5 o5 toks1 nx1 [Ht1 Hat1]) "Ha Hs1".
  x_lift. iApply (split_string2_spec with "Hb"); [done|done|].
  iIntros (p2 b6 o6 toks2 nx2 [Ht2 Hat2]) "Hb Hs2". cbn [fst snd stdin stdout].
  unfold plain_numbers in E1, E3. rewrite -Ht1 in E1 |- *. rewrite -Ht2 in E3 |- *. rewrite !length_fmap !Nat2Z.id.
  iApply wpx_bind. iApply (parse_splits_spec with "Ha Hs1"); [done|]. iIntros "HT1". rewrite E1.
  iApply wpx_bind. iApply (parse_splits_spec with "Hb Hs2"); [done|]. iIntros "HT2". rewrite E3.
  iApply (x_call _ _ _ _ _ _ Er). x_lift. rewrite -{2}(app_nil_r r). iApply (print_ints_spec [] r []). cbn [stdin stdout strtok_next].
  iApply (x_print _ _ r); [done| |done]. by rewrite -!app_assoc.
Qed.

Lemma merge_main_prints_sorted_witness :
  exists rs h nx', Forall2 (fun '(_, _, _, _, a, _, b) r => Sorted Z.le r /\ r ≡ₚ a ++ b)
      [(chars "[1,3,0,0]", chars "2", chars "[2,2]", chars "2", [1; 3], [0; 0], [2; 2]) : merge_case] rs /\
    merge_main (mem ∅ (mk_world (chars "1" ++ 10 ::
      ([(chars "[1,3,0,0]", chars "2", chars "[2,2]", chars "2", [1; 3], [0; 0], [2; 2]) : merge_case] ≫=
       fun '(l1, n1, l2, n2, _, _, _) => (l1 ++ [10]) ++ (n1 ++ [10]) ++ (l2 ++ [10]) ++ n2 ++ [10])) [] NULL)) =
    Ok (0, mem h (mk_world [] ([] ++ (rs ≫= fun r => show_ints r ++ [10])) nx')).
Proof.
  apply merge_main_prints_sorted; [by_compute|reflexivity|]. constructor; [|constructor].
  do 4 (split; [by_compute|]). do 4 (split; [reflexivity|]). split; [|done]. repeat constructor; done.
Defined.

(** ** Hash maps *)

Section two_lines.
Implicit Types (x y rest : list Z).

Lemma good_trim_length x : good_line x -> is_int (size (trim (normalize x))).
Proof.
  intros (_ & _ & Hlen). pose proof (length_trim (normalize x)) as Hl. rewrite length_normalize in Hl.
  unfold is_int, size, INT_MIN, INT_MAX. lia.
Qed.
End two_lines.

(** Each pair of lines, without marks and surrounding spaces, is answered by whether
    the characters of the first are among those of the second. *)
Theorem ransom_main_exact (count : list Z) (ts : list (list Z * list Z)) so nx :
  good_line count -> number count = Some (Z.of_nat (length ts)) -> Forall (fun t => good_line t.1 /\ good_line t.2) ts ->
  exists h nx', ransom_main (mem ∅ (mk_world (count ++ 10 :: (ts ≫= fun t => (t.1 ++ [10]) ++ t.2 ++ [10])) so nx)) =
    Ok (0, mem h (mk_world [] (so ++ (ts ≫= fun t =>
      show_bool (bool_decide (trim (normalize t.1) ⊆+ trim (normalize t.2))))) nx')).
Proof.
  apply main_of_function; [intros [x y] [H1 H2]; no_nuls|]. intros [x y] [H1 H2] rest so' nx' Hr. cbn [fst snd] in *.
  iIntros "HT". rewrite -app_assoc. iApply x_readline; [done|no_nuls|]. iIntros (l1) "Hl1".
  iApply x_readline; [done|done|]. iIntros (l2) "Hl2".
  x_lift. iApply (normalize_spec with "Hl1"); [apply str_in_cells, H1|unfold INT_MAX; destruct H1; lia|]. iIntros (b1 Hb1) "Hl1".
  x_lift. iApply (normalize_spec with "Hl2"); [apply str_in_cells, H2|unfold INT_MAX; destruct H2; lia|]. iIntros (b2 Hb2) "Hl2".
  x_lift. iApply (trimmed_spec with "Hl1"); [done|]. iIntros (b3 o3 Hb3) "Hl1".
  x_lift. iApply (trimmed_spec with "Hl2"); [done|]. iIntros (b4 o4 Hb4) "Hl2".
  x_lift. iApply (wpc_read_string with "Hl1"); [done|]. iIntros "Hl1".
  x_lift. iApply (wpc_read_string with "Hl2"); [done|]. iIntros "Hl2".
  iApply (x_call _ _ _ _ _ _ (HashMap.can_construct_exact _ _ (good_trim_length x H1) (good_trim_length y H2))).
  by iApply (x_print _ _ (x, y)).
Qed.

Lemma ransom_main_exact_witness :
  exists h nx', ransom_main (mem ∅ (mk_world (chars "2" ++ 10 ::
      ([(chars "aa", chars "aba"); (chars "aa", chars "ab")] ≫= fun t => (t.1 ++ [10]) ++ t.2 ++ [10])) [] NULL)) =
    Ok (0, mem h (mk_world [] (chars "true" ++ [10] ++ chars "false" ++ [10]) nx')).
Proof.
  destruct (ransom_main_exact (chars "2") [(chars "aa", chars "aba"); (chars "aa", chars "ab")] [] NULL) as (h & nx' & E);
    [by_compute|reflexivity|repeat constructor; by_compute|].
  exists h, nx'. rewrite E. vm_compute. reflexivity.
Defined.

(** A test of two-sum: the lines, the numbers, the target and the two places of a solution. *)
Definition two_sum_case : Type := list Z * list Z * list Z * Z * nat * nat.
Definition good_two_sum (fuel : nat) (t : two_sum_case) : Prop :=
  let '(l1, l2, nums, target, p, q) := t in
  good_line l1 /\ good_line l2 /\ numbers l1 = Some nums /\ number l2 = Some target /\
  (forall i j a b, nums !! i = Some a -> nums !! j = Some b -> is_int (a + b)) /\
  HashMap.is_pair nums target p q /\ (length nums < fuel)%nat.
Definition two_sum_answer (t : two_sum_case) (r : nat * nat) : Prop :=
  let '(_, _, nums, target, _, _) := t in
  HashMap.is_pair nums target r.1 r.2 /\
  forall i' j', HashMap.is_pair nums target i' j' -> (r.1 < i' \/ r.1 = i' /\ r.2 <= j')%nat.

(** When each test has a solution, the program ends and prints the first pair of
    places with the target sum of each. *)
Theorem two_sum_main_prints_first_pair (fuel : nat) (count : list Z) (ts : list two_sum_case) so nx :
  good_line count -> number count = Some (Z.of_nat (length ts)) -> Forall (good_two_sum fuel) ts ->
  exists rs h nx', Forall2 two_sum_answer ts rs /\
    two_sum_main fuel (mem ∅ (mk_world (count ++ 10 :: (ts ≫= fun '(l1, l2, _, _, _, _) => (l1 ++ [10]) ++ l2 ++ [10])) so nx)) =
    Ok (0, mem h (mk_world [] (so ++ (rs ≫= fun r => dec (Z.of_nat r.1) ++ [32] ++ dec (Z.of_nat r.2) ++ [10])) nx')).
Proof.
  apply main_of_spec; [intros [[[[[l1 l2] nums] target] p] q] (H1 & H2 & _); no_nuls|].
  intros [[[[[l1 l2] nums] target] p] q] (H1 & H2 & E1 & E2 & H3 & H4 & H5).
  assert (is_int (size nums)) as Hs.
  { apply numbers_length in E1. unfold is_int, size, INT_MIN, INT_MAX. destruct H1 as (_ & _ & ?). lia. }
  destruct (HashMap.two_sum_first_pair fuel nums target p q Hs H3 H4 H5) as (i & j & Er & Hr). intros rest so' nx' Hrest. cbn [fst snd] in *.
  iIntros "HT". rewrite -app_assoc. iApply x_readline; [done|no_nuls|]. iIntros (la) "Ha".
  iApply x_readline; [done|done|]. iIntros (lb) "Hb".
  x_lift. iApply (normalize_spec with "Ha"); [apply str_in_cells, H1|unfold INT_MAX; destruct H1; lia|]. iIntros (b1 Hb1) "Ha".
  x_lift. iApply (trimmed_spec with "Ha"); [done|]. iIntros (b2 o2 Hb2) "Ha".
  iApply wpx_bind. iApply (parse_int_spec with "Hb"); [apply str_in_cells, H2|]. iIntros "Hb". rewrite E2.
  iApply wpx_bind. pose proof (good_trim_length l1 H1) as Hlt. unfold is_int, size in Hlt.
  iApply (split_numbers_spec with "Ha"); [done| |].
  { pose proof (length_trim (normalize l1)) as Hl. rewrite length_normalize in Hl. destruct H1 as (_ & _ & ?). unfold INT_MAX. lia. }
  iIntros (w' [Hi Ho]) "HT'". unfold numbers in E1. rewrite E1. destruct w' as [si so2 nx2]. simpl in Hi, Ho. subst.
  iApply (x_call _ _ _ _ _ _ Er). by iApply (x_print _ _ (i, j)).
Qed.

Lemma two_sum_main_prints_first_pair_witness :
  exists rs h nx', Forall2 two_sum_answer [(chars "[2,7,11,15]", chars "9", [2; 7; 11; 15], 9, 0%nat, 1%nat)] rs /\
    two_sum_main 5 (mem ∅ (mk_world (chars "1" ++ 10 :: ([(chars "[2,7,11,15]", chars "9", [2; 7; 11; 15], 9, 0%nat, 1%nat)] ≫=
      fun '(l1, l2, _, _, _, _) => (l1 ++ [10]) ++ l2 ++ [10])) [] NULL)) =
    Ok (0, mem h (mk_world [] ([] ++ (rs ≫= fun r => dec (Z.of_nat r.1) ++ [32] ++ dec (Z.of_nat r.2) ++ [10])) nx')).
Proof.
  apply two_sum_main_prints_first_pair; [by_compute|reflexivity|]. constructor; [|constructor].
  do 2 (split; [by_compute|]). do 2 (split; [reflexivity|]). split; [|split; [|cbn; lia]].
  - intros i j a b Ha Hb. apply list_elem_of_lookup_2 in Ha, Hb. rewrite !elem_of_cons !elem_of_nil in Ha Hb.
    unfold is_int, INT_MIN, INT_MAX. lia.
  - split; [lia|]. exists 2, 7. done.
Defined.

(** ** Zigzag *)

Definition zigzag_case (t : list Z * list Z * nat) : Prop :=
  let '(x, rx, n) := t in
  good_line x /\ good_line rx /\ number (trim rx) = Some (Z.of_nat n) /\ (1 <= n)%nat /\ trim (normalize x) <> [].
Definition zigzag_answer (t : list Z * list Z * nat) : list Z :=
  let '(x, _, n) := t in
  let s := trim (normalize x) in
  if (n =? 1)%nat then s else Zigzag.strip (Zigzag.zigzag s n).

Section zigzag.
Implicit Types (x : list Z).

Lemma no_nul_trim_normalize x : no_nul x -> no_nul (trim (normalize x)).
Proof.
  intros Hx. apply Forall_drop, Forall_take, Forall_fmap. eapply Forall_impl; [exact Hx|].
  intros c Hc. cbn. unfold norm_char. by destruct (is_mark c).
Qed.
Lemma no_nul_zigzag n x : no_nul x -> no_nul (Zigzag.strip (Zigzag.zigzag x n)).
Proof.
  intros Hx. apply Forall_forall. intros c [_ Hc]%list_elem_of_filter. revert c Hc. apply Forall_forall.
  unfold Zigzag.zigzag. apply Forall_bind, Forall_true. intros r.
  generalize (length x) as k. induction k as [|k IH]; [constructor|]. cbn [Zigzag.picks]. apply Forall_app. split; [done|].
  destruct (_ =? r)%nat; [|constructor]. destruct (x !! k) as [c|] eqn:E; cbn; [|constructor].
  constructor; [|constructor]. by eapply (Forall_lookup_1 _ _ _ _ Hx).
Qed.
End zigzag.

(** Each line is printed as its zigzag over the given number of rows is read, row by
    row; with more than one row its spaces are lost. *)
Theorem zigzag_main_exact (count : list Z) (ts : list (list Z * list Z * nat)) so nx :
  good_line count -> number count = Some (Z.of_nat (length ts)) -> Forall zigzag_case ts ->
  exists h nx', zigzag_main (mem ∅ (mk_world (count ++ 10 :: (ts ≫= fun '(x, rx, _) => (x ++ [10]) ++ rx ++ [10])) so nx)) =
    Ok (0, mem h (mk_world [] (so ++ (ts ≫= fun t => zigzag_answer t ++ [10])) nx')).
Proof.
  apply main_of_function; [intros [[x rx] n] (H1 & H2 & _); no_nuls|].
  intros [[x rx] n] (H1 & H2 & Hn & Hn1 & Hne) rest so' nx' Hr. iIntros "HT". rewrite -app_assoc.
  iApply x_readline; [done|no_nuls|]. iIntros (l1) "Hl1".
  x_lift. iApply (normalize_spec with "Hl1"); [apply str_in_cells, H1|unfold INT_MAX; destruct H1; lia|]. iIntros (b1 Hb1) "Hl1".
  iApply x_readline; [done|done|]. iIntros (l2) "Hl2".
  x_lift. iApply (trimmed_spec with "Hl1"); [done|]. iIntros (b2 o2 Hb2) "Hl1".
  x_lift. iApply (wpc_read_string with "Hl1"); [done|]. iIntros "Hl1".
  x_lift. iApply (trimmed_spec with "Hl2"); [apply str_in_cells, H2|]. iIntros (b3 o3 Hb3) "Hl2".
  iApply wpx_bind. iApply (parse_int_spec with "Hl2"); [done|]. iIntros "Hl2". rewrite Hn.
  assert (Zigzag.convert (trim (normalize x)) (Z.of_nat n) = Ok (zigzag_answer (x, rx, n))) as E.
  { unfold zigzag_answer. destruct (n =? 1)%nat eqn:E1; [apply Nat.eqb_eq in E1 as ->; done|]. apply Nat.eqb_neq in E1.
    apply Zigzag.zigzag_conversion_exact; [lia|done|by apply good_trim_length]. }
  iApply (x_call _ _ _ _ _ _ E). rewrite c_chars_none; [by iApply (x_print _ _ (x, rx, n))|].
  unfold zigzag_answer. destruct (n =? 1)%nat; [|apply no_nul_zigzag]; apply no_nul_trim_normalize, H1.
Qed.

Lemma zigzag_main_exact_witness :
  exists h nx', zigzag_main (mem ∅ (mk_world (chars "1" ++ 10 :: ([(chars "PAYPALISHIRING", chars "3", 3%nat)] ≫=
      fun '(x, rx, _) => (x ++ [10]) ++ rx ++ [10])) [] NULL)) =
    Ok (0, mem h (mk_world [] (chars "PAHNAPLSIIGYIR" ++ [10]) nx')).
Proof.
  destruct (zigzag_main_exact (chars "1") [(chars "PAYPALISHIRING", chars "3", 3%nat)] [] NULL) as (h & nx' & E);
    [by_compute|reflexivity|constructor; [|constructor]; do 2 (split; [by_compute|]); split; [reflexivity|split; [lia|done]]|].
  exists h, nx'. rewrite E. vm_compute. reflexivity.
Defined.

(** ** Sudoku *)

(** The row of a board in a line: the first characters of its words. *)
Definition row_of (x : list Z) : list Z := (fun y => default 0 (head y)) <$> words 32 (trim (normalize x)).

Lemma words_nonempty d x : Forall (fun y => y <> []) (words d x).
Proof. unfold words. apply Forall_forall. intros y Hy. by apply list_elem_of_filter in Hy as [? _]. Qed.

Lemma first_chars_spec l b off la pre rest row w Φ Ψ :
  pieces_at b off (pre ++ rest) -> Forall (fun t => t.2 <> []) rest ->
  own_block l b -∗ own_block la (tok_cells l (pre ++ rest)) -∗
  (True -∗ Φ (row ++ ((fun y => default 0 (head y)) <$> rest.*2)) w) -∗
  wpx (first_chars (length rest) (Z.of_nat (length pre)) (Some (la, 0%nat)) row) w Φ Ψ.
Proof.
  revert pre row. induction rest as [|t rest IH]; iIntros (pre row Hat Hne) "Hl Ha H"; cbn [first_chars length].
  { iApply wpx_ret. cbn. rewrite (app_nil_r row). by iApply "H". }
  apply Forall_cons in Hne as [Ht Hne]. x_lift. iApply (wpc_load_ptr with "Ha").
  { rewrite Nat.add_0_l /tok_cells list_lookup_fmap list_lookup_middle; [|done]. done. }
  iIntros "Ha". assert (str_in b t.1 t.2) as Hs by (apply (pieces_at_in _ _ _ t Hat), elem_of_app; right; left).
  destruct (t.2) as [|c y] eqn:Ey; [done|]. x_lift.
  iApply (wpc_load_int _ _ 0 with "Hl"); [apply (str_in_get _ _ _ 0 c Hs); done|]. iIntros "Hl".
  rewrite (cons_middle t) app_assoc in Hat |- *.
  replace (Z.of_nat (length pre) + 1) with (Z.of_nat (length (pre ++ [t]))) by (rewrite length_app /=; lia).
  iApply (IH (pre ++ [t]) with "Hl Ha"); [done|done|]. iIntros "HT". cbn [fmap list_fmap]. rewrite Ey -app_assoc. by iApply "H".
Qed.

Lemma read_board_spec (lines : list (list Z)) board rest so nx Φ Ψ : Forall good_line lines -> no_nul rest ->
  (∀ nx', True -∗ Φ (board ++ (row_of <$> lines)) (mk_world rest so nx')) -∗
  wpx (read_board (length lines) board) (mk_world ((lines ≫= fun x => x ++ [10]) ++ rest) so nx) Φ Ψ.
Proof.
  intros Hls Hr. iIntros "H". iInduction Hls as [|x lines Hx Hls IH] forall (board nx); cbn [read_board length].
  { iApply wpx_ret. cbn. rewrite app_nil_r. by iApply "H". }
  cbn [mbind list_bind]. rewrite -app_assoc. iApply x_readline; [done| |].
  { apply Forall_app. split; [|done]. clear -Hls. induction Hls; [constructor|]. cbn. no_nuls. }
  iIntros (l) "Hl". x_lift. iApply (normalize_spec with "Hl"); [apply str_in_cells, Hx|unfold INT_MAX; destruct Hx; lia|].
  iIntros (b1 Hb1) "Hl". x_lift. iApply (trimmed_spec with "Hl"); [done|]. iIntros (b2 o2 Hb2) "Hl".
  x_lift. iApply (split_string2_spec with "Hl"); [done| |].
  { pose proof (length_trim (normalize x)) as Hl. rewrite length_normalize in Hl. destruct Hx as (_ & _ & ?). unfold INT_MAX. lia. }
  iIntros (p b3 o3 toks nx2 [Htoks Hat]) "Hl Hs". cbn [fst snd stdin stdout]. rewrite Nat2Z.id -Htoks length_fmap.
  iApply wpx_bind. iApply (wpc_wand _ _ (fun r w' => match r with
     inr row => ⌜row = row_of x /\ w' = mk_world ((lines ≫= fun x => x ++ [10]) ++ rest) so nx2⌝ ∧ True | inl _ => False end)%I with "[Hl Hs]").
  { unfold row_of. pose proof (words_nonempty 32 (trim (normalize x))) as Hwn. rewrite -Htoks in Hwn |- *. rewrite Forall_fmap in Hwn.
    destruct toks as [|t toks]; [by wpc_ret|]. iDestruct "Hs" as (la) "[-> Ha]".
    iApply (first_chars_spec l b3 o3 la [] (t :: toks) [] with "Hl Ha"); [done|done|]. iIntros "HT". done. }
  iIntros (r w') "Hrow". destruct r as [|row]; [iDestruct "Hrow" as "[]"|]. iDestruct "Hrow" as "[%Hrow HT]".
  destruct Hrow as [-> ->]. iApply "IH". iIntros (nx3) "HT'". rewrite -app_assoc. by iApply ("H" with "[HT HT']").
Qed.

(** Each board, given as nine lines of nine words, is answered by whether no digit is
    repeated in a row, a column or a box. *)
Theorem sudoku_main_exact (count : list Z) (ts : list (list (list Z))) so nx :
  good_line count -> number count = Some (Z.of_nat (length ts)) ->
  Forall (fun lines => length lines = 9%nat /\ Forall good_line lines /\ Sudoku.is_board (row_of <$> lines)) ts ->
  exists rs h nx', Forall2 (fun lines r => r = true <-> Sudoku.valid (row_of <$> lines)) ts rs /\
    sudoku_main (mem ∅ (mk_world (count ++ 10 :: (ts ≫= fun lines => lines ≫= fun x => x ++ [10])) so nx)) =
    Ok (0, mem h (mk_world [] (so ++ (rs ≫= show_bool)) nx')).
Proof.
  apply main_of_spec.
  { intros lines (_ & Hl & _). induction Hl; [constructor|]. cbn. no_nuls. }
  intros lines (H9 & Hl & Hb). destruct (Sudoku.sudoku_exact _ Hb) as (r & Er & Hr). intros rest so' nx' Hrest. cbn [fst snd] in *.
  iIntros "HT". iApply wpx_bind. rewrite -H9.
  iApply (read_board_spec lines [] with "[HT]"); [done|done|]. iIntros (nx2) "HT'".
  iApply (x_call _ _ _ _ _ _ Er). by iApply (x_print _ _ r).
Qed.

(** A board of dots and fives, two of them in one column. *)
Definition demo_lines : list (list Z) :=
  chars "[5,.,.,.,.,.,.,.,.]" :: replicate 7 (chars "[.,.,.,.,5,.,.,.,.]") ++ [chars "[.,.,.,.,.,.,.,.,.]"].

Lemma sudoku_main_exact_witness :
  exists rs h nx', Forall2 (fun lines r => r = true <-> Sudoku.valid (row_of <$> lines)) [demo_lines] rs /\
    sudoku_main (mem ∅ (mk_world (chars "1" ++ 10 :: ([demo_lines] ≫= fun lines => lines ≫= fun x => x ++ [10])) [] NULL)) =
    Ok (0, mem h (mk_world [] ([] ++ (rs ≫= show_bool)) nx')).
Proof.
  apply sudoku_main_exact; [by_compute|reflexivity|]. constructor; [|constructor].
  split; [reflexivity|]. split; [by_compute|]. split; [reflexivity|by_compute].
Defined.

End Mains.
