(* ===== verification/CcList.v ===== *)
(** * Adding numbers held as linked lists

    src/0xetc/0xcc/linked-list/add-two-numbers: numbers as linked lists of their digits,
    the lowest first. A [ListNode] is a block of two cells, the digit and the pointer to
    the next node. The loops over lists carry fuel: a list in memory may be cyclic. *)
From stdpp Require Import base numbers list gmap strings.
From iris.proofmode Require Import proofmode.
From S2P Require Import Prelude CBase CDecimal CHeap HeapLogic CStrings CcCommon CcMains.
Set Warnings "-rewrite-rw".
Local Open Scope Z_scope.
Import Common Mains.

Module AddTwo.

(** [new ListNode(x)] *)
Definition new_node (x : Z) : C ptr := new_block [VInt x; VPtr NULL].

(** The value at a list pointer, the pointer to the rest, and whether the list has ended. *)
Definition next_digit (l : ptr) : C (Z * ptr * bool) :=
  match l with
  | Some _ => v ← load_int l 0; next ← load_ptr l 1; mret (v, next, false)
  | None => mret (0, l, true)
  end.

Fixpoint add_loop (fuel : nat) (l1 l2 : ptr) (carry : Z) (make_ans : list ptr) : C (list ptr) :=
  match fuel with
  | O => stfail OutOfFuel
  | S f =>
      '(number_one, l1, l1end) ← next_digit l1;
      '(number_two, l2, l2end) ← next_digit l2;
      if (carry =? 0) && l1end && l2end then mret make_ans
      else
        s ← int_c (carry + number_one);
        sum ← int_c (s + number_two);
        ln ← new_node (Z.rem sum 10);
        add_loop f l1 l2 (Z.quot sum 10) (make_ans ++ [ln])
  end.

(** The loop that chains the nodes of a vector. The head of the list is [v] when there are
    none. *)
Fixpoint link (n : nat) (i : Z) (nodes : list ptr) (v : val) : C val :=
  match n with
  | O => mret v
  | S n' =>
      a ← lift (at_ nodes i);
      (if negb (i =? size nodes - 1) then b ← lift (at_ nodes (i + 1)); store a 1 (VPtr b) else mret tt);;
      link n' (i + 1) nodes (if i =? 0 then VPtr a else v)
  end.

Definition addTwoNumbers (fuel : nat) (l1 l2 : ptr) : C ptr :=
  make_ans ← add_loop fuel l1 l2 0 [];
  ans ← link (length make_ans) 0 make_ans (VPtr NULL);
  as_ptr ans.

(** [while (ans != nullptr) { printf("%d ", ans->val); ans = ans->next; }] *)
Fixpoint print_list (fuel : nat) (ans : ptr) : C unit :=
  match fuel with
  | O => stfail OutOfFuel
  | S f =>
      match ans with
      | None => mret tt
      | Some _ =>
          v ← load_int ans 0; emit (dec v ++ [32]);;
          next ← load_ptr ans 1; print_list f next
      end
  end.

(** [for (i = 0; i < len; i++) ln.push_back(new ListNode(parse_int(ll[i])))] *)
Fixpoint parse_nodes (n : nat) (i : Z) (ll : ptr) (ln : list ptr) : X (list ptr) :=
  match n with
  | O => xret ln
  | S n' =>
      p <~ xlift (load_ptr ll i);
      valint <~ parse_int p;
      a <~ xlift (new_node valint);
      parse_nodes n' (i + 1) ll (ln ++ [a])
  end.

(** The words of two lines. *)
Definition read_words : X ((ptr * Z) * (ptr * Z)) :=
  line_raw1 <~ xlift readline;
  line_raw2 <~ xlift readline;
  _ <~ xlift (normalize_line line_raw1);
  _ <~ xlift (normalize_line line_raw2);
  t1 <~ xlift (trimmed line_raw1);
  t2 <~ xlift (trimmed line_raw2);
  ll1 <~ xlift (split_string2 t1 0);
  ll2 <~ xlift (split_string2 t2 0);
  xret (ll1, ll2).

(** [l1] and [l2] are not initialised: an empty line leaves them so. *)
Definition add_two_test (fuel : nat) : X unit :=
  ll <~ read_words;
  ln1 <~ parse_nodes (Z.to_nat ll.1.2) 0 ll.1.1 [];
  ln2 <~ parse_nodes (Z.to_nat ll.2.2) 0 ll.2.1 [];
  v1 <~ xlift (link (length ln1) 0 ln1 VUndef);
  v2 <~ xlift (link (length ln2) 0 ln2 VUndef);
  l1 <~ xlift (as_ptr v1);
  l2 <~ xlift (as_ptr v2);
  ans <~ xlift (addTwoNumbers fuel l1 l2);
  _ <~ xlift (print_list fuel ans);
  xlift (emit [10]).
Definition add_two_main (fuel : nat) : C Z := main_of (add_two_test fuel).

(** ** Lists in memory *)

Fixpoint nodes_own (p : ptr) (ds : list Z) : hprop :=
  match ds with
  | [] => ⌜p = NULL⌝ ∧ emp
  | d :: ds' => ∃ l next, ⌜p = Some (l, 0%nat)⌝ ∧ (own_block l [VInt d; VPtr next] ∗ nodes_own next ds')
  end%I.

(** Nodes not yet chained. *)
Definition loose_own (ls : list nat) (ds : list Z) : hprop :=
  ([∗ list] l;d ∈ ls;ds, own_block l [VInt d; VPtr NULL])%I.
Definition ptrs (ls : list nat) : list ptr := (fun l => Some (l, 0%nat)) <$> ls.

(** The number a list of digits stands for. *)
Definition value (ds : list Z) : Z := foldr (fun d v => d + 10 * v) 0 ds.
Definition digits (ds : list Z) : Prop := Forall (fun d => 0 <= d <= 9) ds.

Section proofs.
Implicit Types (w : world) (ds : list Z) (ls : list nat).

(** The first digit of a list and the rest; a missing digit counts as zero. *)
Lemma next_digit_spec p ds w Φ : nodes_own p ds -∗
  (∀ next, (nodes_own next (tail ds) -∗ nodes_own p ds) -∗ nodes_own next (tail ds) -∗
     Φ (default 0 (head ds), next, bool_decide (ds = [])) w) -∗
  wpc (next_digit p) w Φ.
Proof.
  iIntros "Hp H". unfold next_digit. destruct ds as [|d ds]; cbn [nodes_own].
  - iDestruct "Hp" as "[-> _]". wpc_ret. iApply ("H" $! NULL with "[]"); [|done]. by iIntros "H".
  - iDestruct "Hp" as (l next) "(-> & Hl & Hn)". wpc_bind.
    iApply (wpc_load_int _ _ 0 with "Hl"); [done|]. iIntros "Hl". wpc_bind.
    iApply (wpc_load_ptr _ _ 1 with "Hl"); [done|]. iIntros "Hl". wpc_ret. rewrite bool_decide_false; [|done].
    iApply ("H" $! next with "[Hl] Hn"). iIntros "Hn". iExists l, next. by iFrame.
Qed.

Lemma value_head_tail ds : value ds = default 0 (head ds) + 10 * value (tail ds).
Proof. by destruct ds. Qed.
Lemma head_digit ds : digits ds -> 0 <= default 0 (head ds) <= 9.
Proof. intros H. destruct H; cbn; lia. Qed.
Lemma digits_tail ds : digits ds -> digits (tail ds).
Proof. intros H. destruct ds; [done|]. by apply Forall_cons in H as [_ ?]. Qed.
Lemma length_tail ds : length (tail ds) = (length ds - 1)%nat.
Proof. destruct ds; cbn; lia. Qed.

Lemma wpc_new_node x w Φ : (∀ l, own_block l [VInt x; VPtr NULL] -∗ Φ (Some (l, 0%nat)) w) ⊢ wpc (new_node x) w Φ.
Proof. apply wpc_new_block. Qed.

Lemma ptrs_snoc ls l : ptrs ls ++ [(Some (l, 0%nat) : ptr)] = ptrs (ls ++ [l]).
Proof. by rewrite /ptrs fmap_app. Qed.

(** The lengths and the fuel after one step with the sum [sum]. *)
Lemma carry_length (a b r : list Z) c sum : (a = [] -> b = [] -> c = 1 /\ sum = 1) -> sum <= 19 ->
  (length r <= length (tail a) `max` length (tail b) + 1)%nat -> (tail a = [] -> tail b = [] -> (length r <= Z.to_nat (sum / 10))%nat) ->
  (S (length r) <= length a `max` length b + 1)%nat /\ (a = [] -> b = [] -> (S (length r) <= Z.to_nat c)%nat).
Proof.
  intros Hc Hs Hlen Hlen0. assert (sum / 10 < 2) by (apply Z.div_lt_upper_bound; lia).
  assert (a = [] -> b = [] -> length r = 0%nat) as H0.
  { intros -> ->. destruct (Hc eq_refl eq_refl) as [_ ->]. specialize (Hlen0 eq_refl eq_refl).
    change (Z.to_nat (1 / 10)) with 0%nat in Hlen0. lia. }
  split.
  - destruct a as [|? [|]], b as [|? [|]]; cbn [length tail] in *; try lia; specialize (Hlen0 eq_refl eq_refl); try lia.
    specialize (H0 eq_refl eq_refl). lia.
  - intros Ha Hb. specialize (H0 Ha Hb). destruct (Hc Ha Hb) as [-> _]. lia.
Qed.
Lemma carry_fuel (a b : list Z) sum f : (length a `max` length b + 2 <= S f)%nat -> (a = [] -> b = [] -> sum <= 1) -> sum <= 19 ->
  (length (tail a) `max` length (tail b) + 2 <= f)%nat \/ (tail a = [] /\ tail b = [] /\ (Z.to_nat (sum / 10) < f)%nat).
Proof.
  intros Hf H1 Hs. assert (sum / 10 < 2) by (apply Z.div_lt_upper_bound; lia).
  destruct a as [|? [|]], b as [|? [|]]; cbn [length tail] in *; try (left; lia); right; split_and!; try done; try lia.
  specialize (H1 eq_refl eq_refl). assert (sum / 10 < 1) by (apply Z.div_lt_upper_bound; lia). lia.
Qed.

(** The loop adds the digits with the carry into new nodes, and leaves the lists alone. *)
Lemma add_loop_spec fuel p1 p2 a b c ls ds w Φ :
  digits a -> digits b -> 0 <= c <= 1 ->
  (length a `max` length b + 2 <= fuel)%nat \/ (a = [] /\ b = [] /\ (Z.to_nat c < fuel)%nat) ->
  nodes_own p1 a -∗ nodes_own p2 b -∗ loose_own ls ds -∗
  (∀ ls' r, ⌜digits r /\ value r = (c + value a + value b)%Z /\
       (length r <= length a `max` length b + 1)%nat /\ (a = [] -> b = [] -> (length r <= Z.to_nat c)%nat)⌝ →
     nodes_own p1 a -∗ nodes_own p2 b -∗ loose_own (ls ++ ls') (ds ++ r) -∗ Φ (ptrs (ls ++ ls')) w) -∗
  wpc (add_loop fuel p1 p2 c (ptrs ls)) w Φ.
Proof.
  revert p1 p2 a b c ls ds Φ. induction fuel as [|f IH]; iIntros (p1 p2 a b c ls ds Φ Ha Hb Hc Hf) "H1 H2 Hls H"; [lia|].
  cbn [add_loop]. wpc_bind. iApply (next_digit_spec with "H1"). iIntros (n1) "H1' H1". cbn beta iota.
  wpc_bind. iApply (next_digit_spec with "H2"). iIntros (n2) "H2' H2". cbn beta iota.
  pose proof (head_digit a Ha) as Hda. pose proof (head_digit b Hb) as Hdb.
  rewrite (value_head_tail a) (value_head_tail b).
  destruct ((c =? 0) && bool_decide (a = []) && bool_decide (b = [])) eqn:E.
  - apply andb_true_iff in E as [[Ec Ea]%andb_true_iff Eb]. zbool. apply bool_decide_eq_true in Ea, Eb. subst.
    wpc_ret. iSpecialize ("H" $! [] [] with "[%] [H1 H1'] [H2 H2']").
    + split; [constructor|]. split; [done|]. split; [cbn; lia|done].
    + by iApply "H1'".
    + by iApply "H2'".
    + rewrite !app_nil_r. by iApply "H".
  - wpc_bind. iApply wpc_int; [unfold is_int, INT_MIN, INT_MAX; lia|].
    wpc_bind. iApply wpc_int; [unfold is_int, INT_MIN, INT_MAX; lia|].
    set (sum := c + default 0 (head a) + default 0 (head b)).
    assert (0 <= sum <= 19) as Hsum by (subst sum; lia).
    assert (a = [] -> b = [] -> c = 1 /\ sum = 1) as Hc1.
    { subst sum. intros -> ->. rewrite bool_decide_true in E; [|done]. rewrite !andb_true_r in E. zbool. cbn. lia. }
    rewrite Z.quot_div_nonneg; [|lia..]. rewrite Z.rem_mod_nonneg; [|lia..].
    wpc_bind. iApply wpc_new_node. iIntros (l) "Hl".
    pose proof (Z.div_mod sum 10 ltac:(lia)) as Hdm. pose proof (Z.mod_pos_bound sum 10 ltac:(lia)) as Hm.
    rewrite ptrs_snoc.
    iApply (IH n1 n2 (tail a) (tail b) (sum / 10) (ls ++ [l]) (ds ++ [sum mod 10]) with "H1 H2 [Hls Hl]").
    + by apply digits_tail.
    + by apply digits_tail.
    + lia.
    + destruct Hf as [Hf|(-> & -> & Hf)].
      * apply (carry_fuel a b sum); [done|subst sum; intros -> ->; cbn; lia|lia].
      * right. destruct (Hc1 eq_refl eq_refl) as [-> ->]. split; [done|]. split; [done|]. cbn. lia.
    + iApply (big_sepL2_app with "Hls"). by iFrame.
    + iIntros (ls' r (Hr & Hv & Hlen & Hlen0)) "H1 H2 Hls". rewrite -!app_assoc.
      iApply ("H" $! (l :: ls') (sum mod 10 :: r) with "[%] [H1 H1'] [H2 H2'] Hls").
      * split; [constructor; [lia|done]|]. split; [cbn [value foldr]; fold (value r); lia|]. cbn [length].
        apply (carry_length a b r c sum); [done|lia|done|done].
      * by iApply "H1'".
      * by iApply "H2'".
Qed.

(** A part of a list, up to the pointer [q]. *)
Fixpoint chain (p : ptr) (ds : list Z) (q : ptr) : hprop :=
  match ds with
  | [] => ⌜p = q⌝ ∧ emp
  | d :: ds' => ∃ l next, ⌜p = Some (l, 0%nat)⌝ ∧ (own_block l [VInt d; VPtr next] ∗ chain next ds' q)
  end%I.

Lemma chain_null p ds : chain p ds NULL ⊢ nodes_own p ds.
Proof.
  revert p. induction ds as [|d ds IH]; intros p; [done|]. cbn [chain nodes_own].
  iIntros "(%l & %next & -> & Hl & Hn)". iExists l, next. iFrame. iSplit; [done|]. by iApply IH.
Qed.
Lemma chain_snoc p ds l d q : chain p ds (Some (l, 0%nat)) -∗ own_block l [VInt d; VPtr q] -∗ chain p (ds ++ [d]) q.
Proof.
  revert p. induction ds as [|d' ds IH]; intros p; cbn [chain app]; iIntros "Hp Hl".
  - iDestruct "Hp" as "[-> _]". iExists l, q. by iFrame.
  - iDestruct "Hp" as (l' next) "(-> & Hl' & Hn)". iExists l', next. iFrame. iSplit; [done|]. iApply (IH with "Hn Hl").
Qed.

Lemma ptrs_lookup pre l rest : ptrs (pre ++ l :: rest) !! length pre = Some (Some (l, 0%nat)).
Proof. unfold ptrs. by rewrite list_lookup_fmap list_lookup_middle. Qed.

Lemma size_ptrs pre l rest : size (ptrs (pre ++ l :: rest)) - 1 = Z.of_nat (length pre + length rest).
Proof. rewrite /size /ptrs length_fmap length_app /=. lia. Qed.

(** The head of the list is the first node. *)
Lemma link_head (pre : list nat) l h v : pre = [] /\ h = Some (l, 0%nat) \/ pre <> [] /\ v = VPtr h ->
  (if Z.of_nat (length pre) =? 0 then VPtr (Some (l, 0%nat)) else v) = VPtr h.
Proof. intros [[-> ->]|[Hp ->]]; [done|]. by destruct pre. Qed.

Lemma link_S n i nodes v : link (S n) i nodes v =
  (a ← lift (at_ nodes i);
   (if negb (i =? size nodes - 1) then b ← lift (at_ nodes (i + 1)); store a 1 (VPtr b) else mret tt);;
   link n (i + 1) nodes (if i =? 0 then VPtr a else v)).
Proof. done. Qed.

(** The linking loop, from node [l] on. *)
Lemma link_loop_spec pre l rest ds0 ds h v w Φ :
  pre = [] /\ h = Some (l, 0%nat) \/ pre <> [] /\ v = VPtr h ->
  chain h ds0 (Some (l, 0%nat)) -∗ loose_own (l :: rest) ds -∗ (nodes_own h (ds0 ++ ds) -∗ Φ (VPtr h) w) -∗
  wpc (link (S (length rest)) (Z.of_nat (length pre)) (ptrs (pre ++ l :: rest)) v) w Φ.
Proof.
  revert pre l ds0 ds v. induction rest as [|l2 rest IH]; iIntros (pre l ds0 ds v Hh) "Hc Hls H"; rewrite link_S;
    iDestruct (big_sepL2_cons_inv_l with "Hls") as (d ds' ->) "[Hl Hls]"; wpc_bind;
    (iApply (wpc_lift _ (Some (l, 0%nat))); [apply at_nat, ptrs_lookup|]); rewrite (link_head _ _ _ _ Hh) size_ptrs.
  - destruct (_ =? _) eqn:E; [|zbool; cbn in E; lia]. cbn [negb]. wpc_bind. wpc_ret. wpc_ret.
    iDestruct (big_sepL2_nil_inv_l with "Hls") as %->. iApply "H". iApply chain_null. iApply (chain_snoc with "Hc Hl").
  - destruct (_ =? _) eqn:E; [zbool; cbn in E; lia|]. cbn [negb]. rewrite (cons_middle l) app_assoc. wpc_bind. wpc_bind.
    replace (Z.of_nat (length pre) + 1) with (Z.of_nat (length (pre ++ [l]))) by (rewrite length_app /=; lia).
    iApply (wpc_lift _ (Some (l2, 0%nat))); [apply at_nat, ptrs_lookup|].
    iApply (wpc_store _ _ 1 with "Hl"); [cbn; lia|]. iIntros "Hl". cbn [insert list_insert Nat.add].
    iApply (IH (pre ++ [l]) l2 (ds0 ++ [d]) with "[Hc Hl] Hls"); [right; split; [by destruct pre|done]| |].
    + iApply (chain_snoc with "Hc Hl").
    + by rewrite -app_assoc.
Qed.

Lemma link_spec ls ds w v Φ : loose_own ls ds -∗
  (∀ h, ⌜ds <> []⌝ → nodes_own h ds -∗ Φ (VPtr h) w) ∧ (⌜ds = []⌝ → Φ v w) -∗
  wpc (link (length ls) 0 (ptrs ls) v) w Φ.
Proof.
  iIntros "Hls H". destruct ls as [|l ls].
  - iDestruct (big_sepL2_nil_inv_l with "Hls") as %->. wpc_ret. iDestruct "H" as "[_ H]". by iApply "H".
  - iDestruct (big_sepL2_length with "Hls") as %Hlen.
    iApply (link_loop_spec [] l ls [] ds (Some (l, 0%nat)) v with "[] Hls"); [by left|by iSplit|].
    iDestruct "H" as "[H _]". iIntros "Hn". iApply ("H" with "[%] Hn"). by intros ->.
Qed.

(** [addTwoNumbers] builds a list for the sum, and leaves its arguments alone. *)
Lemma add_two_numbers_spec fuel p1 p2 a b w Φ : digits a -> digits b -> (length a `max` length b + 2 <= fuel)%nat ->
  nodes_own p1 a -∗ nodes_own p2 b -∗
  (∀ p r, ⌜digits r /\ value r = (value a + value b)%Z /\ (length r <= length a `max` length b + 1)%nat⌝ →
     nodes_own p1 a -∗ nodes_own p2 b -∗ nodes_own p r -∗ Φ p w) -∗
  wpc (addTwoNumbers fuel p1 p2) w Φ.
Proof.
  iIntros (Ha Hb Hf) "H1 H2 H". unfold addTwoNumbers. wpc_bind.
  iApply (add_loop_spec fuel p1 p2 a b 0 [] [] with "H1 H2 []"); [done|done|lia|by left|by iApply big_sepL2_nil|].
  iIntros (ls r (Hr & Hv & Hlen & _)) "H1 H2 Hls". cbn [app]. unfold ptrs at 1. rewrite length_fmap. wpc_bind.
  iApply (link_spec with "Hls"). iSplit.
  - iIntros (h Hne) "Hn". wpc_ret. iApply ("H" with "[%] H1 H2 Hn"). split; [done|]. split; [lia|done].
  - iIntros (->). wpc_ret. iApply ("H" $! NULL [] with "[%] H1 H2 []"); [|done]. split; [done|]. split; [lia|done].
Qed.

Lemma print_list_spec fuel p ds w Φ : (length ds < fuel)%nat -> nodes_own p ds -∗
  (nodes_own p ds -∗ Φ tt (mk_world (stdin w) (stdout w ++ show_ints ds) (strtok_next w))) -∗
  wpc (print_list fuel p) w Φ.
Proof.
  revert p ds w Φ. induction fuel as [|f IH]; iIntros (p ds w Φ Hf) "Hp H"; [lia|]. cbn [print_list].
  destruct ds as [|d ds]; cbn [nodes_own length] in *.
  - iDestruct "Hp" as "[-> _]". wpc_ret. cbn. rewrite app_nil_r. destruct w. by iApply "H".
  - iDestruct "Hp" as (l next) "(-> & Hl & Hn)". wpc_bind. iApply (wpc_load_int _ _ 0 with "Hl"); [done|]. iIntros "Hl".
    wpc_bind. iApply wpc_emit. wpc_bind. iApply (wpc_load_ptr _ _ 1 with "Hl"); [done|]. iIntros "Hl".
    iApply (IH with "Hn"); [lia|]. iIntros "Hn". cbn [stdin stdout strtok_next]. rewrite -app_assoc.
    iApply "H". iExists l, next. by iFrame.
Qed.

(** ** The program *)

(** The words [toks] of a line, in its block and in an array of pointers. *)
Definition words_own (p : ptr * Z) (ws : list (list Z)) : hprop :=
  (∃ l b off toks, ⌜p.2 = Z.of_nat (length toks) /\ toks.*2 = ws /\ pieces_at b off toks⌝ ∧
     (own_block l b ∗ splits_own l toks p.1))%I.

Definition line_words (x : list Z) : list (list Z) := words 32 (trim (normalize x)).

Lemma good_split x : good_line x -> Z.of_nat (length (trim (normalize x))) + 1 < INT_MAX.
Proof.
  intros (_ & _ & H). pose proof (length_trim (normalize x)) as Hl. rewrite length_normalize in Hl. unfold INT_MAX. lia.
Qed.

Lemma read_words_spec x y rest so nx Φ Ψ : good_line x -> good_line y -> no_nul rest ->
  (∀ ll nx', words_own ll.1 (line_words x) -∗ words_own ll.2 (line_words y) -∗ Φ ll (mk_world rest so nx')) -∗
  wpx read_words (mk_world ((x ++ [10]) ++ (y ++ [10]) ++ rest) so nx) Φ Ψ.
Proof.
  iIntros (Hx Hy Hr) "H". unfold read_words. iApply x_readline; [done|no_nuls|]. iIntros (l1) "Hl1".
  iApply x_readline; [done|done|]. iIntros (l2) "Hl2".
  x_lift. iApply (normalize_spec with "Hl1"); [apply str_in_cells, Hx|unfold INT_MAX; destruct Hx; lia|]. iIntros (b1 Hb1) "Hl1".
  x_lift. iApply (normalize_spec with "Hl2"); [apply str_in_cells, Hy|unfold INT_MAX; destruct Hy; lia|]. iIntros (b2 Hb2) "Hl2".
  x_lift. iApply (trimmed_spec with "Hl1"); [done|]. iIntros (b3 o3 Hb3) "Hl1".
  x_lift. iApply (trimmed_spec with "Hl2"); [done|]. iIntros (b4 o4 Hb4) "Hl2".
  x_lift. iApply (split_string2_spec with "Hl1"); [done|by apply good_split|]. iIntros (p1 b5 o5 toks1 nx1 [Ht1 Hat1]) "Hl1 Hs1".
  x_lift. iApply (split_string2_spec with "Hl2"); [done|by apply good_split|]. iIntros (p2 b6 o6 toks2 nx2 [Ht2 Hat2]) "Hl2 Hs2".
  iApply wpx_ret. cbn [stdin stdout]. iApply ("H" with "[Hl1 Hs1] [Hl2 Hs2]"); cbn [fst snd].
  - iExists l1, b5, o5, toks1. iFrame. rewrite -Ht1 length_fmap. done.
  - iExists l2, b6, o6, toks2. iFrame. rewrite -Ht2 length_fmap. done.
Qed.

Lemma parse_nodes_loop l b off la pre rest ns ls ds w Φ Ψ :
  pieces_at b off (pre ++ rest) -> mapM number rest.*2 = Some ns ->
  own_block l b -∗ own_block la (tok_cells l (pre ++ rest)) -∗ loose_own ls ds -∗
  (∀ ls', loose_own ls' (ds ++ ns) -∗ True -∗ Φ (ptrs ls') w) -∗
  wpx (parse_nodes (length rest) (Z.of_nat (length pre)) (Some (la, 0%nat)) (ptrs ls)) w Φ Ψ.
Proof.
  revert pre ns ls ds. induction rest as [|t rest IH]; iIntros (pre ns ls ds Hat Hns) "Hl Ha Hls H"; cbn [parse_nodes length].
  { injection Hns as <-. iApply wpx_ret. rewrite (app_nil_r ds). by iApply ("H" with "Hls"). }
  x_lift. iApply (wpc_load_ptr with "Ha").
  { rewrite Nat.add_0_l /tok_cells list_lookup_fmap list_lookup_middle; [|done]. done. }
  iIntros "Ha". iApply wpx_bind. iApply (parse_int_spec with "Hl").
  { eapply (pieces_at_in _ _ _ t Hat). apply elem_of_app. right. left. }
  iIntros "Hl". cbn [fmap list_fmap mapM] in Hns. destruct (number t.2) as [v|]; [|done]. cbn in Hns.
  destruct (mapM number rest.*2) as [ns'|] eqn:En; [|done]. injection Hns as <-.
  x_lift. iApply wpc_new_node. iIntros (ln) "Hn". rewrite ptrs_snoc (cons_middle t) app_assoc in Hat |- *.
  replace (Z.of_nat (length pre) + 1) with (Z.of_nat (length (pre ++ [t]))) by (rewrite length_app /=; lia).
  iApply (IH (pre ++ [t]) ns' (ls ++ [ln]) (ds ++ [v]) with "Hl Ha [Hls Hn]"); [done|done| |].
  - iApply (big_sepL2_app with "Hls"). by iFrame.
  - by rewrite -app_assoc.
Qed.

Lemma parse_nodes_spec p ws ns w Φ Ψ : mapM number ws = Some ns -> words_own p ws -∗
  (∀ ls, loose_own ls ns -∗ True -∗ Φ (ptrs ls) w) -∗ wpx (parse_nodes (Z.to_nat p.2) 0 p.1 []) w Φ Ψ.
Proof.
  iIntros (Hns) "(%l & %b & %off & %toks & %Hp & Hl & Hs) H". destruct Hp as (-> & <- & Hat). rewrite Nat2Z.id.
  destruct toks as [|t toks].
  - injection Hns as <-. iApply wpx_ret. iApply ("H" $! [] with "[]"); [by iApply big_sepL2_nil|done].
  - iDestruct "Hs" as (la) "[-> Ha]". iApply (parse_nodes_loop l b off la [] (t :: toks) ns [] [] with "Hl Ha []"); [done|done|by iApply big_sepL2_nil|done].
Qed.
End proofs.

(** A test: the two lines and the digits in them. *)
Definition add_two_case (fuel : nat) (t : list Z * list Z * list Z * list Z) : Prop :=
  let '(x, y, a, b) := t in
  good_line x /\ good_line y /\ numbers x = Some a /\ numbers y = Some b /\ a <> [] /\ b <> [] /\
  digits a /\ digits b /\ (length a `max` length b + 2 <= fuel)%nat.

Definition add_two_feed (t : list Z * list Z * list Z * list Z) : list Z :=
  let '(x, y, _, _) := t in (x ++ [10]) ++ y ++ [10].
Definition is_sum (t : list Z * list Z * list Z * list Z) (r : list Z) : Prop :=
  let '(_, _, a, b) := t in digits r /\ value r = value a + value b.

Lemma add_two_test_spec fuel t : add_two_case fuel t ->
  answers add_two_feed (fun r => show_ints r ++ [10]) is_sum (add_two_test fuel) t.
Proof.
  destruct t as [[[x y] a] b]. intros (Hx & Hy & Ea & Eb & Ha0 & Hb0 & Ha & Hb & Hf) rest so nx Hr. iIntros "HT".
  unfold add_two_feed. rewrite -app_assoc. iApply wpx_bind. iApply read_words_spec; [done..|]. iIntros (ll nx') "H1 H2".
  iApply wpx_bind. iApply (parse_nodes_spec with "H1"); [done|]. iIntros (ls1) "H1 HT1".
  iApply wpx_bind. iApply (parse_nodes_spec with "H2"); [done|]. iIntros (ls2) "H2 HT2".
  x_lift. unfold ptrs at 1. rewrite length_fmap. iApply (link_spec with "H1"). iSplit; [|by iIntros (->)]. iIntros (h1 _) "H1".
  x_lift. unfold ptrs at 1. rewrite length_fmap. iApply (link_spec with "H2"). iSplit; [|by iIntros (->)]. iIntros (h2 _) "H2".
  x_lift. wpc_ret. x_lift. wpc_ret. x_lift. iApply (add_two_numbers_spec with "H1 H2"); [done..|].
  iIntros (p r (Hd & Hv & Hl)) "H1 H2 Hp". x_lift. iApply (print_list_spec with "Hp"); [lia|]. iIntros "Hp".
  iApply (x_print (is_sum _) _ r); [done|by rewrite -!app_assoc|done].
Qed.

(** C36: for each pair of lines with the digits of two numbers, the lowest first, the program
    prints the digits of their sum in the same way. *)
Theorem add_two_main_prints_sum (fuel : nat) (count : list Z) (ts : list (list Z * list Z * list Z * list Z)) so nx :
  good_line count -> number count = Some (Z.of_nat (length ts)) -> Forall (add_two_case fuel) ts ->
  exists rs h nx', Forall2 is_sum ts rs /\
    add_two_main fuel (mem ∅ (mk_world (count ++ 10 :: (ts ≫= add_two_feed)) so nx)) =
    Ok (0, mem h (mk_world [] (so ++ (rs ≫= fun r => show_ints r ++ [10])) nx')).
Proof.
  apply main_of_spec; [|apply add_two_test_spec]. intros [[[x y] a] b] (H1 & H2 & _). unfold add_two_feed. no_nuls.
Qed.

Definition demo_sum : list Z * list Z * list Z * list Z := (chars "[2,4,3]", chars "[5,6,4]", [2; 4; 3], [5; 6; 4]).
Lemma add_two_main_prints_sum_witness :
  exists rs h nx', Forall2 is_sum [demo_sum] rs /\
    add_two_main 9 (mem ∅ (mk_world (chars "1" ++ 10 :: ([demo_sum] ≫= add_two_feed)) [] NULL)) =
    Ok (0, mem h (mk_world [] ([] ++ (rs ≫= fun r => show_ints r ++ [10])) nx')).
Proof.
  apply add_two_main_prints_sum; [by_compute|reflexivity|]. constructor; [|constructor].
  do 2 (split; [by_compute|]). do 2 (split; [reflexivity|]). do 2 (split; [done|]). do 2 (split; [by_compute|]). cbn. lia.
Defined.

(** When the first line of a test holds no number, [l1] is used without having been
    set. *)
Theorem add_two_blank_line_is_undefined (fuel : nat) (count x y rest : list Z) k so nx :
  good_line count -> number count = Some k -> 0 < k ->
  good_line x -> good_line y -> no_nul rest -> numbers x = Some [] -> is_Some (numbers y) ->
  add_two_main fuel (mem ∅ (mk_world (count ++ 10 :: (x ++ [10]) ++ (y ++ [10]) ++ rest) so nx)) = Err Uninit.
Proof.
  intros Hc Hnum Hk Hx Hy Hr Ex [b Eb].
  apply (main_of_fails add_two_feed (fun r => show_ints r ++ [10]) (add_two_case fuel) is_sum (add_two_test fuel))
    with (ts := []) (k := k); try done; [|apply add_two_test_spec| |no_nuls].
  { intros [[[? ?] ?] ?] (H1 & H2 & _). unfold add_two_feed. no_nuls. }
  intros so' nx'. iIntros "HT". iApply wpe_xbind. iApply read_words_spec; [done..|]. iIntros (ll nx2) "H1 H2".
  iApply wpe_xbind. iApply (parse_nodes_spec with "H1"); [done|]. iIntros (ls1) "H1 HT1".
  iApply wpe_xbind. iApply (parse_nodes_spec with "H2"); [done|]. iIntros (ls2) "H2 HT2".
  iApply wpe_xbind. iApply wpx_lift. unfold ptrs at 1. rewrite length_fmap. iApply (link_spec with "H1"). iSplit; [by iIntros (? ?)|].
  iIntros (_). iApply wpe_xbind. iApply wpx_lift. unfold ptrs at 1. rewrite length_fmap. iApply (link_spec with "H2").
  iSplit; [iIntros (h2 _) "H2"|iIntros (_)]; iApply wpe_xbind_err; iApply wpe_xlift; iApply (wpe_fail with "HT").
Qed.

Lemma add_two_blank_line_is_undefined_witness :
  add_two_main 9 (mem ∅ (mk_world (chars "1" ++ 10 :: (chars "[]" ++ [10]) ++ (chars "[5]" ++ [10]) ++ []) [] NULL)) = Err Uninit.
Proof.
  apply (add_two_blank_line_is_undefined 9 (chars "1") (chars "[]") (chars "[5]") [] 1);
    by_compute || reflexivity.
Defined.

End AddTwo.
