(* ===== verification/CFiles.v ===== *)
(** * Files

    What the programs that read a whole file see of it: whether it opens, what [fseek] and
    [ftell] answer, the bytes and whether reading them fails. *)
From stdpp Require Import base numbers list gmap strings.
From iris.proofmode Require Import proofmode.
From S2P Require Import Prelude CBase CDecimal CHeap HeapLogic CStrings.
Set Warnings "-rewrite-rw".
Local Open Scope Z_scope.

Record file := mk_file {
  seek_end : bool;    (** [fseek(fp, 0L, SEEK_END) == 0] *)
  tell : Z;           (** [ftell(fp)] *)
  seek_set : bool;    (** [fseek(fp, 0L, SEEK_SET) == 0] *)
  data : list Z;
  read_error : bool   (** [ferror(fp) != 0] *)
}.

(** [fread(p, 1, n, fp)] *)
Definition fread (p : ptr) (n : Z) (f : file) : C Z :=
  let d := take (Z.to_nat n) (data f) in
  write_cells p (VInt <$> d);; mret (Z.of_nat (length d)).

(** A file that can be read as a whole. *)
Definition readable (d : list Z) : file := mk_file true (Z.of_nat (length d)) true d false.

Lemma wpc_fread l b d w Φ : (length d <= length b)%nat ->
  own_block l b -∗ (own_block l ((VInt <$> d) ++ drop (length d) b) -∗ Φ (Z.of_nat (length d)) w) -∗
  wpc (fread (Some (l, 0%nat)) (Z.of_nat (length d)) (readable d)) w Φ.
Proof.
  iIntros (Hd) "Hl H". unfold fread. cbn [data readable]. rewrite Nat2Z.id firstn_all. wpc_bind.
  iApply (wpc_write_cells with "Hl"); [rewrite length_fmap; lia|]. iIntros "Hl". wpc_ret.
  unfold splice. rewrite take_0 length_fmap. by iApply "H".
Qed.

(** A buffer with the bytes of a file, and how a string in it ends. *)
Lemma str_in_prefix x rest : no_nul x -> str_in (VInt <$> (x ++ 0 :: rest)) 0 x.
Proof. intros Hx. rewrite fmap_app. by apply (str_in_app [] x). Qed.
