(* ===== verification/TextTools.v ===== *)
(** * wc and cat

    src/wc and src/cat: both read a file into a buffer of exactly its size and use it as a
    string. The file is what CFiles says; file names and messages on the standard error are
    left out of the state. *)
From stdpp Require Import base numbers list gmap strings.
From iris.proofmode Require Import proofmode.
From S2P Require Import Prelude CBase CDecimal CHeap HeapLogic CStrings CFiles.
Set Warnings "-rewrite-rw".
Local Open Scope Z_scope.

Module Wc.

Record WC_SUMMARY := mk_summary { byte_count : Z; line_count : Z; word_count : Z; file_path : ptr }.

(** The status, [*buff] and [*byte_len]. *)
Definition WC_get_buff_from_file_path (fp : option file) : C (Z * val * Z) :=
  match fp with
  | None => mret (-1, VUndef, 0)
  | Some f =>
      if seek_end f then
        let bufsize := tell f in
        if bufsize =? -1 then mret (-2, VUndef, 0)
        else if negb (seek_set f) then mret (-3, VUndef, 0)
        else
          buff ← malloc_z bufsize;
          memset buff 0 (Z.to_nat bufsize);;
          read_len ← fread buff bufsize f;
          if read_error f then mret (-4, VPtr buff, 0)
          else mret (s32 read_len, VPtr buff, read_len)
      else mret (0, VUndef, 0)
  end.

(** The copy both counting functions work on. *)
Definition copy_buff (byte_len : Z) (buff : ptr) : C ptr :=
  target_buff ← malloc_z byte_len;
  memset target_buff 0 (Z.to_nat byte_len);;
  memcpy target_buff buff (Z.to_nat byte_len);;
  mret target_buff.

Definition WC_count_line_from_buff (byte_len : Z) (buff : ptr) : C (Z * Z) :=
  target_buff ← copy_buff byte_len buff;
  r ← strsep_loop 10 (fun _ new_lines => mret (inl (u64 (new_lines + 1)))) (Z.to_nat byte_len + 2) target_buff 0;
  match r with
  | inl new_lines => free NULL;; mret (0, new_lines)
  | inr status => mret (status, 0)
  end.

Definition WC_count_word_from_buff (byte_len : Z) (buff : ptr) : C (Z * Z) :=
  target_buff ← copy_buff byte_len buff;
  r ← (tokptr ← strtok target_buff 32;
       strtok_loop 32 (fun _ words => mret (inl (u64 (words + 1)))) (Z.to_nat byte_len + 2) tokptr 0);
  match r with
  | inl words => free target_buff;; mret (0, words)
  | inr status => mret (status, 0)
  end.

Definition WC_free_buff (buff : ptr) : C unit := free buff.

Definition WC_default_summary (fp : option file) (path : ptr) : C unit :=
  '(status, v, byte_len) ← WC_get_buff_from_file_path fp;
  if status <? 0 then mret tt
  else
    buff ← as_ptr v;
    '(status, lc) ← WC_count_line_from_buff byte_len buff;
    if status <? 0 then mret tt
    else
      '(status, wc) ← WC_count_word_from_buff byte_len buff;
      if status <? 0 then mret tt
      else
        let wcs := mk_summary byte_len lc wc path in
        emit (dec (line_count wcs) ++ [32] ++ dec (word_count wcs) ++ [32] ++ dec (byte_count wcs) ++ [32]);;
        emit_string (file_path wcs);; emit [10];;
        WC_free_buff buff.

Definition main (fp : option file) (argc : Z) (argv : list ptr) : C Z :=
  if negb (argc =? 2) then mret (-1)
  else path ← lift (at_ argv 1); WC_default_summary fp path;; mret 0.

(** ** Proofs *)
Section proofs.
Implicit Types (w : world) (d x : list Z).

Lemma get_buff_spec d w Φ : Z.of_nat (length d) <= INT_MAX ->
  (∀ l, own_block l (VInt <$> d) -∗ Φ (Z.of_nat (length d), VPtr (Some (l, 0%nat)), Z.of_nat (length d)) w) ⊢
  wpc (WC_get_buff_from_file_path (Some (readable d))) w Φ.
Proof.
  iIntros (Hd) "H". unfold WC_get_buff_from_file_path. cbn [seek_end tell seek_set read_error readable negb].
  destruct (_ =? -1) eqn:E; [zbool; lia|]. wpc_bind. iApply wpc_malloc_z; [lia|]. iIntros (l) "Hl". rewrite !Nat2Z.id.
  wpc_bind. iApply (wpc_memset with "Hl"); [by rewrite length_replicate|]. iIntros "Hl".
  wpc_bind. iApply (wpc_fread with "Hl"); [by rewrite length_replicate|]. iIntros "Hl". wpc_ret.
  rewrite drop_ge; [|by rewrite length_replicate]. rewrite app_nil_r s32_int; [|unfold is_int, INT_MIN; lia]. by iApply "H".
Qed.

Lemma copy_buff_spec d l w Φ :
  own_block l (VInt <$> d) -∗
  (∀ lt, own_block l (VInt <$> d) -∗ own_block lt (VInt <$> d) -∗ Φ (Some (lt, 0%nat)) w) -∗
  wpc (copy_buff (Z.of_nat (length d)) (Some (l, 0%nat))) w Φ.
Proof.
  iIntros "Hl H". wpc_bind. iApply wpc_malloc_z; [lia|]. iIntros (lt) "Ht". rewrite !Nat2Z.id.
  wpc_bind. iApply (wpc_memset with "Ht"); [by rewrite length_replicate|]. iIntros "Ht".
  wpc_bind. wpc_bind. iApply (wpc_read_cells with "Hl"); [by rewrite length_fmap|]. iIntros "Hl".
  assert (slice 0 (length d) (VInt <$> d) = VInt <$> d) as ->.
  { unfold slice. rewrite drop_0 take_ge; [done|by rewrite length_fmap]. }
  iApply (wpc_write_cells with "Ht"); [rewrite length_fmap length_replicate; lia|]. iIntros "Ht".
  rewrite splice_all; [|by rewrite length_fmap length_replicate]. wpc_ret. by iApply ("H" with "Hl Ht").
Qed.

Lemma u64_count n : 0 <= n <= INT_MAX -> u64 (n + 1) = n + 1.
Proof. unfold INT_MAX. intros Hn. unfold u64. apply wrapu_small. lia. Qed.

(** A step of a counting loop. *)
Lemma count_body (all : list (list Z)) lt (w0 : world) (toks : list (nat * list Z)) (off : nat) y rest n w b :
  toks.*2 ++ y :: rest = all -> Z.of_nat (length all) <= INT_MAX + 1 ->
  (⌜n = Z.of_nat (length toks) /\ w = w0⌝ ∧ emp) ∗ own_block lt b ⊢
  wpc (mret (inl (u64 (n + 1)))) w (fun (r : Z + Z) w' =>
    ∃ n', ⌜r = inl n'⌝ ∧ ((⌜n' = Z.of_nat (length (toks ++ [(off, y)])) /\ w' = w0⌝ ∧ emp) ∗ own_block lt b)).
Proof.
  iIntros (<- Hlen) "[[%Hn _] Hl]". destruct Hn as [-> ->]. rewrite length_app length_fmap /= in Hlen. wpc_ret.
  iExists _. iSplit; [done|]. iFrame. iSplit; [|done]. iPureIntro. rewrite u64_count; [|lia]. rewrite length_app /=. split; [lia|done].
Qed.

(** The lines of the text before the first zero byte. The copy is not freed: [strsep] has
    set the pointer to it to [NULL]. *)
Lemma count_line_spec x rest l w Φ (d := x ++ 0 :: rest) : no_nul x -> Z.of_nat (length d) <= INT_MAX ->
  own_block l (VInt <$> d) -∗
  (∀ lt b, own_block l (VInt <$> d) -∗ own_block lt b -∗ Φ (0, size (split 10 x)) w) -∗
  wpc (WC_count_line_from_buff (Z.of_nat (length d)) (Some (l, 0%nat))) w Φ.
Proof.
  iIntros (Hx Hd) "Hl H". unfold WC_count_line_from_buff. wpc_bind. iApply (copy_buff_spec with "Hl"). iIntros (lt) "Hl Ht".
  wpc_bind. pose proof (split_bounds 10 x) as [Hsplit _].
  assert (length d = length x + 1 + length rest)%nat as Hlen by (subst d; rewrite length_app /=; lia).
  set (I := fun (toks : list (nat * list Z)) (n : Z) (w' : world) => (⌜n = Z.of_nat (length toks) /\ w' = w⌝ ∧ emp)%I : hprop).
  iDestruct (wpc_strsep_loop (R := Z) 10 (fun _ n => mret (inl (u64 (n + 1)))) lt I (split 10 x)
    (fun toks off y rest n w' b Hall _ => count_body (split 10 x) lt w toks off y rest n w' b Hall ltac:(lia))
    (Z.to_nat (Z.of_nat (length d)) + 2) 0 _ x [] 0 w eq_refl (str_in_prefix x rest Hx) ltac:(lia) (Forall_nil_2 _) with "[$Ht]") as "Hloop".
  { by iSplit. }
  iApply (wpc_wand with "Hloop"). iIntros (r w') "(%n & %b & %toks & %off & %E & [%HI _] & Ht)".
  destruct E as (-> & Htoks & _). destruct HI as [-> ->]. wpc_bind. wpc_ret. wpc_ret.
  rewrite /size -Htoks length_fmap. iApply ("H" with "Hl Ht").
Qed.

(** The words before the first zero byte; the copy is freed. *)
Lemma count_word_spec x rest l w Φ (d := x ++ 0 :: rest) : no_nul x -> Z.of_nat (length d) <= INT_MAX ->
  own_block l (VInt <$> d) -∗
  (∀ nx, own_block l (VInt <$> d) -∗ Φ (0, size (words 32 x)) (mk_world (stdin w) (stdout w) nx)) -∗
  wpc (WC_count_word_from_buff (Z.of_nat (length d)) (Some (l, 0%nat))) w Φ.
Proof.
  iIntros (Hx Hd) "Hl H". unfold WC_count_word_from_buff. wpc_bind. iApply (copy_buff_spec with "Hl"). iIntros (lt) "Hl Ht".
  assert (length d = length x + 1 + length rest)%nat as Hlen by (subst d; rewrite length_app /=; lia).
  assert (length (words 32 x) <= S (length x))%nat as Hwords.
  { unfold words. etrans; [apply length_filter|apply split_bounds]. }
  set (I := fun (toks : list (nat * list Z)) (n : Z) (w' : world) =>
    (⌜n = Z.of_nat (length toks) /\ stdin w' = stdin w /\ stdout w' = stdout w⌝ ∧ emp)%I : hprop).
   wpc_bind. iApply (wpc_wand _ _ (strtok_post (R := Z) lt I (words 32 x)) with "[Ht]").
  { unshelve iApply (wpc_strtok_loop 32 _ lt I (words 32 x) _ _ _ _ 0%nat _ x [] with "[$Ht]"); try done; try lia.
    - intros toks off y rest' n w' b Hall _ _. iIntros "[[%Hn _] Hl]". destruct Hn as (-> & Hi & Ho).
      rewrite -Hall length_app length_fmap /= in Hwords. wpc_ret. iExists _. iSplit; [done|]. iFrame. iSplit; [|done].
      iPureIntro. rewrite u64_count; [|lia]. rewrite length_app /=. split_and!; [lia|done|done].
    - by apply str_in_prefix.
    - constructor.
    - by left. }
  iIntros (r w') "(%n & %b & %toks & %off & %E & [%HI _] & Ht)". destruct E as (-> & Htoks & _). destruct HI as (-> & Hi & Ho).
  wpc_bind. iApply (wpc_free with "Ht"). wpc_ret. rewrite /size -Htoks length_fmap.
  destruct w' as [si so nx]. simpl in Hi, Ho. subst. iApply ("H" with "Hl").
Qed.

(** Without a zero byte in the file both counting loops leave the buffer. *)
Lemma count_line_fails d l w : no_nul d ->
  own_block l (VInt <$> d) ⊢ wpe (WC_count_line_from_buff (Z.of_nat (length d)) (Some (l, 0%nat))) w OutOfBounds.
Proof.
  iIntros (Hd) "Hl". wpe_bind. iApply (copy_buff_spec with "Hl"). iIntros (lt) "Hl Ht". iApply wpe_bind_err.
  rewrite Nat.add_comm. cbn [strsep_loop Nat.add]. iApply wpe_bind_err. iApply wpe_bind_err.
  iApply (wpe_read_string with "Ht"). by apply cell_string_open.
Qed.
End proofs.

(** For a file with a zero byte, [wc] prints the number of lines and of words of the text
    before the first zero byte, the number of bytes of the whole file and the path, and
    returns 0; the copy made to count the lines stays allocated. *)
Theorem wc_counts_up_to_nul la (p0 : ptr) (path x rest : list Z) w (d := x ++ 0 :: rest) :
  no_nul path -> no_nul x -> Z.of_nat (length d) <= INT_MAX ->
  exists lt b nx, main (Some (readable d)) 2 [p0; Some (la, 0%nat)] (mem {[la := str_cells path]} w) =
    Ok (0, mem {[la := str_cells path; lt := b]}
      (mk_world (stdin w) (stdout w ++ dec (size (split 10 x)) ++ [32] ++ dec (size (words 32 x)) ++ [32] ++
         dec (size d) ++ [32] ++ path ++ [10]) nx)).
Proof.
  intros Hp Hx Hd.
  destruct (wpc_adequate (main (Some (readable d)) 2 [p0; Some (la, 0%nat)]) (own_block la (str_cells path)) w
    (fun r w' => ∃ lt b nx, ⌜r = 0 /\ w' = mk_world (stdin w) (stdout w ++ dec (size (split 10 x)) ++ [32] ++ dec (size (words 32 x)) ++
       [32] ++ dec (size d) ++ [32] ++ path ++ [10]) nx⌝ ∧ (own_block la (str_cells path) ∗ own_block lt b))%I {[la := str_cells path]})
    as (r & w' & h & E & lt & b & nx & [-> ->] & h1 & h2 & -> & Hdisj & -> & ->); [|done|].
  - iIntros "Ha". unfold main. cbn [negb Z.eqb Pos.eqb]. wpc_bind. wpc_ret. wpc_bind. unfold WC_default_summary.
    wpc_bind. iApply get_buff_spec; [done|]. iIntros (l) "Hl". destruct (_ <? 0) eqn:E; [zbool; lia|].
    wpc_bind. wpc_ret. wpc_bind. iApply (count_line_spec with "Hl"); [done|done|]. iIntros (lt b) "Hl Ht". cbn [Z.ltb Z.compare].
    wpc_bind. iApply (count_word_spec with "Hl"); [done|done|]. iIntros (nx) "Hl". cbn [Z.ltb Z.compare].
    wpc_bind. iApply wpc_emit. wpc_bind. iApply (wpc_emit_string with "Ha"); [by apply str_in_cells|]. iIntros "Ha".
    wpc_bind. iApply wpc_emit. iApply (wpc_free with "Hl"). wpc_ret. iExists lt, b, nx. iFrame. iPureIntro.
    cbn [stdin stdout strtok_next line_count word_count byte_count]. rewrite -!app_assoc. done.
  - exists lt, b, nx. rewrite E. by rewrite -insert_union_singleton_l.
Qed.

Lemma wc_counts_up_to_nul_witness :
  exists lt b nx, main (Some (readable (chars "a b" ++ 0 :: chars "cd"))) 2 [NULL; Some (0%nat, 0%nat)]
      (mem {[0%nat := str_cells (chars "f")]} (mk_world [] [] NULL)) =
    Ok (0, mem {[0%nat := str_cells (chars "f"); lt := b]} (mk_world [] (chars "1 2 6 f" ++ [10]) nx)).
Proof.
  destruct (wc_counts_up_to_nul 0 NULL (chars "f") (chars "a b") (chars "cd") (mk_world [] [] NULL)) as (lt & b & nx & E);
    [by_compute..|]. exists lt, b, nx. rewrite E. reflexivity.
Defined.

(** For a file without a zero byte [wc] reads beyond the end of its buffer. *)
Theorem wc_overruns_without_nul la (p0 : ptr) (path d : list Z) w :
  no_nul path -> no_nul d -> Z.of_nat (length d) <= INT_MAX ->
  main (Some (readable d)) 2 [p0; Some (la, 0%nat)] (mem {[la := str_cells path]} w) = Err OutOfBounds.
Proof.
  intros Hp Hx Hd. apply (wpe_adequate _ (own_block la (str_cells path))); [|done]. iIntros "Ha". unfold main.
  cbn [negb Z.eqb Pos.eqb]. wpe_bind. wpc_ret. iApply wpe_bind_err. unfold WC_default_summary.
  wpe_bind. iApply get_buff_spec; [done|]. iIntros (l) "Hl". destruct (_ <? 0) eqn:E; [zbool; lia|].
  wpe_bind. wpc_ret. iApply wpe_bind_err. by iApply (count_line_fails with "Hl").
Qed.

Lemma wc_overruns_without_nul_witness :
  main (Some (readable (chars "a b"))) 2 [NULL; Some (0%nat, 0%nat)] (mem {[0%nat := str_cells (chars "f")]} (mk_world [] [] NULL)) =
  Err OutOfBounds.
Proof. apply (wc_overruns_without_nul 0 NULL (chars "f") (chars "a b")); by_compute. Defined.

End Wc.

Module Cat.

Inductive BITCAT_FLAG := EARG | GETFP.

Definition BITCAT_FlagParser (argc : Z) (argv : list ptr) : C (BITCAT_FLAG * val) :=
  if negb (argc =? 2) then mret (EARG, VUndef)
  else
    a1 ← lift (at_ argv 1);
    n ← strlen a1;
    let file_path_len := s32 (n + 1) in
    file_path ← malloc_z file_path_len;
    memset file_path 0 (Z.to_nat file_path_len);;
    strcpy file_path a1;;
    mret (GETFP, VPtr file_path).

(** The status and [*buff]. *)
Definition BITCAT_GetFileIntoBuffer (fp : option file) : C (Z * val) :=
  match fp with
  | None => mret (-1, VUndef)
  | Some f =>
      if seek_end f then
        let bufsize := tell f in
        if bufsize =? -1 then mret (-2, VUndef)
        else if negb (seek_set f) then mret (-3, VUndef)
        else
          buff ← malloc_z bufsize;
          memset buff 0 (Z.to_nat bufsize);;
          read_len ← fread buff bufsize f;
          if read_error f then mret (-4, VPtr buff) else mret (s32 read_len, VPtr buff)
      else mret (0, VUndef)
  end.

Definition BITCAT_PrintBuffer (buff : ptr) : C unit := emit_string buff.

Definition main (fp : option file) (argc : Z) (argv : list ptr) : C Z :=
  '(flag, path) ← BITCAT_FlagParser argc argv;
  match flag with
  | EARG => mret (-1)
  | GETFP =>
      '(status, v) ← BITCAT_GetFileIntoBuffer fp;
      if status <? 0 then mret status
      else
        buff ← as_ptr v;
        BITCAT_PrintBuffer buff;;
        p ← as_ptr path; free p;;
        free buff;;
        mret 0
  end.

(** ** Proofs *)
Section proofs.
Implicit Types (w : world) (d x path : list Z).

Lemma cat_flag_parser_spec la (p0 : ptr) path w Φ : no_nul path -> Z.of_nat (length path) < INT_MAX ->
  own_block la (str_cells path) -∗
  (∀ l, own_block la (str_cells path) -∗ own_block l (str_cells path) -∗ Φ (GETFP, VPtr (Some (l, 0%nat))) w) -∗
  wpc (BITCAT_FlagParser 2 [p0; Some (la, 0%nat)]) w Φ.
Proof.
  iIntros (Hn Hlen) "Ha H". unfold BITCAT_FlagParser. cbn [negb Z.eqb Pos.eqb]. pose proof (str_in_cells path Hn) as Hin.
  wpc_bind. wpc_ret. wpc_bind. iApply (wpc_strlen with "Ha"); [done|]. iIntros "Ha".
  rewrite s32_int; [|unfold is_int, INT_MIN; lia]. wpc_bind. iApply wpc_malloc_z; [lia|]. iIntros (l) "Hl".
  wpc_bind. iApply (wpc_memset with "Hl"); [by rewrite length_replicate|]. iIntros "Hl".
  wpc_bind. iApply (wpc_strcpy with "Hl Ha"); [done|rewrite length_replicate; lia|]. iIntros "Hl Ha".
  wpc_ret. iApply ("H" with "Ha Hl").
Qed.

Lemma get_file_spec d w Φ : Z.of_nat (length d) <= INT_MAX ->
  (∀ l, own_block l (VInt <$> d) -∗ Φ (Z.of_nat (length d), VPtr (Some (l, 0%nat))) w) ⊢
  wpc (BITCAT_GetFileIntoBuffer (Some (readable d))) w Φ.
Proof.
  iIntros (Hd) "H". unfold BITCAT_GetFileIntoBuffer. cbn [seek_end tell seek_set read_error readable negb].
  destruct (_ =? -1) eqn:E; [zbool; lia|]. wpc_bind. iApply wpc_malloc_z; [lia|]. iIntros (l) "Hl". rewrite !Nat2Z.id.
  wpc_bind. iApply (wpc_memset with "Hl"); [by rewrite length_replicate|]. iIntros "Hl".
  wpc_bind. iApply (wpc_fread with "Hl"); [by rewrite length_replicate|]. iIntros "Hl". wpc_ret.
  rewrite drop_ge; [|by rewrite length_replicate]. rewrite app_nil_r s32_int; [|unfold is_int, INT_MIN; lia]. by iApply "H".
Qed.
End proofs.

(** [cat] prints a file up to its first zero byte, and frees what it allocated; without a
    zero byte it reads beyond the end of its buffer. *)
Theorem cat_prints_up_to_nul la (p0 : ptr) (path d : list Z) w :
  no_nul path -> Z.of_nat (length path) < INT_MAX -> Z.of_nat (length d) <= INT_MAX ->
  (forall x rest, d = x ++ 0 :: rest -> no_nul x ->
     main (Some (readable d)) 2 [p0; Some (la, 0%nat)] (mem {[la := str_cells path]} w) =
     Ok (0, mem {[la := str_cells path]} (mk_world (stdin w) (stdout w ++ x) (strtok_next w)))) /\
  (no_nul d -> main (Some (readable d)) 2 [p0; Some (la, 0%nat)] (mem {[la := str_cells path]} w) = Err OutOfBounds).
Proof.
  intros Hp Hpl Hd. split.
  - intros x rest -> Hx.
    destruct (wpc_adequate (main (Some (readable (x ++ 0 :: rest))) 2 [p0; Some (la, 0%nat)]) (own_block la (str_cells path)) w
      (fun r w' => ⌜r = 0 /\ w' = mk_world (stdin w) (stdout w ++ x) (strtok_next w)⌝ ∧ own_block la (str_cells path))%I
      {[la := str_cells path]}) as (r & w' & h & -> & [-> ->] & ->); [|done|done].
    iIntros "Ha". unfold main. wpc_bind. iApply (cat_flag_parser_spec with "Ha"); [done|done|]. iIntros (lp) "Ha Hp".
    wpc_bind. iApply get_file_spec; [done|]. iIntros (l) "Hl". destruct (_ <? 0) eqn:E; [zbool; lia|].
    wpc_bind. wpc_ret. wpc_bind. iApply (wpc_emit_string with "Hl"); [by apply str_in_prefix|]. iIntros "Hl".
    wpc_bind. wpc_ret. wpc_bind. iApply (wpc_free with "Hp"). wpc_bind. iApply (wpc_free with "Hl"). wpc_ret. by iFrame.
  - intros Hn. apply (wpe_adequate _ (own_block la (str_cells path))); [|done]. iIntros "Ha". unfold main.
    wpe_bind. iApply (cat_flag_parser_spec with "Ha"); [done|done|]. iIntros (lp) "Ha Hp".
    wpe_bind. iApply get_file_spec; [done|]. iIntros (l) "Hl". destruct (_ <? 0) eqn:E; [zbool; lia|].
    wpe_bind. wpc_ret. iApply wpe_bind_err. iApply wpe_bind_err. iApply (wpe_read_string with "Hl"). by apply cell_string_open.
Qed.

Lemma cat_prints_up_to_nul_witness :
  main (Some (readable (chars "ab" ++ 0 :: chars "c"))) 2 [NULL; Some (0%nat, 0%nat)] (mem {[0%nat := str_cells (chars "f")]} (mk_world [] [] NULL)) =
    Ok (0, mem {[0%nat := str_cells (chars "f")]} (mk_world [] (chars "ab") NULL)) /\
  main (Some (readable (chars "ab"))) 2 [NULL; Some (0%nat, 0%nat)] (mem {[0%nat := str_cells (chars "f")]} (mk_world [] [] NULL)) = Err OutOfBounds.
Proof.
  split.
  - apply (proj1 (cat_prints_up_to_nul 0 NULL (chars "f") (chars "ab" ++ 0 :: chars "c") (mk_world [] [] NULL)
      ltac:(by_compute) ltac:(by_compute) ltac:(by_compute))) with (rest := chars "c"); [done|by_compute].
  - apply (proj2 (cat_prints_up_to_nul 0 NULL (chars "f") (chars "ab") (mk_world [] [] NULL)
      ltac:(by_compute) ltac:(by_compute) ltac:(by_compute))). by_compute.
Defined.

End Cat.
