(* ===== verification/Hex.v ===== *)
(** * Hexadecimal conversion

    src/hex: bytes to hexadecimal text and back, over the heap, with what both functions
    print. [sscanf] with [%2x] is as the C standard has it: spaces are skipped, a sign takes
    one of the two characters, and the text [0x] alone is no number. *)
From stdpp Require Import base numbers list gmap strings.
From iris.proofmode Require Import proofmode.
From S2P Require Import Prelude CBase CDecimal CHeap HeapLogic CStrings.
Set Warnings "-rewrite-rw".
Local Open Scope Z_scope.

Module Hex.

(** The digits of [%X] and [%x]. *)
Definition digit_upper (n : Z) : Z := if n <? 10 then 48 + n else 55 + n.
Definition digit_lower (n : Z) : Z := if n <? 10 then 48 + n else 87 + n.
(** [%02X] and [%x] of a byte. *)
Definition hex2 (b : Z) : list Z := [digit_upper (b / 16); digit_upper (b mod 16)].
Definition hex_low (b : Z) : list Z :=
  if b <? 16 then [digit_lower b] else [digit_lower (b / 16); digit_lower (b mod 16)].

Definition xdigit (c : Z) : option Z :=
  if isdigit c then Some (c - 48)
  else if (65 <=? c) && (c <=? 70) then Some (c - 55)
  else if (97 <=? c) && (c <=? 102) then Some (c - 87)
  else None.

(** [sscanf(x, "%2x", &n)]: the number, if there is one. *)
Definition scan2x (x : list Z) : option Z :=
  match drop (skip_spaces x) x with
  | [] => None
  | c :: y =>
      if (c =? 45) || (c =? 43) then
        d ← head y; v ← xdigit d; Some (u32 (if c =? 45 then - v else v))
      else
        v ← xdigit c;
        match head y with
        | None => Some v
        | Some d =>
            if (c =? 48) && ((d =? 120) || (d =? 88)) then None
            else match xdigit d with Some v' => Some (16 * v + v') | None => Some v end
        end
  end.

(** The body of the loop of [bin2hex]. *)
Definition bin2hex_step (bytearray hexarray : ptr) (i : Z) : C unit :=
  b ← load_int bytearray i;
  write_cells (offset hexarray (Z.to_nat (2 * i))) (str_cells (hex2 (u8 b)));;
  c1 ← load_int hexarray (2 * i);
  c2 ← load_int hexarray (2 * i + 1);
  emit (dec i ++ chars ": " ++ [c1; c2; 32]).

Definition bin2hex (arrlen : Z) (bytearray : ptr) : C ptr :=
  n ← int_c (2 * arrlen);
  outstrlen ← int_c (n + 1);
  hexarray ← malloc_z outstrlen;
  memset hexarray 0 (Z.to_nat outstrlen);;
  for_loop (Z.to_nat arrlen) 0 (bin2hex_step bytearray hexarray);;
  emit [10];;
  mret hexarray.

(** The loop of [hex2bin]; [n] keeps its value when there is no number. *)
Fixpoint hex2bin_loop (k : nat) (i : Z) (hexarray chararray : ptr) (n : Z) : C unit :=
  match k with
  | O => mret tt
  | S k' =>
      x ← read_string (offset hexarray (Z.to_nat (2 * i)));
      let n' := default n (scan2x x) in
      store chararray i (VInt (u8 n'));;
      c1 ← load_int hexarray (2 * i);
      c2 ← load_int hexarray (2 * i + 1);
      b ← load_int chararray i;
      emit (dec i ++ chars ": " ++ [c1; c2; 32] ++ dec (s32 n') ++ [32] ++ hex_low b ++ [32]);;
      hex2bin_loop k' (i + 1) hexarray chararray n'
  end.

Definition hex2bin (hexarray : ptr) : C ptr :=
  len ← strlen hexarray;
  let hexlen := s32 len in
  let outstrlen := Z.quot hexlen 2 in
  chararray ← malloc_z outstrlen;
  memset chararray 0 (Z.to_nat outstrlen);;
  hex2bin_loop (Z.to_nat outstrlen) 0 hexarray chararray 0;;
  emit [10];;
  mret chararray.

Definition main : C Z :=
  test ← new_block (str_cells (chars "blahblahblah"));
  len ← strlen test;
  let test_len := s32 len in
  hex ← bin2hex test_len test;
  emit (chars "HEX: ");; emit_string hex;; emit [10];;
  bin ← hex2bin hex;
  emit (chars "BIN: ");; emit_string bin;; emit [10];;
  free hex;;
  free bin;;
  mret 0.

(** ** Proofs *)

Definition there_and_back (arrlen : Z) (bytearray : ptr) : C (ptr * ptr) :=
  hexarray ← bin2hex arrlen bytearray; chararray ← hex2bin hexarray; mret (hexarray, chararray).

Definition hex (bs : list Z) : list Z := bs ≫= hex2.

(** What the two functions print from index [i] on. *)
Fixpoint bin2hex_log (i : Z) (bs : list Z) : list Z :=
  match bs with
  | [] => []
  | b :: bs' => (dec i ++ chars ": " ++ hex2 b ++ [32]) ++ bin2hex_log (i + 1) bs'
  end.
Fixpoint hex2bin_log (i : Z) (bs : list Z) : list Z :=
  match bs with
  | [] => []
  | b :: bs' =>
      (dec i ++ chars ": " ++ hex2 b ++ [32] ++ dec b ++ [32] ++ hex_low b ++ [32]) ++ hex2bin_log (i + 1) bs'
  end.

Section proofs.
Implicit Types (w : world) (bs : list Z).

Lemma xdigit_upper n : 0 <= n < 16 -> xdigit (digit_upper n) = Some n.
Proof.
  intros Hn. unfold xdigit, digit_upper, isdigit. destruct (n <? 10) eqn:E; zbool.
  - rewrite (proj2 (Z.leb_le 48 (48 + n)) ltac:(lia)) (proj2 (Z.leb_le (48 + n) 57) ltac:(lia)). f_equal. lia.
  - destruct (55 + n <=? 57) eqn:E1; [zbool; lia|]. rewrite andb_false_r.
    rewrite (proj2 (Z.leb_le 65 (55 + n)) ltac:(lia)) (proj2 (Z.leb_le (55 + n) 70) ltac:(lia)). f_equal. lia.
Qed.
Lemma digit_upper_range n : 0 <= n < 16 -> 48 <= digit_upper n <= 57 \/ 65 <= digit_upper n <= 70.
Proof. intros Hn. unfold digit_upper. destruct (n <? 10) eqn:E; zbool; lia. Qed.

(** Two digits written by [%02X] are read back. *)
Lemma scan2x_hex2 b rest : is_byte b -> scan2x (hex2 b ++ rest) = Some b.
Proof.
  unfold is_byte. intros Hb. assert (0 <= b / 16 < 16) as Hh by (split; [apply Z.div_pos; lia|apply Z.div_lt_upper_bound; lia]).
  pose proof (Z.mod_pos_bound b 16 ltac:(lia)) as Hl. pose proof (Z.div_mod b 16 ltac:(lia)) as Hdm.
  pose proof (digit_upper_range _ Hh) as R1. pose proof (digit_upper_range _ Hl) as R2.
  unfold scan2x, hex2. cbn [app skip_spaces].
  assert (isspace (digit_upper (b / 16)) = false) as ->.
  { unfold isspace. destruct (_ =? 32) eqn:E1; [zbool; lia|]. destruct (_ <=? 13) eqn:E2; [zbool; lia|]. by rewrite andb_false_r. }
  cbn [drop]. destruct (_ =? 45) eqn:E1; [zbool; lia|]. destruct (_ =? 43) eqn:E2; [zbool; lia|]. cbn [orb].
  rewrite xdigit_upper; [|done]. cbn [mbind option_bind head].
  destruct (digit_upper (b mod 16) =? 120) eqn:E3; [zbool; lia|]. destruct (digit_upper (b mod 16) =? 88) eqn:E4; [zbool; lia|].
  rewrite andb_false_r xdigit_upper; [|done]. f_equal. lia.
Qed.

Lemma length_hex bs : length (hex bs) = (2 * length bs)%nat.
Proof. induction bs as [|b bs IH]; [done|]. cbn. fold (hex bs). lia. Qed.
Lemma hex_no_nul bs : Forall is_byte bs -> no_nul (hex bs).
Proof.
  induction 1 as [|b bs Hb _ IH]; [constructor|]. unfold is_byte in Hb.
  assert (0 <= b / 16 < 16) as Hh by (split; [apply Z.div_pos; lia|apply Z.div_lt_upper_bound; lia]).
  pose proof (Z.mod_pos_bound b 16 ltac:(lia)) as Hl.
  pose proof (digit_upper_range _ Hh) as R1. pose proof (digit_upper_range _ Hl) as R2.
  cbn. constructor; [lia|]. constructor; [lia|done].
Qed.

Lemma hex_no_newline bs : Forall is_byte bs -> 10 ∉ hex bs.
Proof.
  intros Hb Hin. apply list_elem_of_bind in Hin as (x & Hin & Hx). rewrite Forall_forall in Hb. specialize (Hb x Hx). unfold is_byte in Hb.
  pose proof (digit_upper_range (x / 16) ltac:(split; [apply Z.div_pos; lia|apply Z.div_lt_upper_bound; lia])).
  pose proof (digit_upper_range (x mod 16) ltac:(apply Z.mod_pos_bound; lia)). unfold hex2 in Hin.
  rewrite !elem_of_cons in Hin. destruct Hin as [?|[?|?%not_elem_of_nil]]; [lia|lia|done].
Qed.

Lemma hex_snoc pre b : hex (pre ++ [b]) = hex pre ++ hex2 b.
Proof. unfold hex. by rewrite bind_app. Qed.

Lemma u8_byte b : is_byte b -> u8 b = b.
Proof. unfold is_byte, u8, wrapu. intros. apply Z.mod_small. lia. Qed.

Lemma bin2hex_loop_spec lb l bs pre rest w Φ : Forall is_byte bs ->
  lb ↦ ((VInt <$> (pre ++ bs)) ++ rest) -∗ l ↦ ((VInt <$> hex pre) ++ replicate (2 * length bs + 1) (VInt 0)) -∗
  (lb ↦ ((VInt <$> (pre ++ bs)) ++ rest) -∗ l ↦ str_cells (hex (pre ++ bs)) -∗
   Φ tt (says w (bin2hex_log (Z.of_nat (length pre)) bs))) -∗
  wpc (for_loop (length bs) (Z.of_nat (length pre)) (bin2hex_step (Some (lb, 0%nat)) (Some (l, 0%nat)))) w Φ.
Proof.
  revert pre w. induction bs as [|b bs IH]; intros pre w Hbs; iIntros "Hb Hl HΦ".
  - rewrite app_nil_r. cbn [length bin2hex_log for_loop]. rewrite says_nil. wpc_ret. iApply ("HΦ" with "Hb Hl").
  - apply Forall_cons in Hbs as [Hb Hbs]. cbn [length for_loop]. wpc_bind. unfold bin2hex_step at 1.
    wpc_bind. iApply (wpc_load_int _ 0 (length pre) _ b with "Hb").
    { rewrite lookup_app_l; [|rewrite length_fmap length_app /=; lia]. by rewrite list_lookup_fmap list_lookup_middle. }
    iIntros "Hb". rewrite (u8_byte b) //. wpc_bind. cbn [offset fmap option_fmap option_map].
    replace (Z.to_nat (2 * Z.of_nat (length pre))) with (length (VInt <$> hex pre)) by (rewrite length_fmap length_hex; lia).
    iApply (wpc_write_cells with "Hl"). { rewrite !length_app !length_fmap !length_replicate /=. lia. }
    iIntros "Hl". rewrite splice_mid.
    replace (drop _ (replicate (2 * S (length bs) + 1) (VInt 0))) with (replicate (2 * length bs) (VInt 0))
      by (rewrite drop_replicate; f_equal; cbn; lia).
    assert (forall j c, hex2 b !! j = Some c ->
      ((VInt <$> hex pre) ++ str_cells (hex2 b) ++ replicate (2 * length bs) (VInt 0)) !! (0 + (2 * length pre + j))%nat = Some (VInt c)) as Hc.
    { intros j c Hj. pose proof (lookup_lt_Some _ _ _ Hj) as Hlt. rewrite lookup_app_r; [|rewrite length_fmap length_hex; lia].
      rewrite length_fmap length_hex. replace (_ - _)%nat with j by lia.
      rewrite lookup_app_l; [|rewrite length_str_cells; lia]. by apply lookup_str_cells. }
    wpc_bind. replace (2 * Z.of_nat (length pre)) with (Z.of_nat (2 * length pre + 0)) by lia.
    iApply (wpc_load_int with "Hl"); [by apply (Hc 0%nat)|]. iIntros "Hl".
    wpc_bind. replace (Z.of_nat (2 * length pre + 0) + 1) with (Z.of_nat (2 * length pre + 1)) by lia.
    iApply (wpc_load_int with "Hl"); [by apply (Hc 1%nat)|]. iIntros "Hl".
    iApply wpc_says. replace (Z.of_nat (length pre) + 1) with (Z.of_nat (length (pre ++ [b]))) by (rewrite length_app /=; lia).
    rewrite (cons_middle b pre bs) app_assoc. iApply (IH with "Hb [Hl]"); [done| |].
    + rewrite hex_snoc fmap_app -app_assoc. unfold str_cells. rewrite -(app_assoc (VInt <$> hex2 b)).
      replace ([VInt 0] ++ replicate (2 * length bs) (VInt 0)) with (replicate (2 * length bs + 1) (VInt 0)) by (by rewrite Nat.add_1_r).
      iFrame.
    + iIntros "Hb Hl". iSpecialize ("HΦ" with "Hb Hl"). rewrite says_says. cbn [bin2hex_log].
      rewrite length_app Nat2Z.inj_add. cbn [length]. iExact "HΦ".
Qed.

Lemma s32_byte b : is_byte b -> s32 b = b.
Proof. unfold is_byte. intros. apply s32_int. unfold is_int, INT_MIN, INT_MAX. lia. Qed.

Lemma hex2bin_loop_spec l lc bs pre rest n w Φ : Forall is_byte (pre ++ bs) ->
  l ↦ (str_cells (hex (pre ++ bs)) ++ rest) -∗ lc ↦ ((VInt <$> pre) ++ replicate (length bs) (VInt 0)) -∗
  (l ↦ (str_cells (hex (pre ++ bs)) ++ rest) -∗ lc ↦ (VInt <$> (pre ++ bs)) -∗
   Φ tt (says w (hex2bin_log (Z.of_nat (length pre)) bs))) -∗
  wpc (hex2bin_loop (length bs) (Z.of_nat (length pre)) (Some (l, 0%nat)) (Some (lc, 0%nat)) n) w Φ.
Proof.
  revert pre n w. induction bs as [|b bs IH]; intros pre n w Hbs; iIntros "Hl Hc HΦ".
  - cbn [length hex2bin_log hex2bin_loop replicate]. rewrite says_nil (app_nil_r pre) (app_nil_r (VInt <$> pre)). wpc_ret.
    iApply ("HΦ" with "Hl Hc").
  - assert (is_byte b) as Hb by (apply Forall_app in Hbs as [_ Hbs]; by apply Forall_cons in Hbs as [? _]).
    assert (hex (pre ++ b :: bs) = hex pre ++ hex2 b ++ hex bs) as Hx by (unfold hex; by rewrite bind_app).
    pose proof (hex_no_nul _ Hbs) as Hnn. cbn [length hex2bin_loop]. wpc_bind. cbn [offset fmap option_fmap option_map].
    iApply (wpc_read_string _ _ _ (hex2 b ++ hex bs) with "Hl").
    { replace (Z.to_nat _) with (2 * length pre)%nat by lia. rewrite -length_hex. rewrite Hx in Hnn |- *.
      pose proof (str_in_drop _ 0 _ (length (hex pre)) (str_in_cells _ Hnn)) as Hd. rewrite drop_app_length in Hd.
      apply str_in_mono, Hd. rewrite length_app. lia. }
    iIntros "Hl". rewrite (scan2x_hex2 b (hex bs) Hb). cbn [default]. rewrite (u8_byte b) //.
    wpc_bind. iApply (wpc_store _ 0 (length pre) with "Hc").
    { rewrite length_app length_fmap length_replicate /=. lia. }
    iIntros "Hc". rewrite Nat.add_0_l -(length_fmap VInt) insert_app_r_alt; [|done]. rewrite Nat.sub_diag length_fmap.
    cbn [length replicate list_insert]. change (<[0%nat:=VInt b]> (VInt 0 :: ?r)) with (VInt b :: r).
    assert (forall j c, hex2 b !! j = Some c -> (str_cells (hex (pre ++ b :: bs)) ++ rest) !! (0 + (2 * length pre + j))%nat = Some (VInt c)) as Hc.
    { intros j c Hj. pose proof (lookup_lt_Some _ _ _ Hj) as Hlt. apply lookup_app_l_Some, lookup_str_cells. rewrite Hx.
      rewrite lookup_app_r length_hex; [|lia]. replace (_ - _)%nat with j by lia. by rewrite lookup_app_l. }
    wpc_bind. replace (2 * Z.of_nat (length pre)) with (Z.of_nat (2 * length pre + 0)) by lia.
    iApply (wpc_load_int with "Hl"); [by apply (Hc 0%nat)|]. iIntros "Hl".
    wpc_bind. replace (Z.of_nat (2 * length pre + 0) + 1) with (Z.of_nat (2 * length pre + 1)) by lia.
    iApply (wpc_load_int with "Hl"); [by apply (Hc 1%nat)|]. iIntros "Hl".
    wpc_bind. iApply (wpc_load_int _ 0 (length pre) _ b with "Hc"); [by rewrite -(length_fmap VInt) list_lookup_middle|].
    iIntros "Hc". wpc_bind. iApply wpc_says. rewrite (s32_byte b) //.
    replace (Z.of_nat (length pre) + 1) with (Z.of_nat (length (pre ++ [b]))) by (rewrite length_app /=; lia).
    rewrite (cons_middle b pre bs) app_assoc in Hbs |- *. iApply (IH with "Hl [Hc]"); [done| |].
    + rewrite fmap_app -app_assoc. iExact "Hc".
    + iIntros "Hl Hc". iSpecialize ("HΦ" with "Hl Hc"). rewrite says_says. cbn [hex2bin_log].
      rewrite length_app Nat2Z.inj_add. cbn [length]. iExact "HΦ".
Qed.

Lemma bin2hex_spec lb bs rest w Φ : Forall is_byte bs -> 2 * Z.of_nat (length bs) + 1 <= INT_MAX ->
  lb ↦ ((VInt <$> bs) ++ rest) -∗
  (∀ l, lb ↦ ((VInt <$> bs) ++ rest) -∗ l ↦ str_cells (hex bs) -∗ Φ (Some (l, 0%nat)) (says w (bin2hex_log 0 bs ++ [10]))) -∗
  wpc (bin2hex (Z.of_nat (length bs)) (Some (lb, 0%nat))) w Φ.
Proof.
  iIntros (Hbs Hn) "Hb HΦ". unfold bin2hex. wpc_bind. iApply wpc_int; [unfold is_int, INT_MIN; lia|].
  wpc_bind. iApply wpc_int; [unfold is_int, INT_MIN; lia|]. wpc_bind. iApply wpc_malloc_z; [lia|]. iIntros (l) "Hl".
  wpc_bind. iApply (wpc_memset with "Hl"); [by rewrite length_replicate|]. iIntros "Hl". wpc_bind. rewrite Nat2Z.id.
  iApply (bin2hex_loop_spec _ _ bs [] with "Hb [Hl]"); [done| |].
  { replace (2 * length bs + 1)%nat with (Z.to_nat (2 * Z.of_nat (length bs) + 1)) by lia. iExact "Hl". }
  iIntros "Hb Hl". wpc_bind. iApply wpc_says. wpc_ret. rewrite says_says. iApply ("HΦ" with "Hb Hl").
Qed.

(** The text may end before its block does. *)
Lemma hex2bin_spec_in l bs rest w Φ : Forall is_byte bs -> 2 * Z.of_nat (length bs) <= INT_MAX ->
  l ↦ (str_cells (hex bs) ++ rest) -∗
  (∀ lc, l ↦ (str_cells (hex bs) ++ rest) -∗ lc ↦ (VInt <$> bs) -∗ Φ (Some (lc, 0%nat)) (says w (hex2bin_log 0 bs ++ [10]))) -∗
  wpc (hex2bin (Some (l, 0%nat))) w Φ.
Proof.
  iIntros (Hbs Hn) "Hl HΦ". unfold hex2bin. wpc_bind. iApply (wpc_strlen with "Hl"); [by apply str_in_mono, str_in_cells, hex_no_nul|].
  iIntros "Hl". rewrite length_hex s32_int; [|unfold is_int, INT_MIN; lia].
  replace (Z.quot (Z.of_nat (2 * length bs)) 2) with (Z.of_nat (length bs))
    by (rewrite Nat2Z.inj_mul Z.mul_comm Z.quot_mul; lia).
  wpc_bind. iApply wpc_malloc_z; [lia|]. iIntros (lc) "Hc". rewrite Nat2Z.id.
  wpc_bind. iApply (wpc_memset with "Hc"); [by rewrite length_replicate|]. iIntros "Hc". wpc_bind.
  iApply (hex2bin_loop_spec _ _ bs [] rest with "Hl Hc"); [done|].
  iIntros "Hl Hc". wpc_bind. iApply wpc_says. wpc_ret. rewrite says_says. iApply ("HΦ" with "Hl Hc").
Qed.

Lemma hex2bin_spec l bs w Φ : Forall is_byte bs -> 2 * Z.of_nat (length bs) <= INT_MAX ->
  l ↦ str_cells (hex bs) -∗
  (∀ lc, l ↦ str_cells (hex bs) -∗ lc ↦ (VInt <$> bs) -∗ Φ (Some (lc, 0%nat)) (says w (hex2bin_log 0 bs ++ [10]))) -∗
  wpc (hex2bin (Some (l, 0%nat))) w Φ.
Proof. intros Hbs Hn. pose proof (hex2bin_spec_in l bs [] w Φ Hbs Hn) as H. by rewrite app_nil_r in H. Qed.

(** C38: [bin2hex] and [hex2bin] are inverse: for any bytes whose text fits an [int], the
    first returns a fresh string with two digits per byte, the second a fresh block with
    the bytes themselves, the argument is unchanged, and the logs printed are those of the
    bytes. *)
Theorem hex_round_trip bs (rest : list val) w (Hbs : Forall is_byte bs) (Hn : 2 * Z.of_nat (length bs) + 1 <= INT_MAX) :
  exists l lc h,
    there_and_back (Z.of_nat (length bs)) (Some (0, 0)%nat) (mem {[0%nat := (VInt <$> bs) ++ rest]} w)
    = Ok ((Some (l, 0%nat), Some (lc, 0%nat)), mem h (says w ((bin2hex_log 0 bs ++ [10]) ++ hex2bin_log 0 bs ++ [10])))
    /\ h !! 0%nat = Some ((VInt <$> bs) ++ rest) /\ h !! l = Some (str_cells (bs ≫= hex2)) /\ h !! lc = Some (VInt <$> bs)
    /\ base.size h = 3%nat.
Proof.
  set (Φ := fun (r : ptr * ptr) w' => (∃ l lc, ⌜r = (Some (l, 0%nat), Some (lc, 0%nat)) /\
    w' = says w ((bin2hex_log 0 bs ++ [10]) ++ hex2bin_log 0 bs ++ [10])⌝ ∧
    (0 ↦ ((VInt <$> bs) ++ rest) ∗ l ↦ str_cells (hex bs) ∗ lc ↦ (VInt <$> bs) ∗ emp))%I).
  edestruct (wpc_adequate (there_and_back (Z.of_nat (length bs)) (Some (0, 0)%nat)) (own_block 0 ((VInt <$> bs) ++ rest)) w Φ) as ([p q] & w' & h & E & Hh); [|exact eq_refl|].
  - iIntros "Hb". unfold there_and_back. wpc_bind. iApply (bin2hex_spec with "Hb"); [done..|]. iIntros (l) "Hb Hl".
    wpc_bind. iApply (hex2bin_spec with "Hl"); [done|lia|]. iIntros (lc) "Hl Hc". wpc_ret. rewrite says_says.
    iExists l, lc. iSplit; [done|]. iFrame.
  - rewrite E. apply holds_exist in Hh as (l & Hh). apply holds_exist in Hh as (lc & Hh).
    apply holds_pure_and in Hh as [[[= -> ->] ->] Hh]. exists l, lc, h. split; [done|].
    apply holds_own_sep in Hh as [H0 Hh]. apply holds_own_sep in Hh as [H1 Hh]. apply holds_own_sep in Hh as [H2 Hh].
    change (delete lc (delete l (delete 0%nat h)) = ∅) in Hh.
    apply lookup_delete_Some in H1 as [? H1']. apply lookup_delete_Some in H2 as [? H2'].
    apply lookup_delete_Some in H2' as [? H2']. split_and!; [done..|].
    rewrite -(insert_delete_id h 0%nat _ H0) -(insert_delete_id (delete 0%nat h) l (str_cells (hex bs))); [|by rewrite lookup_delete_ne].
    rewrite -(insert_delete_id (delete l (delete 0%nat h)) lc (VInt <$> bs)); [|by rewrite !lookup_delete_ne].
    rewrite Hh. by rewrite !map_size_insert_None ?map_size_empty ?lookup_insert_ne ?lookup_empty.
Qed.
End proofs.

Lemma hex_round_trip_witness : exists l lc h,
  there_and_back 3 (Some (0, 0)%nat) (mem {[0%nat := [VInt 0; VInt 127; VInt 255]]} (mk_world [] [] NULL))
  = Ok ((Some (l, 0%nat), Some (lc, 0%nat)),
        mem h (mk_world [] (chars "0: 00 1: 7F 2: FF " ++ [10] ++ chars "0: 00 0 0 1: 7F 127 7f 2: FF 255 ff " ++ [10]) NULL))
  /\ h !! l = Some (str_cells (chars "007FFF")) /\ h !! lc = Some [VInt 0; VInt 127; VInt 255].
Proof.
  destruct (hex_round_trip [0; 127; 255] [] (mk_world [] [] NULL)) as (l & lc & h & E & _ & Hl & Hc & _).
  - repeat constructor; by vm_compute.
  - by vm_compute.
  - exists l, lc, h. split; [exact E|split; [exact Hl|exact Hc]].
Defined.

(** The program prints the bytes read back as a string although [hex2bin] leaves no
    room for a terminator: it always ends up reading past the end of that block. *)
Theorem hex_main_reads_past_end w : main (mem ∅ w) = Err OutOfBounds.
Proof.
  apply wpe_run. unfold main. wpe_bind. iApply wpc_new_block. iIntros (lb) "Hb". wpe_bind.
  iApply (wpc_strlen with "Hb"); [by apply str_in_cells; repeat constructor|]. iIntros "Hb". wpe_bind.
  change (s32 (Z.of_nat (length (chars "blahblahblah")))) with (Z.of_nat (length (chars "blahblahblah"))).
  iApply (bin2hex_spec with "Hb"); [repeat constructor; by vm_compute|by vm_compute|]. iIntros (l) "Hb Hl".
  wpe_bind. iApply wpc_says. wpe_bind. iApply (wpc_emit_string with "Hl"); [apply str_in_cells, hex_no_nul; repeat constructor; by vm_compute|].
  iIntros "Hl". wpe_bind. iApply wpc_says. wpe_bind.
  iApply (hex2bin_spec with "Hl"); [repeat constructor; by vm_compute|by vm_compute|]. iIntros (lc) "Hl Hc".
  wpe_bind. iApply wpc_says. iApply wpe_bind_err. iApply wpe_bind_err.
  iClear "Hb Hl". iApply (wpe_read_string with "Hc"). apply cell_string_open. by repeat constructor.
Qed.

End Hex.
