(* ===== verification/Sock.v ===== *)
(** * Stream sockets

    The part of the socket interface that the servers and clients of the repository use,
    as documented: a descriptor table in which the lowest free number is handed out, a
    queue of connections waiting to be accepted, connections that collect the bytes that
    arrived and those that were sent, and an edge-triggered set of watched descriptors. A
    connection that was reset reports that once, to a read or a send; a send after that, or
    when the peer had finished sending before, raises SIGPIPE, which ends the program.
    Any call may also fail: [trouble] holds the error of each of the next calls that
    consult it, and none fails once it is empty. *)
From S2P Require Import Prelude CBase.
From stdpp Require Import base numbers list gmap fin_sets.
Local Open Scope Z_scope.

(** A connection, seen from the server: the bytes that arrived, how many of them were
    read, whether the peer has finished sending, whether it has broken the connection off
    and, if so, whether a call has reported that, what was sent, one entry a call, and
    whether the server has closed it. *)
Inductive breach := Whole | Reset_by_peer | Reported.
#[global] Instance breach_dec : EqDecision breach.
Proof. solve_decision. Defined.
Record conn := mk_conn {
  arrived : list Z; taken : nat; finished : bool; reset : breach; outbox : list (list Z); gone : bool }.
Definition broken (k : conn) : bool := bool_decide (reset k <> Whole).

Inductive kind := Plain | Listening | Stream (c : nat).
#[global] Instance kind_dec : EqDecision kind.
Proof. solve_decision. Defined.
Record desc := mk_desc { what : kind; flags : Z }.

Record net := mk_net {
  fds : gmap Z desc; backlog : list nat; conns : gmap nat conn;
  interest : gset Z; ready : gset Z; trouble : list (option Z) }.

Definition set_fds f s := mk_net f (backlog s) (conns s) (interest s) (ready s) (trouble s).
Definition set_backlog b s := mk_net (fds s) b (conns s) (interest s) (ready s) (trouble s).
Definition set_conns c s := mk_net (fds s) (backlog s) c (interest s) (ready s) (trouble s).
Definition set_interest i s := mk_net (fds s) (backlog s) (conns s) i (ready s) (trouble s).
Definition set_ready r s := mk_net (fds s) (backlog s) (conns s) (interest s) r (trouble s).
Definition set_trouble t s := mk_net (fds s) (backlog s) (conns s) (interest s) (ready s) t.

(** Error numbers and flags, as on Linux. *)
Definition EAGAIN : Z := 11.
Definition EBADF : Z := 9.
Definition EEXIST : Z := 17.
Definition EINVAL : Z := 22.
Definition ENOTSOCK : Z := 88.
Definition ECONNRESET : Z := 104.
Definition O_NONBLOCK : Z := 2048.
Definition POLLIN : Z := 1.
Definition POLLPRI : Z := 2.
Definition POLLERR : Z := 8.
Definition POLLHUP : Z := 16.

(** ** Descriptors *)

Fixpoint lowest_from (fuel : nat) (i : Z) (d : gset Z) : Z :=
  match fuel with
  | O => i
  | S f => if decide (i ∈ d) then lowest_from f (i + 1) d else i
  end.
(** The lowest number that is not in use. *)
Definition lowest (d : gset Z) : Z := lowest_from (base.size d) 0 d.

Definition pending (k : conn) : list Z := drop (taken k) (arrived k).
Definition conn_readable (k : conn) : bool := bool_decide (pending k <> []) || finished k || broken k.

Definition readable (s : net) (fd : Z) : bool :=
  match what <$> fds s !! fd with
  | Some Listening => bool_decide (backlog s <> [])
  | Some (Stream c) => from_option conn_readable false (conns s !! c)
  | _ => false
  end.
Definition hung (s : net) (fd : Z) : bool :=
  match what <$> fds s !! fd with
  | Some (Stream c) => from_option broken false (conns s !! c)
  | _ => false
  end.

(** What [epoll_wait] and [poll] report about a descriptor. *)
Definition events_of (s : net) (fd : Z) : Z :=
  Z.lor (if readable s fd then POLLIN else 0) (if hung s fd then Z.lor POLLERR POLLHUP else 0).

(** ** Calls *)

Definition failing : ST net (option Z) :=
  s ← stget;
  match trouble s with
  | [] => mret None
  | e :: t => stput (set_trouble t s);; mret e
  end.

Definition accept (fd : Z) : ST net (Z + Z) :=
  e ← failing;
  match e with
  | Some errno => mret (inl errno)
  | None =>
      s ← stget;
      match what <$> fds s !! fd with
      | None => mret (inl EBADF)
      | Some Listening =>
          match backlog s with
          | [] => mret (inl EAGAIN)
          | c :: b =>
              let n := lowest (dom (fds s)) in
              stput (set_backlog b (set_fds (<[n := mk_desc (Stream c) 0]> (fds s)) s));;
              mret (inr n)
          end
      | Some _ => mret (inl EINVAL)
      end
  end.

(** The reset of a connection is reported by one call, the next [read] or [send]. *)
Definition reported (k : conn) : conn := mk_conn (arrived k) (taken k) (finished k) Reported (outbox k) (gone k).

Definition read (fd : Z) (n : nat) : ST net (Z + list Z) :=
  e ← failing;
  match e with
  | Some errno => mret (inl errno)
  | None =>
      s ← stget;
      match what <$> fds s !! fd with
      | Some (Stream c) =>
          match conns s !! c with
          | None => mret (inl EBADF)
          | Some k =>
              match pending k with
              | [] =>
                  if finished k then mret (inr [])
                  else
                    match reset k with
                    | Whole => mret (inl EAGAIN)
                    | Reset_by_peer => stput (set_conns (<[c := reported k]> (conns s)) s);; mret (inl ECONNRESET)
                    | Reported => mret (inr [])
                    end
              | x =>
                  let bs := take n x in
                  stput (set_conns (<[c := mk_conn (arrived k) (taken k + length bs) (finished k) (reset k) (outbox k) (gone k)]> (conns s)) s);;
                  mret (inr bs)
              end
          end
      | Some _ => mret (inl EINVAL)
      | None => mret (inl EBADF)
      end
  end.

(** [send] and [write] of a stream socket; the callers ignore the result. A connection that was
    reset fails one call with ECONNRESET; with EPIPE, and the signal SIGPIPE, which ends the
    process, when that was reported before or when the peer had finished sending. No caller
    handles the signal. *)
Definition send (fd : Z) (x : list Z) : ST net unit :=
  e ← failing;
  match e with
  | Some _ => mret tt
  | None =>
      s ← stget;
      match what <$> fds s !! fd with
      | Some (Stream c) =>
          match conns s !! c with
          | None => mret tt
          | Some k =>
              match reset k with
              | Whole => stput (set_conns (<[c := mk_conn (arrived k) (taken k) (finished k) (reset k) (outbox k ++ [x]) (gone k)]> (conns s)) s)
              | Reset_by_peer =>
                  if finished k then stfail Killed
                  else stput (set_conns (<[c := reported k]> (conns s)) s)
              | Reported => stfail Killed
              end
          end
      | _ => mret tt
      end
  end.

(** The connection of a closed descriptor is gone for good. *)
Definition hang_up (d : desc) (m : gmap nat conn) : gmap nat conn :=
  match what d with
  | Stream c => alter (fun k => mk_conn (arrived k) (taken k) (finished k) (reset k) (outbox k) true) c m
  | _ => m
  end.
(** [close]: whether it succeeded. Closing a descriptor takes it out of the watched set. *)
Definition close (fd : Z) : ST net bool :=
  s ← stget;
  match fds s !! fd with
  | None => mret false
  | Some d =>
      stput (mk_net (delete fd (fds s)) (backlog s) (hang_up d (conns s)) (interest s ∖ {[fd]}) (ready s ∖ {[fd]}) (trouble s));;
      mret true
  end.

(** [epoll_ctl(epfd, EPOLL_CTL_ADD, fd, EPOLLIN | EPOLLET)]: a descriptor that is readable when it
    is added is reported once. *)
Definition epoll_ctl_add (fd : Z) : ST net Z :=
  e ← failing;
  match e with
  | Some _ => mret (-1)
  | None =>
      s ← stget;
      match fds s !! fd with
      | None => mret (-1)
      | Some _ =>
          if decide (fd ∈ interest s) then mret (-1)
          else
            stput (set_ready (if readable s fd then {[fd]} ∪ ready s else ready s) (set_interest ({[fd]} ∪ interest s) s));;
            mret 0
      end
  end.

Definition fcntl_getfl (fd : Z) : ST net Z :=
  e ← failing;
  match e with
  | Some _ => mret (-1)
  | None => s ← stget; mret (from_option flags (-1) (fds s !! fd))
  end.
Definition fcntl_setfl (fd f : Z) : ST net Z :=
  e ← failing;
  match e with
  | Some _ => mret (-1)
  | None =>
      s ← stget;
      match fds s !! fd with
      | None => mret (-1)
      | Some d => stput (set_fds (<[fd := mk_desc (what d) f]> (fds s)) s);; mret 0
      end
  end.

(** ** The network *)

(** The watched descriptors of a connection, and of the listening sockets. *)
Definition watching (s : net) (w : kind) : gset Z :=
  filter (fun fd => what <$> fds s !! fd = Some w) (interest s).

(** A client connects: it waits in the backlog. *)
Definition connected (c : nat) (s : net) : net :=
  mk_net (fds s) (backlog s ++ [c]) (<[c := mk_conn [] 0 false Whole [] false]> (conns s))
    (interest s) (watching s Listening ∪ ready s) (trouble s).
(** Something happens to a connection: watched descriptors become ready. *)
Definition stirred (c : nat) (f : conn -> conn) (s : net) : net :=
  mk_net (fds s) (backlog s) (alter f c (conns s)) (interest s) (watching s (Stream c) ∪ ready s) (trouble s).
Definition bytes_arrive (c : nat) (x : list Z) : net -> net :=
  stirred c (fun k => mk_conn (arrived k ++ x) (taken k) (finished k) (reset k) (outbox k) (gone k)).
Definition peer_finishes (c : nat) : net -> net :=
  stirred c (fun k => mk_conn (arrived k) (taken k) true (reset k) (outbox k) (gone k)).
Definition peer_breaks (c : nat) : net -> net :=
  stirred c (fun k => mk_conn (arrived k) (taken k) (finished k) Reset_by_peer (outbox k) (gone k)).

(** ** Setting up a server *)

(** [socket] and [epoll_create1]: a new descriptor, or [-1]. *)
Definition new_desc : ST net Z :=
  e ← failing;
  match e with
  | Some _ => mret (-1)
  | None =>
      s ← stget;
      let n := lowest (dom (fds s)) in
      stput (set_fds (<[n := mk_desc Plain 0]> (fds s)) s);; mret n
  end.
(** A call of which only the outcome matters: [setsockopt], [bind]. *)
Definition outcome : ST net Z := e ← failing; mret (match e with Some _ => -1 | None => 0 end).
Definition listen (fd : Z) : ST net Z :=
  e ← failing;
  match e with
  | Some _ => mret (-1)
  | None =>
      s ← stget;
      match fds s !! fd with
      | None => mret (-1)
      | Some d => stput (set_fds (<[fd := mk_desc Listening (flags d)]> (fds s)) s);; mret 0
      end
  end.

(** [epoll_wait]: of the watched descriptors with news, those that [chosen] names are
    reported, with their state at this moment. *)
Definition epoll_wait (chosen : list Z) : ST net (list (Z * Z)) :=
  s ← stget;
  stput (set_ready (ready s ∖ list_to_set chosen) s);;
  mret ((fun fd => (fd, events_of s fd)) <$> chosen).

(** [select] on reading: the number of descriptors that can be read and which; on failure the
    set is left as it was. *)
Definition select (nfds : Z) (set : gset Z) : ST net (Z * gset Z) :=
  e ← failing;
  match e with
  | Some _ => mret (-1, set)
  | None =>
      s ← stget;
      let r := filter (fun fd => fd < nfds /\ readable s fd = true) set in
      mret (Z.of_nat (base.size r), r)
  end.

(** ** Arrays of characters *)

(** [strcat] on arrays. *)
Definition strcat_array (dst src : list Z) : res (list Z) :=
  match c_string dst, c_string src with
  | Some d, Some x =>
      if (length d + length x <? length dst)%nat then Ok (splice (length d) (x ++ [0]) dst) else Err OutOfBounds
  | _, _ => Err OutOfBounds
  end.
(** The array after [n] bytes of zeros received [x]. *)
Definition padded (n : nat) (x : list Z) : list Z := x ++ replicate (n - length x) 0.

(** ** Lemmas *)

Section descriptors.
Implicit Types (d : gset Z) (i j : Z).

Lemma lowest_from_spec fuel i d : 0 <= i -> (base.size d <= fuel + Z.to_nat i)%nat ->
  (forall j, 0 <= j < i -> j ∈ d) ->
  lowest_from fuel i d ∉ d /\ 0 <= lowest_from fuel i d /\ (forall j, 0 <= j < lowest_from fuel i d -> j ∈ d).
Proof.
  revert i. induction fuel as [|fuel IH]; intros i Hi Hs Hlow; cbn [lowest_from].
  - split; [|done]. intros Hin.
    assert (list_to_set (Z.of_nat <$> seq 0 (S (Z.to_nat i))) ⊆ d) as Hsub.
    { intros j Hj. rewrite elem_of_list_to_set, list_elem_of_fmap in Hj. destruct Hj as (k & -> & Hk).
      apply elem_of_seq in Hk. destruct (decide (Z.of_nat k = i)) as [->|]; [done|]. apply Hlow. lia. }
    apply subseteq_size in Hsub. rewrite size_list_to_set in Hsub.
    + rewrite length_fmap, length_seq in Hsub. lia.
    + apply NoDup_fmap_2; [apply _|]. apply NoDup_seq.
  - destruct (decide (i ∈ d)) as [Hin|]; [|done]. apply IH; [lia|lia|].
    intros j Hj. destruct (decide (j = i)) as [->|]; [done|]. apply Hlow. lia.
Qed.

Lemma lowest_fresh d : lowest d ∉ d.
Proof. apply lowest_from_spec; [lia..|]. intros; lia. Qed.
Lemma lowest_nonneg d : 0 <= lowest d.
Proof. apply lowest_from_spec; [lia..|]. intros; lia. Qed.
Lemma lowest_least d j : 0 <= j < lowest d -> j ∈ d.
Proof. apply lowest_from_spec; [lia..|]. intros; lia. Qed.
Lemma lowest_zero d : 0 ∉ d -> lowest d = 0.
Proof.
  intros H. destruct (decide (0 < lowest d)); [|pose proof (lowest_nonneg d); lia].
  exfalso. apply H, lowest_least. lia.
Qed.
End descriptors.

Section arrays.
Implicit Types (x y : list Z).

Lemma c_string_padded n x : (length (c_chars x) < n)%nat -> (length x <= n)%nat -> c_string (padded n x) = Some (c_chars x).
Proof.
  unfold padded. revert n. induction x as [|a x IH]; intros n Hc Hl.
  - destruct n; [cbn in Hc; lia|]. done.
  - cbn [c_chars] in *. cbn [app c_string]. destruct (a =? 0) eqn:E; [done|]. cbn [length] in *.
    destruct n as [|n]; [lia|]. cbn [Nat.sub]. rewrite IH by lia. done.
Qed.
Lemma length_padded n x : (length x <= n)%nat -> length (padded n x) = n.
Proof. intros. unfold padded. rewrite length_app, length_replicate. lia. Qed.
Lemma set_padded n x c : (length x < n)%nat -> set_at (padded n x) (Z.of_nat (length x)) c = Ok (padded n (x ++ [c])).
Proof.
  intros H. rewrite set_at_ok by (unfold CBase.size; rewrite length_padded by lia; lia). f_equal. rewrite Nat2Z.id.
  unfold padded. destruct (n - length x)%nat as [|m] eqn:E; [lia|]. cbn [replicate]. rewrite insert_mid by done.
  rewrite length_app. cbn [length]. replace (n - (length x + 1))%nat with m by lia. by rewrite <- app_assoc.
Qed.
Lemma c_chars_padded n x : c_chars (padded n x) = c_chars x.
Proof.
  unfold padded. generalize (n - length x)%nat as m. intros m.
  induction x as [|a x IH]; cbn; [by destruct m|]. destruct (a =? 0); [done|]. by rewrite IH.
Qed.

(** Appending to an array that has room left. *)
Lemma strcat_padded n x y src : no_nul x -> c_string src = Some y -> (length x + length y < n)%nat ->
  strcat_array (padded n x) src = Ok (padded n (x ++ y)).
Proof.
  intros Hx Hy Hn. unfold strcat_array. rewrite c_string_padded, (c_chars_none x Hx), Hy by (rewrite ?(c_chars_none x Hx); lia).
  rewrite length_padded by lia. destruct (_ <? _)%nat eqn:E; [|apply Nat.ltb_ge in E; lia]. f_equal.
  unfold padded. rewrite length_app.
  replace (n - length x)%nat with (length (y ++ [0%Z]) + (n - (length x + length y) - 1))%nat
    by (rewrite length_app; cbn; lia).
  rewrite replicate_add, splice_app by (by rewrite length_replicate).
  rewrite <- !app_assoc. do 2 f_equal. cbn [app]. rewrite <- replicate_S. f_equal. lia.
Qed.
(** Appending what does not fit. *)
Lemma strcat_overruns n x src : no_nul x -> (length x < n)%nat ->
  (forall y, c_string src = Some y -> (n <= length x + length y)%nat) ->
  strcat_array (padded n x) src = Err OutOfBounds.
Proof.
  intros Hx Hn Hsrc. unfold strcat_array. rewrite c_string_padded, (c_chars_none x Hx) by (rewrite ?(c_chars_none x Hx); lia).
  destruct (c_string src) as [y|]; [|done]. specialize (Hsrc y eq_refl). rewrite length_padded by lia.
  destruct (_ <? _)%nat eqn:E; [apply Nat.ltb_lt in E; lia|done].
Qed.
End arrays.

(** ** Calls on an undisturbed system *)

(** Run the monads. *)
Ltac run := cbv beta iota delta [mbind ST_bind mret ST_ret stget stput xbind xlift xret exit].

Lemma xlift_run {S A B} (m : ST S A) (f : A -> ST S (Z + B)) s a s' : m s = Ok (a, s') -> xbind (xlift m) f s = f a s'.
Proof. intros H. run. by rewrite H. Qed.

Lemma bind_inv {S A B} (m : ST S A) (f : A -> ST S B) s b s'' : mbind f m s = Ok (b, s'') ->
  exists a s', m s = Ok (a, s') /\ f a s' = Ok (b, s'').
Proof. unfold mbind, ST_bind. destruct (m s) as [[a s']|]; [eauto|done]. Qed.
Lemma xlift_lift {S A B} (a : A) (f : A -> ST S (Z + B)) s : xbind (xlift (lift (Ok a))) f s = f a s.
Proof. done. Qed.

(** The state after [close]. *)
Definition closed (fd : Z) (d : desc) (s : net) : net :=
  mk_net (delete fd (fds s)) (backlog s) (hang_up d (conns s)) (interest s ∖ {[fd]}) (ready s ∖ {[fd]}) (trouble s).

(** Descriptor [fd] is connection [c], in state [k], and no call fails. *)
Definition stream_at (s : net) (fd : Z) (c : nat) (k : conn) : Prop :=
  trouble s = [] /\ what <$> fds s !! fd = Some (Stream c) /\ conns s !! c = Some k.

Section calls.
Implicit Types (s : net) (k : conn) (x : list Z).

Lemma failing_none s : trouble s = [] -> failing s = Ok (None, s).
Proof. intros H. unfold failing. run. by rewrite H. Qed.

Lemma stream_at_insert s fd c k k' : stream_at s fd c k -> stream_at (set_conns (<[c := k']> (conns s)) s) fd c k'.
Proof. intros (Ht & Hf & Hc). split_and!; [done..|]. cbn. apply lookup_insert_eq. Qed.

Lemma read_data s fd c k n : stream_at s fd c k -> pending k <> [] ->
  read fd n s = Ok (inr (take n (pending k)),
    set_conns (<[c := mk_conn (arrived k) (taken k + length (take n (pending k))) (finished k) (reset k) (outbox k) (gone k)]> (conns s)) s).
Proof.
  intros (Ht & Hf & Hc) Hp. unfold read. run. rewrite failing_none by done. rewrite Hf, Hc.
  destruct (pending k); [done|]. done.
Qed.
(** What a read of an empty stream gives, and the connection after it. *)
Definition read_empty (k : conn) : Z + list Z :=
  if finished k then inr [] else match reset k with Whole => inl EAGAIN | Reset_by_peer => inl ECONNRESET | Reported => inr [] end.
Lemma read_end s fd c k n : stream_at s fd c k -> pending k = [] -> (reset k = Whole \/ finished k = true) ->
  read fd n s = Ok (read_empty k, s).
Proof.
  intros (Ht & Hf & Hc) Hp Hr. unfold read, read_empty. run. rewrite failing_none by done. rewrite Hf, Hc, Hp.
  destruct (finished k); [done|]. by destruct Hr as [->|].
Qed.
Lemma read_reset s fd c k n : stream_at s fd c k -> pending k = [] -> finished k = false -> reset k = Reset_by_peer ->
  read fd n s = Ok (inl ECONNRESET, set_conns (<[c := reported k]> (conns s)) s).
Proof.
  intros (Ht & Hf & Hc) Hp Hfi Hr. unfold read. run. rewrite failing_none by done. rewrite Hf, Hc, Hp. by rewrite Hfi, Hr.
Qed.
Lemma send_run s fd c k x : stream_at s fd c k -> reset k = Whole ->
  send fd x s = Ok (tt, set_conns (<[c := mk_conn (arrived k) (taken k) (finished k) (reset k) (outbox k ++ [x]) (gone k)]> (conns s)) s).
Proof. intros (Ht & Hf & Hc) Hr. unfold send. run. rewrite failing_none by done. rewrite Hf, Hc. cbn. by rewrite Hr. Qed.
Lemma send_reset s fd c k x : stream_at s fd c k -> reset k = Reset_by_peer -> finished k = false ->
  send fd x s = Ok (tt, set_conns (<[c := reported k]> (conns s)) s).
Proof. intros (Ht & Hf & Hc) Hr Hfi. unfold send. run. rewrite failing_none by done. rewrite Hf, Hc. cbn. by rewrite Hr, Hfi. Qed.
(** The signal that nobody handles. *)
Lemma send_killed s fd c k x : stream_at s fd c k -> reset k = Reported \/ (reset k = Reset_by_peer /\ finished k = true) ->
  send fd x s = Err Killed.
Proof.
  intros (Ht & Hf & Hc) Hr. unfold send. run. rewrite failing_none by done. rewrite Hf, Hc. cbn.
  by destruct Hr as [->|[-> ->]].
Qed.
Lemma close_run fd d s : fds s !! fd = Some d -> close fd s = Ok (true, closed fd d s).
Proof. intros H. unfold close. run. by rewrite H. Qed.
Lemma close_bad fd s : fds s !! fd = None -> close fd s = Ok (false, s).
Proof. intros H. unfold close. run. by rewrite H. Qed.

Lemma accept_none s L : trouble s = [] -> what <$> fds s !! L = Some Listening -> backlog s = [] ->
  accept L s = Ok (inl EAGAIN, s).
Proof. intros Ht HL Hb. unfold accept. run. by rewrite failing_none, HL, Hb by done. Qed.
Lemma accept_run s L c b : trouble s = [] -> what <$> fds s !! L = Some Listening -> backlog s = c :: b ->
  let n := lowest (dom (fds s)) in
  accept L s = Ok (inr n, set_backlog b (set_fds (<[n := mk_desc (Stream c) 0]> (fds s)) s)).
Proof. intros Ht HL Hb. unfold accept. run. by rewrite failing_none, HL, Hb by done. Qed.
Lemma getfl_run s fd d : trouble s = [] -> fds s !! fd = Some d -> fcntl_getfl fd s = Ok (flags d, s).
Proof. intros Ht Hf. unfold fcntl_getfl. run. by rewrite failing_none, Hf by done. Qed.
Lemma setfl_run s fd d f : trouble s = [] -> fds s !! fd = Some d ->
  fcntl_setfl fd f s = Ok (0, set_fds (<[fd := mk_desc (what d) f]> (fds s)) s).
Proof. intros Ht Hf. unfold fcntl_setfl. run. by rewrite failing_none, Hf by done. Qed.
Lemma epoll_add_run s fd d : trouble s = [] -> fds s !! fd = Some d -> fd ∉ interest s ->
  epoll_ctl_add fd s = Ok (0, set_ready (if readable s fd then {[fd]} ∪ ready s else ready s) (set_interest ({[fd]} ∪ interest s) s)).
Proof. intros Ht Hf Hi. unfold epoll_ctl_add. run. rewrite failing_none, Hf by done. by destruct (decide (fd ∈ interest s)). Qed.
End calls.
