(* ===== verification/EchoTable.v ===== *)
(** * What the echo servers share

    The servers of src/sock-epoll-tcp, src/sock-thread-ctx-tcp, src/sock-select-tcp and
    src/sock-poll-tcp differ in how they wait for their clients. They share the way a socket
    is made non-blocking (the same file in each directory), the two buffers in which an
    answer is composed, and what keeps their descriptors and connections in order. *)
From S2P Require Import Prelude CBase Sock.
From stdpp Require Import base numbers list gmap fin_sets.
Local Open Scope Z_scope.

Definition MAX_BUFF : nat := 1024.
Definition EXIT_FAILURE : Z := 1.

Definition make_socket_non_blocking (sfd : Z) : ST net Z :=
  f ← fcntl_getfl sfd;
  if f =? -1 then mret (-1)
  else
    r ← fcntl_setfl sfd (Z.lor f O_NONBLOCK);
    if r =? -1 then mret (-2) else mret 0.

(** [strcat(wbuff, pre); strcat(wbuff, buff)] after [read] left [bs] in [buff]. *)
Definition reply (pre bs : list Z) : res (list Z) :=
  wbuff ← strcat_array (padded MAX_BUFF []) (pre ++ [0]);
  strcat_array wbuff (padded MAX_BUFF bs).

(** The characters of the text that precedes an answer: [SERVER RESP: ]. *)
Definition SERVER_RESP : list Z := [83; 69; 82; 86; 69; 82; 32; 82; 69; 83; 80; 58; 32].

Definition response (bs : list Z) : res (list Z) := reply SERVER_RESP bs.

(** ** Answers *)

(** The bytes one read takes. *)
Definition bite (k : conn) : list Z := take MAX_BUFF (pending k).
(** What is sent for the bytes of one read. *)
Definition answer (bs : list Z) : list Z := SERVER_RESP ++ c_chars bs.

(** The connection after one read was answered; the answer to a connection that was reset is
    lost. *)
Definition answered (k : conn) : conn :=
  mk_conn (arrived k) (taken k + length (bite k)) (finished k) (if broken k then Reported else Whole)
    (if broken k then outbox k else outbox k ++ [answer (bite k)]) (gone k).
(** The connection after its server closed it. *)
Definition hang (k : conn) : conn := mk_conn (arrived k) (taken k) (finished k) (reset k) (outbox k) true.

(** No text without a zero byte is longer than an answer can hold. *)
Definition polite (x : list Z) : Prop := forall i, (length (c_chars (drop i x)) <= 1010)%nat.

Section answers.
Implicit Types (s : net) (k : conn) (x bs pre : list Z).

Lemma broken_answered k : broken (answered k) = broken k.
Proof. unfold answered, broken. by destruct (reset k). Qed.
Lemma broken_hang k : broken (hang k) = broken k.
Proof. done. Qed.
Lemma length_c_chars_take n x : (length (c_chars (take n x)) <= length (c_chars x))%nat.
Proof.
  revert n. induction x as [|a x IH]; intros [|n]; cbn; [done..|lia|].
  destruct (a =? 0); [done|]. cbn. specialize (IH n). lia.
Qed.
Lemma polite_bite k : polite (arrived k) -> (length (c_chars (bite k)) <= 1010)%nat.
Proof. intros H. unfold bite, pending. etrans; [apply length_c_chars_take|apply H]. Qed.
Lemma length_bite k : (length (bite k) <= MAX_BUFF)%nat.
Proof. unfold bite. rewrite length_take. lia. Qed.
Lemma polite_short x : (length x <= 1010)%nat -> polite x.
Proof. intros H i. etrans; [apply length_c_chars|]. rewrite length_drop. lia. Qed.

Lemma reply_ok pre bs : no_nul pre -> (length bs <= MAX_BUFF)%nat -> (length pre + length (c_chars bs) < MAX_BUFF)%nat ->
  reply pre bs = Ok (padded MAX_BUFF (pre ++ c_chars bs)).
Proof.
  intros Hp Hb Hc. unfold reply. rewrite (strcat_padded _ [] pre); [|constructor|by apply c_string_nul|cbn; lia].
  cbn [mbind res_bind app]. apply strcat_padded; [done| |done]. apply c_string_padded; [lia|done].
Qed.
Lemma reply_long pre bs : no_nul pre -> (length pre < MAX_BUFF)%nat -> (length bs <= MAX_BUFF)%nat ->
  (MAX_BUFF <= length pre + length (c_chars bs))%nat -> reply pre bs = Err OutOfBounds.
Proof.
  intros Hp Hl Hb Hc. unfold reply. rewrite (strcat_padded _ [] pre); [|constructor|by apply c_string_nul|cbn; lia].
  cbn [mbind res_bind app]. apply strcat_overruns; [done..|].
  intros y Hy. apply c_string_chars in Hy as [<- _]. by rewrite c_chars_padded.
Qed.
Lemma c_chars_reply pre bs : no_nul pre -> c_chars (padded MAX_BUFF (pre ++ c_chars bs)) = pre ++ c_chars bs.
Proof. intros Hp. rewrite c_chars_padded. apply c_chars_none. apply Forall_app. split; [done|apply c_chars_no_nul]. Qed.

Lemma no_nul_resp : no_nul SERVER_RESP.
Proof. by_compute. Qed.

Lemma response_ok bs : (length bs <= MAX_BUFF)%nat -> (length (c_chars bs) <= 1010)%nat ->
  response bs = Ok (padded MAX_BUFF (answer bs)).
Proof. intros Hb Hc. apply reply_ok; [apply no_nul_resp|done|]. cbn [length SERVER_RESP]. unfold MAX_BUFF. lia. Qed.
Lemma response_long bs : (length bs <= MAX_BUFF)%nat -> (1011 <= length (c_chars bs))%nat -> response bs = Err OutOfBounds.
Proof. intros Hb Hc. apply reply_long; [apply no_nul_resp|cbn; unfold MAX_BUFF; lia|done|]. cbn [length SERVER_RESP]. unfold MAX_BUFF. lia. Qed.
Lemma c_chars_answer bs : c_chars (padded MAX_BUFF (answer bs)) = answer bs.
Proof. apply c_chars_reply, no_nul_resp. Qed.

Lemma take_length_take {A} n (x : list A) : take (length (take n x)) x = take n x.
Proof.
  rewrite length_take. destruct (decide (n <= length x)%nat); [by rewrite Nat.min_l by lia|].
  rewrite Nat.min_r by lia. by rewrite !take_ge by lia.
Qed.
End answers.

(** ** The descriptor table *)

(** The kinds of open descriptors. *)
Definition kind_at (s : net) (fd : Z) : option kind := what <$> fds s !! fd.

(** What holds of descriptors and connections in every state of a server with listening
    socket [L] that looks after the descriptors [W]: each connection is waiting to be accepted, or is on exactly one of these
    descriptors, or has been closed. *)
Record table (L : Z) (W : gset Z) (s : net) : Prop := {
  tb_listener : kind_at s L = Some Listening;
  tb_only : forall fd, kind_at s fd = Some Listening -> fd = L;
  tb_watched : forall fd, fd ∈ W <-> fd = L \/ exists c, kind_at s fd = Some (Stream c);
  tb_nonblock : forall fd d c, fds s !! fd = Some d -> what d = Stream c -> flags d = O_NONBLOCK;
  tb_unique : forall fd fd' c, kind_at s fd = Some (Stream c) -> kind_at s fd' = Some (Stream c) -> fd = fd';
  tb_queue : NoDup (backlog s);
  tb_waiting : forall c fd, c ∈ backlog s -> kind_at s fd <> Some (Stream c);
  tb_known : forall c, c ∈ backlog s \/ (exists fd, kind_at s fd = Some (Stream c)) -> is_Some (conns s !! c);
  tb_gone : forall c k, conns s !! c = Some k ->
    gone k = false <-> c ∈ backlog s \/ exists fd, kind_at s fd = Some (Stream c) }.

Lemma table_open L W s fd : table L W s -> fd ∈ W -> is_Some (fds s !! fd).
Proof.
  intros HT [->|[c Hc]]%(tb_watched _ _ _ HT).
  - pose proof (tb_listener _ _ _ HT) as H. unfold kind_at in H. destruct (fds s !! L); [eauto|done].
  - unfold kind_at in Hc. destruct (fds s !! fd); [eauto|done].
Qed.

(** Changes of connections that keep them open or closed. *)
Lemma table_conns L W s m i r t : table L W s -> (forall c, gone <$> m !! c = gone <$> conns s !! c) ->
  table L W (mk_net (fds s) (backlog s) m i r t).
Proof.
  intros HT Hm. destruct HT as [T1 T2 T3 T4 T5 T6 T7 T8 T9].
  constructor; [exact T1|exact T2|exact T3|exact T4|exact T5|exact T6|exact T7|..]; cbn [conns backlog].
  - intros c Hc. specialize (T8 c Hc) as [k Hk]. specialize (Hm c). rewrite Hk in Hm. cbn in Hm.
    destruct (m !! c); [eauto|done].
  - intros c k' Hk'. specialize (Hm c). rewrite Hk' in Hm. cbn in Hm. destruct (conns s !! c) as [k|] eqn:Ek; [|done].
    cbn in Hm. injection Hm as ->. exact (T9 c k Ek).
Qed.

Lemma gone_insert (m : gmap nat conn) c k k' : m !! c = Some k -> gone k' = gone k ->
  forall c', gone <$> (<[c := k']> m) !! c' = gone <$> m !! c'.
Proof. intros Hc Hg c'. destruct (decide (c = c')) as [->|]; [rewrite lookup_insert_eq, Hc; cbn; by f_equal|by rewrite lookup_insert_ne]. Qed.
Lemma gone_alter (m : gmap nat conn) c f : (forall k, gone (f k) = gone k) ->
  forall c', gone <$> alter f c m !! c' = gone <$> m !! c'.
Proof.
  intros Hf c'. destruct (decide (c = c')) as [->|]; [rewrite lookup_alter_eq; destruct (m !! c'); cbn; by rewrite ?Hf|].
  by rewrite lookup_alter_ne.
Qed.

Lemma table_connected L W s c : table L W s -> conns s !! c = None -> table L W (connected c s).
Proof.
  intros HT Hc. destruct HT as [T1 T2 T3 T4 T5 T6 T7 T8 T9].
  assert (c ∉ backlog s) as Hnb by (intros H; destruct (T8 c (or_introl H)); congruence).
  assert (forall fd, kind_at s fd <> Some (Stream c)) as Hns by (intros fd H; destruct (T8 c (or_intror (ex_intro _ fd H))); congruence).
  constructor; [exact T1|exact T2|exact T3|exact T4|exact T5|..]; cbn [connected conns backlog].
  - apply NoDup_app. split_and!; [done| |apply NoDup_singleton]. intros x Hx ->%list_elem_of_singleton. done.
  - intros c' fd [Hin| ->%list_elem_of_singleton]%elem_of_app; [by apply T7|apply Hns].
  - intros c' Hc'. destruct (decide (c' = c)) as [->|Hne]; [by rewrite lookup_insert_eq; eauto|].
    rewrite lookup_insert_ne by done. apply T8. destruct Hc' as [[Hin| ->%list_elem_of_singleton]%elem_of_app|H]; [by left|done|by right].
  - intros c' k'. destruct (decide (c' = c)) as [->|Hne].
    + rewrite lookup_insert_eq. intros [= <-]. cbn. split; [|done]. intros _. left. apply elem_of_app. right. by apply list_elem_of_singleton.
    + rewrite lookup_insert_ne by done. intros Hk. rewrite (T9 _ _ Hk), elem_of_app, list_elem_of_singleton.
      unfold connected, kind_at. cbn. tauto.
Qed.

(** The state after a connection was accepted and made non-blocking. *)
Definition accepted (c : nat) (b : list nat) (s : net) : net :=
  mk_net (<[lowest (dom (fds s)) := mk_desc (Stream c) O_NONBLOCK]> (fds s)) b (conns s) (interest s) (ready s) (trouble s).

Lemma kind_at_accepted s c b fd : kind_at (accepted c b s) fd =
  if decide (lowest (dom (fds s)) = fd) then Some (Stream c) else kind_at s fd.
Proof. unfold accepted, kind_at. cbn. destruct (decide _) as [<-|]; [by rewrite lookup_insert_eq|by rewrite lookup_insert_ne]. Qed.
Lemma kind_at_lowest s : kind_at s (lowest (dom (fds s))) = None.
Proof. unfold kind_at. by rewrite (not_elem_of_dom_1 _ _ (lowest_fresh _)). Qed.

Lemma table_accepted L W s c b : table L W s -> backlog s = c :: b -> table L ({[lowest (dom (fds s))]} ∪ W) (accepted c b s).
Proof.
  intros HT Hb. pose proof (kind_at_lowest s) as Hn. set (n := lowest (dom (fds s))) in *.
  destruct HT as [T1 T2 T3 T4 T5 T6 T7 T8 T9]. rewrite Hb in T6, T7, T8, T9. apply NoDup_cons in T6 as [Hc T6].
  constructor; setoid_rewrite kind_at_accepted || idtac; fold n.
  - destruct (decide _) as [E|]; [congruence|done].
  - intros fd. destruct (decide _) as [E|]; [done|apply T2].
  - intros fd. rewrite elem_of_union, elem_of_singleton, T3. destruct (decide (n = fd)) as [<-|Hne].
    + split; [intros _; right; by exists c|by left].
    + split; [by intros [?|?]|by right].
  - intros fd d c'. unfold accepted. cbn [fds]. fold n. destruct (decide (n = fd)) as [<-|Hne].
    + rewrite lookup_insert_eq. by intros [= <-].
    + rewrite lookup_insert_ne by done. apply T4.
  - intros fd fd' c'. assert (forall x, kind_at s x <> Some (Stream c)) as Hx by (intros x; apply T7; left).
    destruct (decide (n = fd)) as [<-|], (decide (n = fd')) as [<-|]; [done|intros [= <-] ?; by exfalso; eapply Hx|intros ? [= <-]; by exfalso; eapply Hx|apply T5].
  - exact T6.
  - intros c' fd Hin. destruct (decide (n = fd)) as [<-|]; [intros [= <-]; done|]. apply T7. by right.
  - intros c' H. cbn [accepted conns]. apply T8. destruct H as [H|[fd H]]; [left; by right|].
    destruct (decide (n = fd)); [injection H as <-; left; left|right; eauto].
  - intros c' k Hk. cbn [accepted conns backlog] in *. rewrite (T9 _ _ Hk). rewrite elem_of_cons. split.
    + intros [[->|H]|[fd H]]; [right; exists n; by rewrite decide_True|by left|].
      right. exists fd. rewrite decide_False; [done|]. intros <-. congruence.
    + intros [H|[fd H]]; [left; by right|]. destruct (decide (n = fd)); [injection H as <-; left; by left|right; eauto].
Qed.

Lemma kind_at_closed fd d s fd' : kind_at (closed fd d s) fd' = if decide (fd = fd') then None else kind_at s fd'.
Proof. unfold closed, kind_at. cbn. destruct (decide _) as [<-|]; [by rewrite lookup_delete_eq|by rewrite lookup_delete_ne]. Qed.

Lemma table_closed L W s fd d c : table L W s -> fds s !! fd = Some d -> what d = Stream c -> table L (W ∖ {[fd]}) (closed fd d s).
Proof.
  intros HT Hfd Hd. assert (kind_at s fd = Some (Stream c)) as Hk by (unfold kind_at; rewrite Hfd; cbn; by f_equal).
  destruct HT as [T1 T2 T3 T4 T5 T6 T7 T8 T9].
  assert (fd <> L) as HL by (intros ->; congruence).
  constructor; setoid_rewrite kind_at_closed || idtac.
  - rewrite decide_False; done.
  - intros fd'. destruct (decide _); [done|apply T2].
  - intros fd'. rewrite elem_of_difference, elem_of_singleton, T3. destruct (decide (fd = fd')) as [<-|].
    + split; [tauto|]. intros [->|[? ?]]; done.
    + split; [tauto|]. intros H. split; [done|congruence].
  - intros fd' d' c'. unfold closed. cbn [fds]. rewrite lookup_delete_Some. intros [_ H]. by eapply T4.
  - intros x y c'. destruct (decide (fd = x)), (decide (fd = y)); [done..|apply T5].
  - exact T6.
  - intros c' x Hin. destruct (decide (fd = x)); [done|by apply T7].
  - intros c' H. cbn [closed conns]. unfold hang_up. rewrite Hd. rewrite lookup_alter_is_Some. apply T8.
    destruct H as [H|[x H]]; [by left|]. destruct (decide (fd = x)); [done|right; eauto].
  - intros c' k. cbn [closed conns backlog]. unfold hang_up. rewrite Hd. rewrite lookup_alter_Some. intros [(-> & k0 & Hk0 & ->)|[Hne Hk']].
    + cbn. split; [done|]. intros [H|[x H]]; [by destruct (T7 _ fd H)|]. destruct (decide (fd = x)); [done|]. exfalso. by apply n, (T5 _ _ c').
    + rewrite (T9 _ _ Hk'). split; (intros [H|[x H]]; [by left|right; exists x]).
      * rewrite decide_False; [done|]. intros <-. congruence.
      * by destruct (decide (fd = x)).
Qed.

(** ** Non-blocking sockets *)

Lemma nonblock_run s fd w : trouble s = [] -> fds s !! fd = Some (mk_desc w 0) ->
  make_socket_non_blocking fd s = Ok (0, set_fds (<[fd := mk_desc w O_NONBLOCK]> (fds s)) s).
Proof.
  intros Ht Hf. unfold make_socket_non_blocking. rewrite (bind_run _ _ _ _ _ (getfl_run _ _ _ Ht Hf)). cbn [flags].
  change (0 =? -1) with false. cbn match. change (Z.lor 0 O_NONBLOCK) with O_NONBLOCK.
  by rewrite (bind_run _ _ _ _ _ (setfl_run _ _ _ O_NONBLOCK Ht Hf)).
Qed.
