(* ===== verification/EchoServers.v ===== *)
(** * The echo servers on an event loop

    src/sock-epoll-tcp and src/sock-thread-ctx-tcp: servers that accept connections on a
    non-blocking socket, watch them edge-triggered, and answer what they read with a
    prefix and the text read. Messages printed to the terminal or a log file are left out,
    as are the addresses of the peers, which only occur in them. *)
From S2P Require Import Prelude CBase Sock EchoTable.
From stdpp Require Import base numbers list gmap fin_sets.
Local Open Scope Z_scope.

Definition MAX_CONN : nat := 80.
Module Epoll.

(** The loop of [handle_conn]: every turn but the last accepts a connection. *)
Fixpoint conn_loop (fuel : nat) (SOCKFD : Z) : ST net (Z + unit) :=
  match fuel with
  | O => stfail OutOfFuel
  | S f =>
      infd <~ xlift (accept SOCKFD);
      match infd with
      | inl errno => xret tt
      | inr infd =>
          r <~ xlift (make_socket_non_blocking infd);
          if r <? 0 then exit EXIT_FAILURE
          else
            r <~ xlift (epoll_ctl_add infd);
            if r <? 0 then exit EXIT_FAILURE else conn_loop f SOCKFD
      end
  end.
Definition handle_conn (SOCKFD : Z) : ST net (Z + unit) :=
  s <~ xlift stget;
  conn_loop (S (length (backlog s))) SOCKFD.

Definition handle_client (fd : Z) : ST net unit :=
  valread ← read fd MAX_BUFF;
  let '(buff, done) := match valread with inl errno => ([], true) | inr [] => ([], true) | inr bs => (bs, false) end in
  wbuff ← lift (response buff);
  send fd (c_chars wbuff);;
  if (done : bool) then close fd;; mret tt else mret tt.

(** One event of the loop over the result of [epoll_wait]. *)
Definition turn (SOCKFD : Z) (ev : Z * Z) : ST net (Z + unit) :=
  let '(fd, events) := ev in
  if negb (Z.land events POLLERR =? 0) || negb (Z.land events POLLHUP =? 0) || (Z.land events POLLIN =? 0) then
    _ <~ xlift (close fd); xret tt
  else if SOCKFD =? fd then handle_conn SOCKFD
  else xlift (handle_client fd).

(** [main] up to its loop: the listening socket and the watched set. *)
Definition main : ST net (Z + Z) :=
  SOCKFD <~ xlift new_desc;
  if SOCKFD =? -1 then exit EXIT_FAILURE else
  r <~ xlift outcome;
  if r <? 0 then exit EXIT_FAILURE else
  r <~ xlift outcome;
  if negb (r =? 0) then exit EXIT_FAILURE else
  r <~ xlift (make_socket_non_blocking SOCKFD);
  if r <? 0 then exit EXIT_FAILURE else
  r <~ xlift (listen SOCKFD);
  if negb (r =? 0) then exit EXIT_FAILURE else
  EPLFD <~ xlift new_desc;
  if EPLFD =? -1 then exit EXIT_FAILURE else
  r <~ xlift (epoll_ctl_add SOCKFD);
  if r <? 0 then exit EXIT_FAILURE else
  xret SOCKFD.

(** The server and its clients. The server is at [epoll_wait] when [todo] is empty and
    otherwise about to handle the first event of [todo]. Clients connect, send, finish
    sending and break connections off at any time. *)
Record state := mk_state { kernel : net; todo : list (Z * Z) }.

Definition legal (s : net) (chosen : list Z) : Prop :=
  NoDup chosen /\ (length chosen <= MAX_CONN)%nat /\
  Forall (fun fd => fd ∈ ready s /\ events_of s fd <> 0) chosen.

Inductive step (L : Z) : state -> state -> Prop :=
  | StepConnect c s t : conns s !! c = None -> step L (mk_state s t) (mk_state (connected c s) t)
  | StepBytes c k x s t : conns s !! c = Some k -> finished k = false -> broken k = false -> x <> [] ->
      step L (mk_state s t) (mk_state (bytes_arrive c x s) t)
  | StepFinish c k s t : conns s !! c = Some k -> finished k = false -> broken k = false -> step L (mk_state s t) (mk_state (peer_finishes c s) t)
  | StepBreak c k s t : conns s !! c = Some k -> broken k = false -> step L (mk_state s t) (mk_state (peer_breaks c s) t)
  | StepWait chosen s evs s' : legal s chosen -> chosen <> [] -> epoll_wait chosen s = Ok (evs, s') ->
      step L (mk_state s []) (mk_state s' evs)
  | StepTurn ev t s s' : turn L ev s = Ok (inr tt, s') -> step L (mk_state s (ev :: t)) (mk_state s' t).

(** The state after a connection was accepted and added to the watched set. *)
Definition admitted (c : nat) (b : list nat) (s : net) : net :=
  let n := lowest (dom (fds s)) in
  let f := <[n := mk_desc (Stream c) O_NONBLOCK]> (fds s) in
  mk_net f b (conns s) ({[n]} ∪ interest s)
    (if from_option conn_readable false (conns s !! c) then {[n]} ∪ ready s else ready s) (trouble s).

Section calls.
Implicit Types (s : net) (k : conn) (x bs : list Z).

(** A connection to which an answer can be sent without harm. *)
Definition sendable (k : conn) : Prop := reset k = Whole \/ (reset k = Reset_by_peer /\ finished k = false).

Lemma send_answer s fd c k x : stream_at s fd c k -> sendable k ->
  send fd x s = Ok (tt, set_conns (<[c := mk_conn (arrived k) (taken k) (finished k) (if broken k then Reported else Whole)
    (if broken k then outbox k else outbox k ++ [x]) (gone k)]> (conns s)) s).
Proof.
  intros Hk [Hr|[Hr Hf]]; unfold broken; rewrite Hr; cbn.
  - rewrite (send_run _ _ _ _ _ Hk Hr). by rewrite Hr.
  - by rewrite (send_reset _ _ _ _ _ Hk Hr Hf).
Qed.

(** A read of a stream with bytes waiting, and the answer to it. *)
Lemma handle_client_data fd c k s : stream_at s fd c k -> pending k <> [] -> polite (arrived k) -> sendable k ->
  handle_client fd s = Ok (tt, set_conns (<[c := answered k]> (conns s)) s).
Proof.
  intros Hk Hp Hpol Hsd. unfold handle_client. rewrite (bind_run _ _ _ _ _ (read_data _ _ _ _ _ Hk Hp)).
  fold (bite k). destruct (bite k) as [|a x] eqn:Eb.
  { exfalso. unfold bite, MAX_BUFF in Eb. by destruct (pending k). }
  rewrite <- Eb. rewrite (bind_run _ _ _ (padded MAX_BUFF (answer (bite k))) _)
    by (unfold lift; by rewrite (response_ok _ (length_bite k) (polite_bite k Hpol))).
  rewrite c_chars_answer. erewrite bind_run by (eapply send_answer; [apply (stream_at_insert _ _ _ _ _ Hk)|exact Hsd]).
  unfold mret, ST_ret. do 2 f_equal. unfold set_conns. cbn. by rewrite insert_insert_eq.
Qed.

(** The end of a stream: an answer to nothing, and the descriptor is closed. *)
Lemma handle_client_end fd d c k s : stream_at s fd c k -> fds s !! fd = Some d -> pending k = [] -> finished k = true -> reset k = Whole ->
  handle_client fd s = Ok (tt, closed fd d (set_conns (<[c := answered k]> (conns s)) s)).
Proof.
  intros Hk Hfd Hp Hf Hr. unfold handle_client. rewrite (bind_run _ _ _ _ _ (read_end _ _ _ _ _ Hk Hp (or_introl Hr))).
  assert (bite k = []) as Eb by (unfold bite; by rewrite Hp, take_nil).
  unfold read_empty. rewrite Hf.
  rewrite (bind_run _ _ _ (padded MAX_BUFF (answer [])) s) by (unfold lift; by rewrite (response_ok []) by (cbn; lia)).
  rewrite c_chars_answer, (bind_run _ _ _ _ _ (send_answer _ _ _ _ _ Hk (or_introl Hr))).
  unfold answered. rewrite Eb, Nat.add_0_r.
  erewrite bind_run; [|apply close_run; exact Hfd]. done.
Qed.

(** The read of a text that is too long. *)
Lemma handle_client_overruns fd c k s : stream_at s fd c k -> (1011 <= length (c_chars (bite k)))%nat ->
  handle_client fd s = Err OutOfBounds.
Proof.
  intros Hk Hlong. assert (pending k <> []) as Hp by (intros E; unfold bite in Hlong; rewrite E, take_nil in Hlong; cbn in Hlong; lia).
  unfold handle_client. rewrite (bind_run _ _ _ _ _ (read_data _ _ _ _ _ Hk Hp)). fold (bite k).
  destruct (bite k) as [|a x] eqn:Eb; [cbn in Hlong; lia|]. rewrite <- Eb in *. apply bind_err.
  unfold lift. by rewrite (response_long _ (length_bite k)).
Qed.
End calls.

(** ** The watched descriptors *)

(** The server looks after what it watches. *)
Definition etable (L : Z) (s : net) : Prop := table L (interest s) s.

Lemma table_ext L W s s' : table L W s -> fds s' = fds s -> backlog s' = backlog s -> conns s' = conns s -> table L W s'.
Proof.
  intros HT E1 E2 E3. assert (forall fd, kind_at s' fd = kind_at s fd) as Hk by (intros; unfold kind_at; by rewrite E1).
  destruct HT as [T1 T2 T3 T4 T5 T6 T7 T8 T9].
  constructor; setoid_rewrite Hk || idtac; rewrite ?E1, ?E2, ?E3; done.
Qed.
Lemma table_admitted L s c b : etable L s -> backlog s = c :: b -> etable L (admitted c b s).
Proof. intros HT Hb. apply (table_ext _ _ (accepted c b s)); [|done..]. by apply table_accepted. Qed.
Lemma kind_at_admitted s c b fd : kind_at (admitted c b s) fd =
  if decide (lowest (dom (fds s)) = fd) then Some (Stream c) else kind_at s fd.
Proof. apply (kind_at_accepted s c b fd). Qed.

(** ** Accepting *)

Lemma conn_loop_admit f L s c b : what <$> fds s !! L = Some Listening -> (forall fd, fd ∈ interest s -> is_Some (fds s !! fd)) ->
  trouble s = [] -> backlog s = c :: b -> conn_loop (S f) L s = conn_loop f L (admitted c b s).
Proof.
  intros HL Hi Ht Hb. pose proof (lowest_fresh (dom (fds s))) as Hn. cbn [conn_loop].
  rewrite (xlift_run _ _ _ _ _ (accept_run _ _ _ _ Ht HL Hb)). set (n := lowest (dom (fds s))) in *. cbn match.
  erewrite xlift_run by (apply nonblock_run; [done|cbn; apply lookup_insert_eq]). change (0 <? 0) with false. cbn match.
  erewrite xlift_run; [|eapply epoll_add_run; [done|cbn; apply lookup_insert_eq|]].
  2:{ cbn. intros H. by apply Hn, elem_of_dom, Hi. }
  cbn match. f_equal. unfold admitted, set_ready, set_interest, set_fds, set_backlog, readable. cbn. fold n.
  by rewrite insert_insert_eq, lookup_insert_eq.
Qed.

(** Every waiting connection is accepted. *)
Lemma handle_conn_ind (P : net -> Prop) L s :
  (forall s c b, etable L s -> trouble s = [] -> backlog s = c :: b -> P s -> P (admitted c b s)) ->
  etable L s -> trouble s = [] -> P s ->
  exists s', handle_conn L s = Ok (inr tt, s') /\ etable L s' /\ trouble s' = [] /\ backlog s' = [] /\ P s'.
Proof.
  intros Hstep. unfold handle_conn. rewrite (xlift_run stget _ s s s) by done. remember (backlog s) as q eqn:Hq.
  revert s Hq. induction q as [|c b IH]; intros s Hq HT Ht HP.
  - exists s. split_and!; [|done..]. cbn [length conn_loop].
    by rewrite (xlift_run _ _ _ _ _ (accept_none _ _ Ht (tb_listener _ _ _ HT) (eq_sym Hq))).
  - cbn [length]. rewrite (conn_loop_admit _ _ _ _ _ (tb_listener _ _ _ HT) (fun fd => table_open L _ s fd HT) Ht (eq_sym Hq)).
    apply IH; [done|by apply table_admitted|done|by apply Hstep].
Qed.

(** ** The invariant *)

(** The answers of a connection: one to each piece of the text that was read, and one to
    nothing at its end. *)
Record session (chunks : list (list Z)) (k : conn) : Prop := {
  se_read : concat chunks = take (taken k) (arrived k);
  se_taken : (taken k <= length (arrived k))%nat;
  se_chunks : Forall (fun x => x <> [] /\ (length x <= MAX_BUFF)%nat) chunks;
  se_prefix : outbox k `prefix_of` (answer <$> chunks) ++ (if gone k then [answer []] else []);
  se_answers : broken k = false -> outbox k = (answer <$> chunks) ++ (if gone k then [answer []] else []) }.

(** The last read was full: there may be more. *)
Definition full (chunks : list (list Z)) : Prop := exists x, last chunks = Some x /\ length x = MAX_BUFF.

(** An event with neither error bit. *)
Definition plain (e : Z) : Prop := Z.land e POLLERR = 0 /\ Z.land e POLLHUP = 0.
(** There is something to read, and the answer does no harm. *)
Definition answerable (k : conn) : Prop := (pending k <> [] \/ finished k = true) /\ sendable k.
Definition stream_ok (s : net) (fd : Z) : Prop :=
  forall c k, kind_at s fd = Some (Stream c) -> conns s !! c = Some k -> answerable k.

(** An event that is still to be handled is still true. *)
Definition pending_event (s : net) (ev : Z * Z) : Prop :=
  ev.1 ∈ interest s /\ readable s ev.1 = true /\ Z.land ev.2 POLLIN <> 0 /\
  (~ plain ev.2 -> hung s ev.1 = true) /\ (plain ev.2 -> stream_ok s ev.1).

(** A descriptor whose news will be handled. *)
Definition noticed (st : state) (fd : Z) : Prop := fd ∈ ready (kernel st) \/ fd ∈ (todo st).*1.

Record core (L : Z) (st : state) : Prop := {
  in_table : etable L (kernel st);
  in_calm : trouble (kernel st) = [];
  in_polite : forall c k, conns (kernel st) !! c = Some k -> polite (arrived k);
  in_distinct : NoDup (todo st).*1;
  in_events : Forall (pending_event (kernel st)) (todo st);
  in_ready : ready (kernel st) ⊆ interest (kernel st);
  in_session : forall c k, conns (kernel st) !! c = Some k -> exists chunks, session chunks k /\
    forall fd, kind_at (kernel st) fd = Some (Stream c) -> pending k <> [] -> noticed st fd \/ full chunks }.

Record inv (L : Z) (st : state) : Prop := {
  in_core : core L st;
  in_waiting : backlog (kernel st) <> [] -> noticed st L }.

Lemma elem_of_watching s w fd : fd ∈ watching s w <-> kind_at s fd = Some w /\ fd ∈ interest s.
Proof. unfold watching, kind_at. by rewrite elem_of_filter. Qed.

Lemma pending_events_mono s s' evs : interest s ⊆ interest s' ->
  (forall fd, fd ∈ evs.*1 -> readable s fd = true -> readable s' fd = true) ->
  (forall fd, fd ∈ evs.*1 -> hung s fd = true -> hung s' fd = true) ->
  (forall fd, fd ∈ evs.*1 -> forall e, (fd, e) ∈ evs -> plain e -> stream_ok s fd -> stream_ok s' fd) ->
  Forall (pending_event s) evs -> Forall (pending_event s') evs.
Proof.
  intros Hi Hr Hh Ho. rewrite !Forall_forall. intros H [fd e] Hin. destruct (H _ Hin) as (A & B & C & D & F). cbn in *.
  assert (fd ∈ evs.*1) as Hfd by (apply list_elem_of_fmap; by exists (fd, e)).
  split_and!; cbn; [by apply Hi|by apply Hr|done|..]; intros E; [by apply Hh, D|]. eapply Ho; [done..|]. by apply F.
Qed.

Lemma inv_connect L s t c : inv L (mk_state s t) -> conns s !! c = None -> inv L (mk_state (connected c s) t).
Proof.
  intros [[I1 I2 I3 I4 I5 I6 I8] I7] Hc. cbn in *.
  assert (forall fd c', kind_at s fd = Some (Stream c') -> c <> c') as Hne.
  { intros fd c' Hk <-. destruct (tb_known _ _ _ I1 c) as [? ?]; [eauto|congruence]. }
  constructor; [constructor|]; cbn [kernel todo].
  - by apply table_connected.
  - done.
  - intros c' k. cbn. rewrite lookup_insert_Some. intros [[<- <-]|[_ Hk]]; [|by eapply I3]. intros i. cbn. rewrite drop_nil. cbn. lia.
  - done.
  - revert I5. apply pending_events_mono; [done|..]; intros fd _; unfold readable, hung; cbn.
    + destruct (what <$> fds s !! fd) as [[| |c']|] eqn:E; [done| |by rewrite lookup_insert_ne by (by eapply Hne)|done].
      rewrite !bool_decide_eq_true. intros _. by destruct (backlog s).
    + destruct (what <$> fds s !! fd) as [[| |c']|] eqn:E; [done..| |done]. by rewrite lookup_insert_ne by (by eapply Hne).
    + intros e _ _ H c' k Hk. cbn. rewrite lookup_insert_ne by (by eapply Hne). by apply H.
  - cbn. intros fd [[_ Hin]%elem_of_watching|Hin]%elem_of_union; [done|by apply I6].
  - intros c' k. cbn. rewrite lookup_insert_Some. intros [[<- <-]|[_ Hk]].
    + exists []. split; [|done]. constructor; cbn; [done|lia|constructor|apply prefix_nil|done].
    + destruct (I8 _ _ Hk) as (chunks & Hs & Hn). exists chunks. split; [done|]. intros fd Hfd Hr.
      destruct (Hn fd Hfd Hr) as [[H|H]|H]; [left; left; cbn; by apply elem_of_union_r|left; by right|by right].
  - intros _. left. cbn. apply elem_of_union. left. apply elem_of_watching. split; [apply (tb_listener _ _ _ I1)|].
    apply (tb_watched _ _ _ I1). by left.
Qed.

(** Something happens to connection [c]: what can only add news. *)
Lemma inv_stirred L s t c k f : inv L (mk_state s t) -> conns s !! c = Some k ->
  gone (f k) = gone k -> (conn_readable k = true -> conn_readable (f k) = true) -> (broken k = true -> broken (f k) = true) ->
  polite (arrived (f k)) -> (forall chunks, session chunks k -> session chunks (f k)) ->
  (forall fd e, (fd, e) ∈ t -> plain e -> kind_at s fd = Some (Stream c) -> answerable k -> answerable (f k)) ->
  inv L (mk_state (stirred c f s) t).
Proof.
  intros [[I1 I2 I3 I4 I5 I6 I8] I7] Hc Hg Hr Hb Hp Hs Ho. cbn in *.
  assert (alter f c (conns s) = <[c := f k]> (conns s)) as Ha.
  { apply map_eq. intros i. destruct (decide (i = c)) as [->|]; [by rewrite lookup_alter_eq, lookup_insert_eq, Hc|].
    by rewrite lookup_alter_ne, lookup_insert_ne. }
  constructor; [constructor|]; cbn [kernel todo stirred].
  - apply table_conns; [done|]. rewrite Ha. by eapply gone_insert.
  - done.
  - cbn. rewrite Ha. intros c' k'. rewrite lookup_insert_Some. intros [[<- <-]|[_ Hk]]; [done|by eapply I3].
  - done.
  - revert I5. apply pending_events_mono; [done|..]; intros fd _; unfold readable, hung, stirred; cbn; rewrite Ha.
    + destruct (what <$> fds s !! fd) as [[| |c']|] eqn:E; [done..| |done].
      destruct (decide (c = c')) as [<-|]; [rewrite lookup_insert_eq, Hc; cbn; done|by rewrite lookup_insert_ne].
    + destruct (what <$> fds s !! fd) as [[| |c']|] eqn:E; [done..| |done].
      destruct (decide (c = c')) as [<-|]; [rewrite lookup_insert_eq, Hc; cbn; done|by rewrite lookup_insert_ne].
    + intros e Hin He H c' k' Hk. cbn. rewrite ?Ha, lookup_insert_Some. intros [[<- <-]|[_ Hk']]; [eapply Ho; eauto|by eapply H].
  - cbn. intros fd [[_ Hin]%elem_of_watching|Hin]%elem_of_union; [done|by apply I6].
  - cbn. rewrite Ha. intros c' k'. rewrite lookup_insert_Some. intros [[<- <-]|[Hne Hk]].
    + destruct (I8 _ _ Hc) as (chunks & Hs' & _). exists chunks. split; [by apply Hs|]. intros fd Hfd _. left. left. cbn.
      apply elem_of_union_l, elem_of_watching. split; [done|]. apply (tb_watched _ _ _ I1). right. by exists c.
    + destruct (I8 _ _ Hk) as (chunks & Hs' & Hn). exists chunks. split; [done|]. intros fd Hfd Hr'.
      destruct (Hn fd Hfd Hr') as [[H|H]|H]; [left; left; cbn; by apply elem_of_union_r|left; by right|by right].
  - intros Hq. destruct (I7 Hq) as [H|H]; [left; by apply elem_of_union_r|by right].
Qed.

Lemma inv_wait L s chosen evs s' : inv L (mk_state s []) -> legal s chosen -> epoll_wait chosen s = Ok (evs, s') ->
  inv L (mk_state s' evs).
Proof.
  intros [[I1 I2 I3 I4 I5 I6 I8] I7] (Hnd & _ & Hch) [= <- <-]. cbn in *.
  assert (((fun fd => (fd, events_of s fd)) <$> chosen).*1 = chosen) as Hfst.
  { clear. induction chosen as [|fd chosen IH]; [done|]. cbn. by f_equal. }
  assert (forall fd, fd ∈ ready s -> noticed (mk_state (set_ready (ready s ∖ list_to_set chosen) s) ((fun fd => (fd, events_of s fd)) <$> chosen)) fd) as Hno.
  { intros fd H. unfold noticed. cbn [kernel todo]. rewrite Hfst. cbn.
    destruct (decide (fd ∈ chosen)) as [|Hn]; [by right|left]. apply elem_of_difference. split; [done|]. by rewrite elem_of_list_to_set. }
  constructor; [constructor|]; cbn [kernel todo].
  - by apply (table_ext _ _ s).
  - done.
  - done.
  - by rewrite Hfst.
  - apply Forall_fmap. rewrite Forall_forall in Hch |- *. intros fd Hfd. destruct (Hch fd Hfd) as [Hrd Hev].
    unfold pending_event. cbn. split; [by apply I6|]. unfold events_of in *.
    change (readable (set_ready (ready s ∖ list_to_set chosen) s) fd) with (readable s fd).
    change (hung (set_ready (ready s ∖ list_to_set chosen) s) fd) with (hung s fd).
    assert (hung s fd = true -> readable s fd = true) as Hhr.
    { unfold hung, readable. destruct (what <$> fds s !! fd) as [[| |c]|]; [done..| |done]. destruct (conns s !! c) as [k|]; [|done].
      cbn. unfold conn_readable. intros ->. by rewrite orb_true_r. }
    split; [by destruct (readable s fd), (hung s fd); cbn in *; try tauto; specialize (Hhr eq_refl)|].
    split; [by destruct (readable s fd), (hung s fd); cbn in *; try tauto; specialize (Hhr eq_refl)|].
    split; [intros H; destruct (hung s fd); [done|]; exfalso; by destruct (readable s fd); cbn in *; apply H|].
    intros He. assert (hung s fd = false) as Hh by (destruct (hung s fd); [destruct He as [He _]; by destruct (readable s fd)|done]).
    intros c k Hk Hc. cbn in Hc. unfold kind_at in Hk. cbn in Hk. rewrite Hh in Hev. destruct (readable s fd) eqn:Hre; [|done].
    unfold readable, hung in Hre, Hh. rewrite Hk, Hc in Hre, Hh. cbn in Hre, Hh. unfold broken in Hh. apply bool_decide_eq_false, dec_stable in Hh.
    unfold conn_readable, broken in Hre. rewrite Hh in Hre. cbn in Hre. rewrite orb_false_r in Hre. apply orb_true_iff in Hre as [H%bool_decide_eq_true|H].
    + split; [by left|by left].
    + split; [by right|by left].
  - cbn. set_solver.
  - intros c k Hk. destruct (I8 _ _ Hk) as (chunks & Hs' & Hn). exists chunks. split; [done|]. intros fd Hfd Hr'.
    destruct (Hn fd Hfd Hr') as [[H|H%elem_of_nil]|H]; [left; by apply Hno|done|by right].
  - intros Hq. destruct (I7 Hq) as [H|H%elem_of_nil]; [|done]. by apply Hno.
Qed.

Lemma core_admitted L s t c b : core L (mk_state s t) -> backlog s = c :: b -> L ∉ t.*1 ->
  core L (mk_state (admitted c b s) t).
Proof.
  intros [I1 I2 I3 I4 I5 I6 I8] Hb HL. cbn in *. pose proof (kind_at_lowest s) as Hn. set (n := lowest (dom (fds s))) in *.
  assert (forall fd, fd ∈ t.*1 -> kind_at (admitted c b s) fd = kind_at s fd /\ kind_at s fd <> Some Listening) as Hkeep.
  { intros fd Hfd. rewrite kind_at_admitted. fold n. split.
    - destruct (decide (n = fd)) as [<-|]; [|done]. exfalso. apply list_elem_of_fmap in Hfd as ([fd e] & Efd & Hin). cbn in Efd. subst fd.
      rewrite Forall_forall in I5. destruct (I5 _ Hin) as (Hi & _). destruct (table_open _ _ _ _ I1 Hi) as [d Hd].
      unfold kind_at in Hn. cbn in Hd. by rewrite Hd in Hn.
    - intros HLs. by rewrite (tb_only _ _ _ I1 _ HLs) in Hfd. }
  constructor; cbn [kernel todo].
  - by apply table_admitted.
  - done.
  - done.
  - done.
  - revert I5. apply pending_events_mono; [cbn; set_solver|..]; intros fd Hfd; destruct (Hkeep fd Hfd) as [Hk HnL].
    3:{ intros e _ _ H c' k. rewrite Hk. apply H. }
    all: unfold readable, hung; fold (kind_at s fd) (kind_at (admitted c b s) fd); rewrite Hk; destruct (kind_at s fd) as [[| |c']|]; done.
  - cbn. fold n. destruct (from_option _ _ _); set_solver.
  - intros c' k Hk. destruct (I8 _ _ Hk) as (chunks & Hs & Hno). exists chunks. split; [done|]. intros fd Hfd Hp.
    rewrite kind_at_admitted in Hfd. fold n in Hfd. destruct (decide (n = fd)) as [<-|].
    + injection Hfd as <-. left. left. cbn. fold n. cbn in Hk. rewrite Hk. cbn. unfold conn_readable. rewrite bool_decide_true by done. set_solver.
    + destruct (Hno fd Hfd Hp) as [[H|H]|H]; [left; left; cbn in *; destruct (from_option _ _ _); set_solver|left; by right|by right].
Qed.

Lemma core_listener L s e t : core L (mk_state s ((L, e) :: t)) -> core L (mk_state s t).
Proof.
  intros [I1 I2 I3 I4 I5 I6 I8]. cbn in *. apply NoDup_cons in I4 as [HL I4]. apply Forall_cons in I5 as [_ I5].
  constructor; [done..|]. intros c k Hk. destruct (I8 _ _ Hk) as (chunks & Hs & Hno). exists chunks. split; [done|]. intros fd Hfd Hp.
  destruct (Hno fd Hfd Hp) as [[H|H]|H]; [left; by left| |by right]. cbn in H. apply elem_of_cons in H as [->|H]; [|left; by right].
  cbn in Hfd. rewrite (tb_listener _ _ _ I1) in Hfd. done.
Qed.

(** Events of other descriptors after connection [c] changed. *)
Lemma other_events L s t fd c k' s' : etable L s -> kind_at s fd = Some (Stream c) -> fd ∉ t.*1 ->
  interest s ∖ {[fd]} ⊆ interest s' -> backlog s' = backlog s -> (forall fd', fd' <> fd -> kind_at s' fd' = kind_at s fd') ->
  conns s' = <[c := k']> (conns s) -> Forall (pending_event s) t -> Forall (pending_event s') t.
Proof.
  intros HT Hk Hfd Hi Hb Hkind Hc Ht.
  assert (forall fd' e, (fd', e) ∈ t -> fd' <> fd) as Hne.
  { intros fd' e Hin ->. apply Hfd, list_elem_of_fmap. by exists (fd, e). }
  rewrite Forall_forall in Ht |- *. intros [fd' e] Hin. specialize (Hne _ _ Hin). destruct (Ht _ Hin) as (A & B & C & D & F). cbn in *.
  assert (forall c', kind_at s fd' = Some (Stream c') -> conns s' !! c' = conns s !! c') as Hc'.
  { intros c' Hk'. rewrite Hc. apply lookup_insert_ne. intros <-. by apply Hne, (tb_unique _ _ _ HT _ _ c). }
  unfold pending_event. cbn. split; [apply Hi; set_solver|]. unfold readable, hung, stream_ok in *.
  fold (kind_at s fd') (kind_at s' fd') in *. rewrite (Hkind _ Hne), Hb. destruct (kind_at s fd') as [[| |c']|]; [done..| |done].
  rewrite (Hc' c' eq_refl). split_and!; [done..|]. intros He c0 k0 [= <-]. rewrite (Hc' c' eq_refl). by apply F.
Qed.

Lemma session_answered chunks k : session chunks k -> gone k = false -> pending k <> [] ->
  session (chunks ++ [bite k]) (answered k) /\ (pending (answered k) <> [] -> full (chunks ++ [bite k])).
Proof.
  intros [S1 S2 S3 S4 S5] Hg Hp. unfold pending in *.
  assert (length (bite k) <= length (arrived k) - taken k)%nat as Hl.
  { unfold bite, pending. rewrite length_take, length_drop. lia. }
  split.
  - constructor; rewrite ?broken_answered; cbn [answered arrived taken outbox gone].
    + rewrite concat_app, S1. cbn. rewrite app_nil_r. rewrite <- take_take_drop. f_equal.
      unfold bite, pending. by rewrite take_length_take.
    + lia.
    + apply Forall_app. split; [done|]. apply Forall_singleton. split; [|apply length_bite].
      unfold bite, pending, MAX_BUFF. by destruct (drop (taken k) (arrived k)).
    + rewrite fmap_app. cbn. destruct (broken k) eqn:Eb.
      * rewrite Hg, app_nil_r in S4. rewrite Hg, app_nil_r. by apply prefix_app_r.
      * rewrite S5, Hg by done. rewrite app_nil_r. by apply prefix_app_r.
    + intros Hb. rewrite Hb, S5, Hg by done. by rewrite fmap_app, !app_nil_r.
  - intros Hne. exists (bite k). rewrite last_snoc. split; [done|].
    assert (length (bite k) = MAX_BUFF `min` (length (arrived k) - taken k))%nat as Hlen
      by (unfold bite, pending; by rewrite length_take, length_drop).
    destruct (decide (MAX_BUFF <= length (arrived k) - taken k)%nat); [lia|]. exfalso.
    apply Hne, drop_ge. change (length (arrived k) <= taken k + length (bite k))%nat. lia.
Qed.

Lemma core_answered L s fd e t c k : core L (mk_state s ((fd, e) :: t)) -> stream_at s fd c k -> pending k <> [] ->
  core L (mk_state (set_conns (<[c := answered k]> (conns s)) s) t).
Proof.
  intros [I1 I2 I3 I4 I5 I6 I8] (_ & Hfd & Hk) Hp. cbn in *. apply NoDup_cons in I4 as [Hnt I4]. apply Forall_cons in I5 as [_ I5].
  assert (gone k = false) as Hg by (apply (tb_gone _ _ _ I1 _ _ Hk); eauto).
  constructor; cbn [kernel todo].
  - apply table_conns; [done..|]. by eapply gone_insert.
  - done.
  - intros c' k'. cbn. rewrite lookup_insert_Some. intros [[<- <-]|[_ H]]; [|by eapply I3]. apply (I3 _ _ Hk).
  - done.
  - revert I5. eapply other_events; [done|exact Hfd|done|cbn; set_solver|done|done|done].
  - done.
  - intros c' k'. cbn. rewrite lookup_insert_Some. intros [[<- <-]|[Hne Hk']].
    + destruct (I8 _ _ Hk) as (chunks & Hs & _). destruct (session_answered _ _ Hs Hg Hp) as [Hs' Hf].
      exists (chunks ++ [bite k]). split; [done|]. intros fd' _ Hp'. right. by apply Hf.
    + destruct (I8 _ _ Hk') as (chunks & Hs & Hno). exists chunks. split; [done|]. intros fd' Hfd' Hp'.
      destruct (Hno fd' Hfd' Hp') as [[H|H]|H]; [left; by left| |by right]. cbn in H. apply elem_of_cons in H as [->|H]; [|left; by right].
      unfold kind_at in Hfd'. cbn in Hfd'. rewrite Hfd in Hfd'. injection Hfd' as ->. done.
Qed.

Lemma core_closed L s fd e t d c k k' : core L (mk_state s ((fd, e) :: t)) -> fds s !! fd = Some d -> what d = Stream c ->
  conns s !! c = Some k -> gone k' = gone k -> arrived k' = arrived k ->
  (forall chunks, session chunks k -> session chunks (hang k')) ->
  core L (mk_state (closed fd d (set_conns (<[c := k']> (conns s)) s)) t).
Proof.
  intros [I1 I2 I3 I4 I5 I6 I8] Hfd Hd Hk Hg Ha Hs. cbn in *. apply NoDup_cons in I4 as [Hnt I4]. apply Forall_cons in I5 as [_ I5].
  assert (kind_at s fd = Some (Stream c)) as Hkd by (unfold kind_at; rewrite Hfd; cbn; by f_equal).
  assert (conns (closed fd d (set_conns (<[c := k']> (conns s)) s)) = <[c := hang k']> (conns s)) as Hc.
  { unfold closed, hang_up. cbn. rewrite Hd. apply map_eq. intros i. destruct (decide (i = c)) as [->|].
    - by rewrite lookup_alter_eq, !lookup_insert_eq.
    - by rewrite lookup_alter_ne, !lookup_insert_ne by done. }
  constructor; cbn [kernel todo]; rewrite ?Hc.
  - eapply table_closed; [|exact Hfd|exact Hd]. apply table_conns; [done..|]. by eapply gone_insert.
  - done.
  - intros c' k0. rewrite lookup_insert_Some. intros [[<- <-]|[_ H]]; [|by eapply I3]. cbn. rewrite Ha. apply (I3 _ _ Hk).
  - done.
  - revert I5. eapply other_events; [done|exact Hkd|done|cbn; set_solver|done| |exact Hc].
    intros fd' Hne. rewrite kind_at_closed, decide_False by done. done.
  - cbn. set_solver.
  - intros c' k0. rewrite lookup_insert_Some. intros [[<- <-]|[Hne Hk']].
    + destruct (I8 _ _ Hk) as (chunks & Hs0 & _). exists chunks. split; [by apply Hs|]. intros fd'. rewrite kind_at_closed.
      destruct (decide (fd = fd')); [done|]. intros Hfd' _. exfalso. by apply n, (tb_unique _ _ _ I1 _ _ c).
    + destruct (I8 _ _ Hk') as (chunks & Hs0 & Hno). exists chunks. split; [done|]. intros fd'. rewrite kind_at_closed.
      destruct (decide (fd = fd')) as [|Hnf]; [done|]. intros Hfd' Hp'.
      destruct (Hno fd' Hfd' Hp') as [[H|H]|H]; [left; left; cbn in *; set_solver| |by right]. cbn in H. apply elem_of_cons in H as [->|H]; [done|left; by right].
Qed.

Lemma session_end chunks k : session chunks k -> gone k = false -> pending k = [] -> session chunks (hang (answered k)).
Proof.
  intros [S1 S2 S3 S4 S5] Hg Hp. assert (bite k = []) as Hb by (unfold bite; by rewrite Hp, take_nil).
  constructor; rewrite ?broken_hang, ?broken_answered; unfold hang, answered; rewrite ?Hb; cbn; rewrite ?Nat.add_0_r; [done..| |].
  - destruct (broken k) eqn:Eb; [rewrite Hg, app_nil_r in S4; by apply prefix_app_r|]. by rewrite S5, Hg, app_nil_r by done.
  - intros Eb. by rewrite Eb, S5, Hg, app_nil_r by done.
Qed.
Lemma session_broken chunks k : session chunks k -> gone k = false -> broken k = true -> session chunks (hang k).
Proof.
  intros [S1 S2 S3 S4 S5] Hg Hb. constructor; rewrite ?broken_hang, ?Hb; cbn; [done..| |done].
  rewrite Hg, app_nil_r in S4. by apply prefix_app_r.
Qed.

Lemma event_bits e : negb (Z.land e POLLERR =? 0) || negb (Z.land e POLLHUP =? 0) = true ->
  ~ plain e.
Proof. unfold plain. destruct (Z.land e POLLERR =? 0) eqn:E1, (Z.land e POLLHUP =? 0) eqn:E2; cbn; zbool; naive_solver. Qed.
Lemma event_plain e : negb (Z.land e POLLERR =? 0) || negb (Z.land e POLLHUP =? 0) = false -> plain e.
Proof. unfold plain. destruct (Z.land e POLLERR =? 0) eqn:E1, (Z.land e POLLHUP =? 0) eqn:E2; cbn; zbool; done. Qed.

(** A turn for [fd] leaves every other connection that has a descriptor as it is. *)
Definition spares (fd : Z) (s s' : net) : Prop := forall fd' c', fd' <> fd -> kind_at s fd' = Some (Stream c') ->
  kind_at s' fd' = Some (Stream c') /\ conns s' !! c' = conns s !! c' /\ (fd' ∈ ready s' -> fd' ∈ ready s).

Lemma spares_admitted fd s0 s c b : spares fd s0 s -> spares fd s0 (admitted c b s).
Proof.
  intros H fd' c' Hne Hk. destruct (H _ _ Hne Hk) as (A & B & C). assert (lowest (dom (fds s)) <> fd') as Hn.
  { intros <-. rewrite kind_at_lowest in A. done. }
  rewrite kind_at_admitted, decide_False by done. split_and!; [done..|]. cbn. destruct (from_option _ _ _); set_solver.
Qed.
Lemma spares_conn L fd c s k : etable L s -> kind_at s fd = Some (Stream c) -> spares fd s (set_conns (<[c := k]> (conns s)) s).
Proof.
  intros HT Hk fd' c' Hne Hk'. split_and!; [done| |done]. cbn. apply lookup_insert_ne. intros <-. by apply Hne, (tb_unique _ _ _ HT _ _ c).
Qed.
Lemma spares_closed L fd c s d k : etable L s -> kind_at s fd = Some (Stream c) -> what d = Stream c ->
  spares fd s (closed fd d (set_conns (<[c := k]> (conns s)) s)).
Proof.
  intros HT Hk Hd fd' c' Hne Hk'. assert (c <> c') as Hc by (intros <-; by apply Hne, (tb_unique _ _ _ HT _ _ c)).
  rewrite kind_at_closed, decide_False by done. split_and!; [done| |cbn; set_solver].
  cbn. unfold hang_up. rewrite Hd, lookup_alter_ne, lookup_insert_ne by done. done.
Qed.

(** An event is handled without fault, and the invariant is kept. *)
Lemma turn_runs L s fd e t : inv L (mk_state s ((fd, e) :: t)) ->
  exists s', turn L (fd, e) s = Ok (inr tt, s') /\ inv L (mk_state s' t) /\ spares fd s s'.
Proof.
  intros [HC HW]. pose proof HC as [I1 I2 I3 I4 I5 I6 I8]. cbn [kernel todo fst fmap list_fmap] in *.
  apply NoDup_cons in I4 as [Hnt I4]. apply Forall_cons in I5 as [(Hi & Hr & Hin & Hh & Ho) I5]. cbn in Hi, Hr, Hin, Hh, Ho.
  unfold turn. assert (Z.land e POLLIN =? 0 = false) as -> by lia. rewrite orb_false_r.
  assert (forall s', backlog s' = backlog s -> ready s ∖ {[fd]} ⊆ ready s' -> fd <> L ->
    backlog s' <> [] -> noticed (mk_state s' t) L) as Hnext.
  { intros s' Hb Hrd HfL Hq. rewrite Hb in Hq. destruct (HW Hq) as [H|[H|H]%elem_of_cons]; cbn in *; [left; cbn; set_solver|congruence|by right]. }
  destruct (_ || _) eqn:Ebits.
  - specialize (Hh (event_bits _ Ebits)). unfold hung in Hh. fold (kind_at s fd) in Hh.
    destruct (fds s !! fd) as [d|] eqn:Efd; [|unfold kind_at in Hh; by rewrite Efd in Hh].
    assert (kind_at s fd = Some (what d)) as Hkd by (unfold kind_at; by rewrite Efd).
    rewrite Hkd in Hh. destruct (what d) as [| |c] eqn:Ed; [done..|]. destruct (conns s !! c) as [k|] eqn:Ek; [|done]. cbn in Hh.
    assert (gone k = false) as Hg by (apply (tb_gone _ _ _ I1 _ _ Ek); eauto).
    rewrite (xlift_run _ _ _ _ _ (close_run _ _ _ Efd)). exists (closed fd d s). split; [done|].
    assert (closed fd d s = closed fd d (set_conns (<[c := k]> (conns s)) s)) as Eq
      by (f_equal; unfold set_conns; rewrite insert_id by done; by destruct s).
    split; [split|].
    + rewrite Eq. eapply core_closed; [done..|]. intros chunks Hs. by apply session_broken.
    + cbn [kernel]. apply Hnext; [done|done|]. intros ->. rewrite (tb_listener _ _ _ I1) in Hkd. congruence.
    + rewrite Eq. by eapply spares_closed.
  - destruct (L =? fd) eqn:EL; zbool.
    + subst fd. destruct (handle_conn_ind (fun s' => core L (mk_state s' t) /\ spares L s s') L s) as (s' & E & HT & Ht & Hb & HP & HS); [|done|done| |].
      * intros s0 c b HT Ht Hb [HP HS]. split; [by apply core_admitted|by apply spares_admitted].
      * split; [by eapply core_listener|done].
      * exists s'. split; [done|]. split; [|done]. split; [done|]. cbn. by rewrite Hb.
    + apply (tb_watched _ _ _ I1) in Hi as [->|[c Hc]]; [done|]. destruct (tb_known _ _ _ I1 c) as [k Hk]; [eauto|].
      assert (gone k = false) as Hg by (apply (tb_gone _ _ _ I1 _ _ Hk); eauto).
      assert (stream_at s fd c k) as Hst by done. destruct (Ho (event_plain _ Ebits) _ _ Hc Hk) as [Hnews Hsd].
      destruct (decide (pending k = [])) as [Hp|Hp].
      * assert (finished k = true) as Hfin by (by destruct Hnews). assert (reset k = Whole) as Hwh by (destruct Hsd as [|[_ ?]]; congruence).
        destruct (fds s !! fd) as [d|] eqn:Efd; [|unfold kind_at in Hc; by rewrite Efd in Hc].
        assert (what d = Stream c) as Hd by (unfold kind_at in Hc; rewrite Efd in Hc; by injection Hc).
        unfold xlift. rewrite (bind_run _ _ _ _ _ (handle_client_end _ _ _ _ _ Hst Efd Hp Hfin Hwh)).
        eexists. split; [done|]. split; [split; [|apply Hnext; done]|by eapply spares_closed].
        eapply core_closed; [done..|]. intros chunks Hs. by apply session_end.
      * unfold xlift. rewrite (bind_run _ _ _ _ _ (handle_client_data _ _ _ _ Hst Hp (I3 _ _ Hk) Hsd)).
        eexists. split; [done|]. split; [split; [|apply Hnext; [done|cbn; set_solver|done]]|by eapply spares_conn].
        by eapply core_answered.
Qed.

(** ** Runs *)

(** A step after which no client has sent a text that is too long, and none that has finished
    sending has its connection reset between the report that there is something to read and
    the answer. *)
Definition courteous_step (L : Z) (st st' : state) : Prop :=
  step L st st' /\ (forall c k, conns (kernel st') !! c = Some k -> polite (arrived k)) /\
  (forall fd e c k, (fd, e) ∈ todo st' -> plain e -> kind_at (kernel st') fd = Some (Stream c) ->
     conns (kernel st') !! c = Some k -> finished k = true -> reset k = Whole).

Lemma epoll_inv_step L st st' : inv L st -> courteous_step L st st' -> inv L st'.
Proof.
  intros HI [Hstep [Hpol Htime]].
  destruct Hstep as [c s t Hc|c k x s t Hc Hf Hb Hx|c k s t Hc Hf Hb|c k s t Hc Hf|chosen s evs s' Hl _ E|[fd e] t s s' E]; cbn [kernel] in *.
  - by apply inv_connect.
  - eapply inv_stirred; [done|exact Hc|done|..]; cbn.
    + unfold conn_readable, pending. cbn. rewrite !orb_true_iff, !bool_decide_eq_true. intros [[H|H]|H]; [|by left; right|by right].
      left. left. rewrite drop_app. intros [H' _]%app_eq_nil. done.
    + done.
    + specialize (Hpol c). cbn in Hpol. rewrite lookup_alter_eq, Hc in Hpol. exact (Hpol _ eq_refl).
    + intros chunks [S1 S2 S3 S4 S5]. constructor; cbn; [|rewrite length_app; lia|done..]. by rewrite take_app_le by lia.
    + intros fd e _ _ _ [Hn Hs]. split; [|exact Hs]. destruct Hn as [Hn|Hn]; [left|by right]. unfold pending in *. cbn.
      rewrite drop_app. intros [H' _]%app_eq_nil. done.
  - eapply inv_stirred; [done|exact Hc|done|..]; cbn.
    + unfold conn_readable, pending. cbn. intros _. by rewrite orb_true_r.
    + done.
    + apply (in_polite _ _ (in_core _ _ HI) _ _ Hc).
    + intros chunks [S1 S2 S3 S4 S5]. by constructor.
    + intros fd e _ _ _ _. split; [by right|]. left. cbn. unfold broken in Hb. by apply bool_decide_eq_false, dec_stable in Hb.
  - eapply inv_stirred; [done|exact Hc|done|..]; cbn.
    + unfold conn_readable, pending. cbn. intros _. by rewrite orb_true_r.
    + done.
    + apply (in_polite _ _ (in_core _ _ HI) _ _ Hc).
    + intros chunks [S1 S2 S3 S4 S5]. by constructor.
    + intros fd e Hin He Hk [Hn Hs]. split; [exact Hn|]. right. split; [done|]. cbn. destruct (finished k) eqn:Hfi; [|done].
      pose proof (Htime fd e c) as Hw. cbn in Hw. rewrite lookup_alter_eq, Hc in Hw. specialize (Hw _ Hin He Hk eq_refl Hfi). done.
  - by eapply inv_wait.
  - destruct (turn_runs _ _ _ _ _ HI) as (s'' & E' & HI' & _). rewrite E in E'. by injection E' as ->.
Qed.

(** The process when it starts, and the server once it waits for events. *)
Definition start : net :=
  mk_net {[0 := mk_desc Plain 0; 1 := mk_desc Plain 0; 2 := mk_desc Plain 0]} [] ∅ ∅ ∅ [].
Definition listening_net : net :=
  mk_net {[0 := mk_desc Plain 0; 1 := mk_desc Plain 0; 2 := mk_desc Plain 0; 3 := mk_desc Listening O_NONBLOCK; 4 := mk_desc Plain 0]}
    [] ∅ {[3]} ∅ [].

Lemma epoll_main_start : main start = Ok (inr 3, listening_net).
Proof. vm_compute. reflexivity. Qed.

Lemma epoll_inv_start : inv 3 (mk_state listening_net []).
Proof.
  assert (map_Forall (fun fd d => (fd = 3 /\ what d = Listening) \/ what d = Plain) (fds listening_net)) as Hm by by_compute.
  assert (forall fd w, kind_at listening_net fd = Some w -> (fd = 3 /\ w = Listening) \/ w = Plain) as Hk.
  { intros fd w H. apply fmap_Some in H as (d & Hd & ->). by apply (map_Forall_lookup_1 _ _ _ _ Hm Hd). }
  assert (forall fd c, kind_at listening_net fd <> Some (Stream c)) as Hs by (intros fd c [[_ ?]|?]%Hk; done).
  split; [|done]. constructor; cbn [kernel todo]; [|done|done|constructor|constructor|set_solver|done]. constructor; cbn [interest backlog conns listening_net].
  - done.
  - intros fd [[? _]|?]%Hk; done.
  - intros fd. rewrite elem_of_singleton. split; [by left|]. intros [?|[c H]]; [done|by destruct (Hs fd c)].
  - intros fd d c Hd Hw. destruct (map_Forall_lookup_1 _ _ _ _ Hm Hd) as [[_ ?]|?]; congruence.
  - intros fd fd' c H. by destruct (Hs fd c).
  - constructor.
  - intros c fd []%elem_of_nil.
  - intros c [[]%elem_of_nil|[fd H]]. by destruct (Hs fd c).
  - done.
Qed.

Lemma reachable_inv L s st : main start = Ok (inr L, s) -> rtc (courteous_step L) (mk_state s []) st -> inv L st.
Proof.
  intros E Hr. rewrite epoll_main_start in E. injection E as <- <-.
  assert (forall a b, rtc (courteous_step 3) a b -> inv 3 a -> inv 3 b) as H; [|by apply (H _ _ Hr), epoll_inv_start].
  induction 1 as [|a b c Hab _ IH]; [done|]. intros Ha. apply IH. by eapply epoll_inv_step.
Qed.

(** ** Theorems *)


(** No connection attempt and no text is overlooked: while one waits, its descriptor is about
    to be handled or will be reported by the next [epoll_wait]; except for the rest of a text
    of which the server has just read exactly as much as its buffer holds. *)
Theorem epoll_notices_news L s st : main start = Ok (inr L, s) -> rtc (courteous_step L) (mk_state s []) st ->
  (backlog (kernel st) <> [] -> L ∈ ready (kernel st) \/ L ∈ (todo st).*1) /\
  (forall c k fd, conns (kernel st) !! c = Some k -> kind_at (kernel st) fd = Some (Stream c) -> pending k <> [] ->
     fd ∈ ready (kernel st) \/ fd ∈ (todo st).*1 \/
     exists chunks, concat chunks = take (taken k) (arrived k) /\ from_option length 0%nat (last chunks) = MAX_BUFF).
Proof.
  intros E Hr. pose proof (reachable_inv _ _ _ E Hr) as HI. split; [apply (in_waiting _ _ HI)|].
  intros c k fd Hk Hfd Hp. destruct (in_session _ _ (in_core _ _ HI) _ _ Hk) as (chunks & [S1 _ _ _ _] & Hn).
  destruct (Hn fd Hfd Hp) as [[H|H]|(x & Hx & Hl)]; [by left|by right; left|]. right. right. exists chunks. by rewrite Hx.
Qed.

(** What the client of connection [c] has done. *)
Definition view (c : nat) (st : state) : option (list Z * bool * bool) :=
  (fun k => (arrived k, finished k, broken k)) <$> conns (kernel st) !! c.

(** A connection without news stays as it is while its client does nothing. *)
Lemma unnoticed_step L st st' c k fd : inv L st -> courteous_step L st st' -> view c st = view c st' ->
  conns (kernel st) !! c = Some k -> kind_at (kernel st) fd = Some (Stream c) -> ~ noticed st fd ->
  conns (kernel st') !! c = Some k /\ kind_at (kernel st') fd = Some (Stream c) /\ ~ noticed st' fd.
Proof.
  intros HI [Hstep _] Hv Hk Hfd Hno. unfold noticed in *.
  assert (forall s t c' f, kernel st = s -> todo st = t -> c' <> c ->
    conns (stirred c' f s) !! c = Some k /\ kind_at (stirred c' f s) fd = Some (Stream c) /\
    ~ (fd ∈ ready (stirred c' f s) \/ fd ∈ t.*1)) as Hother.
  { intros s t c' f <- <- Hne. split_and!; [cbn; by rewrite lookup_alter_ne|done|]. cbn. intros [[[H _]%elem_of_watching|H]%elem_of_union|H]; [congruence|tauto..]. }
  destruct Hstep as [c' s t Hc|c' k' x s t Hc Hf Hb Hx|c' k' s t Hc Hf Hb|c' k' s t Hc Hf|chosen s evs s' Hl _ E|[fd' e] t s s' E]; cbn [kernel todo] in *.
  - split_and!; [cbn; rewrite lookup_insert_ne; congruence|done|]. cbn. intros [[[H _]%elem_of_watching|H]%elem_of_union|H]; [congruence|tauto..].
  - destruct (decide (c' = c)) as [->|Hne]; [|by apply Hother]. exfalso. unfold view, bytes_arrive in Hv. cbn in Hv.
    rewrite lookup_alter_eq, Hc in Hv. injection Hv as Hv. apply Hx. apply (app_inv_head (arrived k')). by rewrite app_nil_r.
  - destruct (decide (c' = c)) as [->|Hne]; [|by apply Hother]. exfalso. unfold view in Hv. cbn in Hv.
    rewrite lookup_alter_eq, Hc in Hv. cbn in Hv. injection Hv as Hv. congruence.
  - destruct (decide (c' = c)) as [->|Hne]; [|by apply Hother]. exfalso. unfold view in Hv. cbn in Hv.
    rewrite lookup_alter_eq, Hc in Hv. cbn in Hv. injection Hv as Hv. by rewrite Hf in Hv.
  - injection E as <- <-. split_and!; [done..|]. cbn. intros [H|H]; [set_solver|].
    apply list_elem_of_fmap in H as ([? ?] & -> & H). apply list_elem_of_fmap in H as (x & [= -> ->] & H).
    destruct Hl as (_ & _ & Hl). rewrite Forall_forall in Hl. destruct (Hl _ H). tauto.
  - destruct (turn_runs _ _ _ _ _ HI) as (s'' & E' & _ & HS). rewrite E in E'. injection E' as <-.
    destruct (HS fd c) as (A & B & C); [intros ->; apply Hno; right; by left|done|]. split_and!; [by rewrite B|done|].
    intros [H|H]; [tauto|]. apply Hno. right. by right.
Qed.

Lemma unnoticed_run L st st' c k fd : rtc (fun a b => courteous_step L a b /\ view c a = view c b) st st' -> inv L st ->
  conns (kernel st) !! c = Some k -> kind_at (kernel st) fd = Some (Stream c) -> ~ noticed st fd ->
  conns (kernel st') !! c = Some k /\ kind_at (kernel st') fd = Some (Stream c).
Proof.
  induction 1 as [|a b c' [Hab Hv] _ IH]; [done|]. intros HI Hk Hfd Hno.
  destruct (unnoticed_step _ _ _ _ _ _ HI Hab Hv Hk Hfd Hno) as (A & B & C). apply IH; [by eapply epoll_inv_step|done..].
Qed.

(** A client whose last text and whose end arrive before the server reads: the server answers
    one buffer of the text and then, as long as the client does nothing more, neither reads
    the rest nor closes the connection, however often it is woken up. *)
Theorem epoll_overlooks_end L s s0 t fd e s' c k st :
  main start = Ok (inr L, s) -> rtc (courteous_step L) (mk_state s []) (mk_state s0 ((fd, e) :: t)) ->
  kind_at s0 fd = Some (Stream c) -> conns s0 !! c = Some k -> fd ∉ ready s0 ->
  Z.land e POLLERR = 0 -> Z.land e POLLHUP = 0 -> finished k = true -> pending k <> [] ->
  turn L (fd, e) s0 = Ok (inr tt, s') ->
  rtc (fun a b => courteous_step L a b /\ view c a = view c b) (mk_state s' t) st ->
  conns (kernel st) !! c = Some (answered k) /\ kind_at (kernel st) fd = Some (Stream c).
Proof.
  intros Em Hr Hfd Hk Hnr He1 He2 Hf Hp E Hrun. pose proof (reachable_inv _ _ _ Em Hr) as HI.
  pose proof HI as [[I1 I2 I3 I4 I5 I6 I8] _]. cbn [kernel todo fst fmap list_fmap] in *.
  apply NoDup_cons in I4 as [Hnt _]. apply Forall_cons in I5 as [(_ & _ & Hin & _ & Ho) _]. cbn in Hin, Ho.
  destruct (turn_runs _ _ _ _ _ HI) as (s'' & E' & HI' & _). rewrite E in E'. injection E' as <-.
  unfold turn in E. rewrite He1, He2 in E. assert (Z.land e POLLIN =? 0 = false) as HinE by lia. rewrite HinE in E. cbn in E.
  assert (L =? fd = false) as HL by (apply Z.eqb_neq; intros ->; rewrite (tb_listener _ _ _ I1) in Hfd; done). rewrite HL in E.
  unfold xlift in E. rewrite (bind_run _ _ _ _ _ (handle_client_data fd c k s0 ltac:(done) Hp (I3 _ _ Hk) (proj2 (Ho (conj He1 He2) _ _ Hfd Hk)))) in E. injection E as <-.
  eapply unnoticed_run; [exact Hrun|done|cbn; apply lookup_insert_eq|exact Hfd|]. cbn. intros [H|H]; done.
Qed.

(** A text of more than 1010 bytes without a zero byte overruns the buffer of the answer. *)
Theorem epoll_long_text_overruns L fd c k s : stream_at s fd c k -> fd <> L ->
  (1010 < length (c_chars (take MAX_BUFF (pending k))))%nat -> turn L (fd, POLLIN) s = Err OutOfBounds.
Proof.
  intros Hk HL Hlong. unfold turn. change (negb (Z.land POLLIN POLLERR =? 0) || _ || _) with false. cbn match.
  assert (L =? fd = false) as -> by (apply Z.eqb_neq; congruence). unfold xlift. apply bind_err.
  eapply handle_client_overruns; [done|]. unfold bite. lia.
Qed.

(** A reset that comes too late for the report: a client that has finished sending breaks its
    connection off after the server was told that there is something to read. The answer
    raises SIGPIPE, which ends the server and all its connections. *)
Theorem epoll_late_reset_kills L fd c k s : stream_at s fd c k -> fd <> L -> polite (arrived k) ->
  finished k = true -> reset k = Whole ->
  turn L (fd, POLLIN) (peer_breaks c s) = Err Killed.
Proof.
  intros Hk HL Hpol Hf Hr. set (k' := mk_conn (arrived k) (taken k) (finished k) Reset_by_peer (outbox k) (gone k)).
  assert (stream_at (peer_breaks c s) fd c k') as Hk'.
  { destruct Hk as (A & B & C). split_and!; [done..|]. cbn. by rewrite lookup_alter_eq, C. }
  unfold turn. change (negb (Z.land POLLIN POLLERR =? 0) || _ || _) with false. cbn match.
  assert (L =? fd = false) as -> by (apply Z.eqb_neq; congruence). unfold xlift. apply bind_err. unfold handle_client.
  assert (forall k0 s0 bs, stream_at s0 fd c k0 -> reset k0 = Reset_by_peer -> finished k0 = true ->
    send fd bs s0 = Err Killed) as Hkill by (intros; eapply send_killed; eauto).
  destruct (decide (pending k' = [])) as [Hp|Hp].
  - rewrite (bind_run _ _ _ _ _ (read_end _ _ _ _ _ Hk' Hp (or_intror Hf))). unfold read_empty. cbn [finished k']. rewrite Hf.
    rewrite (bind_run _ _ _ (padded MAX_BUFF (answer [])) _) by (unfold lift; by rewrite (response_ok []) by (cbn; lia)).
    apply bind_err. by eapply Hkill.
  - rewrite (bind_run _ _ _ _ _ (read_data _ _ _ _ _ Hk' Hp)). fold (bite k'). destruct (bite k') as [|a x] eqn:Eb.
    { exfalso. unfold bite, MAX_BUFF in Eb. by destruct (pending k'). }
    rewrite <- Eb. rewrite (bind_run _ _ _ (padded MAX_BUFF (answer (bite k'))) _)
      by (unfold lift; by rewrite (response_ok _ (length_bite k') (polite_bite k' Hpol))).
    apply bind_err. by eapply Hkill; [apply (stream_at_insert _ _ _ _ _ Hk')|..].
Qed.

(** ** Examples *)

(** Steps between concrete states. *)
Definition small (s : net) : Prop := map_Forall (fun _ k => (length (arrived k) <= 1010)%nat /\ reset k = Whole) (conns s).
Lemma step_small L st st' : step L st st' -> small (kernel st') -> courteous_step L st st'.
Proof.
  intros H Hs. split_and!; [done|..].
  - intros c k Hk. apply polite_short. apply (Hs c k Hk).
  - intros fd e c k _ _ _ Hk _. apply (Hs c k Hk).
Qed.

(** A client connects, is accepted, sends a text and finishes; the server is told. *)
Definition demo_accepted : net := Eval vm_compute in
  match (evs ← epoll_wait [3]; turn 3 (3, POLLIN)) (connected 0 listening_net) with Ok (_, s) => s | Err _ => listening_net end.
Definition demo_told : net := Eval vm_compute in
  match epoll_wait [5] (peer_finishes 0 (bytes_arrive 0 [104; 105] demo_accepted)) with Ok (_, s) => s | Err _ => listening_net end.

Lemma demo_run : rtc (courteous_step 3) (mk_state listening_net []) (mk_state demo_told [(5, POLLIN)]).
Proof.
  eapply rtc_l; [apply step_small; [apply (StepConnect 3 0); reflexivity|by_compute]|].
  eapply rtc_l; [apply step_small; [eapply (StepWait 3 [3]); [by_compute|done|vm_compute; reflexivity]|by_compute]|].
  eapply rtc_l; [apply step_small; [eapply StepTurn; vm_compute; reflexivity|by_compute]|].
  eapply rtc_l; [apply step_small; [eapply (StepBytes 3 0 _ [104; 105]); [vm_compute; reflexivity|done..]|by_compute]|].
  eapply rtc_l; [apply step_small; [eapply (StepFinish 3 0); [vm_compute; reflexivity|done..]|by_compute]|].
  eapply rtc_l; [apply step_small; [eapply (StepWait 3 [5]); [by_compute|done|vm_compute; reflexivity]|by_compute]|].
  apply rtc_refl.
Qed.


Lemma epoll_notices_news_witness : 5 ∈ ready demo_told \/ 5 ∈ ([(5, POLLIN)] : list (Z * Z)).*1.
Proof.
  destruct (epoll_notices_news 3 listening_net _ epoll_main_start demo_run) as [_ A].
  destruct (A 0%nat (mk_conn [104; 105] 0 true Whole [] false) 5 eq_refl eq_refl ltac:(done)) as [H|[H|(chunks & H & Hl)]]; [by left|by right|].
  exfalso. destruct (last chunks) as [x|] eqn:E; [|done]. apply last_Some in E as [r ->]. cbn in H.
  rewrite concat_app in H. apply app_eq_nil in H as [_ H]. cbn in H, Hl. rewrite app_nil_r in H. by rewrite H in Hl.
Defined.

Lemma epoll_overlooks_end_witness : exists s', turn 3 (5, POLLIN) demo_told = Ok (inr tt, s') /\
  conns s' !! 0%nat = Some (answered (mk_conn [104; 105] 0 true Whole [] false)) /\ kind_at s' 5 = Some (Stream 0).
Proof.
  eexists. split; [vm_compute; reflexivity|].
  eapply (epoll_overlooks_end 3 listening_net demo_told [] 5 POLLIN _ 0 _ (mk_state _ []));
    [exact epoll_main_start|exact demo_run|reflexivity|reflexivity|by_compute|reflexivity|reflexivity|reflexivity|done|vm_compute; reflexivity|apply rtc_refl].
Defined.

Lemma epoll_late_reset_kills_witness : turn 3 (5, POLLIN) (peer_breaks 0 demo_told) = Err Killed.
Proof.
  apply (epoll_late_reset_kills 3 5 0 (mk_conn [104; 105] 0 true Whole [] false));
    [split_and!; reflexivity|done|apply polite_short; cbn; lia|done|done].
Defined.

Lemma epoll_long_text_overruns_witness :
  turn 3 (5, POLLIN) (bytes_arrive 0 (replicate 1011 65) demo_accepted) = Err OutOfBounds.
Proof.
  apply (epoll_long_text_overruns 3 5 0 (mk_conn (replicate 1011 65) 0 false Whole [] false)); [|done|by_compute].
  split_and!; [reflexivity|reflexivity|vm_compute; reflexivity].
Defined.
End Epoll.
