(* ===== verification/ThreadServer.v ===== *)
(** * The echo server with a thread for each port

    src/sock-thread-ctx-tcp: [Worker] runs the loop of the epoll server for one port. Unlike
    there, the loop after [epoll_wait] goes over the whole array of events and not only over
    those just reported. The handlers are those of the epoll server, with a log file for the
    terminal; the messages are left out. *)
From S2P Require Import Prelude CBase Sock EchoTable EchoServers.
From stdpp Require Import base numbers list gmap fin_sets.
Import Epoll.
Local Open Scope Z_scope.

Module Threads.

Definition thandle_conn (SOCKFD : Z) : ST net (Z + unit) := handle_conn SOCKFD.
Definition thandle_client (fd : Z) : ST net unit := handle_client fd.

(** [CLIENT_SOCKET[i]]: the descriptor and the events. *)
Definition worker_turn (SOCKFD : Z) (ev : Z * Z) : ST net (Z + unit) :=
  let '(fd, events) := ev in
  if negb (Z.land events POLLERR =? 0) || negb (Z.land events POLLHUP =? 0) || (Z.land events POLLIN =? 0) then
    _ <~ xlift (close fd); xret tt
  else if SOCKFD =? fd then thandle_conn SOCKFD
  else xlift (thandle_client fd).

(** [for (i = 0; i < MAX_CONN; i++)] *)
Fixpoint worker_turns (SOCKFD : Z) (CLIENT_SOCKET : list (Z * Z)) : ST net (Z + unit) :=
  match CLIENT_SOCKET with
  | [] => xret tt
  | ev :: evs => _ <~ worker_turn SOCKFD ev; worker_turns SOCKFD evs
  end.

(** One round of the loop of [Worker]: [epoll_wait] overwrites the front of the array. *)
Definition worker_pass (SOCKFD : Z) (CLIENT_SOCKET : list (Z * Z)) (chosen : list Z) : ST net (Z + list (Z * Z)) :=
  evs <~ xlift (epoll_wait chosen);
  let CLIENT_SOCKET := splice 0 evs CLIENT_SOCKET in
  _ <~ worker_turns SOCKFD CLIENT_SOCKET;
  xret CLIENT_SOCKET.

(** [Worker] up to its loop. The stream of the log file is used as soon as the socket was
    created, whether it could be opened or not. *)
Definition Worker : ST net (Z + (Z * list (Z * Z))) :=
  fp <~ xlift new_desc;
  SOCKFD <~ xlift new_desc;
  if fp =? -1 then stfail NullDeref else
  if SOCKFD =? -1 then exit EXIT_FAILURE else
  r <~ xlift outcome;
  if r <? 0 then exit EXIT_FAILURE else
  r <~ xlift outcome;
  if negb (r =? 0) then exit EXIT_FAILURE else
  r <~ xlift (make_socket_non_blocking SOCKFD);
  if r <? 0 then exit EXIT_FAILURE else
  r <~ xlift (listen SOCKFD);
  if negb (r =? 0) then exit EXIT_FAILURE else
  EPLFD <~ xlift new_desc;
  if EPLFD =? -1 then exit EXIT_FAILURE else
  r <~ xlift (epoll_ctl_add SOCKFD);
  if r <? 0 then exit EXIT_FAILURE else
  xret (SOCKFD, replicate MAX_CONN (0, 0)).

(** ** Proofs *)

Lemma worker_turns_app L a b s : worker_turns L (a ++ b) s = (_ <~ worker_turns L a; worker_turns L b) s.
Proof.
  revert s. induction a as [|ev a IH]; intros s; [done|]. cbn [app worker_turns]. run.
  destruct (worker_turn L ev s) as [[[status|[]] s']|e]; [done| |done]. rewrite IH. run. done.
Qed.

Lemma turn_zero L s : worker_turn L (0, 0) s = Ok (inr tt, match fds s !! 0 with Some d => closed 0 d s | None => s end).
Proof.
  unfold worker_turn. change (_ || _ || _) with true. cbn match. unfold close. run. by destruct (fds s !! 0).
Qed.
Lemma turn_zero_closes L s : exists s', worker_turn L (0, 0) s = Ok (inr tt, s') /\ fds s' !! 0 = None /\
  (fds s !! 0 = None -> s' = s).
Proof.
  rewrite turn_zero. eexists. split; [done|]. destruct (fds s !! 0) as [d|] eqn:E; [|done]. split; [|done]. cbn. by rewrite lookup_delete_eq.
Qed.
Lemma turns_cons L ev evs s s' : worker_turn L ev s = Ok (inr tt, s') -> worker_turns L (ev :: evs) s = worker_turns L evs s'.
Proof. intros E. cbn [worker_turns]. unfold xbind. by rewrite (bind_run _ _ _ _ _ E). Qed.
(** Entries that were never filled in. *)
Lemma turns_zero L n s : fds s !! 0 = None -> worker_turns L (replicate n (0, 0)) s = Ok (inr tt, s).
Proof.
  intros H. induction n as [|n IH]; [done|]. cbn [replicate worker_turns]. unfold xbind.
  destruct (turn_zero_closes L s) as (s' & E & _ & Hs). rewrite (bind_run _ _ _ _ _ E). by rewrite Hs.
Qed.

Lemma last_splice {A} (xs ys : list A) z : (length xs <= length ys)%nat -> last ys = Some z -> length xs <> length ys ->
  last (splice 0 xs ys) = Some z.
Proof.
  intros Hl Hz Hne. unfold splice. rewrite take_0. cbn [app]. rewrite last_app. cbn [Nat.add].
  rewrite <- (take_drop (length xs) ys), last_app in Hz. destruct (last (drop (length xs) ys)) eqn:E; [done|].
  apply last_None in E. apply (f_equal length) in E. rewrite length_drop in E. cbn in E. lia.
Qed.

(** The server in a state in which it waits: the socket listens, and descriptor 0 is closed. *)
Record waiting (L : Z) (s : net) : Prop := {
  wa_calm : trouble s = [];
  wa_listener : what <$> fds s !! L = Some Listening;
  wa_open : forall fd, fd ∈ interest s -> is_Some (fds s !! fd);
  wa_queue : backlog s = [];
  wa_zero : fds s !! 0 = None }.

Lemma admitted_listener L s c b : what <$> fds s !! L = Some Listening -> what <$> fds (admitted c b s) !! L = Some Listening.
Proof.
  intros H. change (kind_at (admitted c b s) L = Some Listening). rewrite kind_at_admitted, decide_False; [done|].
  intros E. pose proof (kind_at_lowest s) as Hn. unfold kind_at in Hn. rewrite E, H in Hn. done.
Qed.
Lemma accept_one L s c : trouble s = [] -> what <$> fds s !! L = Some Listening -> (forall fd, fd ∈ interest s -> is_Some (fds s !! fd)) ->
  backlog s = [c] -> handle_conn L s = Ok (inr tt, admitted c [] s).
Proof.
  intros W1 W2 W3 W4. unfold handle_conn. rewrite (xlift_run stget _ _ _ _ eq_refl). rewrite W4. cbn [length].
  rewrite conn_loop_admit with (b := []) (c := c) by done. cbn [conn_loop].
  by rewrite (xlift_run _ _ _ _ _ (accept_none (admitted c [] s) L W1 (admitted_listener L s c [] W2) eq_refl)).
Qed.

(** The loop also handles the entries of the array that [epoll_wait] did not fill in. As
    long as the last entry was never used, every round ends with descriptor 0 closed, whatever
    it was; and from then on a client that connects, which is given descriptor 0, is
    disconnected in the round that accepts it, with nothing read and nothing sent. *)
Theorem worker_drops_new_clients L : L <> 0 ->
  (forall arr chosen s arr' s', (length chosen < length arr)%nat -> last arr = Some (0, 0) ->
     worker_pass L arr chosen s = Ok (inr arr', s') -> fds s' !! 0 = None /\ last arr' = Some (0, 0) /\ length arr' = length arr) /\
  (forall ev s c, waiting L s -> conns s !! c = None -> L ∈ interest s ->
     exists s', worker_pass L (ev :: replicate 79 (0, 0)) [L] (connected c s) = Ok (inr ((L, POLLIN) :: replicate 79 (0, 0)), s') /\
       waiting L s' /\ conns s' !! c = Some (mk_conn [] 0 false Whole [] true)).
Proof.
  intros HL. split.
  - intros arr chosen s arr' s' Hlen Hlast E. unfold worker_pass in E.
    rewrite (xlift_run (epoll_wait chosen) _ s _ _ eq_refl) in E. cbn zeta in E. set (evs := (fun fd => (fd, events_of s fd)) <$> chosen) in E.
    assert (last (splice 0 evs arr) = Some (0, 0)) as Hl by (apply last_splice; [unfold evs; rewrite length_fmap; lia|done|unfold evs; rewrite length_fmap; lia]).
    assert (length (splice 0 evs arr) = length arr) as Hll by (apply length_splice; unfold evs; rewrite length_fmap; lia).
    apply last_Some in Hl as [front Hf]. rewrite Hf in *. revert E. unfold xbind at 1. unfold mbind, ST_bind. rewrite worker_turns_app.
    run. destruct (worker_turns L front _) as [[[status|[]] s1]|e]; [done| |done]. cbn [worker_turns].
    run. rewrite turn_zero. intros [= <- <-]. split; [|split; [apply last_snoc|done]].
    destruct (fds s1 !! 0) as [d|] eqn:E0; [cbn; by rewrite lookup_delete_eq|done].
  - intros ev s c HW Hc HiL. pose proof HW as [W1 W2 W3 W4 W5].
    assert (events_of (connected c s) L = POLLIN) as Hev.
    { unfold events_of, readable, hung. cbn. rewrite W2. rewrite W4. done. }
    set (s0 := set_ready (ready (connected c s) ∖ list_to_set [L]) (connected c s)).
    assert (worker_pass L (ev :: replicate 79 (0, 0)) [L] (connected c s) =
      (_ <~ worker_turns L ((L, POLLIN) :: replicate 79 (0, 0)); xret ((L, POLLIN) :: replicate 79 (0, 0))) s0) as ->.
    { unfold worker_pass. rewrite (xlift_run (epoll_wait [L]) _ _ _ _ eq_refl). cbn [fmap list_fmap]. by rewrite Hev. }
    assert (lowest (dom (fds s)) = 0) as Hlow by (apply lowest_zero, not_elem_of_dom; done).
    assert (worker_turn L (L, POLLIN) s0 = Ok (inr tt, admitted c [] s0)) as Ht.
    { unfold worker_turn. change (_ || _ || _) with false. cbn match. rewrite Z.eqb_refl.
      apply accept_one; [done..|]. cbn. by rewrite W4. }
    assert (worker_turns L ((L, POLLIN) :: replicate 79 (0, 0)) s0 =
      Ok (inr tt, closed 0 (mk_desc (Stream c) O_NONBLOCK) (admitted c [] s0))) as Hts.
    { rewrite (turns_cons _ _ _ _ _ Ht). change (replicate 79 (0, 0)) with ((0, 0) :: replicate 78 (0, 0)).
      rewrite (turns_cons _ _ _ _ _ (turn_zero _ _)). unfold admitted. cbn [fds]. change (fds s0) with (fds s).
      rewrite Hlow, lookup_insert_eq. apply turns_zero. cbn. by rewrite lookup_delete_eq. }
    unfold xbind. rewrite (bind_run _ _ _ _ _ Hts). eexists. split; [done|].
    unfold closed, admitted, hang_up. cbn [fds backlog conns interest ready trouble what]. change (fds s0) with (fds s).
    change (interest s0) with (interest s). change (conns s0) with (<[c := mk_conn [] 0 false Whole [] false]> (conns s)). rewrite Hlow.
    split; [constructor; cbn|].
    + done.
    + by rewrite lookup_delete_ne, lookup_insert_ne by done.
    + intros fd [[?%elem_of_singleton|Hin]%elem_of_union Hn%not_elem_of_singleton]%elem_of_difference; [done|].
      rewrite lookup_delete_ne, lookup_insert_ne by done. by apply W3.
    + done.
    + apply lookup_delete_eq.
    + cbn. by rewrite lookup_alter_eq, lookup_insert_eq.
Qed.

(** The server after its first client was accepted. *)
Definition demo_worker : net := Eval vm_compute in
  match Worker Epoll.start with
  | Ok (inr (L, arr), s) => match worker_pass L arr [L] (connected 0 s) with Ok (_, s') => s' | Err _ => s end
  | Ok (inl _, s) => s
  | Err _ => Epoll.start
  end.

Lemma worker_drops_new_clients_witness : exists s' , worker_pass 4 ((4, POLLIN) :: replicate 79 (0, 0)) [4] (connected 1 demo_worker) =
  Ok (inr ((4, POLLIN) :: replicate 79 (0, 0)), s') /\ conns s' !! 1%nat = Some (mk_conn [] 0 false Whole [] true).
Proof.
  destruct (worker_drops_new_clients 4 ltac:(done)) as [_ H]. destruct (H (4, POLLIN) demo_worker 1%nat) as (s' & E & _ & Hc).
  - constructor; [reflexivity|reflexivity| |reflexivity|reflexivity].
    assert (set_Forall (fun fd => is_Some (fds demo_worker !! fd)) (interest demo_worker)) as Hf by by_compute. exact Hf.
  - reflexivity.
  - by_compute.
  - exists s'. split; [exact E|exact Hc].
Defined.

End Threads.
