(* ===== verification/LevelServers.v ===== *)
(** * The echo servers on select and poll

    src/sock-select-tcp and src/sock-poll-tcp: servers that keep their clients in a table of
    slots and ask which of them can be read. A round is one turn of the loop. Messages and
    addresses are left out. *)
From S2P Require Import Prelude CBase Sock EchoTable.
From stdpp Require Import base numbers list gmap fin_sets.
Local Open Scope Z_scope.

Module Select.

Definition MAX_CONN : nat := 80.
Definition FD_SETSIZE : Z := 1024.

Definition FD_SET (fd : Z) (set : gset Z) : res (gset Z) :=
  if (0 <=? fd) && (fd <? FD_SETSIZE) then Ok ({[fd]} ∪ set) else Err OutOfBounds.

(** The loop that fills [readfds] and finds [max_sd]. *)
Fixpoint fill_set (client_socket : list Z) (readfds : gset Z) (max_sd : Z) : res (gset Z * Z) :=
  match client_socket with
  | [] => Ok (readfds, max_sd)
  | sd :: rest =>
      readfds ← (if 0 <? sd then FD_SET sd readfds else Ok readfds);
      fill_set rest readfds (if max_sd <? sd then sd else max_sd)
  end.

(** What [comm] does for one slot: the new value of the slot. *)
Definition comm_slot (readfds : gset Z) (sd : Z) : ST net Z :=
  if decide (sd ∈ readfds) then
    valread ← read sd MAX_BUFF;
    match valread with
    | inr [] => close sd;; mret 0
    | _ =>
        wbuff ← lift (response (match valread with inr bs => bs | inl _ => [] end));
        send sd (c_chars wbuff);;
        mret sd
    end
  else mret sd.
Fixpoint comm (readfds : gset Z) (client_socket : list Z) : ST net (list Z) :=
  match client_socket with
  | [] => mret []
  | sd :: rest => sd' ← comm_slot readfds sd; rest' ← comm readfds rest; mret (sd' :: rest')
  end.

(** A new connection: the slots, and whether the round goes on. *)
Definition new_conn (sockfd : Z) (client_socket : list Z) : ST net (Z + list Z * bool) :=
  r <~ xlift (accept sockfd);
  match r with
  | inl errno => exit EXIT_FAILURE
  | inr new_socket =>
      r <~ xlift (make_socket_non_blocking new_socket);
      if r <? 0 then xret (client_socket, false)
      else
        match list_find (fun sd => sd = 0) client_socket with
        | Some (i, _) => xret (<[i := new_socket]> client_socket, true)
        | None =>
            ok <~ xlift (close new_socket);
            if (ok : bool) then exit EXIT_FAILURE else xret (client_socket, true)
        end
  end.

(** One turn of the loop of [main]. *)
Definition pass (sockfd : Z) (client_socket : list Z) : ST net (Z + list Z) :=
  set <~ xlift (lift (FD_SET sockfd ∅));
  r <~ xlift (lift (fill_set client_socket set sockfd));
  activity <~ xlift (select (r.2 + 1) r.1);
  let readfds := activity.2 in
  n <~ (if decide (sockfd ∈ readfds) then new_conn sockfd client_socket else xret (client_socket, true));
  if n.2 then xlift (comm readfds n.1) else xret n.1.

(** [main] up to its loop. *)
Definition main : ST net (Z + (Z * list Z)) :=
  sockfd <~ xlift new_desc;
  if sockfd =? -1 then exit EXIT_FAILURE else
  r <~ xlift outcome;
  if r <? 0 then exit EXIT_FAILURE else
  r <~ xlift outcome;
  if negb (r =? 0) then exit EXIT_FAILURE else
  r <~ xlift (make_socket_non_blocking sockfd);
  if r <? 0 then exit EXIT_FAILURE else
  r <~ xlift (listen sockfd);
  if negb (r =? 0) then exit EXIT_FAILURE else
  xret (sockfd, replicate MAX_CONN 0).

(** ** One slot *)

(** What serving a connection does to it: bytes are answered, an end is taken note of. *)
Definition served (k : conn) : conn := if decide (pending k = []) then hang k else answered k.
Definition drained (s : net) (sd : Z) : bool :=
  match kind_at s sd with
  | Some (Stream c) => from_option (fun k => bool_decide (pending k = [])) false (conns s !! c)
  | _ => false
  end.
(** The slot after a round. *)
Definition slot_after (s : net) (rd : gset Z) (sd : Z) : Z := if decide (sd ∈ rd) then if drained s sd then 0 else sd else sd.

(** The server among well-behaved clients, looking after the descriptors [W]. *)
Record good (L : Z) (W : gset Z) (s : net) : Prop := {
  gd_table : table L W s;
  gd_calm : trouble s = [];
  gd_polite : forall c k, conns s !! c = Some k -> polite (arrived k) /\ reset k = Whole }.

Lemma comm_slot_data rd sd c k s : stream_at s sd c k -> sd ∈ rd -> pending k <> [] -> polite (arrived k) -> reset k = Whole ->
  comm_slot rd sd s = Ok (sd, set_conns (<[c := answered k]> (conns s)) s).
Proof.
  intros Hk Hin Hp Hpol Hr. unfold comm_slot. rewrite decide_True by done.
  rewrite (bind_run _ _ _ _ _ (read_data _ _ _ _ _ Hk Hp)). fold (bite k). destruct (bite k) as [|a x] eqn:Eb.
  { exfalso. unfold bite, MAX_BUFF in Eb. by destruct (pending k). }
  rewrite <- Eb. rewrite (bind_run _ _ _ (padded MAX_BUFF (answer (bite k))) _)
    by (unfold lift; by rewrite (response_ok _ (length_bite k) (polite_bite k Hpol))).
  rewrite c_chars_answer. erewrite bind_run by (eapply send_run; [apply (stream_at_insert _ _ _ _ _ Hk)|exact Hr]).
  unfold mret, ST_ret. do 2 f_equal. unfold set_conns, answered, broken. cbn. by rewrite insert_insert_eq, Hr.
Qed.
Lemma comm_slot_end rd sd d c k s : stream_at s sd c k -> fds s !! sd = Some d -> sd ∈ rd -> pending k = [] -> reset k = Whole -> finished k = true ->
  comm_slot rd sd s = Ok (0, closed sd d s).
Proof.
  intros Hk Hd Hin Hp Hb Hf. unfold comm_slot. rewrite decide_True by done.
  rewrite (bind_run _ _ _ _ _ (read_end _ _ _ _ _ Hk Hp (or_introl Hb))). unfold read_empty. rewrite Hf. by rewrite (bind_run _ _ _ _ _ (close_run _ _ _ Hd)).
Qed.

(** Changes that leave connection [c'] on [sd'] as it is. *)
Definition same_at (s s' : net) (sd : Z) : Prop :=
  kind_at s' sd = kind_at s sd /\ forall c, kind_at s sd = Some (Stream c) -> conns s' !! c = conns s !! c.

Lemma drained_same s s' sd : same_at s s' sd -> drained s' sd = drained s sd.
Proof. intros [Hk Hc]. unfold drained. rewrite Hk. destruct (kind_at s sd) as [[| |c]|]; [done..| |done]. by rewrite (Hc c eq_refl). Qed.
Lemma readable_same s s' sd : same_at s s' sd -> kind_at s sd <> Some Listening -> readable s' sd = readable s sd.
Proof.
  intros [Hk Hc] HL. unfold readable. fold (kind_at s sd) (kind_at s' sd). rewrite Hk.
  destruct (kind_at s sd) as [[| |c]|]; [done..| |done]. by rewrite (Hc c eq_refl).
Qed.

(** Serving one readable slot. *)
Lemma comm_slot_spec L W rd sd s : good L W s -> sd ∈ W -> sd <> L -> sd ∈ rd -> readable s sd = true ->
  exists s' c k, comm_slot rd sd s = Ok (slot_after s rd sd, s') /\
    good L (if drained s sd then W ∖ {[sd]} else W) s' /\ backlog s' = backlog s /\
    kind_at s sd = Some (Stream c) /\ conns s !! c = Some k /\ conns s' !! c = Some (served k) /\
    (forall c', c' <> c -> conns s' !! c' = conns s !! c') /\ (forall fd, fd <> sd -> kind_at s' fd = kind_at s fd) /\ fds s' ⊆ fds s.
Proof.
  intros [HT Ht Hpol] HW HL Hin Hr. apply (tb_watched _ _ _ HT) in HW as Hw. destruct Hw as [->|[c Hc]]; [done|].
  destruct (tb_known _ _ _ HT c) as [k Hk]; [eauto|]. destruct (Hpol _ _ Hk) as [Hp Hb].
  assert (stream_at s sd c k) as Hst by done. unfold slot_after. rewrite decide_True by done. unfold drained. rewrite Hc, Hk. cbn.
  unfold readable in Hr. fold (kind_at s sd) in Hr. rewrite Hc, Hk in Hr. cbn in Hr. unfold conn_readable, broken in Hr. rewrite Hb in Hr. cbn in Hr. rewrite orb_false_r in Hr.
  unfold served. destruct (decide (pending k = [])) as [E|E].
  - rewrite bool_decide_true by done. rewrite bool_decide_false in Hr by (intros H; done). cbn in Hr.
    destruct (fds s !! sd) as [d|] eqn:Efd; [|unfold kind_at in Hc; by rewrite Efd in Hc].
    assert (what d = Stream c) as Hd by (unfold kind_at in Hc; rewrite Efd in Hc; by injection Hc).
    assert (forall c', conns (closed sd d s) !! c' = if decide (c' = c) then Some (hang k) else conns s !! c') as Hcn.
    { intros c'. cbn. unfold hang_up. rewrite Hd. destruct (decide (c' = c)) as [->|]; [by rewrite lookup_alter_eq, Hk|by rewrite lookup_alter_ne]. }
    exists (closed sd d s), c, k. split_and!; [by eapply comm_slot_end| |done|done|done|by rewrite Hcn, !decide_True by done| | |apply delete_subseteq].
    + constructor; [by eapply table_closed|done|]. intros c' k'. rewrite Hcn. destruct (decide (c' = c)); [intros [= <-]; done|apply Hpol].
    + intros c' Hne. by rewrite Hcn, decide_False.
    + intros fd Hne. by rewrite kind_at_closed, decide_False.
  - rewrite bool_decide_false by done. exists (set_conns (<[c := answered k]> (conns s)) s), c, k.
    split_and!; [by eapply comm_slot_data| |done|done|done| |intros c' Hne; apply lookup_insert_ne; congruence|done|done].
    2:{ rewrite decide_False by done. apply lookup_insert_eq. }
    constructor; [apply table_conns; [done|]; by eapply gone_insert|done|].
    intros c' k'. cbn. rewrite lookup_insert_Some. intros [[<- <-]|[_ H]]; [|by eapply Hpol].
    split; [done|]. unfold answered, broken. by rewrite Hb.
Qed.

Lemma gone_slots (W : gset Z) s s1 rd sd arr : sd <> 0 -> sd ∈ rd -> (forall x, x ∈ arr -> slot_after s1 rd x = slot_after s rd x) ->
  W ∖ list_to_set (filter (fun x => x <> 0 /\ slot_after s rd x = 0) (sd :: arr)) =
  (if drained s sd then W ∖ {[sd]} else W) ∖ list_to_set (filter (fun x => x <> 0 /\ slot_after s1 rd x = 0) arr).
Proof.
  intros Hsd Hin Hsl.
  assert (filter (fun x => x <> 0 /\ slot_after s1 rd x = 0) arr = filter (fun x => x <> 0 /\ slot_after s rd x = 0) arr) as ->.
  { clear Hin. induction arr as [|x arr IH]; [done|]. assert (slot_after s1 rd x = slot_after s rd x) as Hx by (apply Hsl; left).
    rewrite !filter_cons, Hx, IH by (intros; apply Hsl; by right). done. }
  assert (slot_after s rd sd = if drained s sd then 0 else sd) as Hs by (unfold slot_after; by rewrite decide_True).
  destruct (drained s sd).
  - rewrite filter_cons_True by (by rewrite Hs). cbn. by rewrite difference_difference_l_L.
  - by rewrite filter_cons_False by (rewrite Hs; tauto).
Qed.

(** Serving every slot of a table. *)
Lemma comm_spec L rd arr W s : good L W s -> NoDup (filter (fun sd => sd <> 0) arr) -> 0 ∉ rd ->
  (forall sd, sd ∈ arr -> sd <> 0 -> sd ∈ W /\ sd <> L) -> (forall sd, sd ∈ arr -> sd ∈ rd -> readable s sd = true) ->
  exists s', comm rd arr s = Ok (slot_after s rd <$> arr, s') /\
    good L (W ∖ list_to_set (filter (fun sd => sd <> 0 /\ slot_after s rd sd = 0) arr)) s' /\ backlog s' = backlog s /\
    (forall fd, fd ∉ arr \/ fd ∉ rd -> kind_at s' fd = kind_at s fd) /\
    (forall sd c k, sd ∈ arr -> sd ∈ rd -> kind_at s sd = Some (Stream c) -> conns s !! c = Some k -> conns s' !! c = Some (served k)) /\
    (forall c, (forall sd, sd ∈ arr -> sd ∈ rd -> kind_at s sd <> Some (Stream c)) -> conns s' !! c = conns s !! c) /\ fds s' ⊆ fds s.
Proof.
  intros HG. revert W s HG. induction arr as [|sd arr IH]; intros W s HG Hnd H0 HW Hr.
  { exists s. cbn. split_and!; [done| |done|done|intros sd c k []%elem_of_nil|done|done]. by rewrite difference_empty_L. }
  cbn [comm]. destruct (decide (sd ∈ rd)) as [Hin|Hni].
  - assert (sd <> 0) as Hsd by congruence. destruct (HW sd ltac:(left) Hsd) as [HsW HsL].
    rewrite filter_cons_True in Hnd by done. apply NoDup_cons in Hnd as [Hnew Hnd].
    destruct (comm_slot_spec L W rd sd s HG HsW HsL Hin (Hr sd ltac:(left) Hin)) as (s1 & c & k & E & HG1 & Hb1 & Hc & Hk & Hk1 & Hoc & Hok & Hf1).
    rewrite (bind_run _ _ _ _ _ E). pose proof (gd_table _ _ _ HG) as HT.
    assert (forall x, x ∈ arr -> x <> 0 -> x <> sd) as Hne by (intros x Hx Hx0 ->; apply Hnew, list_elem_of_filter; done).
    assert (forall x, x ∈ arr -> same_at s s1 x) as Hsame.
    { intros x Hx. assert (x <> sd) as Hxs by (destruct (decide (x = 0)) as [->|]; [done|by apply Hne]).
      split; [by apply Hok|]. intros c' Hc'. apply Hoc. intros ->. by apply Hxs, (tb_unique _ _ _ HT _ _ c). }
    assert (forall x, x ∈ arr -> slot_after s1 rd x = slot_after s rd x) as Hslot.
    { intros x Hx. unfold slot_after. by rewrite (drained_same _ _ _ (Hsame x Hx)). }
    destruct (IH _ s1 HG1 Hnd H0) as (s2 & E2 & HG2 & Hb2 & Hk2 & Hs2 & Hu2 & Hf2).
    { intros x Hx Hx0. destruct (HW x ltac:(by right) Hx0) as [? ?]. specialize (Hne x Hx Hx0). destruct (drained s sd); set_solver. }
    { intros x Hx Hxr. assert (x <> 0) as Hx0 by congruence. destruct (HW x ltac:(by right) Hx0) as [HxW HxL].
      rewrite (readable_same s s1 x (Hsame x Hx)); [by apply Hr; [right|]|]. intros HxLs. by apply HxL, (tb_only _ _ _ HT). }
    rewrite (bind_run _ _ _ _ _ E2). exists s2. split_and!.
    + unfold mret, ST_ret. do 2 f_equal. cbn. f_equal. apply list_fmap_ext. intros i x Hx. apply Hslot. by eapply list_elem_of_lookup_2.
    + erewrite gone_slots; [exact HG2|done..].
    + by rewrite Hb2.
    + intros fd Hfd. rewrite Hk2 by (rewrite elem_of_cons in Hfd; tauto). apply Hok. rewrite elem_of_cons in Hfd. intros ->. tauto.
    + intros x c' k' [->|Hx]%elem_of_cons Hxr Hc' Hk'.
      * rewrite Hc in Hc'. injection Hc' as <-. rewrite Hk in Hk'. injection Hk' as <-. rewrite Hu2; [done|].
        intros x Hx Hxr' Hcx. destruct (Hsame x Hx) as [Hkx _]. rewrite Hkx in Hcx. assert (x <> 0) as Hx0 by congruence.
        by apply (Hne x Hx Hx0), (tb_unique _ _ _ HT _ _ c).
      * destruct (Hsame x Hx) as [Hkx Hcx]. eapply Hs2; [done|done|by rewrite Hkx|]. by rewrite (Hcx c').
    + intros c' Hno. rewrite Hu2.
      * apply Hoc. intros ->. by apply (Hno sd ltac:(left) Hin).
      * intros x Hx Hxr. destruct (Hsame x Hx) as [-> _]. apply Hno; [by right|done].
    + by trans (fds s1).
  - assert (comm_slot rd sd s = Ok (sd, s)) as E by (unfold comm_slot; by rewrite decide_False).
    rewrite (bind_run _ _ _ _ _ E). destruct (IH W s HG) as (s2 & E2 & HG2 & Hb2 & Hk2 & Hs2 & Hu2 & Hf2).
    { destruct (decide (sd = 0)) as [->|]; [by rewrite filter_cons_False in Hnd by tauto|].
      rewrite filter_cons_True in Hnd by done. by apply NoDup_cons in Hnd as [_ ?]. }
    { done. } { intros x Hx. apply HW. by right. } { intros x Hx. apply Hr. by right. }
    assert (slot_after s rd sd = sd) as Hsl by (unfold slot_after; by rewrite decide_False).
    rewrite (bind_run _ _ _ _ _ E2). exists s2. split_and!; [|  |done| | | |done].
    + cbn. by rewrite Hsl.
    + rewrite filter_cons_False by (rewrite Hsl; tauto). done.
    + intros fd Hfd. apply Hk2. rewrite elem_of_cons in Hfd. tauto.
    + intros x c k [->|Hx]%elem_of_cons Hxr; [done|by apply Hs2].
    + intros c Hno. apply Hu2. intros x Hx. apply Hno. by right.
Qed.

(** ** A round *)

Definition attended (L : Z) (arr : list Z) : gset Z := {[L]} ∪ list_to_set (filter (fun sd => sd <> 0) arr).

(** The server between two rounds: its slots are exactly the clients it has accepted and not
    closed, and standard input is open. *)
Record serving (L : Z) (arr : list Z) (s : net) : Prop := {
  sv_good : good L (attended L arr) s;
  sv_distinct : NoDup (filter (fun sd => sd <> 0) arr);
  sv_stdin : kind_at s 0 = Some Plain;
  sv_range : forall fd, is_Some (fds s !! fd) -> 0 <= fd < FD_SETSIZE;
  sv_listener : L ∉ arr }.

Lemma elem_of_attended L arr fd : fd ∈ attended L arr <-> fd = L \/ (fd <> 0 /\ fd ∈ arr).
Proof. unfold attended. by rewrite elem_of_union, elem_of_singleton, elem_of_list_to_set, list_elem_of_filter. Qed.

Lemma fill_set_spec arr set m : (forall sd, sd ∈ arr -> 0 <= sd < FD_SETSIZE) ->
  exists m', fill_set arr set m = Ok (set ∪ list_to_set (filter (fun sd => sd <> 0) arr), m') /\ m <= m' /\ forall sd, sd ∈ arr -> sd <= m'.
Proof.
  revert set m. induction arr as [|sd arr IH]; intros set m Hr.
  - exists m. cbn. rewrite union_empty_r_L. split_and!; [done|done|intros sd []%elem_of_nil].
  - assert (0 <= sd < FD_SETSIZE) as Hsd by (apply Hr; left). cbn [fill_set].
    assert ((if 0 <? sd then FD_SET sd set else Ok set) = Ok (if decide (sd <> 0) then {[sd]} ∪ set else set)) as ->.
    { unfold FD_SET. destruct (decide (sd <> 0)) as [Hn|Hn]; destruct (0 <? sd) eqn:E; zbool; [|lia|lia|done].
      destruct (0 <=? sd) eqn:E1, (sd <? FD_SETSIZE) eqn:E2; zbool; done || lia. }
    rewrite rbind_ok. destruct (IH (if decide (sd <> 0) then {[sd]} ∪ set else set) (if m <? sd then sd else m)) as (m' & E & Hm & Hall).
    { intros x Hx. apply Hr. by right. }
    exists m'. rewrite E. split_and!.
    + do 2 f_equal. rewrite filter_cons. destruct (decide (sd <> 0)) as [|]; [|done]. cbn. set_solver.
    + destruct (m <? sd) eqn:E1; zbool; lia.
    + intros x [->|Hx]%elem_of_cons; [|by apply Hall]. destruct (m <? sd) eqn:E1; zbool; lia.
Qed.

Lemma nodup_slots s rd arr : NoDup (filter (fun sd => sd <> 0) arr) ->
  NoDup (filter (fun sd => sd <> 0) (slot_after s rd <$> arr)).
Proof.
  assert (forall x, slot_after s rd x = 0 \/ slot_after s rd x = x) as Hs.
  { intros x. unfold slot_after. destruct (decide (x ∈ rd)), (drained s x); tauto. }
  induction arr as [|sd arr IH]; intros H; [done|]. rewrite fmap_cons. rewrite filter_cons in H |- *.
  assert (NoDup (filter (fun sd => sd <> 0) (slot_after s rd <$> arr))) as HIH.
  { apply IH. destruct (decide (sd <> 0)); [by apply NoDup_cons in H as [_ ?]|done]. }
  destruct (decide (slot_after s rd sd <> 0)) as [Hn|]; [|done]. destruct (Hs sd) as [?|E]; [done|]. rewrite E in *.
  rewrite decide_True in H by done. apply NoDup_cons in H as [Hni _]. apply NoDup_cons. split; [|done].
  rewrite !list_elem_of_filter in *. intros [_ Hin]. apply Hni. split; [done|]. apply list_elem_of_fmap in Hin as (x & -> & Hx).
  by destruct (Hs x) as [?| ->].
Qed.

Lemma serving_slot L arr s sd : serving L arr s -> sd ∈ arr -> 0 <= sd < FD_SETSIZE.
Proof.
  intros HS Hin. destruct (decide (sd = 0)) as [->|Hn]; [done|]. apply (sv_range _ _ _ HS).
  apply (table_open _ _ _ _ (gd_table _ _ _ (sv_good _ _ _ HS))). apply elem_of_attended. tauto.
Qed.
Lemma serving_L L arr s : serving L arr s -> L <> 0.
Proof. intros HS ->. pose proof (tb_listener _ _ _ (gd_table _ _ _ (sv_good _ _ _ HS))) as H. by rewrite (sv_stdin _ _ _ HS) in H. Qed.

(** A round of answers keeps the slots in order. *)
Lemma comm_serving L rd arr s : serving L arr s -> 0 ∉ rd -> (forall sd, sd ∈ arr -> sd ∈ rd -> readable s sd = true) ->
  exists s', comm rd arr s = Ok (slot_after s rd <$> arr, s') /\ serving L (slot_after s rd <$> arr) s' /\ backlog s' = backlog s /\
    (forall sd c k, sd ∈ arr -> sd ∈ rd -> kind_at s sd = Some (Stream c) -> conns s !! c = Some k -> conns s' !! c = Some (served k)) /\
    (forall c, (forall sd, sd ∈ arr -> sd ∈ rd -> kind_at s sd <> Some (Stream c)) -> conns s' !! c = conns s !! c).
Proof.
  intros HS H0 Hr. pose proof (serving_L _ _ _ HS) as HL. pose proof HS as [S1 S2 S3 S4 S5].
  destruct (comm_spec L rd arr _ s S1 S2 H0) as (s' & E & HG & Hb & Hk & Hs & Hu & Hf); [|done|].
  { intros sd Hin Hn. split; [apply elem_of_attended; tauto|]. intros ->. done. }
  exists s'. split_and!; [done| |done..]. constructor.
  - replace (attended L (slot_after s rd <$> arr)) with
      (attended L arr ∖ list_to_set (filter (fun sd => sd <> 0 /\ slot_after s rd sd = 0) arr)); [done|].
    apply set_eq. intros x. rewrite elem_of_difference, !elem_of_attended, elem_of_list_to_set, list_elem_of_filter, list_elem_of_fmap.
    assert (forall y, slot_after s rd y <> 0 -> slot_after s rd y = y) as Hsl.
    { intros y. unfold slot_after. destruct (decide (y ∈ rd)), (drained s y); done. }
    split.
    + intros [[->|[Hn Hin]] Hng]; [by left|right]. split; [done|]. exists x. split; [|done]. symmetry. apply Hsl. tauto.
    + intros [->|[Hn (y & Hy & Hin)]]; [split; [by left|]; intros [_ ?]; done|]. assert (slot_after s rd y = y) as Hyy by (apply Hsl; congruence).
      rewrite Hyy in Hy. subst y. split; [by right|]. intros [[_ ?] _]. congruence.
  - by apply nodup_slots.
  - rewrite Hk by (by right). done.
  - intros fd Hfd. apply S4. destruct Hfd as [d Hd]. exists d. by eapply lookup_weaken.
  - intros (y & Hy & Hin)%list_elem_of_fmap. unfold slot_after in Hy. destruct (decide (y ∈ rd)), (drained s y); congruence.
Qed.

Lemma nodup_fill arr i n : arr !! i = Some 0 -> n <> 0 -> n ∉ arr -> NoDup (filter (fun sd => sd <> 0) arr) ->
  NoDup (filter (fun sd => sd <> 0) (<[i := n]> arr)).
Proof.
  intros Hi Hn Hna Hnd. pose proof (take_drop_middle _ _ _ Hi) as Harr. pose proof (lookup_lt_Some _ _ _ Hi) as Hlt.
  assert (<[i := n]> arr = take i arr ++ n :: drop (S i) arr) as -> by (apply insert_take_drop; done).
  rewrite <- Harr in Hnd, Hna. rewrite filter_app in Hnd |- *. rewrite filter_cons_False in Hnd by tauto. rewrite filter_cons_True by done.
  rewrite <- Permutation_middle. apply NoDup_cons. split; [|done]. rewrite <- filter_app, list_elem_of_filter. intros [_ H].
  apply Hna. rewrite elem_of_app, elem_of_cons in *. tauto.
Qed.

(** A new client in a free slot. *)
Lemma accept_serving L arr s c b i : serving L arr s -> backlog s = c :: b -> arr !! i = Some 0 -> lowest (dom (fds s)) < FD_SETSIZE ->
  serving L (<[i := lowest (dom (fds s))]> arr) (accepted c b s) /\ lowest (dom (fds s)) <> 0 /\ lowest (dom (fds s)) ∉ arr.
Proof.
  intros HS Hb Hi Hlow. pose proof HS as [S1 S2 S3 S4 S5]. pose proof (lowest_fresh (dom (fds s))) as Hfresh.
  pose proof (lowest_nonneg (dom (fds s))) as Hnn. pose proof (kind_at_lowest s) as Hkl. set (n := lowest (dom (fds s))) in *.
  assert (n <> 0) as Hn0 by (intros E; rewrite E, S3 in Hkl; done).
  assert (n ∉ arr) as Hna.
  { intros Hin. assert (n ∈ attended L arr) as Ha by (apply elem_of_attended; tauto).
    apply (table_open _ _ _ _ (gd_table _ _ _ S1)) in Ha. by apply Hfresh, elem_of_dom. }
  assert (n <> L) as HnL by (intros E; rewrite E, (tb_listener _ _ _ (gd_table _ _ _ S1)) in Hkl; done).
  assert (forall x, x ∈ <[i := n]> arr <-> x = n \/ (x ∈ arr /\ exists j, j <> i /\ arr !! j = Some x)) as Hin.
  { intros x. rewrite list_elem_of_lookup. split.
    - intros [j Hj]. apply list_lookup_insert_Some in Hj as [(-> & -> & _)|[Hne Hj]]; [by left|right].
      split; [by eapply list_elem_of_lookup_2|]. exists j. split; [congruence|done].
    - intros [->|[_ (j & Hne & Hj)]]; [exists i; apply list_lookup_insert_eq; by eapply lookup_lt_Some|].
      exists j. by rewrite list_lookup_insert_ne. }
  split; [|done]. constructor.
  - replace (attended L (<[i := n]> arr)) with ({[n]} ∪ attended L arr).
    + constructor; [by apply table_accepted; [apply S1|]|apply S1|apply S1].
    + apply set_eq. intros x. rewrite elem_of_union, elem_of_singleton, !elem_of_attended, Hin. split.
      * intros [->|[->|[Hx Hxa]]]; [right; split; [done|by left]|by left|right]. split; [done|]. right. split; [done|].
        apply list_elem_of_lookup in Hxa as [j Hj]. exists j. split; [intros ->; congruence|done].
      * intros [->|[Hx [->|[Hxa _]]]]; tauto.
  - by apply nodup_fill.
  - change (kind_at (accepted c b s) 0 = Some Plain). rewrite kind_at_accepted, decide_False by done. done.
  - intros fd [d Hd]. unfold accepted in Hd. cbn in Hd. fold n in Hd. apply lookup_insert_Some in Hd as [[<- _]|[_ Hd]]; [lia|]. apply S4. eauto.
  - rewrite Hin. intros [?|[? _]]; congruence.
Qed.

(** The descriptors [select] reports. *)
Definition reported (L : Z) (arr : list Z) (s : net) : gset Z := filter (fun fd => readable s fd = true) (attended L arr).

Lemma pass_reports L arr s : serving L arr s -> pass L arr s =
  (n <~ (if decide (L ∈ reported L arr s) then new_conn L arr else xret (arr, true));
   if n.2 then xlift (comm (reported L arr s) n.1) else xret n.1) s.
Proof.
  intros HS. pose proof HS as [S1 S2 S3 S4 S5]. pose proof (tb_listener _ _ _ (gd_table _ _ _ S1)) as HLs.
  assert (0 <= L < FD_SETSIZE) as HL by (apply S4; unfold kind_at in HLs; destruct (fds s !! L); [eauto|done]).
  unfold pass. assert (FD_SET L ∅ = Ok ({[L]} ∪ ∅)) as ->.
  { unfold FD_SET. destruct (0 <=? L) eqn:E1, (L <? FD_SETSIZE) eqn:E2; zbool; done || lia. }
  rewrite xlift_lift. destruct (fill_set_spec arr ({[L]} ∪ ∅) L) as (m & E & Hm & Hall).
  { intros sd. by apply (serving_slot L arr s). }
  rewrite E. rewrite xlift_lift. cbn [fst snd]. rewrite union_empty_r_L. fold (attended L arr).
  assert (select (m + 1) (attended L arr) s = Ok ((Z.of_nat (base.size (reported L arr s)), reported L arr s), s)) as Es.
  { unfold select. rewrite (bind_run _ _ _ _ _ (failing_none s (gd_calm _ _ _ S1))). run.
    assert (filter (fun fd => fd < m + 1 /\ readable s fd = true) (attended L arr) = reported L arr s) as ->; [|done].
    apply set_eq. intros x. unfold reported. rewrite !elem_of_filter, elem_of_attended. split; [tauto|]. intros [Hr Hx]. split; [|done].
    split; [|done]. destruct Hx as [->|[_ Hx]]; [lia|]. specialize (Hall x Hx). lia. }
  by rewrite (xlift_run _ _ _ _ _ Es).
Qed.

Lemma listener_reported L arr s : serving L arr s -> L ∈ reported L arr s <-> backlog s <> [].
Proof.
  intros [S1 _ _ _ _]. unfold reported. rewrite elem_of_filter, elem_of_attended. unfold readable.
  pose proof (tb_listener _ _ _ (gd_table _ _ _ S1)) as H. unfold kind_at in H. rewrite H, bool_decide_eq_true. tauto.
Qed.
Lemma zero_reported L arr s : serving L arr s -> 0 ∉ reported L arr s.
Proof. intros HS. pose proof (serving_L _ _ _ HS). unfold reported. rewrite elem_of_filter, elem_of_attended. intros [_ [?|[? _]]]; congruence. Qed.

(** The client of a slot, and whether it is reported. *)
Lemma stream_reported L arr s fd c k : serving L arr s -> kind_at s fd = Some (Stream c) -> conns s !! c = Some k ->
  fd ∈ arr /\ fd <> 0 /\ fd <> L /\ (fd ∈ reported L arr s <-> conn_readable k = true).
Proof.
  intros [S1 _ S3 _ _] Hfd Hk. pose proof (gd_table _ _ _ S1) as HT.
  assert (fd ∈ attended L arr) as Ha by (apply (tb_watched _ _ _ HT); eauto).
  assert (fd <> L) as HL by (intros ->; rewrite (tb_listener _ _ _ HT) in Hfd; done).
  pose proof (proj1 (elem_of_attended _ _ _) Ha) as [?|[? ?]]; [done|]. split_and!; [done..|].
  unfold reported. rewrite elem_of_filter. unfold readable. fold (kind_at s fd). rewrite Hfd, Hk. cbn. tauto.
Qed.

(** What a round does to the connections, given what it does to those in slots. *)
Lemma round_conns L arr s s1 (arr1 : list Z) s' : serving L arr s -> conns s1 = conns s ->
  (forall fd c, kind_at s fd = Some (Stream c) -> kind_at s1 fd = Some (Stream c) /\ fd ∈ arr1) ->
  (forall fd, fd ∈ reported L arr s -> fd ∈ arr1 -> exists c, kind_at s fd = Some (Stream c)) ->
  (forall sd c k, sd ∈ arr1 -> sd ∈ reported L arr s -> kind_at s1 sd = Some (Stream c) -> conns s1 !! c = Some k -> conns s' !! c = Some (served k)) ->
  (forall c, (forall sd, sd ∈ arr1 -> sd ∈ reported L arr s -> kind_at s1 sd <> Some (Stream c)) -> conns s' !! c = conns s1 !! c) ->
  (forall c k fd, conns s !! c = Some k -> kind_at s fd = Some (Stream c) -> conns s' !! c = Some (if conn_readable k then served k else k)) /\
  (forall c k, conns s !! c = Some k -> (forall fd, kind_at s fd <> Some (Stream c)) -> conns s' !! c = Some k).
Proof.
  intros HS Hc Hk Ha Hs Hu. pose proof (gd_table _ _ _ (sv_good _ _ _ HS)) as HT.
  assert (forall sd c, sd ∈ arr1 -> sd ∈ reported L arr s -> kind_at s1 sd = Some (Stream c) -> kind_at s sd = Some (Stream c)) as Hback.
  { intros sd c Hin Hrd Hsd. destruct (Ha sd Hrd Hin) as [c' Hc']. destruct (Hk _ _ Hc') as [H _]. congruence. }
  split.
  - intros c k fd Hck Hfd. destruct (stream_reported _ _ _ _ _ _ HS Hfd Hck) as (_ & _ & _ & Hrep). destruct (Hk _ _ Hfd) as [Hk1 Hin].
    destruct (conn_readable k) eqn:Er; [apply (Hs fd); [done|by apply Hrep|done|by rewrite Hc]|].
    rewrite Hu, Hc; [done|]. intros sd Hsd Hrd Hsc. specialize (Hback _ _ Hsd Hrd Hsc).
    assert (sd = fd) as -> by (by apply (tb_unique _ _ _ HT _ _ c)). apply Hrep in Hrd. congruence.
  - intros c k Hck Hno. rewrite Hu, Hc; [done|]. intros sd Hsd Hrd Hsc. by apply (Hno sd), Hback.
Qed.

Lemma accept_then {A} L s c b (f : Z -> ST net (Z + A)) (g : Z -> ST net (Z + A)) : trouble s = [] -> kind_at s L = Some Listening -> backlog s = c :: b ->
  (r <~ xlift (accept L);
   match r with
   | inl _ => exit EXIT_FAILURE
   | inr n => r <~ xlift (make_socket_non_blocking n); if r <? 0 then g n else f n
   end) s = f (lowest (dom (fds s))) (accepted c b s).
Proof.
  intros Ht HL Hb. rewrite (xlift_run _ _ _ _ _ (accept_run _ _ _ _ Ht HL Hb)).
  erewrite xlift_run by (apply nonblock_run; [done|cbn; apply lookup_insert_eq]). change (0 <? 0) with false. cbn match.
  f_equal. unfold accepted, set_fds, set_backlog. cbn. by rewrite insert_insert_eq.
Qed.

(** ** Runs *)

(** Clients connect, send polite texts and finish; the server goes round. *)
Inductive step (L : Z) : list Z * net -> list Z * net -> Prop :=
  | StepConnect c arr s : conns s !! c = None -> step L (arr, s) (arr, connected c s)
  | StepBytes c k x arr s : conns s !! c = Some k -> polite (arrived k ++ x) -> step L (arr, s) (arr, bytes_arrive c x s)
  | StepFinish c k arr s : conns s !! c = Some k -> step L (arr, s) (arr, peer_finishes c s)
  | StepRound arr s arr' s' : lowest (dom (fds s)) < FD_SETSIZE -> pass L arr s = Ok (inr arr', s') -> step L (arr, s) (arr', s').

Lemma serving_stirred L arr s c k f : serving L arr s -> conns s !! c = Some k ->
  (forall k, gone (f k) = gone k) -> polite (arrived (f k)) -> reset (f k) = reset k -> serving L arr (stirred c f s).
Proof.
  intros [[S1 St Sp] S2 S3 S4 S5] Hc Hg Hp Hb. constructor; [|done..]. constructor; [|done|].
  - apply table_conns; [done|]. by apply gone_alter.
  - intros c' k'. cbn. rewrite lookup_alter_Some. intros [(<- & k0 & Hk0 & ->)|[_ H]]; [|by eapply Sp].
    rewrite Hc in Hk0. injection Hk0 as <-. split; [done|]. rewrite Hb. by eapply Sp.
Qed.

(** The states from which no round has to turn a client away. *)
Definition has_room (arr : list Z) (s : net) : Prop := backlog s = [] \/ 0 ∈ arr.

(** A round of a server with room. *)
Lemma round_serves L arr s : serving L arr s -> lowest (dom (fds s)) < FD_SETSIZE -> has_room arr s ->
  exists arr' s', pass L arr s = Ok (inr arr', s') /\ serving L arr' s' /\ backlog s' = tail (backlog s) /\
    (forall c k fd, conns s !! c = Some k -> kind_at s fd = Some (Stream c) -> conns s' !! c = Some (if conn_readable k then served k else k)) /\
    (forall c k, conns s !! c = Some k -> (forall fd, kind_at s fd <> Some (Stream c)) -> conns s' !! c = Some k).
Proof.
  intros HS Hlow Hfree. unfold has_room in Hfree. rewrite (pass_reports _ _ _ HS). pose proof HS as [S1 S2 S3 S4 S5]. pose proof (gd_table _ _ _ S1) as HT.
  destruct (backlog s) as [|c b] eqn:Hb.
  - rewrite decide_False by (rewrite (listener_reported _ _ _ HS), Hb; tauto).
    destruct (comm_serving L (reported L arr s) arr s HS (zero_reported _ _ _ HS)) as (s' & E & HS' & Hb' & Hs & Hu).
    { intros sd _ Hr. by apply elem_of_filter in Hr as [? _]. }
    exists (slot_after s (reported L arr s) <$> arr), s'. unfold xbind. rewrite (bind_run _ _ _ (inr (arr, true)) s) by done. cbn [snd fst].
    unfold xlift. rewrite (bind_run _ _ _ _ _ E). destruct (round_conns L arr s s arr s' HS eq_refl) as [HA HB];
      [| |done|done|split_and!; [done|done|by rewrite Hb', Hb|done|done]].
    + intros fd c Hfd. split; [done|]. destruct (tb_known _ _ _ HT c) as [k Hk]; [eauto|]. by destruct (stream_reported _ _ _ _ _ _ HS Hfd Hk).
    + intros fd [_ Ha]%elem_of_filter Hin. apply (tb_watched _ _ _ HT) in Ha as [->|?]; done.
  - destruct Hfree as [?|Hfree]; [done|]. apply list_elem_of_lookup in Hfree as [i0 Hi0].
    destruct (list_find (fun sd => sd = 0) arr) as [[i x]|] eqn:Ef.
    2:{ apply list_find_None in Ef. rewrite Forall_forall in Ef. exfalso. by apply (Ef 0); [eapply list_elem_of_lookup_2|]. }
    apply list_find_Some in Ef as Ef'. destruct Ef' as (Hi & -> & _).
    destruct (accept_serving L arr s c b i HS Hb Hi Hlow) as (HS1 & Hn0 & Hna). set (n := lowest (dom (fds s))) in *.
    rewrite decide_True by (rewrite (listener_reported _ _ _ HS), Hb; done).
    assert (new_conn L arr s = Ok (inr (<[i := n]> arr, true), accepted c b s)) as En.
    { unfold new_conn. rewrite (accept_then _ _ _ _ _ _ (gd_calm _ _ _ S1) (tb_listener _ _ _ HT) Hb). fold n. by rewrite Ef. }
    assert (forall fd, fd ∈ reported L arr s -> fd <> n) as Hrn.
    { intros fd [_ Ha]%elem_of_filter ->. apply elem_of_attended in Ha as [E|[_ ?]]; [|done].
      pose proof (kind_at_lowest s) as Hkl. fold n in Hkl. rewrite E, (tb_listener _ _ _ HT) in Hkl. done. }
    assert (forall fd c', kind_at s fd = Some (Stream c') -> kind_at (accepted c b s) fd = Some (Stream c') /\ fd ∈ <[i := n]> arr) as Hkeep.
    { intros fd c' Hfd. destruct (tb_known _ _ _ HT c') as [k Hk]; [eauto|]. destruct (stream_reported _ _ _ _ _ _ HS Hfd Hk) as (Hin & Hf0 & _).
      rewrite kind_at_accepted, decide_False by (fold n; intros <-; done). split; [done|].
      apply list_elem_of_lookup in Hin as [j Hj]. apply list_elem_of_lookup. exists j. rewrite list_lookup_insert_ne; [done|]. intros ->. congruence. }
    assert (forall fd, fd ∈ reported L arr s -> fd ∈ <[i := n]> arr -> exists c, kind_at s fd = Some (Stream c)) as Hst.
    { intros fd Hrd Hin. apply elem_of_filter in Hrd as Hrd'. destruct Hrd' as [_ Ha]. apply (tb_watched _ _ _ HT) in Ha as [->|?]; [|done].
      exfalso. by apply (sv_listener _ _ _ HS1). }
    destruct (comm_serving L (reported L arr s) (<[i := n]> arr) (accepted c b s) HS1 (zero_reported _ _ _ HS)) as (s' & E & HS' & Hb' & Hs & Hu).
    { intros sd Hin Hrd. destruct (Hst sd Hrd Hin) as [c' Hc']. apply elem_of_filter in Hrd as [Hr _].
      rewrite <- Hr. apply readable_same; [|by rewrite Hc']. split; [by rewrite Hc', (proj1 (Hkeep _ _ Hc'))|done]. }
    exists (slot_after (accepted c b s) (reported L arr s) <$> <[i := n]> arr), s'. unfold xbind. rewrite (bind_run _ _ _ _ _ En). cbn [snd fst].
    unfold xlift. rewrite (bind_run _ _ _ _ _ E).
    destruct (round_conns L arr s (accepted c b s) (<[i := n]> arr) s' HS eq_refl Hkeep Hst Hs Hu) as [HA HB].
    split_and!; [done|done|by rewrite Hb'|done|done].
Qed.

Lemma round_full L arr s c b : serving L arr s -> 0 ∉ arr -> backlog s = c :: b ->
  exists s', pass L arr s = Ok (inl EXIT_FAILURE, s').
Proof.
  intros HS Hfull Hb. rewrite (pass_reports _ _ _ HS). pose proof HS as [S1 S2 S3 S4 S5].
  rewrite decide_True by (rewrite (listener_reported _ _ _ HS), Hb; done). unfold xbind. unfold mbind, ST_bind.
  unfold new_conn. rewrite (accept_then _ _ _ _ _ _ (gd_calm _ _ _ S1) (tb_listener _ _ _ (gd_table _ _ _ S1)) Hb).
  assert (list_find (fun sd => sd = 0) arr = None) as -> by (apply list_find_None, Forall_forall; intros x Hx ->; done).
  rewrite (xlift_run _ _ _ _ _ (close_run _ (mk_desc (Stream c) O_NONBLOCK) (accepted c b s) (lookup_insert_eq _ _ _))).
  eexists. done.
Qed.

Lemma serving_step L a b : step L a b -> serving L a.1 a.2 -> serving L b.1 b.2.
Proof.
  destruct 1 as [c arr s Hc|c k x arr s Hc Hx|c k arr s Hc|arr s arr' s' Hlow E]; cbn; intros HS.
  - destruct HS as [[S1 St Sp] S2 S3 S4 S5]. constructor; [|done..]. constructor; [by apply table_connected|done|].
    intros c' k. cbn. rewrite lookup_insert_Some. intros [[_ <-]|[_ H]]; [|by eapply Sp]. split; [|done]. apply polite_short. cbn. lia.
  - by eapply serving_stirred.
  - eapply serving_stirred; [done..| |done]. cbn. apply (gd_polite _ _ _ (sv_good _ _ _ HS) _ _ Hc).
  - destruct (decide (backlog s = [])) as [Hb|Hb]; [|destruct (decide (0 ∈ arr)) as [Hin|Hin]].
    + destruct (round_serves L arr s HS Hlow (or_introl Hb)) as (a' & s'' & E' & HS' & _). rewrite E in E'. by injection E' as <- <-.
    + destruct (round_serves L arr s HS Hlow (or_intror Hin)) as (a' & s'' & E' & HS' & _). rewrite E in E'. by injection E' as <- <-.
    + destruct (backlog s) as [|c q] eqn:Eb; [done|]. destruct (round_full L arr s c q HS Hin Eb) as [s'' E']. congruence.
Qed.

Definition start : net :=
  mk_net {[0 := mk_desc Plain 0; 1 := mk_desc Plain 0; 2 := mk_desc Plain 0]} [] ∅ ∅ ∅ [].
Definition listening_net : net :=
  mk_net {[0 := mk_desc Plain 0; 1 := mk_desc Plain 0; 2 := mk_desc Plain 0; 3 := mk_desc Listening O_NONBLOCK]} [] ∅ ∅ ∅ [].
Lemma main_start : main start = Ok (inr (3, replicate MAX_CONN 0), listening_net).
Proof. vm_compute. reflexivity. Qed.

Lemma serving_start : serving 3 (replicate MAX_CONN 0) listening_net.
Proof.
  assert (map_Forall (fun fd d => 0 <= fd < FD_SETSIZE /\ ((fd = 3 /\ what d = Listening) \/ what d = Plain)) (fds listening_net)) as Hm by by_compute.
  assert (forall fd w, kind_at listening_net fd = Some w -> (fd = 3 /\ w = Listening) \/ w = Plain) as Hk.
  { intros fd w H. apply fmap_Some in H as (d & Hd & ->). by apply (map_Forall_lookup_1 _ _ _ _ Hm Hd). }
  assert (forall fd c, kind_at listening_net fd <> Some (Stream c)) as Hs by (intros fd c [[_ ?]|?]%Hk; done).
  assert (attended 3 (replicate MAX_CONN 0) = {[3]}) as Ha by by_compute.
  constructor; [constructor; [|done|done]|by_compute|reflexivity| |by_compute].
  - rewrite Ha. constructor; cbn [backlog conns listening_net].
    + done.
    + intros fd [[? _]|?]%Hk; done.
    + intros fd. rewrite elem_of_singleton. split; [by left|]. intros [?|[c H]]; [done|by destruct (Hs fd c)].
    + intros fd d c Hd Hw. destruct (map_Forall_lookup_1 _ _ _ _ Hm Hd) as [_ [[_ ?]|?]]; congruence.
    + intros fd fd' c H. by destruct (Hs fd c).
    + constructor.
    + intros c fd []%elem_of_nil.
    + intros c [[]%elem_of_nil|[fd H]]. by destruct (Hs fd c).
    + done.
  - intros fd [d Hd]. apply (map_Forall_lookup_1 _ _ _ _ Hm Hd).
Qed.

Lemma reachable_serving L arr0 s0 arr s : main start = Ok (inr (L, arr0), s0) -> rtc (step L) (arr0, s0) (arr, s) -> serving L arr s.
Proof.
  intros E Hr. rewrite main_start in E. injection E as <- <- <-.
  assert (forall a b, rtc (step 3) a b -> serving 3 a.1 a.2 -> serving 3 b.1 b.2) as H; [|by apply (H _ _ Hr), serving_start].
  induction 1 as [|a b c Hab _ IH]; [done|]. intros Ha. apply IH. by eapply serving_step.
Qed.

(** C20: from its start, with clients that connect, send texts with no stretch of more than
    1010 bytes without a zero byte and finish at any time, but do not break their connections
    off, and as long as no call fails: in every round the server, unless all its slots are
    taken and another client waits or the next free descriptor does not fit into a set, answers every client that has sent something, closes
    those that have finished, leaves the others as they are, and accepts the first that
    waits; and its slots are always exactly the clients accepted and not closed. *)
Theorem select_serves_everyone L arr0 s0 arr s :
  main start = Ok (inr (L, arr0), s0) -> rtc (step L) (arr0, s0) (arr, s) ->
  serving L arr s /\
  (lowest (dom (fds s)) < FD_SETSIZE -> has_room arr s ->
   exists arr' s', pass L arr s = Ok (inr arr', s') /\ backlog s' = tail (backlog s) /\
     (forall c k fd, conns s !! c = Some k -> kind_at s fd = Some (Stream c) -> conns s' !! c = Some (if conn_readable k then served k else k)) /\
     (forall c k, conns s !! c = Some k -> (forall fd, kind_at s fd <> Some (Stream c)) -> conns s' !! c = Some k)).
Proof.
  intros E Hr. pose proof (reachable_serving _ _ _ _ _ E Hr) as HS. split; [done|]. intros Hlow Hroom.
  destruct (round_serves _ _ _ HS Hlow Hroom) as (arr' & s' & E' & _ & Hb & HA & HB). exists arr', s'. done.
Qed.

(** When all its slots are taken, the server ends as soon as one more client connects: it
    takes the success of [close] for a failure. *)
Theorem select_full_table_exits L arr0 s0 arr s c b :
  main start = Ok (inr (L, arr0), s0) -> rtc (step L) (arr0, s0) (arr, s) -> 0 ∉ arr -> backlog s = c :: b ->
  exists s', pass L arr s = Ok (inl EXIT_FAILURE, s').
Proof. intros E Hr. apply round_full. by eapply reachable_serving. Qed.

(** The clients of the runs above do not break their connections off, with reason: a reset is
    reported as something to read, the read fails, the server does not look at the error and
    answers, and the signal that the answer raises ends the server. *)
Theorem select_reset_kills rd sd c k s : stream_at s sd c k -> pending k = [] -> finished k = false -> reset k = Whole ->
  readable (peer_breaks c s) sd = true /\ (sd ∈ rd -> comm_slot rd sd (peer_breaks c s) = Err Killed).
Proof.
  intros (A & B & C) Hp Hf Hr. set (k' := mk_conn (arrived k) (taken k) (finished k) Reset_by_peer (outbox k) (gone k)).
  assert (stream_at (peer_breaks c s) sd c k') as Hk' by (split_and!; [done..|]; cbn; by rewrite lookup_alter_eq, C).
  split.
  - destruct Hk' as (_ & B' & C'). unfold readable. rewrite B', C'. cbn. unfold conn_readable, broken. cbn. by rewrite orb_true_r.
  - intros Hin. unfold comm_slot. rewrite decide_True by done.
    rewrite (bind_run _ _ _ _ _ (read_reset _ _ _ _ _ Hk' Hp Hf eq_refl)).
    rewrite (bind_run _ _ _ (padded MAX_BUFF (answer [])) _) by (unfold lift; by rewrite (response_ok []) by (cbn; lia)).
    apply bind_err. eapply send_killed; [apply (stream_at_insert _ _ _ _ _ Hk')|by left].
Qed.

(** ** Examples *)

(** Clients [m], [m + 1], ..., accepted one after the other. *)
Fixpoint crowd (n m : nat) (st : list Z * net) : option (list Z * net) :=
  match n with
  | O => Some st
  | S n' =>
      if decide (conns st.2 !! m = None /\ lowest (dom (fds st.2)) < FD_SETSIZE) then
        match pass 3 st.1 (connected m st.2) with Ok (inr arr', s') => crowd n' (S m) (arr', s') | _ => None end
      else None
  end.
Lemma crowd_run n m st st' : crowd n m st = Some st' -> rtc (step 3) st st'.
Proof.
  revert m st. induction n as [|n IH]; intros m [arr s]; cbn [crowd fst snd]; [intros [= <-]; apply rtc_refl|].
  destruct (decide _) as [[Hc Hlow]|]; [|done]. destruct (pass 3 arr (connected m s)) as [[[?|arr'] s']|] eqn:E; [done| |done].
  intros H. eapply rtc_l; [by apply StepConnect|]. eapply rtc_l; [by apply StepRound|]. by eapply IH.
Qed.

Definition one_client : list Z * net := Eval vm_compute in default ([], start) (crowd 1 0 (replicate MAX_CONN 0, listening_net)).
Definition full_house : list Z * net := Eval vm_compute in default ([], start) (crowd 80 0 (replicate MAX_CONN 0, listening_net)).
Lemma one_client_run : rtc (step 3) (replicate MAX_CONN 0, listening_net) (one_client.1, one_client.2).
Proof. apply (crowd_run 1 0). vm_compute. reflexivity. Qed.
Lemma full_house_run : rtc (step 3) (replicate MAX_CONN 0, listening_net) (full_house.1, full_house.2).
Proof. apply (crowd_run 80 0). vm_compute. reflexivity. Qed.

Lemma select_full_table_exits_witness : exists s', pass 3 full_house.1 (connected 80 full_house.2) = Ok (inl EXIT_FAILURE, s').
Proof.
  apply (select_full_table_exits 3 (replicate MAX_CONN 0) listening_net full_house.1 (connected 80 full_house.2) 80 []).
  - exact main_start.
  - eapply rtc_r; [exact full_house_run|]. apply StepConnect. reflexivity.
  - by_compute.
  - reflexivity.
Defined.

Lemma select_reset_kills_witness : comm_slot {[4]} 4 (peer_breaks 0 one_client.2) = Err Killed.
Proof.
  apply (select_reset_kills {[4]} 4 0 (mk_conn [] 0 false Whole [] false));
    [split_and!; reflexivity|reflexivity|reflexivity|reflexivity|by_compute].
Defined.

Lemma select_serves_everyone_witness : exists arr' s', pass 3 one_client.1 (bytes_arrive 0 [104; 105] one_client.2) = Ok (inr arr', s') /\
  conns s' !! 0%nat = Some (mk_conn [104; 105] 2 false Whole [answer [104; 105]] false).
Proof.
  destruct (select_serves_everyone 3 (replicate MAX_CONN 0) listening_net one_client.1 (bytes_arrive 0 [104; 105] one_client.2)) as [_ H].
  - exact main_start.
  - eapply rtc_r; [exact one_client_run|]. eapply StepBytes; [reflexivity|]. apply polite_short. cbn. lia.
  - destruct H as (arr' & s' & E & _ & HA & _); [by_compute|left; reflexivity|].
    exists arr', s'. split; [exact E|]. rewrite (HA 0%nat (mk_conn [104; 105] 0 false Whole [] false) 4); reflexivity.
Defined.
End Select.
