(* ===== verification/PollServer.v ===== *)
(** * The echo server on poll

    src/sock-poll-tcp/server_p.c: a table of ten clients after the listening socket. The
    messages, the addresses and the pause before an answer are left out; nothing is typed on
    the terminal, so that descriptor 0, which stands for a free slot and is polled as well, is
    never ready. *)
From S2P Require Import Prelude CBase Sock EchoTable.
From stdpp Require Import base numbers list gmap fin_sets.
Local Open Scope Z_scope.

Module Poll.

Definition MAX_CLIENTS : nat := 10.
Definition SIZE : nat := 1024.
Definition POLLNVAL : Z := 32.
(** The characters of [SERVER ECHO: ]. *)
Definition SERVER_ECHO : list Z := [83; 69; 82; 86; 69; 82; 32; 69; 67; 72; 79; 58; 32].

Record pollfd := mk_pollfd { pfd : Z; events : Z; revents : Z }.

(** [poll]: errors and hang-ups are reported whether asked for or not. *)
Definition polled (s : net) (p : pollfd) : pollfd :=
  mk_pollfd (pfd p) (events p)
    (if pfd p <? 0 then 0
     else match fds s !! pfd p with
          | None => POLLNVAL
          | Some _ => Z.land (events_of s (pfd p)) (Z.lor (events p) (Z.lor POLLERR POLLHUP))
          end).
Definition poll (pollfds : list pollfd) : ST net (Z * list pollfd) :=
  e ← failing;
  match e with
  | Some _ => mret (-1, pollfds)
  | None =>
      s ← stget;
      let r := polled s <$> pollfds in
      mret (Z.of_nat (length (filter (fun p => revents p <> 0) r)), r)
  end.

(** A client with something to read: the new contents of its slot. *)
Definition serve_slot (p : pollfd) : ST net pollfd :=
  if (0 <? pfd p) && negb (Z.land (revents p) POLLIN =? 0) then
    bufSize ← read (pfd p) SIZE;
    match bufSize with
    | inl errno => mret (mk_pollfd 0 0 0)
    | inr [] => mret (mk_pollfd 0 0 0)
    | inr bs =>
        wbuf ← lift (reply SERVER_ECHO bs);
        send (pfd p) wbuf;;
        mret p
    end
  else mret p.
Fixpoint serve_slots (pollfds : list pollfd) : ST net (list pollfd) :=
  match pollfds with
  | [] => mret []
  | p :: rest => p' ← serve_slot p; rest' ← serve_slots rest; mret (p' :: rest')
  end.

(** The first free slot takes the client, if there is one. *)
Definition take_slot (client_socket : Z) (clients : list pollfd) : list pollfd :=
  match list_find (fun p => pfd p = 0) clients with
  | Some (i, p) => <[i := mk_pollfd client_socket (events p) (revents p)]> clients
  | None => clients
  end.

(** One turn of the loop of [wait_client]: [pollfds[0]] is [server], the rest are [clients]. *)
Definition pass (server_socket : Z) (server : pollfd) (clients : list pollfd) : ST net (pollfd * list pollfd) :=
  r ← poll (server :: clients);
  match r.2 with
  | [] => stfail OutOfBounds
  | server :: clients =>
      if 0 <? r.1 then
        if negb (Z.land (revents server) POLLIN =? 0) then
          a ← accept server_socket;
          let client_socket := match a with inl _ => -1 | inr n => n end in
          nonblockResult ← make_socket_non_blocking client_socket;
          if nonblockResult <? 0 then mret (server, clients)
          else clients ← serve_slots (take_slot client_socket clients); mret (server, clients)
        else clients ← serve_slots clients; mret (server, clients)
      else mret (server, clients)
  end.

Definition create_socket : ST net Z :=
  server_socket ← new_desc;
  r ← outcome;
  if r <? 0 then mret (-1) else
  bindResult ← outcome;
  if bindResult =? -1 then mret (-2) else
  nonblockResult ← make_socket_non_blocking server_socket;
  if nonblockResult <? 0 then mret (-3) else
  listenResult ← listen server_socket;
  if listenResult =? -1 then mret (-4) else
  mret server_socket.

(** [wait_client] up to its loop. *)
Definition wait_client (server_socket : Z) : pollfd * list pollfd :=
  (mk_pollfd server_socket (Z.lor POLLIN POLLPRI) 0, replicate MAX_CLIENTS (mk_pollfd 0 (Z.lor POLLIN POLLPRI) 0)).

Definition main : ST net (pollfd * list pollfd) :=
  server_socket ← create_socket;
  mret (wait_client server_socket).

(** ** Runs *)

Definition state : Type := pollfd * list pollfd * net.

Inductive step (L : Z) : state -> state -> Prop :=
  | StepConnect c p ps s : conns s !! c = None -> step L (p, ps, s) (p, ps, connected c s)
  | StepBytes c x p ps s : step L (p, ps, s) (p, ps, bytes_arrive c x s)
  | StepFinish c p ps s : step L (p, ps, s) (p, ps, peer_finishes c s)
  | StepBreak c p ps s : step L (p, ps, s) (p, ps, peer_breaks c s)
  | StepPass p ps s p' ps' s' : pass L p ps s = Ok ((p', ps'), s') -> step L (p, ps, s) (p', ps', s').

(** ** What calls leave alone *)

(** Nothing happens to connection [c], and no descriptor is opened or closed. *)
Definition quiet (c : nat) (s s' : net) : Prop :=
  (forall fd, kind_at s' fd = kind_at s fd) /\ backlog s' = backlog s /\ conns s' !! c = conns s !! c.

Lemma quiet_refl c s : quiet c s s.
Proof. done. Qed.
Lemma quiet_trans c s1 s2 s3 : quiet c s1 s2 -> quiet c s2 s3 -> quiet c s1 s3.
Proof. intros (A & B & C) (A' & B' & C'). split_and!; [intros; by rewrite A', A|by rewrite B'|by rewrite C']. Qed.

Lemma failing_quiet c s r s' : failing s = Ok (r, s') -> quiet c s s'.
Proof. unfold failing. run. destruct (trouble s); by intros [= <- <-]. Qed.

Lemma read_quiet c fd n s r s' : kind_at s fd <> Some (Stream c) -> read fd n s = Ok (r, s') -> quiet c s s'.
Proof.
  intros Hfd (e & s1 & E1%(failing_quiet c) & E)%bind_inv. assert (kind_at s1 fd <> Some (Stream c)) as Hfd1 by (destruct E1 as [-> _]; done).
  eapply quiet_trans; [exact E1|]. clear E1 Hfd s. revert E. destruct e; [by intros [= _ <-]|]. run.
  fold (kind_at s1 fd). destruct (kind_at s1 fd) as [[| |c']|]; [by intros [= _ <-]..| |by intros [= _ <-]].
  assert (c' <> c) as Hne by congruence. destruct (conns s1 !! c') as [k|]; [|by intros [= _ <-]].
  destruct (pending k); [destruct (finished k), (reset k); try by intros [= _ <-]|]; intros [= _ <-];
    (split_and!; [done|done|]; cbn; by apply lookup_insert_ne).
Qed.
Lemma send_quiet c fd x s r s' : kind_at s fd <> Some (Stream c) -> send fd x s = Ok (r, s') -> quiet c s s'.
Proof.
  intros Hfd (e & s1 & E1%(failing_quiet c) & E)%bind_inv. assert (kind_at s1 fd <> Some (Stream c)) as Hfd1 by (destruct E1 as [-> _]; done).
  eapply quiet_trans; [exact E1|]. clear E1 Hfd s. revert E. destruct e; [by intros [= _ <-]|]. run.
  fold (kind_at s1 fd). destruct (kind_at s1 fd) as [[| |c']|]; [by intros [= _ <-]..| |by intros [= _ <-]].
  assert (c' <> c) as Hne by congruence. destruct (conns s1 !! c') as [k|]; [|by intros [= _ <-]].
  destruct (reset k), (finished k); try done; intros [= _ <-]; (split_and!; [done|done|]; cbn; by apply lookup_insert_ne).
Qed.
Lemma nonblock_quiet c fd s r s' : make_socket_non_blocking fd s = Ok (r, s') -> quiet c s s'.
Proof.
  intros (f & s1 & (e & s0 & E0%(failing_quiet c) & E1)%bind_inv & E)%bind_inv. assert (quiet c s s1) as H1.
  { eapply quiet_trans; [exact E0|]. destruct e; [by injection E1 as _ <-|]. revert E1. run. by intros [= _ <-]. }
  eapply quiet_trans; [exact H1|]. clear H1 E0 E1. destruct (f =? -1); [by injection E as _ <-|].
  apply bind_inv in E as (z & s2 & (e2 & s3 & E3%(failing_quiet c) & E2)%bind_inv & E).
  assert (s' = s2) as -> by (destruct (z =? -1); by injection E as _ <-). eapply quiet_trans; [exact E3|].
  destruct e2; [by injection E2 as _ <-|]. revert E2. run. destruct (fds s3 !! fd) as [d|] eqn:Ed; intros [= _ <-]; [|done].
  split_and!; [|done|done]. intros fd'. unfold kind_at. cbn. destruct (decide (fd = fd')) as [<-|].
  - rewrite lookup_insert_eq, Ed. done.
  - by rewrite lookup_insert_ne.
Qed.

Lemma serve_slot_quiet c p s p' s' : kind_at s (pfd p) <> Some (Stream c) \/ Z.land (revents p) POLLIN = 0 ->
  serve_slot p s = Ok (p', s') -> quiet c s s' /\ (p' = p \/ p' = mk_pollfd 0 0 0).
Proof.
  intros H. unfold serve_slot. destruct (_ && _) eqn:Eg; [|intros [= <- <-]; split; [done|by left]].
  destruct H as [H|H]; [|rewrite H in Eg; rewrite andb_false_r in Eg; done].
  intros (r & s1 & E1%(read_quiet c) & E)%bind_inv; [|done].
  destruct r as [?|[|a x]]; [injection E as <- <-; split; [done|by right]..|].
  apply bind_inv in E as (w & s2 & E2 & E). assert (s2 = s1) as -> by (unfold lift in E2; destruct (reply _ _); [by injection E2 as _ <-|done]).
  apply bind_inv in E as (u & s3 & E3 & E). injection E as <- <-. split; [|by left]. eapply quiet_trans; [exact E1|].
  eapply send_quiet; [|exact E3]. destruct E1 as [-> _]. done.
Qed.

Lemma serve_slots_quiet c ps s ps' s' : Forall (fun p => kind_at s (pfd p) <> Some (Stream c) \/ Z.land (revents p) POLLIN = 0) ps ->
  serve_slots ps s = Ok (ps', s') -> quiet c s s' /\ Forall2 (fun p p' => p' = p \/ p' = mk_pollfd 0 0 0 /\ Z.land (revents p) POLLIN <> 0) ps ps'.
Proof.
  revert s ps' s'. induction ps as [|p ps IH]; intros s ps' s' Hps; cbn [serve_slots]; [intros [= <- <-]; split; [done|constructor]|].
  apply Forall_cons in Hps as [Hp Hps]. intros (p' & s1 & E1 & E)%bind_inv. destruct (serve_slot_quiet c _ _ _ _ Hp E1) as [Hq Hp'].
  apply bind_inv in E as (r & s2 & E2 & E). injection E as <- <-.
  destruct (IH s1 r s2) as [Hq2 HF]; [|done|].
  { eapply Forall_impl; [exact Hps|]. cbn. intros q [H|H]; [left|by right]. destruct Hq as [-> _]. done. }
  split; [by eapply quiet_trans|]. constructor; [|done]. unfold serve_slot in E1.
  destruct (Z.land (revents p) POLLIN =? 0) eqn:Eb; zbool; [|destruct Hp'; tauto].
  rewrite andb_false_r in E1. injection E1 as <- _. by left.
Qed.

(** ** A slot used again *)

(** Client [c] is in slot [i], with descriptor [fd], and the slot asks for no events. *)
Record starved (i : nat) (fd : Z) (c : nat) (t : nat) (o : list (list Z)) (ps : list pollfd) (s : net) : Prop := {
  st_slot : exists p, ps !! i = Some p /\ pfd p = fd /\ events p = 0;
  st_positive : 0 < fd;
  st_others : forall j p, ps !! j = Some p -> pfd p = fd -> j = i;
  st_stream : kind_at s fd = Some (Stream c);
  st_unique : forall fd', kind_at s fd' = Some (Stream c) -> fd' = fd;
  st_accepted : c ∉ backlog s;
  st_conn : (fun k => (taken k, outbox k)) <$> conns s !! c = Some (t, o) }.

Lemma starved_quiet i fd c t o ps s s' : starved i fd c t o ps s -> quiet c s s' -> starved i fd c t o ps s'.
Proof.
  intros [A B C D E F G] (Q1 & Q2 & Q3). constructor; [done..| | | |by rewrite Q3].
  - by rewrite Q1.
  - intros fd'. rewrite Q1. apply E.
  - by rewrite Q2.
Qed.

Lemma land_polled e : Z.land (Z.land e (Z.lor 0 (Z.lor POLLERR POLLHUP))) POLLIN = 0.
Proof. rewrite <- Z.land_assoc. change (Z.land (Z.lor 0 (Z.lor POLLERR POLLHUP)) POLLIN) with 0. apply Z.land_0_r. Qed.

Lemma starved_polled i fd c t o ps s : starved i fd c t o ps s -> starved i fd c t o (polled s <$> ps) s.
Proof.
  intros [(p & Hp & Hfd & He) B C D E F G]. constructor; [|done| |done..].
  - exists (polled s p). rewrite list_lookup_fmap, Hp. done.
  - intros j q. rewrite list_lookup_fmap. destruct (ps !! j) as [q0|] eqn:Eq; [|done]. intros [= <-] Hq. by apply (C j q0).
Qed.

(** Slots that are served do not include the one that asks for nothing. *)
Lemma starved_serve i fd c t o ps s ps' s' : starved i fd c t o ps s ->
  (forall p, ps !! i = Some p -> Z.land (revents p) POLLIN = 0) -> serve_slots ps s = Ok (ps', s') -> starved i fd c t o ps' s'.
Proof.
  intros HS Hrev E. pose proof HS as [(p & Hp & Hfd & He) B C D Eu F G].
  destruct (serve_slots_quiet c ps s ps' s') as [Hq HF]; [|done|].
  { apply Forall_lookup. intros j q Hq. destruct (decide (j = i)) as [->|Hne]; [right; by apply Hrev|left].
    intros Hk. by apply Hne, (C j q), Eu. }
  apply (starved_quiet _ _ _ _ _ _ s); [|done]. constructor; [| | |done..]; [|done|].
  - exists p. split; [|done]. destruct (Forall2_lookup_l _ _ _ _ _ HF Hp) as (p' & Hp' & [->|[_ H]]); [done|]. by destruct H; apply Hrev.
  - intros j q Hjq Hqfd. destruct (Forall2_lookup_r _ _ _ _ _ HF Hjq) as (q0 & Hq0 & [->|[-> _]]); [by eapply C|]. cbn in Hqfd. lia.
Qed.

Lemma starved_take i fd c t o ps s n : starved i fd c t o ps s -> n <> fd -> starved i fd c t o (take_slot n ps) s.
Proof.
  intros HS Hn. pose proof HS as [(p & Hp & Hfd & He) B C D Eu F G]. unfold take_slot.
  destruct (list_find (fun p => pfd p = 0) ps) as [[j q]|] eqn:Ef; [|done]. apply list_find_Some in Ef as (Hq & Hq0 & _).
  assert (j <> i) as Hji by (intros ->; rewrite Hp in Hq; injection Hq as <-; lia). constructor; [|done| |done..].
  - exists p. by rewrite list_lookup_insert_ne.
  - intros x y Hy Hyfd. apply list_lookup_insert_Some in Hy as [(-> & <- & _)|[_ Hy]]; [by cbn in Hyfd|by eapply C].
Qed.

Lemma take_slot_keeps n ps i : (forall q, ps !! i = Some q -> pfd q <> 0) -> take_slot n ps !! i = ps !! i.
Proof.
  intros H. unfold take_slot. destruct (list_find (fun p => pfd p = 0) ps) as [[j q]|] eqn:Ef; [|done].
  apply list_find_Some in Ef as (Hq & Hq0 & _). apply list_lookup_insert_ne. intros ->. by eapply H.
Qed.

Lemma starved_accept i fd c t o ps s L r s' : starved i fd c t o ps s -> accept L s = Ok (r, s') ->
  starved i fd c t o ps s' /\ r <> inr fd.
Proof.
  intros HS (e & s1 & E1%(failing_quiet c) & E)%bind_inv. apply (starved_quiet _ _ _ _ _ _ _ s1) in HS; [|done].
  clear E1 s. rename s1 into s. destruct e; [by injection E as <- <-|]. revert E. run.
  destruct (what <$> fds s !! L) as [[| |c']|]; [by intros [= <- <-]| |by intros [= <- <-]..].
  destruct (backlog s) as [|c0 b] eqn:Eb; intros [= <- <-]; [done|]. pose proof HS as [A B C D Eu F G]. pose proof (kind_at_lowest s) as Hl.
  set (n := lowest (dom (fds s))) in *. assert (n <> fd) as Hn by congruence. rewrite Eb in F. apply not_elem_of_cons in F as [Hc0 F].
  assert (forall x, kind_at (set_backlog b (set_fds (<[n := mk_desc (Stream c0) 0]> (fds s)) s)) x =
    if decide (n = x) then Some (Stream c0) else kind_at s x) as Hk.
  { intros x. unfold kind_at. cbn. destruct (decide (n = x)) as [<-|]; [by rewrite lookup_insert_eq|by rewrite lookup_insert_ne]. }
  split; [|congruence]. constructor; [done..| | |done|done].
  - by rewrite Hk, decide_False.
  - intros x. rewrite Hk. destruct (decide (n = x)); [intros [= ->]; done|apply Eu].
Qed.

Lemma starved_pass i fd c t o p ps s L p' ps' s' : starved i fd c t o ps s -> pass L p ps s = Ok ((p', ps'), s') ->
  starved i fd c t o ps' s'.
Proof.
  intros HS (r & s1 & (e & s0 & E0%(failing_quiet c) & E1)%bind_inv & E)%bind_inv.
  apply (starved_quiet _ _ _ _ _ _ _ s0) in HS; [|done]. clear E0 s. rename s0 into s. destruct e.
  { injection E1 as <- <-. cbn in E. by injection E as <- <- <-. }
  revert E1. run. intros [= <- <-]. cbn [fst snd] in E. change (list_fmap pollfd pollfd (polled s) ps) with (polled s <$> ps) in E.
  apply starved_polled in HS.
  assert (forall q, (polled s <$> ps) !! i = Some q -> Z.land (revents q) POLLIN = 0) as Hrev.
  { intros q Hq. destruct (st_slot _ _ _ _ _ _ _ HS) as (q' & Hq' & _ & He). rewrite Hq in Hq'. injection Hq' as <-.
    rewrite list_lookup_fmap in Hq. destruct (ps !! i) as [q0|]; [|done]. cbn in Hq. injection Hq as <-. cbn in He |- *. rewrite He.
    destruct (pfd q0 <? 0); [done|]. destruct (fds s !! pfd q0); [apply land_polled|done]. }
  destruct (0 <? _); [|by injection E as <- <- <-]. destruct (negb _).
  - apply bind_inv in E as (a & s2 & Ea & E). destruct (starved_accept _ _ _ _ _ _ _ _ _ _ HS Ea) as [HS2 Hne].
    apply bind_inv in E as (z & s3 & Ez%(nonblock_quiet c) & E). apply (starved_quiet _ _ _ _ _ _ _ s3) in HS2; [|done].
    destruct (z <? 0); [by injection E as <- <- <-|]. apply bind_inv in E as (q & s4 & E4 & E). injection E as <- <- <-.
    assert (match a with inl _ => -1 | inr n => n end <> fd) as Hn.
    { pose proof (st_positive _ _ _ _ _ _ _ HS). destruct a; [lia|congruence]. }
    eapply starved_serve; [by eapply starved_take| |done]. intros q0. rewrite take_slot_keeps; [apply Hrev|].
    intros q1 Hq1. destruct (st_slot _ _ _ _ _ _ _ HS) as (q' & Hq' & Hqfd & _). rewrite Hq1 in Hq'. injection Hq' as <-.
    pose proof (st_positive _ _ _ _ _ _ _ HS). lia.
  - apply bind_inv in E as (q & s4 & E4 & E). injection E as <- <- <-. by eapply starved_serve.
Qed.

Lemma starved_step i fd c t o L a b : step L a b -> starved i fd c t o a.1.2 a.2 -> starved i fd c t o b.1.2 b.2.
Proof.
  assert (forall c' f ps s, (forall k, taken (f k) = taken k /\ outbox (f k) = outbox k) -> starved i fd c t o ps s -> starved i fd c t o ps (stirred c' f s)) as Hst.
  { intros c' f ps s Hf [A B C D E F G]. constructor; [done..|]. cbn. destruct (decide (c' = c)) as [->|]; [|by rewrite lookup_alter_ne].
    rewrite lookup_alter_eq. destruct (conns s !! c) as [k|]; [|done]. cbn in *. destruct (Hf k) as [-> ->]. done. }
  destruct 1 as [c' p ps s Hc|c' x p ps s|c' p ps s|c' p ps s|p ps s p' ps' s' E]; cbn [fst snd]; intros HS; [|by apply Hst..|by eapply starved_pass].
  destruct HS as [A B C D E F G]. assert (c' <> c) as Hne by (intros ->; rewrite Hc in G; done). constructor; [done..| |].
  - cbn. intros [H|H%list_elem_of_singleton]%elem_of_app; [done|congruence].
  - cbn. by rewrite lookup_insert_ne.
Qed.

(** What a slot is after its client has ended. *)
Lemma left_slot fd e s r s' : 0 < fd -> (r = inr [] \/ exists errno, r = inl errno) -> read fd SIZE s = Ok (r, s') ->
  serve_slot (mk_pollfd fd e POLLIN) s = Ok (mk_pollfd 0 0 0, s').
Proof.
  intros Hfd Hr E. unfold serve_slot. cbn [pfd revents]. assert (0 <? fd = true) as -> by lia. cbn [andb].
  change (negb (Z.land POLLIN POLLIN =? 0)) with true. cbn match. rewrite (bind_run _ _ _ _ _ E). destruct Hr as [->|[errno ->]]; done.
Qed.

(** The listening socket in the first entry. *)
Definition server_slot (L : Z) (p : pollfd) : Prop := pfd p = L /\ events p = Z.lor POLLIN POLLPRI.

Lemma pass_accepts L p ps s c b : trouble s = [] -> 0 <= L -> server_slot L p -> kind_at s L = Some Listening -> backlog s = c :: b ->
  pass L p ps s = (clients ← serve_slots (take_slot (lowest (dom (fds s))) (polled s <$> ps)); mret (polled s p, clients)) (accepted c b s).
Proof.
  intros Ht HL [Hp He] Hk Hb. unfold pass. assert (revents (polled s p) = POLLIN) as Hrev.
  { unfold polled. cbn. rewrite Hp, He. assert (L <? 0 = false) as -> by lia. unfold kind_at in Hk.
    unfold events_of, readable, hung. destruct (fds s !! L) as [d|]; [|done]. cbn in Hk |- *. injection Hk as ->. by rewrite Hb. }
  assert (poll (p :: ps) s = Ok ((Z.of_nat (length (filter (fun p => revents p <> 0) (polled s <$> p :: ps))), polled s <$> p :: ps), s)) as Ep.
  { unfold poll. by rewrite (bind_run _ _ _ _ _ (failing_none s Ht)). }
  rewrite (bind_run _ _ _ _ _ Ep). cbn [fst snd]. rewrite fmap_cons. rewrite filter_cons_True by (by rewrite Hrev). cbn [length].
  rewrite Nat2Z.inj_succ. assert (0 <? Z.succ _ = true) as -> by (apply Z.ltb_lt; lia). rewrite Hrev. change (negb (Z.land POLLIN POLLIN =? 0)) with true. cbn match.
  rewrite (bind_run _ _ _ _ _ (accept_run _ _ _ _ Ht Hk Hb)). cbn zeta match.
  erewrite bind_run by (apply nonblock_run; [done|cbn; apply lookup_insert_eq]). change (0 <? 0) with false. cbn match.
  unfold accepted, set_fds, set_backlog. cbn. by rewrite insert_insert_eq.
Qed.

(** A client that is put into a slot which another has left is never read and never answered,
    whatever it, the others and the server do afterwards: the slot no longer asks for events.
    The slots of a running server hold open descriptors. *)
Theorem poll_reused_slot_is_never_answered L i e p ps s c b k p' ps' s' st :
  trouble s = [] -> 0 <= L -> server_slot L p -> kind_at s L = Some Listening -> backlog s = c :: b -> c ∉ b -> kind_at s 0 = Some Plain ->
  (forall fd, kind_at s fd <> Some (Stream c)) -> conns s !! c = Some k ->
  (forall j q, ps !! j = Some q -> is_Some (fds s !! pfd q)) -> list_find (fun p => pfd p = 0) ps = Some (i, mk_pollfd 0 0 e) ->
  pass L p ps s = Ok ((p', ps'), s') -> rtc (step L) (p', ps', s') st ->
  exists k', conns st.2 !! c = Some k' /\ taken k' = taken k /\ outbox k' = outbox k.
Proof.
  intros Ht HL Hp HLs Hb Hcb H0 Hno Hc Hopen Hf E Hr. rewrite (pass_accepts _ _ _ _ _ _ Ht HL Hp HLs Hb) in E.
  pose proof (kind_at_lowest s) as Hkl. pose proof (lowest_nonneg (dom (fds s))) as Hnn. set (n := lowest (dom (fds s))) in *.
  assert (0 < n) as Hn by (destruct (decide (n = 0)) as [E0|]; [rewrite E0, H0 in Hkl; done|lia]).
  assert (forall q, is_Some (fds s !! pfd q) -> pfd q <> n) as Hfresh.
  { intros q [d Hd] Eq. unfold kind_at in Hkl. rewrite <- Eq, Hd in Hkl. done. }
  apply list_find_Some in Hf as (Hi & _ & Hbefore).
  assert (list_find (fun p => pfd p = 0) (polled s <$> ps) = Some (i, polled s (mk_pollfd 0 0 e))) as Hf.
  { apply list_find_Some. rewrite list_lookup_fmap, Hi. split_and!; [done|done|]. intros j q Hj Hlt.
    rewrite list_lookup_fmap in Hj. destruct (ps !! j) as [q0|] eqn:Eq; [|done]. injection Hj as <-. exact (Hbefore j q0 Eq Hlt). }
  assert (starved i n c (taken k) (outbox k) (take_slot n (polled s <$> ps)) (accepted c b s)) as HS.
  { unfold take_slot. rewrite Hf. constructor; [|done|..].
    - eexists. split; [apply list_lookup_insert_eq; rewrite length_fmap; by eapply lookup_lt_Some|]. done.
    - intros j q Hq Hqn. apply list_lookup_insert_Some in Hq as [(-> & _ & _)|[_ Hq]]; [done|].
      rewrite list_lookup_fmap in Hq. destruct (ps !! j) as [q0|] eqn:Eq; [|done]. injection Hq as <-. destruct (Hfresh q0 (Hopen _ _ Eq) Hqn).
    - by rewrite kind_at_accepted, decide_True.
    - intros fd. rewrite kind_at_accepted. fold n. destruct (decide (n = fd)); [done|]. intros H. by apply Hno in H.
    - done.
    - cbn. by rewrite Hc. }
  apply bind_inv in E as (q & s1 & E1 & E2). injection E2 as <- <- <-.
  assert (starved i n c (taken k) (outbox k) q s1) as HS1.
  { eapply starved_serve; [exact HS| |done]. intros q0 Hq0. unfold take_slot in Hq0. rewrite Hf in Hq0.
    rewrite list_lookup_insert_eq in Hq0 by (rewrite length_fmap; by eapply lookup_lt_Some). injection Hq0 as <-. cbn [revents polled].
    change (0 <? 0) with false. cbn match. destruct (fds s !! 0); [apply land_polled|done]. }
  assert (forall a b, rtc (step L) a b -> starved i n c (taken k) (outbox k) a.1.2 a.2 -> starved i n c (taken k) (outbox k) b.1.2 b.2) as H.
  { induction 1 as [|x y z Hxy _ IH]; [done|]. intros Ha. apply IH. by eapply starved_step. }
  pose proof (st_conn _ _ _ _ _ _ _ (H _ _ Hr HS1)) as Hk'. destruct (conns st.2 !! c) as [k'|]; [|done]. injection Hk' as Hkt Hko. by exists k'.
Qed.

(** ** Descriptors are never closed *)

Definition keeps_open (s s' : net) : Prop := forall fd, is_Some (kind_at s fd) -> is_Some (kind_at s' fd).

Lemma quiet_keeps c s s' : quiet c s s' -> keeps_open s s'.
Proof. intros [H _] fd Hfd. by rewrite H. Qed.

(** A connection number that no descriptor has. *)
Lemma unused_conn s : exists c, forall fd, kind_at s fd <> Some (Stream c).
Proof.
  exists (fresh (map_to_list (fds s) ≫= fun '(_, d) => match what d with Stream c => [c] | _ => [] end)).
  intros fd H. pose proof (infinite_is_fresh (map_to_list (fds s) ≫= fun '(_, d) => match what d with Stream c => [c] | _ => [] end)) as Hf.
  apply Hf. apply fmap_Some in H as (d & Hd & Hw). apply list_elem_of_bind. exists (fd, d). rewrite <- Hw.
  split; [by apply list_elem_of_singleton|by apply elem_of_map_to_list].
Qed.

Lemma serve_slots_keeps ps s ps' s' : serve_slots ps s = Ok (ps', s') -> keeps_open s s' /\ backlog s' = backlog s.
Proof.
  intros E. destruct (unused_conn s) as [c Hc]. destruct (serve_slots_quiet c ps s ps' s') as [Hq _]; [|done|].
  - apply Forall_forall. intros p _. left. apply Hc.
  - split; [by eapply quiet_keeps|by apply Hq].
Qed.

Lemma accept_keeps L s r s' : accept L s = Ok (r, s') -> keeps_open s s'.
Proof.
  intros (e & s1 & E1%(failing_quiet 0) & E)%bind_inv. intros fd Hfd. apply (quiet_keeps _ _ _ E1) in Hfd. revert E.
  destruct e; [by intros [= _ <-]|]. run. destruct (what <$> fds s1 !! L) as [[| |c']|]; [by intros [= _ <-]| |by intros [= _ <-]..].
  destruct (backlog s1); intros [= _ <-]; [done|]. unfold kind_at in *. cbn.
  destruct (decide (lowest (dom (fds s1)) = fd)) as [<-|]; [by rewrite lookup_insert_eq|by rewrite lookup_insert_ne].
Qed.

(** No round of the server closes a descriptor, whatever happens: every client it has ever
    accepted keeps its descriptor after it has gone. *)
Theorem poll_never_closes L p ps s p' ps' s' fd :
  pass L p ps s = Ok ((p', ps'), s') -> is_Some (fds s !! fd) -> is_Some (fds s' !! fd).
Proof.
  intros (r & s1 & (e & s0 & E0%(failing_quiet 0) & E1)%bind_inv & E)%bind_inv Hfd.
  assert (s1 = s0) as -> by (destruct e; by injection E1 as _ <-).
  assert (keeps_open s0 s') as H.
  { destruct r.2 as [|q qs]; [done|]. destruct (0 <? r.1); [|injection E as <- <- <-; by intros ?]. destruct (negb _).
    - apply bind_inv in E as (a & s2 & Ea%accept_keeps & E). apply bind_inv in E as (z & s3 & Ez%(nonblock_quiet 0)%quiet_keeps & E).
      intros x Hx%Ea%Ez. destruct (z <? 0); [by injection E as <- <- <-|].
      apply bind_inv in E as (q0 & s4 & [E4 _]%serve_slots_keeps & E). injection E as <- <- <-. by apply E4.
    - apply bind_inv in E as (q0 & s4 & [E4 _]%serve_slots_keeps & E). injection E as <- <- <-. done. }
  assert (is_Some (kind_at s fd)) as Hk by (unfold kind_at; by rewrite fmap_is_Some). apply (quiet_keeps _ _ _ E0), H in Hk.
  unfold kind_at in Hk. by rewrite fmap_is_Some in Hk.
Qed.

(** ** Examples *)

Definition start : net :=
  mk_net {[0 := mk_desc Plain 0; 1 := mk_desc Plain 0; 2 := mk_desc Plain 0]} [] ∅ ∅ ∅ [].
(** The first client has come and gone, the second waits. *)
Definition demo_left : pollfd * list pollfd * net := Eval vm_compute in
  match main start with
  | Ok ((p, ps), s) =>
      match pass 3 p ps (connected 0 s) with
      | Ok ((p, ps), s) =>
          match pass 3 p ps (peer_finishes 0 s) with Ok ((p, ps), s) => (p, ps, connected 1 s) | Err _ => (p, ps, s) end
      | Err _ => (p, ps, s)
      end
  | Err _ => (mk_pollfd 0 0 0, [], start)
  end.
Definition demo_reused : pollfd * list pollfd * net := Eval vm_compute in
  match pass 3 demo_left.1.1 demo_left.1.2 demo_left.2 with Ok (ps, s) => (ps, s) | Err _ => demo_left end.

Lemma poll_reused_slot_is_never_answered_witness : exists k, conns (bytes_arrive 1 [104; 105] demo_reused.2) !! 1%nat = Some k /\
  taken k = 0%nat /\ outbox k = [].
Proof.
  apply (poll_reused_slot_is_never_answered 3 0 0 demo_left.1.1 demo_left.1.2 demo_left.2 1 [] (mk_conn [] 0 false Whole [] false)
    demo_reused.1.1 demo_reused.1.2 demo_reused.2 (demo_reused.1.1, demo_reused.1.2, bytes_arrive 1 [104; 105] demo_reused.2));
    [reflexivity|done|done|reflexivity|reflexivity|by_compute|reflexivity| |reflexivity| |reflexivity|vm_compute; reflexivity|].
  - assert (map_Forall (fun _ d => what d <> Stream 1) (fds demo_left.2)) as Hm by by_compute.
    intros fd H. apply fmap_Some in H as (d & Hd & Hw). by apply (map_Forall_lookup_1 _ _ _ _ Hm Hd).
  - assert (Forall (fun q => is_Some (fds demo_left.2 !! pfd q)) demo_left.1.2) as Hf by by_compute.
    intros j q Hq. rewrite Forall_lookup in Hf. by apply (Hf j).
  - eapply rtc_l; [apply StepBytes|apply rtc_refl].
Defined.

Lemma poll_never_closes_witness : is_Some (fds demo_reused.2 !! 4).
Proof.
  apply (poll_never_closes 3 demo_left.1.1 demo_left.1.2 demo_left.2 demo_reused.1.1 demo_reused.1.2); [vm_compute; reflexivity|by_compute].
Defined.
End Poll.
