(* ===== verification/EchoClient.v ===== *)
(** * The clients of the echo servers

    The interactive client that src/sock-tcp, src/sock-epoll-tcp, src/sock-poll-tcp,
    src/sock-thread-ctx-tcp and src/sock-select-tcp have in common ([comm]), the connection
    with a timeout four of them make first ([connect_with_timeout]), and the older client of
    src/sock-epoll-tcp with its small buffer ([func] of client.c). What the kernel answers to
    the calls is an argument of the definitions. *)
From stdpp Require Import base numbers list gmap strings.
From S2P Require Import Prelude CBase CDecimal CHeap Sock EchoTable LevelServers.
Local Open Scope Z_scope.

(** The characters [printf] shows for [%s] with an array. *)
Definition text_of (buff : list Z) : res (list Z) :=
  match c_string buff with Some x => Ok x | None => Err OutOfBounds end.
(** [strncmp(buff, "exit", 4) == 0]. *)
Definition says_exit (buff : list Z) : bool := bool_decide (take 4 buff = chars "exit").

(** ** The conversation *)
Module Chat.

(** A client in its conversation: its standard input and output, what it wrote to the
    connection (one entry for each [write]), and what its next reads find there. A read
    that finds nothing (the end of the stream, an error, the timeout of five seconds) leaves
    the buffer as it is. *)
Record chat := mk_chat { input : list Z; output : list Z; sent : list (list Z); replies : list (list Z) }.

Definition prompt : list Z := chars "client message : ".
Definition heard : list Z := chars "server message : ".
Definition farewell : list Z := chars "client exit" ++ [10].

(** The upper half of the loop: one line is read and written. *)
Definition comm_send (c : chat) : chat :=
  let line := chunk 1023 (input c) in
  mk_chat (drop (length line) (input c)) (output c ++ prompt) (sent c ++ [padded MAX_BUFF line]) (replies c).

(** The lower half: a reply is read and shown. The result says whether the loop ends. *)
Definition comm_show (c : chat) : res (bool * chat) :=
  let bs := take MAX_BUFF (default [] (head (replies c))) in
  let buff := padded MAX_BUFF bs in
  x ← text_of buff;
  let rest := match drop MAX_BUFF (default [] (head (replies c))) with [] => tail (replies c) | r => r :: tail (replies c) end in
  let done := says_exit buff in
  Ok (done, mk_chat (input c) (output c ++ heard ++ x ++ (if done then farewell else [])) (sent c) rest).

(** Up to [n] turns of the loop, and whether it ended. *)
Fixpoint comm (n : nat) (c : chat) : res (bool * chat) :=
  match n with
  | O => Ok (false, c)
  | S n' =>
      r ← comm_show (comm_send c);
      if (r.1 : bool) then Ok r else comm n' r.2
  end.

(** The lines of an input as the client takes them. *)
Fixpoint lines (n : nat) (x : list Z) : list (list Z) :=
  match n with
  | O => []
  | S n' => let l := chunk 1023 x in l :: lines n' (drop (length l) x)
  end.

Lemma padded_short n x : (length x <= n)%nat -> take n (padded n x) = padded n x.
Proof. intros H. rewrite take_ge; [done|]. rewrite length_padded by done. lia. Qed.
Lemma answer_line l : no_nul l -> answer (padded MAX_BUFF l) = SERVER_RESP ++ l.
Proof. intros H. unfold answer. by rewrite c_chars_padded, c_chars_none. Qed.

(** A text that begins like an answer never makes the client leave. *)
Lemma answer_stays x : says_exit (padded MAX_BUFF (SERVER_RESP ++ x)) = false.
Proof. done. Qed.

Lemma show_answer c x r : replies c = (SERVER_RESP ++ x) :: r -> no_nul x -> (length x <= 1010)%nat ->
  comm_show c = Ok (false, mk_chat (input c) (output c ++ heard ++ SERVER_RESP ++ x) (sent c) r).
Proof.
  intros Hr Hx Hl. assert (length (SERVER_RESP ++ x) <= 1023)%nat as Hlen by (rewrite length_app; change (length SERVER_RESP) with 13%nat; lia).
  unfold comm_show. rewrite Hr. change (default [] (head ((SERVER_RESP ++ x) :: r))) with (SERVER_RESP ++ x).
  rewrite take_ge, drop_ge by (unfold MAX_BUFF; lia). cbn [tail].
  unfold text_of. rewrite c_string_padded.
  - cbn [mbind res_bind]. rewrite answer_stays, app_nil_r, c_chars_none; [done|]. apply Forall_app. split; [apply no_nul_resp|done].
  - pose proof (length_c_chars (SERVER_RESP ++ x)). unfold MAX_BUFF. lia.
  - unfold MAX_BUFF. lia.
Qed.

(** The transcript of a conversation. *)
Definition transcript (ls : list (list Z)) : list Z := ls ≫= (fun l => prompt ++ heard ++ SERVER_RESP ++ l).

Lemma comm_answered n c : no_nul (input c) -> Forall (fun l => (length l <= 1010)%nat) (lines n (input c)) ->
  (exists rest, replies c = (answer <$> (padded MAX_BUFF <$> lines n (input c))) ++ rest) ->
  exists c', comm n c = Ok (false, c') /\ output c' = output c ++ transcript (lines n (input c)) /\
    sent c' = sent c ++ (padded MAX_BUFF <$> lines n (input c)).
Proof.
  revert c. induction n as [|n IH]; intros c Hn Hl [rest Hr].
  - exists c. cbn. by rewrite !app_nil_r.
  - cbn [lines] in *. set (l := chunk 1023 (input c)) in *. apply Forall_cons in Hl as [Hl Hls].
    assert (no_nul l) as Hnl by (by apply chunk_no_nul). rewrite !fmap_cons, answer_line in Hr by done.
    cbn [comm]. erewrite show_answer; [|exact Hr|done|done]. cbn [mbind res_bind fst snd].
    destruct (IH (mk_chat (drop (length l) (input c)) ((output c ++ prompt) ++ heard ++ SERVER_RESP ++ l)
      (sent c ++ [padded MAX_BUFF l]) ((answer <$> (padded MAX_BUFF <$> lines n (drop (length l) (input c)))) ++ rest))) as (c' & E & Ho & Hs).
    + by apply Forall_drop.
    + done.
    + by exists rest.
    + exists c'. split; [exact E|]. rewrite Ho, Hs. cbn [input output sent]. rewrite fmap_cons. split; [|by rewrite <- app_assoc].
      unfold transcript. cbn [mbind list_bind]. by rewrite <- !app_assoc.
Qed.

(** ** A client and the select server *)

(** What [comm] writes for a line the server can answer. *)
Definition message (m : list Z) : Prop := exists l, m = padded MAX_BUFF l /\ no_nul l /\ (length l <= 1010)%nat.

Lemma polite_app x y : polite x -> x = [] \/ last x = Some 0 -> polite y -> polite (x ++ y).
Proof.
  intros Hx Hl Hy i. destruct (decide (length x <= i)%nat) as [Hi|Hi].
  - rewrite drop_app, drop_ge by done. apply Hy.
  - destruct Hl as [->|Hl]; [cbn in Hi; lia|]. apply last_Some in Hl as [x' ->]. rewrite length_app in Hi. cbn in Hi.
    specialize (Hx i). rewrite drop_app_le in Hx by lia. rewrite <- app_assoc, drop_app_le by lia.
    destruct (c_string (drop i x' ++ [0])) as [z|] eqn:E; [|by destruct (c_string_app (drop i x') [0] ltac:(left)); congruence].
    assert (forall w, c_chars (drop i x' ++ 0 :: w) = c_chars (drop i x' ++ [0])) as Hw.
    { clear. intros w. induction (drop i x') as [|a d IH]; [done|]. cbn. destruct (a =? 0); [done|]. by rewrite IH. }
    cbn [app]. by rewrite Hw.
Qed.
Lemma message_last m : message m -> last m = Some 0.
Proof.
  intros (l & -> & _ & Hl). unfold padded, MAX_BUFF. destruct (1024 - length l)%nat as [|n] eqn:E; [lia|].
  by rewrite replicate_S_end, app_assoc, last_snoc.
Qed.
Lemma message_polite m : message m -> polite m.
Proof.
  intros (l & -> & Hn & Hl) i. unfold padded. rewrite drop_app, drop_replicate.
  assert (forall a b, c_chars (a ++ replicate b 0) = c_chars a) as ->.
  { intros a b. induction a as [|z a IH]; [by destruct b|]. cbn. destruct (z =? 0); [done|]. by rewrite IH. }
  etrans; [apply length_c_chars|]. rewrite length_drop. lia.
Qed.
Lemma messages_polite ms : Forall message ms -> polite (concat ms) /\ (concat ms = [] \/ last (concat ms) = Some 0).
Proof.
  intros H. induction ms as [|m ms IH] using rev_ind; [split; [by apply polite_short; cbn; lia|by left]|].
  apply Forall_app in H as [H Hm]. rewrite Forall_singleton in Hm. destruct (IH H) as [Hp Hl]. rewrite concat_app. cbn [concat]. rewrite app_nil_r. split.
  - apply polite_app; [done..|]. by apply message_polite.
  - right. by rewrite last_app, (message_last m Hm).
Qed.

(** The client on connection [c] has had an answer to everything it wrote. *)
Record talking (s : net) (c : nat) (ct : chat) : Prop := {
  tk_open : exists fd, kind_at s fd = Some (Stream c);
  tk_conn : exists k, conns s !! c = Some k /\ arrived k = concat (sent ct) /\ taken k = length (arrived k) /\ finished k = false;
  tk_sent : Forall message (sent ct);
  tk_replies : replies ct = [] }.
(** The client when one reply has arrived. *)
Definition replied (m : list Z) (ct : chat) : chat := mk_chat (input ct) (output ct) (sent ct) [m].

(** A connection when the bytes of a line have arrived, and when it was served. *)
Lemma line_served k l : taken k = length (arrived k) -> reset k = Whole -> no_nul l -> (length l <= 1010)%nat ->
  let k1 := mk_conn (arrived k ++ padded MAX_BUFF l) (taken k) (finished k) (reset k) (outbox k) (gone k) in
  conn_readable k1 = true /\
  Select.served k1 = mk_conn (arrived k ++ padded MAX_BUFF l) (length (arrived k ++ padded MAX_BUFF l)) (finished k) Whole
    (outbox k ++ [SERVER_RESP ++ l]) (gone k).
Proof.
  intros Ht Hb Hn Hl k1. assert (length (padded MAX_BUFF l) = MAX_BUFF) as Hlen by (apply length_padded; unfold MAX_BUFF; lia).
  assert (pending k1 = padded MAX_BUFF l) as Hp by (unfold pending, k1; cbn [taken arrived]; by rewrite Ht, drop_app_length).
  assert (pending k1 <> []) as Hne by (rewrite Hp; intros E; rewrite E in Hlen; done).
  split; [unfold conn_readable; by rewrite bool_decide_true|]. unfold Select.served. rewrite decide_False by done.
  unfold answered, bite. rewrite Hp, take_ge by (by rewrite Hlen). unfold k1. cbn [arrived taken finished broken outbox gone].
  by rewrite Hb, Ht, answer_line, length_app.
Qed.

(** C31: a client and the select server together, in any state the server can reach with clients
    that send no stretch of more than 1010 bytes without a zero byte and do not break off, with
    no failing call, a free descriptor below 1024, and a free slot or no client waiting: a line
    of at most 1010 characters, typed at a client that has had all its answers, is answered in
    the next round; the client shows it after the server's text, goes on, and has again had
    all its answers. *)
Theorem select_client_gets_its_line L arr0 s0 arr s c ct (l := chunk 1023 (input ct)) :
  Select.main Select.start = Ok (inr (L, arr0), s0) -> rtc (Select.step L) (arr0, s0) (arr, s) ->
  lowest (dom (fds s)) < Select.FD_SETSIZE -> Select.has_room arr s -> talking s c ct -> no_nul l -> (length l <= 1010)%nat ->
  exists arr' s' k k' m ct', sent (comm_send ct) = sent ct ++ [padded MAX_BUFF l] /\
    Select.pass L arr (bytes_arrive c (padded MAX_BUFF l) s) = Ok (inr arr', s') /\
    conns s !! c = Some k /\ conns s' !! c = Some k' /\ outbox k' = outbox k ++ [m] /\
    comm_show (replied m (comm_send ct)) = Ok (false, ct') /\
    output ct' = output ct ++ prompt ++ heard ++ SERVER_RESP ++ l /\ input ct' = drop (length l) (input ct) /\
    rtc (Select.step L) (arr0, s0) (arr', s') /\ talking s' c ct'.
Proof.
  intros E0 Hr Hlow Hroom [[fd Hfd] (k & Hk & Ha & Ht & Hf) Hs Hre] Hn Hl.
  pose proof (Select.reachable_serving _ _ _ _ _ E0 Hr) as HS. destruct HS as [[HT _ Hpol] _ _ _ _].
  destruct (Hpol _ _ Hk) as [_ Hb]. destruct (messages_polite _ Hs) as [Hp Hlast].
  assert (message (padded MAX_BUFF l)) as Hm by (by exists l).
  assert (rtc (Select.step L) (arr0, s0) (arr, bytes_arrive c (padded MAX_BUFF l) s)) as Hr1.
  { eapply rtc_r; [exact Hr|]. eapply Select.StepBytes; [exact Hk|]. rewrite Ha. apply polite_app; [done..|by apply message_polite]. }
  destruct (Select.round_serves L arr (bytes_arrive c (padded MAX_BUFF l) s)) as (arr' & s' & E & HS' & Hb' & HA & _);
    [by eapply Select.reachable_serving|done|done|].
  destruct (line_served k l Ht Hb Hn Hl) as [Hrd Hsv].
  pose proof (HA c (mk_conn (arrived k ++ padded MAX_BUFF l) (taken k) (finished k) (reset k) (outbox k) (gone k)) fd) as Hk'.
  rewrite Hrd, Hsv in Hk'. specialize (Hk' ltac:(unfold bytes_arrive, stirred; cbn [conns]; by rewrite lookup_alter_eq, Hk) Hfd).
  eexists arr', s', k, _, (SERVER_RESP ++ l), _. split_and!; [done|done|done|exact Hk'|done|by apply show_answer|..].
  - cbn [output comm_send replied]. by rewrite <- !app_assoc.
  - done.
  - eapply rtc_r; [exact Hr1|by apply Select.StepRound].
  - assert (gone k = false) as Hg by (apply (tb_gone _ _ _ HT c k Hk); eauto).
    constructor; cbn [sent comm_send replied replies]; [| |by apply Forall_app; rewrite Forall_singleton|done].
    + destruct (proj1 (tb_gone _ _ _ (Select.gd_table _ _ _ (Select.sv_good _ _ _ HS')) c _ Hk') Hg) as [Hin|?]; [|done].
      exfalso. apply (tb_waiting _ _ _ HT c fd); [|done]. rewrite Hb' in Hin. change (c ∈ tail (backlog s)) in Hin.
      destruct (backlog s); [done|by right].
    + eexists. split; [exact Hk'|]. cbn [arrived taken finished]. rewrite concat_app, Ha. cbn [concat]. by rewrite app_nil_r.
Qed.

Lemma select_client_gets_its_line_witness : exists arr' s' ct',
  Select.pass 3 Select.one_client.1 (bytes_arrive 0 (padded MAX_BUFF (chars "hi" ++ [10])) Select.one_client.2) = Ok (inr arr', s') /\
  talking s' 0 ct' /\ output ct' = chars "client message : server message : SERVER RESP: hi" ++ [10].
Proof.
  destruct (select_client_gets_its_line 3 (replicate Select.MAX_CONN 0) Select.listening_net Select.one_client.1 Select.one_client.2
    0 (mk_chat (chars "hi" ++ [10]) [] [] [])) as (arr' & s' & k & k' & m & ct' & _ & E & _ & _ & _ & _ & Ho & _ & _ & Ht).
  - exact Select.main_start.
  - exact Select.one_client_run.
  - by_compute.
  - left. reflexivity.
  - constructor; [by exists 4|by eexists|constructor|reflexivity].
  - by_compute.
  - by_compute.
  - exists arr', s', ct'. split; [exact E|]. split; [exact Ht|exact Ho].
Defined.

(** With a server that answers as the echo servers do, the client never ends by itself,
    for any number of turns, whatever is typed: the text [exit] comes back after the
    server's own words, and at the end of the input empty lines are sent for ever. Until
    then it shows each line after the server's text, in order. *)
Theorem comm_never_leaves n ct : no_nul (input ct) -> Forall (fun l => (length l <= 1010)%nat) (lines n (input ct)) ->
  replies ct = (answer <$> (padded MAX_BUFF <$> lines n (input ct))) ->
  exists ct', comm n ct = Ok (false, ct') /\ output ct' = output ct ++ transcript (lines n (input ct)) /\
    sent ct' = sent ct ++ (padded MAX_BUFF <$> lines n (input ct)).
Proof. intros Hn Hl Hr. apply comm_answered; [done..|]. exists []. by rewrite app_nil_r. Qed.

Lemma comm_never_leaves_witness :
  exists ct', comm 5 (mk_chat (chars "exit" ++ [10]) [] [] (answer <$> (padded MAX_BUFF <$> lines 5 (chars "exit" ++ [10])))) = Ok (false, ct').
Proof.
  destruct (comm_never_leaves 5 (mk_chat (chars "exit" ++ [10]) [] [] (answer <$> (padded MAX_BUFF <$> lines 5 (chars "exit" ++ [10])))))
    as (ct' & E & _); [by_compute|by_compute|reflexivity|]. exists ct'. exact E.
Defined.
End Chat.

(** ** Connecting with a timeout *)
Module Dial.

Definition EINTR : Z := 4.
Definition EWOULDBLOCK : Z := 11.
Definition ETIMEDOUT : Z := 110.
Definition EINPROGRESS : Z := 115.

(** What the calls of one turn of the loop give: the clock (seconds and nanoseconds), the
    result of [poll] or [select], that of [getsockopt] with the error of the socket, and
    [errno] as the calls leave it. *)
Record attempt := mk_attempt { at_time : Z * Z; polled : Z; opt_result : Z; so_error : Z; left_errno : Z }.

(** What the calls before and after the loop give. *)
Record line_up := mk_line_up {
  l_socket : Z; l_pton : Z; l_rcvtimeo : Z; l_sndtimeo : Z; l_getfl : Z; l_setfl : Z;
  l_connect : Z; l_errno : Z; l_now : Z * Z; l_restore : Z }.

(** The result, how long each [poll] was asked to wait, and the flags of the socket if one
    was made: it is left open in any case. *)
Record dialled := mk_dialled { rc : Z; waits : list Z; left_flags : option Z }.

(** [int ms_until_deadline]. *)
Definition ms_until_deadline (now deadline : Z * Z) : Z :=
  s32 ((deadline.1 - now.1) * 1000 + Z.quot (deadline.2 - now.2) 1000000).

(** The loop, with what a wait depends on. [None]: it is still trying after the given
    attempts. *)
Fixpoint try_connect (wait : Z -> Z) (now : Z * Z) (timeout : Z) (tries : list attempt) : option (Z * list Z) :=
  match tries with
  | [] => None
  | t :: rest =>
      let ms := ms_until_deadline now (at_time t) in
      if timeout <? ms then Some (-10, [])
      else
        let known := (0 <? polled t) && (opt_result t =? 0) in
        let error := if known then so_error t else 0 in
        let errno := if known then so_error t else left_errno t in
        let rc := if (0 <? polled t) && negb (error =? 0) then -11 else polled t in
        if (rc =? -11) && (errno =? EINTR) then
          r ← try_connect wait now timeout rest; Some (r.1, wait ms :: r.2)
        else Some (rc, [wait ms])
  end.

Definition connect_in (wait : Z -> Z) (timeout : Z) (l : line_up) (tries : list attempt) : option dialled :=
  if l_socket l <? 0 then Some (mk_dialled (-1) [] None) else
  if l_pton l <=? 0 then Some (mk_dialled (-2) [] (Some 0)) else
  if l_rcvtimeo l <? 0 then Some (mk_dialled (-3) [] (Some 0)) else
  if l_sndtimeo l <? 0 then Some (mk_dialled (-4) [] (Some 0)) else
  let sockfd_flags_before := l_getfl l in
  if sockfd_flags_before <? 0 then Some (mk_dialled (-5) [] (Some 0)) else
  if l_setfl l <? 0 then Some (mk_dialled (-6) [] (Some sockfd_flags_before)) else
  let flags := Z.lor sockfd_flags_before O_NONBLOCK in
  r ← (if l_connect l <? 0 then
         if negb (l_errno l =? EWOULDBLOCK) && negb (l_errno l =? EINPROGRESS) then Some (-11, [])
         else try_connect wait (l_now l) timeout tries
       else Some (0, []));
  if l_restore l <? 0 then Some (mk_dialled (-20) r.2 (Some flags))
  else Some (mk_dialled r.1 r.2 (Some sockfd_flags_before)).

(** With [poll], and with [select], whose [tv_usec] is a second. *)
Definition connect_with_timeout : Z -> line_up -> list attempt -> option dialled := connect_in (fun ms => ms).
Definition select_connect_with_timeout : Z -> line_up -> list attempt -> option dialled := connect_in (fun _ => 1000).

(** Whether [main] goes on to its conversation. *)
Definition main_talks (l : line_up) (tries : list attempt) : option bool :=
  d ← connect_with_timeout 5000 l tries; Some (negb (rc d <? 0)).

(** Every call but [connect] succeeds. *)
Definition smooth (l : line_up) : Prop :=
  0 <= l_socket l /\ 0 < l_pton l /\ 0 <= l_rcvtimeo l /\ 0 <= l_sndtimeo l /\ 0 <= l_getfl l /\ 0 <= l_setfl l /\ 0 <= l_restore l.
Definition in_progress (l : line_up) : Prop := l_connect l < 0 /\ (l_errno l = EWOULDBLOCK \/ l_errno l = EINPROGRESS).

Lemma connect_smooth wait timeout l tries : smooth l -> connect_in wait timeout l tries =
  r ← (if l_connect l <? 0 then
         if negb (l_errno l =? EWOULDBLOCK) && negb (l_errno l =? EINPROGRESS) then Some (-11, [])
         else try_connect wait (l_now l) timeout tries
       else Some (0, []));
  Some (mk_dialled r.1 r.2 (Some (l_getfl l))).
Proof.
  intros (H1 & H2 & H3 & H4 & H5 & H6 & H7). unfold connect_in.
  repeat match goal with |- context [if ?x <? 0 then Some (mk_dialled _ _ _) else _] => rewrite (proj2 (Z.ltb_ge x 0)) by lia end.
  by rewrite (proj2 (Z.leb_gt _ _)) by lia.
Qed.

(** What the results of the loop mean. *)
Definition meant (l : line_up) (timeout : Z) (tries : list attempt) (r : Z) : Prop :=
  exists t, t ∈ tries /\
    if timeout <? ms_until_deadline (l_now l) (at_time t) then r = -10
    else if polled t <=? 0 then r = polled t
    else if (opt_result t =? 0) && negb (so_error t =? 0) then r = -11
    else r = polled t.

Lemma try_connect_meant wait l timeout tries r w : try_connect wait (l_now l) timeout tries = Some (r, w) -> meant l timeout tries r.
Proof.
  revert r w. induction tries as [|t tries IH]; intros r w; [done|]. cbn [try_connect].
  assert (meant l timeout tries r -> meant l timeout (t :: tries) r) as Hcons by (intros (x & Hx & H); exists x; split; [by right|done]).
  destruct (timeout <? _) eqn:E1.
  { intros [= <- <-]. exists t. split; [left|]. by rewrite E1. }
  destruct (_ && (_ =? EINTR)) eqn:E2.
  { destruct (try_connect _ _ _ tries) as [[r' w']|] eqn:E; [|done]. cbn. intros [= -> <-]. apply Hcons. by eapply IH. }
  intros [= <- <-]. exists t. split; [left|]. rewrite E1. clear E2. rewrite Z.ltb_antisym. destruct (polled t <=? 0); cbn; [done|].
  destruct (opt_result t =? 0); cbn; [|done]. by destruct (so_error t =? 0).
Qed.

(** When the other calls succeed, the flags of the socket are as they were before, and the
    result says what became of the connection: 0 when it was made at once, -11 when it was
    refused at once, and otherwise what the last turn of the loop found: -10 when the clock
    has passed the timeout, -11 when the socket has an error, and the result of [poll] else. *)
Theorem connect_results_mean timeout l tries d : smooth l -> connect_with_timeout timeout l tries = Some d ->
  left_flags d = Some (l_getfl l) /\
  (0 <= l_connect l -> rc d = 0) /\
  (l_connect l < 0 -> ~ in_progress l -> rc d = -11) /\
  (in_progress l -> meant l timeout tries (rc d)).
Proof.
  intros Hs. unfold connect_with_timeout. rewrite connect_smooth by done.
  destruct (l_connect l <? 0) eqn:Ec; zbool; [|intros [= <-]; unfold in_progress; cbn; split_and!; [done|done|lia|lia]].
  destruct (_ && _) eqn:Ee.
  - apply andb_true_iff in Ee as [E1%negb_true_iff E2%negb_true_iff]. zbool. intros [= <-]. cbn.
    unfold in_progress. split_and!; [done|lia|done|]. intros [_ [?|?]]; done.
  - destruct (try_connect _ _ _ _) as [[r w]|] eqn:E; [|done]. intros [= <-]. cbn. split_and!; [done|lia| |intros _; by eapply try_connect_meant].
    intros _ Hn. exfalso. apply Hn. split; [lia|]. apply andb_false_iff in Ee as [H%negb_false_iff|H%negb_false_iff]; zbool; tauto.
Qed.

(** A connection that takes time is taken for made: [poll] is asked to wait for the time
    that has passed and not for the time that is left, none at the first turn, and when
    the connection is then not yet there the result is 0, with which [main] begins its
    conversation. *)
Theorem pending_connection_is_taken_for_made l t tries : smooth l -> in_progress l ->
  ms_until_deadline (l_now l) (at_time t) = 0 -> polled t = 0 ->
  connect_with_timeout 5000 l (t :: tries) = Some (mk_dialled 0 [0] (Some (l_getfl l))) /\ main_talks l (t :: tries) = Some true.
Proof.
  intros Hs [Hc He] Hms Hp.
  assert (connect_with_timeout 5000 l (t :: tries) = Some (mk_dialled 0 [0] (Some (l_getfl l)))) as E.
  { unfold connect_with_timeout. rewrite connect_smooth by done. rewrite (proj2 (Z.ltb_lt _ _) Hc).
    assert (negb (l_errno l =? EWOULDBLOCK) && negb (l_errno l =? EINPROGRESS) = false) as -> by (by destruct He as [-> | ->]).
    cbn [try_connect]. rewrite Hms, Hp. done. }
  split; [done|]. unfold main_talks. by rewrite E.
Qed.

Definition usual : line_up := mk_line_up 3 1 0 0 2 0 (-1) EINPROGRESS (100, 5) 0.
Lemma connect_results_mean_witness :
  connect_with_timeout 5000 usual [mk_attempt (100, 1000005) 1 0 EINTR 0; mk_attempt (100, 6000005) 1 0 111 0] = Some (mk_dialled (-11) [1; 6] (Some 2)) /\
  meant usual 5000 [mk_attempt (100, 1000005) 1 0 EINTR 0; mk_attempt (100, 6000005) 1 0 111 0] (-11).
Proof.
  assert (connect_with_timeout 5000 usual [mk_attempt (100, 1000005) 1 0 EINTR 0; mk_attempt (100, 6000005) 1 0 111 0] = Some (mk_dialled (-11) [1; 6] (Some 2))) as E
    by reflexivity.
  split; [exact E|]. apply (connect_results_mean 5000 usual _ (mk_dialled (-11) [1; 6] (Some 2))); [unfold smooth; cbn; lia|exact E|split; [reflexivity|right; reflexivity]].
Defined.
Lemma pending_connection_is_taken_for_made_witness :
  main_talks usual [mk_attempt (100, 600) 0 0 0 0] = Some true.
Proof.
  apply (pending_connection_is_taken_for_made usual (mk_attempt (100, 600) 0 0 0 0) []);
    [unfold smooth; cbn; lia|split; [reflexivity|right; reflexivity]|reflexivity|reflexivity].
Defined.
End Dial.

(** ** The client with a small buffer *)
Module Small.
Definition MAX : nat := 80.

(** [while ((buff[n++] = getchar()) != '\n')], for at most [fuel] characters: at the end of
    the input [getchar] gives -1 each time. One more than the size of the buffer is
    enough. *)
Fixpoint getchars (fuel : nat) (n : Z) (buff input : list Z) : res (list Z * list Z) :=
  match fuel with
  | O => Err OutOfFuel
  | S f =>
      let c := default (-1) (head input) in
      buff ← set_at buff n c;
      if c =? 10 then Ok (buff, tail input) else getchars f (n + 1) buff (tail input)
  end.

(** One turn of [func], with what its [read] finds: what it writes, what it shows, whether
    it ends, and the rest of the input. *)
Definition func (input : list Z) (reply : list Z -> list Z) : res (list Z * list Z * bool * list Z) :=
  r ← getchars (S MAX) 0 (padded MAX []) input;
  let buff := padded MAX (take MAX (reply r.1)) in
  x ← text_of buff;
  Ok (r.1, x, says_exit buff, r.2).

Lemma getchars_line l : 10 ∉ l -> forall f x rest, (length l < f)%nat -> (length x + length l < MAX)%nat ->
  getchars f (Z.of_nat (length x)) (padded MAX x) (l ++ 10 :: rest) = Ok (padded MAX (x ++ l ++ [10]), rest).
Proof.
  intros H. induction l as [|c l IH]; intros f x rest Hf Hx; destruct f as [|f]; [cbn in Hf; lia| |cbn in Hf; lia|]; cbn in Hf, Hx; cbn [getchars].
  - rewrite set_padded by lia. done.
  - apply not_elem_of_cons in H as [Hc H]. change (default (-1) (head ((c :: l) ++ 10 :: rest))) with c. rewrite set_padded by lia.
    cbn [mbind res_bind]. destruct (c =? 10) eqn:E; zbool; [congruence|]. change (tail ((c :: l) ++ 10 :: rest)) with (l ++ 10 :: rest).
    replace (Z.of_nat (length x) + 1) with (Z.of_nat (length (x ++ [c]))) by (rewrite length_app; cbn; lia).
    rewrite IH; [by rewrite <- app_assoc|done|lia|rewrite length_app; cbn; lia].
Qed.
Lemma getchars_long f : forall x inp, (length x <= MAX)%nat -> (MAX - length x < f)%nat -> 10 ∉ take (MAX - length x) inp ->
  getchars f (Z.of_nat (length x)) (padded MAX x) inp = Err OutOfBounds.
Proof.
  induction f as [|f IH]; intros x inp Hx Hf H; [lia|]. cbn [getchars].
  destruct (decide (length x = MAX)) as [E|E].
  - rewrite set_at_bad; [done|]. right. unfold CBase.size. rewrite length_padded by lia. lia.
  - set (c := default (-1) (head inp)). rewrite set_padded by lia. cbn [mbind res_bind].
    destruct (MAX - length x)%nat as [|m] eqn:Em; [lia|].
    assert (c <> 10 /\ 10 ∉ take m (tail inp)) as [Hc Ht].
    { destruct inp as [|a inp]; [split; [done|by destruct m; apply not_elem_of_nil]|]. cbn in H. apply not_elem_of_cons in H as [? ?]. cbn. split; [congruence|done]. }
    destruct (c =? 10) eqn:E2; zbool; [congruence|].
    replace (Z.of_nat (length x) + 1) with (Z.of_nat (length (x ++ [c]))) by (rewrite length_app; cbn; lia).
    assert (MAX - length (x ++ [c]) = m)%nat as Em' by (rewrite length_app; cbn [length]; lia).
    apply IH; [rewrite length_app; cbn [length]; lia|lia|by rewrite Em'].
Qed.

(** With an echo server, a line of at most 65 characters is shown after the server's text.
    A line of 66 to 79 characters comes back too long for the buffer, and showing it reads
    past its end; without a newline among the next 80 characters, as at the end of the
    input, the line itself is written past the end. *)
Theorem small_client_bounds l rest inp : no_nul l -> 10 ∉ l -> 10 ∉ take MAX inp ->
  ((length l <= 65)%nat ->
   func (l ++ 10 :: rest) answer = Ok (padded MAX (l ++ [10]), SERVER_RESP ++ l ++ [10], false, rest)) /\
  ((66 <= length l <= 79)%nat -> func (l ++ 10 :: rest) answer = Err OutOfBounds) /\
  func inp answer = Err OutOfBounds.
Proof.
  intros Hn H10 Hlong. assert (no_nul (l ++ [10])) as Hn' by (by apply Forall_app; rewrite Forall_singleton).
  assert ((length l <= 79)%nat -> forall g, (r ← getchars (S MAX) 0 (padded MAX []) (l ++ 10 :: rest); g r) = (g (padded MAX (l ++ [10]), rest) : res (list Z * list Z * bool * list Z))) as Hfill.
  { intros Hl g. assert (getchars (S MAX) 0 (padded MAX []) (l ++ 10 :: rest) = Ok (padded MAX (l ++ [10]), rest)) as ->; [|done].
    apply (getchars_line l H10 (S MAX) []); unfold MAX; cbn [length]; lia. }
  assert (answer (padded MAX (l ++ [10])) = SERVER_RESP ++ l ++ [10]) as Ha by (unfold answer; by rewrite c_chars_padded, c_chars_none).
  assert (no_nul (SERVER_RESP ++ l ++ [10])) as Hna by (by apply Forall_app; split; [apply no_nul_resp|]).
  assert (length (SERVER_RESP ++ l ++ [10]) = (14 + length l)%nat) as Hla by (rewrite !length_app; change (length SERVER_RESP) with 13%nat; cbn [length]; lia).
  split_and!.
  - intros Hl. unfold func. rewrite Hfill by lia. cbn [fst snd]. rewrite Ha, take_ge by (unfold MAX; lia).
    unfold text_of. rewrite c_string_padded, c_chars_none; [done|done|rewrite c_chars_none by done|]; unfold MAX; lia.
  - intros Hl. unfold func. rewrite Hfill by lia. cbn [fst snd]. rewrite Ha. unfold text_of, padded.
    rewrite (length_take_le (SERVER_RESP ++ l ++ [10]) MAX) by (unfold MAX; lia). rewrite Nat.sub_diag, app_nil_r.
    rewrite c_string_none; [done|]. by apply Forall_take.
  - unfold func. assert (getchars (S MAX) 0 (padded MAX []) inp = Err OutOfBounds) as ->; [|done].
    apply (getchars_long (S MAX) []); [unfold MAX; cbn; lia..|]. done.
Qed.
Lemma small_client_bounds_witness :
  func (replicate 65 97 ++ 10 :: []) answer = Ok (padded MAX (replicate 65 97 ++ [10]), SERVER_RESP ++ replicate 65 97 ++ [10], false, []) /\
  func (replicate 70 97 ++ 10 :: []) answer = Err OutOfBounds /\ func [97; 98] answer = Err OutOfBounds.
Proof.
  split; [|split].
  - apply (small_client_bounds (replicate 65 97) [] []); by_compute.
  - apply (small_client_bounds (replicate 70 97) [] []); by_compute.
  - apply (small_client_bounds [] [] [97; 98]); by_compute.
Defined.
End Small.
