(* ===== verification/PlainSockets.v ===== *)
(** * The blocking socket pairs

    src/sock-tcp: a server for one client that answers each message until one begins with
    [exit], and the interactive client, as a step relation of the two programs and the bytes
    between them; the bytes of one [write] arrive together. What the client does after the
    server has ended belongs to it: its first [write] is answered by a reset, and one after
    that is a SIGPIPE. src/sock-udp: a client that
    sends one line as a datagram and a server that sends it back. *)
From stdpp Require Import base numbers list gmap strings relations.
From S2P Require Import Prelude CBase CDecimal CHeap Sock EchoTable LevelServers EchoClient.
Local Open Scope Z_scope.

Module Tcp.
Import Chat.

(** One turn of [func] after [read] found [bs]: what it shows, what it writes, whether it
    ends. *)
Definition func (bs : list Z) : res (list Z * list Z * bool) :=
  let rbuff := padded MAX_BUFF bs in
  x ← text_of rbuff;
  wbuff ← reply SERVER_RESP bs;
  let ending := says_exit rbuff in
  Ok (chars "client message: " ++ x ++ [10; 32] ++ (if ending then chars "server exit" ++ [10] else []), wbuff, ending).

(** The connection, seen by the client: a text sent after the server has ended is answered
    with a reset; when that has arrived, the next [write] raises SIGPIPE. *)
Inductive line_state := Open | Late | Broken.

(** The two programs: the client, which may be waiting for a reply, be done or have been killed
    by the signal, what is on its way to the server, whether the server is running, the
    connection, and what the server has shown. *)
Record pair := mk_pair {
  client : chat; waiting : bool; left_ : bool; killed : bool; up : list Z; running : bool; line : line_state; shown : list Z }.

(** The client reads a line and is killed when it writes it. *)
Definition last_line (c : chat) : chat := mk_chat (input (comm_send c)) (output (comm_send c)) (sent c) (replies c).

(** A read of the client waits for a reply or the end of the stream, which leaves its buffer empty. *)
Inductive step : pair -> pair -> Prop :=
  | Types c u o m : sent (comm_send c) = sent c ++ [m] ->
      step (mk_pair c false false false u true Open o) (mk_pair (comm_send c) true false false (u ++ m) true Open o)
  | TypesLate c u l o : l <> Broken ->
      step (mk_pair c false false false u false l o) (mk_pair (comm_send c) true false false u false Late o)
  | TypesKilled c u o :
      step (mk_pair c false false false u false Broken o) (mk_pair (last_line c) false false true u false Broken o)
  | ResetArrives c w lf k u o : step (mk_pair c w lf k u false Late o) (mk_pair c w lf k u false Broken o)
  | Serves c w lf k u l o o' wbuff ending : u <> [] -> func (take MAX_BUFF u) = Ok (o', wbuff, ending) ->
      step (mk_pair c w lf k u true l o)
        (mk_pair (mk_chat (input c) (output c) (sent c) (replies c ++ [wbuff])) w lf k (drop MAX_BUFF u) (negb ending) l (o ++ o'))
  | Shows c u b l o lf c' : replies c <> [] \/ b = false -> comm_show c = Ok (lf, c') ->
      step (mk_pair c true false false u b l o) (mk_pair c' false lf false u b l o).

Definition start (x : list Z) : pair := mk_pair (mk_chat x [] [] []) false false false [] true Open [].

(** What the server shows for a line. *)
Definition server_shows (l : list Z) : list Z := chars "client message: " ++ l ++ [10; 32].

Lemma func_line l : no_nul l -> (length l <= 1010)%nat ->
  func (padded MAX_BUFF l) = Ok (server_shows l ++ (if says_exit (padded MAX_BUFF l) then chars "server exit" ++ [10] else []),
    padded MAX_BUFF (SERVER_RESP ++ l), says_exit (padded MAX_BUFF l)).
Proof.
  intros Hn Hl. assert (length (padded MAX_BUFF l) = MAX_BUFF) as Hlen by (apply length_padded; unfold MAX_BUFF; lia).
  assert (padded MAX_BUFF (padded MAX_BUFF l) = padded MAX_BUFF l) as Hp.
  { unfold padded at 1. rewrite Hlen, Nat.sub_diag. apply app_nil_r. }
  unfold func. rewrite Hp. unfold text_of. rewrite c_string_padded, c_chars_none by (rewrite ?c_chars_none by done; unfold MAX_BUFF; done || lia).
  cbn [mbind res_bind]. fold (response (padded MAX_BUFF l)).
  rewrite response_ok, answer_line by (rewrite ?Hlen, ?c_chars_padded, ?c_chars_none by done; done || lia).
  unfold server_shows. cbn [mbind res_bind]. by rewrite <- !app_assoc.
Qed.

(** The client shows the 1024 bytes of an answer as it shows its text. *)
Lemma show_padded c x r : replies c = padded MAX_BUFF (SERVER_RESP ++ x) :: r -> no_nul x -> (length x <= 1010)%nat ->
  comm_show c = Ok (false, mk_chat (input c) (output c ++ heard ++ SERVER_RESP ++ x) (sent c) r).
Proof.
  intros Hr Hx Hl. assert (length (SERVER_RESP ++ x) <= 1023)%nat as Hlen by (rewrite length_app; change (length SERVER_RESP) with 13%nat; lia).
  assert (length (padded MAX_BUFF (SERVER_RESP ++ x)) = MAX_BUFF) as Hpl by (apply length_padded; unfold MAX_BUFF; lia).
  unfold comm_show. rewrite Hr. change (default [] (head (padded MAX_BUFF (SERVER_RESP ++ x) :: r))) with (padded MAX_BUFF (SERVER_RESP ++ x)).
  rewrite take_ge, drop_ge by (by rewrite Hpl). cbn [tail].
  assert (padded MAX_BUFF (padded MAX_BUFF (SERVER_RESP ++ x)) = padded MAX_BUFF (SERVER_RESP ++ x)) as ->.
  { unfold padded at 1. rewrite Hpl, Nat.sub_diag. apply app_nil_r. }
  assert (no_nul (SERVER_RESP ++ x)) as Hna by (by apply Forall_app; split; [apply no_nul_resp|]).
  unfold text_of. rewrite c_string_padded; [|rewrite c_chars_none by done; unfold MAX_BUFF; lia|unfold MAX_BUFF; lia].
  cbn [mbind res_bind]. by rewrite answer_stays, app_nil_r, c_chars_none.
Qed.

(** The two programs between two lines. *)
Definition between (x out snd : list Z) (n : list (list Z)) (b : bool) : pair := mk_pair (mk_chat x out n []) false false false [] b Open snd.

(** A step with no alternative. *)
Definition forced (a b : pair) : Prop := step a b /\ forall c, step a c -> c = b.

Lemma forced_step a b : rtc forced a b -> rtc step a b.
Proof. apply rtc_subrel. by intros x y [? _]. Qed.
(** A run from where all is forced has not come to the end of that, or comes from there. *)
Lemma forced_run a b z : rtc forced a z -> rtc step a b -> rtc step b z \/ rtc step z b.
Proof.
  intros Hf. revert b. induction Hf as [a|a a' z [Ha Hu] Hf IH]; intros b Hb; [by right|].
  inversion Hb as [|? y ? Hy Hyb]; subst.
  - left. eapply rtc_l; [exact Ha|by apply forced_step].
  - rewrite (Hu y Hy) in Hyb. by apply IH.
Qed.

Lemma types_forced x out n snd (c := mk_chat x out n []) :
  forced (between x out snd n true) (mk_pair (comm_send c) true false false (padded MAX_BUFF (chunk 1023 x)) true Open snd).
Proof.
  split; [by apply (Types c [] snd)|]. intros b Hb. inversion Hb as [c0 u o m Hm| | | |c0 w lf k u lk o o' wb e Hu|]; subst; [|done].
  cbn [sent comm_send] in Hm. apply (inj (app n)) in Hm. by injection Hm as <-.
Qed.
Lemma serves_forced x out n snd l : no_nul l -> (length l <= 1010)%nat ->
  forced (mk_pair (mk_chat x out n []) true false false (padded MAX_BUFF l) true Open snd)
    (mk_pair (mk_chat x out n [padded MAX_BUFF (SERVER_RESP ++ l)]) true false false [] (negb (says_exit (padded MAX_BUFF l))) Open
       (snd ++ server_shows l ++ (if says_exit (padded MAX_BUFF l) then chars "server exit" ++ [10] else []))).
Proof.
  intros Hn Hl. assert (length (padded MAX_BUFF l) = MAX_BUFF) as Hlen by (apply length_padded; unfold MAX_BUFF; lia).
  assert (take MAX_BUFF (padded MAX_BUFF l) = padded MAX_BUFF l) as Ht by (apply take_ge; by rewrite Hlen).
  assert (drop MAX_BUFF (padded MAX_BUFF l) = []) as Hd by (apply drop_ge; by rewrite Hlen).
  pose proof (func_line l Hn Hl) as Hf. rewrite <- Ht in Hf at 1. split.
  - assert (padded MAX_BUFF l <> []) as Hne by (intros E; apply (f_equal length) in E; rewrite Hlen in E; done).
    pose proof (Serves (mk_chat x out n []) true false false (padded MAX_BUFF l) Open snd _ _ _ Hne Hf) as H. by rewrite Hd in H.
  - intros b Hb. inversion Hb as [| | | |c0 w lf k u lk o o' wb e Hu Hfu|c0 u b0 lk o lf c' [Hre|Hre]]; subst; [|done..].
    rewrite Hf in Hfu. injection Hfu as <- <- <-. by rewrite Hd.
Qed.
Lemma shows_forced x out n b snd l : no_nul l -> (length l <= 1010)%nat ->
  forced (mk_pair (mk_chat x out n [padded MAX_BUFF (SERVER_RESP ++ l)]) true false false [] b Open snd)
    (between x (out ++ heard ++ SERVER_RESP ++ l) snd n b).
Proof.
  intros Hn Hl. pose proof (show_padded (mk_chat x out n [padded MAX_BUFF (SERVER_RESP ++ l)]) l [] eq_refl Hn Hl) as Hs. split.
  - apply Shows; [by left|done].
  - intros z Hz. inversion Hz as [| | | |c0 w lf k u lk o o' wb e Hu|c0 u b0 lk o lf c' Hre Hsh]; subst; [done|].
    pose proof (eq_trans (eq_sym Hs) Hsh) as E. by injection E as <- <-.
Qed.

(** One line and its answer. *)
Lemma exchange x out n snd (l := chunk 1023 x) : no_nul l -> (length l <= 1010)%nat ->
  rtc forced (between x out snd n true)
    (between (drop (length l) x) (out ++ prompt ++ heard ++ SERVER_RESP ++ l)
       (snd ++ server_shows l ++ (if says_exit (padded MAX_BUFF l) then chars "server exit" ++ [10] else []))
       (n ++ [padded MAX_BUFF l]) (negb (says_exit (padded MAX_BUFF l)))).
Proof.
  intros Hn Hl. eapply rtc_l; [apply types_forced|]. eapply rtc_l; [by apply serves_forced|]. rewrite (app_assoc out prompt).
  apply rtc_once, shows_forced; done.
Qed.

Lemma session_forced k : forall x out n snd, no_nul x -> Forall (fun l => (length l <= 1010)%nat) (lines (S k) x) ->
  Forall (fun l => says_exit (padded MAX_BUFF l) = false) (lines k x) ->
  (forall l, last (lines (S k) x) = Some l -> says_exit (padded MAX_BUFF l) = true) ->
  exists rest n', rtc forced (between x out snd n true)
    (between rest (out ++ transcript (lines (S k) x)) (snd ++ (lines (S k) x ≫= server_shows) ++ chars "server exit" ++ [10]) n' false).
Proof.
  induction k as [|k IH]; intros x out n snd Hn Hl Hno Hyes; set (l := chunk 1023 x);
    assert (no_nul l) as Hnl by (by apply chunk_no_nul); cbn [lines] in *; fold l in Hl, Hno, Hyes |- *; apply Forall_cons in Hl as [Hl1 Hl].
  - pose proof (exchange x out n snd Hnl Hl1) as H. fold l in H. rewrite (Hyes l eq_refl) in H. eexists _, _.
    unfold transcript. cbn [mbind list_bind]. rewrite !app_nil_r. exact H.
  - apply Forall_cons in Hno as [Hno1 Hno]. pose proof (exchange x out n snd Hnl Hl1) as H. fold l in H. rewrite Hno1, app_nil_r in H.
    destruct (IH (drop (length l) x) (out ++ prompt ++ heard ++ SERVER_RESP ++ l) (n ++ [padded MAX_BUFF l]) (snd ++ server_shows l))
      as (rest & n' & H'); [by apply Forall_drop|done|done|intros l' Hl'; by apply Hyes|].
    exists rest, n'. etrans; [exact H|]. match type of H' with context [transcript ?z] => set (ls := z) in * end.
    replace (transcript (l :: ls)) with ((prompt ++ heard ++ SERVER_RESP ++ l) ++ transcript ls) by done.
    rewrite bind_cons, <- (app_assoc (server_shows l)), (app_assoc out _ (transcript ls)), (app_assoc snd). exact H'.
Qed.

(** ** After the server has ended *)

(** The client asks for lines and shows empty messages. *)
Definition unanswered (j : nat) : list Z := concat (replicate j (prompt ++ heard)).
Record late (out snd : list Z) (s : pair) : Prop := {
  lt_server : running s = false;
  lt_shown : shown s = snd;
  lt_stays : left_ s = false;
  lt_replies : replies (client s) = [];
  lt_killed : killed s = true -> waiting s = false;
  lt_output : exists j, output (client s) = out ++ unanswered j ++ (if waiting s || killed s then prompt else []) }.

Lemma show_nothing c : replies c = [] -> comm_show c = Ok (false, mk_chat (input c) (output c ++ heard) (sent c) []).
Proof. intros Hr. unfold comm_show. by rewrite Hr. Qed.
Lemma unanswered_S j : unanswered (S j) = unanswered j ++ prompt ++ heard.
Proof. unfold unanswered. rewrite replicate_S_end, concat_app. done. Qed.

Lemma late_step out snd a b : step a b -> late out snd a -> late out snd b.
Proof.
  intros Hab [L1 L2 L3 L4 L5 [j L6]].
  destruct Hab as [c u o m Hm|c u l o Hl|c u o|c w lf k u o|c w lf k u l o o' wb e Hu Hf|c u b l o lf c' Hr Hs]; cbn in *; try done.
  - constructor; cbn; try done. exists j. by rewrite L6, app_nil_r, app_assoc.
  - constructor; cbn; try done. exists j. by rewrite L6, app_nil_r, app_assoc.
  - constructor; cbn; try done. by exists j.
  - rewrite show_nothing in Hs by done. injection Hs as <- <-. constructor; cbn; try done. exists (S j).
    by rewrite L6, unanswered_S, app_nil_r, <- !app_assoc.
Qed.
Lemma late_run out snd a b : rtc step a b -> late out snd a -> late out snd b.
Proof. induction 1; [done|]. eauto using late_step. Qed.

(** From there the client can only be killed. *)
Lemma late_dies out snd s : late out snd s -> killed s = false -> exists e, rtc step s e /\ killed e = true /\ nf step e.
Proof.
  intros [L1 L2 L3 L4 L5 L6] Hk. destruct s as [c w lf k u r l o]. cbn in *. subst r lf k.
  assert (forall c, nf step (mk_pair c false false true u false Broken o)) as Hnf by (intros c0 [y Hy]; inversion Hy).
  assert (forall c w, replies c = [] -> exists e, rtc step (mk_pair c w false false u false Broken o) e /\ killed e = true /\ nf step e) as Hb.
  { intros c0 [] Hc0.
    - eexists. split; [|split; [|apply Hnf]]; [|done]. eapply rtc_l; [apply Shows; [by right|by apply show_nothing]|]. apply rtc_once, TypesKilled.
    - eexists. split; [apply rtc_once, TypesKilled|]. by split. }
  assert (forall c w, replies c = [] -> exists e, rtc step (mk_pair c w false false u false Late o) e /\ killed e = true /\ nf step e) as Hl.
  { intros c0 w0 Hc0. destruct (Hb c0 w0 Hc0) as (e & R & H). exists e. split; [|done]. eapply rtc_l; [apply ResetArrives|exact R]. }
  assert (forall c, replies c = [] -> exists e, rtc step (mk_pair c false false false u false Open o) e /\ killed e = true /\ nf step e) as Ho.
  { intros c0 Hc0. destruct (Hl (comm_send c0) true Hc0) as (e & R & H). exists e. split; [|done]. eapply rtc_l; [by apply TypesLate|exact R]. }
  destruct l; [|by apply Hl|by apply Hb]. destruct w; [|by apply Ho].
  destruct (Ho (mk_chat (input c) (output c ++ heard) (sent c) []) eq_refl) as (e & R & H). exists e. split; [|done].
  eapply rtc_l; [apply Shows; [by right|by apply show_nothing]|exact R].
Qed.

(** C15: a session of the two programs in which the k-th line is the first to begin with
    [exit], with lines of at most 1010 characters, cannot go wrong: every run comes to, or
    comes from, the state in which the server has ended and client and server have shown all
    the lines up to that one, each after its text, in order. From there on the server shows
    nothing more; the client, which does not leave, asks for further lines and shows an empty
    message for each, until a [write] that the reset of the connection has overtaken kills it,
    which remains possible as long as it has not happened. *)
Theorem tcp_session_completes k x : no_nul x -> Forall (fun l => (length l <= 1010)%nat) (lines (S k) x) ->
  Forall (fun l => says_exit (padded MAX_BUFF l) = false) (lines k x) ->
  (forall l, last (lines (S k) x) = Some l -> says_exit (padded MAX_BUFF l) = true) ->
  exists fin, running fin = false /\ rtc step (start x) fin /\
    output (client fin) = transcript (lines (S k) x) /\ shown fin = (lines (S k) x ≫= server_shows) ++ chars "server exit" ++ [10] /\
    (forall st, rtc step (start x) st -> rtc step st fin \/ rtc step fin st) /\
    forall st, rtc step fin st -> running st = false /\ shown st = shown fin /\ left_ st = false /\
      (exists j, output (client st) = output (client fin) ++ unanswered j ++ (if waiting st || killed st then prompt else [])) /\
      (killed st = false -> exists e, rtc step st e /\ killed e = true /\ nf step e).
Proof.
  intros Hn Hl Hno Hyes. destruct (session_forced k x [] [] [] Hn Hl Hno Hyes) as (rest & n' & H).
  eexists. split; [|split; [by eapply forced_step, H|]]; [done|]. split; [done|]. split; [done|]. split; [intros st Hst; by eapply forced_run|].
  intros st R. match type of H with rtc _ _ ?z => assert (late (output (client z)) (shown z) st) as L end.
  { eapply late_run; [exact R|]. constructor; cbn; try done. exists 0%nat. by rewrite !app_nil_r. }
  pose proof L as [L1 L2 L3 L4 L5 L6]. split_and!; try done. intros Hk. by eapply late_dies.
Qed.

Definition talk : list Z := chars "hello" ++ [10] ++ chars "exit" ++ [10].
Lemma tcp_session_completes_witness : exists fin, running fin = false /\ rtc step (start talk) fin /\
  output (client fin) = chars "client message : server message : SERVER RESP: hello" ++ [10] ++ chars "client message : server message : SERVER RESP: exit" ++ [10].
Proof.
  destruct (tcp_session_completes 1 talk) as (fin & Hf & Hr & Ho & _); [by_compute..|intros l [= <-]; reflexivity|].
  exists fin. split; [exact Hf|]. split; [exact Hr|exact Ho].
Defined.
End Tcp.

(** ** One datagram *)
Module Udp.
Definition SIZE : nat := 2000.

(** [strcpy] between two arrays. *)
Definition strcpy_array (dst src : list Z) : res (list Z) :=
  x ← text_of src;
  if (length x <? length dst)%nat then Ok (x ++ 0 :: drop (S (length x)) dst) else Err OutOfBounds.

(** A call gives its result, or fails. [main] of the client, with what [socket] and [sendto]
    give and what [recvfrom] gives for the datagram that was sent: its status, what it
    shows and what it sends. *)
Definition client_main (made sent_ok : bool) (net : list Z -> option (list Z)) (stdin : list Z) : res (Z * list Z * option (list Z)) :=
  let client_message := padded SIZE (chunk (SIZE - 1) stdin) in
  if negb made then Ok (-1, chars "error creating socket" ++ [10], None) else
  let shown := chars "socket created successfully" ++ [10] ++ chars "enter message: " in
  x ← text_of client_message;
  if negb sent_ok then Ok (-1, shown ++ chars "unable to send message" ++ [10], None) else
  match net x with
  | None => Ok (-1, shown ++ chars "error while receiving server's msg" ++ [10], Some x)
  | Some dgram =>
      y ← text_of (padded SIZE (take SIZE dgram));
      Ok (0, shown ++ chars "server's response: " ++ y ++ [10], Some x)
  end.

(** [main] of the server, with the text of the sender's address. *)
Definition server_main (made bound sent_ok : bool) (dgram : option (list Z)) (peer : list Z) : res (Z * list Z * option (list Z)) :=
  if negb made then Ok (-1, chars "error while creating socket" ++ [10], None) else
  let shown := chars "socket created successfully" ++ [10] in
  if negb bound then Ok (-1, shown ++ chars "couldn't bind to the port" ++ [10], None) else
  let shown := shown ++ chars "listening for incoming messages..." ++ [10; 10] in
  match dgram with
  | None => Ok (-1, shown ++ chars "couldn't receive" ++ [10], None)
  | Some d =>
      let client_message := padded SIZE (take SIZE d) in
      x ← text_of client_message;
      let shown := shown ++ chars "received message from " ++ peer ++ [10] ++ chars "from client: " ++ x ++ [10] in
      server_message ← strcpy_array (padded SIZE []) client_message;
      y ← text_of server_message;
      if negb sent_ok then Ok (-1, shown ++ chars "can't send" ++ [10], None)
      else Ok (0, shown, Some y)
  end.

(** A network that hands the datagram to a running server and its answer back. *)
Definition through (peer x : list Z) : option (list Z) :=
  match server_main true true true (Some x) peer with Ok (_, _, r) => r | Err _ => None end.

Lemma text_padded x : no_nul x -> (length x < SIZE)%nat -> text_of (padded SIZE x) = Ok x.
Proof. intros Hn Hl. unfold text_of. rewrite c_string_padded, c_chars_none; [done|done|rewrite c_chars_none by done; lia|lia]. Qed.
Lemma strcpy_padded x : no_nul x -> (length x < SIZE)%nat -> strcpy_array (padded SIZE []) (padded SIZE x) = Ok (padded SIZE x).
Proof.
  intros Hn Hl. unfold strcpy_array. rewrite text_padded by done. cbn [mbind res_bind]. rewrite (length_padded SIZE []) by (cbn; lia).
  rewrite (proj2 (Nat.ltb_lt _ _) Hl). f_equal. unfold padded. cbn [app length]. rewrite drop_replicate.
  replace (SIZE - length x)%nat with (S (SIZE - S (length x))) by lia. by rewrite Nat.sub_0_r.
Qed.

Lemma server_echoes peer x : no_nul x -> (length x < SIZE)%nat -> exists shown, server_main true true true (Some x) peer = Ok (0, shown, Some x).
Proof.
  intros Hn Hl. eexists. unfold server_main. cbn [negb]. rewrite take_ge by lia. rewrite text_padded by done. cbn [mbind res_bind].
  rewrite strcpy_padded by done. cbn [mbind res_bind]. rewrite text_padded by done. reflexivity.
Qed.

(** The line typed at the client, cut to 1999 characters, goes to the server and comes back
    as it is, and the client shows it; a datagram of 2000 bytes without a zero byte, which
    this client cannot send but another can, makes the server read past its buffer. *)
Theorem udp_echo peer x d : no_nul x -> no_nul d -> (SIZE <= length d)%nat ->
  client_main true true (through peer) x = Ok (0,
    chars "socket created successfully" ++ [10] ++ chars "enter message: " ++
    chars "server's response: " ++ chunk 1999 x ++ [10], Some (chunk 1999 x)) /\
  server_main true true true (Some d) peer = Err OutOfBounds.
Proof.
  intros Hx Hd Hl. split.
  - set (l := chunk 1999 x). assert (no_nul l) as Hnl by (by apply chunk_no_nul).
    assert (length l < SIZE)%nat as Hll by (unfold l, SIZE; pose proof (length_chunk 1999 x); lia).
    unfold client_main. change (SIZE - 1)%nat with 1999%nat. fold l. rewrite text_padded by done. cbn [mbind res_bind negb].
    destruct (server_echoes peer l Hnl Hll) as [shown E]. unfold through. rewrite E. rewrite take_ge, text_padded by (done || lia).
    cbn [mbind res_bind]. by rewrite <- !app_assoc.
  - unfold server_main, text_of, padded. cbn [negb]. rewrite length_take_le by done. rewrite Nat.sub_diag, app_nil_r.
    rewrite c_string_none; [done|]. by apply Forall_take.
Qed.
Lemma udp_echo_witness : exists shown, client_main true true (through [63]) (chars "ping" ++ [10]) = Ok (0, shown, Some (chars "ping" ++ [10])).
Proof. eexists. apply (udp_echo [63] (chars "ping" ++ [10]) (replicate 2000 97)); by_compute. Defined.
End Udp.
