(* ===== verification/Ncat.v ===== *)
(** * ncat

    src/ncat: a client that connects its standard input and output to a server, and a
    server that hands out what it was given and shows what it receives. The client is a step
    relation of its two threads, the lock between them and the peer; the server's work for
    one connection is a function of what its reads give. The sizes of the buffers, one and
    ten megabytes in ncat.h, are arguments: nothing depends on their values. *)
From stdpp Require Import base numbers list gmap strings relations.
From S2P Require Import Prelude CBase CDecimal CHeap Sock EchoTable LevelServers EchoClient.
Local Open Scope Z_scope.

Module Ncat.

(** ** Arguments *)

Record options := mk_options { mode_client : Z; mode_listen : Z; host : list Z; port : list Z }.
Definition no_options : options := mk_options 0 0 [] [].

(** [NCAT_parse_args]: the options stand before the host and the port. *)
Definition NCAT_parse_args (argv : list (list Z)) (o : options) : Z * options :=
  if (length argv <? 2)%nat then (-1, o) else
  let argc_nohp := (length argv - 2)%nat in
  let listens := existsb (fun a => bool_decide (a = chars "--listen") || bool_decide (a = chars "-l")) (take argc_nohp argv) in
  let l := if listens then 1 else mode_listen o in
  let c := if l =? 0 then 1 else mode_client o in
  (0, mk_options c l (default [] (argv !! argc_nohp)) (default [] (argv !! (argc_nohp + 1)%nat))).

(** The choice of [NCAT_runner], with what its two modes give. *)
Definition NCAT_runner (o : options) (client serve : Z) : Z :=
  if mode_client o =? 1 then client else if mode_listen o =? 1 then serve else -10.

(** [main], with what [signal] and [pthread_mutex_init] give: its status, and whether the
    copies of the arguments were freed. *)
Definition main (argv : list (list Z)) (signal_ok mutex_ok : bool) (client serve : options -> Z) : Z * bool :=
  if (length argv <? 2)%nat then (-1, false) else
  if negb signal_ok then (-1, false) else
  if negb mutex_ok then (-1, false) else
  let '(parsed, o) := NCAT_parse_args (tail argv) no_options in
  if parsed <? 0 then (parsed, true) else
  let result := NCAT_runner o (client o) (serve o) in
  if result <? 0 then (result, true) else (0, false).

(** ** Buffers *)

(** The loop that copies the bytes of one [read] behind those already there. *)
Fixpoint store (rbuff : list Z) (idx : Z) (tmp : list Z) : res (list Z) :=
  match tmp with
  | [] => Ok rbuff
  | c :: tmp' => rbuff ← set_at rbuff idx c; store rbuff (idx + 1) tmp'
  end.

(** [for(int i = MAX_WRITE_BUFF - 1; i > 0; i--)]: the last newline becomes a zero. *)
Fixpoint strip_newline (i : nat) (wbuff : list Z) : list Z :=
  match i with
  | O => wbuff
  | S i' => if decide (wbuff !! i = Some 10) then <[i := 0]> wbuff else strip_newline i' wbuff
  end.

Lemma store_padded n tmp : forall x, (length x + length tmp <= n)%nat ->
  store (padded n x) (Z.of_nat (length x)) tmp = Ok (padded n (x ++ tmp)).
Proof.
  induction tmp as [|c tmp IH]; intros x H; cbn [store]; [by rewrite app_nil_r|]. cbn [length] in H.
  rewrite set_padded by lia. cbn [mbind res_bind].
  replace (Z.of_nat (length x) + 1) with (Z.of_nat (length (x ++ [c]))) by (rewrite length_app; cbn; lia).
  rewrite IH by (rewrite length_app; cbn; lia). by rewrite <- app_assoc.
Qed.
Lemma store_long n tmp : forall x, (length x <= n)%nat -> (n < length x + length tmp)%nat ->
  store (padded n x) (Z.of_nat (length x)) tmp = Err OutOfBounds.
Proof.
  induction tmp as [|c tmp IH]; intros x Hx H; cbn [store length] in *; [lia|].
  destruct (decide (length x = n)) as [E|E].
  - rewrite set_at_bad; [done|]. right. unfold CBase.size. rewrite length_padded by lia. lia.
  - rewrite set_padded by lia. cbn [mbind res_bind].
    replace (Z.of_nat (length x) + 1) with (Z.of_nat (length (x ++ [c]))) by (rewrite length_app; cbn; lia).
    apply IH; rewrite length_app; cbn; lia.
Qed.

Lemma strip_padded n l i : (0 < length l)%nat -> (length l < n)%nat -> 10 ∉ l -> (length l <= i)%nat -> (i < n)%nat ->
  strip_newline i (padded n (l ++ [10])) = padded n l.
Proof.
  intros H0 Hn H10 Hi Hin. induction i as [|i IH]; [lia|]. cbn [strip_newline].
  assert (length (l ++ [10]) = S (length l)) as Hl1 by (rewrite length_app; cbn; lia).
  destruct (decide (length l = S i)) as [E|E].
  - rewrite decide_True.
    + unfold padded. rewrite Hl1. rewrite insert_app_l by lia. rewrite insert_mid by done.
      replace (n - length l)%nat with (S (n - S (length l))) by lia. cbn [replicate]. by rewrite <- app_assoc.
    + unfold padded. rewrite lookup_app_l by lia. by apply lookup_end.
  - rewrite decide_False; [apply IH; lia|]. unfold padded. rewrite lookup_app_r by lia. intros H%lookup_replicate. lia.
Qed.

(** ** The client *)

Section client.
Context (MAX_BUFF : nat).

(** Where [NCAT_client] is: before [connect], before it publishes the socket, reading a
    line, before the test of [_client_sock_ready] or the write of a line, after a failed
    test, before [close], or returned. *)
Inductive main_pc := MConnect | MPublish | MType | MCheck (wbuff : list Z) | MWrite (wbuff : list Z) | MQuit | MClose | MDone (status : Z).
(** Where [NCAT_get_thread] is: before it takes the lock, in its loop with the lock, or in
    [msleep]. *)
Inductive get_pc := GLock | GRead (valread : Z) (rbuff : list Z) | GSleep.

Record state := mk_state {
  mpc : main_pc; gpc : get_pc; locked : bool; sock_ready : bool; sock_open : bool; keyboard : list Z;
  inflow : list Z; ended : bool; written : list (list Z); shown : list (list Z); received : list Z; broke : option fault }.

(** The line that is read and written. *)
Definition typed (kb : list Z) : list Z := strip_newline (MAX_BUFF - 1) (padded MAX_BUFF (chunk (MAX_BUFF - 1) kb)).

(** The steps of the main thread. The lock is held for a test or an assignment only, so
    taking it, that and giving it back are one step. *)
Inductive main_step : state -> state -> Prop :=
  | Connects g l r kb i e w s rc b :
      main_step (mk_state MConnect g l r true kb i e w s rc b) (mk_state MPublish g l r true kb i e w s rc b)
  | FailsToConnect g l r o kb i e w s rc b :
      main_step (mk_state MConnect g l r o kb i e w s rc b) (mk_state (MDone (-1)) g l r o kb i e w s rc b)
  | Publishes g r o kb i e w s rc b :
      main_step (mk_state MPublish g false r o kb i e w s rc b) (mk_state MType g false true o kb i e w s rc b)
  | ReadsLine g l r o kb i e w s rc b :
      main_step (mk_state MType g l r o kb i e w s rc b)
        (mk_state (MCheck (typed kb)) g l r o (drop (length (chunk (MAX_BUFF - 1) kb)) kb) i e w s rc b)
  | FindsReady g o kb i e w s rc b m :
      main_step (mk_state (MCheck m) g false true o kb i e w s rc b) (mk_state (MWrite m) g false true o kb i e w s rc b)
  | FindsNotReady g o kb i e w s rc b m :
      main_step (mk_state (MCheck m) g false false o kb i e w s rc b) (mk_state MQuit g false false o kb i e w s rc b)
  | Writes g l r o kb i e w s rc b m :
      main_step (mk_state (MWrite m) g l r o kb i e w s rc b) (mk_state MType g l r o kb i e (w ++ [m]) s rc b)
  | Withdraws g r o kb i e w s rc b :
      main_step (mk_state MQuit g false r o kb i e w s rc b) (mk_state MClose g false false o kb i e w s rc b)
  | Closes g l r o kb i e w s rc b :
      main_step (mk_state MClose g l r o kb i e w s rc b) (mk_state MConnect g l r false kb i e w s rc b).

(** The steps of the thread that reads: the lock is held from the test of
    [_client_sock_ready] until a buffer has been shown or the stream has ended. *)
Inductive get_step : state -> state -> Prop :=
  | TakesLock m o kb i e w s rc b :
      get_step (mk_state m GLock false true o kb i e w s rc b) (mk_state m (GRead 0 (padded MAX_BUFF [])) true true o kb i e w s rc b)
  | GoesToSleep m o kb i e w s rc b :
      get_step (mk_state m GLock false false o kb i e w s rc b) (mk_state m GSleep false false o kb i e w s rc b)
  | WakesUp m l r o kb i e w s rc b :
      get_step (mk_state m GSleep l r o kb i e w s rc b) (mk_state m GLock l r o kb i e w s rc b)
  | Reads m l r o kb i e w s rc b v buf tmp i' buf' : v < Z.of_nat MAX_BUFF -> (0 < length tmp <= MAX_BUFF)%nat -> i = tmp ++ i' ->
      store buf v tmp = Ok buf' ->
      get_step (mk_state m (GRead v buf) l r o kb i e w s rc b)
        (mk_state m (GRead (v + Z.of_nat (length tmp)) buf') l r o kb i' e w s (rc ++ tmp) b)
  | Overruns m l r o kb i e w s rc b v buf tmp i' x : v < Z.of_nat MAX_BUFF -> (0 < length tmp <= MAX_BUFF)%nat -> i = tmp ++ i' ->
      store buf v tmp = Err x ->
      get_step (mk_state m (GRead v buf) l r o kb i e w s rc b) (mk_state m (GRead v buf) l r o kb i e w s rc (Some x))
  | FindsEnd m l r o kb w s rc b v buf : v < Z.of_nat MAX_BUFF ->
      get_step (mk_state m (GRead v buf) l r o kb [] true w s rc b) (mk_state m GLock false false o kb [] true w s rc b)
  | ShowsBuffer m l r o kb i e w s rc b v buf x : Z.of_nat MAX_BUFF <= v -> text_of buf = Ok x ->
      get_step (mk_state m (GRead v buf) l r o kb i e w s rc b) (mk_state m GLock false r o kb i e w (s ++ [x]) rc b)
  | ReadsPast m l r o kb i e w s rc b v buf x : Z.of_nat MAX_BUFF <= v -> text_of buf = Err x ->
      get_step (mk_state m (GRead v buf) l r o kb i e w s rc b) (mk_state m (GRead v buf) l r o kb i e w s rc (Some x)).

(** The peer sends, or ends its stream. *)
Inductive peer_step : state -> state -> Prop :=
  | Sends m g l r o kb i w s rc b x : peer_step (mk_state m g l r o kb i false w s rc b) (mk_state m g l r o kb (i ++ x) false w s rc b)
  | Ends m g l r o kb i w s rc b : peer_step (mk_state m g l r o kb i false w s rc b) (mk_state m g l r o kb i true w s rc b).

(** A program that has gone wrong makes no more steps. *)
Definition step (a b : state) : Prop := broke a = None /\ (main_step a b \/ get_step a b \/ peer_step a b).

Definition start (kb : list Z) : state := mk_state MConnect GLock false false true kb [] false [] [] [] None.

(** What the main thread relies on, and has done, where it is. *)
Definition phase_ok (m : main_pc) (ready opened : bool) : Prop :=
  match m with
  | MConnect => ready = false
  | MPublish | MQuit | MClose => ready = false /\ opened = true
  | MType | MCheck _ | MWrite _ => opened = true
  | MDone status => ready = false /\ status = -1
  end.
Definition nothing_yet (m : main_pc) (opened : bool) : bool :=
  match m with MConnect => opened | MPublish => true | _ => false end.

Definition reading (g : get_pc) : bool := match g with GRead _ _ => true | _ => false end.

(** The bytes received and not shown: those of the buffer that is being filled; none between
    two buffers; and after the end of the stream those of a buffer that was not filled. *)
Definition unshown (g : get_pc) (ready : bool) (rest : list Z) : Prop :=
  match g with
  | GRead v buf => v = Z.of_nat (length rest) /\ buf = padded MAX_BUFF rest /\ (length rest <= MAX_BUFF)%nat
  | _ => if ready then rest = [] else (length rest <= Nat.pred MAX_BUFF)%nat
  end.

(** What was shown are the texts of the complete buffers among the bytes received. *)
Definition in_blocks (g : get_pc) (ready : bool) (sh : list (list Z)) (rc : list Z) : Prop :=
  exists blocks rest, Forall (fun x => length x = MAX_BUFF) blocks /\ sh = c_chars <$> blocks /\
    rc = concat blocks ++ rest /\ unshown g ready rest.

(** A step that shows a buffer, or that reads past the end of one without a zero byte. *)
Definition shows_full (rest : list Z) (a b : state) : Prop :=
  match c_string rest with
  | Some x => shown b = shown a ++ [x] /\ gpc b = GLock /\ locked b = false
  | None => shown b = shown a /\ broke b = Some OutOfBounds
  end.

Record inv (st : state) : Prop := {
  iv_lock : locked st = reading (gpc st);
  iv_reads : reading (gpc st) = true -> sock_ready st = true;
  iv_phase : phase_ok (mpc st) (sock_ready st) (sock_open st);
  iv_early : nothing_yet (mpc st) (sock_open st) = true -> received st = [] /\ shown st = [];
  iv_blocks : in_blocks (gpc st) (sock_ready st) (shown st) (received st) }.

Lemma ncat_inv_start kb : inv (start kb).
Proof. constructor; cbn; [done..|]. exists [], []. split_and!; [constructor|done|done|cbn; lia]. Qed.

Lemma inv_main a b : main_step a b -> inv a -> inv b.
Proof.
  intros Hs [I1 I2 I3 I4 I5].
  destruct Hs; cbn [mpc gpc locked sock_ready sock_open received shown nothing_yet phase_ok] in *; subst;
    constructor; cbn [mpc gpc locked sock_ready sock_open received shown nothing_yet phase_ok]; try done; try tauto.
  - destruct (I4 eq_refl) as [-> ->]. exists [], []. split_and!; try done. by destruct g.
  - by rewrite <- I1.
  - destruct I3 as [-> _]. destruct I5 as (bl & rest & H1 & H2 & H3 & H4). by exists bl, rest.
Qed.

Lemma inv_get a b : get_step a b -> inv a -> inv b.
Proof.
  intros Hs [I1 I2 I3 I4 I5]. destruct Hs; cbn [mpc gpc locked sock_ready sock_open received shown reading] in *; subst;
    constructor; cbn [mpc gpc locked sock_ready sock_open received shown reading]; try done; try (by auto);
    try (assert (r = true) as -> by (by apply I2)); try (destruct m; cbn in *; intuition congruence).
  - destruct I5 as (bl & rest & H1 & H2 & H3 & H5). exists bl, rest. cbn in H5. subst rest. cbn. split_and!; try done; lia.
  - destruct I5 as (bl & rest & H1' & H2' & -> & -> & -> & Hl). exists bl, (rest ++ tmp).
    destruct (decide (length rest + length tmp <= MAX_BUFF)%nat) as [Hle|Hgt].
    2:{ rewrite store_long in H2 by lia. done. }
    rewrite store_padded in H2 by done. injection H2 as <-. cbn. rewrite length_app, app_assoc. split_and!; try done; lia.
  - destruct I5 as (bl & rest & H1' & H2' & -> & -> & _ & _). exists bl, rest. cbn. split_and!; try done; lia.
  - destruct I5 as (bl & rest & H1' & -> & -> & -> & -> & Hl). exists (bl ++ [rest]), [].
    unfold text_of in H0. destruct (c_string _) as [y|] eqn:E; [|done]. injection H0 as <-. apply c_string_chars in E as [<- _].
    rewrite c_chars_padded, fmap_app, concat_app, app_nil_r. cbn. rewrite app_nil_r. split_and!; try done.
    apply Forall_app. rewrite Forall_singleton. split; [done|lia].
Qed.

Lemma ncat_inv_run a b : rtc step a b -> inv a -> inv b.
Proof.
  induction 1 as [|a b c [_ [H|[H|H]]] _ IH]; intros Ha; [done|..]; apply IH; [by eapply inv_main|by eapply inv_get|].
  destruct H, Ha; by constructor.
Qed.

(** A full buffer is shown next. *)
Lemma full_is_shown st v rest : gpc st = GRead v (padded MAX_BUFF rest) -> v = Z.of_nat MAX_BUFF -> length rest = MAX_BUFF ->
  (exists st', get_step st st') /\ forall st', get_step st st' -> shows_full rest st st'.
Proof.
  intros Hg -> Hl. assert (padded MAX_BUFF rest = rest) as E by (unfold padded; rewrite Hl, Nat.sub_diag; apply app_nil_r).
  rewrite E in Hg. split.
  - destruct st; cbn in Hg. subst. destruct (text_of rest) as [x|x] eqn:Ht; eexists; [eapply ShowsBuffer|eapply ReadsPast]; by try lia.
  - unfold shows_full, text_of in *. intros st' Hs. destruct Hs; cbn in *; simplify_eq/=; try lia; unfold text_of in *;
      destruct (c_string rest) eqn:Ec; by simplify_eq/=.
Qed.

(** C32: whatever is typed and whatever the server sends. While the client reads from the
    connection, the socket is open. The bytes it has received are complete buffers of a
    megabyte, whose texts are what it has shown, in order, and a rest: while it reads, the
    contents of its buffer, no more than a megabyte; between two buffers nothing; and once
    the stream has ended, less than a megabyte, which is never shown. When the buffer is
    full, the thread that reads can make a step, and any step it makes shows the text of the
    buffer and gives the lock back, or, when no byte of it is zero, reads past its end. Once
    the client has closed its socket it never gets another connection: the program can only
    return -1. *)
Theorem client_shows_complete_buffers kb st : rtc step (start kb) st ->
  (reading (gpc st) = true -> sock_open st = true) /\
  (exists blocks rest, Forall (fun x => length x = MAX_BUFF) blocks /\ shown st = c_chars <$> blocks /\
    received st = concat blocks ++ rest /\ unshown (gpc st) (sock_ready st) rest /\
    (reading (gpc st) = true -> length rest = MAX_BUFF ->
      (exists st', get_step st st') /\ forall st', get_step st st' -> shows_full rest st st')) /\
  (sock_open st = false -> (mpc st = MConnect \/ mpc st = MDone (-1)) /\ forall st', main_step st st' -> mpc st' = MDone (-1)).
Proof.
  intros Hr. destruct (ncat_inv_run _ _ Hr (ncat_inv_start kb)) as [I1 I2 I3 I4 (bl & rest & H1 & H2 & H3 & H4)]. split_and!.
  - intros Hrd. specialize (I2 Hrd). rewrite I2 in I3. by destruct (mpc st); cbn in I3; intuition.
  - exists bl, rest. split_and!; try done. intros Hrd Hl. destruct (gpc st) as [|v buf|] eqn:Hg; try done.
    destruct H4 as (-> & -> & _). apply (full_is_shown st (Z.of_nat (length rest))); [done|by rewrite Hl|done].
  - intros Ho. assert (mpc st = MConnect \/ mpc st = MDone (-1)) as Hm.
    { destruct (mpc st); cbn in I3; rewrite ?Ho in I3; try done; try (by destruct I3); [by left|]. destruct I3 as [_ ->]. by right. }
    split; [done|]. intros st' Hs. destruct Hs; cbn in *; destruct Hm; done.
Qed.

(** ** A client that waits *)

(** The peer has not ended its stream, and what it has sent since the last complete buffer
    is less than another. *)
Definition waits (st : state) : Prop :=
  ended st = false /\ match gpc st with GRead v _ => v + Z.of_nat (length (inflow st)) < Z.of_nat MAX_BUFF | _ => True end.
Definition to_write (m : main_pc) : list (list Z) := match m with MWrite w => [w] | _ => [] end.
Definition patient_step (a b : state) : Prop := step a b /\ waits b.

Lemma stuck_step a b : inv a -> waits a -> reading (gpc a) = true -> to_write (mpc a) = [] -> patient_step a b ->
  reading (gpc b) = true /\ to_write (mpc b) = [] /\ written b = written a /\ shown b = shown a.
Proof.
  intros [I1 I2 I3 _ _] [We Wi] Hr Hm [[_ Hs] [We' Wi']]. specialize (I2 Hr). rewrite Hr in I1.
  destruct Hs as [Hs|[Hs|Hs]]; destruct Hs; cbn [mpc gpc locked sock_ready ended inflow written shown reading phase_ok to_write] in *; done || lia.
Qed.

Lemma stuck_run a b : inv a -> waits a -> reading (gpc a) = true -> to_write (mpc a) = [] -> rtc patient_step a b ->
  inv b /\ reading (gpc b) = true /\ to_write (mpc b) = [] /\ written b = written a /\ shown b = shown a.
Proof.
  intros Ha Hw Hr Hm H. induction H as [|a b c Hab _ IH]; [done|]. destruct (stuck_step a b Ha Hw Hr Hm Hab) as (Hr' & Hm' & Hwr & Hsh).
  destruct (IH ltac:(eapply ncat_inv_run; [apply rtc_once, Hab|done]) (proj2 Hab) Hr' Hm') as (H1 & H2 & H3 & H4 & H5).
  split_and!; [done|done|done|by rewrite H4|by rewrite H5].
Qed.

(** Once the reading thread has found the socket ready, it keeps the lock while it waits
    for a megabyte: as long as the server has sent less and keeps the connection open, no
    line typed after that is ever written, and nothing is shown. A server that answers
    requests and the client wait for each other for ever. *)
Theorem client_waits_for_ever kb st st' : rtc step (start kb) st -> reading (gpc st) = true -> (forall w, mpc st <> MWrite w) -> waits st ->
  rtc patient_step st st' -> written st' = written st /\ shown st' = shown st /\ (forall w, mpc st' <> MWrite w) /\ locked st' = true.
Proof.
  intros Hr Hrd Hm Hw Hp. assert (to_write (mpc st) = []) as E by (destruct (mpc st); try done; by destruct (Hm wbuff)).
  destruct (stuck_run _ _ (ncat_inv_run _ _ Hr (ncat_inv_start kb)) Hw Hrd E Hp) as (HI & Hr' & Hm' & Hwr & Hsh).
  split_and!; [done|done|intros w E'; by rewrite E' in Hm'|]. by rewrite (iv_lock _ HI).
Qed.

(** The reading thread asks for a whole buffer however much it has already: when a first
    byte arrives before the rest, a [read] that finds a full buffer after it is copied past
    the end. *)
Theorem split_buffer_overruns kb x (y : list Z) : (1 < MAX_BUFF)%nat -> length y = MAX_BUFF ->
  exists st, rtc step (start kb) st /\ received st = [x] /\ broke st = Some OutOfBounds.
Proof.
  intros HM Hy. eexists. split.
  - eapply rtc_l; [split; [done|left; apply Connects]|]. eapply rtc_l; [split; [done|left; apply Publishes]|].
    eapply rtc_l; [split; [done|right; left; apply TakesLock]|].
    eapply rtc_l; [split; [done|right; right; apply (Sends _ _ _ _ _ _ _ _ _ _ _ ([x] ++ y))]|].
    eapply rtc_l; [split; [done|right; left; eapply (Reads _ _ _ _ _ _ _ _ _ _ _ _ _ [x] y)]; [lia|cbn; lia|done|apply (store_padded _ [x] []); cbn; lia]|].
    apply rtc_once. split; [done|right; left]. eapply (Overruns _ _ _ _ _ _ _ _ _ _ _ _ _ y []); [cbn; lia|lia|by rewrite app_nil_r|].
    apply (store_long _ _ [x]); cbn; lia.
  - done.
Qed.
End client.

(** ** The server *)

(** What one [read] gives. *)
Inductive got := Bytes (bs : list Z) | End | Failed.

Section server.
Context (MAX_READ_BUFF MAX_TMP_BUFF MAX_LOAD_BUFF : nat).

(** The inner loop: a buffer is filled, unless the stream ends first. The rest of the reads
    is given back; [None] is a [read] that waits for ever. *)
Fixpoint fill_buffer (valread : Z) (rbuff : list Z) (reads : list got) : res (option (option (list Z) * list got)) :=
  if Z.of_nat MAX_READ_BUFF <=? valread then Ok (Some (Some rbuff, reads))
  else match reads with
  | [] => Ok None
  | (End | Failed) :: reads' => Ok (Some (None, reads'))
  | Bytes tmp :: reads' => rbuff ← store rbuff valread tmp; fill_buffer (valread + Z.of_nat (length tmp)) rbuff reads'
  end.

(** The loop [while(keepalive)] for one connection, for at most [fuel] buffers: what is
    shown, and whether the connection is closed at the end. One more than the number of
    reads is enough. *)
Fixpoint serve_client (fuel : nat) (reads : list got) (out : list Z) : res (list Z * bool) :=
  match fuel with
  | O => Err OutOfFuel
  | S f =>
      r ← fill_buffer 0 (padded MAX_READ_BUFF []) reads;
      match r with
      | None => Ok (out, false)
      | Some (None, _) => Ok (out, true)
      | Some (Some rbuff, reads') => x ← text_of rbuff; serve_client f reads' (out ++ x ++ [10])
      end
  end.

(** The loop of [NCAT_listen_and_serve], with what each [accept] gives: the status if it
    returns, what is shown, and what was written to the clients. *)
Fixpoint serve_all (content : option (list Z)) (accepts : list (option (list got))) (out : list Z) (handed : list (list Z)) :
    res (option Z * list Z * list (list Z)) :=
  match accepts with
  | [] => Ok (None, out, handed)
  | None :: _ => Ok (Some (-1), out, handed)
  | Some reads :: accepts' =>
      let handed := match content with Some c => handed ++ [c] | None => handed end in
      r ← serve_client (S (length reads)) reads out;
      if (r.2 : bool) then serve_all content accepts' r.1 handed else Ok (None, r.1, handed)
  end.
Definition NCAT_listen_and_serve (sockfd bound listening : Z) (content : option (list Z)) (accepts : list (option (list got))) :
    res (option Z * list Z * list (list Z)) :=
  if sockfd =? -1 then Ok (Some (-1), [], []) else
  if negb (bound =? 0) then Ok (Some (-1), [], []) else
  if negb (listening =? 0) then Ok (Some (-1), [], []) else
  serve_all content accepts [] [].

(** The loop that loads what is handed out: [n] more lines, into [serve_content]. *)
Fixpoint load (n : nat) (stdin content : list Z) (ptr : Z) : res (list Z * Z) :=
  match n with
  | O => Ok (content, ptr)
  | S n' =>
      let line := chunk (MAX_TMP_BUFF - 1) stdin in
      tmp ← text_of (padded MAX_TMP_BUFF line);
      let len_count := Z.of_nat (length tmp) in
      if Z.of_nat MAX_LOAD_BUFF <? ptr + len_count then Ok (content, ptr)
      else
        content ← store content ptr tmp;
        load n' (drop (length line) stdin) content (ptr + len_count)
  end.
Definition load_content (stdin : list Z) : res (list Z * Z) := load 10 stdin (padded MAX_LOAD_BUFF []) 0.

(** The bytes before the end of the stream, and whether it ends. *)
Fixpoint data (reads : list got) : list Z :=
  match reads with Bytes bs :: r => bs ++ data r | _ => [] end.
Fixpoint ends (reads : list got) : bool :=
  match reads with [] => false | Bytes _ :: r => ends r | _ => true end.

(** What a pass through the inner loop may come to. *)
Definition filled (x : list Z) (reads : list got) (r : res (option (option (list Z) * list got))) : Prop :=
  match r with
  | Err e => e = OutOfBounds
  | Ok None => ends reads = false /\ (length (x ++ data reads) < MAX_READ_BUFF)%nat
  | Ok (Some (None, _)) => ends reads = true /\ (length (x ++ data reads) < MAX_READ_BUFF)%nat
  | Ok (Some (Some rbuff, reads')) => exists y, rbuff = padded MAX_READ_BUFF y /\ length y = MAX_READ_BUFF /\
      x ++ data reads = y ++ data reads' /\ ends reads' = ends reads /\
      (length reads' <= length reads)%nat /\ ((length x < MAX_READ_BUFF)%nat -> (length reads' < length reads)%nat)
  end.

Lemma fill_buffer_spec reads : forall x, (length x <= MAX_READ_BUFF)%nat ->
  filled x reads (fill_buffer (Z.of_nat (length x)) (padded MAX_READ_BUFF x) reads).
Proof.
  induction reads as [|g reads IH]; intros x Hx; cbn [fill_buffer]; destruct (Z.of_nat MAX_READ_BUFF <=? Z.of_nat (length x)) eqn:E; zbool;
    [exists x; split_and!; done || lia|cbn; rewrite app_nil_r; split; [done|lia]|exists x; split_and!; done || lia|].
  destruct g as [tmp| |]; [|cbn; rewrite app_nil_r; split; [done|lia]..].
  destruct (decide (length x + length tmp <= MAX_READ_BUFF)%nat) as [Hle|Hgt].
  - rewrite store_padded by done. cbn [mbind res_bind]. replace (Z.of_nat (length x) + Z.of_nat (length tmp)) with (Z.of_nat (length (x ++ tmp))) by (rewrite length_app; lia).
    specialize (IH (x ++ tmp) ltac:(rewrite length_app; lia)). unfold filled in *. cbn [data ends length].
    destruct (fill_buffer _ _ reads) as [[[[rb|] r']|]|e]; rewrite <- ?(app_assoc x) in IH; try done.
    destruct IH as (y & H1 & H2 & H3 & H4 & H5 & _). exists y. split_and!; try done; lia.
  - by rewrite store_long by lia.
Qed.

(** What one connection shows: its complete buffers. *)
Definition shows (out : list Z) (blocks : list (list Z)) : list Z := out ++ (blocks ≫= fun b => c_chars b ++ [10]).

Lemma serve_client_spec f : (0 < MAX_READ_BUFF)%nat -> forall reads out, (length reads < f)%nat ->
  match serve_client f reads out with
  | Err e => e = OutOfBounds
  | Ok (out', closed) => closed = ends reads /\ exists blocks rest, Forall (fun b => length b = MAX_READ_BUFF) blocks /\
      data reads = concat blocks ++ rest /\ (length rest < MAX_READ_BUFF)%nat /\ out' = shows out blocks
  end.
Proof.
  intros HM. induction f as [|f IH]; intros reads out Hf; [lia|]. cbn [serve_client].
  pose proof (fill_buffer_spec reads [] ltac:(cbn; lia)) as H. change (Z.of_nat (length [])) with 0 in H. unfold filled in H.
  destruct (fill_buffer 0 _ reads) as [[[[rb|] r']|]|e]; cbn [mbind res_bind]; [| | |done].
  - destruct H as (y & -> & Hy & Hd & He & _ & Hlt). unfold text_of. destruct (c_string _) as [z|] eqn:E; [|done].
    apply c_string_chars in E as [<- _]. rewrite c_chars_padded. cbn [mbind res_bind].
    specialize (IH r' (out ++ c_chars y ++ [10]) ltac:(specialize (Hlt ltac:(cbn; lia)); lia)).
    destruct (serve_client f r' _) as [[out' cl]|e]; [|done]. destruct IH as (-> & bl & rest & H1 & H2 & H3 & ->). split; [done|].
    exists (y :: bl), rest. cbn in Hd. split_and!; [by constructor|rewrite Hd, H2; cbn; by rewrite app_assoc|done|].
    unfold shows. cbn [mbind list_bind]. by rewrite <- !app_assoc.
  - destruct H as [-> H]. split; [done|]. exists [], (data reads). cbn in H |- *. unfold shows. cbn. by rewrite app_nil_r.
  - destruct H as [-> H]. split; [done|]. exists [], (data reads). cbn in H |- *. unfold shows. cbn. by rewrite app_nil_r.
Qed.

(** For one connection the server stops, closes it if the client has ended its stream, and
    has shown exactly the texts of the complete buffers of a megabyte among the bytes: what
    comes after the last complete one is dropped. The only fault is an access outside the
    buffer. *)
Theorem server_shows_complete_buffers reads : (0 < MAX_READ_BUFF)%nat ->
  match serve_client (S (length reads)) reads [] with
  | Err e => e = OutOfBounds
  | Ok (out, closed) => closed = ends reads /\ exists blocks rest, Forall (fun b => length b = MAX_READ_BUFF) blocks /\
      data reads = concat blocks ++ rest /\ (length rest < MAX_READ_BUFF)%nat /\ out = shows [] blocks
  end.
Proof. intros HM. apply serve_client_spec; [done|lia]. Qed.

(** The lines that are loaded: as many as fit, at most [n]. *)
Fixpoint loaded (n : nat) (stdin : list Z) (room : nat) : list Z :=
  match n with
  | O => []
  | S n' =>
      let line := chunk (MAX_TMP_BUFF - 1) stdin in
      if (room <? length line)%nat then [] else line ++ loaded n' (drop (length line) stdin) (room - length line)
  end.

Lemma load_spec n : (0 < MAX_TMP_BUFF)%nat -> forall stdin x, no_nul stdin -> (length x <= MAX_LOAD_BUFF)%nat ->
  let y := x ++ loaded n stdin (MAX_LOAD_BUFF - length x) in
  load n stdin (padded MAX_LOAD_BUFF x) (Z.of_nat (length x)) = Ok (padded MAX_LOAD_BUFF y, Z.of_nat (length y)) /\ (length y <= MAX_LOAD_BUFF)%nat.
Proof.
  intros HT. induction n as [|n IH]; intros stdin x Hn Hx; cbn [load loaded]; [by rewrite app_nil_r|].
  set (line := chunk (MAX_TMP_BUFF - 1) stdin). assert (no_nul line) as Hnl by (by apply chunk_no_nul).
  assert (length line < MAX_TMP_BUFF)%nat as Hll by (unfold line; pose proof (length_chunk (MAX_TMP_BUFF - 1) stdin); lia).
  unfold text_of at 1. rewrite c_string_padded, c_chars_none by (rewrite ?c_chars_none by done; done || lia). cbn [mbind res_bind].
  destruct (MAX_LOAD_BUFF - length x <? length line)%nat eqn:E.
  - apply Nat.ltb_lt in E. rewrite (proj2 (Z.ltb_lt _ _)) by lia. by rewrite app_nil_r.
  - apply Nat.ltb_ge in E. rewrite (proj2 (Z.ltb_ge _ _)) by lia. rewrite store_padded by lia. cbn [mbind res_bind].
    replace (Z.of_nat (length x) + Z.of_nat (length line)) with (Z.of_nat (length (x ++ line))) by (rewrite length_app; lia).
    specialize (IH (drop (length line) stdin) (x ++ line) ltac:(by apply Forall_drop) ltac:(rewrite length_app; lia)).
    rewrite length_app, Nat.sub_add_distr, <- app_assoc in IH. rewrite length_app. exact IH.
Qed.

(** What the server hands out are the first lines of its input, at most ten and as many as
    fit, and loading them stays within the buffer. *)
Theorem load_content_exact stdin : (0 < MAX_TMP_BUFF)%nat -> no_nul stdin ->
  let y := loaded 10 stdin MAX_LOAD_BUFF in
  load_content stdin = Ok (padded MAX_LOAD_BUFF y, Z.of_nat (length y)) /\ (length y <= MAX_LOAD_BUFF)%nat.
Proof. intros HT Hn. pose proof (load_spec 10 HT stdin [] Hn ltac:(cbn; lia)) as H. by rewrite Nat.sub_0_r in H. Qed.

(** ** Both together *)

Lemma chunk_line n l rest : 10 ∉ l -> (length l < n)%nat -> chunk n (l ++ 10 :: rest) = l ++ [10].
Proof.
  revert n. induction l as [|c l IH]; intros n H Hn; destruct n as [|n]; try (cbn in Hn; lia); [done|].
  apply not_elem_of_cons in H as [Hc H]. cbn [app chunk]. destruct (c =? 10) eqn:E; zbool; [congruence|]. by rewrite IH by (done || (cbn in Hn; lia)).
Qed.

(** What the client writes for a line: the line without its newline, unless it is empty. *)
Lemma typed_line l rest : 10 ∉ l -> (S (length l) < MAX_READ_BUFF)%nat ->
  typed MAX_READ_BUFF (l ++ 10 :: rest) = padded MAX_READ_BUFF (match l with [] => [10] | _ => l end).
Proof.
  intros H Hl. unfold typed. rewrite chunk_line by (done || lia). destruct l as [|c l]; [|apply strip_padded; cbn [length] in *; done || lia].
  cbn [app]. assert (forall i, strip_newline i (padded MAX_READ_BUFF [10]) = padded MAX_READ_BUFF [10]) as Hs; [|done].
  induction i as [|i IH]; [done|]. cbn [strip_newline]. rewrite decide_False; [done|]. unfold padded. cbn.
  intros E%lookup_replicate. lia.
Qed.

Definition good_line (l : list Z) : Prop := no_nul l /\ 10 ∉ l /\ (S (length l) < MAX_READ_BUFF)%nat.
Definition received_line (l : list Z) : list Z := match l with [] => [10] | _ => l end.

Lemma received_ok l : good_line l -> no_nul (received_line l) /\ (length (received_line l) < MAX_READ_BUFF)%nat.
Proof.
  intros (Hn & _ & Hl). destruct l; [|cbn [received_line]; split; [done|lia]]. cbn in *. split; [by_compute|lia].
Qed.

Lemma serve_lines ls : (0 < MAX_READ_BUFF)%nat -> forall f out, (length ls < f)%nat -> Forall good_line ls ->
  serve_client f ((Bytes <$> ((fun l => typed MAX_READ_BUFF (l ++ [10])) <$> ls)) ++ [End]) out =
    Ok (out ++ (ls ≫= (fun l => received_line l ++ [10])), true).
Proof.
  intros HM. induction ls as [|l ls IH]; intros f out Hf Hg; (destruct f as [|f]; [cbn in Hf; lia|]); cbn [serve_client].
  - cbn. rewrite (proj2 (Z.leb_gt _ _)) by lia. cbn. by rewrite app_nil_r.
  - apply Forall_cons in Hg as [Hl Hg]. destruct (received_ok l Hl) as [Hrn Hrl]. destruct Hl as (_ & H10 & Hlen).
    rewrite !fmap_cons. rewrite (typed_line l []) by done. fold (received_line l). set (b := padded MAX_READ_BUFF (received_line l)).
    assert (length b = MAX_READ_BUFF) as Hb by (apply length_padded; lia).
    cbn [app fill_buffer].
    rewrite (proj2 (Z.leb_gt _ _)) by lia. assert (store (padded MAX_READ_BUFF []) 0 b = Ok (padded MAX_READ_BUFF b)) as -> by (apply (store_padded MAX_READ_BUFF b []); cbn; lia).
    cbn [mbind res_bind app].
    rewrite Hb, Z.add_0_l.
    assert (forall rd, fill_buffer (Z.of_nat MAX_READ_BUFF) (padded MAX_READ_BUFF b) rd = Ok (Some (Some (padded MAX_READ_BUFF b), rd))) as ->
      by (intros rd; destruct rd; cbn; by rewrite Z.leb_refl).
    cbn [mbind res_bind]. assert (padded MAX_READ_BUFF b = b) as -> by (unfold padded; rewrite Hb, Nat.sub_diag; apply app_nil_r).
    unfold text_of, b.
    rewrite c_string_padded, c_chars_none by (rewrite ?c_chars_none by done; done || lia). cbn [mbind res_bind].
    rewrite IH by (done || (cbn in Hf; lia)). rewrite bind_cons, <- !app_assoc. done.
Qed.

(** The reads of a client with these lines that arrive in one piece each. *)
Definition session (ls : list (list Z)) : list got := (Bytes <$> ((fun l => typed MAX_READ_BUFF (l ++ [10])) <$> ls)) ++ [End].

Lemma serve_sessions content ss : (0 < MAX_READ_BUFF)%nat -> Forall (Forall good_line) ss -> forall out handed,
  serve_all (Some content) (Some <$> (session <$> ss)) out handed =
    Ok (None, out ++ (ss ≫= (fun ls => ls ≫= (fun l => received_line l ++ [10]))), handed ++ replicate (length ss) content).
Proof.
  intros HM. induction 1 as [|ls ss Hls _ IH]; intros out handed; [cbn; by rewrite !app_nil_r|].
  rewrite !fmap_cons. cbn [serve_all].
  rewrite (serve_lines ls HM) by (done || (unfold session; rewrite length_app, !length_fmap; cbn; lia)).
  cbn [mbind res_bind snd fst]. rewrite IH. rewrite bind_cons. cbn [length replicate]. by rewrite <- !app_assoc.
Qed.

(** Clients and server together: each client is handed what the server has loaded; when
    each line arrives in one piece, the server shows the lines typed at each client, one
    after the other, and goes on to the next client when one ends. An empty line arrives
    with its newline, so that two are shown. *)
Theorem ncat_passes_lines content ss : (0 < MAX_READ_BUFF)%nat -> Forall (Forall good_line) ss ->
  NCAT_listen_and_serve 3 0 0 (Some content) (Some <$> (session <$> ss)) =
    Ok (None, ss ≫= (fun ls => ls ≫= (fun l => received_line l ++ [10])), replicate (length ss) content).
Proof. intros HM Hg. by apply (serve_sessions content ss HM Hg [] []). Qed.
End server.

(** ** Examples *)

Definition waiting_client : state := mk_state MType (GRead 0 (padded 8 [])) true true true (chars "hi" ++ [10]) [] false [] [] [] None.
Lemma waiting_client_run : rtc (step 8) (start (chars "hi" ++ [10])) waiting_client.
Proof.
  eapply rtc_l; [split; [done|left; apply Connects]|]. eapply rtc_l; [split; [done|left; apply Publishes]|].
  apply rtc_once. split; [done|right; left; apply TakesLock].
Qed.
Definition blocked_client : state := mk_state (MCheck (padded 8 (chars "hi"))) (GRead 0 (padded 8 [])) true true true [] [] false [] [] [] None.
Lemma blocked_client_run : rtc (patient_step 8) waiting_client blocked_client.
Proof. apply rtc_once. split; [split; [done|left; apply ReadsLine]|split; [done|cbn; lia]]. Qed.

Lemma client_shows_complete_buffers_witness : sock_open waiting_client = true.
Proof. apply (client_shows_complete_buffers 8 (chars "hi" ++ [10]) waiting_client waiting_client_run). reflexivity. Defined.
Lemma client_waits_for_ever_witness : written blocked_client = [] /\ locked blocked_client = true.
Proof.
  destruct (client_waits_for_ever 8 (chars "hi" ++ [10]) waiting_client blocked_client) as (H1 & _ & _ & H2);
    [exact waiting_client_run|reflexivity|discriminate|split; [reflexivity|cbn; lia]|exact blocked_client_run|]. split; [exact H1|exact H2].
Defined.
Lemma split_buffer_overruns_witness : exists st, rtc (step 8) (start []) st /\ broke st = Some OutOfBounds.
Proof.
  destruct (split_buffer_overruns 8 [] 7 (replicate 8 9)) as (st & H1 & _ & H2); [lia|reflexivity|]. exists st. split; [exact H1|exact H2].
Defined.
Lemma server_shows_complete_buffers_witness :
  match serve_client 4 5 [Bytes [104; 105]; Bytes [0; 0]; Bytes [7]; End] [] with Ok (out, closed) => closed = true | Err _ => False end.
Proof.
  pose proof (server_shows_complete_buffers 4 [Bytes [104; 105]; Bytes [0; 0]; Bytes [7]; End] ltac:(lia)) as H.
  vm_compute in H. vm_compute. apply (proj1 H).
Defined.
Lemma load_content_exact_witness : exists y, load_content 8 16 (chars "one" ++ [10] ++ chars "two") = Ok (padded 16 y, 7).
Proof. eexists. apply (load_content_exact 8 16 (chars "one" ++ [10] ++ chars "two")); by_compute. Defined.
Lemma ncat_passes_lines_witness :
  NCAT_listen_and_serve 8 3 0 0 (Some [7]) (Some <$> (session 8 <$> [[chars "one"; []]; [chars "two"]])) =
    Ok (None, chars "one" ++ [10; 10; 10] ++ chars "two" ++ [10], [[7]; [7]]).
Proof. apply (ncat_passes_lines 8 [7] [[chars "one"; []]; [chars "two"]]); [lia|repeat constructor; try discriminate; by_compute]. Defined.
End Ncat.
