(* ===== verification/KernelFiles.v ===== *)
(** * Kernel modules that show values as files

    src/kfsproc (files under /proc), src/kfssys (sysfs), src/kfsdebug (debugfs): drivers
    whose files show a debug level and a context and let a user change some of it. The
    number parser of the kernel that they call is modelled as documented. The outcomes of
    registrations, allocations, copies and of waiting for the mutex are arguments. Log
    messages are left out. *)
From stdpp Require Import base numbers list gmap strings.
From S2P Require Import Prelude CBase CDecimal CHeap.
Local Open Scope Z_scope.

Definition ENOMEM : Z := 12.
Definition EFAULT : Z := 14.
Definition EINVAL : Z := 22.
Definition ERANGE : Z := 34.
Definition ERESTARTSYS : Z := 512.

(** ** Numbers in the kernel *)

Definition lower (c : Z) : Z := Z.lor c 32.
(** The value of a digit, up to base 16. *)
Definition digit_value (c : Z) : option Z :=
  if isdigit c then Some (c - 48)
  else if (97 <=? lower c) && (lower c <=? 102) then Some (lower c - 87)
  else None.

(** The base a number is in, and where its digits start: base 0 of [kstrtoul]. *)
Definition fixup_radix (x : list Z) : Z * list Z :=
  match x with
  | 48 :: c :: d :: _ =>
      if (lower c =? 120) && bool_decide (is_Some (digit_value d)) then (16, drop 2 x) else (8, x)
  | 48 :: _ => (8, x)
  | _ => (10, x)
  end.
Fixpoint parse_integer (base a : Z) (x : list Z) : Z * nat :=
  match x with
  | c :: x' =>
      match digit_value c with
      | Some v => if v <? base then let '(r, n) := parse_integer base (base * a + v) x' in (r, S n) else (a, 0%nat)
      | None => (a, 0%nat)
      end
  | [] => (a, 0%nat)
  end.

(** A number without a sign, with at most one newline after it: the value or an error. *)
Definition kstrto_unsigned (x : list Z) : Z + Z :=
  let '(base, y) := fixup_radix x in
  let '(v, n) := parse_integer base 0 y in
  if 2 ^ 64 <=? v then inl ERANGE
  else if (n =? 0)%nat then inl EINVAL
  else
    let rest := drop n y in
    if bool_decide (rest = [] \/ rest = [10]) then inr v else inl EINVAL.
Definition kstrtoul (x : list Z) : Z + Z :=
  kstrto_unsigned (match x with 43 :: x' => x' | _ => x end).
Definition kstrtoint (x : list Z) : Z + Z :=
  let long :=
    match x with
    | 45 :: x' =>
        match kstrto_unsigned x' with
        | inl e => inl e
        | inr v => if 0 <? s64 (- v) then inl ERANGE else inr (s64 (- v))
        end
    | _ =>
        match kstrtoul x with
        | inl e => inl e
        | inr v => if s64 v <? 0 then inl ERANGE else inr (s64 v)
        end
    end in
  match long with
  | inl e => inl e
  | inr v => if negb (v =? s32 v) then inl ERANGE else inr v
  end.

(** The [%x] of a format. *)
Definition hex_char (d : Z) : Z := if d <? 10 then 48 + d else 87 + d.
Fixpoint uhex (fuel : nat) (n : Z) (acc : list Z) : list Z :=
  match fuel with
  | O => acc
  | S f => let acc' := hex_char (n mod 16) :: acc in if n <? 16 then acc' else uhex f (n / 16) acc'
  end.
Definition hex_digits (n : Z) : list Z := uhex (S (Z.to_nat (Z.log2 n))) n [].

Section numbers.
Lemma digit_value_digit c : digit_char c -> digit_value c = Some (c - 48).
Proof. intros H. unfold digit_value. by rewrite isdigit_true. Qed.

Lemma parse_digits x y : Forall digit_char x -> (forall c y', y = c :: y' -> digit_value c = None) -> forall a,
  parse_integer 10 a (x ++ y) = read_digits a x.
Proof.
  intros Hx Hy. induction Hx as [|c x Hc _ IH]; intros a; cbn [app parse_integer read_digits].
  - destruct y as [|c y]; [done|]. cbn. by rewrite (Hy c y eq_refl).
  - rewrite (digit_value_digit c Hc), (isdigit_true c Hc). unfold digit_char in Hc. rewrite (proj2 (Z.ltb_lt _ _)) by lia. by rewrite IH.
Qed.

Lemma udec_head f n acc : 0 < n < 2 ^ Z.of_nat f -> (1 <= f)%nat -> head (udec f n acc) <> Some 48.
Proof.
  revert n acc. induction f as [|f IH]; intros n acc Hn Hf; [lia|]. cbn [udec]. destruct (n <? 10) eqn:E; zbool.
  - cbn. rewrite Z.mod_small by lia. intros [= H]. lia.
  - destruct f as [|f]; [cbn in Hn; lia|]. apply IH; [|lia]. split; [apply Z.div_str_pos; lia|].
    apply Z.div_lt_upper_bound; [lia|]. rewrite Nat2Z.inj_succ, Z.pow_succ_r in Hn by lia. lia.
Qed.

(** The kernel reads back what [%d] writes, with or without a newline. *)
Lemma kstrto_dec n y : 0 <= n < 2 ^ 64 -> y = [] \/ y = [10] -> kstrto_unsigned (dec_digits n ++ y) = inr n.
Proof.
  intros Hn Hy. destruct (decide (n = 0)) as [->|Hn0]; [by destruct Hy as [-> | ->]|].
  unfold kstrto_unsigned. pose proof (udec_head (S (Z.to_nat (Z.log2 n))) n []) as Hh. fold (dec_digits n) in Hh.
  specialize (Hh ltac:(pose proof (dec_digits_fuel n); lia) ltac:(lia)).
  pose proof (dec_digits_digits n ltac:(lia)) as Hd. pose proof (dec_digits_nonempty n) as Hne. pose proof (read_dec_digits n ltac:(lia)) as Hr.
  assert (fixup_radix (dec_digits n ++ y) = (10, dec_digits n ++ y)) as ->.
  { destruct (dec_digits n) as [|c x]; [done|]. apply Forall_cons in Hd as [Hc _]. unfold digit_char in Hc. cbn in Hh |- *.
    destruct c as [|p|p]; try lia. do 6 (destruct p as [p|p|]; try done); try lia; by destruct Hh. }
  rewrite parse_digits, Hr; [|done|].
  - rewrite (proj2 (Z.leb_gt _ _)) by lia. rewrite drop_app_length.
    destruct (length (dec_digits n)) eqn:E; [by destruct (dec_digits n)|]. cbn [Nat.eqb]. by rewrite bool_decide_true.
  - intros c y' ->. destruct Hy as [?|[= -> ->]]; done.
Qed.

(** The errors are two. *)
Lemma kstrto_error x e : kstrto_unsigned x = inl e -> e = EINVAL \/ e = ERANGE.
Proof.
  unfold kstrto_unsigned. destruct (fixup_radix x) as [b y], (parse_integer b 0 y) as [v n].
  destruct (_ <=? v); [intros [= <-]; by right|]. destruct (n =? 0)%nat; [intros [= <-]; by left|].
  destruct (bool_decide _); [done|]. intros [= <-]. by left.
Qed.
Lemma kstrtoint_error x e : kstrtoint x = inl e -> e = EINVAL \/ e = ERANGE.
Proof.
  unfold kstrtoint. match goal with |- match ?m with _ => _ end = _ -> _ => assert (forall e', m = inl e' -> e' = EINVAL \/ e' = ERANGE) as H; [|destruct m as [e'|l] eqn:E] end.
  - intros e'. assert (forall y, match kstrtoul y with inl e => inl e | inr v => if s64 v <? 0 then inl ERANGE else inr (s64 v) end = inl e' -> e' = EINVAL \/ e' = ERANGE) as Hp.
    { intros y. unfold kstrtoul. destruct (kstrto_unsigned _) as [e1|v] eqn:E; [intros [= <-]; by eapply kstrto_error|].
      destruct (_ <? 0); [intros [= <-]; by right|done]. }
    assert (forall y, match kstrto_unsigned y with inl e => inl e | inr v => if 0 <? s64 (- v) then inl ERANGE else inr (s64 (- v)) end = inl e' -> e' = EINVAL \/ e' = ERANGE) as Hm.
    { intros y. destruct (kstrto_unsigned y) as [e1|v] eqn:E; [intros [= <-]; by eapply kstrto_error|].
      destruct (0 <? _); [intros [= <-]; by right|done]. }
    destruct x as [|c x]; [apply Hp|]. destruct c as [|p|p]; [apply Hp| |apply Hp]. do 6 (destruct p as [p|p|]; try apply Hp). apply Hm.
  - intros [= <-]. by apply H.
  - destruct (negb _); [intros [= <-]; by right|done].
Qed.

(** A digit is not a sign. *)
Lemma no_sign {A} c (f g : A) : digit_char c -> (match c with 43 => f | _ => g end) = g /\ (match c with 45 => f | _ => g end) = g.
Proof.
  intros Hc. unfold digit_char in Hc. destruct c as [|p|p]; try lia; split; do 6 (destruct p as [p|p|]; try done); lia.
Qed.
Lemma kstrtoul_dec n y : 0 <= n < 2 ^ 64 -> y = [] \/ y = [10] -> kstrtoul (dec_digits n ++ y) = inr n.
Proof.
  intros Hn Hy. unfold kstrtoul. pose proof (dec_digits_digits n ltac:(lia)) as Hd. pose proof (dec_digits_nonempty n) as Hne.
  rewrite <- (kstrto_dec n y Hn Hy). destruct (dec_digits n) as [|c x]; [done|]. apply Forall_cons in Hd as [Hc _].
  cbn [app]. by rewrite (proj1 (no_sign c _ _ Hc)).
Qed.
Lemma kstrtoint_dec n y : 0 <= n <= INT_MAX -> y = [] \/ y = [10] -> kstrtoint (dec_digits n ++ y) = inr n.
Proof.
  intros Hn Hy. unfold INT_MAX in Hn. unfold kstrtoint. pose proof (kstrtoul_dec n y ltac:(lia) Hy) as Hk.
  pose proof (dec_digits_digits n ltac:(lia)) as Hd. pose proof (dec_digits_nonempty n) as Hne.
  assert (s64 n = n) as Hs by (unfold s64; rewrite Z.mod_small; lia). assert (s32 n = n) as Hs' by (unfold s32; rewrite Z.mod_small; lia).
  destruct (dec_digits n) as [|c x]; [done|]. apply Forall_cons in Hd as [Hc _]. cbn [app] in *.
  rewrite (proj2 (no_sign c _ _ Hc)), Hk, Hs, (proj2 (Z.ltb_ge _ _)) by lia. by rewrite Hs', Z.eqb_refl.
Qed.
(** What a driver takes of a number that was written with a newline. *)
Lemma written_number n : 0 <= n -> c_chars (take (Z.to_nat (Z.of_nat (length (dec_digits n ++ [10])) - 1)) (dec_digits n ++ [10])) = dec_digits n.
Proof.
  intros Hn. rewrite length_app. cbn [length]. replace (Z.to_nat _) with (length (dec_digits n)) by lia. rewrite take_app_length.
  apply c_chars_none. eapply Forall_impl; [by apply dec_digits_digits|]. unfold digit_char. intros. lia.
Qed.
End numbers.

(** ** Files under /proc: src/kfsproc/procfs_if.c *)
Module Proc.

Record drv_ctx := mk_ctx {
  tx : Z; rx : Z; err : Z; myword : Z; power : Z; config1 : Z; config2 : Z; config3 : Z; oursecret : list Z }.
Definition set_config1 (v : Z) (c : drv_ctx) : drv_ctx :=
  mk_ctx (tx c) (rx c) (err c) (myword c) (power c) v (config2 c) (config3 c) (oursecret c).

(** What [gdrvctx] points to: nothing, an error code in place of a pointer, the context, or
    memory that was freed. *)
Inductive context := Nothing | ErrPtr | Live (c : drv_ctx) | Freed.
Inductive pfile := DebugLevel | PgOff | DrvCtx | Config1.
#[global] Instance pfile_eq_dec : EqDecision pfile.
Proof. solve_decision. Defined.

Record proc := mk_proc { mtx : bool; dir : bool; entries : list pfile; gdrvctx : context; debug_level : Z }.
Definition M (A : Type) : Type := ST proc A.

Definition lock : M unit := fun s =>
  if mtx s then Err Deadlock else Ok (tt, mk_proc true (dir s) (entries s) (gdrvctx s) (debug_level s)).
Definition unlock : M unit := fun s => Ok (tt, mk_proc false (dir s) (entries s) (gdrvctx s) (debug_level s)).
Definition get_ctx : M drv_ctx := fun s =>
  match gdrvctx s with Live c => Ok (c, s) | Freed => Err UseAfterFree | _ => Err NullDeref end.
Definition put_config1 (v : Z) : M unit :=
  c ← get_ctx;
  s ← stget;
  stput (mk_proc (mtx s) (dir s) (entries s) (Live (set_config1 v c)) (debug_level s)).
Definition put_level (v : Z) : M unit := fun s => Ok (tt, mk_proc (mtx s) (dir s) (entries s) (gdrvctx s) v).

Definition OURMODNAME : list Z := chars "procfs_if".

(** The text a file shows, with the return value. *)
Definition proc_show_config1 (interrupted : bool) : M (Z * list Z) :=
  if interrupted then mret (- ERESTARTSYS, [])
  else
    lock;;
    c ← get_ctx;
    let out := OURMODNAME ++ chars ":config1:" ++ dec (s32 (config1 c)) ++ chars ",0x" ++ hex_digits (config1 c) ++ [10] in
    unlock;;
    mret (0, out).

(** [ubuf]: the bytes at the user's address. *)
Definition myproc_write_config1 (interrupted : bool) (count : Z) (ubuf : list Z) (copy_ok : bool) : M Z :=
  if interrupted then mret (- ERESTARTSYS)
  else
    lock;;
    ret ← (if (count =? 0) || (8 <? count) then mret (- EINVAL)
           else if negb copy_ok then mret (- EFAULT)
           else
             match kstrtoul (c_chars (take (Z.to_nat (count - 1)) ubuf)) with
             | inl e => mret (- e)
             | inr configval => put_config1 (configval mod 2 ^ 32);; put_level (s32 configval);; mret count
             end);
    unlock;;
    mret ret.

Definition proc_show_drvctx (interrupted : bool) : M (Z * list Z) :=
  if interrupted then mret (- ERESTARTSYS, [])
  else
    lock;;
    c ← get_ctx;
    let out := chars "prodname:" ++ OURMODNAME ++ [10] ++
      chars "tx:" ++ dec (tx c) ++ chars ",rx:" ++ dec (rx c) ++ chars ",err:" ++ dec (err c) ++
      chars ",myword:" ++ dec (myword c) ++ chars ",power:" ++ dec (power c) ++ [10] ++
      chars "config1:0x" ++ hex_digits (config1 c) ++ chars ",config2:0x" ++ hex_digits (config2 c) ++
      chars ",config3:0x" ++ hex_digits (config3 c) ++ [10] ++ chars "oursecret:" ++ c_chars (oursecret c) ++ [10] in
    unlock;;
    mret (0, out).

Definition alloc_init_drvctx (kzalloc_ok : bool) : context :=
  if kzalloc_ok
  then Live (mk_ctx 0 0 0 0 1 0 0x48524a5f 0x424c0a52
    (splice 0 (chars "AhA xxx" ++ [0]) (replicate 128 0)))
  else ErrPtr.

Definition proc_show_pgoff (page_offset : Z) : M (Z * list Z) :=
  mret (0, OURMODNAME ++ chars ":PAGE_OFFSET:0x" ++ hex_digits page_offset ++ [10]).

Definition DEBUG_LEVEL_MIN : Z := 0.
Definition DEBUG_LEVEL_MAX : Z := 2.

Definition myproc_write_debug_level (interrupted : bool) (count : Z) (ubuf : list Z) (copy_ok : bool) : M Z :=
  if interrupted then mret (- ERESTARTSYS)
  else
    lock;;
    ret ← (if (count =? 0) || (12 <? count) then mret (- EINVAL)
           else if negb copy_ok then mret (- EFAULT)
           else
             match kstrtoint (c_chars (take (Z.to_nat (count - 1)) ubuf)) with
             | inl e => mret (- e)
             | inr level =>
                 put_level level;;
                 if (level <? DEBUG_LEVEL_MIN) || (DEBUG_LEVEL_MAX <? level)
                 then put_level DEBUG_LEVEL_MIN;; mret (- EFAULT)
                 else put_config1 level;; mret count
             end);
    unlock;;
    mret ret.

Definition proc_show_debug_level (interrupted : bool) : M (Z * list Z) :=
  if interrupted then mret (- ERESTARTSYS, [])
  else
    lock;;
    s ← stget;
    let out := chars "debug_level:" ++ dec (debug_level s) ++ [10] in
    unlock;;
    mret (0, out).

(** The places of [procfs_if_init], each before the call that follows it. *)
Inductive init_pc := IMkdir | IFile1 | IFile2 | IAlloc | IFile3 | IFile4 | IFail3 (stat : Z) | IFail2 (stat : Z) | IDone (stat : Z).

Definition set_entries (l : list pfile) (s : proc) : proc := mk_proc (mtx s) (dir s) l (gdrvctx s) (debug_level s).
Definition set_ctx (c : context) (s : proc) : proc := mk_proc (mtx s) (dir s) (entries s) c (debug_level s).
Definition set_dir (b : bool) (s : proc) : proc := mk_proc (mtx s) b (entries s) (gdrvctx s) (debug_level s).

(** One call of it, which succeeds or not. *)
Definition procfs_if_init (pc : init_pc) (ok : bool) (s : proc) : init_pc * proc :=
  match pc with
  | IMkdir => if ok then (IFile1, set_dir true s) else (IDone (- ENOMEM), s)
  | IFile1 => if ok then (IFile2, set_entries (DebugLevel :: entries s) s) else (IDone (- ENOMEM), s)
  | IFile2 => if ok then (IAlloc, set_entries (PgOff :: entries s) s) else (IFail2 (- ENOMEM), s)
  | IAlloc => (if ok then IFile3 else IFail2 (- ENOMEM), set_ctx (alloc_init_drvctx ok) s)
  | IFile3 => if ok then (IFile4, set_entries (DrvCtx :: entries s) s) else (IFail3 (- ENOMEM), s)
  | IFile4 => if ok then (IDone 0, set_entries (Config1 :: entries s) s) else (IFail3 (- ENOMEM), s)
  | IFail3 stat => (IFail2 stat, set_ctx Freed s)
  | IFail2 stat => (IDone stat, set_dir false (set_entries [] s))
  | IDone stat => (IDone stat, s)
  end.

(** [procfs_if_cleanup]. *)
Definition procfs_if_cleanup : M unit :=
  c ← get_ctx;
  s ← stget;
  stput (set_ctx Freed (set_dir false (set_entries [] s))).

Definition unloaded : proc := mk_proc false false [] Nothing 0.

(** What a user does with a file. *)
Inductive op :=
  | ShowLevel (interrupted : bool) | WriteLevel (interrupted : bool) (count : Z) (ubuf : list Z) (copy_ok : bool)
  | ShowPgOff (page_offset : Z) | ShowDrvCtx (interrupted : bool)
  | ShowConfig1 (interrupted : bool) | WriteConfig1 (interrupted : bool) (count : Z) (ubuf : list Z) (copy_ok : bool).
Definition file_of (o : op) : pfile :=
  match o with
  | ShowLevel _ | WriteLevel _ _ _ _ => DebugLevel
  | ShowPgOff _ => PgOff
  | ShowDrvCtx _ => DrvCtx
  | ShowConfig1 _ | WriteConfig1 _ _ _ _ => Config1
  end.
Definition perform (o : op) : M (Z * list Z) :=
  match o with
  | ShowLevel i => proc_show_debug_level i
  | WriteLevel i n b c => r ← myproc_write_debug_level i n b c; mret (r, [])
  | ShowPgOff p => proc_show_pgoff p
  | ShowDrvCtx i => proc_show_drvctx i
  | ShowConfig1 i => proc_show_config1 i
  | WriteConfig1 i n b c => r ← myproc_write_config1 i n b c; mret (r, [])
  end.

(** The module being loaded while its files are in use. *)
Inductive step : init_pc * proc -> init_pc * proc -> Prop :=
  | StepInit pc ok s : step (pc, s) (procfs_if_init pc ok s)
  | StepUse pc s o r s' : file_of o ∈ entries s -> perform o s = Ok (r, s') -> step (pc, s) (pc, s').








(** The file of the debug level is there before the context it writes to: a level written
    in between is a write through a null pointer. *)
Theorem proc_early_write_faults n : 0 <= n <= 2 ->
  exists st, rtc step (IMkdir, unloaded) st /\ DebugLevel ∈ entries st.2 /\
    perform (WriteLevel false (Z.of_nat (length (dec n ++ [10]))) (dec n ++ [10]) true) st.2 = Err NullDeref.
Proof.
  intros Hn. eexists. split; [eapply rtc_l; [apply (StepInit _ true)|]; apply rtc_once; apply (StepInit _ true)|].
  split; [left|]. assert (n = 0 \/ n = 1 \/ n = 2) as [-> |[-> | ->]] by lia; reflexivity.
Qed.

Lemma write_level_run d es c lv n : 0 <= n <= 2 ->
  myproc_write_debug_level false (Z.of_nat (length (dec_digits n ++ [10]))) (dec_digits n ++ [10]) true (mk_proc false d es (Live c) lv) =
    Ok (Z.of_nat (length (dec_digits n ++ [10])), mk_proc false d es (Live (set_config1 n c)) n).
Proof.
  intros Hn. unfold myproc_write_debug_level. cbv iota. rewrite (bind_run _ _ _ tt (mk_proc true d es (Live c) lv)) by done.
  rewrite written_number by lia. pose proof (kstrtoint_dec n [] ltac:(unfold INT_MAX; lia) (or_introl eq_refl)) as Hk. rewrite app_nil_r in Hk. rewrite Hk.
  pose proof (dec_digits_length n 1 ltac:(lia) ltac:(lia)). rewrite length_app. cbn [length].
  rewrite (proj2 (Z.eqb_neq _ _)), (proj2 (Z.ltb_ge _ _)) by lia. cbn [orb negb]. unfold DEBUG_LEVEL_MIN, DEBUG_LEVEL_MAX.
  rewrite (bind_run _ _ _ (Z.of_nat (length (dec_digits n) + 1)) (mk_proc true d es (Live (set_config1 n c)) n)); [done|].
  rewrite (bind_run _ _ _ tt (mk_proc true d es (Live c) n)) by done. by rewrite !(proj2 (Z.ltb_ge _ _)) by lia.
Qed.
Lemma write_config1_run d es c lv m : 0 <= m < 10 ^ 7 ->
  myproc_write_config1 false (Z.of_nat (length (dec_digits m ++ [10]))) (dec_digits m ++ [10]) true (mk_proc false d es (Live c) lv) =
    Ok (Z.of_nat (length (dec_digits m ++ [10])), mk_proc false d es (Live (set_config1 m c)) m).
Proof.
  intros Hm. unfold myproc_write_config1. cbv iota. rewrite (bind_run _ _ _ tt (mk_proc true d es (Live c) lv)) by done.
  rewrite written_number by lia. pose proof (kstrtoul_dec m [] ltac:(lia) (or_introl eq_refl)) as Hk. rewrite app_nil_r in Hk. rewrite Hk.
  pose proof (dec_digits_length m 7 ltac:(lia) ltac:(lia)). rewrite length_app. cbn [length].
  rewrite (proj2 (Z.eqb_neq _ _)), (proj2 (Z.ltb_ge _ _)) by lia. cbn [orb negb].
  assert (s32 m = m) as -> by (unfold s32; rewrite Z.mod_small; lia). rewrite Z.mod_small by lia. done.
Qed.

(** A level from 0 to 2 that is written is the one shown, in both files; but through the
    file of [config1] the level takes any value of up to seven digits, outside its range. *)
Theorem proc_level_round_trip s c n m : mtx s = false -> gdrvctx s = Live c -> 0 <= n <= 2 -> 0 <= m < 10 ^ 7 ->
  exists s1 s2,
    perform (WriteLevel false (Z.of_nat (length (dec n ++ [10]))) (dec n ++ [10]) true) s = Ok ((Z.of_nat (length (dec n ++ [10])), []), s1) /\
    perform (ShowLevel false) s1 = Ok ((0, chars "debug_level:" ++ dec n ++ [10]), s1) /\
    perform (ShowConfig1 false) s1 = Ok ((0, chars "procfs_if:config1:" ++ dec n ++ chars ",0x" ++ hex_digits n ++ [10]), s1) /\
    perform (WriteConfig1 false (Z.of_nat (length (dec m ++ [10]))) (dec m ++ [10]) true) s1 = Ok ((Z.of_nat (length (dec m ++ [10])), []), s2) /\
    perform (ShowLevel false) s2 = Ok ((0, chars "debug_level:" ++ dec m ++ [10]), s2) /\ debug_level s2 = m.
Proof.
  destruct s as [mt d es g lv]. cbn [mtx gdrvctx]. intros -> -> Hn Hm.
  assert (forall k, 0 <= k -> dec k = dec_digits k) as Hd by (intros k Hk; unfold dec; by rewrite (proj2 (Z.ltb_ge _ _)) by lia).
  exists (mk_proc false d es (Live (set_config1 n c)) n), (mk_proc false d es (Live (set_config1 m (set_config1 n c))) m).
  rewrite (Hd n), (Hd m) by lia. assert (s32 n = n) as Hs by (unfold s32; rewrite Z.mod_small; lia). split_and!; [..|done].
  - unfold perform. by rewrite (bind_run _ _ _ _ _ (write_level_run d es c lv n Hn)).
  - rewrite <- (Hd n) by lia. reflexivity.
  - assert (dec_digits n = dec (s32 n)) as -> by (rewrite Hs, Hd; done || lia). reflexivity.
  - unfold perform. by rewrite (bind_run _ _ _ _ _ (write_config1_run d es (set_config1 n c) n m Hm)).
  - rewrite <- (Hd m) by lia. reflexivity.
Qed.

Ltac settled H := cbn; erewrite H by done; cbn; intros _ ?; split; [done|]; split; [done|intros [? ?]; done].

(** When the first file cannot be made, loading fails and the directory stays behind; when
    anything later fails, nothing does. *)
Theorem proc_failed_load_leaves_directory oks :
  let run := foldl (fun st ok => procfs_if_init st.1 ok st.2) (IMkdir, unloaded) oks in
  forall stat, run.1 = IDone stat -> stat <> 0 -> (entries run.2 = [] /\ (dir run.2 = true <-> exists r, oks = true :: false :: r)).
Proof.
  assert (forall l st stat, st = (IDone stat, st.2) -> foldl (fun st ok => procfs_if_init st.1 ok st.2) st l = st) as Hdone.
  { induction l as [|b l IH]; intros st stat Hst; [done|]. cbn. rewrite Hst. cbn. rewrite <- Hst. by apply (IH _ stat). }
  intros run stat. unfold run. clear run.
  destruct oks as [|[] oks]; [done| |settled Hdone].
  destruct oks as [|[] oks]; [done| |cbn; erewrite Hdone by done; cbn; intros _ _; split; [done|split; eauto]].
  destruct oks as [|[] oks]; [done| |destruct oks as [|? oks]; [done|settled Hdone]].
  destruct oks as [|[] oks]; [done| |destruct oks as [|? oks]; [done|settled Hdone]].
  destruct oks as [|[] oks]; [done| |do 2 (destruct oks as [|? oks]; [done|]); settled Hdone].
  destruct oks as [|[] oks]; [done| |do 2 (destruct oks as [|? oks]; [done|]); settled Hdone].
  cbn. erewrite Hdone by done. cbn. by intros [= <-].
Qed.

Definition loaded : proc := mk_proc false true [Config1; DrvCtx; PgOff; DebugLevel] (alloc_init_drvctx true) 0.

Lemma proc_early_write_faults_witness : exists st, rtc step (IMkdir, unloaded) st /\
  perform (WriteLevel false 2 (chars "1" ++ [10]) true) st.2 = Err NullDeref.
Proof. destruct (proc_early_write_faults 1) as (st & Hr & _ & E); [lia|]. exists st. split; [exact Hr|exact E]. Defined.
Lemma proc_level_round_trip_witness : exists s1 s2,
  perform (WriteLevel false 2 (chars "2" ++ [10]) true) loaded = Ok ((2, []), s1) /\
  perform (WriteConfig1 false 3 (chars "99" ++ [10]) true) s1 = Ok ((3, []), s2) /\ debug_level s2 = 99.
Proof.
  destruct (proc_level_round_trip loaded (match alloc_init_drvctx true with Live c => c | _ => mk_ctx 0 0 0 0 0 0 0 0 [] end) 2 99)
    as (s1 & s2 & E1 & _ & _ & E2 & _ & E3); [reflexivity|reflexivity|lia|lia|]. exists s1, s2. split; [exact E1|]. split; [exact E2|exact E3].
Defined.
Lemma proc_failed_load_leaves_directory_witness : exists s,
  foldl (fun st ok => procfs_if_init st.1 ok st.2) (IMkdir, unloaded) [true; false] = (IDone (-12), s) /\ dir s = true.
Proof.
  pose proof (proc_failed_load_leaves_directory [true; false] (-12) eq_refl ltac:(lia)) as [_ H]. eexists. split; [reflexivity|].
  apply H. by exists [].
Defined.
End Proc.

(** ** sysfs: src/kfssys/sysfs_if.c *)
Module Sysfs.

Record sysfs := mk_sysfs { mtx : bool; debug_level : Z; gpressure : Z; platdev : bool; files : list Z }.
Definition M (A : Type) : Type := ST sysfs A.
Definition lock : M unit := fun s =>
  if mtx s then Err Deadlock else Ok (tt, mk_sysfs true (debug_level s) (gpressure s) (platdev s) (files s)).
Definition unlock : M unit := fun s => Ok (tt, mk_sysfs false (debug_level s) (gpressure s) (platdev s) (files s)).
Definition put_level (v : Z) : M unit := fun s => Ok (tt, mk_sysfs (mtx s) v (gpressure s) (platdev s) (files s)).

(** [snprintf(buf, 25, ...)]: what is in the buffer, and the length of the whole text. *)
Definition snprintf25 (x : list Z) : Z * list Z := (Z.of_nat (length x), take 24 x).

Definition showing (interrupted : bool) (text : sysfs -> list Z) : M (Z * list Z) :=
  if interrupted then mret (- ERESTARTSYS, [])
  else lock;; s ← stget; let n := snprintf25 (text s) in unlock;; mret n.
Definition llkdsysfs_pressure_show (interrupted : bool) : M (Z * list Z) := showing interrupted (fun s => dec (gpressure s)).
Definition llkdsysfs_pgoff_show (interrupted : bool) (page_offset : Z) : M (Z * list Z) :=
  showing interrupted (fun _ => chars "0x" ++ hex_digits page_offset).
Definition llkdsysfs_debug_level_show (interrupted : bool) : M (Z * list Z) := showing interrupted (fun s => dec (debug_level s) ++ [10]).

Definition DEBUG_LEVEL_MIN : Z := 0.
Definition DEBUG_LEVEL_MAX : Z := 2.

(** [buf]: the text that was written, which the kernel ends with a zero. *)
Definition llkdsysfs_debug_level_store (interrupted : bool) (buf : list Z) : M Z :=
  let count := Z.of_nat (length buf) in
  if interrupted then mret (- ERESTARTSYS)
  else
    lock;;
    s ← stget;
    let prev_dbglevel := debug_level s in
    ret ← (if (count =? 0) || (12 <? count) then mret (- EINVAL)
           else
             match kstrtoint (c_chars buf) with
             | inl e => mret (- e)
             | inr level =>
                 put_level level;;
                 if (level <? DEBUG_LEVEL_MIN) || (DEBUG_LEVEL_MAX <? level)
                 then put_level prev_dbglevel;; mret (- EFAULT)
                 else mret count
             end);
    unlock;;
    mret ret.

Definition set_files (b : bool) (l : list Z) (s : sysfs) : sysfs := mk_sysfs (mtx s) (debug_level s) (gpressure s) b l.
Definition add_file (f : Z) : M unit := s ← stget; stput (set_files (platdev s) (f :: files s) s).
Definition remove_file (f : Z) : M unit := s ← stget; stput (set_files (platdev s) (List.filter (fun g => negb (g =? f)) (files s)) s).

(** The files [1], [2] and [3], with what the registrations give. *)
Definition sysfs_if_init (plat file1 file2 file3 : Z) : M Z :=
  if plat <? 0 then mret plat
  else
    (s ← stget; stput (set_files true (files s) s));;
    let out2 stat := (s ← stget; stput (set_files false (files s) s));; mret stat in
    if negb (file1 =? 0) then out2 file1
    else
      add_file 1;;
      let out3 stat := remove_file 1;; out2 stat in
      if negb (file2 =? 0) then out3 file2
      else
        add_file 2;;
        (s ← stget; stput (mk_sysfs (mtx s) (debug_level s) 25 (platdev s) (files s)));;
        if negb (file3 =? 0) then remove_file 2;; out3 file3
        else add_file 3;; mret 0.

Definition sysfs_if_cleanup : M unit :=
  remove_file 3;; remove_file 2;; remove_file 1;; s ← stget; stput (set_files false (files s) s).

Definition unloaded : sysfs := mk_sysfs false 0 0 false [].

(** The first of the errors. *)
Definition first_error (l : list Z) : Z := default 0 (head (List.filter (fun e => negb (e =? 0)) l)).

(** Loading either succeeds with the device and its three files, or fails with the error
    of the step that failed and leaves neither; unloading removes all of it. *)
Theorem sysfs_load_is_all_or_nothing plat f1 f2 f3 : plat <= 0 -> let stat := first_error [plat; f1; f2; f3] in
  exists s, sysfs_if_init plat f1 f2 f3 unloaded = Ok (stat, s) /\ mtx s = false /\
    (stat = 0 -> platdev s = true /\ files s = [3; 2; 1] /\ gpressure s = 25 /\
       exists s', sysfs_if_cleanup s = Ok (tt, s') /\ platdev s' = false /\ files s' = []) /\
    (stat <> 0 -> platdev s = false /\ files s = []).
Proof.
  intros Hp. unfold first_error, sysfs_if_init. cbn [List.filter].
  destruct (plat <? 0) eqn:E0; zbool; (destruct (plat =? 0) eqn:E0'; zbool; try lia; cbn [negb head default]).
  { eexists. split_and!; [done|done|done|done]. }
  destruct (f1 =? 0) eqn:E1; zbool; cbn [negb head default]; [|eexists; split_and!; [reflexivity|done|done|done]].
  destruct (f2 =? 0) eqn:E2; zbool; cbn [negb head default]; [|eexists; split_and!; [reflexivity|done|done|done]].
  destruct (f3 =? 0) eqn:E3; zbool; cbn [negb head default]; [|eexists; split_and!; [reflexivity|done|done|done]].
  eexists. split_and!; [reflexivity|done|intros _; split_and!; [done|done|done|]; by eexists|done].
Qed.
Lemma sysfs_load_is_all_or_nothing_witness : exists s, sysfs_if_init 0 0 (-17) 0 unloaded = Ok (-17, s) /\ platdev s = false.
Proof.
  destruct (sysfs_load_is_all_or_nothing 0 0 (-17) 0) as (s & E & _ & _ & H); [lia|]. exists s. split; [exact E|]. apply H. discriminate.
Defined.

(** What a store comes to: its result and the level after it. *)
Definition stored (buf : list Z) (lv : Z) : Z * Z :=
  let count := Z.of_nat (length buf) in
  if (count =? 0) || (12 <? count) then (- EINVAL, lv)
  else match kstrtoint (c_chars buf) with
  | inl e => (- e, lv)
  | inr v => if (v <? 0) || (2 <? v) then (- EFAULT, lv) else (count, v)
  end.
Lemma level_store_run s buf : mtx s = false -> llkdsysfs_debug_level_store false buf s =
  Ok ((stored buf (debug_level s)).1, mk_sysfs false (stored buf (debug_level s)).2 (gpressure s) (platdev s) (files s)).
Proof.
  destruct s as [m lv gp pd fs]. cbn [mtx debug_level gpressure platdev files]. intros ->. unfold llkdsysfs_debug_level_store, stored.
  cbv iota. rewrite (bind_run _ _ _ tt (mk_sysfs true lv gp pd fs)) by done.
  unfold mbind at 1, ST_bind at 1, stget at 1. cbn [debug_level].
  destruct (_ || _); [done|]. destruct (kstrtoint (c_chars buf)) as [e|v]; [done|].
  unfold DEBUG_LEVEL_MIN, DEBUG_LEVEL_MAX. unfold mbind, ST_bind. cbn [put_level mtx gpressure platdev files]. by destruct (_ || _).
Qed.

(** What a user does with the file of the level. *)
Inductive op := Show (interrupted : bool) | Store (interrupted : bool) (buf : list Z).
Definition perform (o : op) : M (Z * list Z) :=
  match o with
  | Show i => llkdsysfs_debug_level_show i
  | Store i buf => r ← llkdsysfs_debug_level_store i buf; mret (r, [])
  end.
Inductive step : sysfs -> sysfs -> Prop :=
  | Step o s r s' : perform o s = Ok (r, s') -> step s s'.

Definition in_range (s : sysfs) : Prop := mtx s = false /\ 0 <= debug_level s <= 2.

Lemma stored_cases buf lv : 0 <= lv <= 2 -> 0 <= (stored buf lv).2 <= 2 /\
  ((stored buf lv).1 < 0 -> (stored buf lv).2 = lv) /\
  (0 <= (stored buf lv).1 -> (stored buf lv).1 = Z.of_nat (length buf) /\ kstrtoint (c_chars buf) = inr (stored buf lv).2).
Proof.
  intros Hl. unfold stored. destruct (_ || (12 <? _)) eqn:E; [unfold EINVAL; cbn; split_and!; lia|].
  destruct (kstrtoint (c_chars buf)) as [e|v] eqn:Ek.
  - apply kstrtoint_error in Ek. unfold EINVAL, ERANGE in Ek. cbn. split_and!; [lia|lia|done|lia].
  - clear E. destruct (_ || (2 <? v)) eqn:Er; [unfold EFAULT; cbn; split_and!; lia|]. apply orb_false_iff in Er as [? ?]. zbool. cbn. split_and!; [lia|lia|lia|done].
Qed.

Lemma perform_in_range o s : in_range s -> exists r s', perform o s = Ok (r, s') /\ in_range s'.
Proof.
  intros [Hm Hl]. destruct o as [[]|[] buf]; cbn [perform].
  - by exists (- ERESTARTSYS, []), s.
  - destruct s as [m lv gp pd fs]. cbn in Hm, Hl. subst m. exists (snprintf25 (dec lv ++ [10])), (mk_sysfs false lv gp pd fs). by split.
  - by exists (- ERESTARTSYS, []), s.
  - eexists _, _. rewrite (bind_run _ _ _ _ _ (level_store_run s buf Hm)). split; [reflexivity|]. split; [done|]. by apply stored_cases.
Qed.
Lemma step_in_range a b : rtc step a b -> in_range a -> in_range b.
Proof.
  induction 1 as [|a b c [o s r s' E] _ IH]; [done|]. intros Ha. apply IH. destruct (perform_in_range o s Ha) as (r' & s1 & E' & H).
  rewrite E in E'. by injection E' as -> ->.
Qed.

(** Whatever is written to the file and whoever is interrupted, no operation faults, the
    mutex is free between two, and the level stays from 0 to 2: a text that is refused
    leaves it, and one that is taken sets it to the number in the text. *)
Theorem sysfs_level_stays_in_range s s' buf : in_range s -> rtc step s s' -> in_range s' /\
  exists r s'', llkdsysfs_debug_level_store false buf s' = Ok (r, s'') /\
    (r < 0 -> s'' = s') /\ (0 <= r -> r = Z.of_nat (length buf) /\ kstrtoint (c_chars buf) = inr (debug_level s'')).
Proof.
  intros Hs Hr. pose proof (step_in_range _ _ Hr Hs) as H. split; [done|]. destruct H as [Hm Hl].
  eexists _, _. split; [by apply level_store_run|]. destruct (stored_cases buf (debug_level s') Hl) as (_ & H1 & H2). split.
  - intros Hneg. rewrite (H1 Hneg). destruct s'. cbn in *. by subst.
  - done.
Qed.
Definition at_one : sysfs := mk_sysfs false 1 25 true [3; 2; 1].
Lemma sysfs_level_stays_in_range_witness : exists r s'', llkdsysfs_debug_level_store false (chars "-1" ++ [10]) at_one = Ok (r, s'') /\ s'' = at_one.
Proof.
  destruct (sysfs_level_stays_in_range at_one at_one (chars "-1" ++ [10])) as (_ & r & s'' & E & H & _);
    [split; [reflexivity|cbn; lia]|apply rtc_refl|]. exists r, s''. split; [exact E|]. apply H. vm_compute in E. injection E as <- _. reflexivity.
Defined.
End Sysfs.

(** ** debugfs: src/kfsdebug/debugfs_if.c *)
Module Debugfs.
Import Proc.

Definition MAXUPASS : Z := 256.
Definition PRODNAME : list Z := chars "dbgfs_simple_intf".

(** The module: its mutex, its context, whether its directory and its two files are there,
    and the debug level, which the kernel's own file shows and sets. *)
Record dbgfs := mk_dbgfs { d_mtx : bool; d_ctx : context; d_dir : bool; d_file1 : bool; d_file2 : bool }.
Definition DM (A : Type) : Type := ST dbgfs A.

Definition text (c : drv_ctx) : list Z :=
  chars "prodname:" ++ PRODNAME ++ [10] ++
  chars "tx:" ++ dec (tx c) ++ chars ",rx:" ++ dec (rx c) ++ chars ",err:" ++ dec (err c) ++
  chars ",myword:" ++ dec (myword c) ++ chars ",power:" ++ dec (power c) ++ [10] ++
  chars "config1:0x" ++ hex_digits (config1 c) ++ chars ",config2:0x" ++ hex_digits (config2 c) ++
  chars ",config3:0x" ++ hex_digits (config3 c) ++ chars " (" ++ dec (config3 c) ++ chars ")" ++ [10] ++
  chars "oursecret:" ++ c_chars (oursecret c) ++ [10].

(** [simple_read_from_buffer]: the result, the bytes that reach the user, the new position. *)
Definition simple_read_from_buffer (count pos : Z) (from : list Z) : Z * list Z * Z :=
  let available := Z.of_nat (length from) in
  if pos <? 0 then (- EINVAL, [], pos)
  else if (available <=? pos) || (count =? 0) then (0, [], pos)
  else
    let n := Z.min count (available - pos) in
    (n, take (Z.to_nat n) (drop (Z.to_nat pos) from), pos + n).

Definition set_config3 (v : Z) (c : drv_ctx) : drv_ctx :=
  mk_ctx (tx c) (rx c) (err c) (myword c) (power c) (config1 c) (config2 c) v (oursecret c).

(** [count]: the size of the user's buffer. *)
Definition dbgfs_show_drvctx (interrupted : bool) (count fpos jiffies : Z) : DM (Z * list Z * Z) := fun s =>
  if interrupted then Ok ((- ERESTARTSYS, [], fpos), s)
  else if d_mtx s then Err Deadlock
  else match d_ctx s with
  | Live c =>
      let c := set_config3 jiffies c in
      let locbuf := take (Z.to_nat (MAXUPASS - 2)) (text c) in
      Ok (simple_read_from_buffer MAXUPASS fpos locbuf, mk_dbgfs false (Live c) (d_dir s) (d_file1 s) (d_file2 s))
  | Freed => Err UseAfterFree
  | _ => Err NullDeref
  end.

Definition alloc_init_drvctx (kzalloc_ok : bool) (jiffies : Z) : context :=
  if kzalloc_ok
  then Live (mk_ctx 0 0 0 0 1 0 0x48524a5f jiffies (splice 0 (chars "AhA yyy" ++ [0]) (replicate 128 0)))
  else ErrPtr.

(** With what the calls give: [dir_ok] and [file_ok] are false for a null pointer, whose
    [PTR_ERR] is 0. *)
Definition debugfs_if_init (dir_ok kzalloc_ok file_ok : bool) (jiffies : Z) : DM Z := fun s =>
  if negb dir_ok then Ok (0, s)
  else
    let c := alloc_init_drvctx kzalloc_ok jiffies in
    if negb kzalloc_ok then Ok (- ENOMEM, mk_dbgfs (d_mtx s) c false (d_file1 s) (d_file2 s))
    else if negb file_ok then Ok (0, mk_dbgfs (d_mtx s) Freed false (d_file1 s) (d_file2 s))
    else Ok (0, mk_dbgfs (d_mtx s) c true true true).

(** The two calls of [debugfs_if_cleanup]. *)
Definition cleanup_free (s : dbgfs) : dbgfs := mk_dbgfs (d_mtx s) Freed (d_dir s) (d_file1 s) (d_file2 s).
Definition cleanup_remove (cause_an_oops : Z) (s : dbgfs) : dbgfs :=
  if cause_an_oops =? 0 then mk_dbgfs (d_mtx s) (d_ctx s) false false false else s.
Definition debugfs_if_cleanup (cause_an_oops : Z) (s : dbgfs) : dbgfs := cleanup_remove cause_an_oops (cleanup_free s).

Definition unloaded : dbgfs := mk_dbgfs false Nothing false false false.

(** Reading the file from the start hands out the whole text, however small the user's
    buffer is: for every smaller size more bytes are written than there is room for. *)
Theorem debugfs_read_ignores_count s c count jiffies (x := text (set_config3 jiffies c)) :
  d_mtx s = false -> d_ctx s = Live c -> 0 <= count < Z.of_nat (length x) -> Z.of_nat (length x) <= 254 ->
  exists s' bytes, dbgfs_show_drvctx false count 0 jiffies s = Ok ((Z.of_nat (length bytes), bytes, Z.of_nat (length bytes)), s') /\
    bytes = x /\ count < Z.of_nat (length bytes).
Proof.
  intros Hm Hc H0 Hle. unfold dbgfs_show_drvctx. rewrite Hm, Hc. eexists _, x. split_and!; [|done|lia]. do 2 f_equal. fold x.
change (Z.to_nat (MAXUPASS - 2)) with 254%nat. rewrite take_ge by lia.
  unfold simple_read_from_buffer, MAXUPASS. cbn [Z.ltb Z.compare]. rewrite (proj2 (Z.leb_gt _ _)) by lia. cbn [orb Z.eqb].
  rewrite Z.min_r, Z.sub_0_r, Z.add_0_l, Nat2Z.id by lia. cbn [Z.to_nat]. by rewrite drop_0, firstn_all.
Qed.

(** Unloading frees the context while the file that shows it is still there: a read in
    between, or after it when the files are left on purpose, reads freed memory; and when the
    directory cannot be made, loading reports success. *)
Theorem debugfs_read_during_unload s count fpos jiffies : d_mtx s = false -> d_file1 s = true ->
  dbgfs_show_drvctx false count fpos jiffies (cleanup_free s) = Err UseAfterFree /\ d_file1 (cleanup_free s) = true /\
  d_file1 (debugfs_if_cleanup 1 s) = true /\ dbgfs_show_drvctx false count fpos jiffies (debugfs_if_cleanup 1 s) = Err UseAfterFree /\
  debugfs_if_init false true true jiffies unloaded = Ok (0, unloaded).
Proof. intros Hm Hf. unfold dbgfs_show_drvctx. cbn. by rewrite Hm. Qed.

Definition shown_ctx : drv_ctx := mk_ctx 0 0 0 0 1 0 0x48524a5f 1000 (splice 0 (chars "AhA yyy" ++ [0]) (replicate 128 0)).
Definition loaded : dbgfs := mk_dbgfs false (Live shown_ctx) true true true.
Lemma debugfs_read_ignores_count_witness : exists s' bytes n, dbgfs_show_drvctx false 16 0 1000 loaded = Ok ((n, bytes, n), s') /\ 16 < Z.of_nat (length bytes).
Proof.
  destruct (debugfs_read_ignores_count loaded shown_ctx 16 1000) as (s' & bytes & E & _ & H);
    [reflexivity|reflexivity|split; [lia|vm_compute; reflexivity]|vm_compute; discriminate|]. exists s', bytes, (Z.of_nat (length bytes)). split; [exact E|exact H].
Defined.
Lemma debugfs_read_during_unload_witness : dbgfs_show_drvctx false 256 0 1000 (cleanup_free loaded) = Err UseAfterFree.
Proof. apply (debugfs_read_during_unload loaded); reflexivity. Defined.
End Debugfs.
