(* ===== verification/KernelDevs.v ===== *)
(** * Two character devices

    src/kioctl: a driver whose power state is read and set with [ioctl], and the program that
    toggles it. src/kchar-dev: a device that hands out one message for each time it is
    opened. The outcomes of the calls into the kernel are arguments. *)
From stdpp Require Import base numbers list gmap strings.
From S2P Require Import Prelude CBase CDecimal CHeap.
Local Open Scope Z_scope.

Module Ioctl.

Definition EPERM : Z := 1.
Definition ENXIO : Z := 6.
Definition EFAULT : Z := 14.
Definition ENOTTY : Z := 25.

(** The macros of the kernel that make and take apart a command: direction, size, type and
    number. *)
Definition IOC (dir type nr size : Z) : Z :=
  Z.lor (Z.lor (Z.shiftl dir 30) (Z.shiftl size 16)) (Z.lor (Z.shiftl type 8) nr).
Definition IOC_TYPE (cmd : Z) : Z := Z.land (Z.shiftr cmd 8) 255.
Definition IOC_NR (cmd : Z) : Z := Z.land cmd 255.

Definition IOCTL_LLKD_MAGIC : Z := 0xA8.
Definition IOCTL_LLKD_MAXIOCTL : Z := 3.
Definition IOCTL_LLKD_IOCRESET : Z := IOC 0 IOCTL_LLKD_MAGIC 0 0.
Definition IOCTL_LLKD_IOCQPOWER : Z := IOC 2 IOCTL_LLKD_MAGIC 1 4.
Definition IOCTL_LLKD_IOCSPOWER : Z := IOC 1 IOCTL_LLKD_MAGIC 2 4.

(** The result, what is put at the user's address, and the power state. *)
Definition ioctl_intf_ioctl (cmd arg : Z) (capable put_ok : bool) (power : Z) : Z * option Z * Z :=
  if negb (IOC_TYPE cmd =? IOCTL_LLKD_MAGIC) then (- ENOTTY, None, power)
  else if IOCTL_LLKD_MAXIOCTL <? IOC_NR cmd then (- ENOTTY, None, power)
  else if cmd =? IOCTL_LLKD_IOCRESET then (0, None, power)
  else if cmd =? IOCTL_LLKD_IOCQPOWER then
    if negb capable then (- EPERM, None, power)
    else if put_ok then (0, Some power, power) else (- EFAULT, None, power)
  else if cmd =? IOCTL_LLKD_IOCSPOWER then
    if negb capable then (- EPERM, None, power) else (0, None, s32 arg)
  else (- ENOTTY, None, power).

Definition ioctl_intf_open (minor : Z) : Z := if minor =? 0 then 0 else - ENXIO.
Definition ioctl_llkd_kdrv_init (major result : Z) : Z * Z :=
  if result <? 0 then (result, major) else (0, if major =? 0 then result else major).

(** [main] of the user's program: the exit status, what it shows of the power state, and the
    power state of the driver. A failed [ioctl] is -1. *)
Definition main (argc : Z) (opened capable : bool) (power : Z) : Z * option Z * Z :=
  if argc <? 2 then (1, None, power)
  else if negb opened then (1, None, power)
  else
    let '(r, _, power) := ioctl_intf_ioctl IOCTL_LLKD_IOCRESET 0 capable true power in
    if r <? 0 then (1, None, power)
    else
      let '(r, got, power) := ioctl_intf_ioctl IOCTL_LLKD_IOCQPOWER 0 capable true power in
      match got with
      | Some p =>
          if p =? 0 then
            let '(r, _, power) := ioctl_intf_ioctl IOCTL_LLKD_IOCSPOWER 1 capable true power in
            (if r <? 0 then 1 else 0, Some p, power)
          else if p =? 1 then
            let '(r, _, power) := ioctl_intf_ioctl IOCTL_LLKD_IOCSPOWER 0 capable true power in
            (if r <? 0 then 1 else 0, Some p, power)
          else (0, Some p, power)
      | None => (1, None, power)
      end.

(** The driver takes exactly three commands and refuses every other number; only setting
    the power, by a process with the capability, changes the state, to the 32-bit value of
    the argument; a query gives it back. *)
Theorem ioctl_commands_exact cmd arg capable put_ok power :
  let '(r, out, power') := ioctl_intf_ioctl cmd arg capable put_ok power in
  (r = - ENOTTY <-> cmd <> IOCTL_LLKD_IOCRESET /\ cmd <> IOCTL_LLKD_IOCQPOWER /\ cmd <> IOCTL_LLKD_IOCSPOWER) /\
  power' = (if bool_decide (cmd = IOCTL_LLKD_IOCSPOWER) && capable then s32 arg else power) /\
  out = (if bool_decide (cmd = IOCTL_LLKD_IOCQPOWER) && capable && put_ok then Some power else None).
Proof.
  unfold ioctl_intf_ioctl.
  destruct (decide (cmd = IOCTL_LLKD_IOCRESET)) as [->|H1]; [cbn; split_and!; [split; [done|tauto]|done|done]|].
  destruct (decide (cmd = IOCTL_LLKD_IOCQPOWER)) as [->|H2]; [destruct capable, put_ok; cbn; split_and!; done || (split; [done|tauto])|].
  destruct (decide (cmd = IOCTL_LLKD_IOCSPOWER)) as [->|H3]; [destruct capable; cbn; split_and!; done || (split; [done|tauto])|].
  rewrite !bool_decide_false by done. rewrite !(proj2 (Z.eqb_neq _ _) H1), !(proj2 (Z.eqb_neq _ _) H2), !(proj2 (Z.eqb_neq _ _) H3).
  destruct (negb _); [cbn; tauto|]. destruct (_ <? _); cbn; tauto.
Qed.

(** Run by a process with the capability, the program shows the power state and toggles it,
    so that a second run puts it back; a state other than 0 and 1 is left. Without the
    capability it fails and changes nothing. *)
Theorem ioctl_program_toggles argc power : 2 <= argc ->
  main argc true false power = (1, None, power) /\
  main argc true true power = (0, Some power, if bool_decide (power = 0 \/ power = 1) then 1 - power else power) /\
  (power = 0 \/ power = 1 -> (main argc true true (main argc true true power).2).2 = power).
Proof.
  intros Ha. unfold main. rewrite (proj2 (Z.ltb_ge argc 2) Ha).
  destruct (decide (power = 0)) as [->|H0]; [done|]. destruct (decide (power = 1)) as [->|H1]; [done|].
  rewrite bool_decide_false by tauto. split_and!; [done| |tauto].
  change (ioctl_intf_ioctl IOCTL_LLKD_IOCRESET 0 true true power) with (0, @None Z, power). cbv iota beta zeta. change (0 <? 0) with false. cbv iota.
  change (ioctl_intf_ioctl IOCTL_LLKD_IOCQPOWER 0 true true power) with (0, Some power, power). cbv iota beta.
  by rewrite (proj2 (Z.eqb_neq _ _) H0), (proj2 (Z.eqb_neq _ _) H1).
Qed.
Lemma ioctl_program_toggles_witness : main 2 true true 1 = (0, Some 1, 0).
Proof. apply (ioctl_program_toggles 2 1). lia. Defined.
End Ioctl.

(** ** src/kchar-dev/char_dev_driver.c *)
Module CharDev.

Definition BUF_LEN : nat := 80.
Definition EBUSY : Z := 16.
Definition EINVAL : Z := 22.

(** The variables of the module, with the place of [msg_buff_ptr] in [msg], null at first. *)
Record dev := mk_dev { device_open_counter : Z; counter : Z; msg : list Z; msg_buff_ptr : option nat; users : Z }.

Definition message (n : Z) : list Z := chars "I already told you " ++ dec n ++ chars " times Hello world!" ++ [10].

(** [device_open] in two parts, between which another processor can come: the test of the
    counter, and the rest. *)
Definition open_busy (d : dev) : bool := negb (device_open_counter d =? 0).
Definition open_enter : ST dev Z := fun d =>
  let x := message (counter d) in
  if (length x <? length (msg d))%nat then
    Ok (0, mk_dev (device_open_counter d + 1) (s32 (counter d + 1)) (splice 0 (x ++ [0]) (msg d)) (Some 0%nat) (users d + 1))
  else Err OutOfBounds.
Definition device_open : ST dev Z := d ← stget; if open_busy d then mret (- EBUSY) else open_enter.

Definition device_release : ST dev Z := fun d =>
  Ok (0, mk_dev (device_open_counter d - 1) (counter d) (msg d) (msg_buff_ptr d) (users d - 1)).

(** The loop that copies to the user. *)
Fixpoint read_loop (length : nat) (m : list Z) (p : nat) : res (list Z * nat) :=
  match m !! p with
  | None => Err OutOfBounds
  | Some c =>
      match length with
      | O => Ok ([], p)
      | S n => if c =? 0 then Ok ([], p) else r ← read_loop n m (S p); Ok (c :: r.1, r.2)
      end
  end.
Definition device_read (length : nat) : ST dev (Z * list Z) := fun d =>
  match msg_buff_ptr d with
  | None => Err NullDeref
  | Some p =>
      match read_loop length (msg d) p with
      | Ok (bytes, p') => Ok ((Z.of_nat (List.length bytes), bytes), mk_dev (device_open_counter d) (counter d) (msg d) (Some p') (users d))
      | Err e => Err e
      end
  end.
Definition device_write : ST dev Z := mret (- EINVAL).

Definition init_module (major : Z) : Z := if major <? 0 then major else 0.
Definition loaded : dev := mk_dev 0 0 (replicate BUF_LEN 0) None 0.

(** Reads of the given sizes, one after the other. *)
Fixpoint reads (ls : list nat) : ST dev (list (list Z)) :=
  match ls with
  | [] => mret []
  | l :: ls' => r ← device_read l; rest ← reads ls'; mret (r.2 :: rest)
  end.

Lemma length_message n : is_int n -> (length (message n) < BUF_LEN)%nat.
Proof. intros H. pose proof (dec_length n H). unfold message, BUF_LEN. rewrite !length_app. cbn [length chars]. lia. Qed.
Lemma dec_no_nul n : is_int n -> no_nul (dec n).
Proof.
  intros H. unfold is_int, INT_MIN, INT_MAX in H. unfold dec. destruct (n <? 0) eqn:E; zbool; [constructor; [done|]|];
    (eapply Forall_impl; [apply dec_digits_digits; lia|]; unfold digit_char; intros; lia).
Qed.
Lemma message_no_nul n : is_int n -> no_nul (message n).
Proof. intros H. unfold message. repeat (apply Forall_app; split); [by_compute|by apply dec_no_nul|by_compute|by_compute]. Qed.

Lemma read_loop_text pre x post : no_nul x -> forall n, 
  read_loop n (pre ++ x ++ 0 :: post) (length pre) = Ok (take n x, (length pre + length (take n x))%nat).
Proof.
  intros Hx. revert pre. induction Hx as [|c x Hc _ IH]; intros pre n.
  - assert ((pre ++ [] ++ 0 :: post) !! length pre = Some 0) as Hl by (by apply list_lookup_middle).
    destruct n; cbn [read_loop]; rewrite Hl; cbn; by rewrite Nat.add_0_r.
  - assert ((pre ++ (c :: x) ++ 0 :: post) !! length pre = Some c) as Hl by (cbn; by apply list_lookup_middle).
    destruct n as [|n]; cbn [read_loop]; rewrite Hl; cbn [take length]; [by rewrite Nat.add_0_r|].
    rewrite (proj2 (Z.eqb_neq _ _) Hc). specialize (IH (pre ++ [c]) n). rewrite <- app_assoc in IH. cbn [app] in IH |- *.
    rewrite length_app, Nat.add_1_r in IH. rewrite IH. cbn. do 2 f_equal. lia.
Qed.

(** The device opened: its message from place [p] on. *)
Definition opened_at (n : Z) (p : nat) (d : dev) : Prop :=
  exists post, msg d = message n ++ 0 :: post /\ msg_buff_ptr d = Some p /\ (p <= length (message n))%nat.

Lemma device_read_run n p d l : is_int n -> opened_at n p d -> exists d',
  device_read l d = Ok ((Z.of_nat (length (take l (drop p (message n)))), take l (drop p (message n))), d') /\
  opened_at n (p + length (take l (drop p (message n)))) d' /\ device_open_counter d' = device_open_counter d.
Proof.
  intros Hn (post & Hm & Hp & Hle). unfold device_read. rewrite Hp, Hm.
  pose proof (read_loop_text (take p (message n)) (drop p (message n)) post ltac:(by apply Forall_drop, message_no_nul) l) as H.
  rewrite app_assoc, take_drop, length_take_le in H by done. rewrite H. eexists. split; [reflexivity|]. split; [|done].
  exists post. split_and!; [done|done|]. rewrite length_take, length_drop. lia.
Qed.

Lemma reads_run n ls : is_int n -> forall p d, opened_at n p d -> exists out d',
  reads ls d = Ok (out, d') /\ concat out = take (sum_list ls) (drop p (message n)).
Proof.
  intros Hn. induction ls as [|l ls IH]; intros p d Hd; [by exists [], d|].
  destruct (device_read_run n p d l Hn Hd) as (d1 & E & Hd1 & _). destruct (IH _ _ Hd1) as (out & d' & E' & Hc).
  eexists _, d'. split.
  - cbn [reads]. rewrite (bind_run _ _ _ _ _ E). by rewrite (bind_run _ _ _ _ _ E').
  - cbn [concat snd]. rewrite Hc. change (sum_list (l :: ls)) with (l + sum_list ls)%nat. set (x := drop p (message n)).
    rewrite <- drop_drop. fold x. rewrite <- take_take_drop. do 2 f_equal. rewrite length_take.
    destruct (decide (l <= length x)%nat); [by rewrite Nat.min_l by lia|]. by rewrite Nat.min_r, !drop_ge by lia.
Qed.

Lemma device_open_run d : device_open_counter d = 0 -> is_int (counter d) -> length (msg d) = BUF_LEN ->
  exists d', device_open d = Ok (0, d') /\ opened_at (counter d) 0 d' /\ device_open_counter d' = 1 /\ counter d' = s32 (counter d + 1) /\
    length (msg d') = BUF_LEN.
Proof.
  intros H0 Hn Hl. unfold device_open. rewrite (bind_run _ _ d d d) by done. unfold open_busy. rewrite H0. cbn [Z.eqb negb].
  unfold open_enter. pose proof (length_message (counter d) Hn) as Hm. rewrite (proj2 (Nat.ltb_lt _ _)) by lia.
  eexists. split; [reflexivity|]. cbn [device_open_counter counter msg msg_buff_ptr]. split_and!; [|lia|done|].
  - exists (drop (S (length (message (counter d)))) (msg d)). cbn [msg msg_buff_ptr]. split_and!; [|done|lia].
    unfold splice. rewrite length_app. cbn [length take]. rewrite <- app_assoc, Nat.add_1_r. done.
  - rewrite length_splice; [done|]. rewrite length_app. cbn [length]. lia.
Qed.

(** Once opened, the device hands out its message: reads of any sizes give its bytes in
    order, each once, up to its end, and never leave the buffer; until it is released, a
    second opening is refused. *)
Theorem chardev_reads_its_message d ls : device_open_counter d = 0 -> is_int (counter d) -> length (msg d) = BUF_LEN ->
  exists d' out d'', device_open d = Ok (0, d') /\ reads ls d' = Ok (out, d'') /\
    concat out = take (sum_list ls) (message (counter d)) /\ device_open d' = Ok (- EBUSY, d').
Proof.
  intros H0 Hn Hl. destruct (device_open_run d H0 Hn Hl) as (d' & E & Ho & Hc & _ & _).
  destruct (reads_run (counter d) ls Hn 0 d' Ho) as (out & d'' & E' & Hout). exists d', out, d''. split_and!; [done|done|done|].
  unfold device_open. rewrite (bind_run _ _ d' d' d') by done. unfold open_busy. by rewrite Hc.
Qed.

(** Two processes that open the device at the same time both pass the test before either
    has counted itself: both have it open, and share one place in the message. *)
Theorem chardev_two_at_once d : device_open_counter d = 0 -> is_int (counter d) -> length (msg d) = BUF_LEN ->
  open_busy d = false /\ exists d1 d2, open_enter d = Ok (0, d1) /\ open_enter d1 = Ok (0, d2) /\ device_open_counter d2 = 2 /\ users d2 = users d + 2.
Proof.
  intros H0 Hn Hl. unfold open_busy. rewrite H0. split; [done|]. unfold open_enter.
  pose proof (length_message (counter d) Hn) as Hm. rewrite (proj2 (Nat.ltb_lt _ _)) by lia. eexists _, _. split; [reflexivity|].
  cbn [counter msg users device_open_counter]. pose proof (length_message (s32 (counter d + 1)) (s32_is_int _)) as Hm'.
  rewrite length_splice by (rewrite length_app; cbn [length]; lia). rewrite (proj2 (Nat.ltb_lt _ _)) by lia.
  split; [reflexivity|]. cbn [users device_open_counter]. lia.
Qed.
Lemma chardev_reads_its_message_witness : exists d' out d'', device_open loaded = Ok (0, d') /\ reads [7; 100]%nat d' = Ok (out, d'') /\
  concat out = chars "I already told you 0 times Hello world!" ++ [10].
Proof.
  destruct (chardev_reads_its_message loaded [7; 100]%nat) as (d' & out & d'' & E & E' & H & _); [reflexivity|unfold is_int, INT_MIN, INT_MAX; cbn; lia|reflexivity|].
  exists d', out, d''. split; [exact E|]. split; [exact E'|exact H].
Defined.
Lemma chardev_two_at_once_witness : exists d1 d2, open_enter loaded = Ok (0, d1) /\ open_enter d1 = Ok (0, d2) /\ device_open_counter d2 = 2.
Proof.
  destruct (chardev_two_at_once loaded) as (_ & d1 & d2 & E1 & E2 & H & _); [reflexivity|unfold is_int, INT_MIN, INT_MAX; cbn; lia|reflexivity|].
  exists d1, d2. split; [exact E1|]. split; [exact E2|exact H].
Defined.
End CharDev.
