(* ===== verification/Wlan.v ===== *)
(** * A wireless driver without hardware

    src/kwlan-if: a driver that reports one network, scans for it and connects to it. The
    requests of the kernel ([wi_scan], [wi_connect], [wi_disconnect]) leave their argument in
    the context and queue a piece of work; the work later tells the kernel what came of it.
    Requests and work interleave as steps; each holds the semaphore only for itself. What the
    kernel is told is a list of notes. The outcomes of the calls into the kernel, and
    whether waiting for the semaphore was interrupted, are arguments. *)
From stdpp Require Import base numbers list gmap strings relations.
From S2P Require Import Prelude CBase CDecimal CHeap.
Local Open Scope Z_scope.

Module Wlan.

Definition EBUSY : Z := 16.
Definition ERESTARTSYS : Z := 512.
Definition SSID_DUMMY : list Z := chars "APIDIOT".
(** [sizeof("APIDIOT")]: the size of [connecting_ssid]. *)
Definition SSID_SIZE : nat := 8.

(** What the kernel is told. *)
Inductive note :=
  | Bss (ie : list Z) | ScanDone (request : nat) | ConnectTimeout | Connected | Disconnected (reason : Z).

(** The context: [sem] is not there before [sema_init], then tells whether the semaphore is
    free; the work that is queued; and the notes so far. *)
Record wictx := mk_wictx {
  sem : option bool; connecting_ssid : list Z; disconnect_reason_code : Z; scan_request : option nat;
  ws_scan : bool; ws_connect : bool; ws_disconnect : bool; notes : list note }.
Definition M (A : Type) : Type := ST wictx A.

Definition set_sem (b : bool) (c : wictx) : wictx :=
  mk_wictx (Some b) (connecting_ssid c) (disconnect_reason_code c) (scan_request c) (ws_scan c) (ws_connect c) (ws_disconnect c) (notes c).
Definition set_ssid (x : list Z) (c : wictx) : wictx :=
  mk_wictx (sem c) x (disconnect_reason_code c) (scan_request c) (ws_scan c) (ws_connect c) (ws_disconnect c) (notes c).
Definition set_reason (r : Z) (c : wictx) : wictx :=
  mk_wictx (sem c) (connecting_ssid c) r (scan_request c) (ws_scan c) (ws_connect c) (ws_disconnect c) (notes c).
Definition set_request (r : option nat) (c : wictx) : wictx :=
  mk_wictx (sem c) (connecting_ssid c) (disconnect_reason_code c) r (ws_scan c) (ws_connect c) (ws_disconnect c) (notes c).
Definition set_work (a b d : bool) (c : wictx) : wictx :=
  mk_wictx (sem c) (connecting_ssid c) (disconnect_reason_code c) (scan_request c) a b d (notes c).
Definition add_note (n : note) (c : wictx) : wictx :=
  mk_wictx (sem c) (connecting_ssid c) (disconnect_reason_code c) (scan_request c) (ws_scan c) (ws_connect c) (ws_disconnect c) (notes c ++ [n]).
Definition modify (f : wictx -> wictx) : M unit := fun c => Ok (tt, f c).

(** Whether the semaphore was taken. *)
Definition down_interruptible (interrupted : bool) : M bool := fun c =>
  match sem c with
  | None => Err Uninit
  | Some free => if interrupted then Ok (false, c) else if (free : bool) then Ok (true, set_sem false c) else Err Deadlock
  end.
Definition up : M unit := modify (set_sem true).

Definition inform_dummy_bss : M unit :=
  let ie := [0; Z.of_nat (length SSID_DUMMY)] ++ SSID_DUMMY in
  modify (add_note (Bss ie)).

Definition wlanidt_scan_routine (interrupted : bool) : M unit :=
  inform_dummy_bss;;
  ok ← down_interruptible interrupted;
  if negb ok then mret tt
  else
    c ← stget;
    match scan_request c with
    | None => stfail NullDeref
    | Some r => modify (add_note (ScanDone r));; modify (set_request None);; up
    end.

Definition wlanidt_connect_routine (interrupted : bool) : M unit :=
  ok ← down_interruptible interrupted;
  if negb ok then mret tt
  else
    c ← stget;
    (if bool_decide (take SSID_SIZE (connecting_ssid c) <> SSID_DUMMY ++ [0]) then modify (add_note ConnectTimeout)
     else inform_dummy_bss;; modify (add_note Connected));;
    c ← stget;
    modify (set_ssid (<[0%nat := 0]> (connecting_ssid c)));;
    up.

Definition wlanidt_disconnect_routine (interrupted : bool) : M unit :=
  ok ← down_interruptible interrupted;
  if negb ok then mret tt
  else
    c ← stget;
    modify (add_note (Disconnected (disconnect_reason_code c)));;
    modify (set_reason 0);;
    up.

Definition wi_scan (interrupted : bool) (request : nat) : M Z :=
  ok ← down_interruptible interrupted;
  if negb ok then mret (- ERESTARTSYS)
  else
    c ← stget;
    match scan_request c with
    | Some _ => up;; mret (- EBUSY)
    | None =>
        modify (set_request (Some request));; up;;
        c ← stget;
        if ws_scan c then mret (- EBUSY)
        else modify (set_work true (ws_connect c) (ws_disconnect c));; mret 0
    end.

(** [memcpy] into [connecting_ssid], and the zero after it. *)
Definition wi_connect (interrupted : bool) (ssid : list Z) : M Z :=
  let ssid_len := if 15 <? Z.of_nat (length ssid) then 15 else Z.of_nat (length ssid) in
  ok ← down_interruptible interrupted;
  if negb ok then mret (- ERESTARTSYS)
  else
    c ← stget;
    if Z.of_nat SSID_SIZE <? ssid_len then stfail OutOfBounds
    else
      x ← lift (set_at (splice 0 (take (Z.to_nat ssid_len) ssid) (connecting_ssid c)) ssid_len 0);
      modify (set_ssid x);; up;;
      c ← stget;
      if ws_connect c then mret (- EBUSY)
      else modify (set_work (ws_scan c) true (ws_disconnect c));; mret 0.

Definition wi_disconnect (interrupted : bool) (reason_code : Z) : M Z :=
  ok ← down_interruptible interrupted;
  if negb ok then mret (- ERESTARTSYS)
  else
    modify (set_reason reason_code);; up;;
    c ← stget;
    if ws_disconnect c then mret (- EBUSY)
    else modify (set_work (ws_scan c) (ws_connect c) true);; mret 0.

(** ** The life of the driver *)

(** What [wlanidt_create_context] makes, in order. *)
Inductive thing := Context | Wiphy | WiphyRegistered | Ndev | NdevRegistered.
#[global] Instance thing_eq_dec : EqDecision thing.
Proof. solve_decision. Defined.
Definition drop_thing (t : thing) (l : list thing) : list thing := List.filter (fun u => negb (bool_decide (u = t))) l.

(** Whether it succeeded, and what there is afterwards. *)
Definition wlanidt_create_context (kmalloc_ok wiphy_ok register_ok ndev_ok netdev_ok : bool) : bool * list thing :=
  if negb kmalloc_ok then (false, [])
  else
    let l := [Context] in
    let l_error_wiphy l := (false, drop_thing Context l) in
    if negb wiphy_ok then l_error_wiphy l
    else
      let l := Wiphy :: l in
      let l_error_wiphy_register l := l_error_wiphy (drop_thing Wiphy l) in
      if negb register_ok then l_error_wiphy_register l
      else
        let l := WiphyRegistered :: l in
        let l_error_alloc_ndev l := l_error_wiphy_register (drop_thing WiphyRegistered l) in
        if negb ndev_ok then l_error_alloc_ndev l
        else
          let l := Ndev :: l in
          if negb netdev_ok then l_error_alloc_ndev (drop_thing Ndev l)
          else (true, NdevRegistered :: l).

Definition wlanidt_free (l : list thing) : list thing :=
  drop_thing Context (drop_thing Wiphy (drop_thing WiphyRegistered (drop_thing Ndev (drop_thing NdevRegistered l)))).

(** The context as [kmalloc] gives it, and as [virtual_wifi_init] leaves it. *)
Definition raw (junk : list Z) : wictx := mk_wictx None junk 0 None false false false [].
Definition virtual_wifi_init (junk : list Z) : wictx :=
  mk_wictx (Some true) (<[0%nat := 0]> junk) 0 None false false false [].
Definition virtual_wifi_exit (c : wictx) : wictx := set_work false false false c.

(** Requests come, and queued work is done, by threads of the kernel that no signal
    interrupts. With the context go the scans that were accepted. A request is one step: the
    stack makes one at a time, and between the section under the semaphore and the queuing of
    its work only queued work can run, which for a scan there is none of, since the request
    was free. *)
Inductive step : wictx * list nat -> wictx * list nat -> Prop :=
  | Scan i r c z c' acc : wi_scan i r c = Ok (z, c') -> step (c, acc) (c', if z =? 0 then acc ++ [r] else acc)
  | Connect i x c z c' acc : wi_connect i x c = Ok (z, c') -> step (c, acc) (c', acc)
  | Disconnect i r c z c' acc : wi_disconnect i r c = Ok (z, c') -> step (c, acc) (c', acc)
  | RunScan c c' acc : ws_scan c = true ->
      wlanidt_scan_routine false (set_work false (ws_connect c) (ws_disconnect c) c) = Ok (tt, c') -> step (c, acc) (c', acc)
  | RunConnect c c' acc : ws_connect c = true ->
      wlanidt_connect_routine false (set_work (ws_scan c) false (ws_disconnect c) c) = Ok (tt, c') -> step (c, acc) (c', acc)
  | RunDisconnect c c' acc : ws_disconnect c = true ->
      wlanidt_disconnect_routine false (set_work (ws_scan c) (ws_connect c) false c) = Ok (tt, c') -> step (c, acc) (c', acc).

(** The scans the kernel was told the end of. *)
Definition scanned (l : list note) : list nat := omap (fun n => match n with ScanDone r => Some r | _ => None end) l.

Record inv (st : wictx * list nat) : Prop := {
  iv_sem : sem st.1 = Some true;
  iv_ssid : length (connecting_ssid st.1) = SSID_SIZE;
  iv_scan : ws_scan st.1 = true <-> is_Some (scan_request st.1);
  iv_once : st.2 = scanned (notes st.1) ++ option_list (scan_request st.1) }.

(** What each request and each piece of work does when the semaphore is free. *)
Section runs.
Context (ssid : list Z) (reason : Z) (request : option nat) (a b d : bool) (ns : list note).
Let c : wictx := mk_wictx (Some true) ssid reason request a b d ns.

Lemma wi_scan_run r : wi_scan false r c =
  match request with
  | Some _ => Ok (- EBUSY, c)
  | None => Ok (if a then - EBUSY else 0, mk_wictx (Some true) ssid reason (Some r) true b d ns)
  end.
Proof. unfold c. destruct request, a; reflexivity. Qed.
Lemma wi_disconnect_run r : wi_disconnect false r c = Ok (if d then - EBUSY else 0, mk_wictx (Some true) ssid r request a b true ns).
Proof. unfold c. destruct d; reflexivity. Qed.
Lemma wi_connect_run x : length ssid = SSID_SIZE -> wi_connect false x c =
  if (length x <? SSID_SIZE)%nat
  then Ok (if b then - EBUSY else 0, mk_wictx (Some true) (x ++ 0 :: drop (S (length x)) ssid) reason request a true d ns)
  else Err OutOfBounds.
Proof.
  intros Hl. unfold wi_connect. rewrite (bind_run _ _ _ true (set_sem false c)) by done. cbn [negb].
  rewrite (bind_run stget _ _ (set_sem false c) (set_sem false c)) by done. unfold SSID_SIZE in *.
  destruct (length x <? 8)%nat eqn:E; [apply Nat.ltb_lt in E|apply Nat.ltb_ge in E].
  - rewrite (proj2 (Z.ltb_ge 15 _)), (proj2 (Z.ltb_ge _ _)) by lia. rewrite Nat2Z.id, firstn_all. cbn [connecting_ssid set_sem c].
    assert (set_at (splice 0 x ssid) (Z.of_nat (length x)) 0 = Ok (x ++ 0 :: drop (S (length x)) ssid)) as ->.
    { rewrite set_at_ok by (unfold CBase.size; rewrite length_splice by lia; lia). f_equal. rewrite Nat2Z.id. unfold splice. cbn [take app Nat.add].
      assert (exists z, ssid !! length x = Some z) as [z Hz] by (apply lookup_lt_is_Some_2; lia).
      rewrite (drop_S _ _ _ Hz). by apply insert_mid. }
    unfold c. destruct b; reflexivity.
  - destruct (15 <? Z.of_nat (length x)) eqn:E15; [done|]. zbool. destruct (Z.of_nat 8 <? Z.of_nat (length x)) eqn:E8; [done|]. zbool.
    rewrite Nat2Z.id, firstn_all. cbn [connecting_ssid set_sem c]. rewrite set_at_bad; [done|].
    right. unfold CBase.size. rewrite length_splice by lia. lia.
Qed.
Lemma scan_routine_run r : request = Some r ->
  wlanidt_scan_routine false c = Ok (tt, mk_wictx (Some true) ssid reason None a b d (ns ++ [Bss ([0; 7] ++ SSID_DUMMY); ScanDone r])).
Proof. intros E. unfold c. rewrite E. change [Bss ?x; ?y] with ([Bss x] ++ [y]). rewrite app_assoc. reflexivity. Qed.
Lemma connect_routine_run : wlanidt_connect_routine false c =
  Ok (tt, mk_wictx (Some true) (<[0%nat := 0]> ssid) reason request a b d
    (ns ++ (if bool_decide (take SSID_SIZE ssid <> SSID_DUMMY ++ [0]) then [ConnectTimeout] else [Bss ([0; 7] ++ SSID_DUMMY); Connected]))).
Proof.
  unfold c, wlanidt_connect_routine. rewrite (bind_run _ _ _ true (mk_wictx (Some false) ssid reason request a b d ns)) by done. cbn [negb].
  rewrite (bind_run stget _ _ (mk_wictx (Some false) ssid reason request a b d ns) (mk_wictx (Some false) ssid reason request a b d ns)) by done.
  cbn [connecting_ssid]. destruct (bool_decide _); [done|]. change [Bss ?x; ?y] with ([Bss x] ++ [y]). rewrite app_assoc. reflexivity.
Qed.
Lemma disconnect_routine_run : wlanidt_disconnect_routine false c =
  Ok (tt, mk_wictx (Some true) ssid 0 request a b d (ns ++ [Disconnected reason])).
Proof. reflexivity. Qed.
End runs.

Lemma scanned_app l l' : scanned (l ++ l') = scanned l ++ scanned l'.
Proof. apply omap_app. Qed.

Lemma wlan_inv_step a b : step a b -> inv a -> inv b.
Proof.
  intros Hs [I1 I2 I3 I4].
  destruct Hs as [i r c z c' acc E|i x c z c' acc E|i r c z c' acc E|c c' acc Hw E|c c' acc Hw E|c c' acc Hw E];
    destruct c as [sm ssid reason request wa wb wd ns]; unfold set_work in *; cbn [fst snd sem connecting_ssid disconnect_reason_code ws_scan ws_connect ws_disconnect scan_request notes] in *; subst sm.
  - destruct i; [by injection E as <- <-|]. rewrite wi_scan_run in E. destruct request as [r0|].
    + by injection E as <- <-.
    + assert (wa = false) as -> by (destruct wa; [|done]; by destruct (proj1 I3 eq_refl)). injection E as <- <-.
      constructor; cbn; [done|done|split; [by eexists|done]|]. rewrite app_nil_r in I4. by rewrite I4.
  - destruct i; [by injection E as <- <-|]. rewrite wi_connect_run in E by done.
    destruct (_ <? _)%nat eqn:El; [|done]. injection E as <- <-. apply Nat.ltb_lt in El.
    constructor; cbn; [done| |done|done]. rewrite length_app. cbn [length]. rewrite length_drop. unfold SSID_SIZE in *. lia.
  - destruct i; [by injection E as <- <-|]. rewrite wi_disconnect_run in E. by injection E as <- <-.
  - destruct (proj1 I3 Hw) as [r ->]. rewrite (scan_routine_run _ _ _ _ _ _ _ r eq_refl) in E. injection E as <-.
    constructor; cbn; [done|done|split; [done|intros [? ?]; done]|]. rewrite scanned_app, app_nil_r. by rewrite I4.
  - rewrite connect_routine_run in E. injection E as <-. constructor; cbn; [done|by rewrite length_insert|done|].
    rewrite I4, scanned_app. destruct (bool_decide _); cbn; by rewrite app_nil_r.
  - rewrite disconnect_routine_run in E. injection E as <-. constructor; cbn; [done|done|done|]. rewrite I4, scanned_app. cbn. by rewrite app_nil_r.
Qed.
Lemma wlan_inv_run junk c acc : length junk = SSID_SIZE -> rtc step (virtual_wifi_init junk, []) (c, acc) -> inv (c, acc).
Proof.
  intros Hj Hr. assert (forall a b, rtc step a b -> inv a -> inv b) as H.
  { induction 1 as [|a b d Hab _ IH]; [done|]. intros Ha. apply IH. by eapply wlan_inv_step. }
  apply (H _ _ Hr). constructor; cbn; [done|by rewrite length_insert|split; [done|intros [? ?]; done]|done].
Qed.

(** C33: in any order of requests and work, and with requests interrupted: every scan that was
    accepted is answered once, in the order of acceptance, by the work queued for it, at
    most one is outstanding, and a scan is accepted exactly when none is. The work never
    runs without a request. *)
Theorem wlan_scans_are_answered junk c acc r : length junk = SSID_SIZE -> rtc step (virtual_wifi_init junk, []) (c, acc) ->
  acc = scanned (notes c) ++ option_list (scan_request c) /\ (ws_scan c = true <-> is_Some (scan_request c)) /\
  (exists c', wi_scan false r c = Ok (if scan_request c then - EBUSY else 0, c')) /\
  (ws_scan c = true -> exists c', wlanidt_scan_routine false (set_work false (ws_connect c) (ws_disconnect c) c) = Ok (tt, c') /\
     scanned (notes c') = acc /\ scan_request c' = None).
Proof.
  intros Hj Hr. destruct (wlan_inv_run _ _ _ Hj Hr) as [I1 I2 I3 I4]. cbn [fst snd] in *. destruct c as [sm ssid reason request wa wb wd ns].
  unfold set_work. cbn [sem ws_scan scan_request notes ws_connect ws_disconnect connecting_ssid disconnect_reason_code] in *. subst sm. split_and!; [done|done| |].
  - rewrite wi_scan_run. destruct request; [by eexists|]. assert (wa = false) as -> by (destruct wa; [|done]; by destruct (proj1 I3 eq_refl)). by eexists.
  - intros Hw. destruct (proj1 I3 Hw) as [r0 ->]. eexists. split; [by apply scan_routine_run|]. cbn. by rewrite scanned_app.
Qed.

(** The test of the work against the name that was asked for. *)
Lemma ssid_matches x rest : (length x < SSID_SIZE)%nat -> length (x ++ 0 :: rest) = SSID_SIZE ->
  take SSID_SIZE (x ++ 0 :: rest) = SSID_DUMMY ++ [0] <-> x = SSID_DUMMY.
Proof.
  intros Hx Hl. rewrite take_ge by lia. split.
  - intros E. assert (length x = 7%nat) as Hlen.
    { assert ((SSID_DUMMY ++ [0]) !! length x = Some 0) as H by (rewrite <- E; by apply list_lookup_middle).
      unfold SSID_SIZE in Hx. destruct (length x) as [|[|[|[|[|[|[|[|n]]]]]]]]; try done; lia. }
    apply app_inj_1 in E as [? _]; done.
  - intros ->. f_equal. rewrite length_app in Hl. cbn in Hl. unfold SSID_SIZE in Hl. destruct rest; [done|cbn in Hl; lia].
Qed.
Lemma connect_notes x ssid ns : (length x < SSID_SIZE)%nat -> length ssid = SSID_SIZE ->
  ns ++ (if bool_decide (take SSID_SIZE (x ++ 0 :: drop (S (length x)) ssid) <> SSID_DUMMY ++ [0]) then [ConnectTimeout] else [Bss ([0; 7] ++ SSID_DUMMY); Connected]) =
  ns ++ (if bool_decide (x = SSID_DUMMY) then [Bss ([0; 7] ++ SSID_DUMMY); Connected] else [ConnectTimeout]).
Proof.
  intros Hx Hl. f_equal. assert (length (x ++ 0 :: drop (S (length x)) ssid) = SSID_SIZE) as Hlen by (rewrite length_app; cbn [length]; rewrite length_drop; lia).
  pose proof (ssid_matches x _ Hx Hlen) as H. destruct (decide (x = SSID_DUMMY)) as [E|E].
  - rewrite (bool_decide_true (x = _)), bool_decide_false by tauto. done.
  - rewrite (bool_decide_false (x = _)), bool_decide_true by tauto. done.
Qed.

(** A connection to a name of up to seven bytes is answered by its work: it succeeds for
    the one network and times out for every other name. A longer name, which the kernel
    allows up to 32 bytes, is written past the end of the context's buffer. *)
Theorem wlan_connects_to_its_network junk c acc x : length junk = SSID_SIZE -> rtc step (virtual_wifi_init junk, []) (c, acc) -> ws_connect c = false ->
  ((length x < SSID_SIZE)%nat -> exists c1 c2, wi_connect false x c = Ok (0, c1) /\ ws_connect c1 = true /\
     wlanidt_connect_routine false (set_work (ws_scan c1) false (ws_disconnect c1) c1) = Ok (tt, c2) /\
     notes c2 = notes c ++ if bool_decide (x = SSID_DUMMY) then [Bss ([0; 7] ++ SSID_DUMMY); Connected] else [ConnectTimeout]) /\
  ((SSID_SIZE <= length x)%nat -> wi_connect false x c = Err OutOfBounds).
Proof.
  intros Hj Hr Hw. destruct (wlan_inv_run _ _ _ Hj Hr) as [I1 I2 _ _]. cbn [fst snd] in *. destruct c as [sm ssid reason request wa wb wd ns].
  cbn [sem ws_connect connecting_ssid notes] in *. subst sm wb. split; intros Hx; rewrite wi_connect_run by done.
  - rewrite (proj2 (Nat.ltb_lt _ _) Hx). eexists _, _. split; [reflexivity|]. split; [done|]. split; [apply connect_routine_run|]. by apply connect_notes.
  - by rewrite (proj2 (Nat.ltb_ge _ _) Hx).
Qed.

(** A connection asked for while the work of an earlier one is still queued is refused as
    busy, but its name has replaced the earlier one: the queued work answers for the name
    that was refused. *)
Theorem wlan_refused_connect_replaces_name junk c acc x : length junk = SSID_SIZE -> rtc step (virtual_wifi_init junk, []) (c, acc) -> ws_connect c = true ->
  (length x < SSID_SIZE)%nat -> exists c1 c2, wi_connect false x c = Ok (- EBUSY, c1) /\
    wlanidt_connect_routine false (set_work (ws_scan c1) false (ws_disconnect c1) c1) = Ok (tt, c2) /\
    notes c2 = notes c ++ if bool_decide (x = SSID_DUMMY) then [Bss ([0; 7] ++ SSID_DUMMY); Connected] else [ConnectTimeout].
Proof.
  intros Hj Hr Hw Hx. destruct (wlan_inv_run _ _ _ Hj Hr) as [I1 I2 _ _]. cbn [fst snd] in *. destruct c as [sm ssid reason request wa wb wd ns].
  cbn [sem ws_connect connecting_ssid notes] in *. subst sm wb. rewrite wi_connect_run by done. rewrite (proj2 (Nat.ltb_lt _ _) Hx).
  eexists _, _. split; [reflexivity|]. split; [apply connect_routine_run|]. by apply connect_notes.
Qed.

(** Making the context succeeds with all its parts or leaves none, whichever step fails,
    and freeing it leaves none; but the interfaces are registered before the semaphore is
    initialised: a request in between uses it as the allocator left it. *)
Theorem wlan_context_is_all_or_nothing k w r n d junk q :
  let '(ok, l) := wlanidt_create_context k w r n d in
  ok = k && w && r && n && d /\
  l = (if ok then [NdevRegistered; Ndev; WiphyRegistered; Wiphy; Context] else []) /\ wlanidt_free l = [] /\
  wi_scan false q (raw junk) = Err Uninit.
Proof. by destruct k, w, r, n, d. Qed.

(** ** Examples *)

Definition junk : list Z := replicate SSID_SIZE 7.
Definition scanning : wictx := mk_wictx (Some true) (<[0%nat := 0]> junk) 0 (Some 5%nat) true false false [].
Definition connecting : wictx := mk_wictx (Some true) (SSID_DUMMY ++ [0]) 0 None false true false [].
Lemma scanning_run : rtc step (virtual_wifi_init junk, []) (scanning, [5%nat]).
Proof. apply rtc_once. apply (Scan false 5 (virtual_wifi_init junk) 0 scanning []). reflexivity. Qed.
Lemma connecting_run : rtc step (virtual_wifi_init junk, []) (connecting, []).
Proof. apply rtc_once. apply (Connect false SSID_DUMMY (virtual_wifi_init junk) 0 connecting []). reflexivity. Qed.

Lemma wlan_scans_are_answered_witness : (exists c', wi_scan false 6 scanning = Ok (- EBUSY, c')) /\
  exists c', wlanidt_scan_routine false (set_work false false false scanning) = Ok (tt, c') /\ scanned (notes c') = [5%nat].
Proof.
  destruct (wlan_scans_are_answered junk scanning [5%nat] 6 eq_refl scanning_run) as (_ & _ & H1 & H2).
  split; [exact H1|]. destruct (H2 eq_refl) as (c' & E & Hs & _). exists c'. split; [exact E|exact Hs].
Defined.
Lemma wlan_connects_to_its_network_witness : wi_connect false (chars "APIDIOTS") (virtual_wifi_init junk) = Err OutOfBounds /\
  exists c1 c2, wi_connect false (chars "APIDIO") (virtual_wifi_init junk) = Ok (0, c1) /\
    wlanidt_connect_routine false (set_work (ws_scan c1) false (ws_disconnect c1) c1) = Ok (tt, c2) /\ notes c2 = [ConnectTimeout].
Proof.
  split.
  - apply (wlan_connects_to_its_network junk _ [] (chars "APIDIOTS") eq_refl (rtc_refl _ _) eq_refl). by_compute.
  - destruct (proj1 (wlan_connects_to_its_network junk _ [] (chars "APIDIO") eq_refl (rtc_refl _ _) eq_refl) ltac:(by_compute)) as (c1 & c2 & E1 & _ & E2 & H).
    exists c1, c2. split; [exact E1|]. split; [exact E2|exact H].
Defined.
Lemma wlan_refused_connect_replaces_name_witness : exists c1 c2, wi_connect false (chars "other") connecting = Ok (- EBUSY, c1) /\
  wlanidt_connect_routine false (set_work (ws_scan c1) false (ws_disconnect c1) c1) = Ok (tt, c2) /\ notes c2 = [ConnectTimeout].
Proof.
  destruct (wlan_refused_connect_replaces_name junk connecting [] (chars "other") eq_refl connecting_run eq_refl ltac:(by_compute)) as (c1 & c2 & E1 & E2 & H).
  exists c1, c2. split; [exact E1|]. split; [exact E2|exact H].
Defined.
End Wlan.
