(* ===== verification/Infrared.v ===== *)
(** * Infrared signals

    src/infrared: pulses for a remote control code (ir_send.c), and the receiver that sums
    the times of the last edges (ir_recv.c). The durations of one cycle of the carrier and
    the number of cycles in a duration come from rounding in floating point; they are
    arguments. The calls into pigpio are outcomes. *)
From stdpp Require Import base numbers list gmap strings.
From S2P Require Import Prelude CBase CDecimal CHeap.
Local Open Scope Z_scope.

Module Send.

Definition MAX_COMMAND_SIZE : nat := 512.
Definition MAX_PULSES : nat := 12000.

Record pulse := mk_pulse { gpioOn : Z; gpioOff : Z; usDelay : Z }.
(** The pulses of [irSignal] that were written; their number is [pulseCount]. *)
Definition signal : Type := list pulse.

Section send.
Context (onDuration offDuration : Z) (totalCycles : Z -> Z) (outPin : Z).

Definition addPulse (onPins offPins duration : Z) (s : signal) : res signal :=
  if (length s <? MAX_PULSES)%nat then Ok (s ++ [mk_pulse onPins offPins duration]) else Err OutOfBounds.

(** The loop, from pulse [i] on. *)
Fixpoint carrier_loop (n : nat) (i : Z) (s : signal) : res signal :=
  match n with
  | O => Ok s
  | S n' =>
      s ← (if i mod 2 =? 0 then addPulse (Z.shiftl 1 outPin) 0 onDuration s
           else addPulse 0 (Z.shiftl 1 outPin) offDuration s);
      carrier_loop n' (i + 1) s
  end.
Definition carrierFrequency (duration : Z) (s : signal) : res signal :=
  let totalPulses := totalCycles duration * 2 in carrier_loop (Z.to_nat totalPulses) 0 s.
(** The duration is an [int] that is passed as a [double] and stored as a [uint32_t]; for a
    duration, which is not negative, both conversions are exact. *)
Definition gap (duration : Z) (s : signal) : res signal := addPulse 0 0 duration s.

(** The status, and the pulses that were sent if a wave was made. *)
Definition transmitWave (init_ok wave_ok : bool) (s : signal) : Z * option signal :=
  if negb init_ok then (1, None) else (0, if wave_ok then Some s else None).

Fixpoint rc5_loop (pulseDuration : Z) (code : list Z) (s : signal) : res signal :=
  match code with
  | [] => Ok s
  | c :: code' =>
      s ← (if c =? 48 then s ← carrierFrequency pulseDuration s; gap pulseDuration s
           else if c =? 49 then s ← gap pulseDuration s; carrierFrequency pulseDuration s
           else Ok s);
      rc5_loop pulseDuration code' s
  end.
Definition irSlingRC5 (init_ok wave_ok : bool) (pulseDuration : Z) (code : list Z) : res (Z * option signal) :=
  if 31 <? outPin then Ok (1, None)
  else if (MAX_COMMAND_SIZE <? length code)%nat then Ok (1, None)
  else s ← rc5_loop pulseDuration code []; Ok (transmitWave init_ok wave_ok s).


Fixpoint raw_loop (i : Z) (pulses : list Z) (s : signal) : res signal :=
  match pulses with
  | [] => Ok s
  | p :: pulses' => s ← (if i mod 2 =? 0 then carrierFrequency p s else gap p s); raw_loop (i + 1) pulses' s
  end.
Definition irSlingRaw (init_ok wave_ok : bool) (pulses : list Z) : res (Z * option signal) :=
  if 31 <? outPin then Ok (1, None)
  else s ← raw_loop 0 pulses []; Ok (transmitWave init_ok wave_ok s).

(** ** The pulses of a code *)


(** What an operation adds to the signal: its pulses, unless they do not fit. *)
Definition emits (f : signal -> res signal) (x : signal) : Prop :=
  forall s, (length s <= MAX_PULSES)%nat ->
    f s = if (length s + length x <=? MAX_PULSES)%nat then Ok (s ++ x) else Err OutOfBounds.

Lemma emits_ext f g x : (forall s, f s = g s) -> emits g x -> emits f x.
Proof. intros H Hg s Hs. rewrite H. by apply Hg. Qed.



Hypothesis cycles_nonneg : forall d, 0 <= totalCycles d.



(** ** Reading a signal *)


Hypothesis pin_ok : 0 <= outPin.




End send.

End Send.

(** ** The receiver *)
Module Recv.

Record receiver := mk_receiver {
  gpio : Z; timeout : Z; in_code : bool; signal_val : Z; edges : Z; t1 : Z; t2 : Z; t3 : Z; t4 : Z }.

(** What the receiver does to the world: setting the watchdog of its pin, and its callback. *)
Inductive effect := SetWatchdog (ms : Z) | Callback (signal : Z).

(** [_cb]: an edge at a time, or a timeout ([None]). The times are kept as [int], and their
    sum is one. *)
Definition cb (tick : option Z) (r : receiver) : res (list effect * receiver) :=
  match tick with
  | Some t =>
      if negb (in_code r) then
        Ok ([SetWatchdog (timeout r)], mk_receiver (gpio r) (timeout r) true 0 1 0 0 0 (s32 t))
      else
        let r := mk_receiver (gpio r) (timeout r) true (signal_val r) (edges r + 1) (t2 r) (t3 r) (t4 r) (s32 t) in
        if 3 <? edges r then
          v ← int_ (t4 r + t3 r);
          v ← int_ (v + t2 r);
          v ← int_ (v + t1 r);
          Ok ([], mk_receiver (gpio r) (timeout r) true (v mod 2 ^ 32) (edges r) (t1 r) (t2 r) (t3 r) (t4 r))
        else Ok ([], r)
  | None =>
      if in_code r then
        Ok (SetWatchdog 0 :: (if 12 <? edges r then [Callback (signal_val r)] else []),
            mk_receiver (gpio r) (timeout r) false (signal_val r) (edges r) (t1 r) (t2 r) (t3 r) (t4 r))
      else Ok ([], r)
  end.
(** [IR_Receiver]: the timeout that is asked for is not used. *)
Definition IR_Receiver (pin ms : Z) : receiver := mk_receiver pin 5 false 0 0 0 0 0 0.

Fixpoint feed (l : list (option Z)) (r : receiver) : res (list effect * receiver) :=
  match l with
  | [] => Ok ([], r)
  | t :: l' => x ← cb t r; y ← feed l' x.2; Ok (x.1 ++ y.1, y.2)
  end.
(** What a code comes to: the edges, then the timeout. *)
Definition code (ticks : list Z) : list (option Z) := (Some <$> ticks) ++ [None].

(** The last four times, the last one first, with zeros before the first. *)
Definition window (ticks : list Z) : list Z := take 4 (reverse ticks ++ [0; 0; 0; 0]).
Definition total (l : list Z) : Z := foldr Z.add 0 l.
(** Times that are small enough for their sum. *)
Definition small_tick (t : Z) : Prop := 0 <= t < 2 ^ 29.

(** The receiver after some edges of a code. *)
Record after (ticks : list Z) (r : receiver) : Prop := {
  af_in : in_code r = true;
  af_edges : edges r = Z.of_nat (length ticks);
  af_window : [t4 r; t3 r; t2 r; t1 r] = window ticks;
  af_value : (3 < length ticks)%nat -> signal_val r = total (window ticks) }.

Lemma window_snoc ticks t : window (ticks ++ [t]) = t :: take 3 (window ticks).
Proof. unfold window. rewrite reverse_snoc. cbn [app take]. f_equal. by rewrite take_take. Qed.
Lemma window_small ticks : Forall small_tick ticks -> Forall small_tick (window ticks).
Proof.
  intros H. unfold window. apply Forall_take, Forall_app. split; [by apply Forall_reverse|].
  repeat constructor; cbn; lia.
Qed.
Lemma total_small ticks : Forall small_tick ticks -> 0 <= total (window ticks) < 2 ^ 31.
Proof.
  intros H%window_small. assert (length (window ticks) <= 4)%nat as Hl by (unfold window; rewrite length_take; lia).
  unfold small_tick in *. destruct (window ticks) as [|a [|b [|c [|d [|]]]]]; cbn in Hl; try lia;
    repeat match goal with H : Forall _ (_ :: _) |- _ => apply Forall_cons in H as [? H] end; cbn; lia.
Qed.

Lemma cb_edge ticks t r : after ticks r -> Forall small_tick (ticks ++ [t]) ->
  exists r', cb (Some t) r = Ok ([], r') /\ after (ticks ++ [t]) r' /\ timeout r' = timeout r.
Proof.
  intros [A1 A2 A3 A4] Hs. pose proof (total_small _ Hs) as Ht. pose proof (window_small _ Hs) as Hw.
  rewrite window_snoc, <- A3 in Ht, Hw. cbn [take total foldr] in Ht.
  apply Forall_cons in Hw as [Hw0 Hw]. apply Forall_cons in Hw as [Hw1 Hw]. apply Forall_cons in Hw as [Hw2 Hw]. apply Forall_cons in Hw as [Hw3 _].
  unfold small_tick in *. assert (s32 t = t) as Hst by (unfold s32; rewrite Z.mod_small; lia).
  unfold cb. rewrite A1. cbn [negb]. cbn zeta. cbn [edges t1 t2 t3 t4 gpio timeout signal_val]. rewrite Hst, A2.
  assert (forall v, 0 <= v < 2 ^ 31 -> int_ v = Ok v) as Hi by (intros v Hv; apply int_ok; unfold is_int, INT_MIN, INT_MAX; lia).
  destruct (3 <? Z.of_nat (length ticks) + 1) eqn:E; zbool.
  - rewrite (Hi (t + t4 r)) by lia. cbn [mbind res_bind]. rewrite (Hi (t + t4 r + t3 r)) by lia. cbn [mbind res_bind].
    rewrite (Hi (t + t4 r + t3 r + t2 r)) by lia. cbn [mbind res_bind]. rewrite Z.mod_small by lia. eexists. split; [reflexivity|]. split; [|done].
    constructor; cbn [in_code edges t1 t2 t3 t4 signal_val]; [done|rewrite length_app; cbn; lia|by rewrite window_snoc, <- A3|].
    intros _. rewrite window_snoc, <- A3. cbn. lia.
  - eexists. split; [reflexivity|]. split; [|done]. constructor; cbn [in_code edges t1 t2 t3 t4 signal_val];
      [done|rewrite length_app; cbn; lia|by rewrite window_snoc, <- A3|]. rewrite length_app. cbn. lia.
Qed.

Lemma feed_edges more : forall ticks r, after ticks r -> Forall small_tick (ticks ++ more) ->
  exists r', feed ((Some <$> more) ++ [None]) r = Ok (SetWatchdog 0 :: (if 12 <? Z.of_nat (length (ticks ++ more)) then [Callback (signal_val r')] else []), r') /\
    ((3 < length (ticks ++ more))%nat -> signal_val r' = total (window (ticks ++ more))) /\ in_code r' = false.
Proof.
  induction more as [|t more IH]; intros ticks r Ha Hs.
  - rewrite app_nil_r in *. destruct Ha as [A1 A2 A3 A4]. cbn [fmap list_fmap app feed]. unfold cb. rewrite A1, A2. cbn [mbind res_bind fst snd].
    rewrite app_nil_r. exists (mk_receiver (gpio r) (timeout r) false (signal_val r) (Z.of_nat (length ticks)) (t1 r) (t2 r) (t3 r) (t4 r)).
    split; [reflexivity|]. cbn [signal_val in_code]. split; [done|done].
  - assert (ticks ++ t :: more = (ticks ++ [t]) ++ more) as E by (by rewrite <- app_assoc). rewrite E in Hs |- *.
    destruct (cb_edge ticks t r Ha) as (r1 & E1 & Ha1 & _); [by apply Forall_app in Hs as [? _]|].
    destruct (IH _ _ Ha1 Hs) as (r' & E2 & H). exists r'. split; [|done]. rewrite fmap_cons. cbn [app feed]. rewrite E1. cbn [mbind res_bind snd fst].
    rewrite E2. done.
Qed.

Lemma window_later tk delta : (4 <= length tk)%nat -> total (window ((fun x => x + delta) <$> tk)) = total (window tk) + 4 * delta.
Proof.
  intros Hl. unfold window. rewrite <- fmap_reverse, !take_app_le by (rewrite ?length_fmap, length_reverse; lia).
  rewrite <- fmap_take. assert (length (take 4 (reverse tk)) = 4%nat) as H by (rewrite length_take, length_reverse; lia).
  destruct (take 4 (reverse tk)) as [|a [|b [|c [|d [|]]]]]; try done. cbn. lia.
Qed.

(** A code of more than twelve edges is reported once, at its end, as the sum of the times
    of its last four edges: the same code a little later is reported as another number. A
    shorter one is dropped as noise. *)
Theorem ir_value_depends_on_time pin ms t ticks delta (tk := t :: ticks) (later := (fun x => x + delta) <$> tk) :
  0 <= delta -> Forall small_tick tk -> Forall small_tick later ->
  exists r r', feed (code tk) (IR_Receiver pin ms) = Ok ([SetWatchdog 5; SetWatchdog 0] ++ (if 12 <? Z.of_nat (length tk) then [Callback (total (window tk))] else []), r) /\
    feed (code later) (IR_Receiver pin ms) = Ok ([SetWatchdog 5; SetWatchdog 0] ++ (if 12 <? Z.of_nat (length tk) then [Callback (total (window tk) + 4 * delta)] else []), r').
Proof.
  intros Hd Hs Hl. assert (forall x l, Forall small_tick (x :: l) ->
    exists r, feed (code (x :: l)) (IR_Receiver pin ms) =
      Ok ([SetWatchdog 5; SetWatchdog 0] ++ (if 12 <? Z.of_nat (length (x :: l)) then [Callback (total (window (x :: l)))] else []), r)) as Hfeed.
  { intros x l Hx. set (r0 := mk_receiver pin 5 true 0 1 0 0 0 (s32 x)).
    change (feed (code (x :: l)) (IR_Receiver pin ms)) with (y ← feed ((Some <$> l) ++ [None]) r0; Ok (SetWatchdog 5 :: y.1, y.2)). assert (after [x] r0) as Ha.
    { apply Forall_cons in Hx as [Hx _]. unfold small_tick in Hx. assert (s32 x = x) as Hsx by (unfold s32; rewrite Z.mod_small; lia).
      constructor; cbn [r0 in_code edges t1 t2 t3 t4 signal_val]; [done|done|rewrite Hsx; done|cbn; lia]. }
    destruct (feed_edges l [x] r0 Ha Hx) as (r & E & Hv & _). rewrite E. cbn [mbind res_bind fst snd app]. exists r.
    change ([x] ++ l) with (x :: l) in *. destruct (12 <? Z.of_nat (length (x :: l))) eqn:E12; [|done]. zbool. by rewrite Hv by lia. }
  destruct (Hfeed t ticks Hs) as [r E]. destruct (Hfeed (t + delta) (fmap (M:=list) (fun x => x + delta) ticks) Hl) as [r' E'].
  change (t + delta :: ((fun x => x + delta) <$> ticks)) with later in E'. exists r, r'. split; [exact E|]. rewrite E'.
  unfold later. rewrite length_fmap. destruct (12 <? Z.of_nat (length tk)) eqn:E12; [|done]. zbool. by rewrite window_later by lia.
Qed.
Lemma ir_value_depends_on_time_witness : exists r r',
  feed (code (seqZ 1000 13)) (IR_Receiver 4 5) = Ok ([SetWatchdog 5; SetWatchdog 0; Callback 4042], r) /\
  feed (code (seqZ 1100 13)) (IR_Receiver 4 5) = Ok ([SetWatchdog 5; SetWatchdog 0; Callback 4442], r').
Proof.
  apply (ir_value_depends_on_time 4 5 1000 (seqZ 1001 12) 100); [lia|by_compute|by_compute].
Defined.
End Recv.
