(* ===== verification/Httpd.v ===== *)
(** * The small web server

    src/nat-server: the parser of requests, which cuts the received bytes in place with
    [strtok], the routes, and the parent process with its table of clients. The buffer is
    a block of the heap, a process's standard output is what the client receives. A
    connection gives the parser the bytes of one [recv]; the index file is an argument. *)
From stdpp Require Import base numbers list gmap strings.
From iris.proofmode Require Import proofmode.
From S2P Require Import Prelude CBase CDecimal CHeap HeapLogic CStrings.
Set Warnings "-rewrite-rw".
Local Open Scope Z_scope.

Module Httpd.

Definition BUF_SIZE : nat := Z.to_nat 65535.

(** ** [strtok] with a set of delimiters *)

Definition delim (d : list Z) (c : Z) : bool := bool_decide (c ∈ d).

Fixpoint strspn (d x : list Z) : nat :=
  match x with
  | c :: x' => if delim d c then S (strspn d x') else 0%nat
  | [] => 0%nat
  end.
Fixpoint strcspn (d x : list Z) : nat :=
  match x with
  | c :: x' => if delim d c then 0%nat else S (strcspn d x')
  | [] => 0%nat
  end.

Definition strtok (p : ptr) (d : list Z) : C ptr :=
  w ← get_files;
  match tok_start p w with
  | None => mret NULL
  | Some start =>
      x ← read_string (Some start);
      let k := strspn d x in
      let n := strcspn d (drop k x) in
      if (k =? length x)%nat then put_files (mk_world (stdin w) (stdout w) NULL);; mret NULL
      else if (k + n =? length x)%nat then
        put_files (mk_world (stdin w) (stdout w) NULL);; mret (offset (Some start) k)
      else
        store (Some start) (Z.of_nat (k + n)) (VInt 0);;
        put_files (mk_world (stdin w) (stdout w) (offset (Some start) (S (k + n))));;
        mret (offset (Some start) k)
  end.

Definition SP_TAB_CRLF : list Z := [32; 9; 13; 10].
Definition SP_TAB : list Z := [32; 9].
Definition KEY_END : list Z := [13; 10; 58; 32; 9].
Definition CRLF : list Z := [13; 10].

(** ** [uri_unescape] *)

(** The value of a digit as the code computes it, for any character. *)
Definition hex_value (c : Z) : Z := Z.land c 15 + 9 * (if (57 <? c) && (c <? 128) then 1 else 0).

Fixpoint skip_plain (fuel : nat) (uri : ptr) (src : nat) : C nat :=
  match fuel with
  | O => stfail OutOfFuel
  | S f =>
      c ← load_int uri (Z.of_nat src);
      if (c =? 0) || isspace c || (c =? 37) then mret src else skip_plain f uri (S src)
  end.

(** The character at [src], and the place of its last character. *)
Definition next_char (uri : ptr) (src : nat) (c : Z) : C (Z * nat) :=
  if c =? 43 then mret (32, src)
  else if c =? 37 then
    c1 ← load_int uri (Z.of_nat (src + 1));
    if c1 =? 0 then mret (c, src)
    else
      c2 ← load_int uri (Z.of_nat (src + 2));
      if c2 =? 0 then mret (c, src)
      else mret (u8 (u8 (hex_value c1 * 16) + hex_value c2), (src + 2)%nat)
  else mret (c, src).

Fixpoint unescape_loop (fuel : nat) (uri : ptr) (src dst : nat) : C nat :=
  match fuel with
  | O => stfail OutOfFuel
  | S f =>
      c ← load_int uri (Z.of_nat src);
      if (c =? 0) || isspace c then mret dst
      else
        '(chr, last) ← next_char uri src c;
        store uri (Z.of_nat dst) (VInt chr);;
        unescape_loop f uri (S last) (S dst)
  end.

Definition uri_unescape (uri : ptr) : C unit :=
  n ← room uri;
  src ← skip_plain (S n) uri 0;
  dst ← unescape_loop (S n) uri src src;
  store uri (Z.of_nat dst) (VInt 0).

(** ** [respond] *)

(** The global variables of a request; [payload_size] has no value when it is the
    difference of a null pointer and the buffer. *)
Record request := mk_request {
  method : ptr; uri : ptr; qs : ptr; prot : ptr; payload : ptr; payload_size : option Z; reqhdr : list (ptr * ptr) }.

Fixpoint skip_blanks (fuel : nat) (val : ptr) : C ptr :=
  match fuel with
  | O => stfail OutOfFuel
  | S f => c ← load_int val 0; if negb (c =? 0) && (c =? 32) then skip_blanks f (offset val 1) else mret val
  end.

(** The loop over the header lines, with the entries that are left. *)
Fixpoint headers (left : nat) (h : list (ptr * ptr)) : C (list (ptr * ptr)) :=
  match left with
  | O => mret h
  | S left' =>
      key ← strtok NULL KEY_END;
      match key with
      | None => mret h
      | Some _ =>
          val ← strtok NULL CRLF;
          n ← room val;
          val ← skip_blanks (S n) val;
          read_string key;;
          len ← strlen val;
          let t := offset val (1 + Z.to_nat len) in
          c1 ← load_int t 1;
          blank ← (if c1 =? 13 then c2 ← load_int t 2; mret (c2 =? 10) else mret false);
          if (blank : bool) then mret (h ++ [(key, val)]) else headers left' (h ++ [(key, val)])
      end
  end.

Fixpoint request_header (h : list (ptr * ptr)) (name : list Z) : C ptr :=
  match h with
  | [] => mret NULL
  | (k, v) :: h' => x ← read_string k; if bool_decide (x = name) then mret v else request_header h' name
  end.

(** [t - buf] for a pointer into the buffer. *)
Definition distance (t : ptr) : option Z := (fun '(_, off) => Z.of_nat off) <$> t.

(** From the received bytes to the globals. The array of headers starts with one entry of
    two empty strings, [empty]. *)
Definition parse (empty buf : ptr) (rcvd : Z) : C request :=
  method ← strtok buf SP_TAB_CRLF;
  uri ← strtok NULL SP_TAB;
  prot ← strtok NULL SP_TAB_CRLF;
  uri_unescape uri;;
  read_string method;; read_string uri;;
  q ← strchr uri 63;
  qs ← match q with
       | Some _ => store q 0 (VInt 0);; mret (offset q 1)
       | None => mret ((fun '(l, off) => (l, pred off)) <$> uri)
       end;
  h ← headers 16 [];
  let reqhdr := match h with [] => [(empty, empty)] | _ => h end in
  t ← strtok NULL CRLF;
  t2 ← request_header reqhdr (chars "Content-Length");
  size ← match t2 with
         | Some _ => x ← read_string t2; mret (Some (s32 (strtol x).1))
         | None => mret ((fun d => s32 (rcvd - d)) <$> distance t)
         end;
  mret (mk_request method uri qs prot t size reqhdr).

(** ** Routes *)

Definition HTTP_200 : C unit := emit (chars "HTTP/1.1 200 OK" ++ [10; 10]).
Definition HTTP_500 : C unit := emit (chars "HTTP/1.1 500 Internal Server Error" ++ [10; 10]).

(** The loop of [read_file] over a file with the bytes [x]. *)
Fixpoint read_file (fuel : nat) (x : list Z) : C unit :=
  match fuel with
  | O => stfail OutOfFuel
  | S f => match take 1024 x with [] => mret tt | y => emit y;; read_file f (drop 1024 x) end
  end.

(** [index]: the bytes of the file [./public/index.html], if it exists. *)
Definition route (index : option (list Z)) (r : request) : C unit :=
  u ← read_string (uri r);
  found ← (if bool_decide (u = chars "/") then m ← read_string (method r); mret (bool_decide (m = chars "GET")) else mret false);
  if (found : bool) then
    index_html ← new_block (replicate 20 VUndef);
    write_cells index_html (str_cells (chars "./public" ++ chars "/index.html"));;
    HTTP_200;;
    match index with
    | Some x => read_file (S (length x)) x
    | None =>
        ua ← request_header (reqhdr r) (chars "User-Agent");
        emit (chars "Hello! You are using ");; emit_string ua;; emit [10; 10]
    end;;
    free index_html
  else HTTP_500.

(** What [recv] returns: an error, or bytes. Without a buffer it is an error. *)
Definition respond (index : option (list Z)) (received : option (list Z)) : C (option request) :=
  empty ← new_block [VInt 0];
  buf ← malloc BUF_SIZE;
  r ← match buf, received with
      | Some _, Some (c :: bs) =>
          write_cells buf (VInt <$> (c :: bs));;
          let rcvd := Z.of_nat (length (c :: bs)) in
          store buf rcvd (VInt 0);;
          r ← parse empty buf rcvd;
          route index r;;
          mret (Some r)
      | _, _ => mret None
      end;
  free buf;; free empty;;
  mret r.

(** ** Proofs: cutting tokens *)

(** The world with another place for [strtok] to go on. *)
Definition going_on (w : world) (p : ptr) : world := mk_world (stdin w) (stdout w) p.

(** A buffer: the cells that were cut, the rest of the text, and what was never written. *)
Definition buffer (pre : list val) (rest : list Z) (junk : list val) : list val :=
  pre ++ (VInt <$> rest) ++ VInt 0 :: junk.

Section tokens.
Implicit Types (w : world) (pre junk b : list val) (x y rest : list Z) (d : list Z).

Lemma strspn_le d x : (strspn d x <= length x)%nat.
Proof. induction x as [|c x IH]; cbn; [lia|]. destruct (delim d c); lia. Qed.
Lemma strcspn_le d x : (strcspn d x <= length x)%nat.
Proof. induction x as [|c x IH]; cbn; [lia|]. destruct (delim d c); lia. Qed.
Lemma strspn_stop d s c r : Forall (fun a => a ∈ d) s -> c ∉ d -> strspn d (s ++ c :: r) = length s.
Proof.
  unfold delim. induction 1 as [|a s Ha _ IH]; intros Hc; cbn [strspn app length]; unfold delim.
  - by rewrite bool_decide_false.
  - rewrite bool_decide_true; [|done]. by rewrite IH.
Qed.
Lemma strspn_all d s : Forall (fun a => a ∈ d) s -> strspn d s = length s.
Proof. induction 1 as [|a s Ha _ IH]; [done|]. cbn [strspn length]. unfold delim. rewrite bool_decide_true; [|done]. by rewrite IH. Qed.
Lemma strcspn_stop d t c r : Forall (fun a => a ∉ d) t -> c ∈ d -> strcspn d (t ++ c :: r) = length t.
Proof.
  induction 1 as [|a t Ha _ IH]; intros Hc; cbn [strcspn app length]; unfold delim.
  - by rewrite bool_decide_true.
  - rewrite bool_decide_false; [|done]. by rewrite IH.
Qed.

Lemma str_in_buffer pre rest junk : no_nul rest -> str_in (buffer pre rest junk) (length pre) rest.
Proof. intros H. by apply str_in_app. Qed.

(** One call that finds a token and a delimiter after it. *)
Lemma wpc_strtok_cut p l pre s t e rest junk d w Φ :
  (p = Some (l, length pre) \/ p = NULL /\ strtok_next w = Some (l, length pre)) ->
  Forall (fun a => a ∈ d) s -> t <> [] -> Forall (fun a => a ∉ d) t -> e ∈ d -> no_nul (s ++ t ++ e :: rest) ->
  l ↦ buffer pre (s ++ t ++ e :: rest) junk -∗
  (l ↦ buffer (pre ++ (VInt <$> s) ++ str_cells t) rest junk -∗
   Φ (Some (l, (length pre + length s)%nat)) (going_on w (Some (l, length (pre ++ (VInt <$> s) ++ str_cells t))))) -∗
  wpc (strtok p d) w Φ.
Proof.
  iIntros (Hp Hs Hne Ht He Hn) "Hl HΦ". unfold strtok. wpc_bind. iApply wpc_get_files.
  assert (tok_start p w = Some (l, length pre)) as -> by (by destruct Hp as [->|[-> Hnx]]).
  wpc_bind. iApply (wpc_read_string with "Hl"); [by apply str_in_buffer|]. iIntros "Hl". cbv zeta.
  destruct t as [|a t]; [done|].
  assert (length (pre ++ (VInt <$> s) ++ str_cells (a :: t)) = (length pre + S (length s + S (length t)))%nat) as ->
    by (unfold str_cells; rewrite !length_app !length_fmap /=; lia). pose proof Ht as Ht'. apply Forall_cons in Ht' as [Ha _].
  cbn [app]. rewrite (strspn_stop d s a); [|done..]. rewrite drop_app_length.
  change (a :: t ++ e :: rest) with ((a :: t) ++ e :: rest). rewrite strcspn_stop; [|done..].
  rewrite !length_app /=. rewrite (proj2 (Nat.eqb_neq _ _)); [|lia]. rewrite (proj2 (Nat.eqb_neq _ _)); [|lia].
  wpc_bind. iApply (wpc_store with "Hl"). { unfold buffer. rewrite !length_app !length_fmap !length_app /= length_app /=. lia. }
  iIntros "Hl". wpc_bind. iApply wpc_put_files. wpc_ret. cbn [offset fmap option_fmap option_map].
  assert (<[(length pre + (length s + S (length t)))%nat := VInt 0]> (buffer pre (s ++ a :: t ++ e :: rest) junk) =
    buffer (pre ++ (VInt <$> s) ++ str_cells (a :: t)) rest junk) as ->.
  { change (a :: t ++ e :: rest) with ((a :: t) ++ e :: rest). unfold buffer, str_cells. rewrite !fmap_app (fmap_cons VInt e).
    replace (pre ++ ((VInt <$> s) ++ (VInt <$> a :: t) ++ VInt e :: (VInt <$> rest)) ++ VInt 0 :: junk)
      with ((pre ++ (VInt <$> s) ++ (VInt <$> a :: t)) ++ VInt e :: ((VInt <$> rest) ++ VInt 0 :: junk)) by (by rewrite -!app_assoc).
    rewrite insert_mid; [|rewrite !length_app !length_fmap /=; lia]. by rewrite -!app_assoc. }
  by iApply "HΦ".
Qed.

(** One call that finds nothing. *)
Lemma wpc_strtok_none l pre s junk d w Φ : strtok_next w = Some (l, length pre) ->
  Forall (fun a => a ∈ d) s -> no_nul s ->
  l ↦ buffer pre s junk -∗ (l ↦ buffer pre s junk -∗ Φ NULL (going_on w NULL)) -∗ wpc (strtok NULL d) w Φ.
Proof.
  iIntros (Hp Hs Hn) "Hl HΦ". unfold strtok. wpc_bind. iApply wpc_get_files. unfold tok_start. rewrite Hp.
  wpc_bind. iApply (wpc_read_string with "Hl"); [by apply str_in_buffer|]. iIntros "Hl". cbv zeta.
  rewrite strspn_all // Nat.eqb_refl. wpc_bind. iApply wpc_put_files. wpc_ret. by iApply "HΦ".
Qed.

(** The places where tokens were cut are kept. *)
Lemma str_in_token pre s t : no_nul t -> str_in (pre ++ (VInt <$> s) ++ str_cells t) (length pre + length s) t.
Proof.
  intros Ht. rewrite app_assoc. replace (length pre + length s)%nat with (length (pre ++ (VInt <$> s))) by (rewrite length_app length_fmap; lia).
  unfold str_cells. by apply (str_in_app (pre ++ (VInt <$> s)) t []).
Qed.
End tokens.

(** ** Proofs: escaped characters *)

(** The characters before the first [%]. *)
Fixpoint plain (x : list Z) : nat :=
  match x with
  | c :: x' => if c =? 37 then 0%nat else S (plain x')
  | [] => 0%nat
  end.

(** What the second loop writes for a text without spaces. *)
Fixpoint unescape (x : list Z) : list Z :=
  match x with
  | [] => []
  | c :: r =>
      if c =? 43 then 32 :: unescape r
      else if c =? 37 then
        match r with
        | c1 :: c2 :: r' => u8 (u8 (hex_value c1 * 16) + hex_value c2) :: unescape r'
        | _ => c :: unescape r
        end
      else c :: unescape r
  end.
Definition unescaped (x : list Z) : list Z := take (plain x) x ++ unescape (drop (plain x) x).

(** The characters of a target. *)
Definition target_char (c : Z) : Prop := c <> 0 /\ isspace c = false.

Section escapes.
Implicit Types (w : world) (b p mid tail : list val) (x y : list Z).

Lemma target_no_nul x : Forall target_char x -> no_nul x.
Proof. intros H. eapply Forall_impl; [done|]. by intros c []. Qed.

Lemma lookup_here {A} (p y m : list A) a r : (p ++ y ++ m ++ a :: r) !! (length p + (length y + length m))%nat = Some a.
Proof. rewrite !app_assoc. apply list_lookup_middle. rewrite !length_app. lia. Qed.

Lemma wpc_skip_plain l p0 z x tail fuel w Φ : Forall target_char x -> (length x < fuel)%nat ->
  l ↦ (p0 ++ (VInt <$> z ++ x) ++ VInt 0 :: tail) -∗
  (l ↦ (p0 ++ (VInt <$> z ++ x) ++ VInt 0 :: tail) -∗ Φ (length z + plain x)%nat w) -∗
  wpc (skip_plain fuel (Some (l, length p0)) (length z)) w Φ.
Proof.
  revert z fuel. induction x as [|c x IH]; intros z fuel Hx Hf; destruct fuel as [|f]; try (cbn in Hf; lia); iIntros "Hl HΦ".
  - cbn [skip_plain]. wpc_bind. iApply (wpc_load_int with "Hl").
    { rewrite app_nil_r. rewrite lookup_app_r; [|lia]. apply list_lookup_middle. rewrite length_fmap. lia. }
    iIntros "Hl". cbn [Z.eqb orb]. wpc_ret. rewrite Nat.add_0_r. by iApply "HΦ".
  - apply Forall_cons in Hx as [[Hc Hsp] Hx]. cbn [skip_plain plain]. wpc_bind. iApply (wpc_load_int with "Hl").
    { rewrite lookup_app_r; [|lia]. rewrite Nat.add_comm Nat.add_sub lookup_app_l; [|rewrite length_fmap length_app /=; lia].
      by rewrite list_lookup_fmap list_lookup_middle. }
    iIntros "Hl". rewrite (proj2 (Z.eqb_neq c 0)) // Hsp /=. destruct (c =? 37) eqn:E.
    + wpc_ret. rewrite Nat.add_0_r. by iApply "HΦ".
    + replace (S (length z)) with (length (z ++ [c])) by (rewrite length_app /=; lia).
      rewrite (cons_middle c z x) (app_assoc z). iApply (IH (z ++ [c]) with "Hl"); [done|cbn in Hf; lia|]. rewrite length_app /=.
      replace (length z + 1 + plain x)%nat with (length z + S (plain x))%nat by lia. iExact "HΦ".
Qed.

(** The character written for the first ones of [x], and how many they are. *)
Definition decode (x : list Z) : Z * nat :=
  match x with
  | c :: r =>
      if c =? 43 then (32, 1%nat)
      else if c =? 37 then
        match r with
        | c1 :: c2 :: _ => (u8 (u8 (hex_value c1 * 16) + hex_value c2), 3%nat)
        | _ => (c, 1%nat)
        end
      else (c, 1%nat)
  | [] => (0, 0%nat)
  end.
Lemma unescape_decode c r : unescape (c :: r) = (decode (c :: r)).1 :: unescape (drop (decode (c :: r)).2 (c :: r)).
Proof. cbn [unescape decode]. destruct (c =? 43), (c =? 37); try done. by destruct r as [|c1 [|c2 r]]. Qed.
Lemma decode_bounds c r : (1 <= (decode (c :: r)).2 <= length (c :: r))%nat.
Proof. cbn [decode]. destruct (c =? 43), (c =? 37); cbn; try lia. destruct r as [|c1 [|c2 r]]; cbn; lia. Qed.

Lemma wpc_next_char l p0 y mid c r tail w Φ (src := (length y + length mid)%nat) : no_nul (c :: r) ->
  l ↦ (p0 ++ (VInt <$> y) ++ mid ++ (VInt <$> c :: r) ++ VInt 0 :: tail) -∗
  (l ↦ (p0 ++ (VInt <$> y) ++ mid ++ (VInt <$> c :: r) ++ VInt 0 :: tail) -∗
   Φ ((decode (c :: r)).1, (src + (decode (c :: r)).2 - 1)%nat) w) -∗
  wpc (next_char (Some (l, length p0)) src c) w Φ.
Proof.
  iIntros (Hn) "Hl HΦ". unfold next_char. cbn [decode].
  assert (forall j v, ((VInt <$> c :: r) ++ VInt 0 :: tail) !! j = Some v ->
    (p0 ++ (VInt <$> y) ++ mid ++ (VInt <$> c :: r) ++ VInt 0 :: tail) !! (length p0 + (src + j))%nat = Some v) as Hj.
  { intros j v Hv. rewrite !app_assoc. rewrite -(app_assoc _ _ (VInt 0 :: tail)) lookup_app_r; rewrite !length_app length_fmap; [|lia].
    by replace (_ - _)%nat with j by lia. }
  destruct (c =? 43) eqn:E1; [wpc_ret; cbn [fst snd]; rewrite Nat.add_sub; by iApply "HΦ"|].
  destruct (c =? 37) eqn:E2; [|wpc_ret; cbn [fst snd]; rewrite Nat.add_sub; by iApply "HΦ"].
  apply Forall_cons in Hn as [_ Hn]. destruct r as [|c1 r].
  - wpc_bind. iApply (wpc_load_int with "Hl"); [by apply Hj|]. iIntros "Hl". cbn [Z.eqb]. wpc_ret.
    cbn [fst snd]. rewrite Nat.add_sub. by iApply "HΦ".
  - apply Forall_cons in Hn as [Hc1 Hn]. wpc_bind. iApply (wpc_load_int with "Hl"); [by apply Hj|]. iIntros "Hl".
    rewrite (proj2 (Z.eqb_neq c1 0)) //. destruct r as [|c2 r].
    + wpc_bind. iApply (wpc_load_int with "Hl"); [by apply Hj|]. iIntros "Hl". cbn [Z.eqb]. wpc_ret.
      cbn [fst snd]. rewrite Nat.add_sub. by iApply "HΦ".
    + apply Forall_cons in Hn as [Hc2 Hn]. wpc_bind. iApply (wpc_load_int with "Hl"); [by apply Hj|]. iIntros "Hl".
      rewrite (proj2 (Z.eqb_neq c2 0)) //. wpc_ret. cbn [fst snd]. replace (src + 3 - 1)%nat with (src + 2)%nat by lia.
      by iApply "HΦ".
Qed.

Lemma wpc_unescape_loop l p0 tail fuel w x y mid Φ : Forall target_char x -> (length x < fuel)%nat ->
  l ↦ (p0 ++ (VInt <$> y) ++ mid ++ (VInt <$> x) ++ VInt 0 :: tail) -∗
  (∀ mid' (_ : (length (y ++ unescape x) + length mid' = length y + length mid + length x + 1)%nat /\ mid' <> []),
     l ↦ (p0 ++ (VInt <$> y ++ unescape x) ++ mid' ++ tail) -∗ Φ (length (y ++ unescape x)) w) -∗
  wpc (unescape_loop fuel (Some (l, length p0)) (length y + length mid) (length y)) w Φ.
Proof.
  revert x y mid. induction fuel as [|f IH]; intros x y mid Hx Hf; [lia|]. iIntros "Hl HΦ". cbn [unescape_loop]. wpc_bind.
  destruct x as [|c r].
  - iApply (wpc_load_int with "Hl"). { cbn [fmap list_fmap app]. rewrite -(length_fmap VInt y). apply lookup_here. }
    iIntros "Hl". cbn [Z.eqb orb unescape]. wpc_ret. rewrite app_nil_r. iApply ("HΦ" $! (mid ++ [VInt 0]) _ with "[Hl]").
    Unshelve.
    + by rewrite -app_assoc.
    + rewrite length_app /=. split; [lia|by destruct mid].
  - pose proof Hx as Hx'. apply Forall_cons in Hx' as [[Hc Hsp] _].
    iApply (wpc_load_int with "Hl"). { cbn [fmap list_fmap app]. rewrite -(length_fmap VInt y). apply lookup_here. }
    iIntros "Hl". rewrite (proj2 (Z.eqb_neq c 0)) // Hsp. cbn [orb]. wpc_bind.
    iApply (wpc_next_char with "Hl"); [by apply target_no_nul|]. iIntros "Hl". rewrite unescape_decode.
    pose proof (decode_bounds c r) as Hd. destruct (decode (c :: r)) as [chr n] eqn:Ed. cbn [fst snd] in *.
    assert (exists h m, mid ++ (VInt <$> take n (c :: r)) = h :: m /\ (S (length m) = length mid + n)%nat) as (h & m & Hm & Hlm).
    { destruct mid as [|v mid]; [destruct n; [lia|]|]; eexists _, _; (split; [reflexivity|]);
        rewrite ?length_app length_fmap length_take; cbn [length] in *; lia. }
    assert (p0 ++ (VInt <$> y) ++ mid ++ (VInt <$> c :: r) ++ VInt 0 :: tail =
      p0 ++ (VInt <$> y) ++ h :: m ++ (VInt <$> drop n (c :: r)) ++ VInt 0 :: tail) as ->.
    { rewrite -{1}(take_drop n (c :: r)) fmap_app -(app_assoc (VInt <$> take n _)). by rewrite (app_assoc mid) Hm. }
    wpc_bind. iApply (wpc_store with "Hl"). { rewrite !length_app /= length_fmap. lia. }
    iIntros "Hl". rewrite (app_assoc p0) insert_mid; [|rewrite length_app length_fmap; lia].
    replace (S (length y + length mid + n - 1)) with (length (y ++ [chr]) + length m)%nat by (rewrite length_app /=; lia).
    replace (S (length y)) with (length (y ++ [chr])) by (rewrite length_app /=; lia).
    replace ((p0 ++ (VInt <$> y)) ++ VInt chr :: m ++ (VInt <$> drop n (c :: r)) ++ VInt 0 :: tail)
      with (p0 ++ (VInt <$> y ++ [chr]) ++ m ++ (VInt <$> drop n (c :: r)) ++ VInt 0 :: tail) by (by rewrite fmap_app -!app_assoc).
    iApply (IH with "Hl"); [by apply Forall_drop|rewrite length_drop; cbn [length] in *; lia|].
    rewrite (cons_middle chr y) (app_assoc y). iIntros (mid' [Hl Hne]) "Hl". iApply ("HΦ" $! mid' _ with "Hl").
    Unshelve. split; [|done]. rewrite Hl length_app length_drop. cbn [length] in *. lia.
Qed.

Lemma plain_le x : (plain x <= length x)%nat.
Proof. induction x as [|c x IH]; cbn; [lia|]. destruct (c =? 37); lia. Qed.

(** [uri_unescape] leaves the decoded text at the place of the target, and only changes
    the cells of the target. *)
Lemma wpc_uri_unescape l p0 x tail w Φ : Forall target_char x ->
  l ↦ (p0 ++ str_cells x ++ tail) -∗
  (∀ mid (_ : (length (unescaped x) + length mid = length x)%nat),
     l ↦ (p0 ++ str_cells (unescaped x) ++ mid ++ tail) -∗ Φ tt w) -∗
  wpc (uri_unescape (Some (l, length p0))) w Φ.
Proof.
  iIntros (Hx) "Hl HΦ". unfold uri_unescape. wpc_bind. iApply (wpc_room with "Hl"). iIntros "Hl".
  assert (length x < S (length (p0 ++ str_cells x ++ tail)))%nat as Hn by (rewrite !length_app !length_fmap; lia).
  generalize dependent (length (p0 ++ str_cells x ++ tail)). intros n Hn. pose proof (plain_le x) as Hp.
  replace (p0 ++ str_cells x ++ tail) with (p0 ++ (VInt <$> x) ++ VInt 0 :: tail) by (unfold str_cells; by rewrite -app_assoc).
  wpc_bind. iApply (wpc_skip_plain l p0 [] x with "Hl"); [done|done|]. iIntros "Hl". cbn [app length Nat.add]. wpc_bind.
  replace (p0 ++ (VInt <$> x) ++ VInt 0 :: tail)
    with (p0 ++ (VInt <$> take (plain x) x) ++ [] ++ (VInt <$> drop (plain x) x) ++ VInt 0 :: tail)
    by (by rewrite [[] ++ _]/= (app_assoc (VInt <$> take _ _)) -fmap_app take_drop).
  assert (length (take (plain x) x) = plain x) as Hlt by (rewrite length_take; lia).
  pose proof (wpc_unescape_loop l p0 tail (S n) w (drop (plain x) x) (take (plain x) x) []) as HL.
  rewrite Hlt Nat.add_0_r in HL. iApply (HL with "Hl"); [by apply Forall_drop|rewrite length_drop; lia|].
  fold (unescaped x). iIntros (mid [Hl Hne]) "Hl". destruct mid as [|v mid]; [done|].
  iApply (wpc_store with "Hl"). { rewrite (length_app p0) (length_app (VInt <$> _)) length_fmap. cbn [app length]. lia. }
  rewrite (app_assoc p0) insert_mid; [|rewrite length_app length_fmap; lia]. iIntros "Hl".
  iApply ("HΦ" $! mid _ with "[Hl]"). { unfold str_cells. by rewrite -!app_assoc. }
  Unshelve. rewrite length_drop in Hl. cbn [length] in Hl. lia.
Qed.
End escapes.

(** A text in which some characters are written as [%] and two digits. *)
Definition hex_char (up : bool) (n : Z) : Z := if n <? 10 then 48 + n else (if up then 55 else 87) + n.
Inductive encodes : list Z -> list Z -> Prop :=
  | enc_nil : encodes [] []
  | enc_plain c s x : c <> 37 -> c <> 43 -> encodes s x -> encodes (c :: s) (c :: x)
  | enc_escape c u1 u2 s x : is_byte c -> encodes s x -> encodes (c :: s) (37 :: hex_char u1 (c / 16) :: hex_char u2 (c mod 16) :: x).

Lemma hex_value_char up n : 0 <= n < 16 -> hex_value (hex_char up n) = n.
Proof.
  intros Hn. assert (n ∈ seqZ 0 16) as Hi by (apply elem_of_seqZ; lia). clear Hn. revert n Hi.
  apply Forall_forall. destruct up; by_compute.
Qed.
Lemma hex_value_pair c u1 u2 : is_byte c -> u8 (u8 (hex_value (hex_char u1 (c / 16)) * 16) + hex_value (hex_char u2 (c mod 16))) = c.
Proof.
  unfold is_byte. intros Hc. assert (0 <= c / 16 < 16) as Hh by (split; [apply Z.div_pos; lia|apply Z.div_lt_upper_bound; lia]).
  pose proof (Z.mod_pos_bound c 16 ltac:(lia)) as Hl. pose proof (Z.div_mod c 16 ltac:(lia)) as Hdm.
  rewrite !hex_value_char //. unfold u8. rewrite !wrapu_small; lia.
Qed.
Lemma unescape_encodes s x : encodes s x -> unescape x = s.
Proof.
  induction 1 as [|c s x H1 H2 _ IH|c u1 u2 s x Hc _ IH]; cbn [unescape]; [done| |].
  - rewrite (proj2 (Z.eqb_neq c 43)) // (proj2 (Z.eqb_neq c 37)) //. by rewrite IH.
  - cbn [Z.eqb Pos.eqb]. by rewrite hex_value_pair // IH.
Qed.
Lemma unescaped_encodes s x : encodes s x -> unescaped x = s.
Proof.
  induction 1 as [|c s x H1 H2 _ IH|c u1 u2 s x Hc Hx _]; [done| |].
  - unfold unescaped in *. cbn [plain]. rewrite (proj2 (Z.eqb_neq c 37)) //. cbn [take drop app]. by f_equal.
  - apply (unescape_encodes (c :: s)). by constructor.
Qed.

(** ** Proofs: the request *)

Record message := mk_message {
  m_method : list Z; m_target : list Z; m_prot : list Z; m_headers : list (list Z * list Z); m_body : list Z }.

Definition line (h : list Z * list Z) : list Z := h.1 ++ [58; 32] ++ h.2 ++ CRLF.
Definition message_text (m : message) : list Z :=
  m_method m ++ 32 :: m_target m ++ 32 :: m_prot m ++ CRLF ++ (m_headers m ≫= line) ++ CRLF ++ m_body m.

Definition token (d t : list Z) : Prop := t <> [] /\ Forall (fun c => c <> 0 /\ c ∉ d) t.
Definition good_header (h : list Z * list Z) : Prop :=
  token KEY_END h.1 /\ token CRLF h.2 /\ head h.2 <> Some 32.

(** A request as a browser writes it, with at most 16 header lines. *)
Record good_message (m : message) : Prop := mk_good {
  g_method : token SP_TAB_CRLF (m_method m);
  g_target : m_target m <> [] /\ Forall target_char (m_target m);
  g_prot : token SP_TAB_CRLF (m_prot m);
  g_headers : Forall good_header (m_headers m) /\ (length (m_headers m) <= 16)%nat;
  g_body : no_nul (m_body m) /\ (m_headers m = [] -> m_body m = []) }.

(** The entries of the table hold the header lines. *)
Definition kept (l : nat) (b : list val) : list (ptr * ptr) -> list (list Z * list Z) -> Prop :=
  Forall2 (fun e h => exists ok ov, e = (Some (l, ok), Some (l, ov)) /\ str_in b ok h.1 /\ str_in b ov h.2).

Section headers.
Implicit Types (w : world) (pre junk b : list val) (x y : list Z) (hs : list (list Z * list Z)).

Lemma kept_mono l b r h hs : kept l b h hs -> kept l (b ++ r) h hs.
Proof. intros H. eapply Forall2_impl; [done|]. intros e kv (ok & ov & -> & H1 & H2). exists ok, ov. auto using str_in_mono. Qed.

Lemma token_parts d t : token d t -> t <> [] /\ no_nul t /\ Forall (fun c => c ∉ d) t.
Proof. intros [H1 H2]. split_and!; [done|..]; (eapply Forall_impl; [done|]); by intros c []. Qed.

Lemma length_buffer pre rest junk : length (buffer pre rest junk) = (length pre + length rest + 1 + length junk)%nat.
Proof. unfold buffer. rewrite !length_app length_fmap /=. lia. Qed.
Lemma buffer_lookup pre rest junk j c : rest !! j = Some c -> buffer pre rest junk !! (length pre + j)%nat = Some (VInt c).
Proof.
  intros Hj. pose proof (lookup_lt_Some _ _ _ Hj). unfold buffer. rewrite lookup_app_r; [|lia].
  replace (_ - _)%nat with j by lia. rewrite lookup_app_l; [|by rewrite length_fmap]. by rewrite list_lookup_fmap Hj.
Qed.

Lemma wpc_skip_blanks l b off v fuel w Φ : str_in b off (32 :: v) -> v <> [] -> head v <> Some 32 -> (2 <= fuel)%nat ->
  l ↦ b -∗ (l ↦ b -∗ Φ (Some (l, (off + 1)%nat)) w) -∗ wpc (skip_blanks fuel (Some (l, off))) w Φ.
Proof.
  iIntros (Hs Hne Hh Hf) "Hl HΦ". destruct fuel as [|[|f]]; [lia..|]. destruct v as [|c v]; [done|]. cbn [skip_blanks].
  change 0 with (Z.of_nat 0). wpc_bind. iApply (wpc_load_int with "Hl"); [by apply (str_in_get _ _ _ 0%nat _ Hs)|]. iIntros "Hl".
  cbn [Z.eqb negb andb Pos.eqb offset fmap option_fmap option_map]. wpc_bind. iApply (wpc_load_int _ _ 0%nat with "Hl").
  { rewrite Nat.add_0_r. by apply (str_in_get _ _ _ 1%nat _ Hs). }
  iIntros "Hl". assert (c =? 32 = false) as -> by (apply Z.eqb_neq; intros ->; by apply Hh). rewrite andb_false_r.
  wpc_ret. by iApply "HΦ".
Qed.

(** The last call of [strtok]: whatever it finds, what was cut before it is kept. *)
Lemma wpc_strtok_rest l pre rest junk d w Φ : strtok_next w = Some (l, length pre) -> no_nul rest ->
  l ↦ buffer pre rest junk -∗
  (∀ b p (_ : forall off x, str_in pre off x -> str_in b off x), l ↦ b -∗
     Φ (if (strspn d rest =? length rest)%nat then NULL else Some (l, (length pre + strspn d rest)%nat)) (going_on w p)) -∗
  wpc (strtok NULL d) w Φ.
Proof.
  iIntros (Hp Hn) "Hl HΦ". unfold strtok. wpc_bind. iApply wpc_get_files. unfold tok_start. rewrite Hp.
  wpc_bind. iApply (wpc_read_string with "Hl"); [by apply str_in_buffer|]. iIntros "Hl". cbv zeta.
  assert (forall b', (exists j v, b' = buffer pre rest junk \/ b' = <[(length pre + j)%nat := v]> (buffer pre rest junk)) ->
    forall off x, str_in pre off x -> str_in b' off x) as Hk.
  { intros b' (j & v & [->| ->]) off x Hx; [by apply str_in_mono|]. pose proof (str_in_length _ _ _ Hx).
    apply str_in_insert; [by apply str_in_mono|lia]. }
  destruct (_ =? _)%nat eqn:E1.
  - wpc_bind. iApply wpc_put_files. wpc_ret. iApply ("HΦ" $! _ NULL _ with "Hl"). Unshelve. apply Hk. exists 0%nat, VUndef. by left.
  - destruct (_ =? length rest)%nat eqn:E2 in |- *; wpc_bind.
    + iApply wpc_put_files. wpc_ret. iApply ("HΦ" $! _ NULL _ with "Hl"). Unshelve. apply Hk. exists 0%nat, VUndef. by left.
    + apply Nat.eqb_neq in E1, E2. iApply (wpc_store with "Hl").
      { rewrite length_buffer. enough (strspn d rest + strcspn d (drop (strspn d rest) rest) <= length rest)%nat by lia.
        pose proof (strspn_le d rest). pose proof (strcspn_le d (drop (strspn d rest) rest)) as H2. rewrite length_drop in H2. lia. }
      iIntros "Hl". wpc_bind. iApply wpc_put_files. wpc_ret. iApply ("HΦ" $! _ _ _ with "Hl"). Unshelve. apply Hk. eexists _, _. by right.
Qed.

Lemma lines_no_nul hs body : Forall good_header hs -> no_nul body -> no_nul ((hs ≫= line) ++ CRLF ++ body).
Proof.
  intros Hgs Hb. apply Forall_app_2; [|apply Forall_app_2; [repeat constructor|]; done].
  induction Hgs as [|[k v] hs (H1 & H2 & _) _ IH]; [constructor|].
  apply token_parts in H1 as (_ & H1 & _). apply token_parts in H2 as (_ & H2 & _).
  rewrite bind_cons. unfold line at 1. cbn [fst snd]. repeat (apply Forall_app_2 || apply Forall_cons_2); done.
Qed.

(** The loop over the header lines. *)
Lemma wpc_headers l junk body hs : no_nul body -> Forall good_header hs -> hs <> [] ->
  forall left pre h done_ w Φ, (length hs <= left)%nat -> kept l pre h done_ -> strtok_next w = Some (l, length pre) ->
  l ↦ buffer pre (10 :: (hs ≫= line) ++ CRLF ++ body) junk -∗
  (∀ pre' h' (_ : kept l pre' h' (done_ ++ hs) /\ (forall off x, str_in pre off x -> str_in pre' off x) /\
       (length pre' + 3 + length body = length pre + 1 + length ((hs ≫= line) ++ CRLF ++ body))%nat),
     l ↦ buffer pre' (10 :: CRLF ++ body) junk -∗ Φ h' (going_on w (Some (l, length pre')))) -∗
  wpc (headers left h) w Φ.
Proof.
  intros Hb. induction 1 as [|[k v] hs Hg Hgs IH]; [done|]. intros _ left pre h done_ w Φ Hleft Hk Hnx. iIntros "Hl HΦ".
  destruct left as [|left]; [cbn in Hleft; lia|]. cbn [headers]. destruct Hg as (Hk1 & Hv1 & Hv2). cbn [fst snd] in *.
  apply token_parts in Hk1 as (Kne & Kn & Kd). apply token_parts in Hv1 as (Vne & Vn & Vd).
  pose proof (lines_no_nul hs body Hgs Hb) as Hrest.
  rewrite bind_cons. unfold line at 1. cbn [fst snd]. wpc_bind.
  replace (10 :: ((k ++ [58; 32] ++ v ++ CRLF) ++ (hs ≫= line)) ++ CRLF ++ body)
    with ([10] ++ k ++ 58 :: (32 :: v) ++ 13 :: 10 :: (hs ≫= line) ++ CRLF ++ body) by (by rewrite -!app_assoc).
  iApply (wpc_strtok_cut with "Hl"); [by right|by_compute|done|done|by_compute| |].
  { repeat (exact Hrest || apply Forall_cons_2 || apply Forall_app_2); done. }
  iIntros "Hl". set (pre1 := pre ++ _). wpc_bind.
  iApply (wpc_strtok_cut NULL l pre1 [] (32 :: v) 13 with "Hl"); [by right|constructor|done|constructor; [by_compute|done]|by_compute| |].
  { repeat (exact Hrest || apply Forall_cons_2 || apply Forall_app_2); done. }
  iIntros "Hl". cbn [fmap list_fmap app length]. rewrite Nat.add_0_r. set (pre2 := pre1 ++ str_cells _).
  assert (str_in pre2 (length pre1) (32 :: v)) as Sv.
  { unfold pre2, str_cells. apply (str_in_app pre1 (32 :: v) []). by constructor. }
  assert (str_in pre2 (length pre1 + 1) v) as Sv1 by (apply (str_in_drop _ _ _ 1 Sv); cbn; lia).
  assert (str_in pre2 (length pre + 1) k) as Sk by (apply str_in_mono, (str_in_token pre [10] k Kn)).
  assert (length pre2 = length pre1 + 1 + (1 + length v))%nat as L2 by (unfold pre2; rewrite (length_app pre1) length_str_cells; cbn [length]; lia).
  assert (length pre1 = length pre + 2 + length k)%nat as L1 by (unfold pre1; rewrite (length_app pre) (length_app (VInt <$> _)) length_str_cells; cbn; lia).
  wpc_bind. iApply (wpc_room with "Hl"). iIntros "Hl". rewrite length_buffer. wpc_bind.
  set (B := buffer pre2 _ junk). assert (forall off x, str_in pre2 off x -> str_in B off x) as HB by (intros; by apply str_in_mono).
  iApply (wpc_skip_blanks with "Hl"); [by apply HB|done|done|lia|]. iIntros "Hl".
  wpc_bind. iApply (wpc_read_string with "Hl"); [by apply HB|]. iIntros "Hl".
  wpc_bind. iApply (wpc_strlen with "Hl"); [by apply HB|]. iIntros "Hl". cbv zeta. rewrite Nat2Z.id.
  cbn [offset fmap option_fmap option_map]. rewrite -L2.
  assert (kept l pre2 (h ++ [(Some (l, (length pre + 1)%nat), Some (l, (length pre1 + 1)%nat))]) (done_ ++ [(k, v)])) as Hk2.
  { apply Forall2_app; [|by constructor; [exists (length pre + 1)%nat, (length pre1 + 1)%nat|]].
    unfold pre2, pre1. rewrite -app_assoc. by apply kept_mono. }
  assert (forall off x, str_in pre off x -> str_in pre2 off x) as Hpre.
  { intros off x Hx. unfold pre2, pre1. rewrite -app_assoc. by apply str_in_mono. }
  assert (exists c, (hs ≫= line) ++ CRLF ++ body = c :: tail ((hs ≫= line) ++ CRLF ++ body) /\ (c = 13 <-> hs = [])) as (c & Hc & Hc13).
  { destruct Hgs as [|[k' v'] hs' (Hk' & _) _]; [by exists 13|]. apply token_parts in Hk' as (H1 & _ & H3). cbn [fst] in *.
    destruct k' as [|c k']; [done|]. exists c. split; [done|]. split; [|done]. intros ->. apply Forall_cons in H3 as [H3 _]. by destruct H3; by_compute. }
  wpc_bind. change 1 with (Z.of_nat 1) at 1. iApply (wpc_load_int with "Hl"); [apply buffer_lookup; by rewrite Hc|]. iIntros "Hl".
  destruct hs as [|h2 hs].
  - cbn [mbind list_bind app] in *. rewrite (proj2 Hc13 eq_refl) Z.eqb_refl. wpc_bind. wpc_bind. change 2 with (Z.of_nat 2).
    iApply (wpc_load_int with "Hl"); [by apply buffer_lookup|]. iIntros "Hl". wpc_ret. rewrite Z.eqb_refl. wpc_ret.
    unfold going_on. cbn [stdin stdout]. iApply ("HΦ" $! pre2 _ _ with "Hl"). Unshelve.
    split_and!; [done|done|]. rewrite L2 L1 !length_app. cbn. lia.
  - rewrite (proj2 (Z.eqb_neq c 13)); [|by intros Hx%Hc13]. wpc_bind. wpc_ret.
    iApply (IH with "Hl"); [done|cbn [length] in *; lia|exact Hk2|done|].
    iIntros (pre' h' (H1 & H2 & H3)) "Hl". iApply ("HΦ" $! pre' h' _ with "Hl"). Unshelve.
    split_and!; [by rewrite -app_assoc in H1|by intros off x Hx; apply H2, Hpre|].
    rewrite L2 L1 in H3. rewrite !length_app in H3. rewrite !length_app. cbn in H3 |- *. lia.
Qed.
End headers.

(** The value of the first header line of a name. *)
Definition value_of (name : list Z) (hs : list (list Z * list Z)) : option (list Z) :=
  snd <$> head (filter (fun h => h.1 = name) hs).

(** The table, also when there was no header line: it then still has its empty entry. *)
Definition table (l le : nat) (b : list val) (h : list (ptr * ptr)) (hs : list (list Z * list Z)) : Prop :=
  kept l b h hs /\ hs <> [] \/ hs = [] /\ h = [(Some (le, 0%nat), Some (le, 0%nat))].

(** The path of a target: decoded, up to a question mark. *)
Definition path (x : list Z) : list Z := (until 63 (c_chars (unescaped x))).1.

Section parse.
Implicit Types (w : world) (pre junk b : list val) (x y : list Z) (hs : list (list Z * list Z)).

(** What [request_header] finds. *)
Definition found (l : nat) (b : list val) (name : list Z) (hs : list (list Z * list Z)) (p : ptr) : Prop :=
  match value_of name hs with Some v => exists o, p = Some (l, o) /\ str_in b o v | None => p = NULL end.

Lemma wpc_request_header l le b h hs name w Φ : table l le b h hs -> name <> [] ->
  l ↦ b -∗ le ↦ [VInt 0] -∗
  (∀ p (_ : found l b name hs p), l ↦ b -∗ le ↦ [VInt 0] -∗ Φ p w) -∗ wpc (request_header h name) w Φ.
Proof.
  iIntros (Ht Hn) "Hl Hle HΦ". destruct Ht as [[Hk _]|[-> ->]].
  - iInduction Hk as [|e kv h hs (ok & ov & -> & H1 & H2) _] "IH"; cbn [request_header].
    + wpc_ret. by iApply ("HΦ" $! NULL _ with "Hl Hle"). Unshelve. done.
    + wpc_bind. iApply (wpc_read_string with "Hl"); [done|]. iIntros "Hl". case_bool_decide as E.
      * wpc_ret. iApply ("HΦ" $! _ _ with "Hl Hle"). Unshelve. unfold found, value_of. rewrite filter_cons decide_True //. by exists ov.
      * iApply ("IH" with "Hl Hle"). iIntros (p Hp) "Hl Hle". iApply ("HΦ" $! p _ with "Hl Hle"). Unshelve.
        unfold found, value_of. by rewrite filter_cons decide_False.
  - cbn [request_header]. wpc_bind. iApply (wpc_read_string with "Hle"); [by apply (str_in_cells []); constructor|]. iIntros "Hle".
    rewrite bool_decide_false; [|done]. wpc_ret. iApply ("HΦ" $! NULL _ with "Hl Hle"). Unshelve. done.
Qed.

Lemma cell_string_chars y r : cell_string ((VInt <$> y) ++ VInt 0 :: r) = Ok (c_chars y).
Proof. induction y as [|c y IH]; [done|]. cbn. destruct (c =? 0); [done|]. by rewrite IH. Qed.

(** Cutting the query off. *)
Lemma wpc_query {A} l b off y (k : ptr -> C A) w Φ : str_in b off y ->
  l ↦ b -∗
  (∀ b' q (_ : str_in b' off (until 63 y).1 /\ (b' = b \/ exists j, (off <= j < off + length y)%nat /\ b' = <[j := VInt 0]> b)),
     l ↦ b' -∗ wpc (k q) w Φ) -∗
  wpc (q ← strchr (Some (l, off)) 63;
       qs ← match q with
            | Some _ => store q 0 (VInt 0);; mret (offset q 1)
            | None => mret ((fun '(l, off) => (l, pred off)) <$> Some (l, off))
            end; k qs) w Φ.
Proof.
  iIntros (Hy) "Hl HΦ". wpc_bind. unfold strchr. wpc_bind. iApply (wpc_read_string with "Hl"); [done|]. iIntros "Hl".
  destruct (until 63 y) as [z more] eqn:E. pose proof (until_prefix 63 y z more E) as (Hz & Hle & _ & Hm & Hf). wpc_ret.
  destruct more; cbn [offset fmap option_fmap option_map fst]; wpc_bind.
  - pose proof (lookup_lt_Some _ _ _ (Hm eq_refl)) as Hlt. wpc_bind. iApply (wpc_store _ _ 0%nat with "Hl").
    { pose proof (str_in_length _ _ _ Hy). lia. }
    rewrite Nat.add_0_r. iIntros "Hl". wpc_ret. iApply ("HΦ" $! _ _ _ with "Hl"). Unshelve. split.
    + rewrite {2}Hz. by apply str_in_cut.
    + right. exists (off + length z)%nat. split; [lia|done].
  - wpc_ret. iApply ("HΦ" $! _ _ _ with "Hl"). Unshelve. rewrite (Hf eq_refl). split; [done|by left].
Qed.

Lemma str_in_front b r off x : str_in (b ++ r) off x -> (off + length x < length b)%nat -> str_in b off x.
Proof.
  intros (H1 & H2 & H3)%str_in_iff Hl. apply str_in_iff. split_and!; [done| |by rewrite lookup_app_l in H3].
  intros j c Hj. pose proof (lookup_lt_Some _ _ _ Hj). specialize (H2 j c Hj). by rewrite lookup_app_l in H2; [|lia].
Qed.

(** The first line, the target decoded and its query cut off. *)
Lemma wpc_first_line {A} l m rest junk w Φ (k : ptr -> ptr -> ptr -> ptr -> C A) : good_message m -> no_nul (10 :: rest) ->
  l ↦ buffer [] (m_method m ++ 32 :: m_target m ++ 32 :: m_prot m ++ 13 :: 10 :: rest) junk -∗
  (∀ pre ou q pr (_ : str_in pre 0 (m_method m) /\ str_in pre ou (path (m_target m)) /\
       length pre = (length (m_method m) + length (m_target m) + length (m_prot m) + 3)%nat),
     l ↦ buffer pre (10 :: rest) junk -∗ wpc (k (Some (l, 0%nat)) (Some (l, ou)) q pr) (going_on w (Some (l, length pre))) Φ) -∗
  wpc (method ← strtok (Some (l, 0%nat)) SP_TAB_CRLF;
       uri ← strtok NULL SP_TAB;
       prot ← strtok NULL SP_TAB_CRLF;
       uri_unescape uri;;
       read_string method;; read_string uri;;
       q ← strchr uri 63;
       qs ← match q with
            | Some _ => store q 0 (VInt 0);; mret (offset q 1)
            | None => mret ((fun '(l, off) => (l, pred off)) <$> uri)
            end;
       k method uri qs prot) w Φ.
Proof.
  iIntros (Hg Hr) "Hl HΦ". destruct Hg as [Gm [Gu1 Gu2] Gp _ _]. destruct m as [m u p hs body]. cbn [m_method m_target m_prot] in *.
  apply token_parts in Gm as (M1 & M2 & M3). apply token_parts in Gp as (P1 & P2 & P3). pose proof (target_no_nul _ Gu2) as U2.
  assert (Forall (fun c => c ∉ SP_TAB) u) as U3.
  { eapply Forall_impl; [exact Gu2|]. intros c [_ Hc] Hin. unfold SP_TAB in Hin. apply elem_of_cons in Hin as [->|Hin]; [done|].
    apply list_elem_of_singleton in Hin as ->. done. }
  wpc_bind. iApply (wpc_strtok_cut _ l [] [] m 32 with "Hl"); [by left|constructor|done|done|by_compute| |].
  { repeat (exact Hr || apply Forall_cons_2 || apply Forall_app_2); done. }
  iIntros "Hl". cbn [app fmap list_fmap length Nat.add]. wpc_bind.
  iApply (wpc_strtok_cut NULL l (str_cells m) [] u 32 with "Hl"); [by right|constructor|done|done|by_compute| |].
  { repeat (exact Hr || apply Forall_cons_2 || apply Forall_app_2); done. }
  iIntros "Hl". cbn [app fmap list_fmap length]. rewrite Nat.add_0_r. wpc_bind.
  iApply (wpc_strtok_cut NULL l (str_cells m ++ str_cells u) [] p 13 with "Hl"); [by right|constructor|done|done|by_compute| |].
  { repeat (exact Hr || apply Forall_cons_2 || apply Forall_app_2); done. }
  iIntros "Hl". cbn [app fmap list_fmap].
  replace (buffer ((str_cells m ++ str_cells u) ++ str_cells p) (10 :: rest) junk)
    with (str_cells m ++ str_cells u ++ str_cells p ++ (VInt <$> 10 :: rest) ++ VInt 0 :: junk)
    by (unfold buffer; generalize (str_cells m) (str_cells u) (str_cells p); intros; by rewrite -!app_assoc).
  wpc_bind. iApply (wpc_uri_unescape with "Hl"); [done|]. iIntros (mid Hmid) "Hl". set (y := unescaped u) in *.
  set (pre := str_cells m ++ str_cells y ++ mid ++ str_cells p).
  assert (length pre = length m + length u + length p + 3)%nat as Hlen by (unfold pre; rewrite (length_app (str_cells m)) (length_app (str_cells y)) (length_app mid) !length_str_cells; lia).
  assert (str_in pre (length (str_cells m)) (c_chars y)) as Sy.
  { unfold str_in, pre. rewrite drop_app_length. unfold str_cells at 1. rewrite -app_assoc. apply cell_string_chars. }
  assert (str_in pre 0 m) as Sm by (apply str_in_mono; by apply str_in_cells).
  replace (str_cells m ++ str_cells y ++ mid ++ str_cells p ++ (VInt <$> 10 :: rest) ++ VInt 0 :: junk)
    with (buffer pre (10 :: rest) junk)
    by (unfold buffer, pre; generalize (str_cells m) (str_cells y) (str_cells p); intros; by rewrite -!app_assoc).
  wpc_bind. iApply (wpc_read_string with "Hl"); [by apply str_in_mono|]. iIntros "Hl".
  wpc_bind. iApply (wpc_read_string with "Hl"); [by apply str_in_mono|]. iIntros "Hl".
  iApply (wpc_query with "Hl"); [by apply str_in_mono|]. iIntros (b' q [Hq Hb]) "Hl".
  pose proof (str_in_length _ _ _ Sy) as Hly.
  assert (exists pre', b' = buffer pre' (10 :: rest) junk /\ length pre' = length pre /\ str_in pre' 0 m) as (pre' & -> & Hpl & Sm').
  { destruct Hb as [->|(j & Hj & ->)]; [by exists pre|]. exists (<[j := VInt 0]> pre).
    unfold buffer. rewrite insert_app_l; [|lia]. split_and!; [done|by rewrite length_insert|].
    apply str_in_insert; [done|]. rewrite length_str_cells in Hj. lia. }
  assert (length ((str_cells m ++ str_cells u) ++ str_cells p) = length pre') as ->
    by (rewrite !(length_app _ (str_cells _)) !length_str_cells; lia).
  unfold going_on. cbn [stdin stdout]. iApply ("HΦ" $! pre' _ _ _ _ with "Hl"). Unshelve.
  split_and!; [done| |lia]. apply (str_in_front _ _ _ _ Hq). unfold path. fold y.
  destruct (until 63 (c_chars y)) as [z more] eqn:Ez. destruct (until_prefix _ _ _ _ Ez) as (_ & Hle & _). cbn [fst]. lia.
Qed.

(** The number the code computes as the size of the payload. *)
Definition size_of (m : message) : option Z :=
  match value_of (chars "Content-Length") (m_headers m) with
  | Some v => Some (s32 (strtol v).1)
  | None =>
      let n := strspn CRLF (m_body m) in
      if (n =? length (m_body m))%nat then None else Some (s32 (Z.of_nat (length (m_body m) - n)))
  end.

(** What the parser has found. *)
Definition parsed (l le : nat) (b : list val) (m : message) (r : request) : Prop :=
  (exists om, method r = Some (l, om) /\ str_in b om (m_method m)) /\
  (exists ou, uri r = Some (l, ou) /\ str_in b ou (path (m_target m))) /\
  table l le b (reqhdr r) (m_headers m).

(** The header lines and the payload. *)
Lemma wpc_rest l le m pre junk w meth ur q pr Φ (N := length (message_text m)) : good_message m -> strtok_next w = Some (l, length pre) ->
  (length pre + 1 + length ((m_headers m ≫= line) ++ CRLF ++ m_body m) = N)%nat ->
  l ↦ buffer pre (10 :: (m_headers m ≫= line) ++ CRLF ++ m_body m) junk -∗ le ↦ [VInt 0] -∗
  (∀ b r p (_ : (forall off x, str_in pre off x -> str_in b off x) /\ table l le b (reqhdr r) (m_headers m) /\
      payload_size r = size_of m /\ method r = meth /\ uri r = ur),
    l ↦ b -∗ le ↦ [VInt 0] -∗ Φ r (going_on w p)) -∗
  wpc (h ← headers 16 [];
       let reqhdr := match h with [] => [(Some (le, 0%nat), Some (le, 0%nat))] | _ => h end in
       t ← strtok NULL CRLF;
       t2 ← request_header reqhdr (chars "Content-Length");
       size ← match t2 with
              | Some _ => x ← read_string t2; mret (Some (s32 (strtol x).1))
              | None => mret ((fun d => s32 (Z.of_nat N - d)) <$> distance t)
              end;
       mret (mk_request meth ur q pr t size reqhdr)) w Φ.
Proof.
  iIntros (Hg Hw HN) "Hl Hle HΦ". destruct Hg as [_ _ _ [Gh1 Gh2] [Gb1 Gb2]]. unfold size_of. destruct m as [m u p hs body].
  cbn [m_method m_target m_prot m_headers m_body] in *. wpc_bind. destruct (decide (hs = [])) as [->|Hne].
  - specialize (Gb2 eq_refl) as ->. cbn [mbind list_bind app]. cbn [headers]. wpc_bind.
    iApply (wpc_strtok_none with "Hl"); [done|by_compute|by_compute|]. iIntros "Hl". wpc_ret. cbv zeta. wpc_bind.
    unfold strtok. wpc_bind. iApply wpc_get_files. cbn [tok_start NULL strtok_next going_on]. wpc_ret. wpc_bind.
    iApply (wpc_request_header l le _ _ [] with "Hl Hle"); [by right|done|]. iIntros (t2 Ht2) "Hl Hle". cbn in Ht2. subst t2.
    wpc_bind. wpc_ret. wpc_ret. iApply ("HΦ" $! _ _ _ _ with "Hl Hle"). Unshelve.
    split_and!; try done; [by intros; apply str_in_mono|by right].
  - iApply (wpc_headers l junk body hs Gb1 Gh1 Hne 16 pre [] [] with "Hl"); [done|constructor|done|].
    iIntros (pre' h (Hk & Hp & HL)) "Hl". cbv zeta. cbn [app] in Hk.
    replace (match h with [] => _ | _ => h end) with h by (by destruct Hk). wpc_bind.
    assert (strspn CRLF (10 :: CRLF ++ body) = (3 + strspn CRLF body)%nat) as Hsp by reflexivity.
    iApply (wpc_strtok_rest with "Hl"); [done|repeat constructor; done|]. iIntros (b p' Hb) "Hl". rewrite Hsp.
    assert (kept l b h hs) as Hkb.
    { eapply Forall2_impl; [exact Hk|]. intros e kv (ok & ov & -> & H1 & H2). exists ok, ov. auto. }
    wpc_bind. iApply (wpc_request_header l le b h hs with "Hl Hle"); [by left|done|]. iIntros (t2 Ht2) "Hl Hle". unfold found in Ht2.
    destruct (value_of _ hs) as [v|].
    + destruct Ht2 as (o & -> & Hv). wpc_bind. wpc_bind. iApply (wpc_read_string with "Hl"); [done|]. iIntros "Hl". wpc_ret. wpc_ret.
      iApply ("HΦ" $! b _ p' _ with "Hl Hle"). Unshelve. split_and!; try done; [by intros off x Hx; apply Hb, Hp|by left].
    + subst t2. wpc_bind. wpc_ret. wpc_ret. iApply ("HΦ" $! b _ p' _ with "Hl Hle"). Unshelve.
      split_and!; try done; [by intros off x Hx; apply Hb, Hp|by left|]. cbn [payload_size length].
      destruct (strspn CRLF body =? length body)%nat eqn:E.
      * apply Nat.eqb_eq in E. rewrite (proj2 (Nat.eqb_eq _ _)); [done|]. rewrite E length_app. cbn. lia.
      * apply Nat.eqb_neq in E. rewrite (proj2 (Nat.eqb_neq _ _)); [|rewrite length_app; cbn; lia].
        cbn [distance fmap option_fmap option_map]. do 2 f_equal.
        pose proof (strspn_le CRLF body). lia.
Qed.

Lemma wpc_parse l le m junk w Φ : good_message m ->
  l ↦ buffer [] (message_text m) junk -∗ le ↦ [VInt 0] -∗
  (∀ b r p (_ : parsed l le b m r /\ payload_size r = size_of m), l ↦ b -∗ le ↦ [VInt 0] -∗ Φ r (going_on w p)) -∗
  wpc (parse (Some (le, 0%nat)) (Some (l, 0%nat)) (Z.of_nat (length (message_text m)))) w Φ.
Proof.
  iIntros (Hg) "Hl Hle HΦ". unfold parse. iApply (wpc_first_line with "[Hl]"); [done| | |].
  - destruct Hg as [_ _ _ [G1 _] [G2 _]]. constructor; [done|]. by apply lines_no_nul.
  - unfold message_text. iExact "Hl".
  - iIntros (pre ou q pr (H1 & H2 & H3)) "Hl". iApply (wpc_rest with "Hl Hle"); [done|done| |].
    + unfold message_text. repeat (rewrite length_app || rewrite length_cons). cbn [length CRLF]. lia.
    + iIntros (b r p (K1 & K2 & K3 & K4 & K5)) "Hl Hle". iApply ("HΦ" $! b r p _ with "Hl Hle"). Unshelve.
      unfold parsed. split_and!; try done; eexists; (split; [done|by apply K1]).
Qed.
End parse.

(** ** Proofs: the answer *)

(** The answer to a request; there is none when the text of the route needs a header line
    that was not sent. *)
Definition reply (index : option (list Z)) (m : message) : option (list Z) :=
  if bool_decide (path (m_target m) = chars "/") && bool_decide (m_method m = chars "GET") then
    match index with
    | Some x => Some (chars "HTTP/1.1 200 OK" ++ [10; 10] ++ x)
    | None =>
        (fun ua => chars "HTTP/1.1 200 OK" ++ [10; 10] ++ chars "Hello! You are using " ++ ua ++ [10; 10])
          <$> value_of (chars "User-Agent") (m_headers m)
    end
  else Some (chars "HTTP/1.1 500 Internal Server Error" ++ [10; 10]).

Section answer.
Implicit Types (w : world) (junk b : list val) (x y : list Z).

Lemma wpc_read_file fuel x w Φ : (length x < fuel)%nat -> Φ tt (says w x) ⊢ wpc (read_file fuel x) w Φ.
Proof.
  revert x w. induction fuel as [|f IH]; intros x w Hf; [lia|]. iIntros "HΦ". cbn [read_file].
  destruct x as [|c x]; [cbn [take]; wpc_ret; by rewrite says_nil|].
  assert (exists y, take 1024 (c :: x) = c :: y) as [y Hy] by (by eexists). rewrite Hy. wpc_bind. iApply wpc_says.
  rewrite -Hy. iApply IH; [rewrite length_drop; cbn [length] in *; lia|]. by rewrite says_says take_drop.
Qed.

Lemma wpc_route l le b m r index y w Φ : parsed l le b m r -> reply index m = Some y ->
  l ↦ b -∗ le ↦ [VInt 0] -∗ (l ↦ b -∗ le ↦ [VInt 0] -∗ Φ tt (says w y)) -∗ wpc (route index r) w Φ.
Proof.
  iIntros ((H1 & H2 & Ht) Hy) "Hl Hle HΦ". destruct r as [me ur q pr pl sz rh]. cbn [method uri reqhdr] in *.
  destruct H1 as (om & -> & Sm), H2 as (ou & -> & Su).
  unfold route, reply in *. wpc_bind. iApply (wpc_read_string with "Hl"); [done|]. iIntros "Hl". wpc_bind.
  case_bool_decide as E1; [wpc_bind; iApply (wpc_read_string with "Hl"); [done|]; iIntros "Hl"; wpc_ret; case_bool_decide as E2|];
    cbn [andb] in Hy; [| |wpc_ret]; try (injection Hy as <-; iApply wpc_says; iApply ("HΦ" with "Hl Hle")).
  wpc_bind. iApply wpc_new_block. iIntros (li) "Hi". wpc_bind. iApply (wpc_write_cells with "Hi"); [vm_compute; lia|]. iIntros "Hi".
  wpc_bind. iApply wpc_says. wpc_bind. destruct index as [x|].
  - injection Hy as <-. iApply wpc_read_file; [lia|]. iApply (wpc_free with "Hi"). rewrite says_says. by iApply ("HΦ" with "Hl Hle").
  - wpc_bind. iApply (wpc_request_header with "Hl Hle"); [done|done|]. iIntros (ua Hua) "Hl Hle". unfold found in Hua.
    destruct (value_of _ _) as [v|]; [|done]. injection Hy as <-. destruct Hua as (o & -> & Hv).
    wpc_bind. iApply wpc_says. wpc_bind. iApply (wpc_emit_string with "Hl"); [done|]. iIntros "Hl". iApply wpc_says.
    iApply (wpc_free with "Hi"). fold (says (says (says w (chars "HTTP/1.1 200 OK" ++ [10; 10])) (chars "Hello! You are using ")) v).
    rewrite !says_says -!app_assoc. by iApply ("HΦ" with "Hl Hle").
Qed.

Lemma wpe_read_null (P : hprop) w : P ⊢ wpe (read_string NULL) w NullDeref.
Proof. apply (wpe_fail (A := list Z)). Qed.
Lemma wpe_route l le b m r index w : parsed l le b m r -> reply index m = None ->
  l ↦ b ∗ le ↦ [VInt 0] ⊢ wpe (route index r) w NullDeref.
Proof.
  iIntros ((H1 & H2 & Ht) Hy) "[Hl Hle]". destruct r as [me ur q pr pl sz rh]. cbn [method uri reqhdr] in *.
  destruct H1 as (om & -> & Sm), H2 as (ou & -> & Su). unfold route, reply in *.
  case_bool_decide as E1; [|done]. case_bool_decide as E2; [|done]. destruct index as [x|]; [done|]. cbn [andb] in Hy.
  wpe_bind. iApply (wpc_read_string with "Hl"); [done|]. iIntros "Hl". rewrite bool_decide_true; [|done].
  wpe_bind. wpc_bind. iApply (wpc_read_string with "Hl"); [done|]. iIntros "Hl". wpc_ret. rewrite bool_decide_true; [|done].
  wpe_bind. iApply wpc_new_block. iIntros (li) "Hi". wpe_bind. iApply (wpc_write_cells with "Hi"); [vm_compute; lia|]. iIntros "Hi".
  wpe_bind. iApply wpc_says. iApply wpe_bind_err. wpe_bind. iApply (wpc_request_header with "Hl Hle"); [done|done|].
  iIntros (ua Hua) "Hl Hle". unfold found in Hua. destruct (value_of _ _) as [v|]; [done|]. subst ua.
  wpe_bind. iApply wpc_says. iApply wpe_bind_err. iApply wpe_bind_err. iApply wpe_read_null. iCombine "Hl Hle Hi" as "H". iExact "H".
Qed.

(** The received bytes in the buffer. *)
Lemma received_cells n x : (length x < n)%nat ->
  <[length x := VInt 0]> (splice 0 (VInt <$> x) (replicate n VUndef)) = buffer [] x (replicate (n - length x - 1) VUndef).
Proof.
  intros Hx. unfold splice, buffer. cbn [take app Nat.add]. rewrite length_fmap drop_replicate.
  destruct (n - length x)%nat as [|k] eqn:E; [lia|]. cbn [replicate].
  rewrite insert_mid; [|by rewrite length_fmap]. by replace (S k - 1)%nat with k by lia.
Qed.

Lemma wpc_receive {A} l x n (k : C A) w Φ : (length x < n)%nat ->
  l ↦ replicate n VUndef -∗ (l ↦ buffer [] x (replicate (n - length x - 1) VUndef) -∗ wpc k w Φ) -∗
  wpc (write_cells (Some (l, 0%nat)) (VInt <$> x);; store (Some (l, 0%nat)) (Z.of_nat (length x)) (VInt 0);; k) w Φ.
Proof.
  iIntros (Hx) "Hl HΦ". wpc_bind. iApply (wpc_write_cells with "Hl"). { rewrite length_fmap length_replicate. lia. }
  iIntros "Hl". wpc_bind. iApply (wpc_store with "Hl").
  { rewrite length_splice; rewrite ?length_replicate ?length_fmap; lia. }
  rewrite Nat.add_0_l received_cells //.
Qed.

Lemma good_text m : good_message m -> exists c bs, message_text m = c :: bs.
Proof. intros [[H _] _ _ _ _]. unfold message_text. destruct (m_method m) as [|c t]; [done|]. by exists c, (t ++ 32 :: m_target m ++ 32 :: m_prot m ++ CRLF ++ (m_headers m ≫= line) ++ CRLF ++ m_body m). Qed.

Lemma wpc_respond m index y w : good_message m -> (length (message_text m) < BUF_SIZE)%nat -> reply index m = Some y ->
  ⊢ wpc (respond index (Some (message_text m))) w (fun r w' =>
    ⌜exists q p, r = Some q /\ payload_size q = size_of m /\ w' = going_on (says w y) p⌝ ∧ emp).
Proof.
  intros Hg Hlen Hy. iStartProof. unfold respond. wpc_bind. iApply wpc_new_block. iIntros (le) "Hle".
  wpc_bind. iApply wpc_malloc. iIntros (l) "Hl". destruct (good_text m Hg) as (c & bs & E). rewrite E -E. cbv zeta. wpc_bind.
  iApply (wpc_receive with "Hl"); [done|]. iIntros "Hl". wpc_bind. iApply (wpc_parse with "Hl Hle"); [done|].
  iIntros (b r p [Hp Hs]) "Hl Hle". wpc_bind. iApply (wpc_route with "Hl Hle"); [done|done|]. iIntros "Hl Hle". wpc_ret.
  wpc_bind. destruct r. iApply (wpc_free with "Hl"). wpc_bind. iApply (wpc_free with "Hle"). wpc_ret.
  iSplit; [|done]. iPureIntro. by eexists _, p.
Qed.

Lemma wpe_respond m index w : good_message m -> (length (message_text m) < BUF_SIZE)%nat -> reply index m = None ->
  ⊢ wpe (respond index (Some (message_text m))) w NullDeref.
Proof.
  intros Hg Hlen Hy. iStartProof. unfold respond. wpe_bind. iApply wpc_new_block. iIntros (le) "Hle".
  wpe_bind. iApply wpc_malloc. iIntros (l) "Hl". destruct (good_text m Hg) as (c & bs & E). rewrite E -E. cbv zeta.
  iApply wpe_bind_err. wpe_bind. iApply (wpc_write_cells with "Hl"). { rewrite length_fmap length_replicate. lia. }
  iIntros "Hl". wpe_bind. iApply (wpc_store with "Hl"). { rewrite length_splice; rewrite ?length_replicate ?length_fmap; lia. }
  rewrite Nat.add_0_l received_cells //. iIntros "Hl". wpe_bind. iApply (wpc_parse with "Hl Hle"); [done|].
  iIntros (b r p [Hp _]) "Hl Hle". iApply wpe_bind_err. iApply wpe_route; [done|done|]. iFrame.
Qed.
End answer.

(** C10: a request as a browser writes it, with any number of header lines up to 16, is parsed
    to what it says: the server answers with the index file, or with a greeting that repeats
    the right header line, exactly when the method is [GET] and the path, decoded and without
    its query, is a slash, and with an error otherwise; the size of the payload is the one
    announced, or else the one received; all memory is released. When the greeting needs a
    header line that was not sent, it prints through a null pointer. *)
Theorem request_is_answered m index w : good_message m -> (length (message_text m) < BUF_SIZE)%nat ->
  match reply index m with
  | Some y => exists r p, respond index (Some (message_text m)) (mem ∅ w) = Ok (Some r, mem ∅ (mk_world (stdin w) (stdout w ++ y) p)) /\
      payload_size r = size_of m
  | None => respond index (Some (message_text m)) (mem ∅ w) = Err NullDeref
  end.
Proof.
  intros Hg Hl. destruct (reply index m) as [y|] eqn:E; [|by apply wpe_run, wpe_respond].
  destruct (wpc_run _ _ _ (wpc_respond m index y w Hg Hl E)) as (a & w' & h & -> & [(q & p & -> & Hs & ->) ->]%holds_pure_emp).
  by exists q, p.
Qed.

Lemma request_is_answered_witness :
  let m := mk_message (chars "GET") (chars "/%3Fx?y") (chars "HTTP/1.1") [(chars "Host", chars "a"); (chars "User-Agent", chars "me")] [] in
  let m' := mk_message (chars "GET") (chars "%2f?y") (chars "HTTP/1.1") [(chars "Host", chars "a"); (chars "User-Agent", chars "me")] [] in
  (exists r p, respond None (Some (message_text m)) (mem ∅ (mk_world [] [] NULL)) =
     Ok (Some r, mem ∅ (mk_world [] (chars "HTTP/1.1 200 OK" ++ [10; 10] ++ chars "Hello! You are using me" ++ [10; 10]) p)) /\
     payload_size r = None) /\
  (exists r p, respond None (Some (message_text m')) (mem ∅ (mk_world [] [] NULL)) =
     Ok (Some r, mem ∅ (mk_world [] (chars "HTTP/1.1 200 OK" ++ [10; 10] ++ chars "Hello! You are using me" ++ [10; 10]) p)) /\
     payload_size r = None).
Proof.
  assert (forall n, Z.of_nat n < 65535 -> (n < BUF_SIZE)%nat) as HB by (unfold BUF_SIZE; lia).
  split.
  - apply (request_is_answered (mk_message (chars "GET") (chars "/%3Fx?y") (chars "HTTP/1.1")
      [(chars "Host", chars "a"); (chars "User-Agent", chars "me")] []) None (mk_world [] [] NULL)); [|by apply HB].
    constructor; by_compute.
  - apply (request_is_answered (mk_message (chars "GET") (chars "%2f?y") (chars "HTTP/1.1")
      [(chars "Host", chars "a"); (chars "User-Agent", chars "me")] []) None (mk_world [] [] NULL)); [|by apply HB].
    constructor; by_compute.
Defined.

(** A percent-encoded text is decoded to what was encoded, in place, and nothing behind it
    changes. *)
Theorem uri_unescape_round_trip l p0 s x tail w : encodes s x -> Forall target_char x ->
  exists mid, uri_unescape (Some (l, length p0)) (mem {[l := p0 ++ str_cells x ++ tail]} w) =
    Ok (tt, mem {[l := p0 ++ str_cells s ++ mid ++ tail]} w) /\ (length s + length mid = length x)%nat.
Proof.
  intros He Hx. destruct (wpc_adequate (uri_unescape (Some (l, length p0))) (l ↦ (p0 ++ str_cells x ++ tail))%I w
    (fun _ w' => ∃ mid, ⌜w' = w /\ (length s + length mid = length x)%nat⌝ ∧ l ↦ (p0 ++ str_cells s ++ mid ++ tail))%I
    {[l := p0 ++ str_cells x ++ tail]}) as ([] & w' & h & -> & (mid & [-> Hm] & ->)); [|done|by exists mid].
  iIntros "Hl". iApply (wpc_uri_unescape with "Hl"); [done|]. rewrite (unescaped_encodes s x He).
  iIntros (mid Hm) "Hl". iExists mid. by iFrame.
Qed.

(** A request that fills the buffer: its terminator is written behind the end. *)
Theorem full_buffer_overruns index bs w : length bs = BUF_SIZE -> respond index (Some bs) (mem ∅ w) = Err OutOfBounds.
Proof.
  intros Hl. apply wpe_run. iStartProof. unfold respond. wpe_bind. iApply wpc_new_block. iIntros (le) "Hle".
  wpe_bind. iApply wpc_malloc. iIntros (l) "Hl". assert (0 < BUF_SIZE)%nat as HB by (unfold BUF_SIZE; lia).
  destruct bs as [|c bs]; [cbn in Hl; lia|]. cbv zeta.
  iApply wpe_bind_err. wpe_bind. iApply (wpc_write_cells with "Hl"). { rewrite length_fmap length_replicate. lia. }
  iIntros "Hl". iApply wpe_bind_err. unfold store. wpe_bind. iApply (wpc_block with "Hl"). iIntros "Hl".
  rewrite cell_index_nat Nat.add_0_l (proj2 (Nat.ltb_ge _ _)); [by iApply (wpe_fail with "Hl")|].
  rewrite length_splice; rewrite ?length_replicate ?length_fmap; lia.
Qed.

Lemma full_buffer_overruns_witness : respond None (Some (replicate BUF_SIZE 65)) (mem ∅ (mk_world [] [] NULL)) = Err OutOfBounds.
Proof. apply full_buffer_overruns. apply length_replicate. Defined.

(** A header line without a value takes the next line for its value. *)
Lemma wpc_empty_value l pre k y junk w Φ : strtok_next w = Some (l, length pre) -> token KEY_END k -> token CRLF y -> head y <> Some 32 ->
  l ↦ buffer pre (10 :: k ++ 58 :: CRLF ++ y ++ CRLF ++ CRLF) junk -∗
  (∀ pre' h (_ : kept l pre' h [(k, y)] /\ (forall off x, str_in pre off x -> str_in pre' off x)),
     l ↦ buffer pre' (10 :: CRLF) junk -∗ Φ h (going_on w (Some (l, length pre')))) -∗
  wpc (headers 16 []) w Φ.
Proof.
  iIntros (Hnx Hk Hy Hh) "Hl HΦ". apply token_parts in Hk as (K1 & K2 & K3), Hy as (Y1 & Y2 & Y3). cbn [headers]. wpc_bind.
  iApply (wpc_strtok_cut NULL l pre [10] k 58 with "Hl"); [by right|by_compute|done|done|by_compute| |].
  { repeat (apply Forall_cons_2 || apply Forall_app_2); done. }
  iIntros "Hl". set (pre1 := pre ++ _). wpc_bind.
  iApply (wpc_strtok_cut NULL l pre1 CRLF y 13 with "Hl"); [by right|by_compute|done|done|by_compute| |].
  { repeat (apply Forall_cons_2 || apply Forall_app_2); done. }
  iIntros "Hl". set (pre2 := pre1 ++ _). cbn [length CRLF].
  assert (str_in pre2 (length pre1 + 2) y) as Sy by (apply (str_in_token pre1 CRLF y Y2)).
  assert (str_in pre2 (length pre + 1) k) as Sk by (apply str_in_mono, (str_in_token pre [10] k K2)).
  assert (length pre2 = length pre1 + 2 + (1 + length y))%nat as L2.
  { unfold pre2. rewrite (length_app pre1) (length_app (VInt <$> _)) length_str_cells. cbn. lia. }
  set (B := buffer pre2 _ junk). assert (forall off x, str_in pre2 off x -> str_in B off x) as HB by (intros; by apply str_in_mono).
  wpc_bind. iApply (wpc_room with "Hl"). iIntros "Hl". wpc_bind. destruct y as [|c y]; [done|]. cbn [skip_blanks]. wpc_bind.
  iApply (wpc_load_int _ _ 0%nat with "Hl"); [by apply (str_in_get _ _ (c :: y) 0%nat); [apply HB|]|]. iIntros "Hl".
  assert (c =? 32 = false) as -> by (apply Z.eqb_neq; intros ->; by apply Hh). rewrite andb_false_r. wpc_ret.
  wpc_bind. iApply (wpc_read_string with "Hl"); [by apply HB|]. iIntros "Hl".
  wpc_bind. iApply (wpc_strlen with "Hl"); [by apply HB|]. iIntros "Hl". cbv zeta. rewrite Nat2Z.id.
  cbn [offset fmap option_fmap option_map]. rewrite -L2. wpc_bind.
  iApply (wpc_load_int _ _ 1%nat with "Hl"); [by apply buffer_lookup|]. iIntros "Hl". rewrite Z.eqb_refl. wpc_bind. wpc_bind.
  iApply (wpc_load_int _ _ 2%nat with "Hl"); [by apply buffer_lookup|]. iIntros "Hl". wpc_ret. rewrite Z.eqb_refl. wpc_ret.
  iApply ("HΦ" $! pre2 _ _ with "Hl"). Unshelve. split.
  - constructor; [by exists (length pre + 1)%nat, (length pre1 + 2)%nat|constructor].
  - intros off x Hx. unfold pre2, pre1. rewrite -app_assoc. by apply str_in_mono.
Qed.

(** After a header line without a value the greeting does not find the next line and prints
    through a null pointer, although the line was sent. *)
Theorem empty_value_swallows_next_line m k v w (rest := k ++ 58 :: CRLF ++ (chars "User-Agent: " ++ v) ++ CRLF ++ CRLF)
  (x := m_method m ++ 32 :: m_target m ++ 32 :: m_prot m ++ CRLF ++ rest) :
  good_message m -> m_method m = chars "GET" -> path (m_target m) = chars "/" -> token KEY_END k -> k <> chars "User-Agent" -> token CRLF v ->
  (length x < BUF_SIZE)%nat ->
  respond None (Some x) (mem ∅ w) = Err NullDeref.
Proof.
  intros Hg Hm Hpath Hk Hne Hv Hlen. apply wpe_run. iStartProof. unfold respond. wpe_bind. iApply wpc_new_block. iIntros (le) "Hle".
  wpe_bind. iApply wpc_malloc. iIntros (l) "Hl".
  assert (exists c bs, x = c :: bs) as (c & bs & E) by (subst x; rewrite Hm; by eexists _, _). rewrite E -E. cbv zeta.
  iApply wpe_bind_err. wpe_bind. iApply (wpc_write_cells with "Hl"). { rewrite length_fmap length_replicate. lia. }
  iIntros "Hl". wpe_bind. iApply (wpc_store with "Hl"). { rewrite length_splice; rewrite ?length_replicate ?length_fmap; lia. }
  rewrite Nat.add_0_l received_cells //. iIntros "Hl". set (junk := replicate _ VUndef). set (y := chars "User-Agent: " ++ v) in *.
  assert (token CRLF y) as Hy by (destruct Hv as [_ Hv]; split; [done|]; apply Forall_app_2; [by_compute|done]).
  pose proof (token_parts _ _ Hk) as (_ & K2 & _). pose proof (token_parts _ _ Hv) as (_ & V2 & _).
  assert (no_nul (10 :: rest)) as Hr by (repeat (apply Forall_cons_2 || apply Forall_app_2); done).
  wpe_bind. unfold parse. iApply (wpc_first_line with "Hl"); [done|done|]. iIntros (pre ou q pr (S1 & S2 & _)) "Hl". wpc_bind.
  iApply (wpc_empty_value with "Hl"); [done|done|done|done|]. iIntros (pre' h (Kh & Kp)) "Hl". cbv zeta.
  replace (match h with [] => _ | _ => h end) with h by (by inversion Kh). wpc_bind.
  iApply (wpc_strtok_none with "Hl"); [done|by_compute|by_compute|]. iIntros "Hl". wpc_bind.
  assert (table l le (buffer pre' (10 :: CRLF) junk) h [(k, y)]) as Ht by (left; split; [by apply kept_mono|done]).
  iApply (wpc_request_header with "Hl Hle"); [exact Ht|done|]. iIntros (t2 Ht2) "Hl Hle". wpc_bind.
  assert (forall sz, l ↦ buffer pre' (10 :: CRLF) junk ∗ le ↦ [VInt 0] ⊢
    wpe (route None (mk_request (Some (l, 0%nat)) (Some (l, ou)) q pr NULL sz h)) (going_on w NULL) NullDeref) as HR.
  { intros sz. apply (wpe_route l le _ (mk_message (m_method m) (m_target m) (m_prot m) [(k, y)] [])).
    - split_and!; [by exists 0%nat; split; [|apply str_in_mono, Kp]|by exists ou; split; [|apply str_in_mono, Kp]|done].
    - unfold reply. cbn [m_target m_method m_headers]. rewrite Hpath Hm !bool_decide_true //. unfold value_of. by rewrite filter_cons decide_False. }
  unfold found in Ht2. destruct (value_of _ _) as [u|].
  - destruct Ht2 as (o & -> & Hu). wpc_bind. iApply (wpc_read_string with "Hl"); [done|]. iIntros "Hl". wpc_ret. wpc_ret.
    iApply wpe_bind_err. iApply HR. iFrame.
  - subst t2. wpc_ret. wpc_ret. iApply wpe_bind_err. iApply HR. iFrame.
Qed.

End Httpd.
