(* ===== verification/HttpdSlots.v ===== *)
(** * The processes of the small web server

    src/nat-server/nat_httpd.c, [serve_forever]: the parent accepts connections into a table
    that it shares with its children, forks a child for each, closes the descriptor that it
    finds in the entry then, and looks for a free entry;
    a child serves the connection whose descriptor the table has at its entry and then frees
    the entry. Processes take their steps in any order. *)
From stdpp Require Import base numbers list gmap relations.
From S2P Require Import Prelude CBase.
Local Open Scope Z_scope.

Module Slots.

Definition MAX_CONNECTIONS : nat := 1000.

(** Where the parent is: before [accept], between [accept] and [fork], before it closes the
    descriptor of the entry, in the loop that looks for a free entry, or gone. [fd] and [c] are
    the descriptor and the connection of the last [accept]. *)
Inductive parent := PAccept | PFork (fd : Z) (c : nat) | PClose (fd : Z) | PScan | PExit (status : Z).

(** A child: its entry, the descriptor and the connection it was forked for, the open
    connections it has from its parent, and where it is: before [respond], at
    [close(clients[slot])], or at the assignment that frees the entry. *)
Inductive stage := Respond | Close | Clear.
Record child := mk_child { entry : nat; own_fd : Z; own : nat; files : gmap Z nat; at_ : stage }.

(** The shared table, the parent, its [slot] and its open connections, the children, and which
    connections were served, each after the connection the serving child was forked for. *)
Record state := mk_state {
  clients : list Z; pc : parent; slot : nat; opens : gmap Z nat; children : gmap nat child; served : list (nat * option nat) }.

(** [accept] has returned; a negative value is an error. *)
Definition accepted (fd : Z) (c : nat) (s : state) : state :=
  if fd <? 0 then mk_state (<[slot s := fd]> (clients s)) (PExit 1) (slot s) (opens s) (children s) (served s)
  else mk_state (<[slot s := fd]> (clients s)) (PFork fd c) (slot s) (<[fd := c]> (opens s)) (children s) (served s).

(** [fork] has returned in the parent: the new child, with a copy of the parent's descriptors, if
    there is one. *)
Definition forked (pid : option nat) (fd : Z) (c : nat) (s : state) : state :=
  let kids := match pid with
              | Some p => <[p := mk_child (slot s) fd c (opens s) Respond]> (children s)
              | None => children s
              end in
  mk_state (clients s) (PClose fd) (slot s) (opens s) kids (served s).

(** The parent closes the descriptor it finds in the entry, which the child may have freed
    since; the descriptor [-1] is none. *)
Definition parent_close (s : state) : state :=
  mk_state (clients s) PScan (slot s) (match clients s !! slot s with Some fd => delete fd (opens s) | None => opens s end) (children s) (served s).

(** One turn of the loop that looks for a free entry. *)
Definition scan (s : state) : state :=
  if bool_decide (clients s !! slot s = Some (-1)) then mk_state (clients s) PAccept (slot s) (opens s) (children s) (served s)
  else mk_state (clients s) PScan ((slot s + 1) mod MAX_CONNECTIONS)%nat (opens s) (children s) (served s).

(** A child's step: it serves the connection that the descriptor in its entry is. *)
Definition moved (k : child) (st : stage) : child := mk_child (entry k) (own_fd k) (own k) (files k) st.
Definition child_step (p : nat) (k : child) (s : state) : state :=
  match at_ k with
  | Respond =>
      mk_state (clients s) (pc s) (slot s) (opens s) (<[p := moved k Close]> (children s))
        (served s ++ [(own k, fd ← clients s !! entry k; files k !! fd)])
  | Close => mk_state (clients s) (pc s) (slot s) (opens s) (<[p := moved k Clear]> (children s)) (served s)
  | Clear => mk_state (<[entry k := -1]> (clients s)) (pc s) (slot s) (opens s) (delete p (children s)) (served s)
  end.

(** [accept] gives a descriptor that is not open. *)
Inductive step : state -> state -> Prop :=
  | SAccept s fd c : pc s = PAccept -> opens s !! fd = None -> step s (accepted fd c s)
  | SFork s pid fd c : pc s = PFork fd c -> (forall p, pid = Some p -> children s !! p = None) -> step s (forked pid fd c s)
  | SClose s fd : pc s = PClose fd -> step s (parent_close s)
  | SScan s : pc s = PScan -> step s (scan s)
  | SChild s p k : children s !! p = Some k -> step s (child_step p k s).

(** The table before the loop. *)
Definition start : state := mk_state (replicate MAX_CONNECTIONS (-1)) PAccept 0 ∅ ∅ [].

(** ** Proofs *)

(** What the entry the parent stands at holds. *)
Definition at_slot (s : state) : Prop :=
  match pc s with
  | PAccept => clients s !! slot s = Some (-1)
  | PFork fd c => clients s !! slot s = Some fd /\ 0 <= fd /\ opens s !! fd = Some c
  | PClose fd => clients s !! slot s = Some fd \/ clients s !! slot s = Some (-1)
  | _ => True
  end.

Record inv (s : state) : Prop := mk_inv {
  i_size : length (clients s) = MAX_CONNECTIONS;
  i_slot : (slot s < MAX_CONNECTIONS)%nat;
  i_at : at_slot s;
  i_opens : opens s !! (-1) = None;
  i_child : forall p k, children s !! p = Some k -> clients s !! entry k = Some (own_fd k) /\ 0 <= own_fd k /\ files k !! own_fd k = Some (own k);
  i_next : forall p k fd c, children s !! p = Some k -> pc s = PFork fd c -> entry k <> slot s;
  i_apart : forall p p' k k', children s !! p = Some k -> children s !! p' = Some k' -> entry k = entry k' -> p = p';
  i_served : Forall (fun e => e.2 = Some e.1) (served s) }.

Lemma slots_inv_start : inv start.
Proof. split; cbn [start clients slot pc children served]; try done. unfold MAX_CONNECTIONS. lia. Qed.

Lemma inv_accepted s fd c : inv s -> pc s = PAccept -> inv (accepted fd c s).
Proof.
  intros [I1 I2 I3 Io I4 In I5 I6] Hp. unfold at_slot in I3. rewrite Hp in I3.
  assert (forall p k, children s !! p = Some k -> entry k <> slot s) as Hne.
  { intros p k Hk He. destruct (I4 p k Hk) as (H1 & H2 & _). rewrite He, I3 in H1. injection H1 as H1. lia. }
  assert (forall p k, children s !! p = Some k -> <[slot s := fd]> (clients s) !! entry k = Some (own_fd k) /\ 0 <= own_fd k /\ files k !! own_fd k = Some (own k)) as Hch.
  { intros p k Hk. rewrite list_lookup_insert_ne by (by apply not_eq_sym, (Hne p)). by apply (I4 p). }
  unfold accepted. destruct (fd <? 0) eqn:E; split; cbn [clients pc slot opens children served]; try done; try (by rewrite length_insert);
    unfold at_slot; cbn [pc slot clients opens]; try done.
  - split_and!; [apply list_lookup_insert_eq; lia|lia|apply lookup_insert_eq].
  - rewrite lookup_insert_ne; [done|lia].
  - intros p k fd' c' Hk _. by eapply Hne.
Qed.

Lemma inv_forked s pid fd c : inv s -> pc s = PFork fd c -> (forall p, pid = Some p -> children s !! p = None) -> inv (forked pid fd c s).
Proof.
  intros [I1 I2 I3 Io I4 In I5 I6] Hp Hpid. unfold at_slot in I3. rewrite Hp in I3. destruct I3 as (I3 & Hfd & Hop).
  assert (forall p k, children s !! p = Some k -> entry k <> slot s) as Hne by (intros; by eapply In).
  destruct pid as [q|]; split; cbn [forked clients pc slot opens children served]; try done; try (by left).
  - intros p k [[<- <-]|[Hn Hk]]%lookup_insert_Some; [done|by eapply I4].
  - intros p p' k k' [[<- <-]|[Hn Hk]]%lookup_insert_Some [[<- <-]|[Hn' Hk']]%lookup_insert_Some; cbn [entry]; try done.
    + intros He. by destruct (Hne p' k' Hk').
    + intros He. by destruct (Hne p k Hk).
    + by apply I5.
Qed.

Lemma inv_parent_close s fd : inv s -> pc s = PClose fd -> inv (parent_close s).
Proof.
  intros [I1 I2 I3 Io I4 In I5 I6] Hp. split; cbn [parent_close clients pc slot opens children served]; try done.
  destruct (clients s !! slot s) as [z|]; [|done]. apply lookup_delete_None. by right.
Qed.

Lemma inv_scan s : inv s -> pc s = PScan -> inv (scan s).
Proof.
  intros [I1 I2 I3 Io I4 In I5 I6] Hp. unfold scan. case_bool_decide as E; split; cbn [clients pc slot opens children served]; try done.
  apply Nat.mod_upper_bound. unfold MAX_CONNECTIONS. lia.
Qed.

Lemma inv_child s p k : inv s -> children s !! p = Some k -> inv (child_step p k s).
Proof.
  intros [I1 I2 I3 Io I4 In I5 I6] Hk. destruct (I4 p k Hk) as (H1 & H2 & H3). unfold child_step.
  assert (forall st, forall q j, <[p := moved k st]> (children s) !! q = Some j ->
    exists j' st', children s !! q = Some j' /\ j = moved j' st') as Hup.
  { intros st q j [[<- <-]|[Hn Hj]]%lookup_insert_Some; [by exists k, st|]. exists j, (at_ j). by destruct j. }
  assert (forall st, (forall q j, <[p := moved k st]> (children s) !! q = Some j ->
      clients s !! entry j = Some (own_fd j) /\ 0 <= own_fd j /\ files j !! own_fd j = Some (own j)) /\
    (forall q j fd c, <[p := moved k st]> (children s) !! q = Some j -> pc s = PFork fd c -> entry j <> slot s) /\
    (forall q q' j j', <[p := moved k st]> (children s) !! q = Some j -> <[p := moved k st]> (children s) !! q' = Some j' -> entry j = entry j' -> q = q')) as Hmv.
  { intros st. split_and!.
    - intros q j Hj. destruct (Hup _ _ _ Hj) as (j' & st' & Hj' & ->). exact (I4 q j' Hj').
    - intros q j fd c Hj. destruct (Hup _ _ _ Hj) as (j' & st' & Hj' & ->). exact (In q j' fd c Hj').
    - intros q q' j j' Hj Hj'. destruct (Hup _ _ _ Hj) as (j1 & ? & Hj1 & ->), (Hup _ _ _ Hj') as (j2 & ? & Hj2 & ->). exact (I5 _ _ _ _ Hj1 Hj2). }
  destruct (at_ k); [split; cbn [clients pc slot opens children served]; try done; try apply Hmv..|].
  - apply Forall_app_2; [done|]. constructor; [|constructor]. cbn [fst snd]. rewrite H1. cbn. exact H3.
  - split; cbn [clients pc slot opens children served]; try done.
    + by rewrite length_insert.
    + unfold at_slot in *. cbn [pc slot clients opens]. destruct (pc s) as [|fd c|fd| |] eqn:Hpc; try done.
      * destruct (decide (entry k = slot s)) as [He|Hn]; [|by rewrite list_lookup_insert_ne]. rewrite He in H1. rewrite I3 in H1. injection H1. lia.
      * rewrite list_lookup_insert_ne; [done|]. by eapply In.
      * destruct (decide (entry k = slot s)) as [He|Hn]; [|by rewrite list_lookup_insert_ne]. right. rewrite <- He. apply list_lookup_insert_eq. apply lookup_lt_Some in H1. lia.
    + intros q j [Hn Hj]%lookup_delete_Some. destruct (I4 q j Hj) as (K1 & K2 & K3). split_and!; [|done|done].
      rewrite list_lookup_insert_ne; [done|]. intros He. apply Hn. by apply (I5 p q k j).
    + intros q j fd c [Hn Hj]%lookup_delete_Some. by apply (In q).
    + intros q q' j j' [_ Hj]%lookup_delete_Some [_ Hj']%lookup_delete_Some. by apply I5.
Qed.

Lemma slots_inv_step a b : step a b -> inv a -> inv b.
Proof. intros [] ?; [by apply inv_accepted|by apply inv_forked|by eapply inv_parent_close|by apply inv_scan|by apply inv_child]. Qed.
Lemma slots_inv s : rtc step start s -> inv s.
Proof.
  intros Hr. assert (forall a b, rtc step a b -> inv a -> inv b) as H; [|by apply (H start), slots_inv_start].
  induction 1 as [|a b c Hab _ IH]; [done|]. intros Ha. by eapply IH, slots_inv_step.
Qed.

(** C17: in any order of steps: every child that has served a connection has served the one it was
    forked for; the entries of the children are different and hold their descriptors; and
    the parent accepts a connection only into an entry that no child uses. *)
Theorem children_serve_their_client s : rtc step start s ->
  Forall (fun e => e.2 = Some e.1) (served s) /\
  (forall p k, children s !! p = Some k -> clients s !! entry k = Some (own_fd k) /\ 0 <= own_fd k /\ (pc s = PAccept -> entry k <> slot s)) /\
  (forall p p' k k', children s !! p = Some k -> children s !! p' = Some k' -> entry k = entry k' -> p = p').
Proof.
  intros [I1 I2 I3 Io I4 In I5 I6]%slots_inv. split_and!; [done| |done]. intros p k Hk. destruct (I4 p k Hk) as (H1 & H2 & _).
  split_and!; [done|done|]. intros Hp He. unfold at_slot in I3. rewrite Hp, <- He, H1 in I3. injection I3. lia.
Qed.

Definition one_child : state := forked (Some 7%nat) 4 0 (accepted 4 0 start).
Definition newborn : child := mk_child 0 4 0 {[4 := 0%nat]} Respond.
Lemma one_child_steps : rtc step start one_child.
Proof. eapply rtc_l; [by apply (SAccept _ 4 0)|]. apply rtc_once. by apply (SFork _ (Some 7%nat) 4 0). Qed.
Lemma children_serve_their_client_witness : served (child_step 7 newborn one_child) = [(0%nat, Some 0%nat)] /\
  Forall (fun e => e.2 = Some e.1) (served (child_step 7 newborn one_child)).
Proof.
  split; [done|]. apply (children_serve_their_client (child_step 7 newborn one_child)).
  eapply rtc_r; [exact one_child_steps|]. by apply SChild.
Defined.

(** The parent's descriptor of a connection it is not about to close any more. *)
Definition left_open (fd : Z) (c : nat) (s : state) : Prop :=
  opens s !! fd = Some c /\ (forall c', pc s <> PFork fd c') /\ pc s <> PClose fd.
Lemma left_open_step fd c a b : step a b -> inv a -> left_open fd c a -> left_open fd c b.
Proof.
  intros Hab [I1 I2 I3 Io _ _ _ _] (H1 & H2 & H3). destruct Hab as [s fd' c' Hp Hf|s pid fd' c' Hp _|s fd' Hp|s Hp|s p k Hk].
  - assert (fd' <> fd) as Hne by congruence. unfold accepted. destruct (fd' <? 0); [by split_and!|].
    split_and!; cbn [opens pc]; [by rewrite lookup_insert_ne|congruence|done].
  - split_and!; cbn [forked opens pc]; [done|done|]. intros [= ->]. by eapply H2.
  - split_and!; cbn [parent_close opens pc]; [|done..]. unfold at_slot in I3. rewrite Hp in I3.
    destruct I3 as [-> | ->]; rewrite lookup_delete_ne; try done; congruence.
  - unfold scan. case_bool_decide; by split_and!.
  - unfold child_step. destruct (at_ k); by split_and!.
Qed.

(** A child may free its entry before the parent, after [fork], comes to close the descriptor
    that it looks for there: the parent then closes nothing, and keeps the descriptor for good. *)
Theorem parent_may_keep_descriptor : exists s fd c, rtc step start s /\ pc s = PAccept /\ children s = ∅ /\
  clients s = replicate MAX_CONNECTIONS (-1) /\ forall s', rtc step s s' -> opens s' !! fd = Some c.
Proof.
  exists (mk_state (replicate MAX_CONNECTIONS (-1)) PAccept 0 {[4 := 0%nat]} ∅ [(0%nat, Some 0%nat)]), 4, 0%nat.
  match goal with |- rtc step start ?s /\ _ => assert (rtc step start s) as R end.
  { etrans; [exact one_child_steps|]. do 3 (eapply rtc_l; [by eapply (SChild _ 7)|]). eapply rtc_l; [by eapply SClose|]. by apply rtc_once, SScan. }
  split; [exact R|]. split_and!; [done..|]. intros s' R'. apply slots_inv in R as I. clear R.
  enough (left_open 4 0 s') as (H & _) by done.
  assert (forall a b, rtc step a b -> inv a -> left_open 4 0 a -> left_open 4 0 b) as H.
  { induction 1 as [|a b c Hab _ IH]; [done|]. intros. apply IH; [by eapply slots_inv_step|by eapply left_open_step]. }
  by apply (H _ _ R' I).
Qed.

(** Alone, the parent finds a free entry if there is one. *)
Lemma scan_walk s (i n : nat) : pc s = PScan -> length (clients s) = MAX_CONNECTIONS -> (slot s < MAX_CONNECTIONS)%nat ->
  clients s !! i = Some (-1) -> ((slot s + n) mod MAX_CONNECTIONS = i)%nat ->
  exists s', rtc step s s' /\ pc s' = PAccept /\ clients s' !! slot s' = Some (-1) /\ clients s' = clients s /\ children s' = children s.
Proof.
  revert s. induction n as [|n IH]; intros s Hp Hl Hs Hi Hm.
  - rewrite Nat.add_0_r, Nat.mod_small in Hm by done. subst i. exists (scan s). split; [apply rtc_once; by constructor|].
    unfold scan. by rewrite bool_decide_true.
  - destruct (decide (clients s !! slot s = Some (-1))) as [E|E].
    + exists (scan s). split; [apply rtc_once; by constructor|]. unfold scan. by rewrite bool_decide_true.
    + destruct (IH (scan s)) as (s' & H1 & H2); unfold scan in *; rewrite bool_decide_false in * by done; cbn [pc clients slot opens children] in *; try done.
      * apply Nat.mod_upper_bound. unfold MAX_CONNECTIONS. lia.
      * rewrite <- Hm. rewrite Nat.Div0.add_mod_idemp_l. f_equal. lia.
      * exists s'. split; [|done]. eapply rtc_l; [by apply SScan|]. unfold scan. by rewrite bool_decide_false.
Qed.

(** As long as one entry is free, the parent goes on to the next [accept]. *)
Theorem parent_finds_free_entry s i : rtc step start s -> pc s = PScan -> clients s !! i = Some (-1) ->
  exists s', rtc step s s' /\ pc s' = PAccept /\ clients s' !! slot s' = Some (-1) /\ clients s' = clients s /\ children s' = children s.
Proof.
  intros [I1 I2 _ _ _ _ _ _]%slots_inv Hp Hi. pose proof (lookup_lt_Some _ _ _ Hi) as Hlt. rewrite I1 in Hlt.
  apply (scan_walk s i (i + MAX_CONNECTIONS - slot s)); try done.
  replace (slot s + (i + MAX_CONNECTIONS - slot s))%nat with (i + 1 * MAX_CONNECTIONS)%nat by lia.
  rewrite Nat.Div0.mod_add. by apply Nat.mod_small.
Qed.

(** An entry of a fork that failed stays taken. After [n] of them the first [n] are. *)
Lemma failed_forks fd (c n : nat) : 0 <= fd -> (n < MAX_CONNECTIONS)%nat ->
  rtc step start (mk_state (replicate (S n) fd ++ replicate (MAX_CONNECTIONS - S n) (-1)) PScan n ∅ ∅ []).
Proof.
  intros Hfd. assert (fd <? 0 = false) as Hz by lia. induction n as [|n IH]; intros Hn.
  - eapply rtc_l; [by apply (SAccept _ fd c)|]. unfold accepted. rewrite Hz.
    eapply rtc_l; [by apply (SFork _ None fd c)|]. eapply rtc_l; [by eapply SClose|]. unfold parent_close. cbn. rewrite delete_insert_id by done. apply rtc_refl.
  - etrans; [apply IH; lia|].
    assert (forall k r, (replicate k fd ++ r) !! k = r !! 0%nat) as Hat by (intros k r; by rewrite lookup_app_r, length_replicate, Nat.sub_diag by (rewrite length_replicate; lia)).
    destruct (MAX_CONNECTIONS - S n)%nat as [|k] eqn:E; [lia|]. replace (MAX_CONNECTIONS - S (S n))%nat with k by lia.
    change (replicate (S k) (-1)) with (-1 :: replicate k (-1)).
    eapply rtc_l; [by apply SScan|]. unfold scan at 1. cbn [clients slot opens children served].
    rewrite bool_decide_false by (rewrite lookup_app_l by (rewrite length_replicate; lia); rewrite lookup_replicate_2 by lia; intros [= ->]; lia).
    replace ((n + 1) mod MAX_CONNECTIONS)%nat with (S n) by (rewrite Nat.mod_small; lia).
    eapply rtc_l; [by apply SScan|]. unfold scan. cbn [clients slot opens children served]. rewrite bool_decide_true by (by rewrite Hat).
    eapply rtc_l; [by apply (SAccept _ fd c)|]. unfold accepted. rewrite Hz. cbn [clients slot opens children served].
    rewrite (insert_mid (replicate (S n) fd) (-1) fd) by (by rewrite length_replicate).
    eapply rtc_l; [by apply (SFork _ None fd c)|]. unfold forked. cbn [clients slot opens children served].
    eapply rtc_l; [by eapply SClose|]. unfold parent_close. cbn [clients slot opens children served]. rewrite list_lookup_middle by (by rewrite length_replicate).
    rewrite delete_insert_id by done.
    rewrite (cons_middle fd), app_assoc, <- replicate_cons_app. apply rtc_refl.
Qed.

(** The entry of a connection for which [fork] failed is never freed: after a thousand such
    failures the parent looks for a free entry for ever and accepts nobody. *)
Theorem failed_forks_stop_the_server : exists s, rtc step start s /\ children s = ∅ /\
  forall s', rtc step s s' -> pc s' = PScan /\ children s' = ∅ /\ served s' = [].
Proof.
  eexists. split; [apply (failed_forks 4 0 999); [lia|unfold MAX_CONNECTIONS; lia]|]. split; [done|].
  assert (forall a b, rtc step a b -> clients a = replicate 1000 4 -> (slot a < 1000)%nat -> pc a = PScan -> children a = ∅ -> served a = [] ->
    pc b = PScan /\ children b = ∅ /\ served b = []) as H.
  { induction 1 as [|a b c Hab _ IH]; [done|]. intros Hc Hs Hp Hk Hv.
    destruct Hab as [s fd k Hx|s pid fd k Hx _|s fd Hx|s _|s p k Hx]; [congruence|congruence|congruence| |by rewrite Hk in Hx].
    assert (scan s = mk_state (clients s) PScan ((slot s + 1) mod MAX_CONNECTIONS) (opens s) (children s) (served s)) as E.
    { unfold scan. rewrite bool_decide_false; [done|]. rewrite Hc, lookup_replicate_2 by done. done. }
    rewrite E in *. apply IH; cbn [clients slot pc children served]; try done. apply Nat.mod_upper_bound. unfold MAX_CONNECTIONS. lia. }
  intros s' Hr. eapply H; [exact Hr|..]; try done. cbn [slot]. lia.
Qed.

End Slots.
