(* ===== verification/Websocket.v ===== *)
(** * The websocket client and server

    src/websocket: the client's handlers, which collect the texts of the server in a list,
    its conversation, and how the list is printed and freed; and the server's handlers. The
    library's calls are arguments: the frames that arrive while the client sleeps, and what
    [time] returns. Opcodes are those of the protocol (RFC 6455). *)
From stdpp Require Import base numbers list gmap strings.
From iris.proofmode Require Import proofmode.
From S2P Require Import Prelude CBase CDecimal CHeap HeapLogic CStrings.
Set Warnings "-rewrite-rw".
Local Open Scope Z_scope.

Definition MG_WEBSOCKET_OPCODE_CONTINUATION : Z := 0.
Definition MG_WEBSOCKET_OPCODE_TEXT : Z := 1.
Definition MG_WEBSOCKET_OPCODE_BINARY : Z := 2.
Definition MG_WEBSOCKET_OPCODE_CONNECTION_CLOSE : Z := 8.
Definition MG_WEBSOCKET_OPCODE_PING : Z := 9.
Definition MG_WEBSOCKET_OPCODE_PONG : Z := 10.

(** A frame to send: opcode and data. *)
Definition frame : Type := Z * list Z.

Module Client.

Definition msgtypename (flags : Z) : list Z :=
  let f := Z.land flags 15 in
  if f =? MG_WEBSOCKET_OPCODE_CONTINUATION then chars "continuation"
  else if f =? MG_WEBSOCKET_OPCODE_TEXT then chars "text"
  else if f =? MG_WEBSOCKET_OPCODE_BINARY then chars "binary"
  else if f =? MG_WEBSOCKET_OPCODE_CONNECTION_CLOSE then chars "connection close"
  else if f =? MG_WEBSOCKET_OPCODE_PING then chars "PING"
  else if f =? MG_WEBSOCKET_OPCODE_PONG then chars "PONG"
  else chars "unknown".

(** A number right-aligned in [n] columns: [%10.0f] of a time in seconds, [%5lu]. *)
Definition column (n : nat) (z : Z) : list Z := replicate (n - length (dec z)) 32 ++ dec z.

(** The cells of the two structures. *)
Definition started : nat := 0.
Definition closed : nat := 1.
Definition msgs : nat := 2.
Definition timestamp : Z := 0.
Definition data : Z := 1.
Definition len : Z := 2.
Definition next : nat := 3.

(** A line of the log. *)
Definition log (pclient_data : ptr) (now : Z) (x : list Z) : C unit :=
  t0 ← load_int pclient_data (Z.of_nat started);
  emit (column 10 (now - t0) ++ chars " - " ++ x).

(** The loop to the end of the list: the place of its null pointer. *)
Fixpoint last_link (fuel : nat) (where_ : ptr) : C ptr :=
  match fuel with
  | O => stfail OutOfFuel
  | S f =>
      p ← load_ptr where_ 0;
      match p with
      | None => mret where_
      | Some _ => last_link f (offset p next)
      end
  end.

(** A text is stored at the end of the list. *)
Definition store_text (fuel : nat) (pclient_data : ptr) (now : Z) (x : list Z) : C unit :=
  p ← malloc 4;
  store p timestamp (VInt now);;
  d ← malloc (length x);
  store p data (VPtr d);;
  write_cells d (VInt <$> x);;
  store p len (VInt (Z.of_nat (length x)));;
  store p (Z.of_nat next) (VPtr NULL);;
  where_ ← last_link fuel (offset pclient_data msgs);
  store where_ 0 (VPtr p).

(** The result, and the frames sent. *)
Definition websocket_client_data_handler (fuel : nat) (pclient_data : ptr) (now flags : Z) (x : list Z) : C (Z * list frame) :=
  let op := Z.land flags 15 in
  let is_text := op =? MG_WEBSOCKET_OPCODE_TEXT in
  log pclient_data now (chars "Client received " ++ dec (Z.of_nat (length x)) ++ chars " bytes of " ++ msgtypename flags ++
    chars " data from server" ++ (if is_text then chars ": " else chars "." ++ [10]));;
  if op =? MG_WEBSOCKET_OPCODE_PING then mret (1, [(MG_WEBSOCKET_OPCODE_PONG, x)])
  else if op =? MG_WEBSOCKET_OPCODE_PONG then mret (1, [])
  else
    (if is_text then emit (x ++ [10]);; store_text fuel pclient_data now x else mret tt);;
    if op =? MG_WEBSOCKET_OPCODE_CONNECTION_CLOSE then log pclient_data now (chars "Goodbye" ++ [10]);; mret (0, [])
    else mret (1, []).

Definition websocket_client_close_handler (pclient_data : ptr) (now : Z) : C unit :=
  store pclient_data (Z.of_nat closed) (VInt now);;
  log pclient_data now (chars "Client: Close handler" ++ [10]).

(** What the library calls a handler for. *)
Inductive event := Data (now flags : Z) (x : list Z) | Closed (now : Z).

Fixpoint handle (fuel : nat) (pclient_data : ptr) (es : list event) : C (list frame) :=
  match es with
  | [] => mret []
  | Data now flags x :: es' =>
      '(_, fr) ← websocket_client_data_handler fuel pclient_data now flags x;
      fr' ← handle fuel pclient_data es'; mret (fr ++ fr')
  | Closed now :: es' => websocket_client_close_handler pclient_data now;; handle fuel pclient_data es'
  end.

(** ** The conversation *)

(** What the client does: a line in the log, a frame, a text written to the array [txt]
    first, sleep (also while it closes the connection), or a line on whether the connection
    was closed. *)
Inductive act := Log (x : list Z) | Send (f : frame) | Text (x : list Z) | Sleep | State.

Definition bottles (b : Z) : list Z := dec b ++ chars " bottle" ++ (if b =? 1 then [] else chars "s") ++ chars " of beer".

(** The loop over the bottles. *)
Fixpoint verses (b : nat) : list act :=
  match b with
  | O => []
  | S b' =>
      [Text (bottles (Z.of_nat b) ++ chars " on the wall, " ++ bottles (Z.of_nat b) ++ chars "."); Sleep;
       Text (chars "Take one down and pass it around, " ++
             (if (b' =? 0)%nat then chars "no more bottles of beer" else bottles (Z.of_nat b')) ++ chars " on the wall."); Sleep] ++
      verses b'
  end.
Definition song : list act :=
  verses 99 ++
  [Text (chars "No more bottles of beer on the wall, no more bottles of beer."); Sleep;
   Text (chars "Go to the store and buy some more, " ++ bottles 99 ++ chars " on the wall.")].

Definition greet (greetings : option (list Z)) (x : list Z) : list act :=
  match greetings with Some g => [Log x; Send (MG_WEBSOCKET_OPCODE_TEXT, g)] | None => [] end.

Definition conversation (greetings : option (list Z)) : list act :=
  [Log (chars "Connected")] ++ greet greetings (chars "Sending greetings") ++ [Sleep] ++
  (seqZ 0 5 ≫= (fun i => [Log (chars "Sending PING"); Send (MG_WEBSOCKET_OPCODE_PING, le_bytes 4 i); Sleep])) ++
  [Sleep] ++ greet greetings (chars "Sending greetings again") ++ [Sleep] ++ song ++
  [Sleep; Log (chars "Sending close message"); Send (MG_WEBSOCKET_OPCODE_CONNECTION_CLOSE, []); Sleep; State; Sleep; Log (chars "End of test")].

(** The frames sent; [times] is what [time] returns, [arrivals] what each sleep brings. *)
Fixpoint perform (fuel : nat) (pclient_data txt : ptr) (times : nat -> Z) (arrivals : nat -> list event)
    (n m : nat) (acts : list act) : C (list frame) :=
  match acts with
  | [] => mret []
  | Log x :: acts' => log pclient_data (times n) (x ++ [10]);; perform fuel pclient_data txt times arrivals (S n) m acts'
  | State :: acts' =>
      c ← load_int pclient_data (Z.of_nat closed);
      log pclient_data (times n) (chars "Connection state: " ++ (if c =? 0 then chars "open" else chars "closed") ++ [10]);;
      perform fuel pclient_data txt times arrivals (S n) m acts'
  | Send f :: acts' => fr ← perform fuel pclient_data txt times arrivals n m acts'; mret (f :: fr)
  | Text x :: acts' =>
      write_cells txt (str_cells x);; y ← read_string txt;
      fr ← perform fuel pclient_data txt times arrivals n m acts'; mret ((MG_WEBSOCKET_OPCODE_TEXT, y) :: fr)
  | Sleep :: acts' =>
      fr ← handle fuel pclient_data (arrivals m);
      fr' ← perform fuel pclient_data txt times arrivals n (S m) acts'; mret (fr ++ fr')
  end.

(** ** The end *)

Fixpoint print_loop (fuel : nat) (pclient_data where_ : ptr) : C unit :=
  match fuel with
  | O => stfail OutOfFuel
  | S f =>
      p ← load_ptr where_ 0;
      match p with
      | None => mret tt
      | Some _ =>
          t ← load_int p timestamp; t0 ← load_int pclient_data (Z.of_nat started); n ← load_int p len;
          d ← load_ptr p data; x ← read_cells d (Z.to_nat n);
          emit (column 10 (t - t0) ++ chars " - [" ++ column 5 n ++ chars "] ");;
          emit ((fun v => match v with VInt c => c | _ => 0 end) <$> x);; emit [10];;
          print_loop f pclient_data (offset p next)
      end
  end.

(** The loop that frees each element two turns late, and its last two pointers. *)
Fixpoint free_loop (fuel : nat) (where_ p1 p2 : ptr) : C (ptr * ptr) :=
  match fuel with
  | O => stfail OutOfFuel
  | S f =>
      p ← load_ptr where_ 0;
      match p with
      | None => mret (p1, p2)
      | Some _ => d ← load_ptr p data; free d;; free p2;; free_loop f (offset p next) p p1
      end
  end.

Definition run_websocket_client (fuel : nat) (connects : bool) (place err : list Z) (greetings : option (list Z))
    (times : nat -> Z) (arrivals : nat -> list event) : C (list frame) :=
  pclient_data ← malloc 3;
  store pclient_data (Z.of_nat started) (VInt (times 0%nat));;
  store pclient_data (Z.of_nat closed) (VInt 0);;
  store pclient_data (Z.of_nat msgs) (VPtr NULL);;
  emit (column 10 0 ++ chars " - Connecting to " ++ place ++ [10]);;
  if negb connects then emit (chars "mg_connect_websocket_client error: " ++ err ++ [10]);; mret []
  else
    txt ← new_block (replicate 128 VUndef);
    fr ← perform fuel pclient_data txt times arrivals 1 0 (conversation greetings);
    free txt;;
    emit ([10; 10] ++ chars "Print all text messages from server again:" ++ [10]);;
    print_loop fuel pclient_data (offset pclient_data msgs);;
    '(p1, p2) ← free_loop fuel (offset pclient_data msgs) NULL NULL;
    free p2;; free p1;;
    free pclient_data;;
    mret fr.

(** ** Proofs *)

(** The list of texts from the pointer [p] on. *)
Fixpoint texts (p : ptr) (xs : list (Z * list Z)) : hprop :=
  match xs with
  | [] => ⌜p = NULL⌝ ∧ emp
  | (t, x) :: xs' =>
      ∃ l ld nx, ⌜p = Some (l, 0%nat)⌝ ∧
        (l ↦ [VInt t; VPtr (Some (ld, 0%nat)); VInt (Z.of_nat (length x)); VPtr nx] ∗ ld ↦ (VInt <$> x) ∗ texts nx xs')
  end%I.

(** The client's structure with its texts. *)
Definition collected (l : nat) (t0 c : Z) (xs : list (Z * list Z)) : hprop :=
  (∃ p, l ↦ [VInt t0; VInt c; VPtr p] ∗ texts p xs)%I.

Section lists.
Implicit Types (w : world) (l : nat) (b : list val) (xs : list (Z * list Z)).

(** From any place that holds the pointer, the last link is found; a pointer stored there
    extends the list. *)
Lemma wpc_last_link l k b p xs fuel w Φ : b !! k = Some (VPtr p) -> (length xs < fuel)%nat ->
  l ↦ b -∗ texts p xs -∗
  (∀ l' k' b' (_ : (k' < length b')%nat), l' ↦ b' -∗
     (∀ q ys, l' ↦ <[k' := VPtr q]> b' -∗ texts q ys -∗ ∃ p', l ↦ <[k := VPtr p']> b ∗ texts p' (xs ++ ys)) -∗
     Φ (Some (l', k')) w) -∗
  wpc (last_link fuel (Some (l, k))) w Φ.
Proof.
  revert l k b p fuel. induction xs as [|[t1 x1] xs IH]; intros l k b p fuel Hk Hf; iIntros "Hl Hp HΦ";
    (destruct fuel as [|f]; [cbn in Hf; lia|]); cbn [last_link]; wpc_bind.
  - iDestruct "Hp" as "[-> _]". iApply (wpc_load_ptr _ _ 0%nat with "Hl"); [by rewrite Nat.add_0_r|]. iIntros "Hl". wpc_ret.
    iApply ("HΦ" $! l k b _ with "Hl"). iIntros (q ys) "Hl Hq". iExists q. iFrame. Unshelve. by eapply lookup_lt_Some.
  - cbn [texts]. iDestruct "Hp" as (l1 ld nx) "(-> & Hl1 & Hld & Hp)".
    iApply (wpc_load_ptr _ _ 0%nat with "Hl"); [by rewrite Nat.add_0_r|]. iIntros "Hl". cbn [offset fmap option_fmap option_map Nat.add].
    iApply (IH with "Hl1 Hp"); [done|cbn in Hf; lia|]. iIntros (l' k' b' Hb) "Hl' Hclose". iApply ("HΦ" $! l' k' b' Hb with "Hl'").
    iIntros (q ys) "Hl' Hq". iDestruct ("Hclose" with "Hl' Hq") as (p') "[Hl1 Hp]". iExists (Some (l1, 0%nat)).
    iSplitL "Hl"; [by rewrite list_insert_id|]. cbn [app texts]. iExists l1, ld, p'. by iFrame.
Qed.

Lemma wpc_store_text l t0 c xs now x fuel w Φ : (length xs < fuel)%nat ->
  collected l t0 c xs -∗ (collected l t0 c (xs ++ [(now, x)]) -∗ Φ tt w) -∗ wpc (store_text fuel (Some (l, 0%nat)) now x) w Φ.
Proof.
  iIntros (Hf) "(%p & Hl & Hp) HΦ". unfold store_text. wpc_bind. iApply wpc_malloc. iIntros (ln) "Hn".
  wpc_bind. iApply (wpc_store _ _ 0%nat with "Hn"); [cbn; lia|]. iIntros "Hn". wpc_bind. iApply wpc_malloc. iIntros (ld) "Hd".
  wpc_bind. iApply (wpc_store _ _ 1%nat with "Hn"); [cbn; lia|]. iIntros "Hn". wpc_bind.
  iApply (wpc_write_cells with "Hd"); [rewrite length_fmap length_replicate; lia|].
  rewrite splice_all; [|by rewrite length_fmap length_replicate]. iIntros "Hd".
  wpc_bind. iApply (wpc_store _ _ 2%nat with "Hn"); [cbn; lia|]. iIntros "Hn".
  wpc_bind. iApply (wpc_store _ _ 3%nat with "Hn"); [cbn; lia|]. iIntros "Hn". cbn [insert list_insert replicate Nat.add].
  wpc_bind. iApply (wpc_last_link l 2 with "Hl Hp"); [done|done|]. iIntros (l' k' b' Hb) "Hl' Hclose".
  iApply (wpc_store _ _ 0%nat with "Hl'"); [lia|]. rewrite Nat.add_0_r. iIntros "Hl'".
  iDestruct ("Hclose" $! _ [(now, x)] with "Hl' [Hn Hd]") as (p') "[Hl Hp]".
  { cbn [texts]. iExists ln, ld, NULL. by iFrame. }
  iApply "HΦ". iExists p'. iFrame.
Qed.

Lemma wpc_log l t0 c xs now x w Φ :
  collected l t0 c xs -∗ (collected l t0 c xs -∗ Φ tt (says w (column 10 (now - t0) ++ chars " - " ++ x))) -∗
  wpc (log (Some (l, 0%nat)) now x) w Φ.
Proof.
  iIntros "(%p & Hl & Hp) HΦ". unfold log. wpc_bind. iApply (wpc_load_int with "Hl"); [done|]. iIntros "Hl".
  iApply wpc_says. iApply "HΦ". iExists p. iFrame.
Qed.
End lists.

(** The texts among some events, and the answers to the pings. *)
Definition texts_of (es : list event) : list (Z * list Z) :=
  es ≫= (fun e => match e with
                  | Data now flags x => if Z.land flags 15 =? MG_WEBSOCKET_OPCODE_TEXT then [(now, x)] else []
                  | Closed _ => []
                  end).
Definition pongs (es : list event) : list frame :=
  es ≫= (fun e => match e with
                  | Data _ flags x => if Z.land flags 15 =? MG_WEBSOCKET_OPCODE_PING then [(MG_WEBSOCKET_OPCODE_PONG, x)] else []
                  | Closed _ => []
                  end).

(** What a conversation sends and collects when each sleep brings some events. *)
Fixpoint talk (arrivals : nat -> list event) (m : nat) (acts : list act) : list frame :=
  match acts with
  | [] => []
  | Send f :: acts' => f :: talk arrivals m acts'
  | Text x :: acts' => (MG_WEBSOCKET_OPCODE_TEXT, x) :: talk arrivals m acts'
  | Sleep :: acts' => pongs (arrivals m) ++ talk arrivals (S m) acts'
  | _ :: acts' => talk arrivals m acts'
  end.
Fixpoint arrived (arrivals : nat -> list event) (m : nat) (acts : list act) : list (Z * list Z) :=
  match acts with
  | [] => []
  | Sleep :: acts' => texts_of (arrivals m) ++ arrived arrivals (S m) acts'
  | _ :: acts' => arrived arrivals m acts'
  end.

(** The texts that are written to the array fit. *)
Definition fits (a : act) : Prop := match a with Text x => no_nul x /\ (length x < 128)%nat | _ => True end.
#[global] Instance frame_eq_dec : EqDecision frame.
Proof. unfold frame. apply _. Defined.
#[global] Instance fits_dec a : Decision (fits a).
Proof. destruct a; cbn; unfold no_nul; apply _. Defined.

Section handlers.
Implicit Types (w : world) (l : nat) (b : list val) (xs : list (Z * list Z)).

Lemma wpc_data_handler l t0 c xs fuel now flags x w Φ (e := [Data now flags x]) : (length (xs ++ texts_of e) <= fuel)%nat ->
  collected l t0 c xs -∗
  (∀ r y, collected l t0 c (xs ++ texts_of e) -∗ Φ (r, pongs e) (says w y)) -∗
  wpc (websocket_client_data_handler fuel (Some (l, 0%nat)) now flags x) w Φ.
Proof.
  iIntros (Hf) "Hc HΦ". unfold websocket_client_data_handler. cbv zeta. wpc_bind. iApply (wpc_log with "Hc"). iIntros "Hc".
  set (lg := column 10 _ ++ _). subst e. unfold texts_of, pongs in *. cbn [mbind list_bind app] in *. rewrite !app_nil_r in Hf |- *.
  destruct (Z.land flags 15 =? MG_WEBSOCKET_OPCODE_PING) eqn:E1.
  { assert (Z.land flags 15 =? MG_WEBSOCKET_OPCODE_TEXT = false) as -> by (apply Z.eqb_eq in E1 as ->; done).
    rewrite app_nil_r. wpc_ret. by iApply "HΦ". }
  destruct (Z.land flags 15 =? MG_WEBSOCKET_OPCODE_PONG) eqn:E2.
  { assert (Z.land flags 15 =? MG_WEBSOCKET_OPCODE_TEXT = false) as -> by (apply Z.eqb_eq in E2 as ->; done).
    rewrite app_nil_r. wpc_ret. by iApply "HΦ". }
  wpc_bind. destruct (Z.land flags 15 =? MG_WEBSOCKET_OPCODE_TEXT) eqn:E3.
  - assert (Z.land flags 15 =? MG_WEBSOCKET_OPCODE_CONNECTION_CLOSE = false) as -> by (apply Z.eqb_eq in E3 as ->; done).
    wpc_bind. iApply wpc_says. iApply (wpc_store_text with "Hc"). { rewrite length_app in Hf. cbn in Hf. lia. }
    iIntros "Hc". wpc_ret. rewrite says_says. by iApply "HΦ".
  - wpc_ret. rewrite app_nil_r. destruct (_ =? MG_WEBSOCKET_OPCODE_CONNECTION_CLOSE).
    + wpc_bind. iApply (wpc_log with "Hc"). iIntros "Hc". wpc_ret. rewrite says_says. by iApply "HΦ".
    + wpc_ret. by iApply "HΦ".
Qed.

Lemma wpc_handle l t0 c xs es fuel w Φ : (length (xs ++ texts_of es) <= fuel)%nat ->
  collected l t0 c xs -∗
  (∀ c' y, collected l t0 c' (xs ++ texts_of es) -∗ Φ (pongs es) (says w y)) -∗
  wpc (handle fuel (Some (l, 0%nat)) es) w Φ.
Proof.
  revert c xs w Φ. induction es as [|e es IH]; intros c xs w Φ Hf; iIntros "Hc HΦ"; cbn [handle].
  - wpc_ret. rewrite -{2}(says_nil w). iApply "HΦ". by rewrite app_nil_r.
  - assert (texts_of (e :: es) = texts_of [e] ++ texts_of es) as Ht by (unfold texts_of; by rewrite bind_cons /= app_nil_r).
    assert (pongs (e :: es) = pongs [e] ++ pongs es) as Hp by (unfold pongs; by rewrite bind_cons /= app_nil_r).
    rewrite Ht Hp app_assoc in Hf |- *. destruct e as [now flags x|now].
    + wpc_bind. iApply (wpc_data_handler with "Hc"). { rewrite length_app in Hf. lia. }
      iIntros (r y) "Hc". wpc_bind. iApply (IH with "Hc"); [done|]. iIntros (c' y') "Hc". wpc_ret. rewrite says_says. by iApply "HΦ".
    + cbn [texts_of pongs mbind list_bind app] in *. rewrite app_nil_r in Hf |- *. wpc_bind.
      unfold websocket_client_close_handler. iDestruct "Hc" as (p) "[Hl Hp]".
      wpc_bind. iApply (wpc_store _ _ 1%nat with "Hl"); [cbn; lia|]. iIntros "Hl". cbn [insert list_insert Nat.add].
      iApply (wpc_log l t0 now with "[Hl Hp]"); [iExists p; iFrame|]. iIntros "Hc". iApply (IH with "Hc"); [done|].
      iIntros (c' y') "Hc". rewrite says_says. by iApply "HΦ".
Qed.

Lemma wpc_perform l t0 c xs lt bt times arrivals acts fuel n m w Φ :
  Forall fits acts -> length bt = 128%nat -> (length (xs ++ arrived arrivals m acts) <= fuel)%nat ->
  collected l t0 c xs -∗ lt ↦ bt -∗
  (∀ c' y bt', collected l t0 c' (xs ++ arrived arrivals m acts) -∗ lt ↦ bt' -∗ Φ (talk arrivals m acts) (says w y)) -∗
  wpc (perform fuel (Some (l, 0%nat)) (Some (lt, 0%nat)) times arrivals n m acts) w Φ.
Proof.
  intros Ha. revert c xs bt n m w Φ. induction Ha as [|a acts Ha _ IH]; intros c xs bt n m w Φ Hbt Hf; iIntros "Hc Ht HΦ"; cbn [perform].
  - wpc_ret. rewrite -{2}(says_nil w). iApply ("HΦ" with "[Hc] Ht"). by rewrite app_nil_r.
  - destruct a as [x|f|x| |]; cbn [arrived talk] in *.
    + wpc_bind. iApply (wpc_log with "Hc"). iIntros "Hc". iApply (IH with "Hc Ht"); [done|done|].
      iIntros (c' y bt') "Hc Ht". rewrite says_says. by iApply ("HΦ" with "Hc Ht").
    + wpc_bind. iApply (IH with "Hc Ht"); [done|done|]. iIntros (c' y bt') "Hc Ht". wpc_ret. by iApply ("HΦ" with "Hc Ht").
    + destruct Ha as [Hn Hl]. wpc_bind. iApply (wpc_write_cells with "Ht"); [rewrite length_str_cells; lia|]. iIntros "Ht".
      wpc_bind. iApply (wpc_read_string with "Ht"); [apply str_in_write; [done|lia]|]. iIntros "Ht".
      wpc_bind. iApply (IH with "Hc Ht"); [|done|].
      { rewrite length_splice; rewrite ?length_str_cells; lia. }
      iIntros (c' y bt') "Hc Ht". wpc_ret. by iApply ("HΦ" with "Hc Ht").
    + wpc_bind. iApply (wpc_handle with "Hc"). { rewrite !length_app in Hf. rewrite length_app. lia. }
      iIntros (c' y) "Hc". wpc_bind. iApply (IH with "Hc Ht"); [done|by rewrite -app_assoc|]. iIntros (c'' y' bt') "Hc Ht". wpc_ret.
      rewrite says_says -app_assoc. by iApply ("HΦ" with "Hc Ht").
    + wpc_bind. iDestruct "Hc" as (p) "[Hl Hp]". iApply (wpc_load_int _ _ 1%nat with "Hl"); [done|]. iIntros "Hl".
      wpc_bind. iApply (wpc_log l t0 c xs with "[Hl Hp]"); [iExists p; iFrame|]. iIntros "Hc". iApply (IH with "Hc Ht"); [done|done|].
      iIntros (c' y bt') "Hc Ht". rewrite says_says. by iApply ("HΦ" with "Hc Ht").
Qed.
End handlers.

(** The lines of the list at the end. *)
Definition shown (t0 : Z) (m : Z * list Z) : list Z :=
  column 10 (m.1 - t0) ++ chars " - [" ++ column 5 (Z.of_nat (length m.2)) ++ chars "] " ++ m.2 ++ [10].

Section ending.
Implicit Types (w : world) (l : nat) (b : list val) (xs : list (Z * list Z)).

(** The two loops, once they have loaded the next pointer. *)
Definition print_from (f : nat) (pclient_data p : ptr) : C unit :=
  match p with
  | None => mret tt
  | Some _ =>
      t ← load_int p timestamp; t0 ← load_int pclient_data (Z.of_nat started); n ← load_int p len;
      d ← load_ptr p data; x ← read_cells d (Z.to_nat n);
      emit (column 10 (t - t0) ++ chars " - [" ++ column 5 n ++ chars "] ");;
      emit ((fun v => match v with VInt c => c | _ => 0 end) <$> x);; emit [10];;
      print_loop f pclient_data (offset p next)
  end.

Lemma wpc_print_from l t0 c q p xs fuel w Φ : (length xs <= fuel)%nat ->
  l ↦ [VInt t0; VInt c; VPtr q] -∗ texts p xs -∗
  (l ↦ [VInt t0; VInt c; VPtr q] -∗ texts p xs -∗ Φ tt (says w (xs ≫= shown t0))) -∗
  wpc (print_from fuel (Some (l, 0%nat)) p) w Φ.
Proof.
  revert p fuel w Φ. induction xs as [|[t x] xs IH]; intros p fuel w Φ Hf; iIntros "Hl Hp HΦ"; cbn [texts].
  - iDestruct "Hp" as "[-> _]". wpc_ret. rewrite says_nil. iApply ("HΦ" with "Hl"). done.
  - iDestruct "Hp" as (l1 ld nx) "(-> & Hn & Hd & Hp)". unfold print_from.
    wpc_bind. iApply (wpc_load_int _ _ 0%nat with "Hn"); [done|]. iIntros "Hn".
    wpc_bind. iApply (wpc_load_int _ _ 0%nat with "Hl"); [done|]. iIntros "Hl".
    wpc_bind. iApply (wpc_load_int _ _ 2%nat with "Hn"); [done|]. iIntros "Hn".
    wpc_bind. iApply (wpc_load_ptr _ _ 1%nat with "Hn"); [done|]. iIntros "Hn". rewrite Nat2Z.id.
    wpc_bind. iApply (wpc_read_cells with "Hd"); [by rewrite length_fmap|]. iIntros "Hd".
    assert ((fun v => match v with VInt c => c | _ => 0 end) <$> slice 0 (length x) (VInt <$> x) = x) as ->.
    { unfold slice. rewrite drop_0 take_ge; [|by rewrite length_fmap]. rewrite -list_fmap_compose. by apply list_fmap_id. }
    wpc_bind. iApply wpc_says. wpc_bind. iApply wpc_says. wpc_bind. iApply wpc_says. cbn [offset fmap option_fmap option_map Nat.add].
    destruct fuel as [|f]; [cbn in Hf; lia|]. cbn [print_loop]. fold (print_from f (Some (l, 0%nat))).
    wpc_bind. iApply (wpc_load_ptr _ _ 0%nat with "Hn"); [done|]. iIntros "Hn".
    iApply (IH with "Hl Hp"); [cbn in Hf; lia|]. iIntros "Hl Hp". rewrite !says_says. unfold shown at 1. cbn [fst snd].
    rewrite bind_cons -!app_assoc. iApply ("HΦ" with "Hl"). iExists l1, ld, nx. by iFrame.
Qed.

Definition free_from (f : nat) (p p1 p2 : ptr) : C (ptr * ptr) :=
  match p with
  | None => mret (p1, p2)
  | Some _ => d ← load_ptr p data; free d;; free p2;; free_loop f (offset p next) p p1
  end.

(** An element whose data was freed. *)
Definition shell (p : ptr) : hprop :=
  (⌜p = NULL⌝ ∧ emp ∨ ∃ l b, ⌜p = Some (l, 0%nat)⌝ ∧ l ↦ b)%I.

Lemma wpc_free_shell p w Φ : shell p -∗ Φ tt w -∗ wpc (free p) w Φ.
Proof.
  iIntros "[[-> _]|(%l & %b & -> & Hl)] HΦ"; [|by iApply (wpc_free with "Hl")].
  rewrite -(wpc_of_eq (free NULL) (mret tt)); [|done]. by wpc_ret.
Qed.

Lemma wpc_free_from p p1 p2 xs fuel w Φ : (length xs <= fuel)%nat ->
  texts p xs -∗ shell p1 -∗ shell p2 -∗ (∀ q1 q2, shell q1 -∗ shell q2 -∗ Φ (q1, q2) w) -∗ wpc (free_from fuel p p1 p2) w Φ.
Proof.
  revert p p1 p2 fuel. induction xs as [|[t x] xs IH]; intros p p1 p2 fuel Hf; iIntros "Hp H1 H2 HΦ"; cbn [texts].
  - iDestruct "Hp" as "[-> _]". wpc_ret. iApply ("HΦ" with "H1 H2").
  - iDestruct "Hp" as (l1 ld nx) "(-> & Hn & Hd & Hp)". unfold free_from.
    wpc_bind. iApply (wpc_load_ptr _ _ 1%nat with "Hn"); [done|]. iIntros "Hn". wpc_bind. iApply (wpc_free with "Hd").
    wpc_bind. iApply (wpc_free_shell with "H2"). cbn [offset fmap option_fmap option_map Nat.add].
    destruct fuel as [|f]; [cbn in Hf; lia|]. cbn [free_loop]. fold (free_from f). wpc_bind.
    iApply (wpc_load_ptr _ _ 0%nat with "Hn"); [done|]. iIntros "Hn".
    iApply (IH with "Hp [Hn] H1 HΦ"); [cbn in Hf; lia|]. iRight. iExists l1, _. by iFrame.
Qed.
End ending.

Lemma conversation_fits greetings : Forall fits (conversation greetings).
Proof. destruct greetings as [g|]; by_compute. Qed.

Section run.
Context (fuel : nat) (place err : list Z) (greetings : option (list Z)) (times : nat -> Z) (arrivals : nat -> list event).
Let got : list (Z * list Z) := arrived arrivals 0 (conversation greetings).

Definition heading : list Z := [10; 10] ++ chars "Print all text messages from server again:" ++ [10].

(** The structure that [run_websocket_client] makes. *)
Lemma wpc_made {A} (k : ptr -> C A) w Φ :
  (∀ l, collected l (times 0%nat) 0 [] -∗ wpc (k (Some (l, 0%nat))) w Φ) ⊢
  wpc (pclient_data ← malloc 3;
       store pclient_data (Z.of_nat started) (VInt (times 0%nat));;
       store pclient_data (Z.of_nat closed) (VInt 0);;
       store pclient_data (Z.of_nat msgs) (VPtr NULL);; k pclient_data) w Φ.
Proof.
  iIntros "HΦ". wpc_bind. iApply wpc_malloc. iIntros (l) "Hl". do 3 (wpc_bind; iApply (wpc_store with "Hl"); [rewrite ?length_insert length_replicate; unfold started, closed, msgs; lia|]; iIntros "Hl").
  cbn [insert list_insert replicate Nat.add started closed msgs]. iApply "HΦ". iExists NULL. iFrame. cbn [texts]. done.
Qed.

Lemma wpc_client w : (length got < fuel)%nat ->
  ⊢ wpc (run_websocket_client fuel true place err greetings times arrivals) w (fun fr w' =>
    ⌜exists y, fr = talk arrivals 0 (conversation greetings) /\ w' = says w (y ++ heading ++ (got ≫= shown (times 0%nat)))⌝ ∧ emp).
Proof.
  intros Hf. unfold got in *. iStartProof. unfold run_websocket_client. iApply wpc_made. iIntros (l) "Hc". wpc_bind. iApply wpc_says. cbn [negb].
  wpc_bind. iApply wpc_new_block. iIntros (lt) "Ht". wpc_bind.
  iApply (wpc_perform with "Hc Ht"); [apply conversation_fits|done|cbn [app]; lia|]. iIntros (c' y bt') "Hc Ht". cbn [app].
  wpc_bind. iApply (wpc_free with "Ht"). wpc_bind. iApply wpc_says. destruct fuel as [|f]; [lia|]. iDestruct "Hc" as (p) "[Hl Hp]".
  cbn [print_loop free_loop offset fmap option_fmap option_map Nat.add]. fold (print_from f (Some (l, 0%nat))) (free_from f).
  wpc_bind. wpc_bind. iApply (wpc_load_ptr _ _ 0%nat with "Hl"); [done|]. iIntros "Hl".
  iApply (wpc_print_from with "Hl Hp"); [lia|]. iIntros "Hl Hp". rewrite !says_says.
  wpc_bind. wpc_bind. iApply (wpc_load_ptr _ _ 0%nat with "Hl"); [done|]. iIntros "Hl".
  iApply (wpc_free_from with "Hp [] []"); [lia|by iLeft|by iLeft|]. iIntros (q1 q2) "H1 H2".
  wpc_bind. iApply (wpc_free_shell with "H2"). wpc_bind. iApply (wpc_free_shell with "H1"). wpc_bind. iApply (wpc_free with "Hl"). wpc_ret.
  iSplit; [|done]. iPureIntro. eexists. split; [done|]. exact (f_equal (says w) (app_assoc _ y _)).
Qed.

(** C12: when the connection is made, whatever arrives and whenever: the client ends without fault,
    has sent its own frames in order, each ping answered with its data where it arrived,
    prints all the texts it was sent, in order, and releases all memory, each block once.
    Enough fuel is one more than the number of texts. When the connection fails, the
    structure is not released. *)
Theorem client_collects_texts w : (length got < fuel)%nat ->
  (exists y, run_websocket_client fuel true place err greetings times arrivals (mem ∅ w) =
     Ok (talk arrivals 0 (conversation greetings), mem ∅ (says w (y ++ heading ++ (got ≫= shown (times 0%nat)))))) /\
  exists l b w', run_websocket_client fuel false place err greetings times arrivals (mem ∅ w) = Ok ([], mem {[l := b]} w').
Proof.
  intros Hf. split.
  - destruct (wpc_run _ _ _ (wpc_client w Hf)) as (a & w' & h & -> & [(y & -> & ->) ->]%holds_pure_emp). by exists y.
  - destruct (wpc_run (run_websocket_client fuel false place err greetings times arrivals) w
      (fun fr w' => ∃ l b, ⌜fr = []⌝ ∧ l ↦ b)%I) as (a & w' & h & -> & (l & b & -> & ->)); [|by exists l, b, w'].
    unfold run_websocket_client. iStartProof. iApply wpc_made. iIntros (l) "(%p & Hl & Hp)". wpc_bind. iApply wpc_says. cbn [negb].
    wpc_bind. iApply wpc_says. wpc_ret. iExists l, _. iDestruct "Hp" as "[-> _]". by iFrame.
Qed.
End run.

Definition demo (m : nat) : list event :=
  if (m =? 3)%nat then [Data 7 129 (chars "a"); Data 8 137 [1; 2]; Data 9 129 (chars "bc")] else [].
Lemma demo_arrived : arrived demo 0 (conversation None) = [(7, chars "a"); (9, chars "bc")].
Proof. by_compute. Qed.

Lemma client_collects_texts_witness : exists y,
  run_websocket_client 3 true (chars "localhost:443") [] None (fun _ => 5) demo (mem ∅ (mk_world [] [] NULL)) =
    Ok (talk demo 0 (conversation None),
        mem ∅ (says (mk_world [] [] NULL) (y ++ heading ++ ([(7, chars "a"); (9, chars "bc")] ≫= shown 5)))) /\
  (MG_WEBSOCKET_OPCODE_PONG, [1; 2]) ∈ talk demo 0 (conversation None).
Proof.
  destruct (client_collects_texts 3 (chars "localhost:443") [] None (fun _ => 5) demo (mk_world [] [] NULL)) as [(y & E) _].
  - rewrite demo_arrived. cbn. lia.
  - exists y. rewrite demo_arrived in E. split; [exact E|by_compute].
Defined.

End Client.

Module Server.

(** The cells of the context of a client. *)
Definition connectionNumber : Z := 0.

(** The result, the context and the counter of connections. The subprotocol is null when the
    client asked for none. *)
Definition ws_connect_handler (allocated : bool) (proto : option (list Z)) (connectionCounter : Z) : C (Z * ptr * Z) :=
  if negb allocated then mret (1, NULL, connectionCounter)
  else
    wsCliCtx ← calloc 2;
    let connectionCounter := u32 (connectionCounter + 1) in
    store wsCliCtx connectionNumber (VInt connectionCounter);;
    match proto with
    | None => stfail NullDeref
    | Some x => n ← load_int wsCliCtx connectionNumber; emit (chars "Client " ++ dec n ++ chars " connected with subprotocol: " ++ x ++ [10])
    end;;
    mret (0, wsCliCtx, connectionCounter).

Definition ws_ready_handler (wsCliCtx : ptr) : C (list frame) :=
  n ← load_int wsCliCtx connectionNumber;
  emit (chars "Client " ++ dec n ++ chars " ready to receive data" ++ [10]);;
  mret [(MG_WEBSOCKET_OPCODE_TEXT, chars "{}")].

Definition message_type (opcode : Z) : list Z :=
  let op := Z.land opcode 15 in
  if op =? MG_WEBSOCKET_OPCODE_TEXT then chars "text"
  else if op =? MG_WEBSOCKET_OPCODE_BINARY then chars "binary"
  else if op =? MG_WEBSOCKET_OPCODE_PING then chars "ping"
  else if op =? MG_WEBSOCKET_OPCODE_PONG then chars "pong"
  else [].

Definition ws_data_handler (wsCliCtx : ptr) (opcode : Z) (data : list Z) : C Z :=
  n ← load_int wsCliCtx connectionNumber;
  emit (chars "Websocket received " ++ dec (Z.of_nat (length data)) ++ chars " bytes of " ++ message_type opcode ++
        chars " data from client " ++ dec n ++ [10]);;
  mret 1.

Definition ws_close_handler (wsCliCtx : ptr) : C unit :=
  n ← load_int wsCliCtx connectionNumber;
  emit (chars "Client " ++ dec n ++ chars " closing connection" ++ [10]);;
  free wsCliCtx.

(** The calls of the library: a connection is made, has shaken hands, brings data, ends. *)
Inductive call :=
  | Connect (c : nat) (allocated : bool) (proto : option (list Z))
  | Ready (c : nat)
  | Receive (c : nat) (opcode : Z) (data : list Z)
  | Close (c : nat).

(** The counter of connections, and what the library keeps for each. *)
Definition server : Type := Z * gmap nat ptr.

(** The context of a connection; the library has none for others. *)
Definition user_data (users : gmap nat ptr) (c : nat) : ptr := mjoin (users !! c).

(** A call and the frames sent, with the connection they are sent on. *)
Definition dispatch (k : call) (s : server) : C (list (nat * frame) * server) :=
  let '(n, users) := s in
  match k with
  | Connect c allocated proto =>
      '(r, p, n') ← ws_connect_handler allocated proto n;
      mret ([], (n', if r =? 0 then <[c := p]> users else users))
  | Ready c => fr ← ws_ready_handler (user_data users c); mret ((c,.) <$> fr, s)
  | Receive c opcode data => ws_data_handler (user_data users c) opcode data;; mret ([], s)
  | Close c => ws_close_handler (user_data users c);; mret ([], (n, delete c users))
  end.

Fixpoint serve (ks : list call) (s : server) : C (list (nat * frame) * server) :=
  match ks with
  | [] => mret ([], s)
  | k :: ks' => '(fr, s') ← dispatch k s; '(fr', s'') ← serve ks' s'; mret (fr ++ fr', s'')
  end.

(** ** What the calls mean *)

(** The number of connections made and the number of each open one. [None] is a call the
    library does not make (a second connection under one identity, or a call for a connection
    that is not open) or a client that asked for no subprotocol. *)
Definition numbers : Type := Z * gmap nat Z.
Definition meaning (k : call) (s : numbers) : option (list (nat * frame) * list Z * numbers) :=
  let '(n, nums) := s in
  match k with
  | Connect c false _ => Some ([], [], s)
  | Connect c true proto =>
      x ← proto;
      match nums !! c with
      | Some _ => None
      | None => let n' := u32 (n + 1) in
          Some ([], chars "Client " ++ dec n' ++ chars " connected with subprotocol: " ++ x ++ [10], (n', <[c := n']> nums))
      end
  | Ready c => i ← nums !! c;
      Some ([(c, (MG_WEBSOCKET_OPCODE_TEXT, chars "{}"))], chars "Client " ++ dec i ++ chars " ready to receive data" ++ [10], s)
  | Receive c opcode data => i ← nums !! c;
      Some ([], chars "Websocket received " ++ dec (Z.of_nat (length data)) ++ chars " bytes of " ++ message_type opcode ++
        chars " data from client " ++ dec i ++ [10], s)
  | Close c => i ← nums !! c; Some ([], chars "Client " ++ dec i ++ chars " closing connection" ++ [10], (n, delete c nums))
  end.
Fixpoint meanings (ks : list call) (s : numbers) : option (list (nat * frame) * list Z * numbers) :=
  match ks with
  | [] => Some ([], [], s)
  | k :: ks' => '(fr, x, s') ← meaning k s; '(fr', x', s'') ← meanings ks' s'; Some (fr ++ fr', x ++ x', s'')
  end.

(** Each open connection has a context of its own with its number. *)
Definition contexts (users : gmap nat ptr) (nums : gmap nat Z) : hprop :=
  ([∗ map] c ↦ p;i ∈ users;nums, ∃ l, ⌜p = Some (l, 0%nat)⌝ ∧ l ↦ [VInt i; VInt 0])%I.

Section server.
Implicit Types (users : gmap nat ptr) (nums : gmap nat Z) (w : world).


(** The context of an open connection, and the others. *)
Lemma contexts_take users nums c i : nums !! c = Some i ->
  contexts users nums ⊢ ∃ l, ⌜users !! c = Some (Some (l, 0%nat))⌝ ∧
    (l ↦ [VInt i; VInt 0] ∗ contexts (delete c users) (delete c nums)).
Proof.
  iIntros (Hi) "H". unfold contexts. iDestruct (big_sepM2_dom with "H") as %Hd.
  assert (is_Some (users !! c)) as [p Hp] by (apply elem_of_dom; rewrite Hd; by apply elem_of_dom_2 in Hi).
  iDestruct (big_sepM2_delete with "H") as "[(%l & %El & Hl) H]"; [done|done|]. subst p. iExists l. iFrame. done.
Qed.
Lemma contexts_put users nums c i l : users !! c = Some (Some (l, 0%nat)) -> nums !! c = Some i ->
  l ↦ [VInt i; VInt 0] -∗ contexts (delete c users) (delete c nums) -∗ contexts users nums.
Proof. iIntros (Hu Hi) "Hl H". unfold contexts. iApply big_sepM2_delete; [done|done|]. iFrame "H". iExists l. by iFrame. Qed.

Lemma wpc_number {A} users nums c i w (k : Z -> C A) Φ : nums !! c = Some i -> contexts users nums -∗
  (contexts users nums -∗ wpc (k i) w Φ) -∗ wpc (n ← load_int (user_data users c) connectionNumber; k n) w Φ.
Proof.
  iIntros (Hi) "Hc HΦ". iDestruct (contexts_take with "Hc") as (l Hl) "[Hl Hc]"; [done|]. unfold user_data. rewrite Hl. cbn [mjoin option_join].
  wpc_bind. iApply (wpc_load_int _ _ 0%nat with "Hl"); [done|]. iIntros "Hl". iApply "HΦ". by iApply (contexts_put with "Hl Hc").
Qed.

Lemma wpc_dispatch k n users nums fr x n' nums' w Φ : meaning k (n, nums) = Some (fr, x, (n', nums')) ->
  contexts users nums -∗ (∀ users', contexts users' nums' -∗ Φ (fr, (n', users')) (says w x)) -∗ wpc (dispatch k (n, users)) w Φ.
Proof.
  iIntros (E) "Hc HΦ". destruct k as [c [|] proto|c|c op data|c]; unfold dispatch; cbn in E.
  - destruct proto as [y|]; [cbn in E|done]. destruct (nums !! c) eqn:Hn; [done|]. simplify_eq.
    wpc_bind. unfold ws_connect_handler. cbn [negb]. wpc_bind. iApply wpc_calloc. iIntros (l) "Hl".
    wpc_bind. iApply (wpc_store _ _ 0%nat with "Hl"); [cbn; lia|]. iIntros "Hl". wpc_bind. wpc_bind.
    iApply (wpc_load_int _ _ 0%nat with "Hl"); [done|]. iIntros "Hl". iApply wpc_says. wpc_ret. wpc_ret. cbn [Z.eqb].
    iApply "HΦ". iDestruct (big_sepM2_dom with "Hc") as %Hd. iApply big_sepM2_insert; [|done|].
    { apply not_elem_of_dom. rewrite Hd. by apply not_elem_of_dom. }
    iFrame "Hc". iExists l. by iFrame.
  - simplify_eq. wpc_bind. unfold ws_connect_handler. cbn [negb]. wpc_ret. wpc_ret. cbn [Z.eqb]. rewrite says_nil. by iApply "HΦ".
  - destruct (nums !! c) as [i|] eqn:Hn; [cbn in E; simplify_eq|done]. wpc_bind. unfold ws_ready_handler.
    iApply (wpc_number with "Hc"); [done|]. iIntros "Hc". wpc_bind. iApply wpc_says. wpc_ret. wpc_ret. cbn. by iApply "HΦ".
  - destruct (nums !! c) as [i|] eqn:Hn; [cbn in E; simplify_eq|done]. wpc_bind. unfold ws_data_handler.
    iApply (wpc_number with "Hc"); [done|]. iIntros "Hc". wpc_bind. iApply wpc_says. wpc_ret. wpc_ret. by iApply "HΦ".
  - destruct (nums !! c) as [i|] eqn:Hn; [cbn in E; simplify_eq|done]. wpc_bind. unfold ws_close_handler.
    iApply (wpc_number with "Hc"); [done|]. iIntros "Hc". wpc_bind. iApply wpc_says.
    iDestruct (contexts_take with "Hc") as (l Hl) "[Hl Hc]"; [done|]. unfold user_data. rewrite Hl. cbn [mjoin option_join].
    iApply (wpc_free with "Hl"). wpc_ret. by iApply "HΦ".
Qed.

Lemma wpc_serve ks n users nums fr x n' nums' w : meanings ks (n, nums) = Some (fr, x, (n', nums')) ->
  contexts users nums ⊢ wpc (serve ks (n, users)) w (fun r w' => ∃ users', ⌜r = (fr, (n', users')) /\ w' = says w x⌝ ∧ contexts users' nums').
Proof.
  revert n users nums fr x w. induction ks as [|k ks IH]; intros n users nums fr x w E; cbn [meanings] in E.
  - simplify_eq. cbn [serve]. iIntros "Hc". wpc_ret. iExists users. rewrite says_nil. iSplit; [done|]. done.
  - destruct (meaning k (n, nums)) as [[[fr1 x1] [n1 nums1]]|] eqn:E1; [cbn [mbind option_bind] in E|done].
    destruct (meanings ks (n1, nums1)) as [[[fr2 x2] [n2 nums2]]|] eqn:E2; [cbn [mbind option_bind] in E; simplify_eq|done].
    iIntros "Hc". cbn [serve]. wpc_bind. iApply (wpc_dispatch with "Hc"); [done|]. iIntros (users1) "Hc". wpc_bind.
    iApply (wpc_wand with "[Hc]"); [by iApply IH|]. iIntros (r w') "(%users2 & %Hr & Hc)". destruct Hr as [-> ->]. wpc_ret. iExists users2. rewrite says_says. iSplit; [done|]. done.
Qed.

Lemma contexts_none users : contexts users ∅ ⊢ emp.
Proof.
  unfold contexts. iIntros "H". iDestruct (big_sepM2_dom with "H") as %Hd. rewrite dom_empty_L in Hd. apply dom_empty_inv_L in Hd as ->.
  by rewrite big_sepM2_empty.
Qed.

(** Numbers of open connections are among those given, and no two are equal. *)
Lemma meanings_numbers ks n nums fr x n' nums' : meanings ks (n, nums) = Some (fr, x, (n', nums')) -> 0 <= n -> n + Z.of_nat (length ks) < 2 ^ 32 ->
  (forall c i, nums !! c = Some i -> 1 <= i <= n) -> (forall c d i, nums !! c = Some i -> nums !! d = Some i -> c = d) ->
  (forall c i, nums' !! c = Some i -> 1 <= i <= n') /\ (forall c d i, nums' !! c = Some i -> nums' !! d = Some i -> c = d).
Proof.
  revert n nums fr x. induction ks as [|k ks IH]; intros n nums fr x E Hn Hl Hr Hi; cbn [meanings] in E; [by simplify_eq|].
  destruct (meaning k (n, nums)) as [[[fr1 x1] [n1 nums1]]|] eqn:E1; [cbn [mbind option_bind] in E|done].
  destruct (meanings ks (n1, nums1)) as [[[fr2 x2] [n2 nums2]]|] eqn:E2; [cbn in E; simplify_eq|done].
  cbn [length] in Hl. assert (Hu : u32 (n + 1) = n + 1) by (apply Z.mod_small; lia).
  enough ((n1 = n \/ n1 = n + 1) /\ (forall c i, nums1 !! c = Some i -> 1 <= i <= n1) /\
    (forall c d i, nums1 !! c = Some i -> nums1 !! d = Some i -> c = d)) as (? & ? & ?).
  { eapply IH; [exact E2|lia|lia|done|done]. }
  destruct k as [c [|] proto|c|c op data|c]; cbn in E1;
    [|simplify_eq; by eauto|destruct (nums !! c) eqn:Hc; [cbn in E1; simplify_eq|done]..]; [|by eauto|by eauto|].
  - destruct proto; [cbn in E1|done]. destruct (nums !! c) eqn:Hc; [done|]. simplify_eq. rewrite Hu. split; [by right|]. split.
    + intros d i [[-> <-]|[_ ?%Hr]]%lookup_insert_Some; lia.
    + intros d e i [[-> <-]|[Hd Hd']]%lookup_insert_Some [[-> He]|[He He']]%lookup_insert_Some; try done.
      * apply Hr in He'. lia.
      * apply Hr in Hd'. lia.
      * by eapply Hi.
  - split; [by left|]. split.
    + intros d i [_ ?%Hr]%lookup_delete_Some. done.
    + intros d e i [_ Hd]%lookup_delete_Some [_ He]%lookup_delete_Some. by eapply Hi.
Qed.

(** C26: a sequence of calls as the library makes them, in which a client is connected, with a
    subprotocol, before anything else is told of it, and closed at most once, runs without
    fault and means what it should: the server prints the number of the client with each event,
    counts the clients from 1, sends the text [{}] to each client that is ready and
    nothing else, and leaves in memory exactly the contexts of the open connections: one block each,
    with its number. When all are closed none is left. The numbers of fewer than [2^32]
    connections are different. A client without a subprotocol is printed as a null string. *)
Theorem server_numbers_clients ks fr x n nums w : meanings ks (0, ∅) = Some (fr, x, (n, nums)) ->
  (exists users h, serve ks (0, ∅) (mem ∅ w) = Ok ((fr, (n, users)), mem h (says w x)) /\ holds (contexts users nums) h /\ (nums = ∅ -> h = ∅)) /\
  (Z.of_nat (length ks) < 2 ^ 32 -> forall c d i, nums !! c = Some i -> nums !! d = Some i -> c = d) /\
  (forall c s h, dispatch (Connect c true None) s (mem h w) = Err NullDeref).
Proof.
  intros E. split; [|split].
  - destruct (wpc_run (serve ks (0, ∅)) w (fun r w' => ∃ users', ⌜r = (fr, (n, users')) /\ w' = says w x⌝ ∧ contexts users' nums)%I)
      as (r & w' & h & Es & (users & [-> ->] & Hh)).
    { iStartProof. iApply (wpc_serve with "[]"); [exact E|]. unfold contexts. by iApply big_sepM2_empty. }
    exists users, h. split; [done|]. split; [done|]. intros ->. by apply (proj1 (hprop_entails _ _) (contexts_none users)) in Hh.
  - intros Hl. eapply (meanings_numbers ks 0 ∅); [exact E|lia|lia|done|done].
  - intros c [m users] h. eapply (wpe_adequate _ True%I); [|done]. iStartProof. iIntros "H". unfold dispatch. iApply wpe_bind_err.
    unfold ws_connect_handler. cbn [negb]. iApply wpe_bind. iApply wpc_calloc. iIntros (l) "Hl". iApply wpe_bind.
    iApply (wpc_store _ _ 0%nat with "Hl"); [cbn; lia|]. iIntros "Hl". iApply wpe_bind_err. by iApply (wpe_fail with "Hl").
Qed.
End server.

Lemma server_numbers_clients_witness : exists users h x,
  serve [Connect 3 true (Some (chars "json")); Connect 4 true (Some (chars "bin")); Ready 4; Receive 3 129 [1; 2]; Close 3] (0, ∅)
    (mem ∅ (mk_world [] [] NULL)) =
  Ok (([(4%nat, (MG_WEBSOCKET_OPCODE_TEXT, chars "{}"))], (2, users)), mem h (says (mk_world [] [] NULL) x)) /\
  holds (contexts users {[4%nat := 2]}) h.
Proof.
  edestruct (server_numbers_clients [Connect 3 true (Some (chars "json")); Connect 4 true (Some (chars "bin")); Ready 4; Receive 3 129 [1; 2]; Close 3])
    as [(users & h & E & Hh & _) _]; [vm_compute; reflexivity|]. exists users, h. eexists. split; [exact E|exact Hh].
Defined.
End Server.
