(* ===== verification/PacketRing.v ===== *)
(** * Packet sockets with rings

    src/sock-raw-mmap-packet-ip: client and server exchange Ethernet frames through rings
    that they share with the kernel. Module [Packet] has the packet the client makes and the
    server prints, with its checksum; [Setup] the sockets; [Rx] the server's ring and [Tx]
    the client's, each as a step relation in which the kernel and the program act in any
    order. The kernel's side is the documented one of a TPACKET_V2 ring: it goes through the
    frames in turn and touches only those that are its own. *)
From stdpp Require Import base numbers list gmap strings.
From S2P Require Import Prelude CBase CDecimal CHeap Hex.
Local Open Scope Z_scope.

Definition CONF_RING_FRAMES : nat := 2.
Definition FRAME_SIZE : nat := 2048.

(** [TPACKET_ALIGN] and the sizes of the kernel's structures. *)
Definition TPACKET_ALIGN (x : nat) : nat := (x + 15) / 16 * 16.
Definition sizeof_tpacket2_hdr : nat := 32.
Definition sizeof_sockaddr_ll : nat := 20.
Definition sizeof_ethhdr : nat := 14.
Definition sizeof_iphdr : nat := 20.

Definition TX_DATA_OFFSET : nat := TPACKET_ALIGN sizeof_tpacket2_hdr.
Definition RX_DATA_OFFSET : nat := TX_DATA_OFFSET + 34.

(** Where the kernel puts a received Ethernet header ([tp_mac]), and where it takes the data
    of a frame to send from. *)
Definition TPACKET2_HDRLEN : nat := TPACKET_ALIGN sizeof_tpacket2_hdr + sizeof_sockaddr_ll.
Definition tp_mac : nat := TPACKET_ALIGN (TPACKET2_HDRLEN + 16) - sizeof_ethhdr.
Definition tx_data : nat := TPACKET2_HDRLEN - sizeof_sockaddr_ll.

(** The place after [n] modulo the number of frames. *)
Lemma ring_next n : Nat.modulo (S n) CONF_RING_FRAMES = Nat.modulo (S (Nat.modulo n CONF_RING_FRAMES)) CONF_RING_FRAMES.
Proof. rewrite <- !Nat.add_1_l, (Nat.Div0.add_mod 1 n). by rewrite Nat.Div0.add_mod_idemp_l. Qed.

Module Packet.

(** The loop of the checksum: the sum of the words at the front of the memory. *)
Fixpoint ipcsum_loop (nwords : nat) (mem : list Z) (sum : Z) : res Z :=
  match nwords with
  | O => Ok sum
  | S n =>
      match mem with
      | a :: b :: mem' => ipcsum_loop n mem' (u64 (sum + (a + 256 * b)))
      | _ => Err OutOfBounds
      end
  end.
Definition ipcsum (mem : list Z) (nwords : nat) : res Z :=
  sum ← ipcsum_loop nwords mem 0;
  let sum := Z.shiftr sum 16 + Z.land sum 65535 in
  let sum := sum + Z.shiftr sum 16 in
  Ok (u16 (Z.lnot sum)).

Definition server_hw_addr : list Z := [170; 170; 170; 1; 1; 1].
Definition client_hw_addr : list Z := [170; 170; 170; 2; 2; 2].

(** What the two programs put into their headers: addresses and type of service. *)
Record side := mk_side { h_dest : list Z; h_source : list Z; tos : Z; saddr : list Z; daddr : list Z }.
Definition server_side : side := mk_side client_hw_addr server_hw_addr 0 [192; 168; 10; 1] [192; 168; 10; 2].
Definition client_side : side := mk_side server_hw_addr client_hw_addr 16 [192; 168; 10; 2] [192; 168; 10; 1].

Definition eth_header (c : side) : list Z := h_dest c ++ h_source c ++ be16 2048.
Definition ip_header (c : side) (msglen check : Z) : list Z :=
  [69; tos c] ++ be16 (u16 (20 + msglen)) ++ be16 54321 ++ [0; 0] ++ [64; 253] ++ le_bytes 2 check ++ saddr c ++ daddr c.

(** The packet for [msg]. [after] is the memory behind the block of the packet: the checksum is
    asked for [20 + msglen] words of two bytes, in a block with [20 + msglen] bytes left. *)
Definition make_ip_packet (c : side) (after msg : list Z) : res (list Z) :=
  let msglen := Z.of_nat (length msg) in
  check ← ipcsum (ip_header c msglen 0 ++ replicate (length msg) 0 ++ after) (sizeof_iphdr + length msg);
  Ok (eth_header c ++ ip_header c msglen check ++ msg).

(** The client, with its own copies, and its call. *)
Definition hellodata : list Z := chars "hello friend".
Definition client_ipcsum (mem : list Z) (nwords : nat) : res Z := ipcsum mem nwords.
Definition client_make_ip_packet (after msg : list Z) : res (list Z) := make_ip_packet client_side after msg.
Definition new_packet (after : list Z) : res (list Z) := client_make_ip_packet after hellodata.

(** The text printed for the packet at the front of the memory. *)
Definition view_ip_packet (mem : list Z) : res (list Z) :=
  let h_dest := slice 0 6 mem in
  if (length mem <? 34)%nat then Err OutOfBounds
  else
    match c_string (drop 34 mem) with
    | None => Err OutOfBounds
    | Some data =>
        let colons := match (fun b => [Hex.digit_lower (b / 16); Hex.digit_lower (b mod 16)]) <$> h_dest with
                      | [] => [] | x :: xs => x ++ (xs ≫= fun y => 58 :: y) end in
        Ok (chars "dst mac: " ++ colons ++ [10] ++ chars "dst address: " ++ dec (s32 (le_val (slice 30 4 mem))) ++ [10] ++
            chars "data: " ++ data ++ [10])
    end.


(** ** Proofs *)

(** The sum of the first [n] words. *)
Fixpoint words (n : nat) (mem : list Z) : Z :=
  match n, mem with
  | S n', a :: b :: mem' => a + 256 * b + words n' mem'
  | _, _ => 0
  end.

Lemma words_range n mem : Forall is_byte mem -> 0 <= words n mem <= 65535 * Z.of_nat n.
Proof.
  revert mem. induction n as [|n IH]; intros mem Hm; [by destruct mem|]. destruct mem as [|a [|b mem]]; [cbn; lia|cbn; lia|].
  rewrite !Forall_cons in Hm. destruct Hm as (Ha & Hb & Hm). specialize (IH mem Hm). unfold is_byte in *. cbn [words]. lia.
Qed.
Lemma words_app n m mem mem' : length mem = (2 * n)%nat -> words (n + m) (mem ++ mem') = words n mem + words m mem'.
Proof.
  revert mem. induction n as [|n IH]; intros mem Hl.
  - by destruct mem.
  - destruct mem as [|a [|b mem]]; [cbn in Hl; lia|cbn in Hl; lia|]. cbn [words app Nat.add]. rewrite IH; [lia|cbn in Hl; lia].
Qed.

Lemma ipcsum_loop_ok n mem sum : Forall is_byte mem -> (2 * n <= length mem)%nat -> 0 <= sum -> sum + 65535 * Z.of_nat n < 2 ^ 64 ->
  ipcsum_loop n mem sum = Ok (sum + words n mem).
Proof.
  revert mem sum. induction n as [|n IH]; intros mem sum Hm Hl Hs Hb; [cbn; by rewrite Z.add_0_r|].
  destruct mem as [|a [|b mem]]; [cbn in Hl; lia|cbn in Hl; lia|]. rewrite !Forall_cons in Hm. destruct Hm as (Ha & Hb' & Hm). unfold is_byte in *.
  cbn [ipcsum_loop words]. unfold u64. rewrite wrapu_small by lia. rewrite IH; [f_equal; lia|done|cbn in Hl; lia|lia|lia].
Qed.
Lemma ipcsum_loop_short n mem sum : (length mem < 2 * n)%nat -> ipcsum_loop n mem sum = Err OutOfBounds.
Proof.
  revert mem sum. induction n as [|n IH]; intros mem sum Hl; [lia|]. destruct mem as [|a [|b mem]]; [done|done|]. cbn. apply IH. cbn in Hl. lia.
Qed.

(** The two folds and the complement. *)
Lemma fold_complement S : 0 <= S <= 65535 * 65536 ->
  let s1 := Z.shiftr S 16 + Z.land S 65535 in
  exists c, u16 (Z.lnot (s1 + Z.shiftr s1 16)) = c /\ 0 <= c < 65536 /\ (S + c) mod 65535 = 0.
Proof.
  intros HS s1. eexists. split; [reflexivity|]. unfold u16, wrapu. split; [apply Z.mod_pos_bound; lia|].
  assert (s1 = S / 65536 + S mod 65536) as E1.
  { unfold s1. rewrite Z.shiftr_div_pow2 by lia. change 65535 with (Z.ones 16) at 1. by rewrite (Z.land_ones S 16) by lia. }
  rewrite (Z.shiftr_div_pow2 s1) by lia. change (2 ^ 16) with 65536.
  replace (Z.lnot (s1 + s1 / 65536)) with (- (s1 + s1 / 65536) - 1) by (unfold Z.lnot; lia).
  assert (exists k, S + (- (s1 + s1 / 65536) - 1) mod 65536 = 65535 * k) as [k ->]; [|by rewrite Z.mul_comm, Z.mod_mul].
  assert (0 <= S / 65536 <= 65535) by (split; [apply Z.div_pos; lia|apply Z.lt_succ_r, Z.div_lt_upper_bound; lia]).
  pose proof (Z.mod_pos_bound S 65536 ltac:(lia)). pose proof (Z.div_mod S 65536 ltac:(lia)).
  destruct (decide (s1 < 65536)).
  - exists (S / 65536 + 1). rewrite (Z.div_small s1) by lia. rewrite <- (Z.mod_unique (- (s1 + 0) - 1) 65536 (-1) (65535 - s1)) by lia. lia.
  - exists (S / 65536 + 2). replace (s1 / 65536) with 1 by (apply (Z.div_unique s1 65536 1 (s1 - 65536)); lia).
    rewrite <- (Z.mod_unique (- (s1 + 1) - 1) 65536 (-2) (131070 - s1)) by lia. lia.
Qed.

(** With its checksum a run of up to 65536 words has the sum 0 in ones' complement. *)
Lemma ipcsum_verifies mem n : Forall is_byte mem -> (2 * n <= length mem)%nat -> Z.of_nat n <= 65536 ->
  exists c, ipcsum mem n = Ok c /\ 0 <= c < 65536 /\ (words n mem + c) mod 65535 = 0.
Proof.
  intros Hm Hl Hn. unfold ipcsum. rewrite ipcsum_loop_ok by (done || lia). rewrite rbind_ok, Z.add_0_l.
  destruct (fold_complement (words n mem)) as (c & <- & Hc & Hs); [pose proof (words_range n mem Hm); lia|]. eauto.
Qed.

(** The sides of the programs. *)
Definition good_side (c : side) : Prop :=
  length (h_dest c) = 6%nat /\ length (h_source c) = 6%nat /\ length (saddr c) = 4%nat /\ length (daddr c) = 4%nat /\
  Forall is_byte (tos c :: saddr c ++ daddr c).
Lemma good_sides : good_side server_side /\ good_side client_side.
Proof. split; repeat split; by repeat (constructor; [by compute|]). Qed.

Lemma be16_bytes z : 0 <= z < 65536 -> Forall is_byte (be16 z).
Proof.
  intros. unfold be16. pose proof (Z.mod_pos_bound z 256). repeat constructor; unfold is_byte; try lia.
  - apply Z.div_pos; lia.
  - apply Z.div_lt_upper_bound; lia.
Qed.
Lemma ip_header_bytes c n k : good_side c -> Forall is_byte (ip_header c n k) /\ length (ip_header c n k) = 20%nat.
Proof.
  intros (_ & _ & Hs & Hd & Hb). unfold ip_header. rewrite Forall_cons, Forall_app in Hb. destruct Hb as (Ht & Hb & Hb'). split.
  - repeat apply Forall_app_2; try done; try (by repeat (constructor; [unfold is_byte; lia || done|])).
    + apply be16_bytes, wrapu_range. lia.
    + apply le_bytes_byte.
  - rewrite !length_app, length_le_bytes, Hs, Hd. done.
Qed.

(** The checksum field is one word of the header. *)
Lemma words_header c n k : good_side c -> 0 <= k < 65536 -> words 10 (ip_header c n k) = words 10 (ip_header c n 0) + k.
Proof.
  intros (_ & _ & Hs & Hd & _) Hk. unfold ip_header, be16.
  destruct (saddr c) as [|? [|? [|? [|? [|]]]]], (daddr c) as [|? [|? [|? [|? [|]]]]]; try done. cbn [app le_bytes words].
  pose proof (Z.div_mod k 256 ltac:(lia)). rewrite (Z.mod_small (k / 256)); [|split; [apply Z.div_pos; lia|apply Z.div_lt_upper_bound; lia]].
  change (0 / 256) with 0. change (0 mod 256) with 0. lia.
Qed.

(** Where the memory behind the block can be read, its contents go into the checksum. *)
Lemma packet_made c msg after : good_side c -> Z.of_nat (length msg) <= 65000 -> Forall is_byte after -> (20 + length msg <= length after)%nat ->
  exists check, make_ip_packet c after msg = Ok (eth_header c ++ ip_header c (Z.of_nat (length msg)) check ++ msg) /\ 0 <= check < 65536 /\
    (words 10 (ip_header c (Z.of_nat (length msg)) check) + words (10 + length msg) (replicate (length msg) 0 ++ after)) mod 65535 = 0.
Proof.
  intros Hc Hl Ha Hr. destruct (ip_header_bytes c (Z.of_nat (length msg)) 0 Hc) as [Hb H20]. unfold make_ip_packet.
  destruct (ipcsum_verifies (ip_header c (Z.of_nat (length msg)) 0 ++ replicate (length msg) 0 ++ after) (sizeof_iphdr + length msg)) as (k & -> & Hk & Hv).
  { apply Forall_app_2; [done|]. apply Forall_app_2; [|done]. apply Forall_replicate. by compute. }
  { rewrite !length_app, H20, length_replicate. change sizeof_iphdr with 20%nat. lia. }
  { change sizeof_iphdr with 20%nat. lia. }
  exists k. split; [done|]. split; [done|]. rewrite words_header by done.
  replace (sizeof_iphdr + length msg)%nat with (10 + (10 + length msg))%nat in Hv by (change sizeof_iphdr with 20%nat; lia).
  rewrite words_app in Hv by (by rewrite H20). by rewrite <- Z.add_assoc, (Z.add_comm k), Z.add_assoc.
Qed.

(** The packet's checksum is computed over twice as much memory as there is: the block of the
    packet is left, whatever the message. Where the memory behind the block can be read, its
    contents go into the checksum, and the header has a valid checksum exactly when they
    add up to 0. *)
Theorem packet_checksum_leaves_the_packet c msg after : good_side c -> Z.of_nat (length msg) <= 65000 -> Forall is_byte after ->
  make_ip_packet c [] msg = Err OutOfBounds /\
  ((20 + length msg <= length after)%nat -> exists check,
     make_ip_packet c after msg = Ok (eth_header c ++ ip_header c (Z.of_nat (length msg)) check ++ msg) /\ 0 <= check < 65536 /\
     (words 10 (ip_header c (Z.of_nat (length msg)) check) mod 65535 = 0 <->
      words (10 + length msg) (replicate (length msg) 0 ++ after) mod 65535 = 0)).
Proof.
  intros Hc Hl Ha. split.
  - destruct (ip_header_bytes c (Z.of_nat (length msg)) 0 Hc) as [_ H20]. unfold make_ip_packet, ipcsum.
    rewrite ipcsum_loop_short; [done|]. rewrite !length_app, H20, length_replicate. cbn. lia.
  - intros Hr. destruct (packet_made c msg after Hc Hl Ha Hr) as (k & E & Hk & Hv). exists k. split; [done|]. split; [done|]. revert Hv.
    generalize (words 10 (ip_header c (Z.of_nat (length msg)) k)) (words (10 + length msg) (replicate (length msg) 0 ++ after)). intros x y Hv.
    rewrite Z.add_mod in Hv by lia. pose proof (Z.mod_pos_bound x 65535 ltac:(lia)). pose proof (Z.mod_pos_bound y 65535 ltac:(lia)).
    apply Z.mod_divide in Hv as [q Hq]; [|lia]. split; intros E'; rewrite E' in Hq; nia.
Qed.

Lemma packet_checksum_leaves_the_packet_witness : exists check,
  make_ip_packet client_side (replicate 32 7) hellodata = Ok (eth_header client_side ++ ip_header client_side 12 check ++ hellodata) /\
  words 10 (ip_header client_side 12 check) mod 65535 <> 0.
Proof.
  destruct (packet_checksum_leaves_the_packet client_side hellodata (replicate 32 7)) as [_ (k & E & _ & V)];
    [apply good_sides|by vm_compute|by apply Forall_replicate|vm_compute; lia|].
  exists k. split; [exact E|]. intros V'. apply V in V'. by vm_compute in V'.
Defined.

End Packet.

(** ** The sockets *)
Module Setup.

Definition PACKET_RX_RING : Z := 5.
Definition PACKET_TX_RING : Z := 13.
Definition AF_PACKET : Z := 17.
Definition ETH_P_ALL : Z := 3.
Definition IFNAMSIZ : nat := 16.
Definition sizeof_pointer : nat := 8.

(** What the calls return. *)
Record calls := mk_calls {
  c_socket : Z; c_version : bool; c_index : option Z; c_ring : bool; c_mmap : bool; c_bind : bool; c_munmap : bool; c_close : bool }.

(** What was asked of the kernel. *)
Record tpacket_req := mk_req { tp_block_size : nat; tp_block_nr : nat; tp_frame_size : nat; tp_frame_nr : nat }.
Inductive event := ESocket (fd : Z) | ERing (ringtype : Z) (tp : tpacket_req) | EMap (size : nat) | EUnmap (size : nat) | EClose (fd : Z).

(** A structure [sockaddr_ll]: cells that may be uninitialised. *)
Definition sockaddr_ll : Type := list (option Z).

Definition init_ring_daddr (o : calls) (ringdev : list Z) (dest_daddr : sockaddr_ll) : res (Z * sockaddr_ll) :=
  if (IFNAMSIZ <=? length ringdev)%nat then Err OutOfBounds
  else match c_index o with
  | None => Ok (-1, dest_daddr)
  | Some ifindex =>
      let ring_daddr := le_bytes 2 AF_PACKET ++ be16 ETH_P_ALL ++ le_bytes 4 ifindex ++ replicate 12 0 in
      Ok (0, splice 0 (Some <$> take sizeof_pointer ring_daddr) dest_daddr)
  end.

(** The ring is a pointer that is not null: whether there is one. *)
Definition init_packetsock_ring (o : calls) (ifname : list Z) (ringtype : Z) (tx_mmap : bool) (dest_daddr : sockaddr_ll) : res (bool * sockaddr_ll * list event) :=
  if negb (c_version o) then Ok (false, dest_daddr, [])
  else
    let tp := mk_req (FRAME_SIZE * 2) (CONF_RING_FRAMES * FRAME_SIZE / (FRAME_SIZE * 2)) FRAME_SIZE CONF_RING_FRAMES in
    '(r, dest_daddr) ← init_ring_daddr o ifname dest_daddr;
    if negb (r =? 0) then Ok (false, dest_daddr, [])
    else if (ringtype =? PACKET_TX_RING) && negb tx_mmap then Ok (false, dest_daddr, [])
    else if negb (c_ring o) then Ok (false, dest_daddr, [])
    else if negb (c_mmap o) then Ok (false, dest_daddr, [ERing ringtype tp])
    else Ok (true, dest_daddr, [ERing ringtype tp; EMap (tp_block_size tp * tp_block_nr tp)]).

Definition init_packetsock (o : calls) (ifname : list Z) (ringtype : Z) (tx_mmap : bool) (dest_daddr : sockaddr_ll) : res (Z * bool * sockaddr_ll * list event) :=
  if c_socket o <? 0 then Ok (-1, false, dest_daddr, [])
  else
    '(ring, dest_daddr, t) ← init_packetsock_ring o ifname ringtype tx_mmap dest_daddr;
    let t := ESocket (c_socket o) :: t in
    if negb tx_mmap then Ok (c_socket o, ring, dest_daddr, t)
    else if negb ring then Ok (-1, ring, dest_daddr, t ++ [EClose (c_socket o)])
    else Ok (c_socket o, ring, dest_daddr, t).

Definition exit_packetsock (o : calls) (fd : Z) (tx_mmap : bool) : Z * list event :=
  let t := if tx_mmap then [EUnmap (CONF_RING_FRAMES * FRAME_SIZE)] else [] in
  if tx_mmap && negb (c_munmap o) then (1, [])
  else if negb (c_close o) then (1, t)
  else (0, t ++ [EClose fd]).

(** Up to the loop of [do_serve] and [do_req]: whether it is entered. *)
Definition open_ring (o : calls) (ifname : list Z) (ringtype : Z) (junk : sockaddr_ll) : res (option Z * list event) :=
  '(fd, _, _, t) ← init_packetsock o ifname ringtype true junk;
  if fd <? 0 then Ok (None, t)
  else if negb (c_bind o) then Ok (None, t)
  else Ok (Some fd, t).

(** The client has its own copies of these. *)
Definition client_init_ring_daddr := init_ring_daddr.
Definition client_init_packetsock_ring := init_packetsock_ring.
Definition client_init_packetsock := init_packetsock.
Definition client_exit_packetsock := exit_packetsock.
Definition do_serve_open (o : calls) (junk : sockaddr_ll) : res (option Z * list event) := open_ring o (chars "veth01") PACKET_RX_RING junk.
Definition do_req_open (o : calls) (junk : sockaddr_ll) : res (option Z * list event) := open_ring o (chars "veth02") PACKET_TX_RING junk.

(** ** Proofs *)







End Setup.

(** ** The server's ring *)
Module Rx.
Import Packet.

Definition TP_STATUS_KERNEL : Z := 0.
Definition TP_STATUS_AVAILABLE : Z := 0.
Definition TP_STATUS_USER : Z := 1.
Definition TP_STATUS_COPY : Z := 2.

(** A frame: its status and its bytes; [who] is the number of the packet the kernel put there last. *)
Record frame := mk_frame { tp_status : Z; bytes : list Z; who : nat }.

(** Where the program is: in front of the [i]-th turn of the loop of [process_rx]; at its test;
    with a frame returned by it; at [process_rx_release]; in [rx_flush]; after a fault. *)
Inductive pc := Scan (i : nat) | Test (i : nat) | Show (i : nat) | Release (i : nat) | Flush (i : nat) | Fault (e : fault).

(** Ring, program with its flag [needs_flush], the place of the kernel, the packets it has
    accepted, and the packets shown with the text printed. *)
Record state := mk_state {
  frames : list frame; at_ : pc; needs_flush : bool; head : nat;
  accepted : list (list Z); shown : list (nat * list Z) }.

Definition ring_bytes (fs : list frame) : list Z := fs ≫= bytes.
Definition set_status (z : Z) (f : frame) : frame := mk_frame z (bytes f) (who f).
Definition write_status (i : nat) (z : Z) (s : state) : state :=
  mk_state (alter (set_status z) i (frames s)) (at_ s) (needs_flush s) (head s) (accepted s) (shown s).
Definition goto (p : pc) (s : state) : state := mk_state (frames s) p (needs_flush s) (head s) (accepted s) (shown s).

(** One turn of the loop up to its test: [poll] waits at most a millisecond, when the frame is
    not the kernel's, and its result is not used. *)
Definition process_rx_turn (i : nat) (s : state) : state :=
  if (i <? CONF_RING_FRAMES)%nat then goto (Test i) s else goto (if needs_flush s then Flush 0 else Scan 0) s.
Definition process_rx_test (i : nat) (f : frame) (s : state) : state :=
  if Z.land (tp_status f) TP_STATUS_USER =? 0 then goto (Scan (S i)) s
  else if Z.land (tp_status f) TP_STATUS_COPY =? 0 then goto (Show i) s
  else goto (Scan (S i)) s.

(** The body of the loop of [do_serve] up to the release. *)
Definition show_frame (i : nat) (f : frame) (s : state) : state :=
  match view_ip_packet (drop (i * FRAME_SIZE + RX_DATA_OFFSET) (ring_bytes (frames s))) with
  | Ok t => mk_state (frames s) (Release i) (needs_flush s) (head s) (accepted s) (shown s ++ [(who f, t)])
  | Err e => goto (Fault e) s
  end.
Definition process_rx_release (i : nat) (s : state) : state :=
  let s := write_status i TP_STATUS_KERNEL s in
  mk_state (frames s) (Scan 0) true (head s) (accepted s) (shown s).
Definition rx_flush_turn (i : nat) (s : state) : state :=
  if (i <? CONF_RING_FRAMES)%nat then goto (Flush (S i)) (write_status i TP_STATUS_KERNEL s) else goto (Scan 0) s.

(** A step of the program. *)
Definition do_serve_step (s : state) : state :=
  match at_ s with
  | Scan i => process_rx_turn i s
  | Test i => match frames s !! i with Some f => process_rx_test i f s | None => goto (Fault OutOfBounds) s end
  | Show i => match frames s !! i with Some f => show_frame i f s | None => goto (Fault OutOfBounds) s end
  | Release i => process_rx_release i s
  | Flush i => rx_flush_turn i s
  | Fault _ => s
  end.

(** The part of a packet that fits into a frame. *)
Definition snap (p : list Z) : list Z := take (FRAME_SIZE - tp_mac) p.

(** The kernel receives a packet: it goes to the frame at its place, with the status bits [fl]
    beside the one that gives the frame to the program, or is dropped when that frame is not the kernel's. *)
Definition receive (p : list Z) (fl : Z) (s : state) : state :=
  match frames s !! head s with
  | Some f =>
      if tp_status f =? TP_STATUS_KERNEL then
        mk_state (<[head s := mk_frame (Z.lor TP_STATUS_USER fl) (splice tp_mac (snap p) (bytes f)) (length (accepted s))]> (frames s))
          (at_ s) (needs_flush s) (Nat.modulo (S (head s)) CONF_RING_FRAMES) (accepted s ++ [p]) (shown s)
      else s
  | None => s
  end.

Inductive step : state -> state -> Prop :=
  | step_serve s : step s (do_serve_step s)
  | step_receive s p fl : step s (receive p fl s).

(** The ring when [do_serve] enters its loop. *)
Definition start : state :=
  mk_state (replicate CONF_RING_FRAMES (mk_frame TP_STATUS_KERNEL (replicate FRAME_SIZE 0) 0)) (Scan 0) false 0 [] [].

(** ** Proofs *)

(** The room for a packet in a frame. *)
Definition room : nat := FRAME_SIZE - tp_mac.
(** What frame [i] holds once the kernel has accepted the packets [ps]: it puts the [n]-th into
    frame [n] modulo the number of frames, over what was there. *)
Definition put (i : nat) (b : list Z) (np : nat * list Z) : list Z :=
  if decide (Nat.modulo np.1 CONF_RING_FRAMES = i) then splice tp_mac (snap np.2) b else b.
Definition frame_of (ps : list (list Z)) (i : nat) : list Z := foldl (put i) (replicate FRAME_SIZE 0) (imap pair ps).

Lemma frame_of_snoc ps p i : frame_of (ps ++ [p]) i = put i (frame_of ps i) (length ps, p).
Proof. unfold frame_of. rewrite imap_app, foldl_app. cbn. by rewrite Nat.add_0_r. Qed.
Lemma length_snap p : (length (snap p) <= room)%nat.
Proof. unfold snap, room. rewrite length_take. lia. Qed.
Lemma tp_mac_room : (tp_mac + room = FRAME_SIZE)%nat.
Proof. by vm_compute. Qed.
Lemma length_frame_of ps i : length (frame_of ps i) = FRAME_SIZE.
Proof.
  induction ps as [|p ps IH] using rev_ind; [apply length_replicate|]. rewrite frame_of_snoc. unfold put. case_decide; [|done].
  rewrite length_splice; [done|]. rewrite IH. pose proof (length_snap p). pose proof tp_mac_room. cbn [snd]. lia.
Qed.

(** Behind the longest packet so far a frame is zero. *)
Lemma frame_of_rest ps i k : Forall (fun q => length (snap q) <= k)%nat ps ->
  drop (tp_mac + k) (frame_of ps i) = replicate (FRAME_SIZE - (tp_mac + k)) 0.
Proof.
  induction ps as [|p ps IH] using rev_ind; intros H; [apply drop_replicate|]. apply Forall_app in H as [H Hp]. apply Forall_cons in Hp as [Hp _].
  rewrite frame_of_snoc. unfold put. case_decide; [|by apply IH]. rewrite <- IH by done. cbn [snd].
  pose proof (length_snap p). pose proof tp_mac_room. pose proof (length_frame_of ps i). apply list_eq. intros j. rewrite !lookup_drop.
  cbv beta in Hp. apply lookup_splice_old; lia.
Qed.
(** The frame of a packet. *)
Lemma frame_of_packet ps p (n := length ps) : slice tp_mac (length (snap p)) (frame_of (ps ++ [p]) (Nat.modulo n CONF_RING_FRAMES)) = snap p.
Proof.
  rewrite frame_of_snoc. unfold put. rewrite decide_True by done. apply slice_splice_same. rewrite length_frame_of.
  pose proof (length_snap p). pose proof tp_mac_room. cbn [snd]. lia.
Qed.
(** The packet after this one goes elsewhere. *)
Lemma frame_of_recent ps n : (n < length ps <= n + CONF_RING_FRAMES)%nat ->
  frame_of ps (Nat.modulo n CONF_RING_FRAMES) = frame_of (take (S n) ps) (Nat.modulo n CONF_RING_FRAMES).
Proof.
  intros Hn. rewrite <- (take_drop (S n) ps) at 1. unfold CONF_RING_FRAMES in Hn.
  destruct (drop (S n) ps) as [|q [|q' r]] eqn:E; [by rewrite app_nil_r| |apply (f_equal length) in E; rewrite length_drop in E; cbn in E; lia].
  rewrite frame_of_snoc. unfold put. cbn [fst]. rewrite length_take, Nat.min_l, decide_False; [done| |lia].
  unfold CONF_RING_FRAMES. pose proof (Nat.div_mod_eq n 2). pose proof (Nat.div_mod_eq (S n) 2). lia.
Qed.

(** A text that ends within the frame can be printed. *)
Lemma view_defined mem : (34 <= length mem)%nat -> 0 ∈ drop 34 mem -> exists t, view_ip_packet mem = Ok t.
Proof.
  intros Hl H0. unfold view_ip_packet. destruct (length mem <? 34)%nat eqn:E; [apply Nat.ltb_lt in E; lia|].
  destruct (c_string_app [] _ H0) as [x Hx]. cbn in Hx. rewrite Hx. eauto.
Qed.
(** The packet and the zeros behind it, when no longer one was in the ring. *)
Definition alone (p : list Z) : list Z := p ++ replicate (room - length p) 0.
Lemma frame_alone ps n p : ps !! n = Some p -> (length p < room)%nat -> Forall (fun q => length q <= length p)%nat (take n ps) ->
  drop tp_mac (frame_of (take (S n) ps) (Nat.modulo n CONF_RING_FRAMES)) = alone p.
Proof.
  intros Hn Hl Hq. assert (snap p = p) as Es by (unfold snap; rewrite take_ge; [done|unfold room in Hl; lia]).
  assert (length (take n ps) = n) as El by (rewrite length_take; apply lookup_lt_Some in Hn; lia).
  rewrite (take_S_r _ _ _ Hn). unfold alone. rewrite <- (take_drop (length p) (drop tp_mac _)), drop_drop. f_equal.
  - pose proof (frame_of_packet (take n ps) p) as H. cbn zeta in H. by rewrite El, Es in H.
  - rewrite frame_of_rest.
    + by replace (FRAME_SIZE - (tp_mac + length p))%nat with (room - length p)%nat by (unfold room; lia).
    + apply Forall_app. split; [|apply Forall_singleton; by rewrite Es]. eapply Forall_impl; [exact Hq|]. intros q Hq'. cbv beta in *. unfold snap. rewrite length_take. lia.
Qed.
Lemma view_alone p : (length p < room)%nat -> exists t, view_ip_packet (alone p) = Ok t.
Proof.
  intros Hl. apply view_defined.
  - unfold alone. rewrite length_app, length_replicate. assert (34 < room)%nat by (vm_compute; lia). lia.
  - unfold alone. apply list_elem_of_lookup. exists (room - 35)%nat. rewrite lookup_drop. assert (35 <= room)%nat by (vm_compute; lia).
    replace (34 + (room - 35))%nat with (room - 1)%nat by lia. rewrite lookup_app_r by lia. apply lookup_replicate. split; [done|lia].
Qed.
(** A frame in which only shorter packets were has a zero byte at its end. *)
Lemma frame_ends ps i : Forall (fun q => length q < room)%nat ps -> exists t, view_ip_packet (drop tp_mac (frame_of ps i)) = Ok t.
Proof.
  intros H. assert (34 < room)%nat by (vm_compute; lia). pose proof tp_mac_room. apply view_defined; [rewrite length_drop, length_frame_of; lia|].
  apply list_elem_of_lookup. exists (room - 35)%nat. rewrite !lookup_drop. replace (tp_mac + (34 + (room - 35)))%nat with (tp_mac + (room - 1) + 0)%nat by lia.
  rewrite <- lookup_drop, frame_of_rest.
  - apply lookup_replicate. split; [done|lia].
  - eapply Forall_impl; [exact H|]. intros q Hq. cbv beta in *. unfold snap. rewrite length_take. lia.
Qed.

(** What is printed for packet [n]: the packet in its frame, with what follows in memory where
    neither it nor what the frame held before has a zero byte. *)
Definition told (ps : list (list Z)) (n : nat) (t : list Z) : Prop := exists p behind, ps !! n = Some p /\
  view_ip_packet (drop tp_mac (frame_of (take (S n) ps) (Nat.modulo n CONF_RING_FRAMES)) ++ behind) = Ok t.

(** Every frame holds what the kernel has put there; the program's hold packets that were not
    shown yet; the frame being shown is the program's. *)
Record inv (s : state) : Prop := mk_inv {
  inv_ring : length (frames s) = CONF_RING_FRAMES /\ head s = Nat.modulo (length (accepted s)) CONF_RING_FRAMES;
  inv_bytes : forall i f, frames s !! i = Some f -> bytes f = frame_of (accepted s) i;
  inv_held : forall i f, frames s !! i = Some f -> tp_status f <> 0 ->
    (who f < length (accepted s) <= who f + CONF_RING_FRAMES)%nat /\ Nat.modulo (who f) CONF_RING_FRAMES = i;
  inv_fresh : forall i f, frames s !! i = Some f -> tp_status f <> 0 -> who f ∈ (shown s).*1 -> at_ s = Release i;
  inv_once : NoDup (shown s).*1;
  inv_shown : forall n t, (n, t) ∈ shown s -> told (accepted s) n t;
  inv_at : forall i, at_ s = Show i \/ at_ s = Release i -> exists f, frames s !! i = Some f /\ tp_status f <> 0 }.

Lemma inv_lengths s : inv s -> Forall (fun f => length (bytes f) = FRAME_SIZE) (frames s).
Proof. intros I. apply Forall_lookup. intros i f Hi. rewrite (inv_bytes s I i f Hi). apply length_frame_of. Qed.

Lemma drop_ring i fs f : Forall (fun f => length (bytes f) = FRAME_SIZE) fs -> fs !! i = Some f ->
  exists r, drop (i * FRAME_SIZE) (ring_bytes fs) = bytes f ++ r.
Proof.
  intros Hl. revert i. induction Hl as [|g fs Hg _ IH]; intros [|i] Hi; try done.
  - injection Hi as ->. by exists (ring_bytes fs).
  - destruct (IH i Hi) as [r Hr]. exists r. unfold ring_bytes. rewrite bind_cons.
    replace (S i * FRAME_SIZE)%nat with (length (bytes g) + i * FRAME_SIZE)%nat by (rewrite Hg; lia).
    by rewrite drop_app_add'.
Qed.

Lemma shown_bytes s i f : inv s -> frames s !! i = Some f ->
  exists r, drop (i * FRAME_SIZE + RX_DATA_OFFSET) (ring_bytes (frames s)) = drop tp_mac (bytes f) ++ r.
Proof.
  intros I Hi. pose proof (inv_lengths s I) as Hl. destruct (drop_ring i (frames s) f Hl Hi) as [r Hr]. exists r.
  rewrite <- drop_drop, Hr. change RX_DATA_OFFSET with tp_mac. apply drop_app_le.
  rewrite Forall_lookup in Hl. rewrite (Hl _ _ Hi). vm_compute. lia.
Qed.

(** A frame that is given back to the kernel. *)
Lemma alter_status (fs : list frame) (j : nat) z (k : nat) g : alter (set_status z) j fs !! k = Some g ->
  (j = k /\ tp_status g = z /\ exists f, fs !! k = Some f /\ bytes g = bytes f) \/ (j <> k /\ fs !! k = Some g).
Proof.
  destruct (decide (j = k)) as [->|Hn].
  - rewrite list_lookup_alter_eq. destruct (fs !! k) as [f|]; [|done]. intros [= <-]. left. eauto.
  - rewrite list_lookup_alter_ne by done. by right.
Qed.
Lemma inv_give s j p b : inv s -> (forall i, p <> Show i /\ p <> Release i) -> (forall i, at_ s = Show i \/ at_ s = Release i -> i = j) ->
  inv (mk_state (frames (write_status j TP_STATUS_KERNEL s)) p b (head s) (accepted s) (shown s)).
Proof.
  intros [[Hl Hd] Hb Hh Hf Ho Hs Hat] Hp Hj. split; cbn [frames accepted shown at_ head write_status].
  - by rewrite length_alter.
  - intros i f [(_ & _ & g & Hg & ->)|[_ Hi]]%alter_status; by eapply Hb.
  - intros i f [(_ & -> & _)|[_ Hi]]%alter_status Hst; [done|]. by eapply Hh.
  - intros i f [(_ & -> & _)|[Hn Hi]]%alter_status Hst Hin; [done|]. destruct Hn. symmetry. apply Hj. right. by eapply Hf.
  - done.
  - done.
  - intros i [->| ->]; by destruct (Hp i).
Qed.

Lemma inv_goto s p : inv s -> (forall i, at_ s <> Release i) -> (forall i, p <> Release i) ->
  (forall i, p = Show i -> exists f, frames s !! i = Some f /\ tp_status f <> 0) -> inv (goto p s).
Proof.
  intros [Hr Hb Hh Hf Ho Hs Hat] Hn Hp Hsh. split; cbn [goto frames at_ accepted shown head]; try done.
  - intros i f Hi Hst Hin. destruct (Hn i). by eapply Hf.
  - intros i [H|H]; [by apply Hsh|by destruct (Hp i)].
Qed.

Lemma view_app mem r t : view_ip_packet mem = Ok t -> view_ip_packet (mem ++ r) = Ok t.
Proof.
  unfold view_ip_packet. rewrite length_app. destruct (length mem <? 34)%nat eqn:E; [done|]. apply Nat.ltb_ge in E.
  destruct (length mem + length r <? 34)%nat eqn:E'; [apply Nat.ltb_lt in E'; lia|]. rewrite drop_app_le by lia.
  destruct (c_string (drop 34 mem)) as [x|] eqn:Ex; [|done].
  apply c_string_chars in Ex as [Ex [l El]]. rewrite El, <- app_assoc. cbn [app].
  assert (no_nul x) by (rewrite <- Ex; apply c_chars_no_nul). rewrite !c_string_nul by done.
  unfold slice. rewrite !drop_0, take_app_le by lia. rewrite (drop_app_le mem r 30), (take_app_le (drop 30 mem)); [done|rewrite length_drop; lia|lia].
Qed.

Lemma told_front ps n p : ps !! n = Some p -> exists r,
  drop tp_mac (frame_of (take (S n) ps) (Nat.modulo n CONF_RING_FRAMES)) = snap p ++ r.
Proof.
  intros Hp. assert (length (take n ps) = n) as El by (rewrite length_take; apply lookup_lt_Some in Hp; lia).
  pose proof (frame_of_packet (take n ps) p) as H. cbn zeta in H. rewrite El, <- (take_S_r _ _ _ Hp) in H.
  exists (drop (length (snap p)) (drop tp_mac (frame_of (take (S n) ps) (Nat.modulo n CONF_RING_FRAMES)))).
  rewrite <- H at 1. symmetry. apply take_drop.
Qed.

Lemma inv_show s i f : inv s -> at_ s = Show i -> frames s !! i = Some f -> inv (show_frame i f s).
Proof.
  intros I Hat Hi. unfold show_frame. destruct (inv_at s I i (or_introl Hat)) as (f' & Hf' & Hst). simplify_eq.
  destruct (inv_held s I i f Hi Hst) as [Hn Hw]. destruct (shown_bytes s i f I Hi) as [r ->]. rewrite (inv_bytes s I i f Hi).
  assert (who f ∉ (shown s).*1) as Hnew by (intros H; pose proof (inv_fresh s I i f Hi Hst H); congruence).
  destruct (view_ip_packet (drop tp_mac _ ++ r)) as [t|e] eqn:Ev; [|apply inv_goto; try done; congruence].
  destruct I as [Hr Hb Hh Hfr Ho Hs Hat']. split; cbn [goto frames at_ accepted shown head]; try done.
  - intros j g Hj Hg. rewrite fmap_app, elem_of_app. intros [H|H].
    + pose proof (Hfr j g Hj Hg H). congruence.
    + apply list_elem_of_singleton in H. cbn in H. f_equal. destruct (Hh j g Hj Hg) as [_ <-]. by rewrite H.
  - rewrite fmap_app. apply NoDup_app. split; [done|]. split; [|apply NoDup_singleton].
    intros n Hn' Hn''. apply list_elem_of_singleton in Hn''. cbn in Hn''. by subst n.
  - intros n t' [H|H]%elem_of_app; [by apply Hs|]. apply list_elem_of_singleton in H. injection H as -> ->.
    destruct (lookup_lt_is_Some_2 (accepted s) (who f)) as [p Hp]; [lia|]. exists p, r. split; [done|]. rewrite <- frame_of_recent by done. by rewrite Hw.
  - intros j [H|H]; [done|]. injection H as <-. eauto.
Qed.

Lemma inv_serve s : inv s -> inv (do_serve_step s).
Proof.
  intros I. unfold do_serve_step. destruct (at_ s) as [i|i|i|i|i|e] eqn:Hat.
  - unfold process_rx_turn. destruct (i <? CONF_RING_FRAMES)%nat; [|destruct (needs_flush s)]; apply inv_goto; try done; congruence.
  - destruct (frames s !! i) as [f|] eqn:Hi; [|apply inv_goto; try done; congruence]. unfold process_rx_test.
    destruct (Z.land (tp_status f) TP_STATUS_USER =? 0) eqn:E; [|destruct (Z.land (tp_status f) TP_STATUS_COPY =? 0)];
      apply inv_goto; try done; try congruence. intros j [= <-]. exists f. split; [done|]. intros H. rewrite H in E. done.
  - destruct (frames s !! i) as [f|] eqn:Hi; [by apply inv_show|]. apply inv_goto; try done; congruence.
  - apply (inv_give s i (Scan 0) true); [done|done|]. rewrite Hat. by intros j [?|[= ->]].
  - unfold rx_flush_turn. destruct (i <? CONF_RING_FRAMES)%nat; [|apply inv_goto; try done; congruence].
    apply (inv_give s i (Flush (S i)) (needs_flush s)); [done|done|]. rewrite Hat. by intros j [?|?].
  - done.
Qed.

Lemma user_status fl : Z.lor TP_STATUS_USER fl <> 0.
Proof. intros [? _]%Z.lor_eq_0_iff. done. Qed.

Lemma inv_receive s p fl : inv s -> inv (receive p fl s).
Proof.
  intros I. unfold receive. destruct (frames s !! head s) as [f|] eqn:Hf; [|done].
  destruct (tp_status f =? TP_STATUS_KERNEL) eqn:Hk; [|done]. apply Z.eqb_eq in Hk.
  destruct I as [[Hl Hd] Hb Hh Hfr Ho Hs Hat].
  split; cbn [frames at_ accepted shown head].
  - rewrite length_insert, length_app, Hd. split; [done|]. cbn [length]. rewrite Nat.add_1_r. symmetry. apply ring_next.
  - intros k g Hg. rewrite frame_of_snoc. unfold put. cbn [fst snd]. rewrite <- Hd. destruct (decide (head s = k)) as [<-|Hne].
    + apply list_lookup_insert_Some in Hg as [(_ & <- & _)|[? _]]; [|done]. cbn [bytes]. by rewrite (Hb _ _ Hf).
    + rewrite list_lookup_insert_ne in Hg by done. by apply Hb.
  - rewrite length_app. cbn [length]. intros k g [(<- & <- & _)|[Hne Hg]]%list_lookup_insert_Some Hst; cbn [who].
    + split; [unfold CONF_RING_FRAMES; lia|done].
    + destruct (Hh k g Hg Hst) as [Hlt Hm]. split; [|done]. assert (length (accepted s) <> who g + CONF_RING_FRAMES)%nat; [|lia].
      intros E. apply Hne. rewrite Hd, <- Hm, E. unfold CONF_RING_FRAMES. by rewrite <- (Nat.mul_1_l 2) at 1; rewrite Nat.Div0.mod_add.
  - intros k g [(<- & <- & _)|[Hn Hg]]%list_lookup_insert_Some Hst Hin; cbn [who] in Hin; [|by eapply Hfr].
    apply list_elem_of_fmap in Hin as ([n t] & Hn & Hin). cbn in Hn. destruct (Hs n t Hin) as (q & ? & Hq & _). apply lookup_lt_Some in Hq. lia.
  - done.
  - intros n t (q & r & Hq & Ht)%Hs. exists q, r. split; [by apply lookup_app_l_Some|]. apply lookup_lt_Some in Hq. by rewrite take_app_le by lia.
  - intros i Hi. destruct (Hat i Hi) as (g & Hg & Hst). exists g. split; [|done]. rewrite list_lookup_insert_ne; [done|]. intros <-. by simplify_eq.
Qed.

Lemma start_frames i f : frames start !! i = Some f -> tp_status f = 0.
Proof. intros Hi. apply (lookup_replicate CONF_RING_FRAMES) in Hi as [-> _]. done. Qed.
Lemma rx_inv_start : inv start.
Proof.
  split.
  - done.
  - intros i f Hi. by apply (lookup_replicate CONF_RING_FRAMES) in Hi as [-> _].
  - by intros i f ?%start_frames.
  - by intros i f ?%start_frames.
  - constructor.
  - by intros n t ?%not_elem_of_nil.
  - by intros i [?|?].
Qed.

Lemma rx_inv_step a b : step a b -> inv a -> inv b.
Proof. intros []; [apply inv_serve|apply inv_receive]. Qed.
Lemma inv_run a b : rtc step a b -> inv a -> inv b.
Proof. induction 1 as [|a b c Hab _ IH]; [done|]. intros Ia. by eapply IH, rx_inv_step. Qed.
Lemma rx_inv s : rtc step start s -> inv s.
Proof. intros R. exact (inv_run _ _ R rx_inv_start). Qed.

(** ** What is shown *)

(** The program alone. *)
Definition serves (a b : state) : Prop := b = do_serve_step a.

Lemma serves_steps a b : rtc serves a b -> rtc step a b.
Proof. apply rtc_subrel. intros x y ->. constructor. Qed.

(** A frame is the kernel's, or the program's and complete. *)
Definition settled (f : frame) : Prop :=
  tp_status f = 0 \/ (Z.land (tp_status f) TP_STATUS_USER <> 0 /\ Z.land (tp_status f) TP_STATUS_COPY = 0).
(** The packets the program has not taken yet. *)
Definition held (fs : list frame) : list nat := who <$> filter (fun f => tp_status f <> 0) fs.
Lemma skip_kernel i f s : at_ s = Scan i -> frames s !! i = Some f -> (i < CONF_RING_FRAMES)%nat -> tp_status f = 0 -> rtc serves s (goto (Scan (S i)) s).
Proof.
  intros Ha Hf Hi Hk. apply (rtc_l _ _ (goto (Test i) s)).
  - unfold serves, do_serve_step. rewrite Ha. unfold process_rx_turn. by apply Nat.ltb_lt in Hi as ->.
  - apply rtc_once. unfold serves, do_serve_step. cbn [goto at_ frames]. rewrite Hf. unfold process_rx_test. by rewrite Hk.
Qed.

Lemma take_frame i f s : inv s -> at_ s = Scan i -> frames s !! i = Some f -> (i < CONF_RING_FRAMES)%nat -> tp_status f <> 0 -> settled f -> Forall (fun q => length q < room)%nat (accepted s) ->
  exists t s', rtc serves s s' /\ s' = mk_state (alter (set_status 0) i (frames s)) (Scan 0) true (head s) (accepted s) (shown s ++ [(who f, t)]).
Proof.
  intros I Ha Hf Hi Hst [?|[Hu Hc]] Hp; [done|].
  destruct (frame_ends _ i Hp) as [t Ht]. rewrite <- (inv_bytes s I i f Hf) in Ht. destruct (shown_bytes s i f I Hf) as [r Hr].
  exists t. eexists. split; [|reflexivity]. apply (rtc_l _ _ (goto (Test i) s)).
  { unfold serves, do_serve_step. rewrite Ha. unfold process_rx_turn. by apply Nat.ltb_lt in Hi as ->. }
  apply (rtc_l _ _ (goto (Show i) s)).
  { unfold serves, do_serve_step. cbn [goto at_ frames]. rewrite Hf. unfold process_rx_test. apply Z.eqb_neq in Hu as ->. by rewrite Hc. }
  apply (rtc_l _ _ (mk_state (frames s) (Release i) (needs_flush s) (head s) (accepted s) (shown s ++ [(who f, t)]))); [|by apply rtc_once].
  unfold serves, do_serve_step. cbn [goto at_ frames]. rewrite Hf. unfold show_frame. cbn [goto frames needs_flush head accepted shown].
  by rewrite Hr, (view_app _ _ _ Ht).
Qed.

(** The first frame that is the program's. *)
Lemma take_first s : inv s -> at_ s = Scan 0 -> Forall settled (frames s) -> Forall (fun q => length q < room)%nat (accepted s) -> held (frames s) <> [] ->
  exists i f t s', frames s !! i = Some f /\ tp_status f <> 0 /\ held (frames s) = who f :: held (alter (set_status 0) i (frames s)) /\ rtc serves s s' /\
    s' = mk_state (alter (set_status 0) i (frames s)) (Scan 0) true (head s) (accepted s) (shown s ++ [(who f, t)]).
Proof.
  intros I Ha Hs Hp Hh. destruct (inv_ring s I) as [Hl _]. destruct (frames s) as [|f0 [|f1 [|]]] eqn:Hfs; try done.
  rewrite !Forall_cons in Hs. destruct Hs as (H0 & H1 & _). destruct (decide (tp_status f0 = 0)) as [E0|E0].
  - destruct (decide (tp_status f1 = 0)) as [E1|E1]; [exfalso; apply Hh; unfold held; rewrite !filter_cons_False by (by intros []); done|].
    assert (rtc serves s (goto (Scan 1) s)) as R by (apply (skip_kernel 0 f0); [done|by rewrite Hfs|vm_compute; lia|done]).
    destruct (take_frame 1 f1 (goto (Scan 1) s)) as (t & s' & R' & ->); try done.
    { apply inv_goto; try done. by rewrite Ha. }
    { cbn. by rewrite Hfs. }
    { vm_compute. lia. }
    cbn [goto frames head accepted shown] in R'. rewrite Hfs in R'. exists 1%nat, f1, t. eexists. split; [done|]. split; [done|]. split; [|split; [by etrans|done]].
    unfold held. cbn [alter list_alter]. rewrite !(filter_cons_False _ f0) by (by intros []). rewrite (filter_cons_True _ f1), filter_cons_False; [done|by intros []|done].
  - destruct (take_frame 0 f0 s) as (t & s' & R' & ->); try done.
    { by rewrite Hfs. }
    { vm_compute. lia. }
    rewrite Hfs in R'. exists 0%nat, f0, t. eexists. split; [done|]. split; [done|]. split; [|split; [done|done]].
    unfold held. cbn [alter list_alter]. by rewrite (filter_cons_True _ f0), (filter_cons_False _ (set_status 0 f0)) by (done || by intros []).
Qed.

Lemma take_all s : inv s -> at_ s = Scan 0 -> Forall settled (frames s) -> Forall (fun q => length q < room)%nat (accepted s) ->
  exists s', rtc serves s s' /\ at_ s' = Scan 0 /\ held (frames s') = [] /\ accepted s' = accepted s /\ (shown s').*1 = (shown s).*1 ++ held (frames s).
Proof.
  remember (length (held (frames s))) as n eqn:Hn. revert s Hn. induction n as [|n IH]; intros s Hn I Ha Hs Hp.
  - exists s. symmetry in Hn. apply nil_length_inv in Hn. by rewrite Hn, app_nil_r.
  - destruct (take_first s) as (i & f & t & s' & Hf & Hst & Hh & R & ->); try done; [by intros H; rewrite H in Hn|].
    rewrite Hh in Hn. injection Hn as Hn. match type of R with rtc serves s ?s1 => destruct (IH s1) as (s' & R' & Ha' & Hh' & Hacc & Hsh) end; try done.
    + by eapply inv_run; [apply serves_steps|].
    + cbn [frames]. apply Forall_alter; [done|]. intros. by left.
    + exists s'. split; [by etrans|]. split; [done|]. split; [done|]. split; [done|]. rewrite Hsh, Hh. cbn [shown frames]. by rewrite fmap_app, <- app_assoc.
Qed.

(** C9: whatever arrives and whenever: no packet is shown twice. What is shown of a packet is the
    text of its frame, in which it lies over what the frame held before; it is the text of the
    packet alone, followed by zeros, when it fits into a frame with a byte to spare and no longer
    one was accepted before it, and that of the packet itself when that has its own zero byte.
    From the front of its loop, left alone, the program shows every packet in the ring, provided
    that all packets accepted so far fit into a frame with a byte to spare and none in the ring
    has a copy waiting. *)
Theorem server_shows_packets_once s : rtc step start s ->
  NoDup (shown s).*1 /\
  (forall n t, (n, t) ∈ shown s -> told (accepted s) n t /\ exists p, accepted s !! n = Some p /\
     (forall t', view_ip_packet (snap p) = Ok t' -> t = t') /\
     ((length p < room)%nat -> Forall (fun q => length q <= length p)%nat (take n (accepted s)) -> view_ip_packet (alone p) = Ok t)) /\
  (at_ s = Scan 0 -> Forall settled (frames s) -> Forall (fun q => length q < room)%nat (accepted s) ->
    exists s', rtc serves s s' /\ at_ s' = Scan 0 /\ held (frames s') = [] /\ accepted s' = accepted s /\ (shown s').*1 = (shown s).*1 ++ held (frames s)).
Proof.
  intros I%rx_inv. split; [apply (inv_once s I)|]. split; [|intros; by apply take_all].
  intros n t Hin. pose proof (inv_shown s I n t Hin) as Ht. split; [done|]. destruct Ht as (p & r & Hp & Ht). exists p. split; [done|]. split.
  - intros t' Ht'. destruct (told_front (accepted s) n p Hp) as [r' Er]. rewrite Er, <- app_assoc, (view_app _ _ _ Ht') in Ht. by injection Ht.
  - intros Hl Hq. rewrite (frame_alone _ _ _ Hp Hl Hq) in Ht. destruct (view_alone p Hl) as [t' Ht']. rewrite (view_app _ _ _ Ht') in Ht. congruence.
Qed.

(** The packet of the client, received twice. *)
Definition demo_packet : list Z := eth_header client_side ++ ip_header client_side 12 0 ++ hellodata.
Definition demo_received : state := receive demo_packet 8 (Nat.iter 4 do_serve_step (receive demo_packet 0 start)).
Lemma server_shows_packets_once_witness : view_ip_packet (alone demo_packet) =
    Ok (chars "dst mac: aa:aa:aa:01:01:01" ++ [10] ++ chars "dst address: 17475776" ++ [10] ++ chars "data: hello friend" ++ [10]) /\
  exists s', rtc serves demo_received s' /\ (shown s').*1 = [0; 1]%nat.
Proof.
  destruct (server_shows_packets_once demo_received) as (_ & T & H).
  - eapply rtc_l; [apply (step_receive _ demo_packet 0)|]. do 4 (eapply rtc_l; [apply step_serve|]). apply rtc_once, (step_receive _ demo_packet 8).
  - split.
    + destruct (T 0%nat (chars "dst mac: aa:aa:aa:01:01:01" ++ [10] ++ chars "dst address: 17475776" ++ [10] ++ chars "data: hello friend" ++ [10]))
        as (_ & p & Hp & _ & A); [by_compute|]. injection Hp as <-. apply A; [vm_compute; lia|constructor].
    + destruct H as (s' & R & _ & _ & _ & E); [by vm_compute| |by_compute|].
      * apply Forall_cons. split; [by left|]. apply Forall_singleton. right. by vm_compute.
      * exists s'. split; [exact R|]. rewrite E. by vm_compute.
Defined.

(** A packet is neither shown nor in a frame of the program. *)
Definition gone (n : nat) (s : state) : Prop :=
  (n < length (accepted s))%nat /\ n ∉ (shown s).*1 /\ n ∉ held (frames s).

Lemma held_lookup fs n : n ∈ held fs <-> exists (i : nat) f, fs !! i = Some f /\ tp_status f <> 0 /\ who f = n.
Proof.
  unfold held. rewrite list_elem_of_fmap. split.
  - intros (f & -> & [Hst [i Hi]%list_elem_of_lookup]%list_elem_of_filter). eauto.
  - intros (i & f & Hi & Hst & <-). exists f. split; [done|]. apply list_elem_of_filter. split; [done|]. by eapply list_elem_of_lookup_2.
Qed.
Lemma held_alter fs (i : nat) n : n ∈ held (alter (set_status 0) i fs) -> n ∈ held fs.
Proof. rewrite !held_lookup. intros (k & f & [(_ & ? & _)|[_ Hk]]%alter_status & Hst & <-); [done|eauto]. Qed.

Lemma gone_serve n s : inv s -> gone n s -> gone n (do_serve_step s).
Proof.
  intros I (Hl & Hs & Hh). unfold do_serve_step. destruct (at_ s) as [i|i|i|i|i|e] eqn:Hat.
  - unfold process_rx_turn. by destruct (i <? CONF_RING_FRAMES)%nat.
  - destruct (frames s !! i) as [f|]; [|done]. unfold process_rx_test. repeat case_match; done.
  - destruct (frames s !! i) as [f|] eqn:Hi; [|done]. unfold show_frame. case_match; [|done]. split; [done|]. split; [|done].
    cbn [shown]. rewrite fmap_app, elem_of_app. intros [?|H1]; [done|]. apply list_elem_of_singleton in H1. cbn in H1. subst n.
    destruct (inv_at s I i (or_introl Hat)) as (f' & Hf' & Hst). simplify_eq. apply Hh, held_lookup. eauto.
  - split; [done|]. split; [done|]. by intros ?%held_alter.
  - unfold rx_flush_turn. destruct (i <? CONF_RING_FRAMES)%nat; [|done]. split; [done|]. split; [done|]. by intros ?%held_alter.
  - done.
Qed.
Lemma gone_step n a b : step a b -> inv a -> gone n a -> gone n b.
Proof.
  intros [s|s p fl] I Hg; [by apply gone_serve|]. destruct Hg as (Hl & Hs & Hh). unfold receive. repeat case_match; try done. split; cbn [accepted shown frames].
  - rewrite length_app. lia.
  - split; [done|]. rewrite held_lookup. intros (k & g & [(<- & <- & _)|[_ Hk]]%list_lookup_insert_Some & Hst & Hw); cbn [who] in Hw; [lia|].
    apply Hh, held_lookup. eauto.
Qed.

Lemma gone_run n a b : rtc step a b -> inv a -> gone n a -> gone n b.
Proof. induction 1 as [|a b c Hab _ IH]; [done|]. intros. apply IH; [by eapply rx_inv_step|by eapply gone_step]. Qed.

(** ** What goes wrong *)

(** A sequence of steps: packets received, and steps of the program ([None]). *)
Fixpoint exec (acts : list (option (list Z))) (s : state) : state :=
  match acts with
  | [] => s
  | None :: acts' => exec acts' (do_serve_step s)
  | Some p :: acts' => exec acts' (receive p 0 s)
  end.
Lemma exec_steps acts s : rtc step s (exec acts s).
Proof. revert s. induction acts as [|[p|] acts IH]; intros s; [done|..]; cbn; (eapply rtc_l; [|apply IH]); constructor. Qed.

(** A packet to the server as the client makes it, but for the checksum. *)
Definition to_server (msg : list Z) : list Z := eth_header client_side ++ ip_header client_side (Z.of_nat (length msg)) 0 ++ msg.

(** A packet that arrives after the ring was found empty and before it is flushed. *)
Definition unlucky : list (option (list Z)) :=
  [Some (to_server (chars "one"))] ++ replicate 4 None ++ replicate 5 None ++ [Some (to_server (chars "two"))] ++ replicate 3 None.

(** Two packets arrive while the second frame is waiting. *)
Definition crossing : list (option (list Z)) :=
  [Some (to_server (chars "one"))] ++ replicate 4 None ++ [Some (to_server (chars "two")); Some (to_server (chars "three"))] ++ replicate 10 None.

(** The first frame is used again, for a shorter packet. *)
Definition reused : list (option (list Z)) :=
  [Some (to_server (chars "hello friend"))] ++ replicate 4 None ++ [Some (to_server (chars "x"))] ++ replicate 6 None ++
  [Some (to_server (chars "bye"))] ++ replicate 4 None.

(** Packets can be lost although the kernel accepted them: one that arrives between the last
    look at the ring and its flush is never shown. They can be shown out of order, since each
    look starts at the first frame. And when a packet is shorter than the one its frame held
    before, the rest of that one is printed with it. *)
Theorem server_loses_reorders_and_mixes :
  (exists s, rtc step start s /\ at_ s = Scan 0 /\ length (accepted s) = 2%nat /\ (shown s).*1 = [0%nat] /\ forall s', rtc step s s' -> 1%nat ∉ (shown s').*1) /\
  (exists s, rtc step start s /\ (shown s).*1 = [0; 2; 1]%nat) /\
  (exists s, rtc step start s /\ accepted s = [to_server (chars "hello friend"); to_server (chars "x"); to_server (chars "bye")] /\
    drop 55 <$> (shown s).*2 = [chars "hello friend" ++ [10]; chars "x" ++ [10]; chars "byelo friend" ++ [10]]).
Proof.
  split; [|split].
  - exists (exec unlucky start). split; [apply exec_steps|]. split; [by vm_compute|]. split; [by vm_compute|]. split; [by vm_compute|].
    assert (gone 1 (exec unlucky start)) as G by (split; [vm_compute; lia|]; split; vm_compute; set_solver).
    intros s' R. apply (gone_run 1 _ _ R); [apply rx_inv, exec_steps|done].
  - eexists (exec crossing start). split; [apply exec_steps|by vm_compute].
  - eexists (exec reused start). split; [apply exec_steps|]. split; by vm_compute.
Qed.
End Rx.

(** ** The client's ring *)
Module Tx.

Definition TP_STATUS_AVAILABLE : Z := 0.
Definition TP_STATUS_SEND_REQUEST : Z := 1.
Definition TP_STATUS_SENDING : Z := 2.
Definition TP_STATUS_WRONG_FORMAT : Z := 4.

Record frame := mk_frame { tp_status : Z; tp_len : nat; bytes : list Z }.

(** Where the program is in [process_tx]: outside; waiting for its frame; at the copy of the
    packet; at the two stores to the header; inside [send]; after a fault. *)
Inductive pc := Idle (ret : Z) | Wait (pkt : list Z) | Fill (pkt : list Z) | Length (pkt : list Z) | Request (pkt : list Z) | Kick | Fault (e : fault).
#[global] Instance fault_dec : EqDecision fault.
Proof. solve_decision. Defined.
#[global] Instance pc_dec : EqDecision pc.
Proof. solve_decision. Defined.

(** Ring, program with the static [ring_offset], the kernel's place and the frames at the
    device; the packets the program has asked to send, and those on the wire. *)
Record state := mk_state {
  frames : list frame; at_ : pc; ring_offset : nat; head : nat; device : list nat; asked : list (list Z); wire : list (list Z) }.

Definition goto (p : pc) (s : state) : state := mk_state (frames s) p (ring_offset s) (head s) (device s) (asked s) (wire s).
Definition set_frame (i : nat) (f : frame) (s : state) : state :=
  mk_state (<[i := f]> (frames s)) (at_ s) (ring_offset s) (head s) (device s) (asked s) (wire s).

(** What [poll] and [send] return, where they are called; [poll] may be interrupted. *)
Inductive outcome := Fine | Interrupted | Fails.

(** A step of [process_tx] with its frame [f]; the packet is copied [offset] bytes behind the place of the data. *)
Definition process_tx_step (offset : nat) (o : outcome) (f : frame) (s : state) : state :=
  let i := ring_offset s in
  match at_ s with
  | Wait pkt =>
      if tp_status f =? TP_STATUS_AVAILABLE then goto (Fill pkt) s
      else match o with Fine => s | Interrupted => goto (Idle 0) s | Fails => goto (Idle (-1)) s end
  | Fill pkt =>
      let off := (TX_DATA_OFFSET + offset)%nat in
      if (off + length pkt <=? FRAME_SIZE)%nat then goto (Length pkt) (set_frame i (mk_frame (tp_status f) (tp_len f) (splice off pkt (bytes f))) s)
      else goto (Fault OutOfBounds) s
  | Length pkt => goto (Request pkt) (set_frame i (mk_frame (tp_status f) (length pkt) (bytes f)) s)
  | Request pkt =>
      let s := set_frame i (mk_frame TP_STATUS_SEND_REQUEST (tp_len f) (bytes f)) s in
      mk_state (frames s) Kick (Nat.land (i + 1) (CONF_RING_FRAMES - 1)) (head s) (device s) (asked s ++ [pkt]) (wire s)
  | Kick => goto (Idle (match o with Fine => 0 | _ => -1 end)) s
  | Idle _ | Fault _ => s
  end.

Definition start : state :=
  mk_state (replicate CONF_RING_FRAMES (mk_frame TP_STATUS_AVAILABLE 0 (replicate FRAME_SIZE 0))) (Idle 0) 0 0 [] [] [].

Section kernel.
(** The packets the device can send: the kernel checks the length against those of its header
    and of its largest frame. *)
Variable accepts : list Z -> bool.

(** The frame at the kernel's place waits to be sent. *)
Definition waiting (s : state) : bool :=
  match frames s !! head s with Some f => tp_status f =? TP_STATUS_SEND_REQUEST | None => false end.

(** What the kernel does inside [send] with the frame at its place: it takes it to the device
    and goes on to the next, or marks it, and [send] fails. PACKET_LOSS, which would make it
    skip such a frame, is not set. *)
Definition take_frame (s : state) : state :=
  match frames s !! head s with
  | Some f => if tp_status f =? TP_STATUS_SEND_REQUEST
      then if accepts (slice tx_data (tp_len f) (bytes f))
        then mk_state (<[head s := mk_frame TP_STATUS_SENDING (tp_len f) (bytes f)]> (frames s)) (at_ s) (ring_offset s)
               (Nat.modulo (S (head s)) CONF_RING_FRAMES) (device s ++ [head s]) (asked s) (wire s)
        else goto (Idle (-1)) (set_frame (head s) (mk_frame TP_STATUS_WRONG_FORMAT (tp_len f) (bytes f)) s)
      else s
  | None => s
  end.
(** The device has sent the first frame it holds. *)
Definition frame_sent (s : state) : state :=
  match device s with
  | i :: d => match frames s !! i with
      | Some f => mk_state (<[i := mk_frame TP_STATUS_AVAILABLE (tp_len f) (bytes f)]> (frames s)) (at_ s) (ring_offset s) (head s) d (asked s)
                    (wire s ++ [slice tx_data (tp_len f) (bytes f)])
      | None => s
      end
  | [] => s
  end.

(** The steps; [do_req] calls [process_tx] with packets that fit. The kernel takes frames only
    inside [send], which succeeds only when no frame waits any more; it may fail at any time. *)
Inductive step : state -> state -> Prop :=
  | step_call s r pkt : at_ s = Idle r -> (TX_DATA_OFFSET + length pkt <= FRAME_SIZE)%nat -> step s (goto (Wait pkt) s)
  | step_program s o f : frames s !! ring_offset s = Some f -> (at_ s = Kick -> o = Fine -> waiting s = false) ->
      step s (process_tx_step 0 o f s)
  | step_take s : at_ s = Kick -> step s (take_frame s)
  | step_sent s : step s (frame_sent s).

(** ** Proofs *)

(** The place of the [n]-th packet. *)
Definition place (n : nat) : nat := Nat.modulo n CONF_RING_FRAMES.

(** The frame of a packet in flight. *)
Definition carries (f : frame) (p : list Z) : Prop := tp_len f = length p /\ slice tx_data (length p) (bytes f) = p.

(** The numbers of packets sent, taken and asked for. *)
Definition sent (s : state) : nat := length (wire s).
Definition taken (s : state) : nat := sent s + length (device s).
Definition wanted (s : state) : nat := length (asked s).

(** Packets from [sent] to [taken] are at the device, from there to [wanted] they wait to be
    taken; the other frames are the program's. *)
Record inv (s : state) : Prop := mk_inv {
  inv_ring : length (frames s) = CONF_RING_FRAMES /\ Forall (fun f => length (bytes f) = FRAME_SIZE) (frames s);
  inv_order : (taken s <= wanted s <= sent s + CONF_RING_FRAMES)%nat;
  inv_places : ring_offset s = place (wanted s) /\ head s = place (taken s) /\ device s = place <$> seq (sent s) (length (device s));
  inv_wire : wire s = take (sent s) (asked s);
  inv_flight : forall n f, frames s !! place n = Some f -> (sent s <= n < sent s + CONF_RING_FRAMES)%nat ->
    ((n < wanted s)%nat -> (tp_status f = (if decide (n < taken s)%nat then TP_STATUS_SENDING else TP_STATUS_SEND_REQUEST) \/
        (n = taken s /\ tp_status f = TP_STATUS_WRONG_FORMAT)) /\
      exists p, asked s !! n = Some p /\ carries f p) /\
    ((wanted s <= n)%nat -> tp_status f = TP_STATUS_AVAILABLE);
  inv_at : match at_ s with
    | Idle _ | Kick => True
    | Wait pkt => (TX_DATA_OFFSET + length pkt <= FRAME_SIZE)%nat
    | Fill pkt => (TX_DATA_OFFSET + length pkt <= FRAME_SIZE)%nat /\ (wanted s < sent s + CONF_RING_FRAMES)%nat
    | Length pkt => (wanted s < sent s + CONF_RING_FRAMES)%nat /\ forall f, frames s !! place (wanted s) = Some f -> slice tx_data (length pkt) (bytes f) = pkt
    | Request pkt => (wanted s < sent s + CONF_RING_FRAMES)%nat /\ forall f, frames s !! place (wanted s) = Some f -> carries f pkt
    | Fault _ => False
    end }.

Lemma place_cases n : (place n = 0 \/ place n = 1)%nat.
Proof. unfold place. pose proof (Nat.mod_upper_bound n CONF_RING_FRAMES). unfold CONF_RING_FRAMES in *. lia. Qed.
Lemma place_S n : place (S n) = Nat.modulo (S (place n)) CONF_RING_FRAMES.
Proof. apply ring_next. Qed.
Lemma place_next n : Nat.land (place n + 1) (CONF_RING_FRAMES - 1) = place (S n).
Proof. rewrite place_S. by destruct (place_cases n) as [-> | ->]. Qed.
Lemma place_around n : place (n + CONF_RING_FRAMES) = place n.
Proof. unfold place. by rewrite <- (Nat.mul_1_l CONF_RING_FRAMES) at 1; rewrite Nat.Div0.mod_add. Qed.
Lemma place_inj w n m : (w <= n < w + CONF_RING_FRAMES)%nat -> (w <= m < w + CONF_RING_FRAMES)%nat -> place n = place m -> n = m.
Proof.
  unfold place. intros Hn Hm E. pose proof (Nat.div_mod_eq n CONF_RING_FRAMES). pose proof (Nat.div_mod_eq m CONF_RING_FRAMES). unfold CONF_RING_FRAMES in *. lia.
Qed.

(** What is found at a place after a frame was changed. *)
Lemma lookup_place (fs : list frame) w m n g f : (w <= n < w + CONF_RING_FRAMES)%nat -> (w <= m < w + CONF_RING_FRAMES)%nat ->
  <[place m := g]> fs !! place n = Some f -> (n = m /\ f = g) \/ (n <> m /\ fs !! place n = Some f).
Proof.
  intros Hn Hm [(E & <- & _)|[Hne ?]]%list_lookup_insert_Some; [left|right].
  - split; [|done]. symmetry. by eapply place_inj.
  - split; [|done]. by intros ->.
Qed.

(** A change of the frame the program fills. *)
Lemma tx_inv_write s g p : inv s -> (wanted s < sent s + CONF_RING_FRAMES)%nat -> tp_status g = TP_STATUS_AVAILABLE -> length (bytes g) = FRAME_SIZE ->
  match p with
  | Length pkt => slice tx_data (length pkt) (bytes g) = pkt
  | Request pkt => carries g pkt
  | _ => False
  end -> inv (goto p (set_frame (ring_offset s) g s)).
Proof.
  intros [[Hl Hb] Ho (Hr & Hh & Hd) Hw Hf Ha] Hlt Hg Hgl Hp. split; try done.
  - cbn. rewrite length_insert. split; [done|]. by apply Forall_insert.
  - intros n f Hn Hrange. cbn in Hn. rewrite Hr in Hn. change (sent s <= n < sent s + CONF_RING_FRAMES)%nat in Hrange.
    apply (lookup_place _ (sent s)) in Hn; [|done|cbn in *; unfold taken in *; lia]. destruct Hn as [[-> ->]|[Hne Hn]]; [|by apply Hf].
    split; [intros; exfalso; cbn in *; unfold wanted in *; cbn in *; lia|done].
  - assert (forall f, frames (set_frame (ring_offset s) g s) !! place (wanted s) = Some f -> f = g) as Hs.
    { intros f. cbn. rewrite Hr. intros [(_ & <- & _)|[? _]]%list_lookup_insert_Some; done. }
    destruct p; try done; cbn; (split; [done|]); intros f Hfr; by rewrite (Hs f Hfr).
Qed.

(** A move of the program that changes nothing shared. *)
Lemma inv_move s p : inv s ->
  match p with
  | Idle _ => True
  | Wait pkt => (TX_DATA_OFFSET + length pkt <= FRAME_SIZE)%nat
  | Fill pkt => (TX_DATA_OFFSET + length pkt <= FRAME_SIZE)%nat /\ (wanted s < sent s + CONF_RING_FRAMES)%nat
  | _ => False
  end -> inv (goto p s).
Proof. intros [Hr Ho Hp Hw Hf Ha] Hm. split; try done. by destruct p. Qed.

(** The program's frame is free when its status says so. *)
Lemma free_frame s f : inv s -> frames s !! ring_offset s = Some f -> tp_status f = TP_STATUS_AVAILABLE -> (wanted s < sent s + CONF_RING_FRAMES)%nat.
Proof.
  intros [_ Ho (Hr & _ & _) _ Hf _] Hi Hst. rewrite Hr in Hi. apply Nat.nle_gt. intros Hge.
  assert (wanted s = sent s + CONF_RING_FRAMES)%nat as E by lia. rewrite E, place_around in Hi.
  destruct (Hf (sent s) f Hi) as [[Hs _] _]; [unfold CONF_RING_FRAMES in *; lia|unfold CONF_RING_FRAMES in *; lia|]. rewrite Hst in Hs. destruct Hs as [Hs|[_ Hs]]; [|done]. by case_decide.
Qed.
Lemma bytes_length s i f : inv s -> frames s !! i = Some f -> length (bytes f) = FRAME_SIZE.
Proof. intros [[_ Hb] _ _ _ _ _] Hi. rewrite Forall_lookup in Hb. by eapply Hb. Qed.
Lemma status_free s f : inv s -> frames s !! ring_offset s = Some f -> (wanted s < sent s + CONF_RING_FRAMES)%nat -> tp_status f = TP_STATUS_AVAILABLE.
Proof. intros [_ Ho (Hr & _ & _) _ Hf _] Hi Hlt. rewrite Hr in Hi. apply (Hf _ _ Hi); [|done]. unfold taken in Ho. lia. Qed.

Lemma inv_request s f pkt : inv s -> at_ s = Request pkt -> frames s !! ring_offset s = Some f -> inv (process_tx_step 0 Fine f s).
Proof.
  intros I Hat Hi. pose proof (bytes_length s _ f I Hi) as Hbl. unfold process_tx_step. rewrite Hat.
  destruct I as [[Hl Hb] Ho (Hr & Hh & Hd) Hw Hf Ha]. rewrite Hat in Ha. destruct Ha as [Hlt Hc]. rewrite Hr in Hi.
  set (s' := mk_state _ _ _ _ _ _ _). assert (wanted s' = S (wanted s)) as Ew by (unfold wanted; cbn; rewrite length_app; cbn; lia).
  assert (taken s' = taken s) as Et by done. assert (sent s' = sent s) as Es by done. split; rewrite ?Ew, ?Et, ?Es.
  - cbn. rewrite length_insert. split; [done|]. by apply Forall_insert.
  - lia.
  - cbn. rewrite Hr, place_next. done.
  - cbn. fold (sent s). rewrite take_app_le; [done|]. unfold taken, wanted in *. lia.
  - intros n g Hg Hn. cbn in Hg. rewrite Hr in Hg. apply (lookup_place _ (sent s)) in Hg; [|done|unfold taken in *; lia].
    destruct Hg as [[-> ->]|[Hne Hg]].
    + split; [|lia]. intros _. cbn [tp_status]. rewrite decide_False by lia. split; [by left|]. exists pkt. cbn [asked s' set_frame].
      split; [by rewrite lookup_app_r, Nat.sub_diag by done|]. exact (Hc f Hi).
    + destruct (Hf n g Hg Hn) as [H1 H2]. split; [|intros; apply H2; lia]. intros Hlt'. destruct H1 as (Hst & p & Hp & Hcp); [lia|].
      split; [done|]. exists p. split; [by apply lookup_app_l_Some|done].
  - done.
Qed.

Lemma inv_program s o f : inv s -> frames s !! ring_offset s = Some f -> inv (process_tx_step 0 o f s).
Proof.
  intros I Hi. pose proof (inv_at s I) as Ha. destruct (at_ s) as [r|pkt|pkt|pkt|pkt| |e] eqn:Hat; unfold process_tx_step; rewrite Hat.
  - done.
  - destruct (tp_status f =? TP_STATUS_AVAILABLE) eqn:E.
    + zbool. apply inv_move; [done|]. split; [done|]. by eapply free_frame.
    + destruct o; [done|by apply inv_move..].
  - destruct Ha as [Hlen Hlt]. rewrite Nat.add_0_r. pose proof Hlen as Hle%Nat.leb_le. rewrite Hle.
    pose proof (bytes_length s _ f I Hi) as Hbl. apply tx_inv_write; [done|done|exact (status_free s f I Hi Hlt)| |]; cbn [bytes].
    + rewrite length_splice; lia.
    + change tx_data with TX_DATA_OFFSET. apply slice_splice_same. lia.
  - destruct Ha as [Hlt Hs]. destruct (inv_places s I) as (Hr & _ & _). apply tx_inv_write; [done|done|exact (status_free s f I Hi Hlt)|exact (bytes_length s _ f I Hi)|].
    split; [done|]. cbn [bytes]. apply Hs. by rewrite <- Hr.
  - pose proof (inv_request s f pkt I Hat Hi) as H. unfold process_tx_step in H. by rewrite Hat in H.
  - by apply inv_move.
  - done.
Qed.

(** The frame at the kernel's place, when it waits to be sent. *)
Lemma waiting_frame s f : inv s -> frames s !! head s = Some f -> tp_status f = TP_STATUS_SEND_REQUEST ->
  (taken s < sent s + CONF_RING_FRAMES)%nat /\ (taken s < wanted s)%nat /\ exists p, asked s !! taken s = Some p /\ carries f p.
Proof.
  intros [_ Ho (_ & Hh & _) _ Hf _] Hi E. rewrite Hh in Hi.
  assert (taken s < sent s + CONF_RING_FRAMES)%nat as Hlt.
  { apply Nat.nle_gt. intros Hge. assert (taken s = sent s + CONF_RING_FRAMES)%nat as Et by lia. rewrite Et, place_around in Hi.
    destruct (Hf (sent s) f Hi) as [[Hs _] _]; [unfold CONF_RING_FRAMES in *; lia..|].
    rewrite decide_True in Hs by (unfold CONF_RING_FRAMES in *; lia). rewrite E in Hs. destruct Hs as [|[_ ?]]; done. }
  assert (taken s < wanted s)%nat as Hlt'.
  { apply Nat.nle_gt. intros Hge. destruct (Hf (taken s) f Hi) as [_ H]; [unfold taken in *; lia|]. rewrite H in E by lia. done. }
  split; [done|]. split; [done|]. apply (Hf (taken s) f Hi); [unfold taken in *; lia|done].
Qed.

(** The kernel's change of the frame at its place leaves the program's frame alone. *)
Lemma program_frame s g h : inv s -> (taken s < wanted s)%nat -> (wanted s < sent s + CONF_RING_FRAMES)%nat ->
  <[head s := g]> (frames s) !! place (wanted s) = Some h -> frames s !! place (wanted s) = Some h.
Proof.
  intros [_ Ho (_ & Hh & _) _ _ _] Hlt Hlt2 Hg. rewrite Hh in Hg. apply (lookup_place _ (sent s)) in Hg; [|unfold taken in *; lia..].
  destruct Hg as [[? _]|[_ ?]]; [lia|done].
Qed.

Lemma tx_inv_taken s f : inv s -> frames s !! head s = Some f -> tp_status f = TP_STATUS_SEND_REQUEST ->
  inv (mk_state (<[head s := mk_frame TP_STATUS_SENDING (tp_len f) (bytes f)]> (frames s)) (at_ s) (ring_offset s)
         (Nat.modulo (S (head s)) CONF_RING_FRAMES) (device s ++ [head s]) (asked s) (wire s)).
Proof.
  intros I Hi E. destruct (waiting_frame s f I Hi E) as (Hlt & Hlt' & p & Hp & Hcp).
  pose proof (fun h => program_frame s (mk_frame TP_STATUS_SENDING (tp_len f) (bytes f)) h I Hlt') as Hsame.
  pose proof I as [[Hl Hb] Ho (Hr & Hh & Hd) Hw Hf Ha].
  set (s' := mk_state _ _ _ _ _ _ _). assert (taken s' = S (taken s)) as Et by (unfold taken, sent; cbn; rewrite length_app; cbn; lia).
  split; rewrite ?Et.
  - cbn. rewrite length_insert. split; [done|]. apply Forall_insert; [done|]. rewrite Forall_lookup in Hb. cbn. by eapply Hb.
  - change (wanted s') with (wanted s). change (sent s') with (sent s). lia.
  - split; [done|]. change (head s') with (Nat.modulo (S (head s)) CONF_RING_FRAMES). change (device s') with (device s ++ [head s]).
    split; [by rewrite Hh, place_S|]. rewrite length_app, Nat.add_1_r, seq_S, fmap_app. change (sent s') with (sent s). rewrite <- Hd, Hh. done.
  - done.
  - intros n g Hg Hn. cbn in Hg. rewrite Hh in Hg. apply (lookup_place _ (sent s)) in Hg; [|done|unfold taken in *; lia].
    change (wanted s') with (wanted s). destruct Hg as [[-> ->]|[Hne Hg]].
    + split; [|lia]. intros _. rewrite decide_True by lia. split; [by left|]. by exists p.
    + destruct (Hf n g Hg Hn) as [H1 H2]. split; [|done]. intros Hw'. destruct (H1 Hw') as [[-> |[? _]] H]; [|done]. split; [left|done].
      destruct (decide (n < taken s)%nat); [by rewrite decide_True by lia|by rewrite decide_False by lia].
  - change (wanted s') with (wanted s). change (sent s') with (sent s). change (at_ s') with (at_ s). destruct (at_ s) eqn:Hat; naive_solver.
Qed.
Lemma tx_inv_rejected s f : inv s -> frames s !! head s = Some f -> tp_status f = TP_STATUS_SEND_REQUEST ->
  inv (goto (Idle (-1)) (set_frame (head s) (mk_frame TP_STATUS_WRONG_FORMAT (tp_len f) (bytes f)) s)).
Proof.
  intros I Hi E. destruct (waiting_frame s f I Hi E) as (Hlt & Hlt' & p & Hp & Hcp).
  pose proof I as [[Hl Hb] Ho (Hr & Hh & Hd) Hw Hf Ha]. split; try done.
  - cbn. rewrite length_insert. split; [done|]. apply Forall_insert; [done|]. rewrite Forall_lookup in Hb. cbn. by eapply Hb.
  - intros n g Hg Hn. cbn in Hg. rewrite Hh in Hg. change (sent s <= n < sent s + CONF_RING_FRAMES)%nat in Hn.
    apply (lookup_place _ (sent s)) in Hg; [|done|unfold taken in *; lia]. destruct Hg as [[-> ->]|[Hne Hg]]; [|by apply Hf].
    split; [|intros; exfalso; cbn in *; unfold wanted in *; cbn in *; lia]. intros _. split; [by right|]. by exists p.
Qed.
Lemma tx_inv_take s : inv s -> inv (take_frame s).
Proof.
  intros I. unfold take_frame. destruct (frames s !! head s) as [f|] eqn:Hi; [|done].
  destruct (tp_status f =? TP_STATUS_SEND_REQUEST) eqn:E; [|done]. zbool. destruct (accepts _); [by apply tx_inv_taken|by apply tx_inv_rejected].
Qed.

Lemma inv_sent s : inv s -> inv (frame_sent s).
Proof.
  intros I. pose proof I as [[Hl Hb] Ho (Hr & Hh & Hd) Hw Hf Ha]. unfold frame_sent. destruct (device s) as [|i d] eqn:Edev; [done|].
  destruct (frames s !! i) as [f|] eqn:Hi; [|done]. cbn [length seq fmap list_fmap] in Hd. injection Hd as Ei Ed. rewrite Ei in Hi.
  assert (taken s = sent s + S (length d))%nat as Et by (unfold taken; by rewrite Edev).
  destruct (Hf (sent s) f Hi) as [[Hst (p & Hp & Hl' & Hs)] _]; [unfold CONF_RING_FRAMES; lia|lia|].
  set (s' := mk_state _ _ _ _ _ _ _). assert (sent s' = S (sent s)) as Es by (unfold sent; cbn; rewrite length_app; cbn; lia).
  assert (taken s' = taken s) as Et' by (unfold taken; rewrite Es, Edev; cbn; lia). change (wanted s') with (wanted s) in *.
  split; rewrite ?Es, ?Et'; change (wanted s') with (wanted s).
  - cbn. rewrite length_insert. split; [done|]. apply Forall_insert; [done|]. rewrite Forall_lookup in Hb. cbn. by eapply Hb.
  - lia.
  - split; [done|]. split; [done|]. done.
  - change (wire s') with (wire s ++ [slice tx_data (tp_len f) (bytes f)]). change (asked s') with (asked s).
    rewrite (take_S_r _ _ p), Hl', Hs by done. by rewrite <- Hw.
  - intros n g Hg Hn. unfold s' in Hg. cbn [frames] in Hg. rewrite Ei in Hg. destruct (decide (n = sent s + CONF_RING_FRAMES)%nat) as [->|Hne].
    + split; [lia|]. intros _. rewrite place_around in Hg. apply list_lookup_insert_Some in Hg as [(_ & <- & _)|[? _]]; done.
    + apply (lookup_place _ (sent s)) in Hg; [|lia|unfold CONF_RING_FRAMES; lia]. destruct Hg as [[-> _]|[_ Hg]]; [lia|].
      destruct (Hf n g Hg) as [H1 H2]; [lia|]. done.
  - assert (forall g, (wanted s < sent s + CONF_RING_FRAMES)%nat -> frames s' !! place (wanted s) = Some g -> frames s !! place (wanted s) = Some g) as Hsame.
    { intros g Hlt2 Hg. unfold s' in Hg. cbn [frames] in Hg. rewrite Ei in Hg. apply (lookup_place _ (sent s)) in Hg; [|lia..].
      destruct Hg as [[? _]|[_ ?]]; [lia|done]. }
    change (at_ s') with (at_ s). destruct (at_ s) eqn:Hat; try done; destruct Ha as [Ha1 Ha2]; (split; [done || lia|]); first [lia|intros g Hg; by apply Ha2, Hsame].
Qed.

Lemma tx_inv_start : inv start.
Proof.
  split; try done.
  - split; [done|]. apply Forall_replicate, length_replicate.
  - cbn. unfold CONF_RING_FRAMES. lia.
  - intros n f Hn _. apply (lookup_replicate CONF_RING_FRAMES) in Hn as [-> _]. split; [|done]. unfold wanted. cbn. lia.
Qed.
Lemma tx_inv_step a b : step a b -> inv a -> inv b.
Proof. intros [s r pkt Hat Hl|s o f Hf Ho|s Hat|s] I; [by apply inv_move|by apply inv_program|by apply tx_inv_take|by apply inv_sent]. Qed.
Lemma tx_inv s : rtc step start s -> inv s.
Proof.
  enough (forall a b, rtc step a b -> inv a -> inv b) as H by (intros R; exact (H _ _ R tx_inv_start)).
  induction 1 as [|a b c Hab _ IH]; [done|]. intros Ia. by eapply IH, tx_inv_step.
Qed.

(** The kernel inside [send] and the device alone. *)
Definition sends (a b : state) : Prop := (at_ a = Kick /\ b = take_frame a) \/ b = frame_sent a.

(** Runs in which no call of [send] fails. *)
Definition smooth (a b : state) : Prop := step a b /\ (at_ a = Kick -> at_ b = Kick \/ at_ b = Idle 0).

(** Outside [send], every packet asked for has been taken; no frame is marked. *)
Record served (s : state) : Prop := mk_served {
  sv_inv : inv s;
  sv_format : Forall (fun f => tp_status f <> TP_STATUS_WRONG_FORMAT) (frames s);
  sv_taken : at_ s <> Kick -> taken s = wanted s }.

Lemma frame_there s n : inv s -> exists f, frames s !! place n = Some f.
Proof.
  intros I. destruct (inv_ring s I) as [Hl _]. apply lookup_lt_is_Some_2. rewrite Hl. destruct (place_cases n) as [-> | ->]; unfold CONF_RING_FRAMES; lia.
Qed.
(** A frame waits as long as a packet was asked for and not taken, and then it carries this packet. *)
Lemma served_waiting s : served s -> (taken s < wanted s)%nat -> exists f p,
  frames s !! head s = Some f /\ tp_status f = TP_STATUS_SEND_REQUEST /\ asked s !! taken s = Some p /\ carries f p.
Proof.
  intros [I Hw _] Hlt. destruct (inv_places s I) as (_ & Hh & _). destruct (frame_there s (taken s) I) as [f Hf]. pose proof (inv_order s I) as Ho.
  destruct (inv_flight s I (taken s) f Hf) as [(Hs & p & Hp & Hc) _]; [unfold taken in *; lia|done|]. exists f, p. rewrite Hh. split; [done|]. split; [|done].
  destruct Hs as [Hs|[_ Hs]]; [by rewrite decide_False in Hs by lia|]. rewrite Forall_lookup in Hw. by destruct (Hw _ _ Hf).
Qed.
Lemma served_quiet s : served s -> waiting s = false -> taken s = wanted s.
Proof.
  intros S Hw. apply dec_stable. intros Hne. pose proof (inv_order s (sv_inv s S)).
  destruct (served_waiting s S) as (f & p & Hf & Hs & _); [lia|]. unfold waiting in Hw. by rewrite Hf, Hs in Hw.
Qed.
Lemma taken_frame_sent s : inv s -> taken (frame_sent s) = taken s.
Proof.
  intros I. unfold frame_sent, taken, sent. destruct (device s) as [|i d] eqn:Ed; [by rewrite Ed|]. destruct (frames s !! i); cbn; [|by rewrite Ed].
  rewrite length_app. cbn. lia.
Qed.
Lemma frame_sent_same s : at_ (frame_sent s) = at_ s /\ asked (frame_sent s) = asked s /\ wanted (frame_sent s) = wanted s.
Proof. unfold frame_sent. destruct (device s); [done|]. by destruct (frames s !! _). Qed.
Lemma served_sent s : served s -> served (frame_sent s).
Proof.
  intros [I Hw Ht]. destruct (frame_sent_same s) as (Ea & _ & Ew). split; [by apply inv_sent| |rewrite Ea, Ew, taken_frame_sent by done; done].
  unfold frame_sent. destruct (device s); [done|]. destruct (frames s !! _); [|done]. cbn. by apply Forall_insert.
Qed.

Lemma program_format s o f : Forall (fun f => tp_status f <> TP_STATUS_WRONG_FORMAT) (frames s) -> tp_status f <> TP_STATUS_WRONG_FORMAT ->
  Forall (fun f => tp_status f <> TP_STATUS_WRONG_FORMAT) (frames (process_tx_step 0 o f s)).
Proof. intros Hw Hf. unfold process_tx_step. repeat case_match; try done; cbn; by apply Forall_insert. Qed.
Lemma program_taken s o f : at_ (process_tx_step 0 o f s) <> Kick ->
  taken (process_tx_step 0 o f s) = taken s /\ wanted (process_tx_step 0 o f s) = wanted s.
Proof. unfold process_tx_step. repeat case_match; done. Qed.

Lemma served_step a b : smooth a b -> served a -> served b.
Proof.
  intros [Hstep Hok] S. pose proof (tx_inv_step a b Hstep (sv_inv a S)) as Ib. pose proof S as [I Hw Ht].
  destruct Hstep as [s r pkt Hat Hl|s o f Hf Ho|s Hat|s]; [| | |by apply served_sent].
  - split; [done|done|]. intros _. apply Ht. by rewrite Hat.
  - assert (tp_status f <> TP_STATUS_WRONG_FORMAT) as Hff by (rewrite Forall_lookup in Hw; by eapply Hw).
    split; [done|by apply program_format|]. intros Hk. destruct (program_taken s o f Hk) as [-> ->].
    destruct (decide (at_ s = Kick)) as [Hat|Hat]; [|by apply Ht]. apply served_quiet; [done|]. apply Ho; [done|].
    destruct (Hok Hat) as [?|E]; [done|]. unfold process_tx_step in E. rewrite Hat in E. by destruct o.
  - revert Hok. unfold take_frame in *. destruct (frames s !! head s) as [f|]; [|done]. destruct (tp_status f =? _); [|done].
    destruct (accepts _); intros Hok; [|by destruct (Hok Hat)]. split; [done|by apply Forall_insert|done].
Qed.
Lemma served_reach s : rtc smooth start s -> served s.
Proof.
  enough (forall a b, rtc smooth a b -> served a -> served b) as H.
  { intros R. apply (H _ _ R). split; [apply tx_inv_start|by apply Forall_replicate|done]. }
  induction 1 as [|a b c Hab _ IH]; [done|]. intros Sa. by eapply IH, served_step.
Qed.

(** One packet more is on the wire. *)
Lemma device_sends s : inv s -> device s <> [] -> sent (frame_sent s) = S (sent s).
Proof.
  intros I Hd. unfold frame_sent. destruct (device s) as [|i d] eqn:Ed; [done|]. destruct (inv_places s I) as (_ & _ & Hp). rewrite Ed in Hp. injection Hp as Ei _.
  destruct (frame_there s (sent s) I) as [f Hf]. rewrite Ei, Hf. unfold sent. cbn. rewrite length_app. cbn. lia.
Qed.
Lemma sends_one s : served s -> Forall (fun p => accepts p = true) (asked s) -> (sent s < wanted s)%nat ->
  exists s', rtc sends s s' /\ served s' /\ at_ s' = at_ s /\ sent s' = S (sent s) /\ asked s' = asked s.
Proof.
  intros S Ha Hlt. enough (forall s, served s -> device s <> [] -> exists s', rtc sends s s' /\ served s' /\ at_ s' = at_ s /\ sent s' = Datatypes.S (sent s) /\ asked s' = asked s) as H.
  { destruct (device s) eqn:Hd; [|by apply H; [|rewrite Hd]].
    assert (taken s = sent s) as Et by (unfold taken; rewrite Hd; cbn; lia).
    assert (at_ s = Kick) as Hk by (apply dec_stable; intros Hk; pose proof (sv_taken s S Hk); lia).
    destruct (served_waiting s S) as (f & p & Hf & Hs & Hp & Hl & Hc); [lia|]. rewrite Forall_lookup in Ha. specialize (Ha _ _ Hp).
    assert (take_frame s = mk_state (<[head s := mk_frame TP_STATUS_SENDING (tp_len f) (bytes f)]> (frames s)) (at_ s) (ring_offset s)
      (Nat.modulo (Datatypes.S (head s)) CONF_RING_FRAMES) (device s ++ [head s]) (asked s) (wire s)) as E
      by (unfold take_frame; rewrite Hf, Hs, Hl, Hc, Ha; done).
    destruct (H (take_frame s)) as (s' & R & S' & Hat & Hs' & Ha').
    - apply (served_step s); [|done]. split; [by apply step_take|]. intros _. rewrite E. by left.
    - rewrite E. cbn. by destruct (device s).
    - exists s'. split; [eapply (rtc_l _ _ (take_frame s)); [by left|exact R]|]. rewrite E in Hs', Ha', Hat. done. }
  clear s S Hlt Ha. intros s S Hd. exists (frame_sent s). split; [apply rtc_once; by right|]. split; [by apply served_sent|].
  destruct (frame_sent_same s) as (-> & -> & _). split; [done|]. split; [|done]. apply device_sends; [apply (sv_inv s S)|done].
Qed.

Lemma sends_all s : served s -> Forall (fun p => accepts p = true) (asked s) ->
  exists s', rtc sends s s' /\ wire s' = asked s /\ waiting s' = false.
Proof.
  remember (wanted s - sent s)%nat as n eqn:Hn. revert s Hn. induction n as [|n IH]; intros s Hn S Ha.
  - exists s. split; [done|]. pose proof (inv_order s (sv_inv s S)) as Ho.
    split; [rewrite (inv_wire s (sv_inv s S)); apply take_ge; unfold wanted, taken in *; lia|].
    unfold waiting. destruct (frames s !! head s) as [f|] eqn:Hf; [|done]. destruct (_ =? _) eqn:E; [|done]. zbool.
    destruct (waiting_frame s f (sv_inv s S) Hf E) as (_ & ? & _). unfold taken in *. lia.
  - destruct (sends_one s S Ha) as (s1 & R & S1 & _ & Hs & Ha1); [lia|]. destruct (IH s1) as (s2 & R2 & E & Hw); [unfold wanted in *; rewrite Ha1; lia|done|by rewrite Ha1|].
    exists s2. split; [by etrans|]. by rewrite E, Ha1.
Qed.

(** C5: in any order of the program, the kernel and the device: the packets on the wire are the
    first of those the program asked to send, in order and unchanged; no step faults; and the
    program fills a frame only while the kernel has no use for it. As long as no call of [send]
    fails, whenever the program is not inside [send] everything it asked to send has been
    taken; and if the device accepts the packets, then at any time the device, and inside [send]
    also the kernel, get every packet out without the program, after which [send] can return. *)
Theorem client_sends_in_order s :
  (rtc step start s ->
    wire s = take (length (wire s)) (asked s) /\ (forall e, at_ s <> Fault e) /\
    (forall pkt, at_ s = Fill pkt \/ at_ s = Length pkt \/ at_ s = Request pkt ->
      exists f, frames s !! ring_offset s = Some f /\ tp_status f = TP_STATUS_AVAILABLE)) /\
  (rtc smooth start s ->
    (at_ s <> Kick -> (length (wire s) + length (device s) = length (asked s))%nat) /\
    (Forall (fun p => accepts p = true) (asked s) ->
      exists s', rtc sends s s' /\ wire s' = asked s /\ waiting s' = false)).
Proof.
  split.
  - intros I%tx_inv. split; [apply (inv_wire s I)|]. split.
    + intros e He. pose proof (inv_at s I) as H. by rewrite He in H.
    + intros pkt Hp. destruct (inv_places s I) as (Hr & _ & _). destruct (frame_there s (wanted s) I) as [f Hf]. rewrite <- Hr in Hf.
      exists f. split; [done|]. eapply status_free; [done|done|]. pose proof (inv_at s I) as H. destruct Hp as [E|[E|E]]; rewrite E in H; tauto.
  - intros S%served_reach. split; [apply (sv_taken s S)|]. by apply sends_all.
Qed.

(** A frame the kernel has marked stays at its place. *)
Definition blocked (f : frame) (s : state) : Prop := frames s !! head s = Some f /\ tp_status f = TP_STATUS_WRONG_FORMAT.
Lemma blocked_step f a b : step a b -> inv a -> blocked f a -> blocked f b /\ taken b = taken a.
Proof.
  intros Hstep I [Hf Hs]. pose proof (inv_places a I) as (Hr & Hh & Hd). pose proof (inv_order a I) as Ho.
  assert (forall g, frames a !! ring_offset a = Some g -> tp_status g = TP_STATUS_AVAILABLE -> ring_offset a <> head a) as Hne.
  { intros g Hg Hav E. rewrite E, Hf in Hg. injection Hg as <-. by rewrite Hs in Hav. }
  destruct Hstep as [s r pkt Hat Hl|s o g Hg Ho'|s Hat|s]; [done| | |].
  - unfold process_tx_step, blocked. pose proof (inv_at s I) as Ha. destruct (at_ s) as [r|pkt|pkt|pkt|pkt| |e] eqn:Hat; cbn; try done.
    + by destruct (tp_status g =? _), o.
    + destruct (_ <=? _)%nat; [|done]. cbn. rewrite list_lookup_insert_ne; [done|]. eapply Hne; [done|]. by eapply status_free; [..|apply Ha].
    + rewrite list_lookup_insert_ne; [done|]. eapply Hne; [done|]. by eapply status_free; [..|apply Ha].
    + rewrite list_lookup_insert_ne; [done|]. eapply Hne; [done|]. by eapply status_free; [..|apply Ha].
  - unfold take_frame, blocked. rewrite Hf, Hs. cbn. by rewrite Hf.
  - split; [|by apply taken_frame_sent]. unfold blocked, frame_sent. destruct (device s) as [|i d] eqn:Ed; [done|]. destruct (frames s !! i) as [g|] eqn:Hi; [|done].
    cbn. rewrite list_lookup_insert_ne; [done|]. intros ->. rewrite Hf in Hi. injection Hi as ->. cbn in Hd. injection Hd as Ei _.
    assert (taken s = sent s + Datatypes.S (length d))%nat as Et by (unfold taken; by rewrite Ed). rewrite Ei in Hf.
    destruct (inv_flight s I (sent s) g Hf) as [[[Hst|[? _]] _] _]; [unfold CONF_RING_FRAMES; lia|lia| |lia]. rewrite decide_True, Hs in Hst by lia. done.
Qed.

(** A packet the device does not accept blocks the ring for good: its frame stays marked, the
    program never looks for the mark, and none of the packets asked for afterwards is sent. *)
Theorem rejected_packet_blocks_the_ring s s' f : rtc step start s -> blocked f s -> rtc step s s' ->
  blocked f s' /\ (length (wire s') <= length (wire s) + length (device s))%nat.
Proof.
  intros I%tx_inv Hb R. enough (blocked f s' /\ taken s' = taken s /\ inv s') as (H & Ht & _) by (split; [done|]; unfold taken, sent in Ht; lia).
  revert I Hb. induction R as [|a b c Hab _ IH]; [done|]. intros I Hb. destruct (blocked_step f a b Hab I Hb) as [Hb' Et].
  rewrite <- Et. apply IH; [by eapply tx_inv_step|done].
Qed.
End kernel.

(** The lengths an Ethernet device accepts, with a header and at most 1500 bytes of data and a VLAN tag. *)
Definition ethernet (p : list Z) : bool := (14 <=? length p)%nat && (length p <=? 1518)%nat.

Definition demo_packet : list Z := replicate 14 1 ++ [104; 105].
Definition demo_frame : frame := mk_frame 0 16 (splice 32 demo_packet (replicate FRAME_SIZE 0)).
(** The program has asked to send the packet and is inside [send]. *)
Definition demo_kick : state := process_tx_step 0 Fine demo_frame (goto (Request demo_packet) (set_frame 0 demo_frame start)).
Lemma demo_smooth accepts : rtc (smooth accepts) start demo_kick.
Proof.
  eapply rtc_l; [split; [by apply (step_call _ start 0 demo_packet); [|vm_compute; lia]|done]|].
  do 3 (eapply rtc_l; [split; [by eapply step_program with (o := Fine)|done]|]). apply rtc_once. split; [by apply (step_program _ _ Fine)|done].
Qed.

Lemma client_sends_in_order_witness : exists s', rtc (sends ethernet) demo_kick s' /\ wire s' = [demo_packet] /\ waiting s' = false.
Proof.
  destruct (client_sends_in_order ethernet demo_kick) as (_ & H). destruct (H (demo_smooth _)) as [_ H'].
  apply H'. by vm_compute; constructor.
Defined.

Lemma rejected_packet_blocks_the_ring_witness : exists f, blocked f (take_frame (fun _ => false) demo_kick).
Proof.
  exists (mk_frame TP_STATUS_WRONG_FORMAT 16 (bytes demo_frame)).
  apply (rejected_packet_blocks_the_ring (fun _ => false) (take_frame (fun _ => false) demo_kick) (take_frame (fun _ => false) demo_kick)); [|by vm_compute|done].
  eapply rtc_r; [|by apply step_take]. eapply rtc_subrel; [|apply (demo_smooth (fun _ => false))]. by intros x y [? _].
Defined.

(** A packet that does not fit leaves its frame. *)
Lemma long_packet_overruns s f o pkt : at_ s = Fill pkt -> (FRAME_SIZE < TX_DATA_OFFSET + length pkt)%nat -> at_ (process_tx_step 0 o f s) = Fault OutOfBounds.
Proof.
  intros Hat Hl. unfold process_tx_step. rewrite Hat, Nat.add_0_r. destruct (_ <=? _)%nat eqn:E; [apply Nat.leb_le in E; lia|done].
Qed.
End Tx.


(** ** From client to server *)
Module Link.
Import Packet.

(** The program on its own, without errors, up to [send]. *)
Definition runs (s : Tx.state) : Tx.state :=
  if decide (Tx.at_ s = Tx.Kick) then s else
  match Tx.frames s !! Tx.ring_offset s with Some f => Tx.process_tx_step 0 Tx.Fine f s | None => s end.

(** The first call of [process_tx], and the packet taken inside [send] and sent by an Ethernet device. *)
Definition first_call (pkt : list Z) : Tx.state :=
  Tx.frame_sent (Tx.take_frame Tx.ethernet (Nat.iter 4 runs (Tx.goto (Tx.Wait pkt) Tx.start))).

Lemma runs_step s : rtc (Tx.step Tx.ethernet) s (runs s).
Proof.
  unfold runs. destruct (decide _); [done|]. destruct (Tx.frames s !! Tx.ring_offset s) as [f|] eqn:E; [|done]. by apply rtc_once, (Tx.step_program _ _ Tx.Fine).
Qed.
Lemma runs_steps n s : rtc (Tx.step Tx.ethernet) s (Nat.iter n runs s).
Proof. induction n as [|n IH]; [done|]. cbn [Nat.iter]. etrans; [exact IH|apply runs_step]. Qed.
Lemma first_call_steps pkt : (TX_DATA_OFFSET + length pkt <= FRAME_SIZE)%nat -> Tx.at_ (Nat.iter 4 runs (Tx.goto (Tx.Wait pkt) Tx.start)) = Tx.Kick -> rtc (Tx.step Tx.ethernet) Tx.start (first_call pkt).
Proof.
  intros Hl Hk. eapply rtc_l; [by eapply (Tx.step_call _ Tx.start 0)|]. eapply rtc_r; [|apply Tx.step_sent]. eapply rtc_r; [|by apply Tx.step_take]. apply runs_steps.
Qed.

(** Where the memory behind the client's packet can be read, the packet goes out unchanged by
    the ring, and the server prints its text in the four steps of its loop. *)
Theorem hello_arrives after : Forall is_byte after -> (32 <= length after)%nat -> exists p, new_packet after = Ok p /\
  rtc (Tx.step Tx.ethernet) Tx.start (first_call p) /\ Tx.wire (first_call p) = [p] /\
  (Rx.shown (Rx.exec ((Some <$> Tx.wire (first_call p)) ++ replicate 4 None) Rx.start)).*2 =
    [chars "dst mac: aa:aa:aa:01:01:01" ++ [10] ++ chars "dst address: 17475776" ++ [10] ++ chars "data: hello friend" ++ [10]].
Proof.
  intros Ha Hl. destruct (packet_made client_side hellodata after) as (k & Ep & _ & _); [apply good_sides|by vm_compute|done|done|].
  change (Z.of_nat (length hellodata)) with 12 in Ep. eexists. split; [exact Ep|]. split; [apply first_call_steps; [vm_compute; lia|by vm_compute]|].
  split; by vm_compute.
Qed.

Lemma hello_arrives_witness : exists p, new_packet (replicate 32 1) = Ok p /\ Tx.wire (first_call p) = [p].
Proof.
  destruct (hello_arrives (replicate 32 1)) as (p & E & _ & W & _); [by apply Forall_replicate|vm_compute; lia|]. exists p. split; [exact E|exact W].
Defined.
End Link.
