(* ===== verification/SymCrypt.v ===== *)
(** * Symmetric encryption

    src/crypt-sym: a program that makes keys, encrypts a message and decrypts it, with keys and
    messages in hexadecimal in files. The branch that is compiled is the one for CBC. The
    functions of OpenSSL are parameters of the section [sym]: encryption and decryption in CBC
    mode with padding, and the message authentication code; [cipher_laws] has what their
    documentation says. [rand] is a sequence of numbers, the file system a map from names to
    contents, and [writable] says which files can be opened for writing. *)
From stdpp Require Import base numbers list gmap strings.
From iris.proofmode Require Import proofmode.
From S2P Require Import Prelude CBase CDecimal CHeap HeapLogic CStrings Hex.
Set Warnings "-rewrite-rw".
Local Open Scope Z_scope.

(** ** Bytes and files *)

(** The bytes at a place. *)
Definition read_bytes (p : ptr) (n : nat) : C (list Z) := c ← read_cells p n; mapM as_int c.

Definition fsys : Type := gmap (list Z) (list Z).

(** [fopen(path, "w")], [fputs] and [fclose]; [fputs] with the null pointer is a fault. *)
Definition put_file (writable : list Z -> bool) (path : list Z) (p : ptr) (fs : fsys) : C fsys :=
  if writable path then x ← read_string p; mret (<[path := x]> fs) else stfail NullDeref.

(** [fopen(path, "r")], [fgets] and [fclose]; at the end of the file [fgets] changes nothing. *)
Definition get_line (fs : fsys) (path : list Z) (buf : ptr) (size : nat) : C unit :=
  match fs !! path with
  | None => stfail NullDeref
  | Some [] => mret tt
  | Some x => write_cells buf (str_cells (chunk (size - 1) x))
  end.

Section bytes.
Implicit Types (w : world) (l : nat) (b : list val).

Lemma mapM_ints xs w Φ : Φ xs w ⊢ wpc (mapM as_int (VInt <$> xs)) w Φ.
Proof.
  revert Φ. induction xs as [|x xs IH]; intros Φ; cbn [fmap list_fmap mapM]; iIntros "HΦ"; [by wpc_ret|].
  wpc_bind. wpc_ret. wpc_bind. iApply IH. by wpc_ret.
Qed.
Lemma wpc_read_bytes l b xs r n w Φ : b = (VInt <$> xs) ++ r -> n = length xs ->
  l ↦ b -∗ (l ↦ b -∗ Φ xs w) -∗ wpc (read_bytes (Some (l, 0%nat)) n) w Φ.
Proof.
  iIntros (-> ->) "Hl HΦ". unfold read_bytes. wpc_bind. iApply (wpc_read_cells with "Hl"); [rewrite length_app length_fmap; lia|].
  iIntros "Hl". unfold slice. rewrite drop_0 -{1}(length_fmap VInt) take_app_length. iApply mapM_ints. by iApply "HΦ".
Qed.
Lemma wpc_put_file writable path l x fs w Φ : writable path = true -> no_nul x ->
  l ↦ str_cells x -∗ (l ↦ str_cells x -∗ Φ (<[path := x]> fs) w) -∗ wpc (put_file writable path (Some (l, 0%nat)) fs) w Φ.
Proof.
  iIntros (Hw Hx) "Hl HΦ". unfold put_file. rewrite Hw. wpc_bind. iApply (wpc_read_string with "Hl"); [by apply str_in_cells|].
  iIntros "Hl". wpc_ret. by iApply "HΦ".
Qed.
Lemma chunk_all n x : 10 ∉ x -> (length x <= n)%nat -> chunk n x = x.
Proof.
  revert n. induction x as [|c x IH]; intros n Hx Hl; [by destruct n|]. destruct n as [|n]; [cbn in Hl; lia|]. cbn [chunk].
  apply not_elem_of_cons in Hx as [Hc Hx]. destruct (c =? 10) eqn:E; [zbool; lia|]. rewrite IH; [done|done|cbn in Hl; lia].
Qed.
Lemma wpc_get_line fs path l b x size w Φ : fs !! path = Some x -> x <> [] -> 10 ∉ x -> (length x < size)%nat -> (size <= length b)%nat ->
  l ↦ b -∗ (l ↦ splice 0 (str_cells x) b -∗ Φ tt w) -∗ wpc (get_line fs path (Some (l, 0%nat)) size) w Φ.
Proof.
  iIntros (Hf Hne H10 Hl Hb) "Hl HΦ". unfold get_line. rewrite Hf. destruct x as [|c x]; [done|]. rewrite chunk_all; [|done|lia].
  iApply (wpc_write_cells with "Hl"); [rewrite length_str_cells; lia|]. done.
Qed.
End bytes.

Module Sym.
Import Hex.

Definition KEYLEN : nat := 32.
Definition IVLEN : nat := 16.
Definition MAX_IN : nat := 256.
Definition MAX_OUT : nat := 1024.

Definition auth_key_path : list Z := chars "./auth_key.data".
Definition auth_path : list Z := chars "./auth.data".

(** The [n]-th call of [rand] is the one after [k] others. *)
Definition gen_random_bytestream (rand : nat -> Z) (k num_bytes : nat) : C ptr :=
  stream ← malloc num_bytes;
  for_loop num_bytes 0 (fun i => store stream i (VInt (u8 (rand (k + Z.to_nat i)%nat))));;
  mret stream.

Definition char2hex (arrlen : Z) (bytearray : ptr) : C ptr := bin2hex arrlen bytearray.

(** The block and the value of [*arrlen], which counts the turns of the loop. *)
Definition hex2char (hexarray : ptr) : C (ptr * Z) :=
  chararray ← hex2bin hexarray;
  hexlen ← strlen hexarray;
  mret (chararray, Z.max 0 (Z.quot (s32 hexlen) 2)).

Section sym.
Context (encrypt : list Z -> list Z -> list Z -> list Z).
Context (decrypt : list Z -> list Z -> list Z -> list Z * option (list Z)).
Context (hmac : list Z -> list Z -> list Z).
Context (writable : list Z -> bool) (rand : nat -> Z).

Definition sym_keygen (key_path iv_path : list Z) (fs : fsys) : C fsys :=
  key ← gen_random_bytestream rand 0 KEYLEN;
  iv ← gen_random_bytestream rand KEYLEN IVLEN;
  hex_key ← char2hex (Z.of_nat KEYLEN) key;
  hex_iv ← char2hex (Z.of_nat IVLEN) iv;
  fs ← put_file writable key_path hex_key fs;
  fs ← put_file writable iv_path hex_iv fs;
  free key;; free iv;; free hex_key;; free hex_iv;;
  auth_key ← gen_random_bytestream rand (KEYLEN + IVLEN) KEYLEN;
  hex_auth_key ← char2hex (Z.of_nat KEYLEN) auth_key;
  fs ← put_file writable auth_key_path hex_auth_key fs;
  free auth_key;; free hex_auth_key;;
  mret fs.

(** A key in hexadecimal from a file: the array for its text and the key. *)
Definition load_key (fs : fsys) (path : list Z) (hex_array : ptr) (keylen : nat) : C unit :=
  get_line fs path hex_array (keylen * 2 + 1).

(** [EVP_EncryptUpdate] writes the full blocks, [EVP_EncryptFinal] the rest; [HMAC] returns an array of its own. *)
Definition sym_encrypt (key_path iv_path : list Z) (enc_msg : ptr) (enc_path : list Z) (fs : fsys) : C fsys :=
  outbuf ← new_block (replicate MAX_OUT (VInt 0));
  inbuf ← new_block (replicate MAX_IN (VInt 0));
  cbc_key_hex ← new_block (replicate (KEYLEN * 2 + 1) VUndef);
  cbc_iv_hex ← new_block (replicate (IVLEN * 2 + 1) VUndef);
  cbc_auth_hex ← new_block (replicate (KEYLEN * 2 + 1) VUndef);
  let enc_len := MAX_IN in
  strcpy inbuf enc_msg;;
  load_key fs key_path cbc_key_hex KEYLEN;;
  load_key fs iv_path cbc_iv_hex IVLEN;;
  load_key fs auth_key_path cbc_auth_hex KEYLEN;;
  '(cbc_key, _) ← hex2char cbc_key_hex;
  '(cbc_iv, _) ← hex2char cbc_iv_hex;
  '(cbc_auth, _) ← hex2char cbc_auth_hex;
  key ← read_bytes cbc_key KEYLEN;
  iv ← read_bytes cbc_iv IVLEN;
  text ← read_bytes inbuf enc_len;
  let c := encrypt key iv text in
  let outlen := (enc_len / 16 * 16)%nat in
  write_cells outbuf (VInt <$> take outlen c);;
  let ciphertext_len := outlen in
  write_cells (offset outbuf outlen) (VInt <$> drop outlen c);;
  let outlen := (length c - outlen)%nat in
  emit (chars "encrypt rv: 1" ++ [10]);;
  let ciphertext_len := (ciphertext_len + outlen)%nat in
  outbuf_hex ← char2hex (Z.of_nat ciphertext_len) outbuf;
  fs ← put_file writable enc_path outbuf_hex fs;
  auth ← read_bytes cbc_auth KEYLEN;
  signed ← read_bytes outbuf outlen;
  let md := hmac auth signed in
  result ← new_block (VInt <$> md);
  auth_result_hex ← char2hex (Z.of_nat (length md)) result;
  fs ← put_file writable auth_path auth_result_hex fs;
  free cbc_key;; free cbc_iv;; free cbc_auth;; free outbuf_hex;; free auth_result_hex;;
  free result;; free outbuf;; free inbuf;; free cbc_key_hex;; free cbc_iv_hex;; free cbc_auth_hex;;
  mret fs.

(** [EVP_DecryptUpdate] writes all but the last block, [EVP_DecryptFinal] what the padding leaves of it. *)
Definition sym_decrypt (key_path iv_path enc_path : list Z) (dec_msg : ptr) (fs : fsys) : C unit :=
  inbuf ← new_block (replicate MAX_OUT (VInt 0));
  outbuf ← new_block (replicate MAX_OUT (VInt 0));
  cbc_key_hex ← new_block (replicate (KEYLEN * 2 + 1) VUndef);
  cbc_iv_hex ← new_block (replicate (IVLEN * 2 + 1) VUndef);
  load_key fs key_path cbc_key_hex KEYLEN;;
  load_key fs iv_path cbc_iv_hex IVLEN;;
  '(cbc_key, _) ← hex2char cbc_key_hex;
  '(cbc_iv, _) ← hex2char cbc_iv_hex;
  get_line fs enc_path inbuf MAX_OUT;;
  '(inbuf_bin, bin_outlen) ← hex2char inbuf;
  key ← read_bytes cbc_key KEYLEN;
  iv ← read_bytes cbc_iv IVLEN;
  emit (dec bin_outlen ++ [10]);;
  c ← read_bytes inbuf_bin (Z.to_nat bin_outlen);
  let '(text, last) := decrypt key iv c in
  write_cells outbuf (VInt <$> text);;
  emit (chars "decrypt update rv: 1" ++ [10]);;
  match last with Some y => write_cells (offset outbuf (length text)) (VInt <$> y) | None => mret tt end;;
  strcpy dec_msg outbuf;;
  emit (chars "decrypt rv: " ++ dec (match last with Some _ => 1 | None => 0 end) ++ [10]);;
  free cbc_key;; free cbc_iv;; free inbuf_bin;;
  free inbuf;; free outbuf;; free cbc_key_hex;; free cbc_iv_hex.

Definition key_path : list Z := chars "./key.data".
Definition iv_path : list Z := chars "./iv.data".
Definition enc_path : list Z := chars "./enc.bin".

(** The exit status and the files; [argv] without the name of the program. *)
Definition main (argv : list (list Z)) (fs : fsys) : C (Z * fsys) :=
  match argv with
  | [] => mret (-1, fs)
  | mode :: _ =>
      if bool_decide (mode = chars "keygen") then
        fs ← sym_keygen key_path iv_path fs; emit (chars "done" ++ [10]);; mret (0, fs)
      else if bool_decide (mode = chars "encrypt") then
        enc_msg ← new_block (str_cells (chars "cryptoinc"));
        fs ← sym_encrypt key_path iv_path enc_msg enc_path fs;
        free enc_msg;; emit (chars "done" ++ [10]);; mret (0, fs)
      else if bool_decide (mode = chars "decrypt") then
        dec_msg ← new_block (replicate MAX_OUT (VInt 0));
        sym_decrypt key_path iv_path enc_path dec_msg fs;;
        emit_string dec_msg;; emit [10];;
        free dec_msg;; emit (chars "done" ++ [10]);; mret (0, fs)
      else mret (-10, fs)
  end.
End sym.

(** ** Proofs *)

(** What is documented of the library: CBC with padding is a function of key, vector and text
    that decryption inverts; its result is a block longer than the full blocks of the text; and
    the first block depends on the first block of the text only. SHA-256 has 32 bytes. *)
Record cipher_laws (encrypt : list Z -> list Z -> list Z -> list Z) (decrypt : list Z -> list Z -> list Z -> list Z * option (list Z))
    (hmac : list Z -> list Z -> list Z) : Prop := mk_laws {
  encrypt_bytes : forall k v x, Forall is_byte (encrypt k v x);
  encrypt_length : forall k v x, length (encrypt k v x) = ((length x / 16 + 1) * 16)%nat;
  decrypt_encrypt : forall k v x, length k = KEYLEN -> length v = IVLEN -> Forall is_byte x ->
    decrypt k v (encrypt k v x) = (take (length x / 16 * 16) x, Some (drop (length x / 16 * 16) x));
  encrypt_first : forall k v x y, (16 <= length x)%nat -> (16 <= length y)%nat -> take 16 x = take 16 y ->
    take 16 (encrypt k v x) = take 16 (encrypt k v y);
  hmac_bytes : forall k x, Forall is_byte (hmac k x);
  hmac_length : forall k x, length (hmac k x) = 32%nat }.

Section bytes.
Implicit Types (w : world) (l : nat) (b : list val).

Lemma wpc_char2hex lb b bs r n w Φ : b = (VInt <$> bs) ++ r -> Forall is_byte bs -> n = Z.of_nat (length bs) -> 2 * n + 1 <= INT_MAX ->
  lb ↦ b -∗ (∀ l y, lb ↦ b -∗ l ↦ str_cells (hex bs) -∗ Φ (Some (l, 0%nat)) (says w y)) -∗
  wpc (char2hex n (Some (lb, 0%nat))) w Φ.
Proof. iIntros (-> Hb -> Hn) "Hl HΦ". iApply (bin2hex_spec with "Hl"); [done|done|]. iIntros (l) "Hb Hl". iApply ("HΦ" with "Hb Hl"). Qed.
Lemma wpc_hex2char l b bs r w Φ : b = str_cells (hex bs) ++ r -> Forall is_byte bs -> 2 * Z.of_nat (length bs) <= INT_MAX ->
  l ↦ b -∗ (∀ lc y, l ↦ b -∗ lc ↦ (VInt <$> bs) -∗ Φ (Some (lc, 0%nat), Z.of_nat (length bs)) (says w y)) -∗
  wpc (hex2char (Some (l, 0%nat))) w Φ.
Proof.
  iIntros (-> Hb Hn) "Hl HΦ". unfold hex2char. wpc_bind. iApply (hex2bin_spec_in with "Hl"); [done|done|]. iIntros (lc) "Hl Hc".
  wpc_bind. iApply (wpc_strlen with "Hl"); [by apply str_in_mono, str_in_cells, hex_no_nul|]. iIntros "Hl". wpc_ret.
  rewrite length_hex s32_int; [|unfold is_int, INT_MIN; lia].
  replace (Z.quot (Z.of_nat (2 * length bs)) 2) with (Z.of_nat (length bs)) by (rewrite Nat2Z.inj_mul Z.mul_comm Z.quot_mul; lia).
  rewrite Z.max_r; [|lia]. iApply ("HΦ" with "Hl Hc").
Qed.

(** The bytes that [rand] gives. *)
Definition random (rand : nat -> Z) (k n : nat) : list Z := (fun j => u8 (rand j)) <$> seq k n.
Lemma random_bytes rand k n : Forall is_byte (random rand k n).
Proof. apply Forall_fmap, Forall_true. intros j. apply (wrapu_range 8). lia. Qed.
Lemma length_random rand k n : length (random rand k n) = n.
Proof. unfold random. by rewrite length_fmap length_seq. Qed.
Lemma wpc_random rand k n w Φ : (∀ l, l ↦ (VInt <$> random rand k n) -∗ Φ (Some (l, 0%nat)) w) ⊢ wpc (gen_random_bytestream rand k n) w Φ.
Proof.
  iIntros "HΦ". unfold gen_random_bytestream. wpc_bind. iApply wpc_malloc. iIntros (l) "Hl". wpc_bind.
  iApply (wpc_wand with "[Hl]").
  - iApply (wpc_for n 0 _ (fun i w' => ⌜w' = w⌝ ∧ l ↦ ((VInt <$> random rand k i) ++ replicate (n - i) VUndef))%I with "[Hl]").
    + intros i w' Hi. iIntros "[-> Hl]". rewrite Z.add_0_l Nat2Z.id.
      iApply (wpc_store _ 0 i with "Hl"); [rewrite length_app length_fmap length_random length_replicate; lia|]. iIntros "Hl". iSplit; [done|].
      replace (n - i)%nat with (S (n - S i)) by lia. cbn [replicate].
      rewrite Nat.add_0_l insert_app_r_alt length_fmap length_random; [|lia]. rewrite Nat.sub_diag. cbn [list_insert].
      unfold random. rewrite seq_S !fmap_app -app_assoc. iExact "Hl".
    + iSplit; [done|]. rewrite Nat.sub_0_r. iExact "Hl".
  - iIntros ([] w') "[-> Hl]". wpc_ret. rewrite Nat.sub_diag app_nil_r. by iApply "HΦ".
Qed.
End bytes.

Section keygen.
Context (writable : list Z -> bool) (rand : nat -> Z).
Context (Hwr : forall path, writable path = true).

Let K : list Z := random rand 0 KEYLEN.
Let V : list Z := random rand KEYLEN IVLEN.
Let A : list Z := random rand (KEYLEN + IVLEN) KEYLEN.

Lemma wpc_keygen kp ip fs w Φ :
  (∀ y, Φ (<[auth_key_path := hex A]> (<[ip := hex V]> (<[kp := hex K]> fs))) (says w y)) ⊢ wpc (sym_keygen writable rand kp ip fs) w Φ.
Proof.
  iIntros "HΦ". unfold sym_keygen. wpc_bind. iApply wpc_random. iIntros (lk) "Hk". wpc_bind. iApply wpc_random. iIntros (lv) "Hv".
  wpc_bind. iApply (wpc_char2hex _ _ K [] with "Hk"); [by rewrite app_nil_r|apply random_bytes|by rewrite length_random|done|]. iIntros (hk yk) "Hk Hhk".
  wpc_bind. iApply (wpc_char2hex _ _ V [] with "Hv"); [by rewrite app_nil_r|apply random_bytes|by rewrite length_random|done|]. iIntros (hv yv) "Hv Hhv".
  wpc_bind. iApply (wpc_put_file with "Hhk"); [done|apply hex_no_nul, random_bytes|]. iIntros "Hhk".
  wpc_bind. iApply (wpc_put_file with "Hhv"); [done|apply hex_no_nul, random_bytes|]. iIntros "Hhv".
  wpc_bind. iApply (wpc_free with "Hk"). wpc_bind. iApply (wpc_free with "Hv"). wpc_bind. iApply (wpc_free with "Hhk"). wpc_bind. iApply (wpc_free with "Hhv").
  wpc_bind. iApply wpc_random. iIntros (la) "Ha".
  wpc_bind. iApply (wpc_char2hex _ _ A [] with "Ha"); [by rewrite app_nil_r|apply random_bytes|by rewrite length_random|done|]. iIntros (ha ya) "Ha Hha".
  wpc_bind. iApply (wpc_put_file with "Hha"); [done|apply hex_no_nul, random_bytes|]. iIntros "Hha".
  wpc_bind. iApply (wpc_free with "Ha"). wpc_bind. iApply (wpc_free with "Hha"). wpc_ret. rewrite !says_says. iApply "HΦ".
Qed.
End keygen.

(** The keys are in their files. *)
Record keys_in (fs : fsys) (kp ip : list Z) (K V A : list Z) : Prop := mk_keys {
  key_file : fs !! kp = Some (hex K); iv_file : fs !! ip = Some (hex V); auth_file : fs !! auth_key_path = Some (hex A);
  key_bytes : Forall is_byte K /\ length K = KEYLEN; iv_bytes : Forall is_byte V /\ length V = IVLEN; auth_bytes : Forall is_byte A /\ length A = KEYLEN }.

Lemma wpc_load_key fs path l X n w Φ : fs !! path = Some (hex X) -> Forall is_byte X -> length X = n -> (0 < n)%nat ->
  l ↦ replicate (n * 2 + 1) VUndef -∗ (l ↦ (str_cells (hex X) ++ []) -∗ Φ tt w) -∗ wpc (load_key fs path (Some (l, 0%nat)) n) w Φ.
Proof.
  iIntros (Hf HX Hl Hn) "Hl HΦ". assert (length (hex X) = 2 * n)%nat as Hh by (rewrite length_hex; lia).
  iApply (wpc_get_line with "Hl"); [done|intros H; rewrite H in Hh; cbn in Hh; lia|by apply hex_no_newline|rewrite Hh; lia|by rewrite length_replicate|].
  rewrite splice_all; [|rewrite length_str_cells length_replicate Hh; lia]. by rewrite app_nil_r.
Qed.

(** The text that is encrypted: the array with the message. *)
Definition padded (msg : list Z) : list Z := msg ++ replicate (MAX_IN - length msg) 0.
Lemma length_message_padded msg : (length msg < MAX_IN)%nat -> length (padded msg) = MAX_IN.
Proof. intros. unfold padded. rewrite length_app length_replicate. lia. Qed.

Section programs.
Context (encrypt : list Z -> list Z -> list Z -> list Z) (decrypt : list Z -> list Z -> list Z -> list Z * option (list Z)) (hmac : list Z -> list Z -> list Z).
Context (writable : list Z -> bool).
Context (laws : cipher_laws encrypt decrypt hmac) (Hwr : forall path, writable path = true).
Context (fs : fsys) (kp ip ep : list Z) (K V A : list Z) (HK : keys_in fs kp ip K V A).
Implicit Types (w : world).

Lemma wpc_copy_message l lm bm msg w Φ : str_in bm 0 msg -> (length msg < MAX_IN)%nat ->
  l ↦ replicate MAX_IN (VInt 0) -∗ lm ↦ bm -∗ (l ↦ (VInt <$> padded msg) -∗ lm ↦ bm -∗ Φ tt w) -∗
  wpc (strcpy (Some (l, 0%nat)) (Some (lm, 0%nat))) w Φ.
Proof.
  iIntros (Hs Hl) "Hl Hm HΦ". wpc_bind. iApply (wpc_read_string with "Hm"); [done|]. iIntros "Hm".
  iApply (wpc_write_cells with "Hl"); [rewrite length_str_cells length_replicate; lia|]. iIntros "Hl". iApply ("HΦ" with "[Hl] Hm").
  unfold splice, padded, str_cells. rewrite take_0 app_nil_l drop_replicate Nat.add_0_l fmap_app fmap_replicate -app_assoc length_app length_fmap.
  replace (MAX_IN - length msg)%nat with (S (MAX_IN - (length msg + length [VInt 0]))) by (cbn [length]; lia). cbn [replicate app]. iExact "Hl".
Qed.

Lemma wpc_write_cipher {B} l c w (k : C B) Φ : length c = 272%nat ->
  l ↦ replicate MAX_OUT (VInt 0) -∗ (l ↦ ((VInt <$> c) ++ replicate 752 (VInt 0)) -∗ wpc k w Φ) -∗
  wpc (write_cells (Some (l, 0%nat)) (VInt <$> take 256 c);; write_cells (offset (Some (l, 0%nat)) 256) (VInt <$> drop 256 c);; k) w Φ.
Proof.
  iIntros (Hc) "Hl HΦ". wpc_bind. iApply (wpc_write_cells with "Hl"); [rewrite length_fmap length_take length_replicate; unfold MAX_OUT; lia|].
  iIntros "Hl". assert (length (VInt <$> take 256 c) = 256%nat) as H1 by (rewrite length_fmap length_take; lia).
  assert (length (VInt <$> drop 256 c) = 16%nat) as H2 by (rewrite length_fmap length_drop; lia).
  unfold splice at 1. rewrite take_0 app_nil_l Nat.add_0_l H1. wpc_bind. cbn [offset fmap option_fmap option_map Nat.add].
  iApply (wpc_write_cells with "Hl"); [rewrite length_app length_drop length_replicate H1 H2; unfold MAX_OUT; lia|].
  pose proof (splice_mid (VInt <$> take 256 c) (VInt <$> drop 256 c) (drop 256 (replicate MAX_OUT (VInt 0)))) as E. rewrite H1 H2 in E. rewrite E.
  iIntros "Hl". iApply "HΦ". rewrite drop_drop drop_replicate app_assoc -fmap_app take_drop. iExact "Hl".
Qed.

Let c msg := encrypt K V (padded msg).

Lemma wpc_encrypt lm bm msg w Φ : str_in bm 0 msg -> (length msg < MAX_IN)%nat ->
  lm ↦ bm -∗ (∀ y, lm ↦ bm -∗ Φ (<[auth_path := hex (hmac A (take 16 (c msg)))]> (<[ep := hex (c msg)]> fs)) (says w y)) -∗
  wpc (sym_encrypt encrypt hmac writable kp ip (Some (lm, 0%nat)) ep fs) w Φ.
Proof.
  iIntros (Hs Hl) "Hm HΦ". unfold sym_encrypt. destruct HK as [Fk Fi Fa [Bk Lk] [Bi Li] [Ba La]].
  wpc_bind. iApply wpc_new_block. iIntros (lo) "Ho". wpc_bind. iApply wpc_new_block. iIntros (li) "Hi".
  wpc_bind. iApply wpc_new_block. iIntros (hk) "Hhk". wpc_bind. iApply wpc_new_block. iIntros (hi) "Hhi". wpc_bind. iApply wpc_new_block. iIntros (ha) "Hha".
  cbv zeta. wpc_bind. iApply (wpc_copy_message with "Hi Hm"); [done|done|]. iIntros "Hi Hm".
  wpc_bind. iApply (wpc_load_key with "Hhk"); [done|done|done|unfold KEYLEN; lia|]. iIntros "Hhk".
  wpc_bind. iApply (wpc_load_key with "Hhi"); [done|done|done|unfold IVLEN; lia|]. iIntros "Hhi".
  wpc_bind. iApply (wpc_load_key with "Hha"); [done|done|done|unfold KEYLEN; lia|]. iIntros "Hha".
  wpc_bind. iApply (wpc_hex2char with "Hhk"); [done|done|by rewrite Lk|]. iIntros (lk y1) "Hhk Hk".
  wpc_bind. iApply (wpc_hex2char with "Hhi"); [done|done|by rewrite Li|]. iIntros (lv y2) "Hhi Hv".
  wpc_bind. iApply (wpc_hex2char with "Hha"); [done|done|by rewrite La|]. iIntros (la y3) "Hha Ha".
  wpc_bind. iApply (wpc_read_bytes _ _ K [] with "Hk"); [by rewrite app_nil_r|done|]. iIntros "Hk".
  wpc_bind. iApply (wpc_read_bytes _ _ V [] with "Hv"); [by rewrite app_nil_r|done|]. iIntros "Hv".
  wpc_bind. iApply (wpc_read_bytes _ _ (padded msg) [] with "Hi"); [by rewrite app_nil_r|by rewrite length_message_padded|]. iIntros "Hi".
  pose proof (encrypt_length _ _ _ laws K V (padded msg)) as Hcl. rewrite length_message_padded // in Hcl. change ((MAX_IN / 16 + 1) * 16)%nat with 272%nat in Hcl.
  fold (c msg) in Hcl |- *. pose proof (encrypt_bytes _ _ _ laws K V (padded msg) : Forall is_byte (c msg)) as Hcb. generalize dependent (c msg). intros ct Hcl Hcb.
  change (MAX_IN / 16 * 16)%nat with 256%nat. rewrite Hcl. change (272 - 256)%nat with 16%nat. change (256 + 16)%nat with 272%nat.
  iApply (wpc_write_cipher with "Ho"); [done|]. iIntros "Ho". wpc_bind. iApply wpc_says.
  wpc_bind. iApply (wpc_char2hex _ _ ct with "Ho"); [done|done|by rewrite Hcl|done|]. iIntros (lc y4) "Ho Hc".
  wpc_bind. iApply (wpc_put_file with "Hc"); [done|by apply hex_no_nul|]. iIntros "Hc".
  wpc_bind. iApply (wpc_read_bytes _ _ A [] with "Ha"); [by rewrite app_nil_r|done|]. iIntros "Ha".
  wpc_bind. iApply (wpc_read_bytes _ _ (take 16 ct) ((VInt <$> drop 16 ct) ++ replicate 752 (VInt 0)) with "Ho");
    [by rewrite app_assoc -fmap_app take_drop|by rewrite length_take Hcl|]. iIntros "Ho".
  wpc_bind. iApply wpc_new_block. iIntros (lr) "Hr".
  wpc_bind. iApply (wpc_char2hex _ _ (hmac A (take 16 ct)) [] with "Hr"); [by rewrite app_nil_r|apply (hmac_bytes _ _ _ laws)|done|by rewrite (hmac_length _ _ _ laws)|].
  iIntros (lh y5) "Hr Hh". wpc_bind. iApply (wpc_put_file with "Hh"); [done|apply hex_no_nul, (hmac_bytes _ _ _ laws)|]. iIntros "Hh".
  wpc_bind. iApply (wpc_free with "Hk"). wpc_bind. iApply (wpc_free with "Hv"). wpc_bind. iApply (wpc_free with "Ha"). wpc_bind. iApply (wpc_free with "Hc").
  wpc_bind. iApply (wpc_free with "Hh"). wpc_bind. iApply (wpc_free with "Hr"). wpc_bind. iApply (wpc_free with "Ho"). wpc_bind. iApply (wpc_free with "Hi").
  wpc_bind. iApply (wpc_free with "Hhk"). wpc_bind. iApply (wpc_free with "Hhi"). wpc_bind. iApply (wpc_free with "Hha").
  wpc_ret. rewrite !says_says. iApply ("HΦ" with "Hm").
Qed.

Lemma padded_text msg : (length msg < MAX_IN)%nat -> no_nul msg -> exists r, padded msg = msg ++ 0 :: r.
Proof. intros Hl Hn. unfold padded. replace (MAX_IN - length msg)%nat with (S (MAX_IN - length msg - 1)) by lia. by eexists. Qed.

Lemma wpc_decrypt ld bd msg w Φ : fs !! ep = Some (hex (c msg)) -> no_nul msg -> Forall is_byte msg -> (length msg < MAX_IN)%nat -> (MAX_IN <= length bd)%nat ->
  ld ↦ bd -∗ (∀ y, ld ↦ splice 0 (str_cells msg) bd -∗ Φ tt (says w y)) -∗
  wpc (sym_decrypt decrypt kp ip ep (Some (ld, 0%nat)) fs) w Φ.
Proof.
  iIntros (Fe Hn Hb Hl Hd) "Hd HΦ". unfold sym_decrypt. destruct HK as [Fk Fi Fa [Bk Lk] [Bi Li] [Ba La]].
  assert (Forall is_byte (padded msg)) as Hpb by (apply Forall_app; split; [done|]; by apply Forall_replicate).
  pose proof (decrypt_encrypt _ _ _ laws K V (padded msg) Lk Li Hpb) as HD. rewrite (length_message_padded msg Hl) in HD. change (MAX_IN / 16 * 16)%nat with MAX_IN in HD.
  rewrite take_ge in HD; [|by rewrite length_message_padded]. rewrite drop_ge in HD; [|by rewrite length_message_padded].
  pose proof (encrypt_length _ _ _ laws K V (padded msg)) as Hcl. rewrite length_message_padded // in Hcl. change ((MAX_IN / 16 + 1) * 16)%nat with 272%nat in Hcl.
  pose proof (encrypt_bytes _ _ _ laws K V (padded msg)) as Hcb. fold (c msg) in HD, Hcl, Hcb. generalize dependent (c msg). intros ct Fe HD Hcl Hcb.
  assert (length (hex ct) = 544%nat) as Hhl by (by rewrite length_hex Hcl).
  wpc_bind. iApply wpc_new_block. iIntros (li) "Hi". wpc_bind. iApply wpc_new_block. iIntros (lo) "Ho".
  wpc_bind. iApply wpc_new_block. iIntros (hk) "Hhk". wpc_bind. iApply wpc_new_block. iIntros (hi) "Hhi".
  wpc_bind. iApply (wpc_load_key with "Hhk"); [done|done|done|unfold KEYLEN; lia|]. iIntros "Hhk".
  wpc_bind. iApply (wpc_load_key with "Hhi"); [done|done|done|unfold IVLEN; lia|]. iIntros "Hhi".
  wpc_bind. iApply (wpc_hex2char with "Hhk"); [done|done|by rewrite Lk|]. iIntros (lk y1) "Hhk Hk".
  wpc_bind. iApply (wpc_hex2char with "Hhi"); [done|done|by rewrite Li|]. iIntros (lv y2) "Hhi Hv".
  wpc_bind. iApply (wpc_get_line with "Hi"); [done|by intros E0; rewrite E0 in Hhl|by apply hex_no_newline|unfold MAX_OUT; lia|by rewrite length_replicate|]. iIntros "Hi".
  wpc_bind. iApply (wpc_hex2char with "Hi"); [unfold splice; by rewrite take_0 app_nil_l|done|by rewrite Hcl|]. iIntros (lc y3) "Hi Hc".
  wpc_bind. iApply (wpc_read_bytes _ _ K [] with "Hk"); [by rewrite app_nil_r|done|]. iIntros "Hk".
  wpc_bind. iApply (wpc_read_bytes _ _ V [] with "Hv"); [by rewrite app_nil_r|done|]. iIntros "Hv".
  wpc_bind. iApply wpc_says. wpc_bind. iApply (wpc_read_bytes _ _ ct [] with "Hc"); [by rewrite app_nil_r|by rewrite Nat2Z.id|]. iIntros "Hc".
  rewrite HD. wpc_bind. iApply (wpc_write_cells with "Ho"); [rewrite length_fmap length_message_padded // length_replicate; unfold MAX_IN, MAX_OUT; lia|]. iIntros "Ho".
  wpc_bind. iApply wpc_says. destruct (padded_text msg Hl Hn) as [r Er]. pose proof (length_message_padded msg Hl) as Hpl.
  set (outb := splice 0 (VInt <$> padded msg) (replicate MAX_OUT (VInt 0))).
  assert (splice (length (padded msg)) (VInt <$> []) outb = outb) as Eo.
  { unfold splice. cbn [fmap list_fmap app length]. rewrite Nat.add_0_r. apply take_drop. }
  assert (str_in outb 0 msg) as So.
  { unfold outb, splice. rewrite take_0 app_nil_l Er fmap_app fmap_cons -app_assoc. cbn [app]. exact (str_in_app [] msg _ Hn). }
  assert (length outb = MAX_OUT) as Lo by (unfold outb; rewrite length_splice length_replicate // length_fmap Hpl; unfold MAX_IN, MAX_OUT; lia).
  wpc_bind. iApply (wpc_write_cells with "Ho"); [rewrite Lo Hpl; unfold MAX_IN, MAX_OUT; cbn; lia|]. cbn [Nat.add]. rewrite Eo. iIntros "Ho".
  wpc_bind. wpc_bind. iApply (wpc_read_string with "Ho"); [done|]. iIntros "Ho".
  iApply (wpc_write_cells with "Hd"); [rewrite length_str_cells; lia|]. iIntros "Hd". wpc_bind. iApply wpc_says.
  wpc_bind. iApply (wpc_free with "Hk"). wpc_bind. iApply (wpc_free with "Hv"). wpc_bind. iApply (wpc_free with "Hc").
  wpc_bind. iApply (wpc_free with "Hi"). wpc_bind. iApply (wpc_free with "Ho"). wpc_bind. iApply (wpc_free with "Hhk"). iApply (wpc_free with "Hhi").
  rewrite !says_says. iApply ("HΦ" with "Hd").
Qed.

(** The text that leaves the array for it. *)
Lemma wpe_encrypt lm bm msg w : str_in bm 0 msg -> (MAX_IN <= length msg)%nat ->
  lm ↦ bm ⊢ wpe (sym_encrypt encrypt hmac writable kp ip (Some (lm, 0%nat)) ep fs) w OutOfBounds.
Proof.
  iIntros (Hs Hl) "Hm". unfold sym_encrypt. wpe_bind. iApply wpc_new_block. iIntros (lo) "Ho". wpe_bind. iApply wpc_new_block. iIntros (li) "Hi".
  do 3 (wpe_bind; iApply wpc_new_block; iIntros (?) "?"). cbv zeta. iApply wpe_bind_err. unfold strcpy. wpe_bind.
  iApply (wpc_read_string with "Hm"); [done|]. iIntros "Hm". unfold write_cells. wpe_bind. iApply (wpc_block with "Hi"). iIntros "Hi".
  rewrite length_str_cells length_replicate. destruct (_ <? _)%nat eqn:E; [|apply Nat.ltb_ge in E; lia]. by iApply (wpe_fail with "Hi").
Qed.
End programs.

(** *** The programs together *)
Section runs.
Context (encrypt : list Z -> list Z -> list Z -> list Z) (decrypt : list Z -> list Z -> list Z -> list Z * option (list Z)) (hmac : list Z -> list Z -> list Z).
Context (rand : nat -> Z).

Definition anywhere : list Z -> bool := fun _ => true.

(** Keys are made, a message is encrypted and decrypted again. *)
Definition session (msg : list Z) (fs : fsys) : C (list Z * fsys) :=
  fs ← sym_keygen anywhere rand key_path iv_path fs;
  enc_msg ← new_block (str_cells msg);
  fs ← sym_encrypt encrypt hmac anywhere key_path iv_path enc_msg enc_path fs;
  dec_msg ← new_block (replicate MAX_OUT (VInt 0));
  sym_decrypt decrypt key_path iv_path enc_path dec_msg fs;;
  x ← read_string dec_msg;
  free enc_msg;; free dec_msg;;
  mret (x, fs).

Definition K : list Z := random rand 0 KEYLEN.
Definition V : list Z := random rand KEYLEN IVLEN.
Definition A : list Z := random rand (KEYLEN + IVLEN) KEYLEN.

(** The files after the keys were made, and after a message was encrypted. *)
Definition with_keys (fs : fsys) : fsys := <[auth_key_path := hex A]> (<[iv_path := hex V]> (<[key_path := hex K]> fs)).
Definition with_message (msg : list Z) (fs : fsys) : fsys :=
  let c := encrypt K V (padded msg) in <[auth_path := hex (hmac A (take 16 c))]> (<[enc_path := hex c]> fs).

Ltac file_at := unfold with_message, with_keys; repeat first [apply lookup_insert_eq|rewrite lookup_insert_ne; [|by_compute]].
Lemma keys_made fs : keys_in (with_keys fs) key_path iv_path K V A.
Proof. split; [file_at..|split; [apply random_bytes|apply length_random]|split; [apply random_bytes|apply length_random]|split; [apply random_bytes|apply length_random]]. Qed.
Lemma keys_kept msg fs : keys_in (with_message msg (with_keys fs)) key_path iv_path K V A.
Proof. split; [file_at..|split; [apply random_bytes|apply length_random]|split; [apply random_bytes|apply length_random]|split; [apply random_bytes|apply length_random]]. Qed.

Lemma main_runs fs w : cipher_laws encrypt decrypt hmac ->
  let msg := chars "cryptoinc" in let fs1 := with_keys fs in let fs2 := with_message msg fs1 in
  (exists y, main encrypt decrypt hmac anywhere rand [chars "keygen"] fs (mem ∅ w) = Ok ((0, fs1), mem ∅ (says w y))) /\
  (exists y, main encrypt decrypt hmac anywhere rand [chars "encrypt"] fs1 (mem ∅ w) = Ok ((0, fs2), mem ∅ (says w y))) /\
  exists y, main encrypt decrypt hmac anywhere rand [chars "decrypt"] fs2 (mem ∅ w) = Ok ((0, fs2), mem ∅ (says w (y ++ msg ++ [10] ++ chars "done" ++ [10]))).
Proof.
  intros laws msg fs1 fs2. split; [|split].
  - destruct (wpc_run (main encrypt decrypt hmac anywhere rand [chars "keygen"] fs) w (fun r w' => ⌜exists y, r = (0, fs1) /\ w' = says w y⌝ ∧ emp)%I)
      as (r & w' & h & -> & [(y & -> & ->) ->]%holds_pure_emp); [|by exists y].
    iStartProof. unfold main. rewrite bool_decide_true //. wpc_bind. iApply (wpc_keygen anywhere rand); [done|]. iIntros (y1).
    wpc_bind. iApply wpc_says. wpc_ret. rewrite says_says. by eauto.
  - destruct (wpc_run (main encrypt decrypt hmac anywhere rand [chars "encrypt"] fs1) w (fun r w' => ⌜exists y, r = (0, fs2) /\ w' = says w y⌝ ∧ emp)%I)
      as (r & w' & h & -> & [(y & -> & ->) ->]%holds_pure_emp); [|by exists y].
    iStartProof. unfold main. rewrite bool_decide_false; [|by_compute]. rewrite bool_decide_true //. wpc_bind. iApply wpc_new_block. iIntros (lm) "Hm".
    wpc_bind. iApply (wpc_encrypt encrypt decrypt hmac anywhere laws (fun _ => eq_refl) _ _ _ _ _ _ _ (keys_made fs) with "Hm");
      [apply str_in_cells; by_compute|vm_compute; lia|]. iIntros (y2) "Hm". wpc_bind. iApply (wpc_free with "Hm"). wpc_bind. iApply wpc_says. wpc_ret. rewrite says_says. by eauto.
  - destruct (wpc_run (main encrypt decrypt hmac anywhere rand [chars "decrypt"] fs2) w
      (fun r w' => ⌜exists y, r = (0, fs2) /\ w' = says w (y ++ msg ++ [10] ++ chars "done" ++ [10])⌝ ∧ emp)%I)
      as (r & w' & h & -> & [(y & -> & ->) ->]%holds_pure_emp); [|by exists y].
    iStartProof. unfold main. do 2 (rewrite bool_decide_false; [|by_compute]). rewrite bool_decide_true //. wpc_bind. iApply wpc_new_block. iIntros (ld) "Hd".
    wpc_bind. iApply (wpc_decrypt encrypt decrypt hmac laws _ _ _ _ _ _ _ (keys_kept msg fs) with "Hd");
      [unfold fs2, fs1; file_at|by_compute|by_compute|vm_compute; lia|rewrite length_replicate; unfold MAX_IN, MAX_OUT; lia|]. iIntros (y3) "Hd".
    wpc_bind. iApply (wpc_emit_string with "Hd"); [unfold splice; rewrite take_0 app_nil_l; apply str_in_mono, str_in_cells; by_compute|]. iIntros "Hd".
    fold (says (says w y3) msg). wpc_bind. iApply wpc_says. wpc_bind. iApply (wpc_free with "Hd"). wpc_bind. iApply wpc_says. wpc_ret. rewrite !says_says.
    iSplit; [|done]. iPureIntro. exists y3. split; [done|]. by rewrite !app_assoc.
Qed.

(** C11: a message of at most 255 bytes that are not zero comes back from its file as it was, and all
    memory is released; the three runs of the program print the message it has built in. A longer
    message leaves the array it is copied to. *)
Theorem message_comes_back msg fs w : cipher_laws encrypt decrypt hmac -> no_nul msg -> Forall is_byte msg ->
  ((length msg < MAX_IN)%nat -> exists y, session msg fs (mem ∅ w) = Ok ((msg, with_message msg (with_keys fs)), mem ∅ (says w y))) /\
  ((MAX_IN <= length msg)%nat -> session msg fs (mem ∅ w) = Err OutOfBounds) /\
  exists fs1 fs2 y1 y2 y3, main encrypt decrypt hmac anywhere rand [chars "keygen"] fs (mem ∅ w) = Ok ((0, fs1), mem ∅ (says w y1)) /\
    main encrypt decrypt hmac anywhere rand [chars "encrypt"] fs1 (mem ∅ w) = Ok ((0, fs2), mem ∅ (says w y2)) /\
    main encrypt decrypt hmac anywhere rand [chars "decrypt"] fs2 (mem ∅ w) = Ok ((0, fs2), mem ∅ (says w (y3 ++ chars "cryptoinc" ++ [10] ++ chars "done" ++ [10]))).
Proof.
  intros laws Hn Hb. split; [|split].
  - intros Hl. destruct (wpc_run (session msg fs) w (fun r w' => ⌜exists y, r = (msg, with_message msg (with_keys fs)) /\ w' = says w y⌝ ∧ emp)%I)
      as (r & w' & h & -> & [(y & -> & ->) ->]%holds_pure_emp); [|by exists y].
    iStartProof. unfold session. wpc_bind. iApply (wpc_keygen anywhere rand); [done|]. iIntros (y1). wpc_bind. iApply wpc_new_block. iIntros (lm) "Hm".
    wpc_bind. iApply (wpc_encrypt encrypt decrypt hmac anywhere laws (fun _ => eq_refl) _ _ _ _ _ _ _ (keys_made fs) with "Hm"); [by apply str_in_cells|done|]. iIntros (y2) "Hm".
    wpc_bind. iApply wpc_new_block. iIntros (ld) "Hd". wpc_bind.
    iApply (wpc_decrypt encrypt decrypt hmac laws _ _ _ _ _ _ _ (keys_kept msg fs) with "Hd"); [file_at|done|done|done|by rewrite length_replicate; unfold MAX_IN, MAX_OUT; lia|].
    iIntros (y3) "Hd". wpc_bind. iApply (wpc_read_string with "Hd"); [unfold splice; rewrite take_0 app_nil_l; by apply str_in_mono, str_in_cells|].
    iIntros "Hd". wpc_bind. iApply (wpc_free with "Hm"). wpc_bind. iApply (wpc_free with "Hd"). wpc_ret. iSplit; [|done]. iPureIntro. eexists. split; [done|]. by rewrite !says_says.
  - intros Hl. apply wpe_run. unfold session. wpe_bind. iApply (wpc_keygen anywhere rand); [done|]. iIntros (y1). wpe_bind. iApply wpc_new_block. iIntros (lm) "Hm".
    iApply wpe_bind_err. iApply (wpe_encrypt with "Hm"); [by apply str_in_cells|done].
  - destruct (main_runs fs w laws) as ((y1 & E1) & (y2 & E2) & y3 & E3). eauto 10.
Qed.

(** What is stored beside the message covers its first block only: two messages that begin with
    the same 16 bytes have the same code; and decryption does not look at it. *)
Theorem authentication_is_partial m1 m2 fs w lm1 lm2 : cipher_laws encrypt decrypt hmac ->
  no_nul m1 -> no_nul m2 -> (length m1 < MAX_IN)%nat -> (length m2 < MAX_IN)%nat -> take 16 (padded m1) = take 16 (padded m2) ->
  (exists fs1 fs2 y1 y2 h1 h2,
    sym_encrypt encrypt hmac anywhere key_path iv_path (Some (lm1, 0%nat)) enc_path (with_keys fs) (mem {[lm1 := str_cells m1]} w) = Ok (fs1, mem h1 (says w y1)) /\
    sym_encrypt encrypt hmac anywhere key_path iv_path (Some (lm2, 0%nat)) enc_path (with_keys fs) (mem {[lm2 := str_cells m2]} w) = Ok (fs2, mem h2 (says w y2)) /\
    fs1 !! enc_path = Some (hex (encrypt K V (padded m1))) /\ fs2 !! enc_path = Some (hex (encrypt K V (padded m2))) /\
    fs1 !! auth_path = fs2 !! auth_path) /\
  (forall kp ip ep d fs fs', fs !! kp = fs' !! kp -> fs !! ip = fs' !! ip -> fs !! ep = fs' !! ep ->
    sym_decrypt decrypt kp ip ep d fs = sym_decrypt decrypt kp ip ep d fs').
Proof.
  intros laws N1 N2 L1 L2 E. split.
  - assert (forall m lm, no_nul m -> (length m < MAX_IN)%nat -> exists y h, sym_encrypt encrypt hmac anywhere key_path iv_path (Some (lm, 0%nat)) enc_path (with_keys fs)
      (mem {[lm := str_cells m]} w) = Ok (with_message m (with_keys fs), mem h (says w y))) as H.
    { intros m lm Hn Hl. destruct (wpc_adequate (sym_encrypt encrypt hmac anywhere key_path iv_path (Some (lm, 0%nat)) enc_path (with_keys fs)) (own_block lm (str_cells m)) w
        (fun r w' => ⌜exists y, r = with_message m (with_keys fs) /\ w' = says w y⌝ ∧ lm ↦ str_cells m)%I {[lm := str_cells m]}) as (r & w' & h & -> & ((y & -> & ->) & _)%holds_pure_and); [|done|by eauto].
      iIntros "Hm". iApply (wpc_encrypt encrypt decrypt hmac anywhere laws (fun _ => eq_refl) _ _ _ _ _ _ _ (keys_made fs) with "Hm"); [by apply str_in_cells|done|].
      iIntros (y) "Hm". iSplit; [by eauto|done]. }
    destruct (H m1 lm1 N1 L1) as (y1 & h1 & E1). destruct (H m2 lm2 N2 L2) as (y2 & h2 & E2). do 6 eexists. split; [exact E1|]. split; [exact E2|].
    split; [file_at|]. split; [file_at|]. unfold with_message. rewrite !lookup_insert_eq.
    rewrite (encrypt_first _ _ _ laws K V (padded m1) (padded m2) ltac:(rewrite length_message_padded //; unfold MAX_IN; lia) ltac:(rewrite length_message_padded //; unfold MAX_IN; lia) E). done.
  - intros kp ip ep d f f' Hk Hi He. unfold sym_decrypt, load_key, get_line. by rewrite Hk Hi He.
Qed.
End runs.

(** A cipher with these laws: padding alone. *)
Definition pad_only (k v x : list Z) : list Z :=
  let n := ((length x / 16 + 1) * 16 - length x)%nat in (u8 <$> x) ++ replicate n (Z.of_nat n).
Definition unpad (k v c : list Z) : list Z * option (list Z) :=
  let m := (length c - 16)%nat in (take m c, Some (take (16 - Z.to_nat (default 0 (last c))) (drop m c))).
Definition no_code (k x : list Z) : list Z := replicate 32 0.
Lemma pad_only_laws : cipher_laws pad_only unpad no_code.
Proof.
  assert (forall n, exists p, ((n / 16 + 1) * 16 - n = p /\ n / 16 * 16 <= n /\ 1 <= p <= 16)%nat) as Hp.
  { intros n. pose proof (Nat.div_mod_eq n 16). pose proof (Nat.mod_upper_bound n 16). eexists. split; [done|]. lia. }
  split.
  - intros k v x. apply Forall_app. split; [apply Forall_fmap, Forall_true; intros; apply (wrapu_range 8); lia|].
    destruct (Hp (length x)) as (p & -> & _ & Hr). apply Forall_replicate. unfold is_byte. lia.
  - intros k v x. unfold pad_only. rewrite length_app length_fmap length_replicate. destruct (Hp (length x)) as (p & E & _ & Hr). lia.
  - intros k v x _ _ Hx. assert (u8 <$> x = x) as Eu.
    { rewrite -{2}(list_fmap_id x). apply list_fmap_ext. intros i z Hz. rewrite Forall_lookup in Hx. apply Hex.u8_byte. by eapply Hx. }
    unfold unpad, pad_only. rewrite Eu. destruct (Hp (length x)) as (p & E & Hle & Hr). rewrite E. set (m := (length x / 16 * 16)%nat) in *.
    rewrite length_app length_replicate. replace (length x + p - 16)%nat with m by (unfold m; lia).
    destruct p as [|p]; [lia|]. rewrite replicate_S_end app_assoc last_snoc. cbn [default]. rewrite Nat2Z.id.
    rewrite -app_assoc. rewrite take_app_le; [|done]. rewrite drop_app_le; [|done]. rewrite take_app_length'; [done|]. rewrite length_drop. unfold m in *. lia.
  - intros k v x y Hx Hy E. unfold pad_only. rewrite !take_app_le ?length_fmap // -!fmap_take E. done.
  - intros k x. by apply Forall_replicate.
  - done.
Qed.

Lemma message_comes_back_witness : exists fs y, session pad_only unpad no_code Z.of_nat (chars "secret") ∅ (mem ∅ (mk_world [] [] NULL)) =
  Ok ((chars "secret", fs), mem ∅ (says (mk_world [] [] NULL) y)).
Proof.
  destruct (message_comes_back pad_only unpad no_code Z.of_nat (chars "secret") ∅ (mk_world [] [] NULL)) as [H _]; [apply pad_only_laws|by_compute|by_compute|].
  destruct H as [y E]; [vm_compute; lia|]. eexists _, y. exact E.
Defined.

Lemma authentication_is_partial_witness : exists fs1 fs2 y1 y2 h1 h2,
  sym_encrypt pad_only no_code anywhere key_path iv_path (Some (0, 0)%nat) enc_path (with_keys Z.of_nat ∅)
    (mem {[0%nat := str_cells (chars "pay to the order of A")]} (mk_world [] [] NULL)) = Ok (fs1, mem h1 (says (mk_world [] [] NULL) y1)) /\
  sym_encrypt pad_only no_code anywhere key_path iv_path (Some (0, 0)%nat) enc_path (with_keys Z.of_nat ∅)
    (mem {[0%nat := str_cells (chars "pay to the order of B")]} (mk_world [] [] NULL)) = Ok (fs2, mem h2 (says (mk_world [] [] NULL) y2)) /\
  fs1 !! auth_path = fs2 !! auth_path.
Proof.
  destruct (authentication_is_partial pad_only unpad no_code Z.of_nat (chars "pay to the order of A") (chars "pay to the order of B") ∅ (mk_world [] [] NULL) 0 0)
    as [(fs1 & fs2 & y1 & y2 & h1 & h2 & E1 & E2 & _ & _ & E) _]; [apply pad_only_laws|by_compute|by_compute|vm_compute; lia|vm_compute; lia|by vm_compute|].
  do 6 eexists. split; [exact E1|]. split; [exact E2|exact E].
Defined.
End Sym.
