(* ===== verification/AsymCrypt.v ===== *)
(** * Asymmetric encryption

    src/crypt-asym: a program that makes a pair of RSA keys, encrypts a message with the public
    one and decrypts it with the private one, through files or in one go. RSA with OAEP padding
    and the reading and writing of keys are OpenSSL's: parameters of the section [asym];
    [paired] has what is documented of a pair of keys. Encryption is randomised: [seed] stands
    for the random choice. *)
From stdpp Require Import base numbers list gmap strings.
From iris.proofmode Require Import proofmode.
From S2P Require Import Prelude CBase CDecimal CHeap HeapLogic CStrings Hex SymCrypt.
Set Warnings "-rewrite-rw".
Local Open Scope Z_scope.

Module Asym.
Import Hex.

(** ** Making keys *)

(** The global objects of OpenSSL the program makes. *)
Inductive object := Bne | R | Bp_private | Bp_public.
#[global] Instance object_eq_dec : EqDecision object.
Proof. solve_decision. Defined.

(** The objects that exist, those freed, and the files written. *)
Record gen := mk_gen { live : list object; freed : list object; written : list object }.
Definition make (o : object) (g : gen) : gen := mk_gen (live g ++ [o]) (freed g) (written g).
Definition wrote (o : object) (g : gen) : gen := mk_gen (live g) (freed g) (written g ++ [o]).
(** Freeing a null pointer does nothing. *)
Definition free_object (o : object) (g : gen) : gen :=
  if decide (o ∈ live g) then mk_gen (filter (.≠ o) (live g)) (freed g ++ [o]) (written g) else g.
Definition free_all (g : gen) : gen := free_object Bne (free_object R (free_object Bp_private (free_object Bp_public g))).

(** Which of the calls succeed; a file that cannot be opened is a null pointer, to which nothing is written. *)
Record calls := mk_calls { set_word : bool; generates : bool; opens_private : bool; writes_private : bool; opens_public : bool; writes_public : bool }.

Definition key_pair_generate (o : calls) (g : gen) : Z * gen :=
  let g := make Bne g in
  if negb (set_word o) then (-1, free_all g)
  else
    let g := make R g in
    if negb (generates o) then (-2, free_all g)
    else
      let g := if opens_private o then make Bp_private g else g in
      if negb (opens_private o && writes_private o) then (-3, free_all g)
      else
        let g := wrote Bp_private g in
        let g := if opens_public o then make Bp_public g else g in
        if negb (opens_public o && writes_public o) then (-4, free_all g)
        else (0, free_all (wrote Bp_public g)).

(** *** The loop of [compare_two_arrays] *)
Definition hex_digits (z : Z) : list Z := if z <? 16 then [digit_lower z] else [digit_lower (z / 16); digit_lower (z mod 16)].
(** [%x] of a [char]: negative ones are extended to 32 bits. *)
Definition hex_char (b : Z) : list Z := if b <? 128 then hex_digits b else chars "ffffff" ++ hex_digits b.
Definition compare_step (arr1 arr2 : ptr) (i : Z) : C unit :=
  a ← load_int arr1 i;
  b ← load_int arr2 i;
  if a =? b then mret tt
  else emit (chars "not equal at: " ++ dec i ++ chars ", " ++ hex_char a ++ [32] ++ hex_char b ++ [10]).
Definition compare_two_arrays (len : Z) (arr1 arr2 : ptr) : C unit := for_loop (Z.to_nat len) 0 (compare_step arr1 arr2).

Section asym.
Context {key : Type} (size : key -> nat).
Context (encrypt : key -> nat -> list Z -> option (list Z)) (decrypt : key -> list Z -> option (list Z)).
Context (read_public read_private : list Z -> option key) (writable : list Z -> bool).

(** [fopen], [PEM_read_PUBKEY] or [PEM_read_PrivateKey], and [EVP_PKEY_get1_RSA], which reads through its argument. *)
Definition load_rsa (read : list Z -> option key) (path : list Z) (fs : fsys) : C key :=
  match fs !! path with
  | None => stfail NullDeref
  | Some x => match read x with None => stfail NullDeref | Some k => mret k end
  end.

(** [RSA_public_encrypt] and [RSA_private_decrypt]: the length of the result, or -1. *)
Definition RSA_public_encrypt (k : key) (seed flen : nat) (from to : ptr) : C Z :=
  x ← read_bytes from flen;
  match encrypt k seed x with
  | None => mret (-1)
  | Some c => write_cells to (VInt <$> c);; mret (Z.of_nat (length c))
  end.
Definition RSA_private_decrypt (k : key) (flen : Z) (from to : ptr) : C Z :=
  c ← read_bytes from (Z.to_nat flen);
  match decrypt k c with
  | None => mret (-1)
  | Some x => write_cells to (VInt <$> x);; mret (Z.of_nat (length x))
  end.

Definition asym_encrypt (seed : nat) (pub_key_path enc_msg_path : list Z) (msg_len : nat) (msg : ptr) (fs : fsys) : C fsys :=
  rsa_pub_key ← load_rsa read_public pub_key_path fs;
  enc_msg ← malloc (size rsa_pub_key);
  err ← malloc 130;
  enc_len ← RSA_public_encrypt rsa_pub_key seed (msg_len + 1) msg enc_msg;
  emit (dec enc_len ++ [10]);;
  enc_hex ← bin2hex enc_len enc_msg;
  fs ← put_file writable enc_msg_path enc_hex fs;
  free enc_msg;; free err;; free enc_hex;;
  mret fs.

Definition asym_decrypt (priv_key_path enc_msg_path : list Z) (plain_msg : ptr) (fs : fsys) : C unit :=
  rsa_priv_key ← load_rsa read_private priv_key_path fs;
  let max_key_len := size rsa_priv_key in
  let enc_len := (max_key_len * 2 + 1)%nat in
  enc_msg ← malloc enc_len;
  get_line fs enc_msg_path enc_msg enc_len;;
  dec_bin ← hex2bin enc_msg;
  dec_msg ← malloc (size rsa_priv_key);
  err ← malloc 130;
  _ ← RSA_private_decrypt rsa_priv_key (Z.of_nat max_key_len) dec_bin dec_msg;
  strcpy plain_msg dec_msg;;
  free enc_msg;; free dec_msg;; free err;; free dec_bin.

Definition asym_pipe (seed : nat) (pub_key_path priv_key_path : list Z) (msg_len : nat) (msg : ptr) (fs : fsys) : C unit :=
  rsa_pub_key ← load_rsa read_public pub_key_path fs;
  rsa_priv_key ← load_rsa read_private priv_key_path fs;
  let enc_max := size rsa_pub_key in
  let dec_max := size rsa_priv_key in
  emit (chars "enc: " ++ dec (Z.of_nat enc_max) ++ chars ", dec: " ++ dec (Z.of_nat dec_max) ++ [10]);;
  enc_msg ← malloc enc_max;
  dec_msg ← malloc dec_max;
  errmsg ← malloc 130;
  enc_len ← RSA_public_encrypt rsa_pub_key seed (msg_len + 1) msg enc_msg;
  emit (chars "done" ++ [10]);;
  enc_hex ← bin2hex enc_len enc_msg;
  dec_bin ← hex2bin enc_hex;
  compare_two_arrays enc_len enc_msg dec_bin;;
  dec_len ← RSA_private_decrypt rsa_priv_key enc_len dec_bin dec_msg;
  emit (dec dec_len ++ chars ": ");; emit_string dec_msg;; emit [10];;
  free enc_msg;; free dec_msg;; free errmsg;; free enc_hex;; free dec_bin.
End asym.

(** ** Proofs *)

(** Whatever fails: everything that was made is freed, once, in the order of [free_all]; the
    result is 0 exactly when both files were written. *)
Theorem keys_are_released o : let '(r, g) := key_pair_generate o (mk_gen [] [] []) in
  live g = [] /\ NoDup (freed g) /\ (r = 0 <-> written g = [Bp_private; Bp_public]) /\ (-4 <= r <= 0) /\ (r = -3 -> written g = []).
Proof. destruct o as [[] [] [] [] [] []]; cbn; (split; [done|]; split; [repeat constructor; set_solver|]; split; [done|]; split; [lia|done]). Qed.

(** A public and a private key that belong together: messages that leave room for the padding
    are encrypted to the size of the key and decrypted again; longer ones are refused. *)
Record paired {key : Type} (size : key -> nat) (encrypt : key -> nat -> list Z -> option (list Z)) (decrypt : key -> list Z -> option (list Z)) (pk sk : key) : Prop := mk_paired {
  paired_size : size pk = size sk;
  paired_range : (42 <= size pk)%nat /\ 2 * Z.of_nat (size pk) + 1 <= INT_MAX;
  paired_fits : forall seed x, (length x + 42 <= size pk)%nat -> Forall is_byte x ->
    exists c, encrypt pk seed x = Some c /\ length c = size pk /\ Forall is_byte c /\ decrypt sk c = Some x;
  paired_long : forall seed x, (size pk < length x + 42)%nat -> encrypt pk seed x = None }.

Section proofs.
Context {key : Type} (size : key -> nat).
Context (encrypt : key -> nat -> list Z -> option (list Z)) (decrypt : key -> list Z -> option (list Z)).
Context (read_public read_private : list Z -> option key) (writable : list Z -> bool).
Context (pk sk : key) (Hp : paired size encrypt decrypt pk sk).
Implicit Types (w : world) (fs : fsys) (l : nat).

Lemma wpc_load_rsa read path fs x k w Φ : fs !! path = Some x -> read x = Some k -> Φ k w ⊢ wpc (load_rsa (key := key) read path fs) w Φ.
Proof. iIntros (Hf Hr) "HΦ". unfold load_rsa. rewrite Hf Hr. by wpc_ret. Qed.

(** The message and its terminator. *)
Definition text (msg : list Z) : list Z := msg ++ [0].
Lemma text_cells msg : VInt <$> text msg = str_cells msg.
Proof. unfold text. by rewrite fmap_app. Qed.
Lemma text_bytes msg : Forall is_byte msg -> Forall is_byte (text msg).
Proof. intros. apply Forall_app. split; [done|]. by apply Forall_singleton. Qed.

Lemma wpc_public_encrypt seed lm l c msg n w Φ : encrypt pk seed (text msg) = Some c -> length c = n -> 
  lm ↦ str_cells msg -∗ l ↦ replicate n VUndef -∗ (lm ↦ str_cells msg -∗ l ↦ (VInt <$> c) -∗ Φ (Z.of_nat n) w) -∗
  wpc (RSA_public_encrypt encrypt pk seed (length msg + 1) (Some (lm, 0%nat)) (Some (l, 0%nat))) w Φ.
Proof.
  iIntros (He Hc) "Hm Hl HΦ". unfold RSA_public_encrypt. wpc_bind.
  iApply (wpc_read_bytes _ _ (text msg) [] with "Hm"); [by rewrite app_nil_r text_cells|unfold text; rewrite length_app; done|]. iIntros "Hm". rewrite He.
  wpc_bind. iApply (wpc_write_cells with "Hl"); [rewrite length_fmap length_replicate; lia|].
  rewrite splice_all; [|by rewrite length_fmap length_replicate]. iIntros "Hl". wpc_ret. rewrite Hc. iApply ("HΦ" with "Hm Hl").
Qed.
Lemma wpc_private_decrypt l lo c msg n w Φ : decrypt sk c = Some (text msg) -> length c = n -> (length (text msg) <= n)%nat ->
  l ↦ (VInt <$> c) -∗ lo ↦ replicate n VUndef -∗
  (l ↦ (VInt <$> c) -∗ lo ↦ (str_cells msg ++ replicate (n - length (text msg)) VUndef) -∗ Φ (Z.of_nat (length (text msg))) w) -∗
  wpc (RSA_private_decrypt decrypt sk (Z.of_nat n) (Some (l, 0%nat)) (Some (lo, 0%nat))) w Φ.
Proof.
  iIntros (Hd Hc Hn) "Hl Ho HΦ". unfold RSA_private_decrypt. wpc_bind. iApply (wpc_read_bytes _ _ c [] with "Hl"); [by rewrite app_nil_r|lia|].
  iIntros "Hl". rewrite Hd. wpc_bind. iApply (wpc_write_cells with "Ho"); [rewrite length_fmap length_replicate; lia|]. iIntros "Ho". wpc_ret.
  iApply ("HΦ" with "Hl"). unfold splice. rewrite take_0 app_nil_l Nat.add_0_l length_fmap drop_replicate text_cells. iExact "Ho".
Qed.

Lemma wpc_asym_encrypt seed pp ep x lm msg fs w Φ : fs !! pp = Some x -> read_public x = Some pk -> Forall is_byte msg -> (length msg + 43 <= size pk)%nat ->
  (forall p, writable p = true) -> lm ↦ str_cells msg -∗
  (∀ y c (_ : length c = size pk /\ Forall is_byte c /\ decrypt sk c = Some (text msg)), lm ↦ str_cells msg -∗ Φ (<[ep := hex c]> fs) (says w y)) -∗
  wpc (asym_encrypt size encrypt read_public writable seed pp ep (length msg) (Some (lm, 0%nat)) fs) w Φ.
Proof.
  iIntros (Hf Hr Hb Hl Hw) "Hm HΦ". destruct (paired_fits _ _ _ _ _ Hp seed (text msg)) as (c & He & Hc & Hcb & Hd);
    [unfold text; rewrite length_app; cbn; lia|by apply text_bytes|]. destruct (paired_range _ _ _ _ _ Hp) as [_ Hmax].
  unfold asym_encrypt. wpc_bind. iApply wpc_load_rsa; [done|done|]. wpc_bind. iApply wpc_malloc. iIntros (l) "Hl". wpc_bind. iApply wpc_malloc. iIntros (le) "He".
  wpc_bind. iApply (wpc_public_encrypt with "Hm Hl"); [done|done|]. iIntros "Hm Hl". wpc_bind. iApply wpc_says. rewrite -Hc.
  wpc_bind. iApply (bin2hex_spec _ c [] with "[Hl]"); [done|by rewrite Hc|by rewrite app_nil_r|]. iIntros (lh) "Hl Hh".
  wpc_bind. iApply (wpc_put_file with "Hh"); [done|by apply hex_no_nul|]. iIntros "Hh".
  wpc_bind. iApply (wpc_free with "Hl"). wpc_bind. iApply (wpc_free with "He"). wpc_bind. iApply (wpc_free with "Hh"). wpc_ret. rewrite says_says.
  iApply ("HΦ" $! _ c _ with "Hm"). Unshelve. done.
Qed.

Lemma wpc_asym_decrypt ppriv ep x lp bp c msg fs w Φ : fs !! ppriv = Some x -> read_private x = Some sk -> fs !! ep = Some (hex c) ->
  length c = size pk -> Forall is_byte c -> decrypt sk c = Some (text msg) -> no_nul msg -> (length msg + 43 <= size pk)%nat -> (length msg < length bp)%nat ->
  lp ↦ bp -∗ (∀ y, lp ↦ splice 0 (str_cells msg) bp -∗ Φ tt (says w y)) -∗
  wpc (asym_decrypt size decrypt read_private ppriv ep (Some (lp, 0%nat)) fs) w Φ.
Proof.
  iIntros (Hf Hr He Hc Hcb Hd Hn Hl Hbp) "Hp HΦ". destruct (paired_range _ _ _ _ _ Hp) as [H42 Hmax]. pose proof (paired_size _ _ _ _ _ Hp) as Hs.
  assert (length (hex c) = 2 * size sk)%nat as Hh by (rewrite length_hex; lia). assert (length (text msg) = length msg + 1)%nat as Ht by (unfold text; by rewrite length_app).
  unfold asym_decrypt. wpc_bind. iApply wpc_load_rsa; [done|done|]. cbv zeta. wpc_bind. iApply wpc_malloc. iIntros (l) "Hl".
  wpc_bind. iApply (wpc_get_line with "Hl"); [done|intros E; rewrite E in Hh; cbn in Hh; lia|by apply hex_no_newline|rewrite Hh; lia|by rewrite length_replicate|].
  rewrite (splice_all (replicate _ _)); [|rewrite length_str_cells length_replicate Hh; lia]. iIntros "Hl".
  wpc_bind. iApply (hex2bin_spec with "Hl"); [done|lia|]. iIntros (lb) "Hl Hb". wpc_bind. iApply wpc_malloc. iIntros (lo) "Ho". wpc_bind. iApply wpc_malloc. iIntros (le) "He".
  wpc_bind. iApply (wpc_private_decrypt with "Hb Ho"); [done|lia|lia|]. iIntros "Hb Ho".
  wpc_bind. wpc_bind. iApply (wpc_read_string with "Ho"); [by apply str_in_mono, str_in_cells|]. iIntros "Ho".
  iApply (wpc_write_cells with "Hp"); [rewrite length_str_cells; lia|]. iIntros "Hp".
  wpc_bind. iApply (wpc_free with "Hl"). wpc_bind. iApply (wpc_free with "Ho"). wpc_bind. iApply (wpc_free with "He"). iApply (wpc_free with "Hb").
  iApply ("HΦ" with "Hp").
Qed.

(** Equal arrays: nothing is printed. *)
Lemma wpc_compare_equal l1 l2 c w Φ : l1 ↦ (VInt <$> c) -∗ l2 ↦ (VInt <$> c) -∗ (l1 ↦ (VInt <$> c) -∗ l2 ↦ (VInt <$> c) -∗ Φ tt w) -∗
  wpc (compare_two_arrays (Z.of_nat (length c)) (Some (l1, 0%nat)) (Some (l2, 0%nat))) w Φ.
Proof.
  iIntros "H1 H2 HΦ". unfold compare_two_arrays. rewrite Nat2Z.id. iApply (wpc_wand with "[H1 H2]").
  - iApply (wpc_for _ 0 _ (fun _ w' => ⌜w' = w⌝ ∧ (l1 ↦ (VInt <$> c) ∗ l2 ↦ (VInt <$> c)))%I with "[H1 H2]"); [|iSplit; [done|iFrame]].
    intros k w' Hk. iIntros "[-> [H1 H2]]". destruct (lookup_lt_is_Some_2 c k Hk) as [z Hz].
    assert ((VInt <$> c) !! (0 + k)%nat = Some (VInt z)) as Hz' by (by rewrite list_lookup_fmap Hz). unfold compare_step. rewrite Z.add_0_l.
    wpc_bind. iApply (wpc_load_int with "H1"); [done|]. iIntros "H1". wpc_bind. iApply (wpc_load_int with "H2"); [done|]. iIntros "H2".
    rewrite Z.eqb_refl. wpc_ret. iSplit; [done|]. iFrame.
  - iIntros ([] w') "[-> [H1 H2]]". iApply ("HΦ" with "H1 H2").
Qed.

Lemma wpc_asym_pipe seed pp sp x x' lm msg fs w Φ : fs !! pp = Some x -> read_public x = Some pk -> fs !! sp = Some x' -> read_private x' = Some sk ->
  Forall is_byte msg -> no_nul msg -> (length msg + 43 <= size pk)%nat -> lm ↦ str_cells msg -∗
  (∀ y, lm ↦ str_cells msg -∗ Φ tt (says w (y ++ dec (Z.of_nat (length msg + 1)) ++ chars ": " ++ msg ++ [10]))) -∗
  wpc (asym_pipe size encrypt decrypt read_public read_private seed pp sp (length msg) (Some (lm, 0%nat)) fs) w Φ.
Proof.
  iIntros (Hf Hr Hf' Hr' Hb Hn Hl) "Hm HΦ". destruct (paired_fits _ _ _ _ _ Hp seed (text msg)) as (c & He & Hc & Hcb & Hd);
    [unfold text; rewrite length_app; cbn; lia|by apply text_bytes|]. destruct (paired_range _ _ _ _ _ Hp) as [_ Hmax]. pose proof (paired_size _ _ _ _ _ Hp) as Hs.
  assert (length (text msg) = length msg + 1)%nat as Ht by (unfold text; by rewrite length_app).
  unfold asym_pipe. wpc_bind. iApply wpc_load_rsa; [done|done|]. wpc_bind. iApply wpc_load_rsa; [done|done|]. cbv zeta. wpc_bind. iApply wpc_says.
  wpc_bind. iApply wpc_malloc. iIntros (l) "Hl". wpc_bind. iApply wpc_malloc. iIntros (lo) "Ho". wpc_bind. iApply wpc_malloc. iIntros (le) "He".
  wpc_bind. iApply (wpc_public_encrypt with "Hm Hl"); [done|done|]. iIntros "Hm Hl". wpc_bind. iApply wpc_says. rewrite -Hc.
  wpc_bind. iApply (bin2hex_spec _ c [] with "[Hl]"); [done|by rewrite Hc|by rewrite app_nil_r|]. rewrite app_nil_r. iIntros (lh) "Hl Hh".
  wpc_bind. iApply (hex2bin_spec with "Hh"); [done|lia|]. iIntros (lb) "Hh Hb".
  wpc_bind. iApply (wpc_compare_equal with "Hl Hb"). iIntros "Hl Hb". rewrite -Hs -Hc.
  wpc_bind. iApply (wpc_private_decrypt with "Hb Ho"); [done|done|lia|]. iIntros "Hb Ho". rewrite Ht.
  wpc_bind. iApply wpc_says. wpc_bind. iApply (wpc_emit_string with "Ho"); [by apply str_in_mono, str_in_cells|]. iIntros "Ho".
  wpc_bind. iApply wpc_says. wpc_bind. iApply (wpc_free with "Hl"). wpc_bind. iApply (wpc_free with "Ho"). wpc_bind. iApply (wpc_free with "He").
  wpc_bind. iApply (wpc_free with "Hh"). iApply (wpc_free with "Hb").
  match goal with |- context [mk_world (stdin ?v) (stdout ?v ++ msg) (strtok_next ?v)] => change (mk_world (stdin v) (stdout v ++ msg) (strtok_next v)) with (says v msg) end.
  rewrite !says_says -(app_assoc (dec _) (chars ": ")) (app_assoc (chars "enc: " ++ _) (chars "done" ++ _)) (app_assoc _ (bin2hex_log 0 c ++ _)) (app_assoc _ (hex2bin_log 0 c ++ _)).
  iApply ("HΦ" with "Hm").
Qed.

(** A message that leaves no room for the padding: the length -1 is taken for that of the text. *)
Lemma wpe_asym_encrypt seed pp ep x lm msg fs w : fs !! pp = Some x -> read_public x = Some pk -> (size pk < length msg + 43)%nat ->
  lm ↦ str_cells msg ⊢ wpe (asym_encrypt size encrypt read_public writable seed pp ep (length msg) (Some (lm, 0%nat)) fs) w NullDeref.
Proof.
  iIntros (Hf Hr Hl) "Hm". unfold asym_encrypt. wpe_bind. iApply wpc_load_rsa; [done|done|]. wpe_bind. iApply wpc_malloc. iIntros (l) "Hl". wpe_bind. iApply wpc_malloc. iIntros (le) "He".
  wpe_bind. unfold RSA_public_encrypt. wpc_bind. iApply (wpc_read_bytes _ _ (text msg) [] with "Hm"); [by rewrite app_nil_r text_cells|unfold text; by rewrite length_app|].
  iIntros "Hm". rewrite (paired_long _ _ _ _ _ Hp); [|unfold text; rewrite length_app; cbn; lia]. wpc_ret. wpe_bind. iApply wpc_says.
  iApply wpe_bind_err. unfold bin2hex. change (int_c (2 * -1)) with (mret (M := C) (-2)). wpe_bind. wpc_ret. change (int_c (-2 + 1)) with (mret (M := C) (-1)). wpe_bind. wpc_ret.
  change (malloc_z (-1)) with (mret (M := C) NULL). wpe_bind. wpc_ret. iApply wpe_bind_err. unfold memset, write_cells. iApply wpe_bind_err. by iApply (wpe_fail with "Hm").
Qed.

(** Decryption fails: the block for the message is read although nothing was written to it. *)
Lemma wpe_asym_decrypt ppriv ep x lp c fs w : fs !! ppriv = Some x -> read_private x = Some sk -> fs !! ep = Some (hex c) -> length c = size pk -> Forall is_byte c -> decrypt sk c = None ->
  ⊢ wpe (asym_decrypt size decrypt read_private ppriv ep lp fs) w Uninit.
Proof.
  intros Hf Hr He Hc Hcb Hd. destruct (paired_range _ _ _ _ _ Hp) as [H42 Hmax]. pose proof (paired_size _ _ _ _ _ Hp) as Hs.
  assert (length (hex c) = 2 * size sk)%nat as Hh by (rewrite length_hex; lia). iStartProof.
  unfold asym_decrypt. wpe_bind. iApply wpc_load_rsa; [done|done|]. cbv zeta. wpe_bind. iApply wpc_malloc. iIntros (l) "Hl".
  wpe_bind. iApply (wpc_get_line with "Hl"); [done|intros E; rewrite E in Hh; cbn in Hh; lia|by apply hex_no_newline|rewrite Hh; lia|by rewrite length_replicate|].
  rewrite (splice_all (replicate _ _)); [|rewrite length_str_cells length_replicate Hh; lia]. iIntros "Hl".
  wpe_bind. iApply (hex2bin_spec with "Hl"); [done|lia|]. iIntros (lb) "Hl Hb". wpe_bind. iApply wpc_malloc. iIntros (lo) "Ho". wpe_bind. iApply wpc_malloc. iIntros (le) "He".
  wpe_bind. unfold RSA_private_decrypt. wpc_bind. iApply (wpc_read_bytes _ _ c [] with "Hb"); [by rewrite app_nil_r|lia|]. iIntros "Hb". rewrite Hd. wpc_ret.
  iApply wpe_bind_err. iApply wpe_bind_err. iApply (wpe_read_string with "Ho"). rewrite drop_0. rewrite -Hs. destruct (size pk) as [|n]; [lia|done].
Qed.

(** A message through the file [ep], and what is read back into an array of 1024. *)
Definition session (seed : nat) (pp sp ep msg : list Z) (fs : fsys) : C (list Z) :=
  enc ← new_block (str_cells msg);
  fs ← asym_encrypt size encrypt read_public writable seed pp ep (length msg) enc fs;
  plain_msg ← new_block (replicate 1024 (VInt 0));
  asym_decrypt size decrypt read_private sp ep plain_msg fs;;
  x ← read_string plain_msg;
  free enc;; free plain_msg;;
  mret x.
Definition piped (seed : nat) (pp sp msg : list Z) (fs : fsys) : C unit :=
  enc ← new_block (str_cells msg);
  asym_pipe size encrypt decrypt read_public read_private seed pp sp (length msg) enc fs;;
  free enc.

(** C22: with the two keys of a pair in their files, a message that leaves room for the padding comes
    back from its file, and in one go is printed with the length of its text; all memory is
    released. A longer message is not noticed: the error is taken for a length and the null
    pointer written to. A text that cannot be decrypted is not noticed either: an array that
    nothing was written to is read. *)
Theorem rsa_message_comes_back seed pp sp ep x x' msg fs w : fs !! pp = Some x -> read_public x = Some pk -> fs !! sp = Some x' -> read_private x' = Some sk ->
  (forall p, writable p = true) -> sp <> ep -> Forall is_byte msg -> no_nul msg -> (length msg < 1024)%nat ->
  ((length msg + 43 <= size pk)%nat ->
    (exists y, session seed pp sp ep msg fs (mem ∅ w) = Ok (msg, mem ∅ (says w y))) /\
    (exists y, piped seed pp sp msg fs (mem ∅ w) = Ok (tt, mem ∅ (says w (y ++ dec (Z.of_nat (length msg + 1)) ++ chars ": " ++ msg ++ [10]))))) /\
  ((size pk < length msg + 43)%nat -> session seed pp sp ep msg fs (mem ∅ w) = Err NullDeref) /\
  (forall c, length c = size pk -> Forall is_byte c -> decrypt sk c = None ->
    asym_decrypt size decrypt read_private sp ep NULL (<[ep := hex c]> fs) (mem ∅ w) = Err Uninit).
Proof.
  intros Hf Hr Hf' Hr' Hw Hse Hb Hn H1024. split; [intros Hl; split|split].
  - destruct (wpc_run (session seed pp sp ep msg fs) w (fun r w' => ⌜exists y, r = msg /\ w' = says w y⌝ ∧ emp)%I)
      as (r & w' & h & -> & [(y & -> & ->) ->]%holds_pure_emp); [|by exists y].
    iStartProof. unfold session. wpc_bind. iApply wpc_new_block. iIntros (lm) "Hm". wpc_bind. iApply (wpc_asym_encrypt with "Hm"); [done..|].
    iIntros (y c (Hc & Hcb & Hd)) "Hm". wpc_bind. iApply wpc_new_block. iIntros (lp) "Hp". wpc_bind.
    iApply (wpc_asym_decrypt _ _ _ _ _ c with "Hp"); [by rewrite lookup_insert_ne|done|apply lookup_insert_eq|done|done|done|done|done|by rewrite length_replicate|]. iIntros (y') "Hp".
    wpc_bind. iApply (wpc_read_string with "Hp"); [unfold splice; rewrite take_0 app_nil_l; by apply str_in_mono, str_in_cells|]. iIntros "Hp".
    wpc_bind. iApply (wpc_free with "Hm"). wpc_bind. iApply (wpc_free with "Hp"). wpc_ret. rewrite says_says. by eauto.
  - destruct (wpc_run (piped seed pp sp msg fs) w
      (fun r w' => ⌜exists y, w' = says w (y ++ dec (Z.of_nat (length msg + 1)) ++ chars ": " ++ msg ++ [10])⌝ ∧ emp)%I) as ([] & w' & h & -> & [(y & ->) ->]%holds_pure_emp); [|by exists y].
    iStartProof. unfold piped. wpc_bind. iApply wpc_new_block. iIntros (lm) "Hm". wpc_bind. iApply (wpc_asym_pipe with "Hm"); [done..|]. iIntros (y) "Hm".
    iApply (wpc_free with "Hm"). by eauto.
  - intros Hl. apply wpe_run. unfold session. wpe_bind. iApply wpc_new_block. iIntros (lm) "Hm". iApply wpe_bind_err. by iApply (wpe_asym_encrypt with "Hm").
  - intros c Hc Hcb Hd. apply wpe_run. eapply wpe_asym_decrypt; [by rewrite lookup_insert_ne|done|apply lookup_insert_eq|done|done|done].
Qed.
End proofs.

(** A pair with these laws: the message with its length, filled up to the size of the key. *)
Definition frame_up (k : unit) (seed : nat) (x : list Z) : option (list Z) :=
  if decide (length x + 42 <= 512)%nat then Some (x ++ replicate (510 - length x) 0 ++ be16 (Z.of_nat (length x))) else None.
Definition unframe (k : unit) (c : list Z) : option (list Z) :=
  match drop 510 c with [a; b] => Some (take (Z.to_nat (a * 256 + b)) c) | _ => None end.
Lemma frame_paired : paired (fun _ => 512%nat) frame_up unframe tt tt.
Proof.
  split; [done|split; [lia|by vm_compute]|..].
  - intros seed x Hl Hb. unfold frame_up. rewrite decide_True //. eexists. split; [done|].
    assert (length (x ++ replicate (510 - length x) 0) = 510%nat) as H510 by (rewrite length_app length_replicate; lia).
    split; [rewrite app_assoc length_app H510; done|]. split.
    + repeat apply Forall_app_2; [done|by apply Forall_replicate|]. unfold be16. pose proof (Z.mod_pos_bound (Z.of_nat (length x)) 256 ltac:(lia)).
      repeat constructor; unfold is_byte; try lia; [apply Z.div_pos; lia|apply Z.div_lt_upper_bound; lia].
    + unfold unframe. rewrite app_assoc -{1}H510 drop_app_length. cbn [be16]. unfold be16. f_equal.
      replace (Z.of_nat (length x) / 256 * 256 + Z.of_nat (length x) mod 256) with (Z.of_nat (length x)) by (pose proof (Z.div_mod (Z.of_nat (length x)) 256); lia).
      rewrite Nat2Z.id -app_assoc take_app_length. done.
  - intros seed x Hl. unfold frame_up. rewrite decide_False //. lia.
Qed.

Lemma rsa_message_comes_back_witness : exists y,
  session (fun _ => 512%nat) frame_up unframe (fun _ => Some tt) (fun _ => Some tt) (fun _ => true) 0 [1] [2] [3] (chars "cryptoinc") (<[[1] := []]> {[[2] := []]})
    (mem ∅ (mk_world [] [] NULL)) = Ok (chars "cryptoinc", mem ∅ (says (mk_world [] [] NULL) y)).
Proof.
  destruct (rsa_message_comes_back (fun _ => 512%nat) frame_up unframe (fun _ => Some tt) (fun _ => Some tt) (fun _ => true) tt tt frame_paired 0 [1] [2] [3] [] [] (chars "cryptoinc")
    (<[[1] := []]> {[[2] := []]}) (mk_world [] [] NULL)) as [H _]; [by vm_compute|done|by vm_compute|done|done|done|by_compute|by_compute|vm_compute; lia|].
  destruct H as [[y E] _]; [vm_compute; lia|]. exists y. exact E.
Defined.
End Asym.
