(* ===== verification/Dtls.v ===== *)
(** * Echo over DTLS

    src/sock-dtls-udp: cookies that tie a handshake to the address of the peer, and the loops of
    server and client around [SSL_read] and [SSL_write]. What the client prints of a
    certificate is in [Tls.Names]. What OpenSSL returns is a list of results, one for each call, that the loops
    go through; where the list ends the program is waiting. [hmac] is a parameter. *)
From stdpp Require Import base numbers list gmap strings.
From S2P Require Import Prelude CBase CDecimal CHeap.
Local Open Scope Z_scope.

(** ** Errors of a socket *)

Definition EINTR : Z := 4.
Definition EBADF : Z := 9.
Definition ENOMEM : Z := 12.
Definition EACCES : Z := 13.
Definition ECONNRESET : Z := 104.
Definition EHOSTDOWN : Z := 112.

(** Whether the connection goes on. *)
Definition handle_socket_error (errno : Z) : bool :=
  if errno =? EINTR then true
  else if errno =? EBADF then false
  else if errno =? EHOSTDOWN then true
  else if errno =? ECONNRESET then true
  else if errno =? ENOMEM then false
  else if errno =? EACCES then true
  else false.
(** The client has its own copy. *)
Definition client_handle_socket_error (errno : Z) : bool := handle_socket_error errno.

(** ** Cookies *)
Module Cookie.

(** The address of a peer as it is in memory: port and address, four or sixteen bytes. *)
Inductive peer := Inet (port addr : list Z) | Inet6 (port addr : list Z) | OtherFamily.
Definition good_peer (p : peer) : Prop :=
  match p with
  | Inet port addr => length port = 2%nat /\ length addr = 4%nat
  | Inet6 port addr => length port = 2%nat /\ length addr = 16%nat
  | OtherFamily => False
  end.

(** The globals: whether there is a secret, and the secret. *)
Record globals := mk_globals { cookie_initialized : bool; cookie_secret : list Z }.
Definition COOKIE_SECRET_LENGTH : nat := 16.
Definition initially : globals := mk_globals false (replicate COOKIE_SECRET_LENGTH 0).

(** The bytes the code is computed of; [OPENSSL_assert] ends the program for other families. *)
Definition peer_bytes (p : peer) : res (list Z) :=
  match p with
  | Inet port addr => Ok (port ++ addr)
  | Inet6 port addr => Ok (port ++ addr)
  | OtherFamily => Err Aborted
  end.

Section cookies.
Context (hmac : list Z -> list Z -> list Z).

(** [random] is what [RAND_bytes] gives, [allocates] whether there is memory: the cookie, or an error, and the globals. *)
Definition generate_cookie (random : option (list Z)) (allocates : bool) (p : peer) (g : globals) : res (option (list Z) * globals) :=
  let init := if cookie_initialized g then Some g
              else match random with Some s => Some (mk_globals true s) | None => None end in
  match init with
  | None => Ok (None, g)
  | Some g =>
      b ← peer_bytes p;
      if negb allocates then Ok (None, g) else Ok (Some (hmac (cookie_secret g) b), g)
  end.

Definition verify_cookie (allocates : bool) (p : peer) (cookie : list Z) (g : globals) : res bool :=
  if negb (cookie_initialized g) then Ok false
  else
    b ← peer_bytes p;
    if negb allocates then Ok false
    else
      let result := hmac (cookie_secret g) b in
      Ok (bool_decide (length cookie = length result) && bool_decide (take (length result) cookie = result)).

(** ** Proofs *)

(** The calls OpenSSL makes while it listens. *)
Inductive call := Generate (random : option (list Z)) (allocates : bool) (p : peer) | Verify (allocates : bool) (p : peer) (cookie : list Z).
Definition call_peer (k : call) : peer := match k with Generate _ _ p => p | Verify _ p _ => p end.
Definition do_call (k : call) (g : globals) : res globals :=
  match k with
  | Generate r a p => '(_, g) ← generate_cookie r a p g; Ok g
  | Verify a p c => _ ← verify_cookie a p c g; Ok g
  end.
Fixpoint do_calls (ks : list call) (g : globals) : res globals :=
  match ks with [] => Ok g | k :: ks => g ← do_call k g; do_calls ks g end.

Lemma peer_bytes_ok p : good_peer p -> exists b, peer_bytes p = Ok b.
Proof. destruct p; [eauto|eauto|done]. Qed.

(** Peers with different addresses give different bytes. *)
Lemma peer_bytes_inj p q b : good_peer p -> good_peer q -> peer_bytes p = Ok b -> peer_bytes q = Ok b -> p = q.
Proof.
  destruct p as [pt a|pt a|], q as [pt' a'|pt' a'|]; try done; intros [H1 H2] [H3 H4] [= <-] [= E].
  - apply app_inj_1 in E as [-> ->]; [done|congruence].
  - apply (f_equal length) in E. rewrite !length_app in E. lia.
  - apply (f_equal length) in E. rewrite !length_app in E. lia.
  - apply app_inj_1 in E as [-> ->]; [done|congruence].
Qed.

Lemma secret_kept ks g : cookie_initialized g = true -> Forall (fun k => good_peer (call_peer k)) ks -> do_calls ks g = Ok g.
Proof.
  intros Hi. induction 1 as [|k ks Hk _ IH]; [done|]. cbn [do_calls].
  enough (do_call k g = Ok g) as -> by (by rewrite rbind_ok).
  destruct (peer_bytes_ok _ Hk) as [b Hb]. destruct k as [r a p|a p c]; cbn in Hb |- *; unfold generate_cookie, verify_cookie; rewrite Hi, Hb.
  - rewrite rbind_ok. by destruct a.
  - cbn [negb]. rewrite rbind_ok. by destruct a.
Qed.

(** C25: a cookie made for a peer is accepted from that peer after any further calls, whoever they
    are for: the secret is made once. Accepted is exactly the code of the peer's address under
    the secret, so another peer's cookie is accepted only if the codes of two different texts
    agree. Before a cookie was made none is accepted. *)
Theorem cookies_tie_to_peers g random p c g' : generate_cookie random true p g = Ok (Some c, g') -> good_peer p ->
  (forall ks, Forall (fun k => good_peer (call_peer k)) ks -> do_calls ks g' = Ok g' /\ verify_cookie true p c g' = Ok true) /\
  (forall q d, good_peer q -> verify_cookie true q d g' = Ok true -> exists b, peer_bytes q = Ok b /\ d = hmac (cookie_secret g') b) /\
  (forall q, good_peer q -> q <> p -> verify_cookie true q c g' = Ok true ->
    exists b b', b <> b' /\ hmac (cookie_secret g') b = hmac (cookie_secret g') b') /\
  (forall a q d, verify_cookie a q d initially = Ok false).
Proof.
  intros Hgen Hp. destruct (peer_bytes_ok p Hp) as [b Hb].
  assert (cookie_initialized g' = true /\ c = hmac (cookie_secret g') b) as [Hi ->].
  { unfold generate_cookie in Hgen. rewrite Hb in Hgen. destruct (cookie_initialized g) eqn:Hi; [|destruct random as [s|]; [|done]]; rewrite rbind_ok in Hgen; cbn in Hgen; by simplify_eq. }
  assert (forall q d, good_peer q -> verify_cookie true q d g' = Ok true -> exists b, peer_bytes q = Ok b /\ d = hmac (cookie_secret g') b) as Hv.
  { intros q d Hq. unfold verify_cookie. rewrite Hi. destruct (peer_bytes_ok q Hq) as [bq Hbq]. rewrite Hbq, rbind_ok. cbn [negb].
    intros [= [Hl Ht]%andb_true_iff]. apply bool_decide_eq_true in Hl, Ht. exists bq. split; [done|]. by rewrite <- Hl, firstn_all in Ht. }
  split; [|split; [done|split; [|done]]].
  - intros ks Hks. split; [by apply secret_kept|]. unfold verify_cookie. rewrite Hi, Hb, rbind_ok. cbn [negb].
    rewrite firstn_all, !bool_decide_true by done. done.
  - intros q Hq Hne Hver. destruct (Hv q _ Hq Hver) as (bq & Hbq & E). exists b, bq. split; [|done]. intros ->. by destruct Hne; eapply peer_bytes_inj.
Qed.
End cookies.

Lemma cookies_tie_to_peers_witness :
  verify_cookie app true (Inet [1; 2] [127; 0; 0; 1]) (replicate 16 7 ++ [1; 2; 127; 0; 0; 1]) (mk_globals true (replicate 16 7)) = Ok true.
Proof.
  destruct (cookies_tie_to_peers app initially (Some (replicate 16 7)) (Inet [1; 2] [127; 0; 0; 1]) (replicate 16 7 ++ [1; 2; 127; 0; 0; 1]) (mk_globals true (replicate 16 7))) as [H _]; [done|done|].
  apply (H []). constructor.
Defined.
End Cookie.

(** ** The loops *)
Module Echo.

(** What [SSL_read] and [SSL_get_error] give: a message; nothing yet, with or without the timer
    expired; the peer's end of the connection; an error of the socket; one of the protocol; another. *)
Inductive rd := Data (x : list Z) | WantRead (expired : bool) | Zero | RSyscall (errno : Z) | RSsl | ROther.
(** What [SSL_write] gives. *)
Inductive wr := Written | WantWrite | WWantRead | WSyscall (errno : Z) | WSsl | WOther.

(** What is seen of the loops: a message received or sent, [SSL_shutdown]. *)
Inductive event := Got (x : list Z) | Sent (x : list Z) | Shutdown.

(** How a run ends: still waiting; through the end of the loop; through an error. *)
Inductive ending := Waiting | Done | Failed.

(** A message is written; [None] is the way out of the loop. *)
Definition write (w : wr) (x : list Z) : option (list event) :=
  match w with
  | Written => Some [Sent x]
  | WantWrite | WWantRead => Some []
  | WSyscall errno => if handle_socket_error errno then Some [] else None
  | WSsl | WOther => None
  end.

(** *** The server *)

Definition max_timeouts : nat := 5.

(** The loop of [connection_handle], with the timeouts counted and whether the peer has ended
    the connection. An empty message is not sent back. *)
Fixpoint connection_loop (rs : list rd) (ws : list wr) (num_timeouts : nat) (received_shutdown : bool) : list event * ending :=
  if received_shutdown || (max_timeouts <=? num_timeouts)%nat then ([Shutdown], Done)
  else match rs with
  | [] => ([], Waiting)
  | r :: rs' =>
      match r with
      | Data x =>
          match x, ws with
          | [], _ => let '(es, e) := connection_loop rs' ws num_timeouts received_shutdown in (Got x :: es, e)
          | _, [] => ([Got x], Waiting)
          | _, w :: ws' =>
              match write w x with
              | None => ([Got x], Failed)
              | Some es => let '(es', e) := connection_loop rs' ws' num_timeouts received_shutdown in (Got x :: es ++ es', e)
              end
          end
      | WantRead expired => connection_loop rs' ws (if expired then S num_timeouts else num_timeouts) received_shutdown
      | Zero => connection_loop rs' ws num_timeouts true
      | RSyscall errno => if handle_socket_error errno then connection_loop rs' ws num_timeouts received_shutdown else ([], Failed)
      | RSsl | ROther => ([], Failed)
      end
  end.

(** What is released at [cleanup], with [close(-1)] where there is no socket. *)
Inductive release := CloseFd (fd : Z) | FreeInfo | FreeSsl.
(** The calls before the loop: the descriptor, [bind], [connect], and what [SSL_accept] returns, time after time. *)
Record setup := mk_setup { s_socket : Z; s_bind : bool; s_connect : bool; s_accept : list Z }.

(** [do ... while (ret == 0)]. *)
Fixpoint accept_loop (rets : list Z) : option Z :=
  match rets with [] => None | r :: rets' => if r =? 0 then accept_loop rets' else Some r end.

(** The events, how it ends, and what is released. Families other than the two end the program. *)
Definition connection_handle (client server : Cookie.peer) (o : setup) (rs : list rd) (ws : list wr) : res (list event * ending * list release) :=
  let same := match client, server with Cookie.Inet _ _, Cookie.Inet _ _ | Cookie.Inet6 _ _, Cookie.Inet6 _ _ => true | _, _ => false end in
  let cleanup := [CloseFd (s_socket o); FreeInfo; FreeSsl] in
  if negb same then Err Aborted
  else if s_socket o <? 0 then Ok ([], Failed, cleanup)
  else if negb (s_bind o) then Ok ([], Failed, cleanup)
  else if negb (s_connect o) then Ok ([], Failed, cleanup)
  else match accept_loop (s_accept o) with
  | None => Ok ([], Waiting, [])
  | Some ret =>
      if ret <? 0 then Ok ([], Failed, cleanup)
      else
        let '(es, e) := connection_loop rs ws 0 false in
        Ok (es, e, match e with Waiting => [] | _ => cleanup end)
  end.

(** *** The client *)

(** The front of a turn: a message is written as long as there are some left; after the last
    one the connection is ended from this side. *)
Inductive begun := BWait | BFail | BGo (es : list event) (ws : list wr) (messagenumber : nat).
Definition begin_turn (ws : list wr) (messagenumber : nat) (x : list Z) : begun :=
  match messagenumber, ws with
  | O, _ => BGo [] ws 0
  | S _, [] => BWait
  | S n, w :: ws' =>
      match write w x with
      | None => BFail
      | Some es =>
          let left := match w with Written => n | _ => S n end in
          BGo (es ++ match left with O => [Shutdown] | _ => [] end) ws' left
      end
  end.

(** The rest of a turn: reading, until there is a message, the timer expires, the peer has
    ended, or an error that is to be ignored; and the turns that follow. [buf] is the buffer, which both
    directions use. *)
Fixpoint client_loop (len : nat) (rs : list rd) (ws : list wr) (buf : list Z) (messagenumber : nat) : list event * ending :=
  match rs with
  | [] => ([], Waiting)
  | r :: rs' =>
      let next ev buf :=
        match begin_turn ws messagenumber (take len buf) with
        | BWait => (ev, Waiting)
        | BFail => (ev, Failed)
        | BGo es ws' n => let '(es', e) := client_loop len rs' ws' buf n in (ev ++ es ++ es', e)
        end in
      match r with
      | Data x => next [Got x] (x ++ drop (length x) buf)
      | WantRead true => next [] buf
      | WantRead false => client_loop len rs' ws buf messagenumber
      | Zero => ([], Done)
      | RSyscall errno => if client_handle_socket_error errno then next [] buf else ([], Failed)
      | RSsl | ROther => ([], Failed)
      end
  end.

Definition greeting : list Z := chars "goddamn dtls test!!!".
(** From the first turn on; [stack] is what was in the buffer before. *)
Definition client_run (len messagenumber : nat) (stack : list Z) (rs : list rd) (ws : list wr) : list event * ending :=
  let buf := greeting ++ [0] ++ stack in
  match begin_turn ws messagenumber (take len buf) with
  | BWait => ([], Waiting)
  | BFail => ([], Failed)
  | BGo es ws' n => let '(es', e) := client_loop len rs ws' buf n in (es ++ es', e)
  end.

(** ** Proofs *)

Definition got (es : list event) : list (list Z) := omap (fun e => match e with Got x => Some x | _ => None end) es.
Definition sent (es : list event) : list (list Z) := omap (fun e => match e with Sent x => Some x | _ => None end) es.
Definition quiet (r : rd) : Prop := match r with Data _ | WantRead _ => True | RSyscall errno => handle_socket_error errno = true | _ => False end.
#[global] Instance rd_eq_dec : EqDecision rd.
Proof. solve_decision. Defined.
(** The timeouts in a list of results. *)
Definition timeouts (rs : list rd) : nat := length (filter (fun r => r = WantRead true) rs).
Definition messages (rs : list rd) : list (list Z) := omap (fun r => match r with Data x => Some x | _ => None end) rs.

(** What the server does with messages when its writes succeed. *)
Definition answer (x : list Z) : list event := Got x :: match x with [] => [] | _ => [Sent x] end.
Definition answers (rs : list rd) : list event := messages rs ≫= answer.

Lemma timeouts_cons r rs : timeouts (r :: rs) = ((if decide (r = WantRead true) then 1 else 0) + timeouts rs)%nat.
Proof. unfold timeouts. rewrite filter_cons. by destruct (decide (r = WantRead true)). Qed.

Lemma loop_quiet rs rest k t : Forall quiet rs -> (t + timeouts rs < max_timeouts)%nat -> (length (messages rs) <= k)%nat ->
  exists k', (k <= k' + length (messages rs))%nat /\
  connection_loop (rs ++ rest) (replicate k Written) t false =
    let '(es, e) := connection_loop rest (replicate k' Written) (t + timeouts rs) false in (answers rs ++ es, e).
Proof.
  intros Hq. revert t k. induction Hq as [|r rs Hr _ IH]; intros t k Ht Hk.
  - exists k. cbn in Hk |- *. split; [lia|]. unfold timeouts. cbn. rewrite Nat.add_0_r. by destruct (connection_loop rest _ t false).
  - rewrite timeouts_cons in Ht |- *. cbn [app connection_loop].
    assert ((max_timeouts <=? t)%nat = false) as -> by (apply Nat.leb_gt; destruct (decide _); lia). cbn [orb].
    destruct r as [[|c x]|[|]| |errno| |]; try done; cbn in Hr.
    + destruct (IH t k) as (k' & Hk' & ->); [by rewrite decide_False in Ht|change (length (messages (Data [] :: rs))) with (S (length (messages rs))) in Hk; lia|].
      exists k'. split; [change (length (messages (Data [] :: rs))) with (S (length (messages rs))); lia|]. rewrite decide_False by done.
      destruct (connection_loop rest _ _ _) as [es e]. done.
    + change (length (messages (Data (c :: x) :: rs))) with (S (length (messages rs))) in Hk |- *. destruct k as [|k]; [lia|].
      cbn [replicate write]. destruct (IH t k) as (k' & Hk' & ->); [by rewrite decide_False in Ht|lia|].
      exists k'. split; [lia|]. rewrite decide_False by done. destruct (connection_loop rest _ _ _) as [es e]. done.
    + rewrite decide_True in Ht |- * by done. destruct (IH (S t) k) as (k' & Hk' & ->); [lia|done|]. exists k'. split; [done|].
      by replace (S t + timeouts rs)%nat with (t + (1 + timeouts rs))%nat by lia.
    + rewrite decide_False in Ht |- * by done. destruct (IH t k) as (k' & Hk' & ->); [done|done|]. by exists k'.
    + rewrite decide_False in Ht |- * by done. rewrite Hr. destruct (IH t k) as (k' & Hk' & ->); [done|done|]. by exists k'.
Qed.

Lemma sent_sublist rs ws t b : sublist (sent (connection_loop rs ws t b).1) (got (connection_loop rs ws t b).1).
Proof.
  revert ws t b. induction rs as [|r rs IH]; intros ws t b; cbn [connection_loop]; destruct (b || _); try constructor.
  destruct r as [x|ex| |errno| |]; try apply IH; try constructor.
  - destruct x as [|c x].
    + pose proof (IH ws t b) as H. destruct (connection_loop rs ws t b) as [es e]. cbn in H |- *. by constructor.
    + destruct ws as [|w ws]; [cbn; repeat constructor|]. destruct (write w (c :: x)) as [es|] eqn:E; [|cbn; repeat constructor].
      pose proof (IH ws t b) as H. destruct (connection_loop rs ws t b) as [es' e]. cbn in H |- *.
      assert (es = [Sent (c :: x)] \/ es = []) as [-> | ->] by (destruct w; cbn in E; try case_match; naive_solver); cbn; by constructor.
  - destruct (handle_socket_error errno); [apply IH|constructor].
Qed.

(** C24: messages are sent back in order, each once, until the peer ends the connection; whatever
    the writes give, nothing is sent that was not received, nor out of order. Timeouts are
    counted over the whole connection: with the fifth it is ended, however much was received in
    between. On every way out socket, structure and connection are released, once each. *)
Theorem dtls_server_echoes rs rest k client server o : Forall quiet rs -> (length (messages rs) <= k)%nat ->
  ((timeouts rs < max_timeouts)%nat -> connection_loop (rs ++ Zero :: rest) (replicate k Written) 0 false = (answers rs ++ [Shutdown], Done)) /\
  ((S (timeouts rs) = max_timeouts)%nat -> connection_loop (rs ++ WantRead true :: rest) (replicate k Written) 0 false = (answers rs ++ [Shutdown], Done)) /\
  (forall rs ws, sublist (sent (connection_loop rs ws 0 false).1) (got (connection_loop rs ws 0 false).1)) /\
  (forall rs ws es e rel, connection_handle client server o rs ws = Ok (es, e, rel) -> e <> Waiting -> rel = [CloseFd (s_socket o); FreeInfo; FreeSsl]).
Proof.
  intros Hq Hk. split; [|split; [|split]].
  - intros Ht. destruct (loop_quiet rs (Zero :: rest) k 0 Hq Ht Hk) as (k' & _ & ->). cbn [connection_loop].
    assert ((max_timeouts <=? 0 + timeouts rs)%nat = false) as -> by (apply Nat.leb_gt; lia). by destruct rest.
  - intros Ht. destruct (loop_quiet rs (WantRead true :: rest) k 0 Hq) as (k' & _ & ->); [lia|done|]. cbn [connection_loop].
    assert ((max_timeouts <=? 0 + timeouts rs)%nat = false) as -> by (apply Nat.leb_gt; lia). cbn [orb].
    assert ((max_timeouts <=? S (0 + timeouts rs))%nat = true) as Hle by (apply Nat.leb_le; lia). destruct rest; cbn [connection_loop]; by rewrite Hle.
  - intros. apply sent_sublist.
  - intros rs' ws es e rel. unfold connection_handle. repeat case_match; intros; simplify_eq; try done.
Qed.

Lemma dtls_server_echoes_witness :
  connection_loop ([WantRead true; Data [104; 105]; WantRead true; WantRead true; Data [111]; WantRead true] ++ WantRead true :: [Data [108; 111; 115; 116]])
    (replicate 9 Written) 0 false = ([Got [104; 105]; Sent [104; 105]; Got [111]; Sent [111]] ++ [Shutdown], Done).
Proof.
  apply (dtls_server_echoes [WantRead true; Data [104; 105]; WantRead true; WantRead true; Data [111]; WantRead true] [Data [108; 111; 115; 116]] 9
    (Cookie.Inet [] []) (Cookie.Inet [] []) (mk_setup 3 true true [1])); [by repeat constructor|vm_compute; lia|done].
Defined.

(** *** The client *)

(** A turn's message. *)
Lemma begin_turn_go ws n x es ws' n' : begin_turn ws n x = BGo es ws' n' ->
  (n = n' /\ es = []) \/ (n = S n' /\ es = Sent x :: match n' with O => [Shutdown] | _ => [] end).
Proof.
  unfold begin_turn. destruct n as [|n]; [intros [= <- <- <-]; by left|]. destruct ws as [|w ws]; [done|].
  destruct w as [| | |errno| |]; cbn; try done; try (intros [= <- <- <-]; first [by left|by right]). destruct (handle_socket_error errno); [|done]. intros [= <- <- <-]. by left.
Qed.

#[global] Instance event_eq_dec : EqDecision event.
Proof. solve_decision. Defined.
Definition shutdowns (es : list event) : nat := length (filter (fun e => e = Shutdown) es).

(** With [n] messages left: at most [n] are sent, and the end once, with the last. *)
Definition budget (n : nat) (es : list event) : Prop :=
  (length (sent es) <= n)%nat /\ shutdowns es = (if decide (n <> 0 /\ length (sent es) = n)%nat then 1 else 0)%nat.

Lemma budget_got n x es : budget n es -> budget n (Got x :: es).
Proof. done. Qed.

Lemma budget_turn ws n x es ws' n' es' : begin_turn ws n x = BGo es ws' n' -> budget n' es' -> budget n (es ++ es').
Proof.
  intros [[-> ->]|[-> ->]]%begin_turn_go [H1 H2]; [done|].
  assert (sent ((Sent x :: match n' with O => [Shutdown] | _ => [] end) ++ es') = x :: sent es') as Hs by by destruct n'.
  assert (shutdowns ((Sent x :: match n' with O => [Shutdown] | _ => [] end) ++ es') = (match n' with O => 1 | _ => 0 end + shutdowns es')%nat) as Hn by by destruct n'.
  unfold budget. rewrite Hs, Hn, H2. cbn [length]. split; [lia|]. destruct n'; do 2 case_decide; lia.
Qed.

Lemma budget_nil n : budget n [].
Proof. split; cbn; [lia|]. rewrite decide_False; [done|lia]. Qed.

Lemma client_loop_ok len rs ws buf n : budget n (client_loop len rs ws buf n).1 /\ ((client_loop len rs ws buf n).2 = Done -> Zero ∈ rs).
Proof.
  revert ws buf n. induction rs as [|r rs IH]; intros ws buf n; [split; [apply budget_nil|done]|]. cbn [client_loop].
  assert (forall ev buf, ev = [] \/ (exists x, ev = [Got x]) -> forall out, out = match begin_turn ws n (take len buf) with
        | BWait => (ev, Waiting) | BFail => (ev, Failed)
        | BGo es ws' n => let '(es', e) := client_loop len rs ws' buf n in (ev ++ es ++ es', e)
        end -> budget n out.1 /\ (out.2 = Done -> Zero ∈ r :: rs)) as H.
  { intros ev b Hev out ->. destruct (begin_turn _ _ _) as [| |es ws' n'] eqn:E; cbn.
    1,2: split; [destruct Hev as [->|[x ->]]; apply budget_nil|done].
    destruct (IH ws' b n') as [H1 H2]. destruct (client_loop len rs ws' b n') as [es' e]. cbn in *.
    pose proof (budget_turn _ _ _ _ _ _ _ E H1). split; [destruct Hev as [->|[x ->]]; [done|by apply budget_got]|]. intros He. right. auto. }
  destruct r as [x|[|]| |errno| |].
  - apply (H [Got x] (x ++ drop (length x) buf)); eauto.
  - apply (H [] buf); eauto.
  - destruct (IH ws buf n). split; [done|]. intros. right. auto.
  - split; [apply budget_nil|]. intros _. left.
  - destruct (client_handle_socket_error errno); [apply (H [] buf); eauto|]. split; [apply budget_nil|done].
  - split; [apply budget_nil|done].
  - split; [apply budget_nil|done].
Qed.

Lemma client_lossless len n buf : (0 < len <= length buf)%nat ->
  let m := take len buf in
  exists es, client_loop len (replicate (S n) (Data m) ++ [Zero]) (replicate n Written) buf n = (es, Done) /\
    got es = replicate (S n) m /\ sent es = replicate n m.
Proof.
  intros Hlen m. assert (m ++ drop (length m) buf = buf) as Hb.
  { unfold m. rewrite length_take_le; [apply take_drop|lia]. }
  induction n as [|n (es & IH & Hg & Hs)].
  - cbn [replicate app client_loop begin_turn]. eexists. by split_and!.
  - change (replicate (S (S n)) (Data m)) with (Data m :: replicate (S n) (Data m)). cbn [app client_loop]. rewrite Hb.
    cbn [replicate begin_turn write app]. fold m. cbn [replicate app] in IH. rewrite IH. eexists. split; [done|].
    destruct n; cbn; split; f_equal; done.
Qed.

Lemma messages_data (xs : list (list Z)) : messages (Data <$> xs) = xs.
Proof. induction xs as [|x xs IH]; [done|]. unfold messages in *. cbn. by rewrite IH. Qed.

Lemma timeouts_data (xs : list (list Z)) : timeouts (Data <$> xs) = 0%nat.
Proof. induction xs as [|x xs IH]; [done|]. cbn [fmap list_fmap]. by rewrite timeouts_cons, decide_False. Qed.

Lemma answers_full (xs : list (list Z)) : Forall (fun x => x <> []) xs -> got (answers (Data <$> xs)) = xs /\ sent (answers (Data <$> xs)) = xs.
Proof.
  unfold answers. rewrite messages_data. induction 1 as [|[|c x] xs Hx _ [IH1 IH2]]; [done|done|]. cbn in *. unfold got, sent in *. cbn. by rewrite IH1, IH2.
Qed.

(** C23: of the messages no more are sent than were asked for; [SSL_shutdown] is called once when all
    are sent and never before; the loop is left only when the peer has ended the connection. Where
    nothing is lost, all arrive at the server, come back, and both sides leave their loops. The
    message is the whole length asked for, of which all after the greeting is what the stack held. *)
Theorem client_session len n stack : (0 < n)%nat -> (length greeting + 1 <= len <= length greeting + 1 + length stack)%nat ->
  let m := greeting ++ [0] ++ take (len - length greeting - 1) stack in
  (forall rs ws, budget n (client_run len n stack rs ws).1 /\ ((client_run len n stack rs ws).2 = Done -> Zero ∈ rs)) /\
  exists ces ses,
    client_run len n stack ((Data <$> sent ses) ++ [Zero]) (replicate n Written) = (ces, Done) /\
    connection_loop ((Data <$> sent ces) ++ [Zero]) (replicate n Written) 0 false = (ses, Done) /\
    sent ces = replicate n m /\ got ses = replicate n m /\ sent ses = replicate n m /\ got ces = replicate n m.
Proof.
  intros Hn Hlen m. split.
  - intros rs ws. unfold client_run. destruct (begin_turn _ _ _) as [| |es ws' n'] eqn:E; [split; [apply budget_nil|done]..|].
    destruct (client_loop_ok len rs ws' (greeting ++ [0] ++ stack) n') as [H1 H2]. destruct (client_loop _ _ _ _ _) as [es' e].
    split; [by eapply budget_turn|done].
  - assert (take len (greeting ++ [0] ++ stack) = m) as Hm.
    { unfold m. rewrite take_app_ge; [|lia]. f_equal. destruct (len - length greeting)%nat as [|k] eqn:E; [lia|]. cbn. by rewrite Nat.sub_0_r. }
    destruct n as [|n]; [lia|].
    destruct (client_lossless len n (greeting ++ [0] ++ stack)) as (es & Hr & Hg & Hs); [rewrite !length_app; cbn in *; lia|]. rewrite Hm in Hr, Hg, Hs.
    assert (Forall (fun x => x <> []) (replicate (S n) m)) as Hf by by apply Forall_replicate.
    exists (Sent m :: match n with O => [Shutdown] | _ => [] end ++ es), (answers (Data <$> replicate (S n) m) ++ [Shutdown]).
    assert (forall es, sent (es ++ [Shutdown]) = sent es) as Hs1 by (intros; unfold sent; rewrite omap_app; by rewrite app_nil_r).
    assert (forall es, got (es ++ [Shutdown]) = got es) as Hg1 by (intros; unfold got; rewrite omap_app; by rewrite app_nil_r).
    destruct (answers_full _ Hf) as [Ha1 Ha2]. rewrite Hs1, Hg1, Ha1, Ha2.
    assert (sent (Sent m :: match n with O => [Shutdown] | _ => [] end ++ es) = replicate (S n) m) as Hsc by (transitivity (m :: sent es); [by destruct n|by rewrite Hs]).
    assert (got (Sent m :: match n with O => [Shutdown] | _ => [] end ++ es) = replicate (S n) m) as Hgc by (transitivity (got es); [by destruct n|done]).
    rewrite Hsc, Hgc. split_and!; try done.
    + unfold client_run. rewrite Hm, fmap_replicate. change (replicate (S n) Written) with (Written :: replicate n Written). cbn [begin_turn write]. by rewrite Hr.
    + destruct (loop_quiet (Data <$> replicate (S n) m) [Zero] (S n) 0) as (k' & _ & ->).
      * apply Forall_fmap, Forall_replicate. done.
      * rewrite timeouts_data. unfold max_timeouts. lia.
      * rewrite messages_data, length_replicate. lia.
      * by rewrite timeouts_data.
Qed.

Lemma client_session_witness : exists ces ses,
  client_run 23 2 [7; 8; 9] ((Data <$> sent ses) ++ [Zero]) (replicate 2 Written) = (ces, Done) /\ length (got ses) = 2%nat.
Proof.
  destruct (client_session 23 2 [7; 8; 9]) as (_ & ces & ses & H1 & _ & _ & H2 & _); [lia|cbn; lia|].
  exists ces, ses. rewrite H2. by split.
Defined.
End Echo.
