(* ===== verification/Tls.v ===== *)
(** * Clients and servers over TLS

    src/sock-tls-tcp and the client of src/sock-tls-ctx-tcp, with the printing of certificates
    they share with src/sock-dtls-udp/client. Module [Names]: what is shown of a certificate.
    Module [Client]: setting a client up, which must verify the server's certificate before a
    byte is written, and the conversations of the two clients. Module [Server]: the server for
    one client at a time. What OpenSSL returns is an argument of the definitions. *)
From stdpp Require Import base numbers list gmap strings.
From S2P Require Import Prelude CBase CDecimal CHeap Sock EchoTable LevelServers EchoClient.
Local Open Scope Z_scope.

(** ** Names in certificates *)
Module Names.

Definition NID_commonName : Z := 13.

(** What is seen: lines on standard output and on standard error; strings and lists of names
    that OpenSSL allocates, and their release. *)
Inductive event := Line (x : list Z) | ErrLine (x : list Z) | AllocStr | FreeStr | AllocNames | FreeNames.

Definition labelled (label x : list Z) : event := Line (chars "  " ++ label ++ chars ": " ++ x ++ [10]).
Definition not_available (label : list Z) : event := labelled label (chars "<not available>").

(** A name is a sequence of entries, each with the number of its kind and its data; an
    alternative name is a host or of another kind. *)
Record name_entry (asn1 : Type) := mk_entry { nid : Z; data : option asn1 }.
Arguments mk_entry {_}.
Arguments nid {_}.
Arguments data {_}.
Inductive general_name (asn1 : Type) := DNS (d : asn1) | OtherName (type : Z).
Arguments DNS {_}.
Arguments OtherName {_}.
Record certificate (asn1 : Type) := mk_cert {
  issuer : option (list (name_entry asn1)); subject : option (list (name_entry asn1));
  alt_names : option (list (option (general_name asn1))) }.
Arguments mk_cert {_}.
Arguments issuer {_}.
Arguments subject {_}.
Arguments alt_names {_}.

Section names.
Context {asn1 : Type}.
(** [ASN1_STRING_to_UTF8]: the bytes, of which the length is returned and which a zero byte follows in
    memory, or an error with no string. *)
Variable to_utf8 : asn1 -> Z + list Z.

(** [X509_NAME_get_index_by_NID] from the start. *)
Definition index_by_NID (name : list (name_entry asn1)) (n : Z) : Z :=
  match list_find (fun e => nid e = n) name with Some (i, _) => Z.of_nat i | None => -1 end.

Definition print_cn_name (label : list Z) (name : option (list (name_entry asn1))) : list event :=
  let failed := [not_available label] in
  match name with
  | None => failed
  | Some name =>
      let idx := index_by_NID name NID_commonName in
      if negb (-1 <? idx) then failed
      else match name !! Z.to_nat idx with
      | None => failed
      | Some entry =>
          match data entry with
          | None => failed
          | Some d =>
              match to_utf8 d with
              | inl _ => failed
              | inr utf8 =>
                  if negb (0 <? Z.of_nat (length utf8)) then [AllocStr; FreeStr; not_available label]
                  else [AllocStr; labelled label (c_chars utf8); FreeStr]
              end
          end
      end
  end.

(** The turn for one alternative name: what is seen, and whether the name was shown. *)
Definition print_san_entry (label : list Z) (entry : option (general_name asn1)) : list event * bool :=
  let differ len1 len2 := if len1 =? len2 then [] else
    [ErrLine (chars "  Strlen and ASN1_STRING size do not match (embedded null?): " ++ dec len2 ++ chars " vs " ++ dec len1 ++ [10])] in
  match entry with
  | None => ([], false)
  | Some (OtherName type) => ([ErrLine (chars "  Unknown GENERAL_NAME type: " ++ dec type ++ [10])], false)
  | Some (DNS d) =>
      match to_utf8 d with
      | inl len1 => (differ len1 (-1), false)
      | inr utf8 =>
          let len1 := Z.of_nat (length utf8) in
          let len2 := Z.of_nat (length (c_chars utf8)) in
          let shown := negb (len1 =? 0) && negb (len2 =? 0) && (len1 =? len2) in
          ([AllocStr] ++ differ len1 len2 ++ (if shown then [labelled label (c_chars utf8)] else []) ++ [FreeStr], shown)
      end
  end.

Fixpoint print_san_loop (label : list Z) (names : list (option (general_name asn1))) (success : bool) : list event * bool :=
  match names with
  | [] => ([], success)
  | e :: names' =>
      let '(es, shown) := print_san_entry label e in
      let '(es', success') := print_san_loop label names' (success || shown) in
      (es ++ es', success')
  end.

Definition print_san_name (label : list Z) (cert : option (certificate asn1)) : list event :=
  match cert with
  | None => [not_available label]
  | Some cert =>
      match alt_names cert with
      | None => [not_available label]
      | Some names =>
          let '(es, success) := match names with [] => ([], false) | _ => print_san_loop label names false end in
          [AllocNames] ++ es ++ [FreeNames] ++ (if success then [] else [not_available label])
      end
  end.

Definition X509_V_OK : Z := 0.

Definition error_text (err : Z) : list Z :=
  if err =? 20 then chars "X509_V_ERR_UNABLE_TO_GET_ISSUER_CERT_LOCALLY"
  else if err =? 27 then chars "X509_V_ERR_CERT_UNTRUSTED"
  else if err =? 19 then chars "X509_V_ERR_SELF_SIGNED_CERT_IN_CHAIN"
  else if err =? 9 then chars "X509_V_ERR_CERT_NOT_YET_VALID"
  else if err =? 10 then chars "X509_V_ERR_CERT_HAS_EXPIRED"
  else if err =? X509_V_OK then chars "X509_V_OK"
  else dec err.

(** The callback of the DTLS client, called for a certificate at a depth with what was found
    so far: what is seen, and the verdict. *)
Definition callback_output (word : list Z) (ok depth err : Z) (cert : option (certificate asn1)) : list event :=
  [Line (chars "verify_callback (depth=" ++ dec depth ++ chars ")(" ++ word ++ chars "=" ++ dec ok ++ chars ")" ++ [10])] ++
  print_cn_name (chars "Issuer (cn)") (c ← cert; issuer c) ++
  print_cn_name (chars "Subject (cn)") (c ← cert; subject c) ++
  (if depth =? 0 then print_san_name (chars "Subject (san)") cert else []) ++
  (if ok =? 0 then [Line (chars "  Error = " ++ error_text err ++ [10])] else []).
Definition dtls_verify_callback (ok depth err : Z) (cert : option (certificate asn1)) : list event * Z :=
  (callback_output (chars "ok") ok depth err cert, ok).
(** The callback of the TLS clients, which are built without [NDEBUG]. *)
Definition verify_callback (preverify depth err : Z) (cert : option (certificate asn1)) : list event * Z :=
  (callback_output (chars "preverify") preverify depth err cert, 1).

(** The client of src/sock-tls-tcp has its own copies. *)
Definition plain_print_cn_name := print_cn_name.
Definition plain_print_san_name := print_san_name.
Definition plain_verify_callback := verify_callback.
(** So has that of src/sock-dtls-udp. *)
Definition dtls_print_cn_name := print_cn_name.
Definition dtls_print_san_name := print_san_name.

(** *** Proofs *)

Definition lines (es : list event) : list (list Z) := omap (fun e => match e with Line x => Some x | _ => None end) es.
Definition labelled_line (label x : list Z) : list Z := chars "  " ++ label ++ chars ": " ++ x ++ [10].

(** The hosts among alternative names that are not empty and have no zero byte within. *)
Definition host (e : option (general_name asn1)) : option (list Z) :=
  match e with
  | Some (DNS d) => match to_utf8 d with inr x => if bool_decide (x <> [] /\ no_nul x) then Some x else None | inl _ => None end
  | _ => None
  end.
Definition hosts (names : list (option (general_name asn1))) : list (list Z) := omap host names.

(** Strings and lists that are allocated and not yet released; [None] for a release of something that is not there. *)
Fixpoint outstanding (es : list event) (strs lists : nat) : option (nat * nat) :=
  match es with
  | [] => Some (strs, lists)
  | AllocStr :: es' => outstanding es' (S strs) lists
  | FreeStr :: es' => match strs with O => None | S n => outstanding es' n lists end
  | AllocNames :: es' => outstanding es' strs (S lists)
  | FreeNames :: es' => match lists with O => None | S n => outstanding es' strs n end
  | _ :: es' => outstanding es' strs lists
  end.

Lemma outstanding_app es es' n l n' l' : outstanding es n l = Some (n', l') -> outstanding (es ++ es') n l = outstanding es' n' l'.
Proof.
  revert n l. induction es as [|e es IH]; intros n l; cbn; [by intros [= -> ->]|].
  destruct e; try apply IH; [destruct n|destruct l]; (apply IH || done).
Qed.

Lemma full_c_chars x : length (c_chars x) = length x <-> no_nul x.
Proof.
  split; [|by intros H; rewrite c_chars_none].
  induction x as [|a x IH]; [intros; constructor|]. cbn. destruct (a =? 0) eqn:E; [done|]. intros [= H]. constructor; [lia|by apply IH].
Qed.

Lemma san_entry label e : lines (print_san_entry label e).1 = match host e with Some x => [labelled_line label x] | None => [] end /\
  (print_san_entry label e).2 = bool_decide (is_Some (host e)) /\ forall n l, outstanding (print_san_entry label e).1 n l = Some (n, l).
Proof.
  destruct e as [[d|t]|]; cbn; [|done..]. destruct (to_utf8 d) as [z|x]; [by destruct (z =? -1)|]. cbn.
  case_bool_decide as H.
  - destruct H as [Hx Hn]. rewrite (c_chars_none _ Hn). rewrite Z.eqb_refl. destruct x as [|a x]; [done|]. done.
  - destruct (decide (x = [])) as [->|Hx]; [done|].
    assert ((Z.of_nat (length x) =? Z.of_nat (length (c_chars x))) = false) as ->.
    { apply Z.eqb_neq. intros E%Nat2Z.inj. apply H. split; [done|]. by apply full_c_chars. }
    rewrite andb_false_r. done.
Qed.

Lemma san_loop label names b : lines (print_san_loop label names b).1 = labelled_line label <$> hosts names /\
  (print_san_loop label names b).2 = (b || bool_decide (hosts names <> [])) /\ forall n l, outstanding (print_san_loop label names b).1 n l = Some (n, l).
Proof.
  revert b. induction names as [|e names IH]; intros b; [by rewrite orb_false_r|]. cbn.
  destruct (san_entry label e) as (H1 & H2 & H3). destruct (print_san_entry label e) as [es s]. cbn in H1, H2, H3. subst s.
  destruct (IH (b || bool_decide (is_Some (host e)))) as (I1 & I2 & I3). destruct (print_san_loop _ _ _) as [es' s']. cbn in I1, I2, I3 |- *. subst s'.
  split_and!.
  - unfold lines in *. rewrite omap_app, H1, I1. unfold hosts. cbn. by destruct (host e).
  - unfold hosts. cbn. destruct (host e); cbn; [by rewrite orb_true_r|by rewrite orb_false_r].
  - intros n l. by erewrite outstanding_app by apply H3.
Qed.

(** The first common name, if it has data that can be converted and is not empty. *)
Definition common_name (name : option (list (name_entry asn1))) : option (list Z) :=
  es ← name; f ← list_find (fun e => nid e = NID_commonName) es; d ← data f.2;
  match to_utf8 d with inr (a :: x) => Some (a :: x) | _ => None end.
(** The line for it: its characters up to a zero byte within. *)
Definition name_line (label : list Z) (name : option (list (name_entry asn1))) : list Z :=
  labelled_line label (match common_name name with Some x => c_chars x | None => chars "<not available>" end).
(** The lines for the alternative names. *)
Definition host_lines (label : list Z) (cert : option (certificate asn1)) : list (list Z) :=
  match c ← cert; names ← alt_names c; match hosts names with [] => None | hs => Some hs end with
  | Some hs => labelled_line label <$> hs
  | None => [labelled_line label (chars "<not available>")]
  end.

Lemma cn_name label name : lines (print_cn_name label name) = [name_line label name] /\
  forall n l, outstanding (print_cn_name label name) n l = Some (n, l).
Proof.
  unfold print_cn_name, name_line, common_name, index_by_NID. destruct name as [es|]; [|done]. cbn [mbind option_bind].
  destruct (list_find _ es) as [[i e]|] eqn:E; [|done]. assert ((-1 <? Z.of_nat i) = true) as -> by (apply Z.ltb_lt; lia). cbn [negb mbind option_bind snd].
  rewrite Nat2Z.id. apply list_find_Some in E as (-> & _). destruct (data e) as [d|]; [|done]. cbn [mbind option_bind].
  by destruct (to_utf8 d) as [z|[|a x]].
Qed.
Lemma san_name label cert : lines (print_san_name label cert) = host_lines label cert /\
  forall n l, outstanding (print_san_name label cert) n l = Some (n, l).
Proof.
  unfold print_san_name, host_lines. destruct cert as [c|]; [|done]. cbn [mbind option_bind]. destruct (alt_names c) as [names|]; [|done].
  cbn [mbind option_bind]. destruct names as [|e names]; [done|].
  destruct (san_loop label (e :: names) false) as (H1 & H2 & H3). destruct (print_san_loop _ (e :: names) false) as [es' s].
  cbn [fst snd orb] in H1, H2, H3. subst s. unfold lines in *. split.
  - rewrite !omap_app, H1. destruct (hosts (e :: names)) as [|h hs]; [by rewrite bool_decide_false by (intros H; by apply H)|].
    rewrite bool_decide_true by done. cbn. by rewrite app_nil_r.
  - intros n l. cbn [app outstanding]. rewrite (outstanding_app _ _ _ _ _ _ (H3 n (S l))). by case_bool_decide.
Qed.

(** The lines of a callback. *)
Definition callback_lines (word : list Z) (ok depth err : Z) (cert : option (certificate asn1)) : list (list Z) :=
  [chars "verify_callback (depth=" ++ dec depth ++ chars ")(" ++ word ++ chars "=" ++ dec ok ++ chars ")" ++ [10];
   name_line (chars "Issuer (cn)") (c ← cert; issuer c); name_line (chars "Subject (cn)") (c ← cert; subject c)] ++
  (if depth =? 0 then host_lines (chars "Subject (san)") cert else []) ++
  (if ok =? 0 then [chars "  Error = " ++ error_text err ++ [10]] else []).
Lemma callback_shows word ok depth err cert : lines (callback_output word ok depth err cert) = callback_lines word ok depth err cert /\
  outstanding (callback_output word ok depth err cert) 0 0 = Some (0%nat, 0%nat).
Proof.
  unfold callback_output, callback_lines. destruct (cn_name (chars "Issuer (cn)") (c ← cert; issuer c)) as [I1 I2].
  destruct (cn_name (chars "Subject (cn)") (c ← cert; subject c)) as [S1 S2]. destruct (san_name (chars "Subject (san)") cert) as [A1 A2]. unfold lines in *. split.
  - rewrite !omap_app, I1, S1. cbn [app omap list_omap]. do 3 f_equal. destruct (depth =? 0), (ok =? 0); by rewrite ?A1.
  - cbn [app outstanding]. rewrite (outstanding_app _ _ _ _ _ _ (I2 _ _)), (outstanding_app _ _ _ _ _ _ (S2 _ _)).
    destruct (depth =? 0); [rewrite (outstanding_app _ _ _ _ _ _ (A2 _ _))|]; by destruct (ok =? 0).
Qed.

(** C40: what the callbacks show of a certificate, line by line: the depth and what was found so
    far; of issuer and subject one line each, with the first common name up to a zero byte in it, or that
    there is none; for a server's own certificate all hosts among its alternative names that are not
    empty and have no zero byte, in order, or one line when there are none; and the error, if
    there is one. All OpenSSL allocated is released once. The DTLS client's callback keeps the verdict;
    that of the TLS clients accepts every certificate. *)
Theorem names_are_shown ok depth err cert :
  lines (dtls_verify_callback ok depth err cert).1 = callback_lines (chars "ok") ok depth err cert /\
  lines (verify_callback ok depth err cert).1 = callback_lines (chars "preverify") ok depth err cert /\
  outstanding (dtls_verify_callback ok depth err cert).1 0 0 = Some (0%nat, 0%nat) /\
  outstanding (verify_callback ok depth err cert).1 0 0 = Some (0%nat, 0%nat) /\
  (dtls_verify_callback ok depth err cert).2 = ok /\ (verify_callback ok depth err cert).2 = 1 /\
  (forall label name x, common_name name = Some x -> no_nul x -> name_line label name = labelled_line label x).
Proof.
  destruct (callback_shows (chars "ok") ok depth err cert) as [D1 D2], (callback_shows (chars "preverify") ok depth err cert) as [T1 T2].
  split_and!; try done. intros label name x Hx Hn. unfold name_line. by rewrite Hx, c_chars_none.
Qed.
End names.
End Names.

(** ** The clients *)
Module Client.

(** What is seen of a client: objects made and released, messages on standard error, what it
    writes to the connection and shows. *)
Inductive object := Ctx | Web | Out.
Inductive event := Made (o : object) | Freed (o : object) | Told (label : list Z) | Wrote (x : list Z) | Printed (x : list Z).
(** How it ends: by a failed assertion, by returning, or not so far. *)
Inductive ending := Trapped | Returned (ret : Z) | Running.
Definition run : Type := res (list event * ending).

Definition ASSERT (x : bool) (k : run) : run := if x then k else Ok ([], Trapped).
(** What is released at the end of [main]. *)
Definition cleanup (objs : list object) (ret : Z) : run := Ok (Freed <$> objs, Returned ret).
Definition seen (es : list event) (k : run) : run := r ← k; Ok (es ++ r.1, r.2).
(** [ASSERT(x); if(!x) { print_error_string(..., label); break; }] with what has been made. *)
Definition checked (x : bool) (label : list Z) (objs : list object) (k : run) : run :=
  ASSERT x (if negb x then seen [Told label] (cleanup objs 1) else k).

(** What the calls of the set-up return: whether there is a pointer, or the number. *)
Record calls := mk_calls {
  method : bool; ctx : bool; verify_locations : Z; web : bool; conn_hostname : Z; ssl : bool; cipher_list : Z;
  tlsext_host_name : Z; out : bool; peer_certificate : bool; verify_result : Z }.

(** The steps of connecting. *)
Fixpoint connecting (steps : list (Z * list Z)) (k : run) : run :=
  match steps with
  | [] => k
  | (res, label) :: steps' => checked (1 =? res) label [Out; Web; Ctx] (connecting steps' k)
  end.

(** The conversation [chat] says whether it ended. *)
Definition client_main (o : calls) (steps : list (Z * list Z)) (chat : res (list event * bool)) : run :=
  checked (method o) (chars "SSLv23_method") [] $
  checked (ctx o) (chars "SSL_CTX_new") [] $ seen [Made Ctx] $
  checked (1 =? verify_locations o) (chars "SSL_CTX_load_verify_locations") [Ctx] $
  checked (web o) (chars "BIO_new_ssl_connect") [Ctx] $ seen [Made Web] $
  checked (1 =? conn_hostname o) (chars "BIO_set_conn_hostname") [Web; Ctx] $
  checked (ssl o) (chars "BIO_get_ssl") [Web; Ctx] $
  checked (1 =? cipher_list o) (chars "SSL_set_cipher_list") [Web; Ctx] $
  checked (1 =? tlsext_host_name o) (chars "SSL_set_tlsext_host_name") [Web; Ctx] $
  checked (out o) (chars "BIO_new_fp") [Web; Ctx] $ seen [Made Out] $
  connecting steps $
  checked (peer_certificate o) (chars "SSL_get_peer_certificate") [Out; Web; Ctx] $
  checked (Names.X509_V_OK =? verify_result o) (chars "SSL_get_verify_results") [Out; Web; Ctx] $
  (c ← chat; seen c.1 (if (c.2 : bool) then cleanup [Out; Web; Ctx] 0 else Ok ([], Running))).

(** *** The client of src/sock-tls-tcp *)

(** What a read finds: some bytes, or none with whether to try again. *)
Inductive answer := Bytes (x : list Z) | Nothing (retry : bool).
Definition prompt : list Z := chars "client message : ".

(** The conversation, to where it waits for an answer. *)
Fixpoint plain_chat (answers : list answer) (input : list Z) : res (list event * bool) :=
  let line := chunk 1023 input in
  let asked := [Printed prompt; Wrote (padded MAX_BUFF line)] in
  match answers with
  | [] => Ok (asked, false)
  | a :: answers' =>
      let x := match a with Bytes x => take MAX_BUFF x | Nothing _ => [] end in
      t ← text_of (padded MAX_BUFF x);
      let more := match a with Bytes _ => bool_decide (x <> []) | Nothing retry => retry end in
      if more then
        r ← plain_chat answers' (drop (length line) input);
        Ok (asked ++ [Printed (t ++ [10])] ++ r.1, r.2)
      else Ok (asked ++ [Printed (t ++ [10])], true)
  end.

Definition plain_main (o : calls) (do_connect do_handshake : Z) (answers : list answer) (input : list Z) : run :=
  client_main o [(do_connect, chars "BIO_do_connect"); (do_handshake, chars "BIO_do_handshake")] (plain_chat answers input).

(** *** The client of src/sock-tls-ctx-tcp *)

Definition timeout_limit : Z := 3000.

(** A call that is made again as long as it can only be done later: its first result, the time then,
    and for each further turn the time and the result of trying again. *)
Record trial (A : Type) := mk_trial { first : A; since : Z * Z; more : list ((Z * Z) * A) }.
Arguments mk_trial {_}.
Arguments first {_}.
Arguments since {_}.
Arguments more {_}.
Inductive wres := WOk | WRetry | WFail.
Inductive rres := ROk (x : list Z) | RRetry | RFail.

(** The last result, whether time ran out, and the milliseconds of all turns; [None]: still
    trying. *)
Fixpoint retry_loop {A} (should_retry : A -> bool) (now : Z * Z) (r : A) (turns : list ((Z * Z) * A)) : option (A * bool * list Z) :=
  if should_retry r then
    match turns with
    | [] => None
    | (t, r') :: turns' =>
        let ms := Dial.ms_until_deadline now t in
        if timeout_limit <? ms then Some (r, true, [ms])
        else z ← retry_loop should_retry now r' turns'; Some (z.1, ms :: z.2)
    end
  else Some (r, false, []).
Definition retried {A} (should_retry : A -> bool) (t : trial A) := retry_loop should_retry (since t) (first t) (more t).

Definition write_should_retry (r : wres) : bool := match r with WRetry => true | _ => false end.
Definition read_should_retry (r : rres) : bool := match r with RRetry => true | _ => false end.

(** One turn: the events and the rest of the input; [None]: in one of its loops. *)
Definition ctx_turn (w : trial wres) (r : trial rres) (input : list Z) : res (option (list event * list Z)) :=
  let line := chunk 1023 input in
  match retried write_should_retry w with
  | None => Ok None
  | Some (w', late, mss) =>
      let es := [Printed prompt] ++ ((fun ms => Printed (dec ms ++ [10])) <$> mss) ++
        (match w' with WOk => [Wrote (padded MAX_BUFF line)] | _ => [] end) ++ (if (late : bool) then [Printed (chars "write timeout" ++ [10])] else []) in
      match retried read_should_retry r with
      | None => Ok None
      | Some (r', late, _) =>
          if (late : bool) then Ok (Some (es ++ [Printed (chars "read timeout" ++ [10])], drop (length line) input))
          else
            t ← text_of (padded MAX_BUFF (match r' with ROk x => take MAX_BUFF x | _ => [] end));
            Ok (Some (es ++ [Printed (t ++ [10])], drop (length line) input))
      end
  end.

(** The conversation, which does not end. *)
Fixpoint ctx_chat (turns : list (trial wres * trial rres)) (input : list Z) : res (list event * bool) :=
  match turns with
  | [] => Ok ([], false)
  | (w, r) :: turns' =>
      z ← ctx_turn w r input;
      match z with
      | None => Ok ([], false)
      | Some (es, input') => r ← ctx_chat turns' input'; Ok (es ++ r.1, r.2)
      end
  end.

Definition ctx_main (o : calls) (do_connect_retry : Z) (turns : list (trial wres * trial rres)) (input : list Z) : run :=
  client_main o [(do_connect_retry, chars "BIO_do_connect_retry")] (ctx_chat turns input).

(** *** Proofs *)

(** Everything the set-up asks for. *)
Definition all_well (o : calls) (steps : list (Z * list Z)) : Prop :=
  method o = true /\ ctx o = true /\ verify_locations o = 1 /\ web o = true /\ conn_hostname o = 1 /\ ssl o = true /\ cipher_list o = 1 /\
  tlsext_host_name o = 1 /\ out o = true /\ Forall (fun s => s.1 = 1) steps /\ peer_certificate o = true /\ verify_result o = Names.X509_V_OK.

Lemma checked_cases x label objs k : checked x label objs k = if x then k else Ok ([], Trapped).
Proof. by destruct x. Qed.
Lemma connecting_cases steps k : connecting steps k = if decide (Forall (fun s => s.1 = 1) steps) then k else Ok ([], Trapped).
Proof.
  induction steps as [|[r l] steps IH]; [by rewrite decide_True|]. cbn [connecting]. rewrite checked_cases, IH.
  destruct (Z.eqb_spec 1 r) as [<-|Hr].
  - destruct (decide (Forall _ steps)); [by rewrite decide_True by (by constructor)|]. rewrite decide_False; [done|]. by intros [_ ?]%Forall_cons.
  - rewrite decide_False; [done|]. intros [? _]%Forall_cons. by apply Hr.
Qed.

Definition made : list event := [Made Ctx; Made Web; Made Out].

Lemma client_runs o steps chat : all_well o steps -> client_main o steps chat =
  (c ← chat; Ok (made ++ c.1 ++ (if (c.2 : bool) then [Freed Out; Freed Web; Freed Ctx] else []), if (c.2 : bool) then Returned 0 else Running)).
Proof.
  intros (H1 & H2 & H3 & H4 & H5 & H6 & H7 & H8 & H9 & H & H10 & H11). unfold client_main. rewrite !checked_cases, connecting_cases.
  rewrite H1, H2, H3, H4, H5, H6, H7, H8, H9, H10, H11, decide_True by done. cbn.
  destruct chat as [[es b]|]; [|done]. cbn. by destruct b; cbn; rewrite ?app_nil_r.
Qed.

(** C35: a client writes to the connection only after every step of its set-up succeeded, the
    verification of the server's certificate the last: it then makes its conversation, and
    releases what it made, once each, if that ends. If a step fails the program ends at once by its
    assertion: nothing is written, and the messages and releases provided for that case do not happen. *)
Theorem client_verifies_first o steps chat :
  (all_well o steps -> client_main o steps chat =
     (c ← chat; Ok (made ++ c.1 ++ (if (c.2 : bool) then [Freed Out; Freed Web; Freed Ctx] else []), if (c.2 : bool) then Returned 0 else Running))) /\
  (~ all_well o steps -> exists es, client_main o steps chat = Ok (es, Trapped) /\ es `prefix_of` made).
Proof.
  split; [apply client_runs|]. unfold client_main. rewrite !checked_cases, connecting_cases.
  - intros Hn. unfold all_well in Hn.
    destruct (method o); [|by exists []; split; [|apply prefix_nil]]. destruct (ctx o); [|by exists []; split; [|apply prefix_nil]].
    destruct (Z.eqb_spec 1 (verify_locations o)) as [H1|]; [|exists [Made Ctx]; split; [done|by exists [Made Web; Made Out]]].
    destruct (web o); [|exists [Made Ctx]; split; [done|by exists [Made Web; Made Out]]].
    assert (forall k, k = Ok ([], Trapped) -> exists es, seen [Made Ctx] (seen [Made Web] k) = Ok (es, Trapped) /\ es `prefix_of` made) as Hweb.
    { intros k ->. exists [Made Ctx; Made Web]. split; [done|by exists [Made Out]]. }
    destruct (Z.eqb_spec 1 (conn_hostname o)) as [H2|]; [|by apply Hweb]. destruct (ssl o); [|by apply Hweb].
    destruct (Z.eqb_spec 1 (cipher_list o)) as [H3|]; [|by apply Hweb]. destruct (Z.eqb_spec 1 (tlsext_host_name o)) as [H4|]; [|by apply Hweb].
    destruct (out o); [|by apply Hweb]. exists made. split; [|done].
    case_decide; [|done]. destruct (peer_certificate o); [|done]. destruct (Z.eqb_spec Names.X509_V_OK (verify_result o)) as [H5|]; [|done].
    exfalso. by apply Hn; split_and!.
Qed.

(** How a repeated call ends: with a result that needs no further try, or with the first turn
    that is too late. *)
Inductive ends {A} (should_retry : A -> bool) (now : Z * Z) : A -> list ((Z * Z) * A) -> A -> bool -> Prop :=
  | EndsDone r ts : should_retry r = false -> ends should_retry now r ts r false
  | EndsLate r t r' ts : should_retry r = true -> timeout_limit < Dial.ms_until_deadline now t -> ends should_retry now r ((t, r') :: ts) r true
  | EndsAgain r t r' ts z late : should_retry r = true -> Dial.ms_until_deadline now t <= timeout_limit -> ends should_retry now r' ts z late ->
      ends should_retry now r ((t, r') :: ts) z late.

Lemma retry_loop_ends {A} (should_retry : A -> bool) now r ts z late : ends should_retry now r ts z late ->
  exists mss, retry_loop should_retry now r ts = Some (z, late, mss).
Proof.
  induction 1 as [r ts H|r t r' ts H Hl|r t r' ts z late H Hl _ [mss IH]].
  - exists []. destruct ts; cbn; by rewrite H.
  - eexists. cbn. rewrite H. by rewrite (proj2 (Z.ltb_lt _ _) Hl).
  - eexists. cbn. rewrite H, (proj2 (Z.ltb_ge _ _) Hl), IH. done.
Qed.

(** A clock reading past the limit ends the repetition, at the latest. *)
Lemma some_end {A} (should_retry : A -> bool) now r ts : (exists p, p ∈ ts /\ timeout_limit < Dial.ms_until_deadline now p.1) ->
  exists z late, ends should_retry now r ts z late.
Proof.
  intros (p & Hp & Hl). revert r. induction Hp as [[t x] ts|p [t x] ts Hp IH]; intros r.
  - destruct (should_retry r) eqn:E; eauto using @ends.
  - destruct (IH Hl x) as (z & b & H). destruct (should_retry r) eqn:E; [|eauto using @ends].
    destruct (decide (timeout_limit < Dial.ms_until_deadline now t)); [eauto using @ends|]. exists z, b. apply EndsAgain; [done|lia|done].
Qed.

Lemma ctx_chat_goes_on turns input es b : ctx_chat turns input = Ok (es, b) -> b = false.
Proof.
  revert input es. induction turns as [|[w r] turns IH]; intros input es; cbn; [by intros [= _ <-]|].
  destruct (ctx_turn w r input) as [[[es' input']|]|]; cbn; [|by intros [= _ <-]|done].
  destruct (ctx_chat turns input') as [[es'' b']|] eqn:E; [|done]. cbn. intros [= _ <-]. by eapply IH.
Qed.

(** The client that waits no longer than three seconds: a reply found in time is shown after
    its line was written, once; when none is, that is said; a turn comes to its end as soon as a clock
    reading of each loop is past the limit. The program itself never returns, whatever the reads
    and writes give, and so never releases anything. *)
Theorem ctx_client_waits o do_connect_retry w r input (line := chunk 1023 input) :
  ((exists p, p ∈ more w /\ timeout_limit < Dial.ms_until_deadline (since w) p.1) -> (exists p, p ∈ more r /\ timeout_limit < Dial.ms_until_deadline (since r) p.1) ->
     forall z, ctx_turn w r input = Ok z -> z <> None) /\
  (forall x, ends write_should_retry (since w) (first w) (more w) WOk false -> ends read_should_retry (since r) (first r) (more r) (ROk x) false ->
     (length x <= MAX_BUFF)%nat -> (length (c_chars x) < MAX_BUFF)%nat -> exists mss,
     ctx_turn w r input = Ok (Some ([Printed prompt] ++ ((fun ms => Printed (dec ms ++ [10])) <$> mss) ++ [Wrote (padded MAX_BUFF line); Printed (c_chars x ++ [10])], drop (length line) input))) /\
  (forall x, ends write_should_retry (since w) (first w) (more w) WOk false -> ends read_should_retry (since r) (first r) (more r) x true -> exists mss,
     ctx_turn w r input = Ok (Some ([Printed prompt] ++ ((fun ms => Printed (dec ms ++ [10])) <$> mss) ++ [Wrote (padded MAX_BUFF line); Printed (chars "read timeout" ++ [10])], drop (length line) input))) /\
  (forall turns x es e, ctx_main o do_connect_retry turns x = Ok (es, e) -> e = Trapped \/ e = Running).
Proof.
  split_and!.
  - intros Hw Hr z. destruct (some_end write_should_retry _ (first w) _ Hw) as (w' & b & [m1 H1]%retry_loop_ends).
    destruct (some_end read_should_retry _ (first r) _ Hr) as (r' & b' & [m2 H2]%retry_loop_ends). unfold ctx_turn, retried. rewrite H1, H2.
    destruct b'; [by intros [= <-]|]. destruct (text_of _); [|done]. by intros [= <-].
  - intros x [m1 H1]%retry_loop_ends [m2 H2]%retry_loop_ends Hx Hc. exists m1. unfold ctx_turn, retried. rewrite H1, H2.
    unfold text_of. rewrite take_ge, c_string_padded by done. cbn [mbind res_bind]. by rewrite <- !app_assoc.
  - intros x [m1 H1]%retry_loop_ends [m2 H2]%retry_loop_ends. exists m1. unfold ctx_turn, retried. rewrite H1, H2. by rewrite <- !app_assoc.
  - intros turns x es e. unfold ctx_main, client_main. rewrite !checked_cases, connecting_cases.
    destruct (ctx_chat turns x) as [[ces b]|] eqn:E; [apply ctx_chat_goes_on in E as ->|];
      repeat case_match; cbn; intros; simplify_eq; auto.
Qed.
End Client.

(** ** The server of src/sock-tls-tcp *)
Module Server.
Import Client.

(** One turn after a read that found [bs] ([[]] also when it failed): what is shown, what is
    written, and whether it is the last. *)
Definition comm_turn (bs : list Z) : res (list Z * list Z * bool) :=
  let rbuff := padded MAX_BUFF bs in
  x ← text_of rbuff;
  wbuff ← reply SERVER_RESP bs;
  let ending := says_exit rbuff in
  Ok (chars "client message: " ++ x ++ [10] ++ (if ending then chars "server exit" ++ [10] else []), wbuff, ending).

(** All that is shown and written for the reads of a connection, and whether it was ended. *)
Fixpoint comm (reads : list (list Z)) : res (list Z * list (list Z) * bool) :=
  match reads with
  | [] => Ok ([], [], false)
  | bs :: reads' =>
      t ← comm_turn (take MAX_BUFF bs);
      if (t.2 : bool) then Ok (t.1.1, [t.1.2], true)
      else r ← comm reads'; Ok (t.1.1 ++ r.1.1, t.1.2 :: r.1.2, r.2)
  end.

(** Who comes: [accept] fails, the handshake fails, or there is a conversation. *)
Inductive visitor := AcceptFails | HandshakeFails | Talks (reads : list (list Z)).
Inductive sevent := Shown (x : list Z) | Sent (x : list Z) | SslFreed | ClientClosed | Listened.
Inductive sending := Exited (status : Z) | Returns (z : Z) | Waiting.

Definition EXIT_FAILURE : Z := 1.
(** The outcomes of [socket], [bind] and [listen]. *)
Definition create_socket (s b l : Z) : Z + Z :=
  if s <? 0 then inl EXIT_FAILURE else if b <? 0 then inl EXIT_FAILURE else if l <? 0 then inl EXIT_FAILURE else inr s.
Definition create_context (made : bool) : Z + unit := if negb made then inl EXIT_FAILURE else inr tt.
Definition configure_context (certificate key : Z) : Z + unit :=
  if certificate <=? 0 then inl EXIT_FAILURE else if key <=? 0 then inl EXIT_FAILURE else inr tt.

Fixpoint serve (vs : list visitor) : res (list sevent * sending) :=
  match vs with
  | [] => Ok ([], Waiting)
  | AcceptFails :: _ => Ok ([], Exited EXIT_FAILURE)
  | HandshakeFails :: _ => Ok ([], Returns (-1))
  | Talks reads :: vs' =>
      t ← comm reads;
      let es := [Shown t.1.1] ++ (Sent <$> t.1.2) in
      if (t.2 : bool) then r ← serve vs'; Ok (es ++ [SslFreed; ClientClosed] ++ r.1, r.2)
      else Ok (es, Waiting)
  end.

Definition server_main (made : bool) (certificate key s b l : Z) (vs : list visitor) : res (list sevent * sending) :=
  match create_context made with
  | inl z => Ok ([], Exited z)
  | inr _ =>
      match configure_context certificate key with
      | inl z => Ok ([], Exited z)
      | inr _ => match create_socket s b l with inl z => Ok ([], Exited z) | inr _ => r ← serve vs; Ok (Listened :: r.1, r.2) end
      end
  end.

(** *** Proofs *)

(** What the server shows for a line. *)
Definition shows (l : list Z) : list Z := chars "client message: " ++ l ++ [10].
Definition answered (l : list Z) : list Z := padded MAX_BUFF (SERVER_RESP ++ l).
Definition fits (l : list Z) : Prop := no_nul l /\ (length l <= 1010)%nat.
(** A line that ends the server's conversation. *)
Definition last_line (l : list Z) : Prop := take 4 (padded MAX_BUFF l) = chars "exit".

Lemma padded_padded n x : (length x <= n)%nat -> padded n (padded n x) = padded n x.
Proof. intros H. unfold padded at 1. rewrite length_padded, Nat.sub_diag by done. apply app_nil_r. Qed.

Lemma comm_turn_line l : fits l -> comm_turn (take MAX_BUFF (padded MAX_BUFF l)) =
  Ok (shows l ++ (if says_exit (padded MAX_BUFF l) then chars "server exit" ++ [10] else []), answered l, says_exit (padded MAX_BUFF l)).
Proof.
  intros [Hn Hl]. assert (length (padded MAX_BUFF l) = MAX_BUFF) as Hlen by (apply length_padded; unfold MAX_BUFF; lia).
  rewrite take_ge by (by rewrite Hlen). unfold comm_turn, text_of. rewrite padded_padded by (unfold MAX_BUFF; lia).
  rewrite c_string_padded, c_chars_none by (rewrite ?c_chars_none by done; unfold MAX_BUFF; done || lia).
  cbn [mbind res_bind]. fold (response (padded MAX_BUFF l)).
  rewrite response_ok, Chat.answer_line by (rewrite ?Hlen, ?c_chars_padded, ?c_chars_none by done; done || lia).
  unfold shows, answered. cbn [mbind res_bind]. by rewrite <- !app_assoc.
Qed.

Lemma comm_lines ls rest : Forall fits ls -> Forall (fun l => ~ last_line l) ls ->
  comm ((padded MAX_BUFF <$> ls) ++ rest) = (r ← comm rest; Ok ((ls ≫= shows) ++ r.1.1, (answered <$> ls) ++ r.1.2, r.2)).
Proof.
  intros Hf Hn. induction ls as [|l ls IH].
  - cbn. by destruct (comm rest) as [[[] ?]|].
  - apply Forall_cons in Hf as [Hl Hf], Hn as [Hnl Hn]. cbn [fmap list_fmap app comm]. rewrite comm_turn_line by done.
    assert (says_exit (padded MAX_BUFF l) = false) as -> by (by apply bool_decide_false). cbn [mbind res_bind fst snd].
    change (list_fmap _ _ (padded MAX_BUFF) ls) with (padded MAX_BUFF <$> ls). rewrite IH by done.
    destruct (comm rest) as [[[a b] c]|]; [|done]. cbn. by rewrite app_nil_r, <- !app_assoc.
Qed.

Lemma comm_last l : fits l -> last_line l -> forall rest,
  comm (padded MAX_BUFF l :: rest) = Ok (shows l ++ chars "server exit" ++ [10], [answered l], true).
Proof.
  intros Hf Hl rest. cbn [comm]. rewrite comm_turn_line by done. assert (says_exit (padded MAX_BUFF l) = true) as -> by (by apply bool_decide_true). done.
Qed.

(** The client shows the answer to a line. *)
Definition talked (ls : list (list Z)) : list event :=
  ls ≫= (fun l => [Printed prompt; Wrote (padded MAX_BUFF l); Printed (SERVER_RESP ++ l ++ [10])]).

Lemma chat_lines n x rest : no_nul x -> Forall (fun l => (length l <= 1010)%nat) (Chat.lines n x) ->
  plain_chat ((Bytes ∘ answered <$> Chat.lines n x) ++ rest) x =
    (r ← plain_chat rest (drop (length (concat (Chat.lines n x))) x); Ok (talked (Chat.lines n x) ++ r.1, r.2)).
Proof.
  revert x. induction n as [|n IH]; intros x Hx Hl.
  - cbn [Chat.lines fmap list_fmap app concat length talked mbind list_bind]. rewrite drop_0. by destruct (plain_chat rest x) as [[]|].
  - cbn [Chat.lines] in *. set (l := chunk 1023 x) in *. apply Forall_cons in Hl as [Hl Hls].
    assert (no_nul l) as Hnl by (by apply chunk_no_nul).
    assert (length (answered l) = MAX_BUFF) as Hlen by (apply length_padded; rewrite length_app; change (length SERVER_RESP) with 13%nat; unfold MAX_BUFF; lia).
    assert (no_nul (SERVER_RESP ++ l)) as Hna by (by apply Forall_app; split; [apply no_nul_resp|]).
    rewrite fmap_cons. change ((Bytes ∘ answered) l) with (Bytes (answered l)). cbn [app plain_chat]. fold l. rewrite (take_ge (answered l)) by (by rewrite Hlen).
    assert (text_of (padded MAX_BUFF (answered l)) = Ok (SERVER_RESP ++ l)) as ->.
    { unfold text_of, answered. rewrite padded_padded by (rewrite length_app; change (length SERVER_RESP) with 13%nat; unfold MAX_BUFF; lia).
      by rewrite c_string_padded, c_chars_none by (rewrite ?c_chars_none by done; rewrite ?length_app; change (length SERVER_RESP) with 13%nat; unfold MAX_BUFF; done || lia). }
    cbn [mbind res_bind]. rewrite bool_decide_true by (intros E; rewrite E in Hlen; done).
    rewrite IH; [|by apply Forall_drop|done]. cbn [concat]. rewrite length_app, drop_drop.
    destruct (plain_chat rest _) as [[es b]|]; [|done]. cbn [mbind res_bind fst snd]. unfold talked. by rewrite bind_cons, <- !app_assoc.
Qed.

Lemma lines_fit k x : no_nul x -> Forall (fun l => (length l <= 1010)%nat) (Chat.lines k x) -> Forall fits (Chat.lines k x).
Proof.
  revert x. induction k as [|k IH]; intros x Hx Hl; [constructor|].
  cbn [Chat.lines] in *. apply Forall_cons in Hl as [H1 H2]. constructor; [split; [by apply chunk_no_nul|done]|]. apply IH; [by apply Forall_drop|done].
Qed.
Lemma length_lines k x : length (Chat.lines k x) = k.
Proof. revert x. induction k; intros x; cbn; auto. Qed.

(** What a client writes to the connection. *)
Definition writes (es : list event) : list (list Z) := omap (fun e => match e with Wrote x => Some x | _ => None end) es.
(** A whole conversation of the client, which sees [ec], with the server, which shows [sh] and
    sends [ans]: the server reads what the client writes and ends the conversation; the client
    reads what the server sends, and then the end of the connection. *)
Definition conversation (o : calls) (x : list Z) (ec : list event) (sh : list Z) (ans : list (list Z)) : Prop :=
  plain_main o 1 1 ((Bytes <$> ans) ++ [Nothing false]) x = Ok (ec, Returned 0) /\ comm (writes ec) = Ok (sh, ans, true).

(** The client after its last answer: one more line, and the end of the connection. *)
Definition parting (y : list Z) : list event := [Printed prompt; Wrote (padded MAX_BUFF (chunk 1023 y)); Printed [10]].

Lemma writes_talked ls : writes (talked ls) = padded MAX_BUFF <$> ls.
Proof. unfold writes. induction ls as [|l ls IH]; [done|]. cbn. by f_equal. Qed.
Lemma plain_main_runs o rs x : all_well o [] -> plain_main o 1 1 rs x =
  (c ← plain_chat rs x; Ok (made ++ c.1 ++ (if (c.2 : bool) then [Freed Out; Freed Web; Freed Ctx] else []), if (c.2 : bool) then Returned 0 else Running)).
Proof.
  intros (? & ? & ? & ? & ? & ? & ? & ? & ? & _ & ? & ?). unfold plain_main. apply client_runs. split_and!; try done. by repeat constructor.
Qed.
Lemma writes_main es : writes (made ++ es ++ [Freed Out; Freed Web; Freed Ctx]) = writes es.
Proof. unfold writes. rewrite !omap_app. cbn. by rewrite app_nil_r. Qed.

Lemma chat_front rs x es b : plain_chat rs x = Ok (es, b) -> exists es', es = [Printed prompt; Wrote (padded MAX_BUFF (chunk 1023 x))] ++ es'.
Proof.
  destruct rs as [|a rs]; cbn [plain_chat]; [intros [= <- _]; by exists []|]. destruct (text_of _) as [t|]; [|done]. cbn [mbind res_bind].
  destruct (match a with Bytes _ => _ | Nothing retry => retry end); [|intros [= <- _]; eauto]. destruct (plain_chat rs _) as [[es' b']|]; [|done]. intros [= <- _]. cbn. eauto.
Qed.
Lemma chat_answer x rs (l := chunk 1023 x) : no_nul x -> (length l <= 1010)%nat ->
  plain_chat (Bytes (answered l) :: rs) x = (r ← plain_chat rs (drop (length l) x); Ok (talked [l] ++ r.1, r.2)).
Proof.
  intros Hx Hl. pose proof (chat_lines 1 x rs Hx) as H. cbn [Chat.lines fmap list_fmap concat] in H. rewrite app_nil_r in H. apply H. by constructor.
Qed.

(** The answers the server sends are those to the lines: no others fit. *)
Lemma answers_determined n : forall x es sh ans, no_nul x -> Forall (fun l => (length l <= 1010)%nat) (Chat.lines (S n) x) ->
  Forall (fun l => ~ last_line l) (take n (Chat.lines (S n) x)) -> (forall l, last (Chat.lines (S n) x) = Some l -> last_line l) ->
  plain_chat ((Bytes <$> ans) ++ [Nothing false]) x = Ok (es, true) -> comm (writes es) = Ok (sh, ans, true) ->
  ans = answered <$> Chat.lines (S n) x.
Proof.
  induction n as [|n IH]; intros x es sh ans Hx Hl Hn Hlast Hc Hs; cbn [Chat.lines] in *; set (l := chunk 1023 x) in *;
    apply Forall_cons in Hl as [Hl Hls]; assert (fits l) as Hfit by (split; [by apply chunk_no_nul|done]);
    destruct (chat_front _ _ _ _ Hc) as [es' ->]; fold l in Hs; cbn [writes omap list_omap app comm] in Hs; fold (writes es') in Hs;
    rewrite comm_turn_line in Hs by done; cbn [mbind res_bind fst snd] in Hs.
  - assert (says_exit (padded MAX_BUFF l) = true) as E by (by apply bool_decide_true, Hlast). rewrite E in Hs. by injection Hs as _ <-.
  - cbn [take] in Hn. apply Forall_cons in Hn as [Hnl Hn]. assert (says_exit (padded MAX_BUFF l) = false) as E by (by apply bool_decide_false).
    rewrite E in Hs. destruct (comm (writes es')) as [[[sh' ans'] b']|] eqn:Ec; [|done]. injection Hs as _ <- ->. rewrite fmap_cons in *. f_equal.
    pose proof (chat_answer x ((Bytes <$> ans') ++ [Nothing false]) Hx Hl) as Ha. cbn zeta in Ha. fold l in Ha.
    rewrite fmap_cons, <- app_comm_cons, Ha in Hc.
    destruct (plain_chat _ (drop (length l) x)) as [[es'' b]|] eqn:Ep; [|done]. injection Hc as <- ->.
    apply (IH (drop (length l) x) es'' sh'); [by apply Forall_drop|done|done|done|done|done].
Qed.

(** The server answers the lines and ends with the last, whatever follows. *)
Lemma comm_session n ls rest : length ls = S n -> Forall fits ls -> Forall (fun l => ~ last_line l) (take n ls) -> (forall l, last ls = Some l -> last_line l) ->
  comm ((padded MAX_BUFF <$> ls) ++ rest) = Ok ((ls ≫= shows) ++ chars "server exit" ++ [10], answered <$> ls, true).
Proof.
  intros HL Hf Hn Hlast. destruct (exists_last (l := ls)) as (l0 & z & ->); [by intros ->|]. rewrite length_app in HL. cbn in HL.
  rewrite take_app_length' in Hn by lia. specialize (Hlast z (last_snoc _ _)). apply Forall_app in Hf as [Hf [Hz _]%Forall_cons].
  rewrite fmap_app, <- app_assoc, comm_lines by done. cbn [fmap list_fmap app]. rewrite comm_last by done. cbn [mbind res_bind fst snd].
  rewrite bind_app, fmap_app. cbn [mbind list_bind fmap list_fmap]. by rewrite app_nil_r, <- !app_assoc.
Qed.

(** C16: the two programs of src/sock-tls-tcp together, when every call of the client's set-up
    succeeds: lines of up to 1010 characters, none with a zero byte, of which the last and no
    other begins with [exit]. There is exactly one conversation in which the server reads what
    the client writes and the client what the server sends: the client writes the lines as they
    were typed and shows the answer to each; the server shows and answers each, ends with the
    last, and goes on to its next visitor; the client, which does not look for [exit], takes one
    more line before it finds the end of the connection, and releases what it made. *)
Theorem tls_session o n x vs (ls := Chat.lines (S n) x) : all_well o [] -> no_nul x -> Forall (fun l => (length l <= 1010)%nat) ls ->
  Forall (fun l => ~ last_line l) (take n ls) -> (forall l, last ls = Some l -> last_line l) ->
  let ec := made ++ (talked ls ++ parting (drop (length (concat ls)) x)) ++ [Freed Out; Freed Web; Freed Ctx] in
  let sh := (ls ≫= shows) ++ chars "server exit" ++ [10] in
  conversation o x ec sh (answered <$> ls) /\
  (forall ec' sh' ans', conversation o x ec' sh' ans' -> ec' = ec /\ sh' = sh /\ ans' = answered <$> ls) /\
  serve (Talks (writes ec) :: vs) = (r ← serve vs; Ok ([Shown sh] ++ (Sent ∘ answered <$> ls) ++ [SslFreed; ClientClosed] ++ r.1, r.2)).
Proof.
  intros Ho Hx Hl Hn Hlast ec sh. assert (length ls = S n) as HL by apply length_lines. assert (Forall fits ls) as Hf by (by apply lines_fit).
  assert (plain_main o 1 1 ((Bytes <$> (answered <$> ls)) ++ [Nothing false]) x = Ok (ec, Returned 0)) as Hmain.
  { rewrite plain_main_runs, <- list_fmap_compose by done. unfold ls. rewrite chat_lines by done. fold ls. done. }
  assert (comm (writes ec) = Ok (sh, answered <$> ls, true)) as Hcomm.
  { unfold ec. rewrite writes_main. unfold writes. rewrite omap_app. fold (writes (talked ls)). rewrite writes_talked. by apply (comm_session n). }
  split; [by split|]. split.
  - intros ec' sh' ans' [Hm Hc]. assert (ans' = answered <$> ls) as ->; [|rewrite Hmain in Hm; injection Hm as <-; rewrite Hcomm in Hc; by injection Hc as <-].
    rewrite plain_main_runs in Hm by done. destruct (plain_chat _ x) as [[es b]|] eqn:Ep; [|done]. cbn [mbind res_bind fst snd] in Hm.
    destruct b; [|done]. assert (ec' = made ++ es ++ [Freed Out; Freed Web; Freed Ctx]) as -> by (by injection Hm). rewrite writes_main in Hc. by eapply answers_determined.
  - cbn [serve]. rewrite Hcomm. cbn [mbind res_bind fst snd]. rewrite <- list_fmap_compose. destruct (serve vs) as [[r1 r2]|]; [|done].
    cbn [mbind res_bind fst snd]. by rewrite <- !app_assoc.
Qed.

Definition fine : calls := mk_calls true true 1 true 1 true 1 1 true true 0.
Lemma tls_session_witness : exists ec sh, conversation fine (chars "hi" ++ [10] ++ chars "exit") ec sh (answered <$> [chars "hi" ++ [10]; chars "exit"]).
Proof.
  edestruct (tls_session fine 1 (chars "hi" ++ [10] ++ chars "exit") []) as (H & _ & _); [done|by_compute|by_compute|by_compute| |].
  - intros l Hl. assert (l = chars "exit") as -> by (apply (inj Some); rewrite <- Hl; by vm_compute). by vm_compute.
  - eexists _, _. exact H.
Defined.

(** What the server cannot cope with. A client that leaves without [exit]: the server goes on
    reading nothing and answering, without end, and takes no other client. A client whose handshake fails
    ends the server. A line of 1011 characters or more overruns the buffer of the answer. *)
Theorem tls_server_limits ls vs : Forall fits ls -> Forall (fun l => ~ last_line l) ls ->
  (forall k, exists x, serve (Talks ((padded MAX_BUFF <$> ls) ++ replicate k []) :: vs) =
     Ok ([Shown x] ++ (Sent ∘ answered <$> ls ++ replicate k []), Waiting)) /\
  serve (HandshakeFails :: vs) = Ok ([], Returns (-1)) /\
  (forall l, no_nul l -> (1011 <= length l <= 1023)%nat -> serve (Talks ((padded MAX_BUFF <$> ls) ++ [padded MAX_BUFF l]) :: vs) = Err OutOfBounds).
Proof.
  intros Hf Hn. split_and!; [|done|].
  - intros k. assert (comm (replicate k []) = Ok (replicate k [] ≫= shows, answered <$> replicate k [], false)) as Hk.
    { assert (comm (replicate k []) = comm (padded MAX_BUFF <$> replicate k [])) as ->.
      { induction k as [|k IH]; [done|]. cbn [replicate fmap list_fmap comm]. rewrite IH.
        by assert (comm_turn (take MAX_BUFF []) = comm_turn (take MAX_BUFF (padded MAX_BUFF []))) as -> by (by vm_compute). }
      pose proof (comm_lines (replicate k []) []) as H. rewrite !app_nil_r in H. rewrite H; [cbn; by rewrite !app_nil_r| |].
      - apply Forall_replicate. split; [constructor|cbn; lia].
      - apply Forall_replicate. unfold last_line. by vm_compute. }
    eexists. cbn [serve]. rewrite comm_lines, Hk by done. cbn [mbind res_bind fst snd]. by rewrite list_fmap_compose, !fmap_app.
  - intros l Hl Hlen. cbn [serve]. rewrite comm_lines by done.
    assert (length (padded MAX_BUFF l) = MAX_BUFF) as Hp by (apply length_padded; unfold MAX_BUFF; lia).
    assert (comm [padded MAX_BUFF l] = Err OutOfBounds) as ->; [|done]. cbn [comm]. rewrite take_ge by (by rewrite Hp).
    unfold comm_turn, text_of. rewrite padded_padded by (unfold MAX_BUFF; lia).
    rewrite c_string_padded by (rewrite ?c_chars_none by done; unfold MAX_BUFF; lia). cbn [mbind res_bind]. fold (response (padded MAX_BUFF l)).
    rewrite response_long; [done|by rewrite Hp|]. rewrite c_chars_padded, c_chars_none by done. lia.
Qed.
Lemma tls_server_limits_witness : exists x, serve (Talks ((padded MAX_BUFF <$> [chars "hi"]) ++ replicate 2 []) :: []) =
  Ok ([Shown x] ++ (Sent ∘ answered <$> [chars "hi"] ++ replicate 2 []), Waiting).
Proof. apply (tls_server_limits [chars "hi"] []); by_compute. Defined.
End Server.
