(* ===== verification/TlsTable.v ===== *)
(** * The TLS server with a table of channels

    src/sock-tls-ctx-tcp/server: an event loop that keeps, for each client, its socket and the
    two OpenSSL objects made for it in a table ([CLIENT_CTX], [TLSCH_HEAD]). The model has the
    table, the objects that are alive, and the open descriptors, of which the lowest free
    number is handed out. Logging is left out, but not the descriptors it uses. *)
From stdpp Require Import base numbers list gmap strings fin_sets relations.
From S2P Require Import Prelude CBase CDecimal CHeap Sock EchoTable.
Local Open Scope Z_scope.

Module Channels.

Definition MAX_CONN : nat := 80.
Definition EXIT_FAILURE : Z := 1.

(** [struct TLS_CHANNEL]; the pointers name the objects they point to. *)
Record channel := mk_channel { sock : Z; ssl : option nat; ctx : option nat }.

(** The state: the table and its head; the open descriptors and those watched; the live
    objects, a connection with the descriptor it reads and writes; the next name for an
    object; and what was written to each descriptor through its connection. *)
Record state := mk_state {
  CLIENT_CTX : list channel; TLSCH_HEAD : nat; fds : gset Z; watched : gset Z;
  ssls : gmap nat Z; ctxs : gset nat; fresh : nat; sent : list (Z * list Z) }.

Definition set_table (t : list channel) (h : nat) (s : state) : state :=
  mk_state t h (fds s) (watched s) (ssls s) (ctxs s) (fresh s) (sent s).
Definition set_fds (f w : gset Z) (s : state) : state :=
  mk_state (CLIENT_CTX s) (TLSCH_HEAD s) f w (ssls s) (ctxs s) (fresh s) (sent s).
Definition set_objects (c : gmap nat Z) (x : gset nat) (n : nat) (s : state) : state :=
  mk_state (CLIENT_CTX s) (TLSCH_HEAD s) (fds s) (watched s) c x n (sent s).
Definition set_sent (o : list (Z * list Z)) (s : state) : state :=
  mk_state (CLIENT_CTX s) (TLSCH_HEAD s) (fds s) (watched s) (ssls s) (ctxs s) (fresh s) o.

(** ** The table *)

Definition set_tlsch (fd : Z) (ssl_con ssl_ctx : nat) : ST state Z := fun s =>
  if decide (TLSCH_HEAD s + 1 = MAX_CONN)%nat then Ok (-1, s)
  else if decide (TLSCH_HEAD s < length (CLIENT_CTX s))%nat then
    Ok (0, set_table (<[TLSCH_HEAD s := mk_channel fd (Some ssl_con) (Some ssl_ctx)]> (CLIENT_CTX s)) (TLSCH_HEAD s + 1) s)
  else Err OutOfBounds.

(** The entries the loops go through: up to the head, which is included. *)
Definition seen (s : state) : list channel := take (TLSCH_HEAD s + 1) (CLIENT_CTX s).
Definition find (fd : Z) (s : state) : option channel := snd <$> list_find (fun c => sock c = fd) (seen s).
Definition get_tlsch_ssl (fd : Z) (s : state) : option nat := c ← find fd s; ssl c.
Definition get_tlsch_ctx (fd : Z) (s : state) : option nat := c ← find fd s; ctx c.

(** The objects of an entry are released. *)
Definition free_channel (c : channel) : ST state unit := fun s =>
  match ssl c, ctx c with
  | Some p, Some q =>
      match ssls s !! p with
      | None => Err UseAfterFree
      | Some _ => if decide (q ∈ ctxs s) then Ok (tt, set_objects (delete p (ssls s)) (ctxs s ∖ {[q]}) (fresh s) s) else Err BadFree
      end
  | _, _ => Err NullDeref
  end.

Fixpoint release_loop (fd : Z) (cs : list channel) (hit : bool) : ST state bool :=
  match cs with
  | [] => mret hit
  | c :: cs' => if decide (sock c = fd) then free_channel c;; release_loop fd cs' true else release_loop fd cs' hit
  end.
Definition release_tlsch (fd : Z) : ST state Z :=
  s ← stget;
  hit ← release_loop fd (seen s) false;
  s ← stget;
  if (hit : bool) then stput (set_table (CLIENT_CTX s) (TLSCH_HEAD s - 1) s);; mret 0 else mret (-1).

(** ** Connections *)

(** What the calls give that do not depend on the state: [SSL_CTX_new], the two files, the
    handshake, making the socket non-blocking, watching it. *)
Record luck := mk_luck { context : bool; cert_file : Z; key_file : Z; accepts : Z; nonblock : Z; epoll_add : Z }.

Definition create_context (l : luck) : ST state (Z + nat) := fun s =>
  if negb (context l) then Ok (inl EXIT_FAILURE, s)
  else Ok (inr (fresh s), set_objects (ssls s) ({[fresh s]} ∪ ctxs s) (S (fresh s)) s).
Definition configure_context (l : luck) : ST state (Z + unit) :=
  if cert_file l <=? 0 then exit EXIT_FAILURE else if key_file l <=? 0 then exit EXIT_FAILURE else xret tt.
(** [SSL_new] and [SSL_set_fd]. *)
Definition new_ssl (fd : Z) : ST state nat := fun s => Ok (fresh s, set_objects (<[fresh s := fd]> (ssls s)) (ctxs s) (S (fresh s)) s).

Section kernel.
(** The number of descriptors a process may have. *)
Variable limit : Z.

(** A new descriptor; [-1] when there is none left. *)
Definition new_fd : ST state Z := fun s =>
  let n := lowest (fds s) in
  if n <? limit then Ok (n, set_fds ({[n]} ∪ fds s) (watched s) s) else Ok (-1, s).
Definition close_fd (fd : Z) : ST state unit := fun s => Ok (tt, set_fds (fds s ∖ {[fd]}) (watched s ∖ {[fd]}) s).

(** One turn for a waiting client. *)
Definition take_conn (l : luck) : ST state (Z + bool) :=
  infd <~ xlift new_fd;
  if infd =? -1 then xret false
  else
    c <~ create_context l;
    _ <~ configure_context l;
    p <~ xlift (new_ssl infd);
    if accepts l <? 1 then
      s <~ xlift stget;
      _ <~ xlift (stput (set_objects (delete p (ssls s)) (ctxs s ∖ {[c]}) (fresh s) s));
      xret true
    else if nonblock l <? 0 then exit EXIT_FAILURE
    else
      _ <~ xlift (set_tlsch infd p c);
      if epoll_add l <? 0 then exit EXIT_FAILURE
      else
        s <~ xlift stget;
        _ <~ xlift (stput (set_fds (fds s) ({[infd]} ∪ watched s) s));
        xret true.

(** All clients that are waiting; then [accept] fails. *)
Fixpoint handle_conn (ls : list luck) : ST state (Z + unit) :=
  match ls with
  | [] => xret tt
  | l :: ls' => more <~ take_conn l; if (more : bool) then handle_conn ls' else xret tt
  end.

(** What [SSL_read] gives: bytes, 0, or -1. *)
Inductive rd := Data (x : list Z) | Closed | Failed.

Definition SSL_SERVER_RESP : list Z := [83; 83; 76; 32; 83; 69; 82; 86; 69; 82; 32; 82; 69; 83; 80; 58; 32].

(** A use of a connection. *)
Definition use_ssl (p : option nat) : ST state Z := fun s =>
  match p with None => Err NullDeref | Some p => match ssls s !! p with None => Err UseAfterFree | Some fd => Ok (fd, s) end end.

Definition handle_client (cfd : Z) (r : rd) : ST state unit :=
  fp ← new_fd;
  if fp =? -1 then stfail NullDeref
  else
    s ← stget;
    let sslst := get_tlsch_ssl cfd s in
    use_ssl sslst;;
    let '(buff, done) := match r with Data x => (take MAX_BUFF x, false) | Closed | Failed => ([], true) end in
    wbuff ← lift (reply SSL_SERVER_RESP buff);
    fd ← use_ssl sslst;
    s ← stget;
    stput (set_sent (sent s ++ [(fd, wbuff)]) s);;
    if (done : bool) then release_tlsch cfd;; close_fd cfd else mret tt.

(** An event of the loop in [main]: a descriptor, whether it is an error, who waits, what is
    read. *)
Definition turn (SOCKFD fd : Z) (bad : bool) (waiting : list luck) (r : rd) : ST state (Z + unit) :=
  if bad then xlift (close_fd fd)
  else if SOCKFD =? fd then handle_conn waiting
  else xlift (handle_client fd r).
End kernel.

(** When the loop begins: standard streams, the listening socket and the watching descriptor
    are open. *)
Definition SOCKFD : Z := 3.
Definition start : state :=
  mk_state (replicate MAX_CONN (mk_channel 0 None None)) 0 (list_to_set [0; 1; 2; 3; 4]) {[SOCKFD]} ∅ ∅ 0 [].

(** [main] up to its loop, with the outcomes of its calls. *)
Record boot := mk_boot { b_socket : Z; b_bind : Z; b_nonblock : Z; b_listen : Z; b_epoll : Z; b_add : Z }.
Definition main (o : boot) : Z + state :=
  if b_socket o =? -1 then inl EXIT_FAILURE
  else if negb (b_bind o =? 0) then inl EXIT_FAILURE
  else if b_nonblock o <? 0 then inl EXIT_FAILURE
  else if negb (b_listen o =? 0) then inl EXIT_FAILURE
  else if b_epoll o =? -1 then inl EXIT_FAILURE
  else if b_add o <? 0 then inl EXIT_FAILURE
  else inr start.

(** ** Proofs *)







Section kernel.
Context (limit : Z).

(** A descriptor can be had. *)
Definition room (s : state) : Prop := lowest (fds s) < limit.






Definition smooth : luck := mk_luck true 1 1 1 0 0.




(** What is sent back for what was read. *)
Definition ssl_answer (x : list Z) : list Z := padded MAX_BUFF (SSL_SERVER_RESP ++ c_chars x).
Definition logged (s : state) : state := set_fds ({[lowest (fds s)]} ∪ fds s) (watched s) s.
Definition replied (fd : Z) (x : list Z) (s : state) : state := set_sent (sent s ++ [(fd, ssl_answer x)]) (logged s).











End kernel.


(** *** What the table cannot do *)

Inductive act := Arrive | Say (fd : Z) (x : list Z) | Leave (fd : Z).
Fixpoint exec (acts : list act) (s : state) : res state :=
  match acts with
  | [] => Ok s
  | a :: acts' =>
      s' ← match a with
           | Arrive => r ← handle_conn 1024 [smooth] s; Ok r.2
           | Say fd x => r ← handle_client 1024 fd (Data x) s; Ok r.2
           | Leave fd => r ← handle_client 1024 fd Closed s; Ok r.2
           end;
      exec acts' s'
  end.

(** With two clients, the first leaves and another arrives: the new client's first message is a
    use of the released connection, the second's entry is overwritten and its message finds no connection. The
    80th client at a time has no entry. Messages use up descriptors, one each, until the file of the log
    cannot be opened. A failed handshake leaves its descriptor open. *)
Theorem table_limits :
  exec [Arrive; Arrive; Leave 5; Arrive; Say 5 (chars "hi")] start = Err UseAfterFree /\
  exec [Arrive; Arrive; Leave 5; Arrive; Say 6 (chars "hi")] start = Err NullDeref /\
  exec (replicate 80 Arrive ++ [Say 84 (chars "hi")]) start = Err NullDeref /\
  (forall fd x s, base.size (fds (replied fd x s)) = S (base.size (fds s))) /\ (forall fd r s, ~ room 1024 s -> handle_client 1024 fd r s = Err NullDeref) /\
  exists s, handle_conn 1024 [mk_luck true 1 1 0 0 0] start = Ok (inr tt, s) /\ fds s = {[5]} ∪ fds start /\ watched s = watched start.
Proof.
  split_and!; [by vm_compute|by vm_compute|by vm_compute|..].
  - intros fd x s. cbn. rewrite size_union, size_singleton; [done|]. apply disjoint_singleton_l, lowest_fresh.
  - intros fd r s Hn. unfold handle_client. assert (new_fd 1024 s = Ok (-1, s)) as E by (unfold new_fd; unfold room in Hn; rewrite (proj2 (Z.ltb_ge _ _)) by lia; done).
    by rewrite (bind_run _ _ _ _ _ E).
  - eexists. split; [by vm_compute|]. by vm_compute.
Qed.
End Channels.
